(* ===== verification/_CoqProject ===== *)
-Q . S2P
Prelude.v
Message.v
MqPrivate.v
MqGlobal.v
HandleName.v
HandleSlot.v
Text.v
Bytes.v
SocketMessage.v
SocketObject.v
SocketEndpoint.v
SocketCmd.v
SocketState.v
SocketServer.v
SocketStream.v
SocketDrain.v
SocketOrder.v
SocketEdge.v
ModManager.v
Timer.v
Env.v
Service.v
Node.v
Command.v
Scheduler.v
Manager.v
Dispatch.v
CService.v
CServiceProof.v
NodeSocket.v
Netpack.v
NetpackStream.v
LuaCall.v
Seri.v
SeriProof.v
SeriType.v
CryptBase.v
Dh.v
CryptText.v
Des.v
DesProof.v
CryptHash.v
Sha1.v
Sha1Proof.v
Cluster.v
ClusterProof.v
RecvBuffer.v
RecvProof.v
LuaSocket.v
LuaSocketProof.v
Stm.v
StmProof.v
StmRegister.v
ShareData.v
ShareHash.v
ShareChain.v
ShareProof.v
ShareRead.v
ShareCopy.v
ShareDelete.v
ShareClaims.v
Threads.v
