(* ===== verification/Prelude.v ===== *)
(** * skynet++: a verification development

    skynet++ is a node of communicating services. A service is a C module (most of them run
    a Lua script) with a callback and a private message queue. Worker threads take queues
    off a global list and run callbacks on their messages; a timer thread advances a timing
    wheel whose expired timers become messages; a socket thread runs an event loop whose
    events become messages; a monitor thread reports callbacks that do not return. Services
    call back into the node: they send messages, run textual commands, set timers, open and
    write to sockets. Lua services use libraries in C: they serialise values into messages,
    cut the byte streams of connections into packages and lines, talk to services of other
    nodes, and encrypt, hash and encode strings.

    The development models this program as Rocq functions and proves what makes its parts
    correct. Paths below are relative to src/skynet-src unless they start with src/.

    ** Conventions

    Pointers, handles and integers are [Z]; arithmetic wraps where the C++ type does ([u32],
    [u64], [s32]) and signed overflow is a fault ([int_chk]). An operation that can fail with
    an assertion, an access out of bounds, a null or freed pointer, and so on returns a
    [result]; "never faults" is a theorem about [Ok]. A heap is a finite map from addresses,
    and an allocation takes a fresh address. A loop that is not structural has fuel, and
    running out of it is the fault [OutOfFuel], so that a theorem which gives an [Ok] result
    also says that the fuel is enough; the fuels are computed from the size of what the loop
    consumes (the capacity of a queue, 2^24 handles, 65536 socket slots, the bytes of a
    stream, the 33 levels of nested tables that packing allows), or are a bound in the
    statement when the environment decides how long a loop runs (interrupted system calls).
    Code outside the repository is a parameter: [dlopen] and [dlsym], the entry points of
    loaded services, clocks, system calls (the class [Kernel]), Lua's globals (the class
    [LuaGlobals]), its conversions of numbers (the class [LuaNumbers]), [inet_ntop],
    [lua_rawlen]. What a theorem needs of a parameter is a
    hypothesis of it, and its witness instantiates the parameter.

    ** Parts and files

    Shared: [Prelude] (results, machine integers, arrays, record updates, tactics), [Text]
    (formatting and parsing of the C library), [Bytes] (integers and buffers as bytes).

    Messages and queues. [Message]: mq/mq_msg.h. [MqPrivate]: the ring buffer of a service,
    mq/mq_private; [mq_private_fifo] relates every sequence of operations to a list.
    [MqGlobal]: mq/mq_global and the operations of private queues that reach it;
    [mq_global_fifo] relates the intrusive list to a list of queues, and
    [release_drops_everything] says what becomes of the messages of a dead service.

    Services. [HandleName] and [HandleSlot]: the name table and the slot array of
    service/service_manager; the former refines a finite map, the latter hands out handles
    that are not in use. [ModManager]: mod/. [Service]: contexts, creation, sending and
    release, log/log.cpp. [Scheduler]: the interleavings of the atomic operations of all
    threads as a step relation; in every reachable state no operation faults, a service with
    pending messages is scheduled exactly once, and reference counts are exact. [Manager]:
    the calls of [Service] as sequences of those operations: what a send, a log call and the
    end of all services do.

    The node. [Timer]: timer/, the wheel refines a list of pending timers. [Env]: node/node_env
    and node/node_config. [Node]: message dispatch, bootstrap and the service monitor,
    node/node.cpp, service/service_monitor, service/service_log. [Command]: the commands of
    service/service_command. [Dispatch]: how many messages one dispatch consumes, when a
    stuck worker is reported. [Threads]: node/node_thread, the thread functions as state
    machines over mutex and condition variable: no worker is left asleep at the end, and all
    of them end. [CService] and [CServiceProof]: the C services of src/service-src with the
    types of the entry points that the core calls: what is logged is printed, whatever the
    configuration the logger has a sink, the argument of a Lua service reaches the Lua loader,
    and the allocator keeps its limit.

    Sockets. [SocketMessage]: the message a service receives. [SocketObject]: socket objects
    and the allocation of ids. [SocketEndpoint]: addresses. [SocketCmd]: control commands
    byte by byte, and that what the socket thread decodes is what was sent. [SocketState]:
    the state of the server, the pipe, the epoll poller, the lock. [SocketServer]: every
    function of socket/socket_server.cpp. [SocketStream], [SocketDrain] and [SocketOrder]:
    the bytes that workers and the socket thread write to one connection reach the kernel in
    the order of the sends, none lost and none twice, and all of them do. [SocketEdge]: three
    behaviours that callers do not expect. [NodeSocket]: node/node_socket, and the delivery
    of data to the service that owns a socket.

    Lua libraries. [LuaCall]: functions that return or leave with a Lua error, their loops
    and buffers. [Netpack] and [NetpackStream]: src/luaclib-src/lua-netpack.cpp, packages
    are cut where they were put together, for any chunks and interleavings. [Seri] and
    [SeriProof]: src/luaclib-src/lua-seri.cpp, what is unpacked is what was packed, and any
    bytes at all can be unpacked without leaving the buffer; [SeriType]: what they give is
    well typed. [Cluster] and [ClusterProof]:
    src/luaclib-src/lua-cluster.cpp with the Lua code that keeps messages in parts, requests
    whose packages are mixed and responses arrive as they were sent, and no bytes of another
    node make it leave a buffer. [RecvBuffer] and [RecvProof]: the received data that
    src/luaclib-src/lua-socket.cpp keeps for a service, the buffers that share a pool of
    nodes are queues of bytes. [LuaSocket] and [LuaSocketProof]: the rest of lua-socket.cpp;
    events and datagrams with their senders arrive in Lua, strings are sent in order, tables
    are not, an address means the same in one string as in two arguments. [Stm], [StmProof] and [StmRegister]:
    src/luaclib-src/lua-stm.cpp, a message that one writer replaces and many readers read,
    one step per shared access; no step touches freed memory, and the object is an atomic
    register. [ShareData] to [ShareClaims]: src/luaclib-src/lua-sharedata.cpp with the reading
    half of src/lualib/skynet/sharedata/corelib.lua, Lua tables turned into arrays and hash
    tables in C. [ShareHash], [ShareChain] and [ShareProof] show that the conversion makes
    hash tables whose chains are right, [ShareRead] and [ShareCopy] that reading and copying
    them gives the Lua table back, [ShareDelete] that they are trees, which deletion frees as
    a whole; the theorems are in [ShareClaims].

    The crypt library, src/luaclib-src/lua-crypt.cpp and lsha1.c. [CryptBase]: errors,
    buffers, 32-bit words. [Dh]: the exchange of keys modulo a prime; both sides find the
    same secret, and the powers are the powers. [CryptText]: hexadecimal, base64, xor.
    [Des] and [DesProof]: DES with its two paddings, decoding gives the text back.
    [CryptHash]: the hashes built on one block of MD5, compared with MD5 of RFC 1321. [Sha1]
    and [Sha1Proof]: the unrolled SHA-1 with its context is SHA-1 of the standard, and
    HMAC-SHA-1 on top of it.

    ** How the parts are connected

    [Service] stores the states of [MqGlobal], [HandleName], [HandleSlot] and [ModManager] in
    one record [world]; [Node], [Command], [Scheduler], [Manager] and [Dispatch] work on it.
    [Timer] and [Env] take what they call as parameters, which [Command] and [Node] fill in.
    The server of [SocketServer] is a record of its own; [NodeSocket] puts it beside the
    [world] and moves blocks of memory from one to the other. The socket thread and the
    worker threads of [SocketOrder] share the server, one operation at a time. The stream
    that [SocketOrder] delivers is what [Netpack] and [RecvBuffer] cut; [ClusterProof] takes
    its packages from the stream of [NetpackStream]. [LuaSocket] calls [NodeSocket] and unpacks
    the messages that it queues, a send of Lua is one of [SocketStream]. [Threads] is
    about what the threads share apart from these states, and takes what the calls into them
    return with each step. [ShareData] shares the Lua values of [Seri].

    ** Simplifications and what is not modelled

    Operations that the code runs under a lock are atomic steps. The handle of a new service
    is stored in the same step as its slot. A pipe never fills up. [lsha1.c] is taken on a
    little-endian machine. [random] of the crypt library is an argument; that the modulus of
    [Dh] is prime is not used. The tags of traces between nodes do not reach the model. In
    [Stm] the unlock after a deletion is counted and the step goes on; addresses are not
    reused, and counters of references stay below 2^31. In [ShareData] Lua tables are finite
    trees; how many nested calls Lua allows and the room on its stack are arguments.

    In [CService] the printing of spdlog, the constructors of its sinks and the run of the Lua
    loader are arguments.

    Not modelled: the process helpers (daemon, signals), which are calls of the system; the kqueue poller, of another platform; the
    Lua binding of the core (lua-core), which moves arguments between the Lua stack and the
    functions modelled here; the other Lua libraries (datasheet, sharetable, the WebSocket and TCP variants of netpack), which
    work on the state of the Lua machine; the libraries under src/deps and
    src/luaclib-src-3rd. Of lua-netpack, lua-seri and lua-cluster, memory that Lua or a
    buffer owner frees is not tracked. Durations of sleeps are not modelled. *)
From stdpp Require Import base tactics list gmap strings.
From Stdlib Require Export ZArith Lia.
From stdpp Require Export base tactics list gmap strings.
Open Scope Z_scope.

(** ** Faults and results *)

(** What stops the C++ program: an [assert] that fails, an access the language
    leaves undefined, a signed overflow, a lock that waits, a call to [exit]. *)
Inductive fault :=
  | AssertFail
  | NullDeref
  | OutOfBounds
  | SignedOverflow
  | UseAfterFree
  | DoubleFree
  | UninitRead
  | UncaughtException
  | Blocked
  | ProcessExit
  | OutOfFuel.

#[export] Instance fault_eq_dec : EqDecision fault.
Proof. solve_decision. Defined.

Inductive result (A : Type) :=
  | Ok (a : A)
  | Err (f : fault).
Arguments Ok {A} a.
Arguments Err {A} f.

Definition rbind {A B} (m : result A) (k : A → result B) : result B :=
  match m with Ok a => k a | Err e => Err e end.

Declare Scope skynet_scope.
Delimit Scope skynet_scope with skynet.
Notation "x <- m ;; k" := (rbind m (λ x, k))
  (at level 100, m at next level, right associativity) : skynet_scope.
Notation "'let*' p := m 'in' k" := (rbind m (λ p, k))
  (at level 10, p strict pattern, m at level 200, k at level 200) : skynet_scope.
Notation "m ;;; k" := (rbind m (λ _ : unit, k))
  (at level 100, k at level 200, right associativity) : skynet_scope.
Open Scope skynet_scope.

Definition is_ok {A} (m : result A) : bool :=
  match m with Ok _ => true | Err _ => false end.

(** [assert(b)] *)
Definition massert (b : bool) : result unit := if b then Ok tt else Err AssertFail.

Lemma bind_Ok {A B} (a : A) (k : A → result B) : (x <- Ok a;; k x) = k a.
Proof. done. Qed.

Lemma bind_Ok_inv {A B} (m : result A) (k : A → result B) b :
  (x <- m;; k x) = Ok b → ∃ a, m = Ok a ∧ k a = Ok b.
Proof. destruct m; simpl; intros; [by eauto | discriminate]. Qed.

(** ** Machine integers *)

Definition INT_MAX : Z := 2147483647.
Definition UINT32_MAX : Z := 4294967295.

(** conversion of a mathematical integer to [uint32_t], [uint64_t]/[size_t], [int] *)
Definition u32 (z : Z) : Z := z mod 2 ^ 32.
Definition u64 (z : Z) : Z := z mod 2 ^ 64.
Definition s32 (z : Z) : Z := (z + 2 ^ 31) mod 2 ^ 32 - 2 ^ 31.

(** the values of these types *)
Definition is_s32 (z : Z) : Prop := - 2 ^ 31 <= z < 2 ^ 31.
Definition is_u32 (z : Z) : Prop := 0 <= z < 2 ^ 32.
Definition is_u64 (z : Z) : Prop := 0 <= z < 2 ^ 64.

(** a test that is counted *)
Definition b2z (b : bool) : Z := if b then 1 else 0.

(** signed [int] arithmetic whose overflow is undefined behaviour *)
Definition int_chk (z : Z) : result Z :=
  if (- INT_MAX - 1 <=? z) && (z <=? INT_MAX) then Ok z else Err SignedOverflow.

Lemma int_chk_Ok z : - INT_MAX - 1 <= z <= INT_MAX → int_chk z = Ok z.
Proof. unfold int_chk. intros. rewrite !(proj2 (Z.leb_le _ _)) by lia. done. Qed.

Lemma int_chk_inv z z' : int_chk z = Ok z' → z' = z ∧ - INT_MAX - 1 <= z <= INT_MAX.
Proof. unfold int_chk. destruct (_ && _) eqn:E; intros; simplify_eq. lia. Qed.

Lemma u32_range z : 0 <= u32 z < 2 ^ 32.
Proof. apply Z.mod_pos_bound. lia. Qed.
Lemma u64_range z : 0 <= u64 z < 2 ^ 64.
Proof. apply Z.mod_pos_bound. lia. Qed.
Lemma s32_range z : - 2 ^ 31 <= s32 z < 2 ^ 31.
Proof. unfold s32. pose proof (Z.mod_pos_bound (z + 2 ^ 31) (2 ^ 32)). lia. Qed.
Lemma u32_small z : 0 <= z < 2 ^ 32 → u32 z = z.
Proof. apply Z.mod_small. Qed.
Lemma u64_small z : 0 <= z < 2 ^ 64 → u64 z = z.
Proof. apply Z.mod_small. Qed.
Lemma s32_small z : - 2 ^ 31 <= z < 2 ^ 31 → s32 z = z.
Proof. intros. unfold s32. rewrite Z.mod_small; lia. Qed.

(** a number above the bits of another one *)
Lemma lor_shiftl a b n : 0 <= n → 0 <= a < 2 ^ n → Z.lor a (Z.shiftl b n) = a + b * 2 ^ n.
Proof.
  intros Hn Ha. rewrite <- Z.shiftl_mul_pow2 by done.
  assert (Hz : Z.land a (Z.shiftl b n) = 0).
  { apply Z.bits_inj'. intros i Hi. rewrite Z.land_spec, Z.shiftl_spec, Z.testbit_0_l by done.
    destruct (Z.ltb_spec i n); [by rewrite (Z.testbit_neg_r b), andb_false_r by lia|].
    rewrite <- (Z.mod_small a (2 ^ n)), Z.mod_pow2_bits_high by lia. done. }
  rewrite <- Z.lxor_lor by done. symmetry. by apply Z.add_nocarry_lxor.
Qed.

(** ** Arrays: a C array as a list, accessed with an [int] index *)

Definition arr_get {A} (l : list A) (i : Z) : result A :=
  if i <? 0 then Err OutOfBounds
  else match l !! Z.to_nat i with Some x => Ok x | None => Err OutOfBounds end.

Definition arr_set {A} (l : list A) (i : Z) (x : A) : result (list A) :=
  if (i <? 0) || (Z.of_nat (length l) <=? i) then Err OutOfBounds
  else Ok (<[Z.to_nat i := x]> l).

(** [for (int i = lo; i < lo + n; i++) s = body(i, s);] *)
Fixpoint for_loop {S} (n : nat) (lo : Z) (body : Z → S → result S) (s : S) : result S :=
  match n with
  | O => Ok s
  | S n' => s' <- body lo s;; for_loop n' (lo + 1) body s'
  end.

Section arrays.
Context {A : Type}.
Implicit Types l : list A.

Lemma lookup_nth l i d : (i < length l)%nat → l !! i = Some (nth i l d).
Proof. intros Hi. destruct (lookup_lt_is_Some_2 l i Hi) as [x Hx]. by rewrite nth_lookup, Hx. Qed.

Lemma arr_get_Ok l i x : 0 <= i → l !! Z.to_nat i = Some x → arr_get l i = Ok x.
Proof. intros Hi Hl. unfold arr_get. rewrite (proj2 (Z.ltb_ge _ _)) by lia. by rewrite Hl. Qed.

Lemma arr_get_inv l i x : arr_get l i = Ok x → 0 <= i ∧ l !! Z.to_nat i = Some x.
Proof.
  unfold arr_get. destruct (i <? 0) eqn:E; [done|].
  destruct (l !! _) eqn:E2; [|done]. intros; simplify_eq. split; [lia|done].
Qed.

Lemma arr_get_in_range l i : 0 <= i < Z.of_nat (length l) →
  ∃ x, l !! Z.to_nat i = Some x ∧ arr_get l i = Ok x.
Proof.
  intros Hi. destruct (lookup_lt_is_Some_2 l (Z.to_nat i)) as [x Hx]; [lia|].
  exists x. split; [done|]. apply arr_get_Ok; [lia|done].
Qed.

Lemma arr_set_Ok l i x : 0 <= i < Z.of_nat (length l) →
  arr_set l i x = Ok (<[Z.to_nat i := x]> l).
Proof.
  intros. unfold arr_set. rewrite (proj2 (Z.ltb_ge _ _)) by lia.
  rewrite (proj2 (Z.leb_gt _ _)) by lia. done.
Qed.

Lemma arr_set_inv l i x l' : arr_set l i x = Ok l' →
  0 <= i < Z.of_nat (length l) ∧ l' = <[Z.to_nat i := x]> l.
Proof.
  unfold arr_set. destruct (_ || _) eqn:E; [done|]. intros; simplify_eq.
  split; [lia|done].
Qed.
End arrays.

(** An invariant rule for [for_loop]: [P i s] holds before iteration [i]. *)
Lemma for_loop_inv {S} (P : Z → S → Prop) n lo (body : Z → S → result S) s :
  P lo s →
  (∀ i s, lo <= i < lo + Z.of_nat n → P i s → ∃ s', body i s = Ok s' ∧ P (i + 1) s') →
  ∃ s', for_loop n lo body s = Ok s' ∧ P (lo + Z.of_nat n) s'.
Proof.
  revert lo s. induction n as [|n IH]; intros lo s HP Hstep; simpl.
  - exists s. by rewrite Z.add_0_r.
  - destruct (Hstep lo s) as (s1 & Hb & HP1); [lia|done|].
    rewrite Hb. simpl.
    destruct (IH (lo + 1) s1) as (s' & Hl & HP'); [done| |].
    + intros i s2 Hi. apply Hstep. lia.
    + exists s'. split; [done|]. by replace (lo + Z.of_nat (Datatypes.S n)) with (lo + 1 + Z.of_nat n) by lia.
Qed.

(** ** Filtered lists *)
Section filters.
Context {A : Type} (P : A → Prop) `{∀ x, Decision (P x)}.

Lemma filter_all (l : list A) : (∀ x, x ∈ l → P x) → filter P l = l.
Proof.
  induction l as [|x l IH]; intros Hl; [done|]. rewrite filter_cons_True by (apply Hl; set_solver).
  f_equal. apply IH. set_solver.
Qed.

Lemma filter_filter (Q : A → Prop) `{∀ x, Decision (Q x)} (l : list A) :
  filter P (filter Q l) = filter (λ x, P x ∧ Q x) l.
Proof.
  induction l as [|x l IH]; [done|]. rewrite !filter_cons.
  destruct (decide (Q x)); [rewrite filter_cons|]; rewrite IH; repeat case_decide; naive_solver.
Qed.
End filters.

(** ** Record updates: [r <| f := v |>]

    The socket objects and the socket server are records of many fields. A record that
    declares how it is rebuilt from its fields ([Eta]) gets a setter for each of them. *)
Class Eta (R : Type) := eta : R → R.
Class Setter {R T : Type} (proj : R → T) := set_to : T → R → R.
Arguments set_to {R T} proj {_} _ _ /.

Ltac build_setter proj :=
  match goal with
  | |- @Setter ?R ?T _ =>
      let i := constr:(_ : Eta R) in
      exact (λ (v : T) (r : R), ltac:(
        let e := eval hnf in (i r) in
        let p := eval pattern (proj r) in e in
        match p with ?g _ => let t := eval cbv beta in (g v) in exact t end))
  end.
#[export] Hint Extern 1 (Setter ?proj) => build_setter proj : typeclass_instances.

Notation "r <| f := v |>" := (set_to f v r)
  (at level 12, f at level 11, v at level 200, left associativity, format "r  <| f  :=  v |>") : skynet_scope.

(** ** Automation *)

Create HintDb skynet discriminated.
#[export] Hint Resolve u32_range u64_range s32_range : skynet.

(** Decompose a successful monadic computation in a hypothesis. *)
Ltac inv_ok :=
  repeat match goal with
  | H : rbind ?m _ = Ok _ |- _ =>
      let a := fresh "a" in let Ha := fresh "Ha" in
      apply bind_Ok_inv in H; destruct H as (a & Ha & H)
  | H : Ok _ = Ok _ |- _ => injection H as H; try subst
  | H : Err _ = Ok _ |- _ => discriminate H
  | H : Ok _ = Err _ |- _ => discriminate H
  | H : massert ?b = Ok _ |- _ =>
      let E := fresh "E" in unfold massert in H; destruct b eqn:E; [clear H|discriminate H]
  end.

(** Turn boolean integer tests in the context into propositions. *)
Ltac zbool :=
  repeat match goal with
  | H : context [?a =? ?b] |- _ => destruct (Z.eqb_spec a b)
  | H : context [?a <? ?b] |- _ => destruct (Z.ltb_spec a b)
  | H : context [?a <=? ?b] |- _ => destruct (Z.leb_spec a b)
  | |- context [?a =? ?b] => destruct (Z.eqb_spec a b)
  | |- context [?a <? ?b] => destruct (Z.ltb_spec a b)
  | |- context [?a <=? ?b] => destruct (Z.leb_spec a b)
  end; simpl in *; try done; try lia.
