(* ===== verification/Message.v ===== *)
(** * Service messages (skynet-src/mq/mq_msg.h)

    The message record that travels between services, the message types, and
    the packing of the 8-bit type into the top byte of [data_size], as
    [service_manager::send] writes it and [node::_do_dispatch_message] reads it. *)
From S2P Require Import Prelude.

(** [enum service_message_type] *)
Inductive service_message_type :=
  | SERVICE_MSG_TYPE_TEXT
  | SERVICE_MSG_TYPE_RESPONSE
  | SERVICE_MSG_TYPE_MULTICAST
  | SERVICE_MSG_TYPE_CLIENT
  | SERVICE_MSG_TYPE_SYSTEM
  | SERVICE_MSG_TYPE_SOCKET
  | SERVICE_MSG_TYPE_ERROR
  | SERVICE_MSG_TYPE_RESERVED_QUEUE
  | SERVICE_MSG_TYPE_RESERVED_DEBUG
  | SERVICE_MSG_TYPE_RESERVED_LUA
  | SERVICE_MSG_TYPE_RESERVED_SNAX.

(** the enumerators' values *)
Definition msg_type_code (t : service_message_type) : Z :=
  match t with
  | SERVICE_MSG_TYPE_TEXT => 0
  | SERVICE_MSG_TYPE_RESPONSE => 1
  | SERVICE_MSG_TYPE_MULTICAST => 2
  | SERVICE_MSG_TYPE_CLIENT => 3
  | SERVICE_MSG_TYPE_SYSTEM => 4
  | SERVICE_MSG_TYPE_SOCKET => 5
  | SERVICE_MSG_TYPE_ERROR => 6
  | SERVICE_MSG_TYPE_RESERVED_QUEUE => 7
  | SERVICE_MSG_TYPE_RESERVED_DEBUG => 8
  | SERVICE_MSG_TYPE_RESERVED_LUA => 9
  | SERVICE_MSG_TYPE_RESERVED_SNAX => 10
  end.

Definition MESSAGE_TAG_DONT_COPY : Z := 0x10000.
Definition MESSAGE_TAG_ALLOC_SESSION : Z := 0x20000.

(** [struct service_message]; [data_ptr] is an address, 0 is [nullptr]. *)
Record service_message := mkMsg {
  src_svc_handle : Z;
  session_id : Z;
  data_ptr : Z;
  data_size : Z
}.

(** the default member initialisers *)
Definition service_message_default : service_message := mkMsg 0 0 0 0.

#[export] Instance service_message_eq_dec : EqDecision service_message.
Proof. solve_decision. Defined.
#[export] Instance service_message_inhabited : Inhabited service_message :=
  populate service_message_default.

(** [SIZE_MAX >> 8] and [(sizeof(size_t) - 1) * 8] with a 64-bit [size_t] *)
Definition SIZE_MAX : Z := 2 ^ 64 - 1.
Definition MESSAGE_TYPE_MASK : Z := Z.shiftr SIZE_MAX 8.
Definition MESSAGE_TYPE_SHIFT : Z := (8 - 1) * 8.

(** [msg_sz |= (size_t)svc_msg_type << MESSAGE_TYPE_SHIFT] *)
Definition pack_size (svc_msg_type msg_sz : Z) : Z :=
  Z.lor msg_sz (u64 (Z.shiftl svc_msg_type MESSAGE_TYPE_SHIFT)).

(** [msg->data_size >> MESSAGE_TYPE_SHIFT], [msg->data_size & MESSAGE_TYPE_MASK] *)
Definition unpack_type (data_size : Z) : Z := Z.shiftr data_size MESSAGE_TYPE_SHIFT.
Definition unpack_size (data_size : Z) : Z := Z.land data_size MESSAGE_TYPE_MASK.

(** [(msg_sz & MESSAGE_TYPE_MASK) != msg_sz]: the guard of [service_manager::send] *)
Definition size_too_large (msg_sz : Z) : bool :=
  negb (Z.land msg_sz MESSAGE_TYPE_MASK =? msg_sz).

(** ** Facts *)

Lemma MESSAGE_TYPE_MASK_ones : MESSAGE_TYPE_MASK = Z.ones 56.
Proof. reflexivity. Qed.

Lemma size_too_large_spec sz : 0 <= sz →
  size_too_large sz = false ↔ sz < 2 ^ 56.
Proof.
  intros Hsz. unfold size_too_large. rewrite MESSAGE_TYPE_MASK_ones, Z.land_ones by lia.
  rewrite negb_false_iff, Z.eqb_eq. split; intros H.
  - rewrite <- H. apply Z.mod_pos_bound. lia.
  - apply Z.mod_small. lia.
Qed.

Lemma pack_size_add ty sz : 0 <= ty < 256 → 0 <= sz < 2 ^ 56 →
  pack_size ty sz = sz + ty * 2 ^ 56.
Proof.
  intros Hty Hsz. unfold pack_size, MESSAGE_TYPE_SHIFT.
  rewrite u64_small by (rewrite Z.shiftl_mul_pow2; lia). apply lor_shiftl; lia.
Qed.

(** The type and the size survive the packing, for every 8-bit type and every
    size that passes [send]'s guard. *)
Lemma unpack_type_pack ty sz : 0 <= ty < 256 → 0 <= sz < 2 ^ 56 →
  unpack_type (pack_size ty sz) = ty.
Proof.
  intros. rewrite pack_size_add by done. unfold unpack_type, MESSAGE_TYPE_SHIFT.
  rewrite Z.shiftr_div_pow2 by lia. rewrite Z.div_add by lia.
  rewrite Z.div_small by lia. lia.
Qed.

Lemma unpack_size_pack ty sz : 0 <= ty < 256 → 0 <= sz < 2 ^ 56 →
  unpack_size (pack_size ty sz) = sz.
Proof.
  intros. rewrite pack_size_add by done. unfold unpack_size.
  rewrite MESSAGE_TYPE_MASK_ones, Z.land_ones by lia.
  rewrite Z.mod_add by lia. apply Z.mod_small. lia.
Qed.

Lemma pack_size_range ty sz : 0 <= ty < 256 → 0 <= sz < 2 ^ 56 →
  0 <= pack_size ty sz < 2 ^ 64.
Proof. intros. rewrite pack_size_add by done. lia. Qed.

(** ** Properties *)

(** The type and the size that [send] packs into [data_size] are the type and the size
    [_do_dispatch_message] reads back, for every type below 256 and every size [send]
    accepts, and the packed value is a [size_t]. *)
Theorem message_size_roundtrip ty sz : 0 <= ty < 256 → 0 <= sz → size_too_large sz = false →
  unpack_type (pack_size ty sz) = ty ∧ unpack_size (pack_size ty sz) = sz ∧ 0 <= pack_size ty sz < 2 ^ 64.
Proof.
  intros Hty Hsz Hl. apply size_too_large_spec in Hl; [|done].
  split_and!; [by apply unpack_type_pack|by apply unpack_size_pack|by apply pack_size_range..].
Qed.

Lemma message_size_roundtrip_witness :
  unpack_type (pack_size 10 4096) = 10 ∧ unpack_size (pack_size 10 4096) = 4096 ∧ 0 <= pack_size 10 4096 < 2 ^ 64.
Proof. apply (message_size_roundtrip 10 4096); [lia|lia|reflexivity]. Defined.
