(* ===== verification/MqPrivate.v ===== *)
(** * The private message queue of a service (skynet-src/mq/mq_private.h, .cpp)

    One ring buffer per service, with its capacity doubling, its overload
    threshold and the flags the scheduler reads. The operations here are the
    bodies of the member functions up to the calls into the global queue, which
    [MqGlobal] adds. The abstraction [contents] is the list of pending messages
    in arrival order; every operation is shown to act on it as on a FIFO queue. *)
From S2P Require Import Prelude Message.

(** the anonymous enum of [class mq_private] *)
Definition DEFAULT_QUEUE_CAPACITY : Z := 64.
Definition DEFAULT_OVERLOAD_THRESHOLD : Z := 1024.

(** [class mq_private]; [next_] is the address of the next queue of the global list. *)
Record mq_private := mkMq {
  svc_handle_ : Z;
  is_release_ : bool;
  is_in_global_ : bool;
  overload_ : Z;
  overload_threshold_ : Z;
  cap_ : Z;
  head_ : Z;
  tail_ : Z;
  queue_ : list service_message;
  next_ : Z
}.

#[export] Instance mq_private_eq_dec : EqDecision mq_private.
Proof. solve_decision. Defined.

Definition with_release (q : mq_private) (b : bool) : mq_private :=
  mkMq (svc_handle_ q) b (is_in_global_ q) (overload_ q) (overload_threshold_ q)
       (cap_ q) (head_ q) (tail_ q) (queue_ q) (next_ q).
Definition with_in_global (q : mq_private) (b : bool) : mq_private :=
  mkMq (svc_handle_ q) (is_release_ q) b (overload_ q) (overload_threshold_ q)
       (cap_ q) (head_ q) (tail_ q) (queue_ q) (next_ q).
Definition with_overload (q : mq_private) (ov thr : Z) : mq_private :=
  mkMq (svc_handle_ q) (is_release_ q) (is_in_global_ q) ov thr
       (cap_ q) (head_ q) (tail_ q) (queue_ q) (next_ q).
Definition with_ring (q : mq_private) (cap head tail : Z) (queue : list service_message)
  : mq_private :=
  mkMq (svc_handle_ q) (is_release_ q) (is_in_global_ q) (overload_ q) (overload_threshold_ q)
       cap head tail queue (next_ q).
Definition with_next (q : mq_private) (next : Z) : mq_private :=
  mkMq (svc_handle_ q) (is_release_ q) (is_in_global_ q) (overload_ q) (overload_threshold_ q)
       (cap_ q) (head_ q) (tail_ q) (queue_ q) next.

(** [mq_private::create] *)
Definition create (svc_handle : Z) : mq_private :=
  mkMq svc_handle false true 0 DEFAULT_OVERLOAD_THRESHOLD
       DEFAULT_QUEUE_CAPACITY 0 0
       (replicate (Z.to_nat DEFAULT_QUEUE_CAPACITY) service_message_default) 0.

(** [mq_private::_expand_queue] *)
Definition _expand_queue (q : mq_private) : result mq_private :=
  cap2 <- int_chk (cap_ q * 2);;
  new_queue <- for_loop (Z.to_nat (cap_ q)) 0
    (λ i nq, m <- arr_get (queue_ q) ((head_ q + i) mod cap_ q);; arr_set nq i m)
    (replicate (Z.to_nat cap2) service_message_default);;
  Ok (with_ring q cap2 0 (cap_ q) new_queue).

(** [mq_private::push], up to the test of [is_in_global_] *)
Definition enqueue (q : mq_private) (message : service_message) : result mq_private :=
  queue <- arr_set (queue_ q) (tail_ q) message;;
  let tail := tail_ q + 1 in
  let tail := if cap_ q <=? tail then 0 else tail in
  let q := with_ring q (cap_ q) (head_ q) tail queue in
  if head_ q =? tail then _expand_queue q else Ok q.

(** the [while (length > overload_threshold_)] loop of [pop] *)
Fixpoint overload_loop (fuel : nat) (length ov thr : Z) : result (Z * Z) :=
  if thr <? length then
    match fuel with
    | O => Err OutOfFuel
    | S fuel => thr2 <- int_chk (thr * 2);; overload_loop fuel length length thr2
    end
  else Ok (ov, thr).

(** enough doublings to take any positive [int] past any other *)
Definition overload_fuel : nat := 31.

(** [mq_private::pop]: the returned [bool] is [is_empty], [message] is the out
    parameter, unchanged when the queue is empty. *)
Definition pop (q : mq_private) (message : service_message)
  : result (bool * service_message * mq_private) :=
  if negb (head_ q =? tail_ q) then
    m <- arr_get (queue_ q) (head_ q);;
    let head := head_ q + 1 in
    let head := if cap_ q <=? head then 0 else head in
    let length := tail_ q - head in
    let length := if length <? 0 then length + cap_ q else length in
    ot <- overload_loop overload_fuel length (overload_ q) (overload_threshold_ q);;
    Ok (false, m,
        with_overload (with_ring q (cap_ q) head (tail_ q) (queue_ q)) ot.1 ot.2)
  else
    let q := with_overload q (overload_ q) DEFAULT_OVERLOAD_THRESHOLD in
    Ok (true, message, with_in_global q false).

(** [mq_private::length] *)
Definition length_ (q : mq_private) : Z :=
  if head_ q <=? tail_ q then tail_ q - head_ q else tail_ q + cap_ q - head_ q.

(** [mq_private::overload]: reads and clears *)
Definition overload (q : mq_private) : Z * mq_private :=
  if negb (overload_ q =? 0)
  then (overload_ q, with_overload q 0 (overload_threshold_ q))
  else (0, q).

(** [mq_private::svc_handle] *)
Definition svc_handle (q : mq_private) : Z := svc_handle_ q.

(** ** Abstraction *)

Definition ring_nth (q : mq_private) (i : Z) : service_message :=
  queue_ q !!! Z.to_nat ((head_ q + i) mod cap_ q).

(** the pending messages, oldest first *)
Definition contents (q : mq_private) : list service_message :=
  (λ i, ring_nth q (Z.of_nat i)) <$> seq 0 (Z.to_nat (length_ q)).

(** the representation invariant *)
Record mq_wf (q : mq_private) : Prop := {
  wf_cap : 0 < cap_ q;
  wf_cap_max : cap_ q <= INT_MAX;
  wf_len : Z.of_nat (length (queue_ q)) = cap_ q;
  wf_head : 0 <= head_ q < cap_ q;
  wf_tail : 0 <= tail_ q < cap_ q;
  wf_overload : 0 <= overload_ q;
  wf_thr : DEFAULT_OVERLOAD_THRESHOLD <= overload_threshold_ q <= INT_MAX
}.

(** ** Lemmas on the ring *)

Lemma ring_idx h i c : 0 <= h < c → 0 <= i < c →
  (h + i) mod c = if h + i <? c then h + i else h + i - c.
Proof.
  intros. destruct (Z.ltb_spec (h + i) c).
  - apply Z.mod_small. lia.
  - replace (h + i) with (h + i - c + 1 * c) by lia.
    rewrite Z.mod_add by lia. rewrite Z.mod_small; lia.
Qed.

Lemma length_range q : mq_wf q → 0 <= length_ q < cap_ q.
Proof. intros [? ? ? ? ? ? ?]. unfold length_. zbool. Qed.

Lemma contents_length q : length (contents q) = Z.to_nat (length_ q).
Proof. unfold contents. by rewrite length_fmap, length_seq. Qed.

Lemma contents_lookup q i : (i < Z.to_nat (length_ q))%nat →
  contents q !! i = Some (ring_nth q (Z.of_nat i)).
Proof.
  intros Hi. unfold contents. rewrite list_lookup_fmap, lookup_seq_lt by done. done.
Qed.

(** Two views of a ring agree when their windows agree position by position. *)
Lemma contents_ext q l : Z.to_nat (length_ q) = length l →
  (∀ i m, l !! i = Some m → ring_nth q (Z.of_nat i) = m) → contents q = l.
Proof.
  intros Hlen Hnth. apply list_eq. intros i.
  destruct (decide (i < length l)%nat) as [Hi|Hi].
  - destruct (lookup_lt_is_Some_2 l i Hi) as [m Hm].
    rewrite contents_lookup by lia. rewrite Hm. f_equal. by apply Hnth.
  - rewrite !lookup_ge_None_2; [done|lia|rewrite contents_length; lia].
Qed.

Lemma create_wf h : mq_wf (create h).
Proof. split; try done. Qed.

Lemma create_contents h : contents (create h) = [].
Proof. reflexivity. Qed.

Lemma ring_nth_set q t m i :
  mq_wf q → 0 <= i < cap_ q → 
  ring_nth (with_ring q (cap_ q) (head_ q) t (<[Z.to_nat (tail_ q) := m]> (queue_ q))) i =
  if decide ((head_ q + i) mod cap_ q = tail_ q) then m else ring_nth q i.
Proof.
  intros [? ? Hlen ? ? ? ?] Hi. unfold ring_nth. simpl.
  pose proof (Z.mod_pos_bound (head_ q + i) (cap_ q)).
  case_decide as Hd.
  - rewrite Hd. apply list_lookup_total_insert_eq. lia.
  - apply list_lookup_total_insert_ne. lia.
Qed.

(** What the window reads after the store at [tail_]: the old messages, then the new one. *)
Lemma ring_nth_store q t m i m' :
  mq_wf q → (contents q ++ [m]) !! i = Some m' →
  ring_nth (with_ring q (cap_ q) (head_ q) t (<[Z.to_nat (tail_ q) := m]> (queue_ q)))
    (Z.of_nat i) = m'.
Proof.
  intros Hwf Hi. pose proof (length_range q Hwf) as Hr.
  pose proof (lookup_lt_Some _ _ _ Hi) as Hlt. rewrite length_app, contents_length in Hlt. simpl in Hlt.
  rewrite ring_nth_set by (done || lia).
  destruct Hwf as [? ? Hlen ? ? ? ?].
  rewrite ring_idx by lia. unfold length_ in *.
  destruct (decide (i < Z.to_nat (length_ q))%nat) as [H1|H1].
  - rewrite lookup_app_l, contents_lookup in Hi by (rewrite ?contents_length; lia). simplify_eq.
    unfold length_ in *. case_decide; zbool.
  - assert (i = length (contents q)) as -> by (rewrite contents_length; unfold length_ in *; lia).
    rewrite lookup_app_r, Nat.sub_diag in Hi by lia. simplify_eq/=.
    rewrite contents_length in *. unfold length_ in *. case_decide; zbool.
Qed.

Definition expand_inv (q : mq_private) (c2 : Z) (i : Z) (nq : list service_message) : Prop :=
  Z.of_nat (length nq) = c2 ∧ ∀ j, 0 <= j < i → nq !! Z.to_nat j = Some (ring_nth q j).

Lemma expand_step q c2 i nq : mq_wf q → cap_ q <= c2 → 0 <= i < cap_ q →
  expand_inv q c2 i nq →
  ∃ nq', (m <- arr_get (queue_ q) ((head_ q + i) mod cap_ q);; arr_set nq i m) = Ok nq'
         ∧ expand_inv q c2 (i + 1) nq'.
Proof.
  intros [? ? Hlen ? ? ? ?] Hc Hi [Hl Hj].
  pose proof (Z.mod_pos_bound (head_ q + i) (cap_ q)).
  destruct (arr_get_in_range (queue_ q) ((head_ q + i) mod cap_ q)) as (m & Hm & ->); [lia|].
  simpl. rewrite arr_set_Ok by lia. eexists; split; [done|]. split.
  - rewrite length_insert. done.
  - intros j Hjr. destruct (decide (j = i)) as [->|].
    + rewrite list_lookup_insert_eq by lia. f_equal. unfold ring_nth.
      symmetry. by apply list_lookup_total_correct.
    + rewrite list_lookup_insert_ne by lia. apply Hj. lia.
Qed.

(** [_expand_queue] doubles the ring and lays the window out from index 0. *)
Lemma expand_spec q : mq_wf q → cap_ q * 2 <= INT_MAX →
  ∃ q', _expand_queue q = Ok q' ∧ mq_wf q' ∧ cap_ q' = cap_ q * 2 ∧
    head_ q' = 0 ∧ tail_ q' = cap_ q ∧
    (∀ i, 0 <= i < cap_ q → ring_nth q' i = ring_nth q i) ∧
    q' = with_ring q (cap_ q') 0 (cap_ q) (queue_ q').
Proof.
  intros Hwf Hmax. unfold _expand_queue. pose proof Hwf as [? ? Hlen ? ? ? ?].
  rewrite int_chk_Ok by (unfold INT_MAX in *; lia). simpl.
  edestruct (for_loop_inv (expand_inv q (cap_ q * 2)) (Z.to_nat (cap_ q)) 0) as (nq & -> & Hinv).
  3:{ simpl. eexists; split; [done|]. destruct Hinv as [Hl Hj].
      rewrite Z2Nat.id in Hj by lia.
      split_and!; simpl; try done.
      - split; simpl; try done; lia.
      - intros i Hi. unfold ring_nth at 1. simpl.
        rewrite Z.mod_small by lia. apply list_lookup_total_correct, Hj. lia. }
  - split; [rewrite length_replicate; lia | intros; lia].
  - intros i nq Hi Hinv. apply expand_step; try done; lia.
Qed.

(** [enqueue] appends to the contents, for a ring that can still double. *)
Lemma enqueue_spec q m : mq_wf q → cap_ q * 2 <= INT_MAX →
  ∃ q', enqueue q m = Ok q' ∧ mq_wf q' ∧ contents q' = contents q ++ [m] ∧
    is_in_global_ q' = is_in_global_ q ∧ is_release_ q' = is_release_ q ∧
    svc_handle_ q' = svc_handle_ q ∧ next_ q' = next_ q ∧
    overload_ q' = overload_ q ∧ overload_threshold_ q' = overload_threshold_ q ∧
    cap_ q' = (if length_ q + 1 =? cap_ q then cap_ q * 2 else cap_ q).
Proof.
  intros Hwf Hmax. pose proof (length_range q Hwf) as Hr. pose proof Hwf as [? ? Hlen ? ? ? ?].
  unfold enqueue. rewrite arr_set_Ok by lia. simpl.
  set (t := if cap_ q <=? tail_ q + 1 then 0 else tail_ q + 1).
  set (q1 := with_ring q (cap_ q) (head_ q) t _).
  assert (Hwf1 : mq_wf q1).
  { split; simpl; rewrite ?length_insert; try done. subst t. zbool. }
  assert (Hnth := ring_nth_store q t m). fold q1 in Hnth.
  destruct (Z.eqb_spec (head_ q) t) as [Heq|Hne].
  - destruct (expand_spec q1 Hwf1) as (q' & -> & Hwf' & Hcap & Hh & Ht & Hsame & Hq'); [done|].
    exists q'. assert (length_ q + 1 = cap_ q) as Hfull.
    { subst t. unfold length_ in *. zbool. }
    split_and!; try done; try (rewrite Hq'; reflexivity).
    + apply contents_ext.
      * rewrite length_app, contents_length. simpl. unfold length_ at 1. rewrite Hh, Ht. simpl. zbool.
      * intros i m' Hi. pose proof (lookup_lt_Some _ _ _ Hi) as Hlt.
        rewrite length_app, contents_length in Hlt. simpl in *.
        rewrite Hsame by (simpl; lia). by apply Hnth.
    + rewrite Hcap. zbool.
  - exists q1. split_and!; try done.
    + apply contents_ext.
      * rewrite length_app, contents_length. simpl. subst t. unfold length_ in *. simpl. zbool.
      * intros i m' Hi. by apply Hnth.
    + simpl. subst t. unfold length_ in *. zbool.
Qed.

(** ** The overload threshold *)

Lemma overload_loop_spec fuel len ov thr :
  0 < thr → len * 2 <= INT_MAX → thr <= INT_MAX → len <= thr * 2 ^ Z.of_nat fuel →
  ∃ ov' thr', overload_loop fuel len ov thr = Ok (ov', thr') ∧
    thr <= thr' <= INT_MAX ∧ len <= thr' ∧ 
    (ov' = if thr <? len then len else ov) ∧ (len <= thr → thr' = thr).
Proof.
  revert ov thr. induction fuel as [|fuel IH]; intros ov thr H0 Hl Hm Hf; simpl.
  - rewrite Z.mul_1_r in Hf. rewrite (proj2 (Z.ltb_ge _ _)) by lia.
    eexists _, _. split; [done|]. lia.
  - destruct (Z.ltb_spec thr len) as [Hlt|Hge].
    + rewrite int_chk_Ok by (unfold INT_MAX in *; lia). simpl.
      rewrite Nat2Z.inj_succ, Z.pow_succ_r in Hf by lia.
      destruct (IH len (thr * 2)) as (ov' & thr' & -> & ? & ? & Hov & ?);
        [lia|lia|unfold INT_MAX in *; lia|lia|].
      eexists _, _. split; [done|]. split_and!; try lia.
      rewrite Hov. by destruct (_ <? _).
    + eexists _, _. split; [done|]. split_and!; try lia; done.
Qed.

#[global] Arguments overload_loop : simpl never.

(** ** [pop] *)

(** Popping an empty queue: nothing is read, the threshold is reset and the queue
    leaves the global list. *)
Lemma pop_empty q m0 : contents q = [] → mq_wf q →
  pop q m0 = Ok (true, m0,
    with_in_global (with_overload q (overload_ q) DEFAULT_OVERLOAD_THRESHOLD) false).
Proof.
  intros Hc Hwf. apply (f_equal length) in Hc. rewrite contents_length in Hc. simpl in Hc.
  unfold pop. destruct Hwf as [? ? ? ? ? ? ?]. unfold length_ in Hc.
  destruct (Z.eqb_spec (head_ q) (tail_ q)); [done|]. exfalso. zbool.
Qed.

Lemma contents_pop q m l : mq_wf q → contents q = m :: l →
  let h := if cap_ q <=? head_ q + 1 then 0 else head_ q + 1 in
  head_ q ≠ tail_ q ∧ queue_ q !! Z.to_nat (head_ q) = Some m ∧
  length_ (with_ring q (cap_ q) h (tail_ q) (queue_ q)) = length_ q - 1 ∧
  contents (with_ring q (cap_ q) h (tail_ q) (queue_ q)) = l.
Proof.
  intros Hwf Hc h. pose proof (length_range q Hwf) as Hr. pose proof Hwf as [? ? Hlen ? ? ? ?].
  assert (Hl : Z.to_nat (length_ q) = S (length l)) by (rewrite <- contents_length; by rewrite Hc).
  assert (head_ q ≠ tail_ q) as Hne by (unfold length_ in Hl; zbool).
  assert (length_ (with_ring q (cap_ q) h (tail_ q) (queue_ q)) = length_ q - 1) as Hlen1.
  { subst h. unfold length_ in *. simpl. zbool. }
  split_and!; [done| |done|].
  - assert (Hm : contents q !! 0%nat = Some m) by (by rewrite Hc).
    rewrite contents_lookup in Hm by lia. unfold ring_nth in Hm.
    rewrite Z.add_0_r, Z.mod_small in Hm by lia. simplify_eq.
    apply list_lookup_lookup_total_lt. lia.
  - apply contents_ext; [lia|]. intros i m' Hi.
    assert (Hm : contents q !! S i = Some m') by (by rewrite Hc).
    pose proof (lookup_lt_Some _ _ _ Hi).
    rewrite contents_lookup in Hm by lia. simplify_eq. unfold ring_nth. simpl. f_equal. f_equal.
    rewrite !ring_idx by (subst h; zbool). subst h. zbool.
Qed.

(** Popping a non-empty queue returns the oldest message and raises the threshold
    above the remaining length. *)
Lemma pop_nonempty q m0 m l : mq_wf q → cap_ q <= 2 ^ 30 → contents q = m :: l →
  ∃ q', pop q m0 = Ok (false, m, q') ∧ mq_wf q' ∧ contents q' = l ∧
    is_in_global_ q' = is_in_global_ q ∧ is_release_ q' = is_release_ q ∧
    svc_handle_ q' = svc_handle_ q ∧ next_ q' = next_ q ∧ cap_ q' = cap_ q ∧
    Z.of_nat (length l) <= overload_threshold_ q' ∧
    overload_ q' = (if overload_threshold_ q <? Z.of_nat (length l)
                    then Z.of_nat (length l) else overload_ q).
Proof.
  intros Hwf Hmax Hc. destruct (contents_pop q m l Hwf Hc) as (Hne & Hm & Hlen & Hc').
  pose proof (length_range q Hwf) as Hr. pose proof Hwf as [? ? Hl ? ? ? ?].
  assert (Hll : Z.of_nat (length l) = length_ q - 1).
  { apply (f_equal length) in Hc. rewrite contents_length in Hc. simpl in Hc. lia. }
  unfold pop. rewrite (proj2 (Z.eqb_neq _ _)) by done. simpl.
  rewrite (arr_get_Ok _ _ m) by (done || lia). simpl.
  set (h := if cap_ q <=? head_ q + 1 then 0 else head_ q + 1) in *.
  assert (Hlz : (if tail_ q - h <? 0 then tail_ q - h + cap_ q else tail_ q - h) = Z.of_nat (length l)).
  { rewrite Hll, <- Hlen. unfold length_. simpl. zbool. }
  rewrite Hlz.
  destruct (overload_loop_spec overload_fuel (Z.of_nat (length l)) (overload_ q) (overload_threshold_ q))
    as (ov' & thr' & Hloop & Hthr & Hle & Hov & _).
  { unfold DEFAULT_OVERLOAD_THRESHOLD in *. lia. }
  { unfold INT_MAX. lia. }
  { lia. }
  { unfold overload_fuel, DEFAULT_OVERLOAD_THRESHOLD in *. change (2 ^ Z.of_nat 31) with 2147483648. lia. }
  rewrite Hloop. simpl. eexists; split; [done|].
  split_and!; try done.
  split; simpl; try done.
  - subst h. zbool.
  - subst ov'. zbool.
  - unfold DEFAULT_OVERLOAD_THRESHOLD in *. lia.
Qed.

Lemma ring_pop_ok q m0 : mq_wf q → cap_ q <= 2 ^ 30 →
  ∃ r, pop q m0 = Ok r ∧ mq_wf r.2 ∧ cap_ r.2 = cap_ q.
Proof.
  intros Hwf Hmax. destruct (contents q) as [|m l] eqn:Hc.
  - rewrite pop_empty by done. eexists; split; [done|]. split; [|done].
    destruct Hwf. split; simpl; try done.
  - destruct (pop_nonempty q m0 m l) as (q' & -> & ? & ? & ? & ? & ? & ? & ? & ?); try done.
    eexists; split; [done|]. done.
Qed.

(** ** Dropping a queue *)

(** ** The queue as a FIFO: runs of operations *)

Inductive mq_op :=
  | OpPush (m : service_message)
  | OpPop.

(** the ring buffer under a sequence of pushes and pops; a pop yields the message or nothing *)
Fixpoint run_ring (q : mq_private) (ops : list mq_op)
  : result (list (option service_message) * mq_private) :=
  match ops with
  | [] => Ok ([], q)
  | OpPush m :: ops => q' <- enqueue q m;; run_ring q' ops
  | OpPop :: ops =>
      let* (e, m, q') := pop q service_message_default in
      rest <- run_ring q' ops;;
      Ok ((if e then None else Some m) :: rest.1, rest.2)
  end.

(** the specification: an unbounded list *)
Fixpoint run_fifo (l : list service_message) (ops : list mq_op)
  : list (option service_message) * list service_message :=
  match ops with
  | [] => ([], l)
  | OpPush m :: ops => run_fifo (l ++ [m]) ops
  | OpPop :: ops =>
      match l with
      | [] => let r := run_fifo [] ops in (None :: r.1, r.2)
      | m :: l => let r := run_fifo l ops in (Some m :: r.1, r.2)
      end
  end.

Fixpoint count_push (ops : list mq_op) : Z :=
  match ops with
  | [] => 0
  | OpPush _ :: ops => 1 + count_push ops
  | OpPop :: ops => count_push ops
  end.

Lemma count_push_nonneg ops : 0 <= count_push ops.
Proof. induction ops as [|[m|] ops IH]; simpl; lia. Qed.

(** the ring is bounded by twice what was ever pushed: [n] pushes so far *)
Definition ring_bound (n : Z) (q : mq_private) : Prop :=
  cap_ q <= Z.max DEFAULT_QUEUE_CAPACITY (2 * n) ∧ length_ q <= n.

Lemma length_contents q : mq_wf q → length_ q = Z.of_nat (length (contents q)).
Proof. intros Hwf. pose proof (length_range q Hwf). rewrite contents_length. lia. Qed.

Lemma ring_bound_push n q q' m : mq_wf q → mq_wf q' → ring_bound n q →
  contents q' = contents q ++ [m] →
  cap_ q' = (if length_ q + 1 =? cap_ q then cap_ q * 2 else cap_ q) →
  ring_bound (n + 1) q'.
Proof.
  intros Hwf Hwf' [Hc Hl] Hq Hcap. split.
  - rewrite Hcap. destruct (Z.eqb_spec (length_ q + 1) (cap_ q)); lia.
  - rewrite (length_contents q') by done. rewrite Hq, length_app.
    rewrite (length_contents q) in Hl by done. simpl. lia.
Qed.

Lemma run_ring_fifo n q ops : mq_wf q → ring_bound n q → 0 <= n →
  n + count_push ops < 2 ^ 29 →
  ∃ q', run_ring q ops = Ok ((run_fifo (contents q) ops).1, q') ∧
        mq_wf q' ∧ contents q' = (run_fifo (contents q) ops).2.
Proof.
  revert n q. induction ops as [|[m|] ops IH]; intros n q Hwf Hb Hn Hlt; simpl in *.
  - by exists q.
  - pose proof (count_push_nonneg ops). pose proof Hb as [Hc Hl].
    destruct (enqueue_spec q m Hwf) as (q' & -> & Hwf' & Hq' & _ & _ & _ & _ & _ & _ & Hcap).
    { unfold DEFAULT_QUEUE_CAPACITY, INT_MAX in *. lia. }
    simpl. rewrite <- Hq'. apply (IH (n + 1)); try done; [|lia|lia].
    by apply (ring_bound_push n q q' m).
  - pose proof (count_push_nonneg ops). pose proof Hb as [Hc Hl].
    destruct (contents q) as [|m l] eqn:Hq.
    + rewrite pop_empty by done. simpl.
      destruct (IH n (with_in_global (with_overload q (overload_ q) DEFAULT_OVERLOAD_THRESHOLD) false))
        as (q' & Hr & Hwf' & Hc').
      { destruct Hwf. split; simpl; done. }
      { done. } { done. } { lia. }
      change (contents (with_in_global _ _)) with (contents q) in *. rewrite Hq in *.
      rewrite Hr. simpl. eauto.
    + destruct (pop_nonempty q service_message_default m l)
        as (q1 & -> & Hwf1 & Hq1 & _ & _ & _ & _ & Hcap & _ & _);
        [done|unfold DEFAULT_QUEUE_CAPACITY in *; lia|done|]. simpl.
      destruct (IH n q1) as (q' & Hr & Hwf' & Hc'); [done| |done|lia|].
      { split; [by rewrite Hcap|]. rewrite (length_contents q1) by done.
        rewrite (length_contents q), Hq in Hl by done. rewrite Hq1. simpl in Hl. lia. }
      rewrite Hr, Hq1. simpl. rewrite Hq1 in Hc'. eauto.
Qed.

(** ** Properties *)

(** C7: The ring buffer of [mq_private] is a FIFO queue: in every sequence of pushes and
    pops with fewer than 2^29 pushes, through wrap-arounds and expansions, no access is out
    of bounds, no capacity or threshold computation overflows, every pop returns the oldest
    message still queued, and reports empty exactly when there is none. *)
Theorem mq_private_fifo h ops : count_push ops < 2 ^ 29 →
  ∃ q', run_ring (create h) ops = Ok ((run_fifo [] ops).1, q') ∧ mq_wf q' ∧ contents q' = (run_fifo [] ops).2.
Proof.
  intros Hn. rewrite <- (create_contents h). apply (run_ring_fifo 0); [apply create_wf|done|done|lia].
Qed.

Lemma mq_private_fifo_witness :
  let m i := mkMsg i 0 0 0 in
  ∃ q', run_ring (create 1) [OpPush (m 1); OpPush (m 2); OpPop; OpPush (m 3); OpPop; OpPop; OpPop]
        = Ok ([Some (m 1); Some (m 2); Some (m 3); None], q') ∧ mq_wf q' ∧ contents q' = [].
Proof.
  apply (mq_private_fifo 1 [OpPush (mkMsg 1 0 0 0); OpPush (mkMsg 2 0 0 0); OpPop; OpPush (mkMsg 3 0 0 0); OpPop; OpPop; OpPop]).
  vm_compute. reflexivity.
Defined.
