(* ===== verification/MqGlobal.v ===== *)
(** * The global message queue (skynet-src/mq/mq_global.h, .cpp) and the
    operations of the private queues that reach it (mq_private.cpp)

    The private queues live in a heap, addressed by pointers ([Z], 0 is
    [nullptr]); the global queue is the intrusive list threaded through their
    [next_] fields. [glist] relates the pointers to the list of queue addresses
    the worker threads see. *)
From S2P Require Import Prelude Message MqPrivate.

(** the queues' heap and [class mq_global] *)
Record mq_state := mkMqs {
  mqs : gmap Z mq_private;
  ghead_ : Z;
  gtail_ : Z
}.

(** the state [mq_global::instance] starts with *)
Definition mq_state_init : mq_state := mkMqs ∅ 0 0.

(** dereference of a queue pointer *)
Definition mq_deref (s : mq_state) (p : Z) : result mq_private :=
  if p =? 0 then Err NullDeref
  else match mqs s !! p with Some q => Ok q | None => Err UseAfterFree end.

Definition mq_store (s : mq_state) (p : Z) (q : mq_private) : mq_state :=
  mkMqs (<[p := q]> (mqs s)) (ghead_ s) (gtail_ s).

(** [mq_global::push] *)
Definition gpush (s : mq_state) (q : Z) : result mq_state :=
  qo <- mq_deref s q;;
  massert (next_ qo =? 0);;;
  if negb (gtail_ s =? 0) then
    t <- mq_deref s (gtail_ s);;
    let s := mq_store s (gtail_ s) (with_next t q) in
    Ok (mkMqs (mqs s) (ghead_ s) q)
  else Ok (mkMqs (mqs s) q q).

(** [mq_global::pop]; 0 when the list is empty *)
Definition gpop (s : mq_state) : result (Z * mq_state) :=
  let mq := ghead_ s in
  if negb (mq =? 0) then
    qo <- mq_deref s mq;;
    let head := next_ qo in
    tail <- (if head =? 0 then massert (mq =? gtail_ s);;; Ok 0 else Ok (gtail_ s));;
    Ok (mq, mkMqs (<[mq := with_next qo 0]> (mqs s)) head tail)
  else Ok (mq, s).

(** [mq_private::create]: allocation of a queue at the address [p] *)
Definition mq_create (s : mq_state) (p svc_handle : Z) : mq_state :=
  mq_store s p (create svc_handle).

(** [mq_private::push] *)
Definition mq_push (s : mq_state) (p : Z) (message : service_message) : result mq_state :=
  q <- mq_deref s p;;
  q <- enqueue q message;;
  if negb (is_in_global_ q)
  then gpush (mq_store s p (with_in_global q true)) p
  else Ok (mq_store s p q).

(** [mq_private::pop] *)
Definition mq_pop (s : mq_state) (p : Z) (message : service_message)
  : result (bool * service_message * mq_state) :=
  q <- mq_deref s p;;
  let* (e, m, q) := pop q message in
  Ok (e, m, mq_store s p q).

(** [mq_private::mark_release] *)
Definition mark_release (s : mq_state) (p : Z) : result mq_state :=
  q <- mq_deref s p;;
  massert (negb (is_release_ q));;;
  let q := with_release q true in
  let s := mq_store s p q in
  if negb (is_in_global_ q) then gpush s p else Ok s.

(** [mq_private::length], [mq_private::overload] on a queue of the heap *)
Definition mq_length (s : mq_state) (p : Z) : result Z :=
  q <- mq_deref s p;; Ok (length_ q).
Definition mq_overload (s : mq_state) (p : Z) : result (Z * mq_state) :=
  q <- mq_deref s p;; Ok ((overload q).1, mq_store s p (overload q).2).

(** ** A program state that contains the message queues

    The drop function a queue is released with sends messages, so it acts on the
    whole node; the queues only need to reach their own part of that state. *)
Class HasMq (W : Type) := {
  get_mq : W → mq_state;
  set_mq : W → mq_state → W;
  get_set_mq : ∀ w s, get_mq (set_mq w s) = s;
  set_get_mq : ∀ w, set_mq w (get_mq w) = w;
  set_set_mq : ∀ w s s', set_mq (set_mq w s) s' = set_mq w s'
}.

#[export] Program Instance mq_state_has_mq : HasMq mq_state :=
  {| get_mq := id; set_mq := λ _ s, s |}.
Solve All Obligations with done.

Section drop.
Context {W : Type} `{HasMq W}.
Variable drop_func : service_message → W → result W.

(** the loop of [mq_private::_drop_queue] *)
Fixpoint drop_queue_loop (fuel : nat) (p : Z) (w : W) : result W :=
  match fuel with
  | O => Err OutOfFuel
  | S fuel =>
      let* (e, m, s) := mq_pop (get_mq w) p service_message_default in
      let w := set_mq w s in
      if e then Ok w else w <- drop_func m w;; drop_queue_loop fuel p w
  end.

(** [mq_private::_drop_queue] *)
Definition _drop_queue (fuel : nat) (p : Z) (w : W) : result W :=
  w <- drop_queue_loop fuel p w;;
  q <- mq_deref (get_mq w) p;;
  massert (next_ q =? 0);;;
  let s := get_mq w in
  Ok (set_mq w (mkMqs (delete p (mqs s)) (ghead_ s) (gtail_ s))).

(** [mq_private::release] *)
Definition release (fuel : nat) (p : Z) (w : W) : result W :=
  q <- mq_deref (get_mq w) p;;
  if is_release_ q
  then _drop_queue fuel p w
  else s <- gpush (get_mq w) p;; Ok (set_mq w s).
End drop.

(** ** The intrusive list *)

(** [l] is the list reached from [p] by following [next_] *)
Fixpoint chain (h : gmap Z mq_private) (p : Z) (l : list Z) : Prop :=
  match l with
  | [] => p = 0
  | x :: l => p = x ∧ x ≠ 0 ∧ ∃ q, h !! x = Some q ∧ chain h (next_ q) l
  end.

(** [l] is the list of queues in the global queue; every other queue is unlinked. *)
Record glist (s : mq_state) (l : list Z) : Prop := {
  gl_chain : chain (mqs s) (ghead_ s) l;
  gl_tail : gtail_ s = default 0 (last l);
  gl_nodup : NoDup l;
  gl_unlinked : ∀ p q, mqs s !! p = Some q → p ∉ l → next_ q = 0
}.

(** the heap up to the links: what [gpush] and [gpop] leave alone *)
Definition unlink (h : gmap Z mq_private) : gmap Z mq_private :=
  (λ q, with_next q 0) <$> h.

Lemma chain_elem h p l x : chain h p l → x ∈ l → x ≠ 0 ∧ is_Some (h !! x).
Proof.
  revert p. induction l as [|y l IH]; intros p Hc Hx; [by apply not_elem_of_nil in Hx|].
  destruct Hc as (-> & Hy & q & Hq & Hc). apply elem_of_cons in Hx as [->|Hx]; eauto.
Qed.

Lemma chain_ext h h' p l : chain h p l →
  (∀ x, x ∈ l → h' !! x = h !! x) → chain h' p l.
Proof.
  revert p. induction l as [|y l IH]; intros p Hc Hext; [done|].
  destruct Hc as (-> & Hy & q & Hq & Hc). split_and!; try done.
  exists q. rewrite Hext by set_solver. split; [done|].
  apply IH; [done|]. intros x Hx. apply Hext. set_solver.
Qed.

Lemma chain_frame h p l x q : chain h p l → x ∉ l → chain (<[x := q]> h) p l.
Proof.
  intros Hc Hx. apply (chain_ext h); [done|].
  intros y Hy. apply lookup_insert_ne. by intros ->.
Qed.

(** appending at the tail: the old tail [t] now links to [x], which ends the chain *)
Lemma chain_snoc h p l t qt x qx :
  chain h p (l ++ [t]) → NoDup (l ++ [t]) → h !! t = Some qt → next_ qt = 0 →
  h !! x = Some qx → next_ qx = 0 → x ≠ 0 → x ∉ l ++ [t] →
  chain (<[t := with_next qt x]> h) p (l ++ [t; x]).
Proof.
  intros Hc Hnd Ht Hnt Hx Hnx Hx0 Hxl. revert p Hc.
  induction l as [|y l IH]; intros p Hc; simpl in *.
  - destruct Hc as (-> & Ht0 & q & Hq & _).
    split_and!; try done. eexists. rewrite lookup_insert_eq. split; [done|].
    simpl. split_and!; try done. exists qx.
    rewrite lookup_insert_ne by set_solver. done.
  - destruct Hc as (-> & Hy & q & Hq & Hc). apply NoDup_cons in Hnd as [Hyl Hnd].
    split_and!; try done. exists q. split.
    { rewrite lookup_insert_ne by set_solver. done. }
    apply IH; [done|set_solver|done].
Qed.

Lemma chain_last h p l t q : chain h p (l ++ [t]) → h !! t = Some q → next_ q = 0.
Proof.
  revert p. induction l as [|y l IH]; intros p Hc Hq; simpl in *.
  - destruct Hc as (_ & _ & q' & Hq' & ?). by simplify_eq.
  - destruct Hc as (_ & _ & q' & _ & Hc). eauto.
Qed.

Lemma unlink_insert h p q q' : h !! p = Some q' →
  with_next q 0 = with_next q' 0 → unlink (<[p := q]> h) = unlink h.
Proof.
  intros Hp Hq. unfold unlink. rewrite fmap_insert, Hq. apply insert_id.
  by rewrite lookup_fmap, Hp.
Qed.

Lemma with_next_with_next q a b : with_next (with_next q a) b = with_next q b.
Proof. done. Qed.

Lemma with_next_id q : next_ q = 0 → with_next q 0 = q.
Proof. destruct q; simpl; by intros ->. Qed.

Lemma mq_deref_Ok s p q : p ≠ 0 → mqs s !! p = Some q → mq_deref s p = Ok q.
Proof. intros Hp Hq. unfold mq_deref. rewrite (proj2 (Z.eqb_neq _ _)) by done. by rewrite Hq. Qed.

Lemma mq_deref_inv s p q : mq_deref s p = Ok q → p ≠ 0 ∧ mqs s !! p = Some q.
Proof.
  unfold mq_deref. destruct (Z.eqb_spec p 0); [done|]. destruct (mqs s !! p); [|done].
  intros; simplify_eq. done.
Qed.

Lemma glist_init : glist mq_state_init [].
Proof. split; simpl; try done. constructor. Qed.

(** [mq_global::push] on a queue that is not in the list appends it. *)
Lemma gpush_spec s l p q : glist s l → p ≠ 0 → mqs s !! p = Some q → p ∉ l →
  ∃ s', gpush s p = Ok s' ∧ glist s' (l ++ [p]) ∧ unlink (mqs s') = unlink (mqs s).
Proof.
  intros [Hc Ht Hnd Hu] Hp Hq Hpl. unfold gpush.
  rewrite (mq_deref_Ok s p q) by done. simpl.
  rewrite (Hu p q) by done. simpl.
  destruct l as [|t l' _] using rev_ind; simpl in *.
  - rewrite Ht. simpl. eexists; split; [done|]. split; [|done].
    split; simpl; try done.
    + eauto 10.
    + apply NoDup_singleton.
    + intros x qx Hx Hxl. apply (Hu x); [done|apply not_elem_of_nil].
  - rewrite last_snoc in Ht. simpl in Ht.
    destruct (chain_elem _ _ _ t Hc) as [Ht0 [qt Hqt]]; [set_solver|].
    rewrite Ht. rewrite (proj2 (Z.eqb_neq _ _)) by done. simpl.
    rewrite (mq_deref_Ok s t qt) by done. simpl.
    assert (Hnt : next_ qt = 0) by (by eapply chain_last).
    eexists; split; [done|]. split.
    + split; simpl.
      * rewrite <- app_assoc. apply chain_snoc with q; try done. by apply (Hu p).
      * by rewrite last_snoc.
      * apply NoDup_app. split_and!; [done| |apply NoDup_singleton]. set_solver.
      * intros x qx Hx Hxl. apply lookup_insert_Some in Hx as [[<- _]|[Hne Hx]]; [set_solver|].
        apply (Hu x); [done|set_solver].
    + by apply (unlink_insert _ _ _ qt).
Qed.

(** [mq_global::pop] takes the oldest queue and unlinks it. *)
Lemma gpop_spec s l : glist s l →
  match l with
  | [] => gpop s = Ok (0, s)
  | p :: l' => p ≠ 0 ∧ ∃ s', gpop s = Ok (p, s') ∧ glist s' l' ∧ unlink (mqs s') = unlink (mqs s)
  end.
Proof.
  intros [Hc Ht Hnd Hu]. unfold gpop. destruct l as [|p l].
  - simpl in Hc. rewrite Hc. done.
  - destruct Hc as (<- & Hp & q & Hq & Hc). apply NoDup_cons in Hnd as [Hpl Hnd].
    split; [done|]. rewrite (proj2 (Z.eqb_neq _ _)) by done. simpl.
    rewrite (mq_deref_Ok s _ q) by done. simpl.
    assert (Hu' : ∀ x qx, <[ghead_ s := with_next q 0]> (mqs s) !! x = Some qx → x ∉ l → next_ qx = 0).
    { intros x qx Hx Hxl. apply lookup_insert_Some in Hx as [[<- <-]|[Hne Hx]]; [done|].
      apply (Hu x); [done|set_solver]. }
    assert (Hun : unlink (<[ghead_ s := with_next q 0]> (mqs s)) = unlink (mqs s))
      by (by apply (unlink_insert _ _ _ q)).
    destruct l as [|y l]; simpl in Hc.
    + rewrite Hc. simpl. rewrite Ht. simpl. rewrite Z.eqb_refl. simpl.
      eexists; split; [done|]. split; [|done]. split; simpl; try done.
    + pose proof Hc as (Hy & Hy0 & _). rewrite Hy, (proj2 (Z.eqb_neq _ _)) by done. simpl.
      eexists; split; [done|]. split; [|done]. split; simpl; try done.
      change (chain (<[ghead_ s:=with_next q 0]> (mqs s)) y (y :: l)). 
      apply chain_frame; [|done]. rewrite Hy in Hc. exact Hc.
Qed.

Lemma chain_update h p l x q q' : chain h p l → h !! x = Some q → next_ q' = next_ q →
  chain (<[x := q']> h) p l.
Proof.
  intros Hc Hq Hn. revert p Hc. induction l as [|y l IH]; intros p Hc; [done|].
  destruct Hc as (-> & Hy & qy & Hqy & Hc). split_and!; try done.
  destruct (decide (x = y)) as [->|Hne].
  - exists q'. rewrite lookup_insert_eq. simplify_eq. split; [done|]. rewrite Hn. by apply IH.
  - exists qy. rewrite lookup_insert_ne by done. eauto.
Qed.

(** Writing a queue without touching its link keeps the list. *)
Lemma glist_store s l p q q' : glist s l → mqs s !! p = Some q → next_ q' = next_ q →
  glist (mq_store s p q') l.
Proof.
  intros [Hc Ht Hnd Hu] Hq Hn. split; simpl; try done.
  - by eapply chain_update.
  - intros x qx Hx Hxl. apply lookup_insert_Some in Hx as [[<- <-]|[Hne Hx]]; [|by eapply Hu].
    rewrite Hn. by apply (Hu p).
Qed.

Lemma glist_alloc s l p q : glist s l → mqs s !! p = None → next_ q = 0 →
  glist (mq_store s p q) l.
Proof.
  intros [Hc Ht Hnd Hu] Hp Hn. split; simpl; try done.
  - apply chain_frame; [done|]. intros Hin.
    destruct (chain_elem _ _ _ p Hc Hin) as [_ [? ?]]. congruence.
  - intros x qx Hx Hxl. apply lookup_insert_Some in Hx as [[<- <-]|[Hne Hx]]; [done|by eapply Hu].
Qed.

Lemma glist_free s l p : glist s l → p ∉ l →
  glist (mkMqs (delete p (mqs s)) (ghead_ s) (gtail_ s)) l.
Proof.
  intros [Hc Ht Hnd Hu] Hp. split; simpl; try done.
  - apply (chain_ext (mqs s)); [done|]. intros x Hx. apply lookup_delete_ne. by intros ->.
  - intros x qx Hx Hxl. apply lookup_delete_Some in Hx as [? ?]. by eapply Hu.
Qed.

Lemma glist_elem s l p : glist s l → p ∈ l → p ≠ 0 ∧ is_Some (mqs s !! p).
Proof. intros [Hc _ _ _]. by apply chain_elem with (1 := Hc). Qed.

(** reading through [unlink]: equal up to links means equal ring and flags *)
Lemma unlink_lookup h h' p q : unlink h' = unlink h → h !! p = Some q →
  ∃ q', h' !! p = Some q' ∧ with_next q' 0 = with_next q 0.
Proof.
  intros He Hq. assert (Hl : unlink h' !! p = unlink h !! p) by (by rewrite He).
  unfold unlink in Hl. rewrite !lookup_fmap, Hq in Hl. simpl in Hl.
  destruct (h' !! p) as [q'|]; [|done]. simpl in Hl. injection Hl as Hl. exists q'. split; [done|]. unfold with_next. congruence.
Qed.

Lemma unlink_None h h' p : unlink h' = unlink h → h !! p = None → h' !! p = None.
Proof.
  intros He Hq. assert (Hl : unlink h' !! p = unlink h !! p) by (by rewrite He).
  unfold unlink in Hl. rewrite !lookup_fmap, Hq in Hl. simpl in Hl.
  by destruct (h' !! p).
Qed.

(** Dropping a released queue applies the drop function to every message, oldest first,
    and frees the queue. *)
Section drop_proofs.
Context {W : Type} `{HasMq W}.
Variable drop_func : service_message → W → result W.
(** a drop function that returns and leaves the queues alone *)
Variable f : service_message → W → W.
Hypothesis drop_func_f : ∀ m w, drop_func m w = Ok (f m w).
Hypothesis f_frame : ∀ m w s, f m (set_mq w s) = set_mq (f m w) s.

Lemma get_f m w : get_mq (f m w) = get_mq w.
Proof. rewrite <- (set_get_mq w) at 1. by rewrite f_frame, get_set_mq. Qed.

Lemma drop_queue_loop_fold fuel p w q : p ≠ 0 → mqs (get_mq w) !! p = Some q → mq_wf q →
  cap_ q <= 2 ^ 30 → (length (contents q) < fuel)%nat →
  ∃ q', drop_queue_loop drop_func fuel p w =
          Ok (set_mq (foldl (λ w m, f m w) w (contents q)) (mq_store (get_mq w) p q')) ∧ next_ q' = next_ q.
Proof.
  intros Hp. revert w q. induction fuel as [|fuel IH]; intros w q Hq Hwf Hcap Hf; [lia|].
  simpl. unfold mq_pop. rewrite (mq_deref_Ok _ p q) by done. simpl.
  destruct (contents q) as [|m ms] eqn:Hc.
  - rewrite pop_empty by done. simpl. eexists; split; [done|done].
  - destruct (pop_nonempty q service_message_default m ms)
      as (q1 & -> & Hwf1 & Hc1 & _ & _ & _ & Hn & Hcap1 & _); try done. simpl.
    rewrite drop_func_f. simpl. rewrite f_frame. set (w1 := set_mq (f m w) _).
    assert (Hg1 : get_mq w1 = mq_store (get_mq w) p q1) by apply get_set_mq.
    destruct (IH w1 q1) as (q' & -> & Hn');
      [by rewrite Hg1; simpl; rewrite lookup_insert_eq|done|lia|rewrite Hc1; simpl in *; lia|].
    exists q'. split; [|congruence]. rewrite Hc1, Hg1. f_equal.
    assert (Hfold : ∀ ms w s, foldl (λ w m, f m w) (set_mq w s) ms = set_mq (foldl (λ w m, f m w) w ms) s).
    { intros l. induction l as [|x l IHl]; intros w' s'; [done|]. simpl. by rewrite f_frame, IHl. }
    unfold w1. rewrite Hfold, set_set_mq. f_equal. unfold mq_store. simpl. by rewrite insert_insert_eq.
Qed.

Lemma release_fold fuel p w l q : glist (get_mq w) l → p ∉ l → p ≠ 0 → mqs (get_mq w) !! p = Some q → mq_wf q →
  cap_ q <= 2 ^ 30 → (length (contents q) < fuel)%nat → is_release_ q = true →
  release drop_func fuel p w =
    Ok (set_mq (foldl (λ w m, f m w) w (contents q))
          (mkMqs (delete p (mqs (get_mq w))) (ghead_ (get_mq w)) (gtail_ (get_mq w)))).
Proof.
  intros Hl Hnl Hp Hq Hwf Hcap Hf Hr. unfold release. rewrite (mq_deref_Ok _ p q) by done. simpl.
  rewrite Hr. unfold _drop_queue.
  destruct (drop_queue_loop_fold fuel p w q) as (q' & -> & Hn); try done. simpl. rewrite get_set_mq.
  rewrite (mq_deref_Ok _ p q') by (done || by simpl; rewrite lookup_insert_eq). simpl.
  rewrite Hn, (gl_unlinked _ _ Hl p q Hq Hnl). simpl. by rewrite set_set_mq, delete_insert_eq.
Qed.
End drop_proofs.

(** a drop function that does nothing *)
Lemma release_trivial fuel p s l q : glist s l → p ∉ l → p ≠ 0 → mqs s !! p = Some q → mq_wf q →
  cap_ q <= 2 ^ 30 → (length (contents q) < fuel)%nat → is_release_ q = true →
  release (λ _ s, Ok s) fuel p s = Ok (mkMqs (delete p (mqs s)) (ghead_ s) (gtail_ s)).
Proof.
  intros Hl Hnl Hp Hq Hwf Hcap Hf Hr.
  by rewrite (release_fold (W := mq_state) (λ _ s, Ok s) (λ _ s, s) (λ _ _, eq_refl) (λ _ _ _, eq_refl) fuel p s l q).
Qed.

(** ** Properties *)

Inductive gq_op :=
  | GPush (q : Z)
  | GPop.

(** pushes and pops of the global list, with what the pops return *)
Fixpoint run_gq (ops : list gq_op) (s : mq_state) : result (list Z * mq_state) :=
  match ops with
  | [] => Ok ([], s)
  | GPush q :: ops => s <- gpush s q;; run_gq ops s
  | GPop :: ops => let* (q, s) := gpop s in let* (qs, s) := run_gq ops s in Ok (q :: qs, s)
  end.

(** the same on a list; [None] when a queue is pushed that is already there *)
Fixpoint run_glist (ops : list gq_op) (l : list Z) : option (list Z * list Z) :=
  match ops with
  | [] => Some ([], l)
  | GPush q :: ops => if decide (q ∈ l) then None else run_glist ops (l ++ [q])
  | GPop :: ops =>
      match l with
      | [] => r ← run_glist ops []; Some (0 :: r.1, r.2)
      | q :: l => r ← run_glist ops l; Some (q :: r.1, r.2)
      end
  end.

Definition gq_op_ok (s : mq_state) (op : gq_op) : Prop :=
  match op with GPush q => q ≠ 0 ∧ is_Some (mqs s !! q) | GPop => True end.

Lemma run_gq_list ops s l r : glist s l → Forall (gq_op_ok s) ops → run_glist ops l = Some r →
  ∃ s', run_gq ops s = Ok (r.1, s') ∧ glist s' r.2 ∧ unlink (mqs s') = unlink (mqs s).
Proof.
  revert s l r. induction ops as [|op ops IH]; intros s l r Hl Hok Hr; simpl in *; [simplify_eq; by exists s|].
  apply Forall_cons in Hok as [Hop Hok].
  assert (Hmono : ∀ s1, unlink (mqs s1) = unlink (mqs s) → Forall (gq_op_ok s1) ops).
  { intros s1 Hu. eapply Forall_impl; [exact Hok|]. intros [q|] Hq; [|done]. destruct Hq as [? [qo Hqo]].
    split; [done|]. destruct (unlink_lookup _ _ _ _ Hu Hqo) as (? & ? & _). eauto. }
  destruct op as [q|].
  - destruct (decide (q ∈ l)) as [|Hn]; [done|]. destruct Hop as [Hq0 [qo Hqo]].
    destruct (gpush_spec s l q qo Hl Hq0 Hqo Hn) as (s1 & -> & Hl1 & Hu1). simpl.
    destruct (IH s1 _ r Hl1 (Hmono _ Hu1) Hr) as (s' & -> & Hl' & Hu'). exists s'. by rewrite Hu', Hu1.
  - pose proof (gpop_spec s l Hl) as Hp. destruct l as [|q l].
    + rewrite Hp. simpl. destruct (run_glist ops []) as [r'|] eqn:Hr'; simplify_eq/=.
      destruct (IH s _ r' Hl Hok Hr') as (s' & -> & Hl' & Hu'). by exists s'.
    + destruct Hp as (_ & s1 & -> & Hl1 & Hu1). simpl.
      destruct (run_glist ops l) as [r'|] eqn:Hr'; simplify_eq/=.
      destruct (IH s1 _ r' Hl1 (Hmono _ Hu1) Hr') as (s' & -> & Hl' & Hu'). exists s'. by rewrite Hu', Hu1.
Qed.

(** The intrusive list of [mq_global] is a FIFO list of queues: from an empty list, for
    every sequence of pushes of allocated queues that are not on it and of pops, no assertion
    fails, the pops return the queues in the order they were pushed (0 when there is none), and
    only the links of the queues change. *)
Theorem mq_global_fifo s ops r : glist s [] → Forall (gq_op_ok s) ops → run_glist ops [] = Some r →
  ∃ s', run_gq ops s = Ok (r.1, s') ∧ glist s' r.2 ∧ unlink (mqs s') = unlink (mqs s).
Proof. apply run_gq_list. Qed.

(** three queues at addresses 1, 2, 3 *)
Definition three_queues : mq_state := mkMqs (list_to_map [(1, create 11); (2, create 12); (3, create 13)]) 0 0.

Lemma three_queues_glist : glist three_queues [].
Proof.
  split; simpl; try done; [constructor|]. intros p q Hp _.
  apply lookup_insert_Some in Hp as [[_ <-]|[_ Hp]]; [done|].
  apply lookup_insert_Some in Hp as [[_ <-]|[_ Hp]]; [done|].
  apply lookup_insert_Some in Hp as [[_ <-]|[_ Hp]]; [done|]. by rewrite lookup_empty in Hp.
Qed.

Lemma mq_global_fifo_witness :
  ∃ s', run_gq [GPush 2; GPush 1; GPop; GPush 3; GPop; GPush 2; GPop; GPop; GPop] three_queues = Ok ([2; 1; 3; 2; 0], s') ∧
    glist s' [] ∧ unlink (mqs s') = unlink (mqs three_queues).
Proof.
  apply (mq_global_fifo three_queues [GPush 2; GPush 1; GPop; GPush 3; GPop; GPush 2; GPop; GPop; GPop] ([2; 1; 3; 2; 0], [])).
  - apply three_queues_glist.
  - repeat constructor; simpl; try done; eexists; reflexivity.
  - reflexivity.
Defined.

(** queues together with a record of what was dropped *)
#[export] Program Instance pair_has_mq {D : Type} : HasMq (mq_state * D) :=
  {| get_mq := fst; set_mq w s := (s, w.2) |}.
Next Obligation. done. Qed.
Next Obligation. intros D [s d]. done. Qed.
Next Obligation. done. Qed.

(** Releasing the queue of a deleted service frees it and drops every pending message:
    [release] on a queue marked for release that is not on the global list applies the drop
    function to each message exactly once, oldest first, then frees the queue, with one iteration
    per message and one more; the global list and the other queues stay as they are. *)
Theorem release_drops_everything {D} (f : service_message → D → D) p s d l q :
  glist s l → p ∉ l → p ≠ 0 → mqs s !! p = Some q → mq_wf q → cap_ q <= 2 ^ 30 → is_release_ q = true →
  release (λ m w, Ok (w.1, f m w.2)) (S (length (contents q))) p (s, d) =
    Ok (mkMqs (delete p (mqs s)) (ghead_ s) (gtail_ s), foldl (λ d m, f m d) d (contents q)).
Proof.
  intros Hl Hnl Hp Hq Hwf Hcap Hr.
  assert (Hfr : ∀ m (w : mq_state * D) t, ((set_mq w t).1, f m (set_mq w t).2) = set_mq (w.1, f m w.2) t) by (intros m [] t; done).
  rewrite (release_fold (W := mq_state * D) _ (λ m w, (w.1, f m w.2)) (λ _ _, eq_refl) Hfr _ p (s, d) l q) by (done || lia).
  f_equal. simpl. f_equal. clear. revert d. induction (contents q) as [|m ms IH]; intros d; simpl; [done|]. by rewrite IH.
Qed.

(** a released queue with two messages *)
Definition dying_queue : mq_private :=
  match run_ring (create 7) [OpPush (mkMsg 1 0 0 0); OpPush (mkMsg 2 0 0 0)] with
  | Ok (_, q) => with_release q true
  | Err _ => create 7
  end.

Lemma release_drops_everything_witness :
  release (λ m w, Ok (w.1, (w.2 ++ [m])%list)) (S (length (contents dying_queue))) 5 (mkMqs {[ 5 := dying_queue ]} 0 0, []) =
    Ok (mkMqs (delete 5 {[ 5 := dying_queue ]}) 0 0, [mkMsg 1 0 0 0; mkMsg 2 0 0 0]).
Proof.
  refine (release_drops_everything (λ m l, (l ++ [m])%list) 5 (mkMqs {[ 5 := dying_queue ]} 0 0) [] [] dying_queue _ _ _ _ _ _ _).
  - split; simpl; [reflexivity|reflexivity|constructor|]. intros p q Hp _.
    apply lookup_singleton_Some in Hp as [_ <-]. reflexivity.
  - apply not_elem_of_nil.
  - lia.
  - reflexivity.
  - split; vm_compute; try reflexivity; try congruence; split; congruence.
  - vm_compute. congruence.
  - reflexivity.
Defined.
