(* ===== verification/HandleName.v ===== *)
(** * Service names (skynet-src/service/service_manager.cpp)

    The alias table of the service manager: [name_], an array kept sorted by
    name, searched by bisection. The abstraction is a finite map from names to
    service handles; lookup, insertion and the compaction that
    [unregister_service] performs are shown to implement it. *)
From Stdlib Require Import OrdersEx.
From S2P Require Import Prelude.

Definition MAX_SLOT_SIZE : Z := 0x40000000.

(** [struct service_manager::handle_name] *)
Record handle_name := mkHandleName {
  hn_svc_name : string;
  hn_svc_handle : Z
}.
Definition handle_name_default : handle_name := mkHandleName "" 0.

#[export] Instance handle_name_eq_dec : EqDecision handle_name.
Proof. solve_decision. Defined.

(** the naming part of [class service_manager] *)
Record name_table := mkNames {
  name_cap_ : Z;
  name_count_ : Z;
  name_ : list handle_name
}.

(** the naming part of [service_manager::init] *)
Definition names_init : name_table := mkNames 2 0 (replicate 2 handle_name_default).

(** [std::string::compare]: bytes as unsigned values, a prefix is smaller *)
Definition str_compare : string → string → comparison := String_as_OT.compare.
Definition str_lt : string → string → Prop := String_as_OT.lt.

(** the search loop of [find_by_name] and of [_insert_name]: [inl mid] when
    [name_[mid]] has the name, [inr begin] when the interval is exhausted *)
Fixpoint bsearch (fuel : nat) (arr : list handle_name) (svc_name : string) (b e : Z)
  : result (Z + Z) :=
  if b <=? e then
    match fuel with
    | O => Err OutOfFuel
    | S fuel =>
        let mid := (b + e) / 2 in
        n <- arr_get arr mid;;
        match str_compare (hn_svc_name n) svc_name with
        | Eq => Ok (inl mid)
        | Lt => bsearch fuel arr svc_name (mid + 1) e
        | Gt => bsearch fuel arr svc_name b (mid - 1)
        end
    end
  else Ok (inr b).

(** every iteration removes at least one entry from the interval *)
Definition bsearch_fuel (st : name_table) : nat := Z.to_nat (name_count_ st).

(** [service_manager::find_by_name]; 0 when there is no such name *)
Definition find_by_name (st : name_table) (svc_name : string) : result Z :=
  r <- bsearch (bsearch_fuel st) (name_ st) svc_name 0 (name_count_ st - 1);;
  match r with
  | inl mid => n <- arr_get (name_ st) mid;; Ok (hn_svc_handle n)
  | inr _ => Ok 0
  end.

(** [dst[i + d] = src[i]] for [lo <= i < hi] *)
Definition copy_names (src dst : list handle_name) (lo hi d : Z) : result (list handle_name) :=
  for_loop (Z.to_nat (hi - lo)) lo (λ i a, n <- arr_get src i;; arr_set a (i + d) n) dst.

(** [for (int i = name_count_; i > before; i--) name_[i] = name_[i-1];] *)
Definition shift_names (arr : list handle_name) (count before : Z) : result (list handle_name) :=
  for_loop (Z.to_nat (count - before)) 0
    (λ k a, let i := count - k in n <- arr_get a (i - 1);; arr_set a i n) arr.

(** [service_manager::_insert_name_before]; returns the stored name *)
Definition _insert_name_before (st : name_table) (svc_name : string) (svc_handle before : Z)
  : result (string * name_table) :=
  let* (cap, arr) :=
    (if name_cap_ st <=? name_count_ st then
       let cap := name_cap_ st * 2 in
       massert (cap <=? MAX_SLOT_SIZE);;;
       n <- copy_names (name_ st) (replicate (Z.to_nat cap) handle_name_default) 0 before 0;;
       n <- copy_names (name_ st) n before (name_count_ st) 1;;
       Ok (cap, n)
     else
       a <- shift_names (name_ st) (name_count_ st) before;;
       Ok (name_cap_ st, a)) in
  arr <- arr_set arr before (mkHandleName svc_name svc_handle);;
  Ok (svc_name, mkNames cap (name_count_ st + 1) arr).

(** [service_manager::_insert_name]; [None] is [nullptr], the name is taken *)
Definition _insert_name (st : name_table) (svc_name : string) (svc_handle : Z)
  : result (option string * name_table) :=
  r <- bsearch (bsearch_fuel st) (name_ st) svc_name 0 (name_count_ st - 1);;
  match r with
  | inl _ => Ok (None, st)
  | inr b => let* (s, st) := _insert_name_before st svc_name svc_handle b in Ok (Some s, st)
  end.

(** [service_manager::set_handle_by_name] *)
Definition set_handle_by_name (st : name_table) (svc_name : string) (svc_handle : Z)
  : result (option string * name_table) := _insert_name st svc_name svc_handle.

(** the compaction loop of [service_manager::unregister_service] *)
Definition remove_names (st : name_table) (svc_handle : Z) : result name_table :=
  let* (j, arr) :=
    for_loop (Z.to_nat (name_count_ st)) 0
      (λ i '(j, a),
         n <- arr_get a i;;
         if hn_svc_handle n =? svc_handle then Ok (j, a)
         else
           a <- (if negb (i =? j) then arr_set a j n else Ok a);;
           Ok (j + 1, a))
      (0, name_ st) in
  Ok (mkNames (name_cap_ st) j arr).

(** ** Abstraction *)

(** the entries in use *)
Definition names_live (st : name_table) : list handle_name :=
  take (Z.to_nat (name_count_ st)) (name_ st).

Definition names_sorted (l : list handle_name) : Prop :=
  ∀ i j a b, (i < j)%nat → l !! i = Some a → l !! j = Some b →
    str_lt (hn_svc_name a) (hn_svc_name b).

Definition names_map (l : list handle_name) : gmap string Z :=
  list_to_map ((λ n, (hn_svc_name n, hn_svc_handle n)) <$> l).

(** the invariant of the table *)
Record names_wf (st : name_table) : Prop := {
  nw_cap : Z.of_nat (length (name_ st)) = name_cap_ st;
  nw_pos : 0 < name_cap_ st;
  nw_count : 0 <= name_count_ st <= name_cap_ st;
  nw_sorted : names_sorted (names_live st)
}.

(** ** The order on names *)

Lemma str_compare_spec a b : CompSpec eq str_lt a b (str_compare a b).
Proof. apply String_as_OT.compare_spec. Qed.

#[export] Instance str_lt_trans : Transitive str_lt.
Proof. apply String_as_OT.lt_strorder. Qed.
#[export] Instance str_lt_irrefl : Irreflexive str_lt.
Proof. apply String_as_OT.lt_strorder. Qed.

Lemma str_lt_irreflexive a : ¬ str_lt a a.
Proof. apply str_lt_irrefl. Qed.

Lemma names_sorted_NoDup l : names_sorted l → NoDup (hn_svc_name <$> l).
Proof.
  intros Hs. apply NoDup_alt. intros i j x Hi Hj.
  rewrite list_lookup_fmap in Hi, Hj.
  destruct (l !! i) as [a|] eqn:Ha; [|done]. destruct (l !! j) as [b|] eqn:Hb; [|done].
  simpl in Hi, Hj. injection Hi as <-. injection Hj as Hj.
  destruct (Nat.lt_trichotomy i j) as [Hlt|[->|Hlt]]; [|done|].
  - pose proof (Hs _ _ _ _ Hlt Ha Hb) as H. rewrite Hj in H. by apply str_lt_irreflexive in H.
  - pose proof (Hs _ _ _ _ Hlt Hb Ha) as H. rewrite Hj in H. by apply str_lt_irreflexive in H.
Qed.

Lemma names_map_Some l i n : names_sorted l → l !! i = Some n →
  names_map l !! hn_svc_name n = Some (hn_svc_handle n).
Proof.
  intros Hs Hi. unfold names_map. apply elem_of_list_to_map_1.
  - rewrite <- list_fmap_compose. by apply names_sorted_NoDup.
  - apply list_elem_of_fmap. exists n. split; [done|]. by apply list_elem_of_lookup_2 in Hi.
Qed.

Lemma names_map_None l s : (∀ i n, l !! i = Some n → hn_svc_name n ≠ s) → names_map l !! s = None.
Proof.
  intros Hn. unfold names_map. apply not_elem_of_list_to_map_1.
  rewrite <- list_fmap_compose. intros Hin. apply list_elem_of_fmap in Hin as (n & -> & Hin).
  apply list_elem_of_lookup in Hin as [i Hi]. by apply (Hn i n).
Qed.

(** ** Bisection *)

(** what the search knows about [l] outside the interval [[b, e]] *)
Definition bs_inv (l : list handle_name) (s : string) (b e : Z) : Prop :=
  0 <= b ∧ e < Z.of_nat (length l) ∧ b <= e + 1 ∧
  (∀ i n, l !! i = Some n → Z.of_nat i < b → str_lt (hn_svc_name n) s) ∧
  (∀ i n, l !! i = Some n → e < Z.of_nat i → str_lt s (hn_svc_name n)).

(** what an answer means *)
Definition bs_answer (l : list handle_name) (s : string) (r : Z + Z) : Prop :=
  match r with
  | inl m => ∃ n, 0 <= m ∧ l !! Z.to_nat m = Some n ∧ hn_svc_name n = s
  | inr b => 0 <= b <= Z.of_nat (length l) ∧ bs_inv l s b (b - 1)
  end.

Lemma bs_inv_left l s b e m n : names_sorted l → bs_inv l s b e → b <= m <= e →
  l !! Z.to_nat m = Some n → str_lt (hn_svc_name n) s → bs_inv l s (m + 1) e.
Proof.
  intros Hs (H1 & H2 & H3 & Hl & Hr) Hm Hn Hlt. split_and!; try lia; [|done].
  intros i x Hi Hi'. destruct (decide (i = Z.to_nat m)) as [->|Hne]; [by simplify_eq|].
  etransitivity; [|exact Hlt]. apply (Hs i (Z.to_nat m)); [lia|done|done].
Qed.

Lemma bs_inv_right l s b e m n : names_sorted l → bs_inv l s b e → b <= m <= e →
  l !! Z.to_nat m = Some n → str_lt s (hn_svc_name n) → bs_inv l s b (m - 1).
Proof.
  intros Hs (H1 & H2 & H3 & Hl & Hr) Hm Hn Hlt. split_and!; try lia; [done|].
  intros i x Hi Hi'. destruct (decide (i = Z.to_nat m)) as [->|Hne]; [by simplify_eq|].
  etransitivity; [exact Hlt|]. apply (Hs (Z.to_nat m) i); [lia|done|done].
Qed.

Lemma bsearch_spec fuel arr l s b e :
  l `prefix_of` arr → names_sorted l → bs_inv l s b e →
  (Z.to_nat (e + 1 - b) <= fuel)%nat →
  ∃ r, bsearch fuel arr s b e = Ok r ∧ bs_answer l s r.
Proof.
  intros Hpre Hs. revert b e. induction fuel as [|fuel IH]; intros b e Hinv Hf; simpl.
  all: pose proof Hinv as (H1 & H2 & H3 & Hl & Hr).
  all: destruct (Z.leb_spec b e) as [Hbe|Hbe]; [try lia|].
  1,3: eexists; split; [done|]; simpl; split; [lia|]; by replace (b - 1) with e by lia.
  assert (Hmid : b <= (b + e) / 2 <= e).
  { split; [apply Z.div_le_lower_bound|apply Z.div_le_upper_bound]; lia. }
  destruct (lookup_lt_is_Some_2 l (Z.to_nat ((b + e) / 2))) as [n Hn]; [lia|].
  rewrite (arr_get_Ok arr _ n) by (try lia; by eapply prefix_lookup_Some). simpl.
  destruct (str_compare_spec (hn_svc_name n) s) as [Heq|Hlt|Hgt].
  - eexists; split; [done|]. exists n. split_and!; try done. lia.
  - apply IH; [by eapply bs_inv_left|lia].
  - apply IH; [by eapply bs_inv_right|lia].
Qed.

Lemma names_live_prefix st : names_live st `prefix_of` name_ st.
Proof. exists (drop (Z.to_nat (name_count_ st)) (name_ st)). symmetry. apply take_drop. Qed.

Lemma names_live_lookup st i n : names_live st !! i = Some n → name_ st !! i = Some n.
Proof. intros H. by apply (prefix_lookup_Some _ _ _ _ H), names_live_prefix. Qed.

Lemma names_live_length st : names_wf st → Z.of_nat (length (names_live st)) = name_count_ st.
Proof. intros [? ? ? ?]. unfold names_live. rewrite length_take. lia. Qed.

Lemma bs_inv_init st s : names_wf st → bs_inv (names_live st) s 0 (name_count_ st - 1).
Proof.
  intros Hwf. pose proof (names_live_length st Hwf). pose proof Hwf as [? ? ? ?].
  split_and!; try lia. intros i n Hi Hlt. apply lookup_lt_Some in Hi. lia.
Qed.

Lemma bsearch_live st s : names_wf st →
  ∃ r, bsearch (bsearch_fuel st) (name_ st) s 0 (name_count_ st - 1) = Ok r ∧
       bs_answer (names_live st) s r.
Proof.
  intros Hwf. apply bsearch_spec; [apply names_live_prefix|by destruct Hwf|by apply bs_inv_init|].
  unfold bsearch_fuel. destruct Hwf. lia.
Qed.

(** a failed search: the name is not in the table *)
Lemma bs_answer_absent l s b : bs_answer l s (inr b) → names_map l !! s = None.
Proof.
  intros [Hb (_ & _ & _ & Hl & Hr)]. apply names_map_None. intros i n Hi Heq.
  destruct (Z.lt_ge_cases (Z.of_nat i) b) as [H|H].
  - pose proof (Hl i n Hi H) as Hlt. rewrite Heq in Hlt. by apply str_lt_irreflexive in Hlt.
  - pose proof (Hr i n Hi ltac:(lia)) as Hlt. rewrite Heq in Hlt. by apply str_lt_irreflexive in Hlt.
Qed.

(** [find_by_name] is the lookup of the map, 0 for an unknown name. *)
Lemma find_by_name_lookup st s : names_wf st →
  find_by_name st s = Ok (default 0 (names_map (names_live st) !! s)).
Proof.
  intros Hwf. unfold find_by_name. destruct (bsearch_live st s Hwf) as (r & -> & Hr). simpl.
  destruct r as [m|b].
  - destruct Hr as (n & Hm & Hn & <-).
    rewrite (arr_get_Ok _ _ n) by auto using names_live_lookup.
    simpl. by rewrite (names_map_Some _ _ _ (nw_sorted _ Hwf) Hn).
  - by rewrite (bs_answer_absent _ _ _ Hr).
Qed.

(** ** Insertion *)

(** copying an interval, shifted by [d] *)
Lemma copy_names_spec src dst lo hi d : 0 <= lo <= hi → 0 <= lo + d →
  hi <= Z.of_nat (length src) → hi + d <= Z.of_nat (length dst) →
  ∃ a, copy_names src dst lo hi d = Ok a ∧ length a = length dst ∧
    ∀ i, 0 <= i → a !! Z.to_nat i =
      if decide (lo + d <= i < hi + d) then src !! Z.to_nat (i - d) else dst !! Z.to_nat i.
Proof.
  intros Hlo Hd Hs Hdst. unfold copy_names.
  edestruct (for_loop_inv (λ k a, length a = length dst ∧ ∀ i, 0 <= i → a !! Z.to_nat i =
      if decide (lo + d <= i < k + d) then src !! Z.to_nat (i - d) else dst !! Z.to_nat i)
      (Z.to_nat (hi - lo)) lo) as (a & Ha & Hlen & Hl).
  3:{ exists a. split; [exact Ha|]. split; [done|].
      replace (lo + Z.of_nat (Z.to_nat (hi - lo))) with hi in Hl by lia. done. }
  - split; [done|]. intros i Hi. case_decide; [lia|done].
  - intros k a Hk [Hlen Hl].
    destruct (arr_get_in_range src k) as (n & Hn & ->); [lia|]. simpl.
    rewrite arr_set_Ok by lia. eexists; split; [done|]. rewrite length_insert. split; [done|].
    intros i Hi. destruct (decide (i = k + d)) as [->|Hne].
    + rewrite list_lookup_insert_eq by lia. case_decide; [|lia]. rewrite <- Hn. f_equal. lia.
    + rewrite list_lookup_insert_ne by lia. rewrite Hl by done.
      destruct (decide (lo + d <= i < k + d)), (decide (lo + d <= i < k + 1 + d)); try done; lia.
Qed.

Lemma shift_names_spec arr count before : 0 <= before <= count →
  count < Z.of_nat (length arr) →
  ∃ a, shift_names arr count before = Ok a ∧ length a = length arr ∧
    ∀ i, 0 <= i → a !! Z.to_nat i =
      if decide (before < i <= count) then arr !! Z.to_nat (i - 1) else arr !! Z.to_nat i.
Proof.
  intros Hb Hc. unfold shift_names.
  edestruct (for_loop_inv (λ k a, length a = length arr ∧ ∀ i, 0 <= i → a !! Z.to_nat i =
      if decide (count - k < i <= count) then arr !! Z.to_nat (i - 1) else arr !! Z.to_nat i)
      (Z.to_nat (count - before)) 0) as (a & Ha & Hlen & Hl).
  3:{ exists a. split; [exact Ha|]. split; [done|].
      replace (count - (0 + Z.of_nat (Z.to_nat (count - before)))) with before in Hl by lia. done. }
  - split; [done|]. intros i Hi. case_decide; [lia|done].
  - intros k a Hk [Hlen Hl].
    destruct (arr_get_in_range a (count - k - 1)) as (n & Hn & ->); [lia|]. simpl.
    rewrite arr_set_Ok by lia. eexists; split; [done|]. rewrite length_insert. split; [done|].
    rewrite Hl in Hn by lia. rewrite decide_False in Hn by lia.
    intros i Hi. destruct (decide (i = count - k)) as [->|Hne].
    + rewrite list_lookup_insert_eq by lia. case_decide; [|lia]. by rewrite <- Hn.
    + rewrite list_lookup_insert_ne by lia. rewrite Hl by done.
      destruct (decide (count - k < i <= count)), (decide (count - (k + 1) < i <= count)); try done; lia.
Qed.

(** the table with an entry put at position [b] *)
Definition insert_at {A} (b : nat) (x : A) (l : list A) : list A := take b l ++ x :: drop b l.

Lemma insert_at_lookup {A} b (x : A) l i : (b <= length l)%nat →
  insert_at b x l !! i =
    if decide (i < b)%nat then l !! i else if decide (i = b) then Some x else l !! (i - 1)%nat.
Proof.
  intros Hb. unfold insert_at. repeat case_decide.
  - rewrite lookup_app_l by (rewrite length_take; lia). by apply lookup_take_lt.
  - subst. rewrite lookup_app_r by (rewrite length_take; lia).
    rewrite length_take_le by lia. by rewrite Nat.sub_diag.
  - rewrite lookup_app_r by (rewrite length_take; lia).
    rewrite length_take_le by lia. destruct (i - b)%nat as [|k] eqn:E; [lia|]. simpl.
    rewrite lookup_drop. f_equal. lia.
Qed.

Lemma insert_name_before_spec st s h b : names_wf st → name_cap_ st * 2 <= MAX_SLOT_SIZE →
  0 <= b <= name_count_ st →
  ∃ st', _insert_name_before st s h b = Ok (s, st') ∧
    Z.of_nat (length (name_ st')) = name_cap_ st' ∧ 0 < name_cap_ st' ∧
    name_count_ st' = name_count_ st + 1 ∧ name_count_ st' <= name_cap_ st' ∧
    names_live st' = insert_at (Z.to_nat b) (mkHandleName s h) (names_live st) ∧
    name_cap_ st' <= Z.max (name_cap_ st) (2 * name_count_ st).
Proof.
  intros Hwf Hmax Hb. pose proof (names_live_length st Hwf) as Hll.
  pose proof Hwf as [Hcap Hpos Hcnt _].
  assert (Hgoal : ∀ cap arr, Z.of_nat (length arr) = cap → name_count_ st < cap →
    cap <= Z.max (name_cap_ st) (2 * name_count_ st) →
    (∀ i, 0 <= i < b → arr !! Z.to_nat i = name_ st !! Z.to_nat i) →
    (∀ i, b < i <= name_count_ st → arr !! Z.to_nat i = name_ st !! Z.to_nat (i - 1)) →
    ∃ st', (arr <- arr_set arr b (mkHandleName s h);;
            Ok (s, mkNames cap (name_count_ st + 1) arr)) = Ok (s, st') ∧
    Z.of_nat (length (name_ st')) = name_cap_ st' ∧ 0 < name_cap_ st' ∧
    name_count_ st' = name_count_ st + 1 ∧ name_count_ st' <= name_cap_ st' ∧
    names_live st' = insert_at (Z.to_nat b) (mkHandleName s h) (names_live st) ∧
    name_cap_ st' <= Z.max (name_cap_ st) (2 * name_count_ st)).
  { intros cap arr Hlen Hlt Hcp H1 H2. rewrite arr_set_Ok by lia. simpl.
    eexists; split; [done|]. simpl. rewrite length_insert. split_and!; try lia.
    apply list_eq. intros i. rewrite insert_at_lookup by lia. unfold names_live. simpl.
    destruct (decide (i < Z.to_nat (name_count_ st + 1))%nat).
    - rewrite lookup_take_lt by done. repeat case_decide.
      + rewrite list_lookup_insert_ne, lookup_take_lt by lia.
        specialize (H1 (Z.of_nat i)). rewrite Nat2Z.id in H1. apply H1. lia.
      + subst. apply list_lookup_insert_eq. lia.
      + rewrite list_lookup_insert_ne, lookup_take_lt by lia.
        specialize (H2 (Z.of_nat i)). rewrite Nat2Z.id in H2. rewrite H2 by lia. f_equal. lia.
    - rewrite lookup_take_ge by lia. repeat case_decide; try lia.
      rewrite lookup_take_ge; [done|lia]. }
  unfold _insert_name_before. destruct (Z.leb_spec (name_cap_ st) (name_count_ st)) as [Hfull|Hroom].
  - unfold massert. rewrite (proj2 (Z.leb_le _ _)) by lia. simpl.
    destruct (copy_names_spec (name_ st) (replicate (Z.to_nat (name_cap_ st * 2)) handle_name_default) 0 b 0)
      as (n1 & -> & Hn1 & Hl1); rewrite ?length_replicate in *; try lia. simpl.
    destruct (copy_names_spec (name_ st) n1 b (name_count_ st) 1)
      as (n2 & -> & Hn2 & Hl2); try lia. simpl.
    apply Hgoal; try lia.
    + intros i Hi. rewrite Hl2 by lia. rewrite decide_False by lia. rewrite Hl1 by lia.
      rewrite decide_True by lia. by rewrite Z.sub_0_r.
    + intros i Hi. rewrite Hl2 by lia. by rewrite decide_True by lia.
  - destruct (shift_names_spec (name_ st) (name_count_ st) b) as (a & -> & Hn & Hl); try lia. simpl.
    apply Hgoal; try lia.
    + intros i Hi. rewrite Hl by lia. by rewrite decide_False by lia.
    + intros i Hi. rewrite Hl by lia. by rewrite decide_True by lia.
Qed.

Lemma insert_at_Permutation {A} b (x : A) l : insert_at b x l ≡ₚ x :: l.
Proof.
  unfold insert_at. rewrite <- (take_drop b l) at 3. by rewrite Permutation_middle.
Qed.

Lemma insert_at_sorted l s h b : names_sorted l → bs_answer l s (inr b) →
  names_sorted (insert_at (Z.to_nat b) (mkHandleName s h) l).
Proof.
  intros Hs [Hb (_ & _ & _ & Hl & Hr)] i j x y Hij Hx Hy.
  rewrite insert_at_lookup in Hx, Hy by lia.
  destruct (decide (i < Z.to_nat b)%nat), (decide (j < Z.to_nat b)%nat); try lia.
  - by apply (Hs i j).
  - destruct (decide (j = Z.to_nat b)); simplify_eq/=.
    + apply (Hl i); [done|lia].
    + apply (Hs i (j - 1)%nat); [lia|done|done].
  - destruct (decide (i = Z.to_nat b)), (decide (j = Z.to_nat b)); simplify_eq/=; try lia.
    + apply (Hr (j - 1)%nat); [done|lia].
    + apply (Hs (i - 1)%nat (j - 1)%nat); [lia|done|done].
Qed.

Lemma names_map_elem l s v : names_sorted l →
  names_map l !! s = Some v ↔ mkHandleName s v ∈ l.
Proof.
  intros Hs. unfold names_map. rewrite <- elem_of_list_to_map.
  - rewrite list_elem_of_fmap. split.
    + intros ([s' v'] & Heq & Hin). by simplify_eq/=.
    + intros Hin. by exists (mkHandleName s v).
  - rewrite <- list_fmap_compose. by apply names_sorted_NoDup.
Qed.

Lemma names_map_insert_at l s h b : names_sorted l → bs_answer l s (inr b) →
  names_map (insert_at (Z.to_nat b) (mkHandleName s h) l) = <[s := h]> (names_map l).
Proof.
  intros Hs Hb. pose proof (insert_at_sorted l s h b Hs Hb) as Hs'.
  unfold names_map.
  rewrite (list_to_map_proper _ ((λ n, (hn_svc_name n, hn_svc_handle n)) <$> mkHandleName s h :: l)).
  - done.
  - rewrite <- list_fmap_compose. by apply names_sorted_NoDup.
  - by rewrite insert_at_Permutation.
Qed.

(** [set_handle_by_name]: a taken name is refused and nothing changes; a free one is added. *)
Lemma set_handle_by_name_map st s h : names_wf st → name_cap_ st * 2 <= MAX_SLOT_SIZE →
  ∃ st', names_wf st' ∧
    match names_map (names_live st) !! s with
    | Some _ => set_handle_by_name st s h = Ok (None, st') ∧ st' = st
    | None => set_handle_by_name st s h = Ok (Some s, st') ∧
              names_map (names_live st') = <[s := h]> (names_map (names_live st)) ∧
              name_count_ st' = name_count_ st + 1 ∧
              name_cap_ st' <= Z.max (name_cap_ st) (2 * name_count_ st)
    end.
Proof.
  intros Hwf Hmax. unfold set_handle_by_name, _insert_name.
  destruct (bsearch_live st s Hwf) as (r & -> & Hr). simpl. destruct r as [m|b].
  - destruct Hr as (n & Hm & Hn & <-). exists st. split; [done|].
    by rewrite (names_map_Some _ _ _ (nw_sorted _ Hwf) Hn).
  - rewrite (bs_answer_absent _ _ _ Hr). pose proof Hr as [Hb _].
    rewrite (names_live_length st Hwf) in Hb.
    destruct (insert_name_before_spec st s h b Hwf Hmax Hb) as (st' & -> & H1 & H2 & H3 & H4 & H5 & H6).
    exists st'. simpl. split.
    + split; try done; [destruct Hwf; lia|]. rewrite H5. apply insert_at_sorted; [by destruct Hwf|done].
    + split; [done|]. rewrite H5. split; [|done]. apply names_map_insert_at; [by destruct Hwf|done].
Qed.

(** ** Removal *)

Definition keeps (h : Z) (n : handle_name) : bool := negb (hn_svc_handle n =? h).

Lemma filter_take_S {A} (f : A → bool) i x (l : list A) : l !! i = Some x →
  List.filter f (take (S i) l) = List.filter f (take i l) ++ (if f x then [x] else []).
Proof. intros Hx. rewrite (take_S_r _ _ _ Hx), List.filter_app. simpl. by destruct (f x). Qed.

Definition remove_inv (h : Z) (arr : list handle_name) (i : Z) (ja : Z * list handle_name) : Prop :=
  let kept := List.filter (keeps h) (take (Z.to_nat i) arr) in
  ja.1 = Z.of_nat (length kept) ∧ length ja.2 = length arr ∧
  take (length kept) ja.2 = kept ∧ (∀ k, (Z.to_nat i <= k)%nat → ja.2 !! k = arr !! k).

Lemma filter_take_le {A} (f : A → bool) i (l : list A) : (length (List.filter f (take i l)) <= i)%nat.
Proof.
  etransitivity; [apply List.filter_length_le|]. rewrite length_take. lia.
Qed.

Lemma remove_names_live st h : names_wf st →
  ∃ st', remove_names st h = Ok st' ∧ name_cap_ st' = name_cap_ st ∧
    length (name_ st') = length (name_ st) ∧
    name_count_ st' = Z.of_nat (length (List.filter (keeps h) (names_live st))) ∧
    names_live st' = List.filter (keeps h) (names_live st).
Proof.
  intros [Hcap Hpos Hcnt Hs]. unfold remove_names.
  edestruct (for_loop_inv (remove_inv h (name_ st)) (Z.to_nat (name_count_ st)) 0)
    as ([j arr] & -> & Hj & Hlen & Htake & _).
  3:{ simpl in *. eexists; split; [done|]. simpl. rewrite !Z2Nat.id in * by lia.
      unfold names_live in *. simpl. split_and!; try done.
      rewrite Hj, Nat2Z.id. exact Htake. }
  - split_and!; simpl; done.
  - intros i [j arr] Hi (Hj & Hlen & Htake & Hrest). simpl in *.
    destruct (arr_get_in_range arr i) as (n & Hn & ->); [lia|]. simpl.
    assert (Hni : name_ st !! Z.to_nat i = Some n) by (rewrite <- Hrest; [done|lia]).
    unfold remove_inv. simpl. replace (Z.to_nat (i + 1)) with (S (Z.to_nat i)) by lia.
    rewrite (filter_take_S _ _ _ _ Hni).
    pose proof (filter_take_le (keeps h) (Z.to_nat i) (name_ st)) as Hle.
    set (kept := List.filter (keeps h) (take (Z.to_nat i) (name_ st))) in *.
    assert (Hkeep : keeps h n = negb (hn_svc_handle n =? h)) by done.
    destruct (hn_svc_handle n =? h) eqn:Eh; simpl in *; rewrite Hkeep.
    + eexists; split; [done|]. simpl. rewrite app_nil_r. split_and!; try done.
      intros k Hk. apply Hrest. lia.
    + assert (∃ arr', (if negb (i =? j) then arr_set arr j n else Ok arr) = Ok arr' ∧
                arr' = <[Z.to_nat j := n]> arr) as (arr' & -> & ->).
      { destruct (Z.eqb_spec i j) as [->|]; simpl.
        - eexists; split; [done|]. symmetry. by apply list_insert_id.
        - rewrite arr_set_Ok by lia. eauto. }
      simpl. eexists; split; [done|]. simpl. rewrite length_app, length_insert. simpl.
      split_and!; try lia.
      * rewrite Nat.add_1_r. rewrite (take_S_r _ _ n).
        -- rewrite take_insert_ge by lia. by rewrite Htake.
        -- rewrite Hj, Nat2Z.id. apply list_lookup_insert_eq. lia.
      * intros k Hk. rewrite list_lookup_insert_ne by lia. apply Hrest. lia.
Qed.

Lemma filter_sorted f l : names_sorted l → names_sorted (List.filter f l).
Proof.
  induction l as [|a l IH]; intros Hs; [done|]. simpl.
  assert (names_sorted l) as Hs'.
  { intros i j x y Hij Hx Hy. apply (Hs (S i) (S j)); [lia|done|done]. }
  destruct (f a); [|by apply IH].
  intros [|i] [|j] x y Hij Hx Hy; simpl in *; try lia.
  - simplify_eq. apply list_elem_of_lookup_2, list_elem_of_In, List.filter_In in Hy as [Hy _].
    apply list_elem_of_In, list_elem_of_lookup in Hy as [k Hk]. apply (Hs 0%nat (S k)); [lia|done|done].
  - apply (IH Hs' i j); [lia|done|done].
Qed.

(** Unregistering a handle removes exactly the names of that handle. *)
Lemma remove_names_map st h : names_wf st →
  ∃ st', remove_names st h = Ok st' ∧ names_wf st' ∧ name_cap_ st' = name_cap_ st ∧
    ∀ s v, names_map (names_live st') !! s = Some v ↔
           names_map (names_live st) !! s = Some v ∧ v ≠ h.
Proof.
  intros Hwf. destruct (remove_names_live st h Hwf) as (st' & Hr & Hcap & Hlen & Hcnt & Hlive).
  pose proof (names_live_length st Hwf) as Hll. pose proof Hwf as [H1 H2 H3 Hs].
  assert (Hwf' : names_wf st').
  { split; try lia.
    - rewrite Hcnt, Hcap. pose proof (List.filter_length_le (keeps h) (names_live st)). lia.
    - rewrite Hlive. by apply filter_sorted. }
  exists st'. split_and!; try done. intros s v.
  rewrite (names_map_elem (names_live st')), (names_map_elem (names_live st)) by (by destruct Hwf').
  rewrite Hlive, !list_elem_of_In, List.filter_In. unfold keeps. simpl.
  rewrite negb_true_iff, Z.eqb_neq. done.
Qed.

Lemma names_init_wf : names_wf names_init.
Proof. split; simpl; try done. Qed.

(** ** The table as a finite map *)

Inductive name_op :=
  | N_set (svc_name : string) (svc_handle : Z)
  | N_find (svc_name : string)
  | N_unregister (svc_handle : Z).

(** what a call returns: the result of [set_handle_by_name], of [find_by_name] *)
Inductive name_out :=
  | O_set (r : option string)
  | O_find (h : Z)
  | O_unregister.

Fixpoint run_names (ops : list name_op) (st : name_table) : result (list name_out * name_table) :=
  match ops with
  | [] => Ok ([], st)
  | N_set s h :: ops =>
      let* (r, st) := set_handle_by_name st s h in
      let* (os, st) := run_names ops st in Ok (O_set r :: os, st)
  | N_find s :: ops =>
      h <- find_by_name st s;;
      let* (os, st) := run_names ops st in Ok (O_find h :: os, st)
  | N_unregister h :: ops =>
      st <- remove_names st h;;
      let* (os, st) := run_names ops st in Ok (O_unregister :: os, st)
  end.

(** the same calls on a finite map from names to handles *)
Fixpoint run_map (ops : list name_op) (m : gmap string Z) : list name_out * gmap string Z :=
  match ops with
  | [] => ([], m)
  | N_set s h :: ops =>
      match m !! s with
      | Some _ => let r := run_map ops m in (O_set None :: r.1, r.2)
      | None => let r := run_map ops (<[s := h]> m) in (O_set (Some s) :: r.1, r.2)
      end
  | N_find s :: ops => let r := run_map ops m in (O_find (default 0 (m !! s)) :: r.1, r.2)
  | N_unregister h :: ops => let r := run_map ops (filter (λ kv, kv.2 ≠ h) m) in (O_unregister :: r.1, r.2)
  end.

Lemma names_map_filter l l' h :
  (∀ s v, names_map l' !! s = Some v ↔ names_map l !! s = Some v ∧ v ≠ h) →
  names_map l' = filter (λ kv, kv.2 ≠ h) (names_map l).
Proof.
  intros Hl. apply map_eq. intros s. apply option_eq. intros v. rewrite Hl.
  by rewrite map_lookup_filter_Some.
Qed.

Lemma run_names_map ops st n : names_wf st → name_count_ st <= n → name_cap_ st <= Z.max 2 (2 * n) →
  n + Z.of_nat (length ops) < 2 ^ 28 →
  ∃ st', run_names ops st = Ok ((run_map ops (names_map (names_live st))).1, st') ∧ names_wf st' ∧
    names_map (names_live st') = (run_map ops (names_map (names_live st))).2.
Proof.
  revert st n. induction ops as [|op ops IH]; intros st n Hwf Hn Hcap Hlen; [by exists st|].
  simpl length in Hlen. destruct op as [s h|s|h]; simpl.
  - destruct (set_handle_by_name_map st s h Hwf) as (st1 & Hwf1 & Hset); [unfold MAX_SLOT_SIZE; lia|].
    destruct (names_map (names_live st) !! s) eqn:Hs.
    + destruct Hset as [-> ->]. simpl. destruct (IH st n Hwf) as (st' & -> & Hwf' & Hm); [lia..|].
      exists st'. by simpl.
    + destruct Hset as (-> & Hm1 & Hc1 & Hcap1). simpl.
      destruct (IH st1 (n + 1) Hwf1) as (st' & -> & Hwf' & Hm); [lia..|].
      exists st'. simpl. by rewrite Hm, Hm1.
  - rewrite find_by_name_lookup by done. simpl. destruct (IH st n Hwf) as (st' & -> & Hwf' & Hm); [lia..|].
    exists st'. by simpl.
  - destruct (remove_names_map st h Hwf) as (st1 & Hr & Hwf1 & Hc1 & Hm1).
    destruct (remove_names_live st h Hwf) as (st2 & Hr2 & _ & _ & Hcnt & _).
    assert (st2 = st1) as -> by congruence.
    pose proof (names_live_length st Hwf). pose proof (List.filter_length_le (keeps h) (names_live st)).
    rewrite Hr. simpl. apply names_map_filter in Hm1.
    destruct (IH st1 n Hwf1) as (st' & -> & Hwf' & Hm); [lia..|].
    exists st'. simpl. by rewrite Hm, Hm1.
Qed.

(** ** Properties *)

(** C37: The sorted name table of the service manager, with its binary search, shifting
    insertion and compacting removal, behaves as a finite map from names to handles: in
    every sequence of fewer than 2^28 calls of [set_handle_by_name], [find_by_name] and the
    removal of [unregister_service], the calls return, with the results of the map. *)
Theorem names_refine_map ops : Z.of_nat (length ops) < 2 ^ 28 →
  ∃ st', run_names ops names_init = Ok ((run_map ops ∅).1, st') ∧ names_wf st' ∧
    names_map (names_live st') = (run_map ops ∅).2.
Proof. intros Hlen. apply (run_names_map ops names_init 0); [apply names_init_wf|done..]. Qed.

Definition names_example : list name_op :=
  [N_set "logger" 1; N_set "a" 2; N_set "z" 2; N_set "logger" 3; N_find "z"; N_find "q"; N_unregister 2; N_find "a"].

Lemma names_refine_map_witness :
  ∃ st', run_names names_example names_init =
         Ok ([O_set (Some "logger"); O_set (Some "a"); O_set (Some "z"); O_set None; O_find 2; O_find 0;
              O_unregister; O_find 0], st') ∧
    names_wf st' ∧ names_map (names_live st') = {[ "logger" := 1 ]}.
Proof. apply (names_refine_map names_example). vm_compute. reflexivity. Defined.
