(* ===== verification/HandleSlot.v ===== *)
(** * Service handles (skynet-src/service/service_manager.cpp)

    The slot array of the service manager: a context with handle [h] sits at
    index [h & (size - 1)], the size is a power of two and doubles when every
    slot is taken. Handles come from a rolling 24-bit seed; 0 is reserved.

    The array holds pointers to contexts; the contexts' handles are read through
    [handle_of], which the service manager instantiates with its heap. *)
From S2P Require Import Prelude.

Definition HANDLE_MASK : Z := 0x00FFFFFF.
Definition DEFAULT_SLOT_SIZE : Z := 4.

(** the handle part of [class service_manager] *)
Record slot_state := mkSlots {
  alloc_svc_handle_seed_ : Z;
  svc_ctx_slot_size_ : Z;
  svc_ctx_slot_ : list Z
}.

(** the handle part of [service_manager::init] *)
Definition slots_init : slot_state :=
  mkSlots 1 DEFAULT_SLOT_SIZE (replicate (Z.to_nat DEFAULT_SLOT_SIZE) 0).

(** [h & (svc_ctx_slot_size_ - 1)] *)
Definition slot_hash (size h : Z) : Z := Z.land h (size - 1).

(** the inner [for] of [register_service]: [n] more slots to try from [svc_handle];
    [Some h] is the handle whose slot is free *)
Fixpoint slot_search (n : nat) (st : slot_state) (svc_handle : Z) : result (option Z) :=
  match n with
  | O => Ok None
  | S n =>
      let svc_handle := if HANDLE_MASK <? svc_handle then 1 else svc_handle in
      p <- arr_get (svc_ctx_slot_ st) (slot_hash (svc_ctx_slot_size_ st) svc_handle);;
      if p =? 0 then Ok (Some svc_handle)
      else slot_search n st (u32 (svc_handle + 1))
  end.

Section register.
(** [ctx->svc_handle_] *)
Variable handle_of : Z → result Z.

(** the doubling of the array in [register_service] *)
Definition slot_expand (st : slot_state) : result slot_state :=
  let size := svc_ctx_slot_size_ st in
  massert (size * 2 - 1 <=? HANDLE_MASK);;;
  new_slot <- for_loop (Z.to_nat size) 0
    (λ i a,
       p <- arr_get (svc_ctx_slot_ st) i;;
       h <- (if p =? 0 then Err NullDeref else handle_of p);;
       let hash := slot_hash (size * 2) h in
       x <- arr_get a hash;;
       massert (x =? 0);;;
       arr_set a hash p)
    (replicate (Z.to_nat (size * 2)) 0);;
  Ok (mkSlots (alloc_svc_handle_seed_ st) (size * 2) new_slot).

(** the [for (;;)] of [register_service] *)
Fixpoint register_loop (fuel : nat) (st : slot_state) (svc_ctx : Z) : result (Z * slot_state) :=
  match fuel with
  | O => Err OutOfFuel
  | S fuel =>
      r <- slot_search (Z.to_nat (svc_ctx_slot_size_ st)) st (alloc_svc_handle_seed_ st);;
      match r with
      | Some h =>
          slots <- arr_set (svc_ctx_slot_ st) (slot_hash (svc_ctx_slot_size_ st) h) svc_ctx;;
          Ok (h, mkSlots (u32 (h + 1)) (svc_ctx_slot_size_ st) slots)
      | None => st <- slot_expand st;; register_loop fuel st svc_ctx
      end
  end.

(** [service_manager::register_service]: one doubling always makes room *)
Definition register_service (st : slot_state) (svc_ctx : Z) : result (Z * slot_state) :=
  register_loop 2 st svc_ctx.
End register.

(** the slot a handle names: [svc_ctx_slot_[svc_handle & (svc_ctx_slot_size_ - 1)]] *)
Definition slot_get (st : slot_state) (svc_handle : Z) : result Z :=
  arr_get (svc_ctx_slot_ st) (slot_hash (svc_ctx_slot_size_ st) svc_handle).

(** [svc_ctx_slot_[hash] = nullptr] *)
Definition slot_clear (st : slot_state) (svc_handle : Z) : result slot_state :=
  slots <- arr_set (svc_ctx_slot_ st) (slot_hash (svc_ctx_slot_size_ st) svc_handle) 0;;
  Ok (mkSlots (alloc_svc_handle_seed_ st) (svc_ctx_slot_size_ st) slots).

(** ** Invariant and abstraction *)

Definition slot_at (l : list Z) (i : Z) : Z := default 0 (l !! Z.to_nat i).

(** [hof]: the handle each live context carries *)
Record slots_wf (hof : gmap Z Z) (st : slot_state) : Prop := {
  sw_size : ∃ k, 2 <= k <= 24 ∧ svc_ctx_slot_size_ st = 2 ^ k;
  sw_len : Z.of_nat (length (svc_ctx_slot_ st)) = svc_ctx_slot_size_ st;
  sw_seed : 1 <= alloc_svc_handle_seed_ st <= HANDLE_MASK + 1;
  sw_slot : ∀ i, 0 <= i < svc_ctx_slot_size_ st → slot_at (svc_ctx_slot_ st) i ≠ 0 →
    ∃ h, hof !! slot_at (svc_ctx_slot_ st) i = Some h ∧ 1 <= h <= HANDLE_MASK ∧
         h mod svc_ctx_slot_size_ st = i
}.

(** the context registered under a handle, 0 when there is none *)
Definition slot_find (hof : gmap Z Z) (st : slot_state) (h : Z) : Z :=
  let p := slot_at (svc_ctx_slot_ st) (h mod svc_ctx_slot_size_ st) in
  if decide (p ≠ 0 ∧ hof !! p = Some h) then p else 0.

(** ** Lemmas *)

Lemma slot_hash_mod k h : 0 <= k → slot_hash (2 ^ k) h = h mod 2 ^ k.
Proof. intros. unfold slot_hash. rewrite <- Z.land_ones by done. by rewrite Z.ones_equiv, Z.sub_1_r. Qed.

Lemma slots_hash hof st h : slots_wf hof st →
  slot_hash (svc_ctx_slot_size_ st) h = h mod svc_ctx_slot_size_ st.
Proof. intros [(k & Hk & ->) _ _ _]. apply slot_hash_mod. lia. Qed.

Lemma slots_size hof st : slots_wf hof st →
  4 <= svc_ctx_slot_size_ st <= 2 ^ 24 ∧ (svc_ctx_slot_size_ st | 2 ^ 24).
Proof.
  intros [(k & Hk & ->) _ _ _]. split.
  - change 4 with (2 ^ 2). split; apply Z.pow_le_mono_r; lia.
  - exists (2 ^ (24 - k)). rewrite <- Z.pow_add_r by lia. f_equal. lia.
Qed.

Lemma slots_mod_range hof st h : slots_wf hof st →
  0 <= h mod svc_ctx_slot_size_ st < svc_ctx_slot_size_ st.
Proof. intros Hwf. apply Z.mod_pos_bound. apply slots_size in Hwf. lia. Qed.

Lemma slot_at_get l i : 0 <= i < Z.of_nat (length l) → arr_get l i = Ok (slot_at l i).
Proof.
  intros Hi. destruct (arr_get_in_range l i Hi) as (x & Hx & ->). unfold slot_at. by rewrite Hx.
Qed.

Lemma slot_at_insert l i j x : 0 <= i < Z.of_nat (length l) → 0 <= j →
  slot_at (<[Z.to_nat i := x]> l) j = if decide (i = j) then x else slot_at l j.
Proof.
  intros Hi Hj. unfold slot_at. case_decide as Hd.
  - subst. by rewrite list_lookup_insert_eq by lia.
  - by rewrite list_lookup_insert_ne by lia.
Qed.

(** the [i]-th handle the search visits *)
Definition visit (h0 i : Z) : Z := 1 + (h0 - 1 + i) mod HANDLE_MASK.

Lemma visit_step h0 i : visit h0 (i + 1) = visit (visit h0 0 + 1) i.
Proof.
  unfold visit. f_equal. rewrite Z.add_0_r.
  replace (1 + (h0 - 1) mod HANDLE_MASK + 1 - 1 + i) with ((h0 - 1) mod HANDLE_MASK + (i + 1)) by lia.
  rewrite Z.add_mod_idemp_l by done. f_equal; lia.
Qed.

Lemma visit_range h0 i : 1 <= visit h0 i <= HANDLE_MASK.
Proof. unfold visit. pose proof (Z.mod_pos_bound (h0 - 1 + i) HANDLE_MASK). unfold HANDLE_MASK in *. lia. Qed.

Lemma visit_0 h0 : 1 <= h0 <= HANDLE_MASK + 1 →
  visit h0 0 = if HANDLE_MASK <? h0 then 1 else h0.
Proof.
  intros H. unfold visit, HANDLE_MASK in *. destruct (Z.ltb_spec 16777215 h0).
  - assert (h0 = 16777216) as -> by lia. done.
  - rewrite Z.mod_small; lia.
Qed.

(** The search stops at the first free slot it visits. *)
Lemma slot_search_spec hof st n h0 : slots_wf hof st → 1 <= h0 <= HANDLE_MASK + 1 →
  ∃ r, slot_search n st h0 = Ok r ∧
    match r with
    | Some h => 1 <= h <= HANDLE_MASK ∧ (∃ i, 0 <= i < Z.of_nat n ∧ h = visit h0 i) ∧
                slot_at (svc_ctx_slot_ st) (h mod svc_ctx_slot_size_ st) = 0
    | None => ∀ i, 0 <= i < Z.of_nat n →
                slot_at (svc_ctx_slot_ st) (visit h0 i mod svc_ctx_slot_size_ st) ≠ 0
    end.
Proof.
  intros Hwf. revert h0. induction n as [|n IH]; intros h0 Hh0; simpl.
  { eexists; split; [done|]. simpl. lia. }
  rewrite <- visit_0 by done. pose proof (visit_range h0 0) as Hv.
  rewrite (slots_hash hof) by done.
  pose proof (slots_mod_range hof st (visit h0 0) Hwf).
  rewrite slot_at_get by (destruct Hwf; lia). simpl.
  destruct (Z.eqb_spec (slot_at (svc_ctx_slot_ st) (visit h0 0 mod svc_ctx_slot_size_ st)) 0) as [He|Hne].
  - eexists; split; [done|]. split; [done|]. split; [|done]. exists 0. split; [lia|done].
  - unfold HANDLE_MASK in Hv. rewrite u32_small by lia.
    destruct (IH (visit h0 0 + 1)) as (r & -> & Hr); [unfold HANDLE_MASK; lia|].
    eexists; split; [done|]. destruct r as [h|].
    { destruct Hr as (? & (i & Hi & ->) & ?). split; [done|]. split; [|done].
      exists (i + 1). split; [lia|]. by rewrite visit_step. }
    intros i Hi. destruct (decide (i = 0)) as [->|]; [done|].
    replace i with (i - 1 + 1) by lia. rewrite visit_step. apply Hr. lia.
Qed.

(** Every residue except 0 is visited in [size] steps; 0 too when the search does
    not run past the last handle, or starts past it. *)
Lemma visit_covers s h0 r : 4 <= s <= 2 ^ 24 → (s | 2 ^ 24) → 1 <= h0 <= HANDLE_MASK + 1 →
  0 <= r < s → (r ≠ 0 ∨ h0 + s - 1 <= HANDLE_MASK ∨ (h0 = HANDLE_MASK + 1 ∧ s < 2 ^ 24)) →
  ∃ i, 0 <= i < s ∧ visit h0 i mod s = r.
Proof.
  intros Hs [c Hc] Hh0 Hr Hcase. unfold HANDLE_MASK in *.
  destruct (Z.le_gt_cases (h0 + s - 1) 16777215) as [Hnw|Hw].
  - exists ((r - h0) mod s). pose proof (Z.mod_pos_bound (r - h0) s). split; [lia|].
    unfold visit, HANDLE_MASK. rewrite (Z.mod_small (h0 - 1 + _)) by lia.
    replace (1 + (h0 - 1 + (r - h0) mod s)) with (h0 + (r - h0) mod s) by lia.
    rewrite Z.add_mod_idemp_r by lia. rewrite Z.mod_small; [lia|lia].
  - assert (Hr0 : r ≠ 0 ∨ (r = 0 ∧ h0 = 16777216 ∧ s < 2 ^ 24)) by lia.
    destruct Hr0 as [Hr0|(-> & -> & Hs')].
    2:{ exists (s - 1). split; [lia|]. unfold visit, HANDLE_MASK.
        replace (16777216 - 1 + (s - 1)) with (s - 1 + 1 * 16777215) by lia.
        rewrite Z.mod_add, (Z.mod_small (s - 1)) by lia.
        replace (1 + (s - 1)) with s by lia. apply Z.mod_same. lia. }
    set (d := h0 - (16777216 - s)). assert (1 <= d <= s) by (subst d; lia).
    destruct (Z.le_gt_cases d r) as [Hdr|Hdr].
    + exists (r - d). split; [lia|]. unfold visit, HANDLE_MASK.
      rewrite (Z.mod_small (h0 - 1 + _)) by (subst d; lia).
      replace (1 + (h0 - 1 + (r - d))) with (r + (c - 1) * s) by (subst d; lia).
      rewrite Z.mod_add by lia. apply Z.mod_small. lia.
    + exists (r + s - 1 - d). split; [lia|]. unfold visit, HANDLE_MASK.
      replace (h0 - 1 + (r + s - 1 - d)) with (r - 1 + 1 * 16777215) by (subst d; lia).
      rewrite Z.mod_add, (Z.mod_small (r - 1)) by lia.
      replace (1 + (r - 1)) with r by lia. apply Z.mod_small. lia.
Qed.

(** A search that runs past the last handle never visits slot 0. *)
Lemma visit_wrap_nonzero s h0 i : 4 <= s < 2 ^ 24 → (s | 2 ^ 24) → 1 <= h0 <= HANDLE_MASK →
  HANDLE_MASK < h0 + s - 1 → 0 <= i < s → visit h0 i mod s ≠ 0.
Proof.
  intros Hs [c Hc] Hh0 Hw Hi. unfold visit, HANDLE_MASK in *.
  destruct (Z.le_gt_cases (h0 + i) 16777215) as [H|H].
  - rewrite (Z.mod_small (h0 - 1 + i)) by lia.
    replace (1 + (h0 - 1 + i)) with (h0 + i - 16777216 + s + (c - 1) * s) by lia.
    rewrite Z.mod_add by lia. rewrite Z.mod_small; lia.
  - replace (h0 - 1 + i) with (h0 + i - 16777216 + 1 * 16777215) by lia.
    rewrite Z.mod_add, (Z.mod_small (h0 + i - 16777216)) by lia.
    rewrite Z.mod_small; lia.
Qed.

(** a free slot the search cannot miss *)
Definition slot_reachable (st : slot_state) (r : Z) : Prop :=
  0 <= r < svc_ctx_slot_size_ st ∧ slot_at (svc_ctx_slot_ st) r = 0 ∧
  (r ≠ 0 ∨ alloc_svc_handle_seed_ st + svc_ctx_slot_size_ st - 1 <= HANDLE_MASK ∨
   (alloc_svc_handle_seed_ st = HANDLE_MASK + 1 ∧ svc_ctx_slot_size_ st < 2 ^ 24)).

Lemma slot_search_finds hof st r : slots_wf hof st → slot_reachable st r →
  ∃ h, slot_search (Z.to_nat (svc_ctx_slot_size_ st)) st (alloc_svc_handle_seed_ st) = Ok (Some h) ∧
    1 <= h <= HANDLE_MASK ∧ slot_at (svc_ctx_slot_ st) (h mod svc_ctx_slot_size_ st) = 0.
Proof.
  intros Hwf (Hr & H0 & Hcase). pose proof (slots_size _ _ Hwf) as [Hs Hdiv].
  destruct (slot_search_spec hof st (Z.to_nat (svc_ctx_slot_size_ st)) (alloc_svc_handle_seed_ st))
    as ([h|] & He & Hx); [done|by destruct Hwf|destruct Hx as (? & _ & ?); by eauto|].
  exfalso. destruct (visit_covers _ (alloc_svc_handle_seed_ st) r Hs Hdiv) as (i & Hi & Hv);
    [by destruct Hwf|done|done|].
  apply (Hx i); [lia|]. by rewrite Hv.
Qed.

(** Storing a context in the free slot of the handle [h]. *)
Lemma slot_store_wf hof st ctx h : slots_wf hof st → ctx ≠ 0 → 1 <= h <= HANDLE_MASK →
  slot_at (svc_ctx_slot_ st) (h mod svc_ctx_slot_size_ st) = 0 →
  (∀ i, 0 <= i < svc_ctx_slot_size_ st → slot_at (svc_ctx_slot_ st) i ≠ ctx) →
  let st' := mkSlots (h + 1) (svc_ctx_slot_size_ st)
               (<[Z.to_nat (h mod svc_ctx_slot_size_ st) := ctx]> (svc_ctx_slot_ st)) in
  slots_wf (<[ctx := h]> hof) st' ∧ slot_find hof st h = 0 ∧
  ∀ h', slot_find (<[ctx := h]> hof) st' h' = if decide (h' = h) then ctx else slot_find hof st h'.
Proof.
  intros Hwf Hctx Hh Hfree Hnew st'. pose proof (slots_mod_range hof st h Hwf) as Hm.
  pose proof Hwf as [Hsz Hlen Hseed Hslot].
  assert (Hat : ∀ j, 0 <= j → slot_at (svc_ctx_slot_ st') j =
    if decide (h mod svc_ctx_slot_size_ st = j) then ctx else slot_at (svc_ctx_slot_ st) j).
  { intros j Hj. subst st'. simpl. by apply slot_at_insert; [lia|]. }
  split_and!.
  - split; try done.
    + subst st'. simpl. by rewrite length_insert.
    + simpl. lia.
    + intros i Hi. simpl in Hi. rewrite Hat by lia. case_decide as Hd; intros Hne.
      * exists h. rewrite lookup_insert_eq. done.
      * destruct (Hslot i Hi Hne) as (h' & ? & ? & ?). exists h'.
        rewrite lookup_insert_ne by (intros Hx; by apply (Hnew i Hi)). done.
  - unfold slot_find. rewrite Hfree. by rewrite decide_False by naive_solver.
  - intros h'. unfold slot_find. change (svc_ctx_slot_size_ st') with (svc_ctx_slot_size_ st).
    pose proof (slots_mod_range hof st h' Hwf) as Hm'. rewrite Hat by lia.
    destruct (decide (h mod _ = h' mod _)) as [He|He].
    + rewrite lookup_insert_eq, <- He, Hfree.
      repeat case_decide; naive_solver.
    + rewrite (decide_False (P:=h' = h)) by naive_solver.
      destruct (decide (slot_at (svc_ctx_slot_ st) (h' mod svc_ctx_slot_size_ st) = 0)) as [Hz|Hnz].
      { rewrite Hz. repeat case_decide; naive_solver. }
      rewrite lookup_insert_ne by (intros Hx; by apply (Hnew (h' mod svc_ctx_slot_size_ st) Hm')).
      done.
Qed.

(** ** Doubling *)

Section expand.
Context (hof : gmap Z Z) (handle_of : Z → result Z).
Hypothesis handle_of_hof : ∀ p h, hof !! p = Some h → handle_of p = Ok h.

(** slot [i] of the doubled array once the first [n] old slots are moved *)
Definition moved (st : slot_state) (n i : Z) : Z :=
  let s := svc_ctx_slot_size_ st in
  let p := slot_at (svc_ctx_slot_ st) (i mod s) in
  match hof !! p with
  | Some h => if decide (i mod s < n ∧ h mod (s * 2) = i) then p else 0
  | None => 0
  end.

Definition expand_inv (st : slot_state) (n : Z) (a : list Z) : Prop :=
  Z.of_nat (length a) = svc_ctx_slot_size_ st * 2 ∧
  ∀ i, 0 <= i < svc_ctx_slot_size_ st * 2 → slot_at a i = moved st n i.

Lemma mod_double h s : 0 < s → (h mod (s * 2)) mod s = h mod s.
Proof.
  intros. rewrite Z.rem_mul_r by lia. rewrite (Z.mul_comm s ((h / s) mod 2)), Z.mod_add by lia.
  apply Z.mod_mod. lia.
Qed.

Lemma slot_expand_step st n a : slots_wf hof st → 0 <= n < svc_ctx_slot_size_ st →
  svc_ctx_slot_size_ st * 2 <= 2 ^ 24 →
  slot_at (svc_ctx_slot_ st) n ≠ 0 → expand_inv st n a →
  ∃ a', (p <- arr_get (svc_ctx_slot_ st) n;;
         h <- (if p =? 0 then Err NullDeref else handle_of p);;
         x <- arr_get a (slot_hash (svc_ctx_slot_size_ st * 2) h);;
         massert (x =? 0);;; arr_set a (slot_hash (svc_ctx_slot_size_ st * 2) h) p) = Ok a' ∧
        expand_inv st (n + 1) a'.
Proof.
  intros Hwf Hn Hmax Hne [Hlen Ha]. set (s := svc_ctx_slot_size_ st) in *.
  pose proof Hwf as [(k & Hk & Hsk) Hl _ Hslot]. fold s in Hsk, Hl, Hslot.
  destruct (Hslot n Hn Hne) as (h & Hh & Hhr & Hhn).
  rewrite slot_at_get by lia. simpl. rewrite (proj2 (Z.eqb_neq _ _)) by done.
  rewrite (handle_of_hof _ h) by done. simpl.
  assert (Hhash : slot_hash (s * 2) h = h mod (s * 2)).
  { rewrite Hsk. replace (2 ^ k * 2) with (2 ^ (k + 1)) by (rewrite Z.pow_add_r by lia; lia).
    apply slot_hash_mod. lia. }
  rewrite Hhash. pose proof (Z.mod_pos_bound h (s * 2)) as Hb.
  rewrite slot_at_get by lia. simpl. rewrite Ha by lia.
  assert (Hmm : (h mod (s * 2)) mod s = n) by (rewrite mod_double by lia; done).
  assert (Hz : moved st n (h mod (s * 2)) = 0).
  { unfold moved. fold s. rewrite Hmm, Hh. by rewrite decide_False by lia. }
  rewrite Hz. simpl.
  rewrite arr_set_Ok by lia. eexists; split; [done|]. split; [by rewrite length_insert|].
  intros i Hi. rewrite slot_at_insert by lia.
  destruct (decide (h mod (s * 2) = i)) as [<-|Hne'].
  - unfold moved. fold s. rewrite Hmm, Hh. by rewrite decide_True by lia.
  - rewrite Ha by lia. unfold moved. fold s.
    destruct (hof !! slot_at (svc_ctx_slot_ st) (i mod s)) as [h'|] eqn:Eh'; [|done].
    destruct (decide (i mod s = n)) as [He|].
    + rewrite He in Eh'. rewrite Eh' in Hh. simplify_eq. by rewrite !decide_False by tauto.
    + repeat case_decide; try done; lia.
Qed.

(** A full array doubles without collision and keeps every registration. *)
Lemma slot_expand_spec st : slots_wf hof st → svc_ctx_slot_size_ st * 2 - 1 <= HANDLE_MASK →
  (∀ i, 0 <= i < svc_ctx_slot_size_ st → slot_at (svc_ctx_slot_ st) i ≠ 0) →
  ∃ st', slot_expand handle_of st = Ok st' ∧ slots_wf hof st' ∧
    svc_ctx_slot_size_ st' = svc_ctx_slot_size_ st * 2 ∧
    alloc_svc_handle_seed_ st' = alloc_svc_handle_seed_ st ∧
    (∃ r, slot_reachable st' r) ∧
    (∀ i, 0 <= i < svc_ctx_slot_size_ st' → slot_at (svc_ctx_slot_ st') i ≠ 0 →
       ∃ j, 0 <= j < svc_ctx_slot_size_ st ∧ slot_at (svc_ctx_slot_ st) j = slot_at (svc_ctx_slot_ st') i) ∧
    (∀ h, slot_find hof st' h = slot_find hof st h).
Proof.
  intros Hwf Hmax Hfull. set (s := svc_ctx_slot_size_ st) in *.
  pose proof (slots_size _ _ Hwf) as [Hs _]. fold s in Hs.
  pose proof Hwf as [(k & Hk & Hsk) Hl Hseed Hslot]. fold s in Hsk, Hl, Hslot.
  unfold HANDLE_MASK in Hmax. unfold slot_expand, massert. fold s.
  rewrite (proj2 (Z.leb_le _ _)) by (unfold HANDLE_MASK; lia). simpl.
  edestruct (for_loop_inv (expand_inv st) (Z.to_nat s) 0) as (a & Ha & Hlen & Hinv).
  3:{ rewrite Ha. simpl. eexists; split; [done|]. rewrite Z2Nat.id in Hinv by lia.
      assert (Hat : ∀ i, 0 <= i < s * 2 → slot_at a i = moved st s i)
        by (intros i Hi; rewrite Hinv by done; done).
      simpl. split_and!; try done.
      - split; simpl; try done.
        + exists (k + 1). assert (k < 24).
          { apply (Z.pow_lt_mono_r_iff 2); lia. }
          split; [lia|]. rewrite Hsk, Z.pow_add_r by lia. lia.
        + intros i Hi. rewrite Hat by done. unfold moved. fold s.
          destruct (hof !! _) as [h|] eqn:Hh; [|done]. case_decide as Hd; [destruct Hd as [_ Hd]|done]. intros Hne.
          exists h. pose proof (Z.mod_pos_bound i s).
          destruct (Hslot (i mod s)) as (h' & ? & ? & ?); [lia|done|]. by simplify_eq.
      - destruct (Hslot 1) as (h & Hh & Hhr & Hh1); [lia|apply Hfull; lia|].
        assert (H1s : (1 + s) mod s = 1).
        { replace (1 + s) with (1 + 1 * s) by lia. rewrite Z.mod_add by lia. apply Z.mod_small. lia. }
        exists (if decide (h mod (s * 2) = 1) then 1 + s else 1). unfold slot_reachable. simpl.
        assert (H11 : 1 mod s = 1) by (apply Z.mod_small; lia).
        split_and!; try (case_decide; lia).
        case_decide as Hd; rewrite Hat by lia; unfold moved; fold s.
        + rewrite H1s, Hh. apply decide_False. lia.
        + rewrite H11, Hh. apply decide_False. tauto.
      - intros i Hi. rewrite Hat by done. unfold moved. fold s.
        destruct (hof !! _); [|done]. case_decide; [|done].
        intros _. exists (i mod s). split; [|done]. apply Z.mod_pos_bound. lia.
      - intros h. unfold slot_find. simpl. fold s.
        pose proof (Z.mod_pos_bound h (s * 2)). rewrite Hat by lia. unfold moved. fold s.
        rewrite mod_double by lia. pose proof (Z.mod_pos_bound h s).
        set (p := slot_at (svc_ctx_slot_ st) (h mod s)).
        destruct (hof !! p) as [h'|] eqn:Eh; [|repeat case_decide; try done; exfalso; by destruct_and?].
        destruct (decide (h mod s < s ∧ h' mod (s * 2) = h mod (s * 2))) as [_|Hd].
        + by rewrite Eh.
        + destruct (decide (p ≠ 0 ∧ Some h' = Some h)) as [[_ Heq]|_]; [|by case_decide].
          exfalso. simplify_eq. apply Hd. lia. }
  - split; [rewrite length_replicate; lia|]. intros i Hi. unfold moved. fold s.
    pose proof (Z.mod_pos_bound i s).
    transitivity 0; [unfold slot_at; by rewrite lookup_replicate_2 by lia|].
    destruct (hof !! _); [|done]. by rewrite decide_False by lia.
  - intros i a Hi Hinv. apply slot_expand_step; [done|lia|unfold HANDLE_MASK in *; lia|apply Hfull; lia|done].
Qed.
End expand.

(** ** Registration *)

Lemma Z_search_nonzero (f : Z → Z) (n : nat) :
  (∃ i, 0 <= i < Z.of_nat n ∧ f i = 0) ∨ (∀ i, 0 <= i < Z.of_nat n → f i ≠ 0).
Proof.
  induction n as [|n IH]; [right; lia|].
  destruct IH as [(i & Hi & Hf)|Hall]; [left; exists i; split; [lia|done]|].
  destruct (decide (f (Z.of_nat n) = 0)) as [He|Hne]; [left; exists (Z.of_nat n); split; [lia|done]|].
  right. intros i Hi. destruct (decide (i = Z.of_nat n)) as [->|]; [done|apply Hall; lia].
Qed.

(** the one situation [register_service] does not survive: every slot but slot 0
    is taken and the handles left to try wrap past [HANDLE_MASK] *)
Definition slot_trap (st : slot_state) : Prop :=
  slot_at (svc_ctx_slot_ st) 0 = 0 ∧
  (∀ i, 0 < i < svc_ctx_slot_size_ st → slot_at (svc_ctx_slot_ st) i ≠ 0) ∧
  alloc_svc_handle_seed_ st <= HANDLE_MASK < alloc_svc_handle_seed_ st + svc_ctx_slot_size_ st - 1.

Section registration.
Context (hof : gmap Z Z) (handle_of : Z → result Z).
Hypothesis handle_of_hof : ∀ p h, hof !! p = Some h → handle_of p = Ok h.

(** the outcome of a registration: a fresh non-zero handle, and exactly one more entry *)
Definition registered (st : slot_state) (ctx h : Z) (st' : slot_state) : Prop :=
  1 <= h <= HANDLE_MASK ∧ slots_wf (<[ctx := h]> hof) st' ∧ slot_find hof st h = 0 ∧
  alloc_svc_handle_seed_ st' = h + 1 ∧
  ∀ h', slot_find (<[ctx := h]> hof) st' h' = if decide (h' = h) then ctx else slot_find hof st h'.

Lemma register_found fuel st ctx r : slots_wf hof st → ctx ≠ 0 →
  (∀ i, 0 <= i < svc_ctx_slot_size_ st → slot_at (svc_ctx_slot_ st) i ≠ ctx) →
  slot_reachable st r →
  ∃ h st', register_loop handle_of (S fuel) st ctx = Ok (h, st') ∧ registered st ctx h st'.
Proof.
  intros Hwf Hctx Hnew Hr. destruct (slot_search_finds hof st r Hwf Hr) as (h & Hs & Hh & Hfree).
  simpl. rewrite Hs. simpl. rewrite (slots_hash hof) by done.
  pose proof (slots_mod_range hof st h Hwf). rewrite arr_set_Ok by (destruct Hwf; lia). simpl.
  rewrite u32_small by (unfold HANDLE_MASK in *; lia).
  destruct (slot_store_wf hof st ctx h) as (H1 & H2 & H3); try done.
  do 2 eexists; split; [done|]. unfold registered. split_and!; [lia|lia|done|done|done|done].
Qed.

(** Every other state with room for a doubling registers the context. *)
Lemma register_service_spec st ctx : slots_wf hof st → ctx ≠ 0 →
  (∀ i, 0 <= i < svc_ctx_slot_size_ st → slot_at (svc_ctx_slot_ st) i ≠ ctx) →
  ¬ slot_trap st → svc_ctx_slot_size_ st < 2 ^ 24 →
  ∃ h st', register_service handle_of st ctx = Ok (h, st') ∧ registered st ctx h st'.
Proof.
  intros Hwf Hctx Hnew Htrap Hmax. pose proof (slots_size _ _ Hwf) as [Hs _].
  set (s := svc_ctx_slot_size_ st) in *. unfold register_service.
  destruct (Z_search_nonzero (λ i, slot_at (svc_ctx_slot_ st) (i + 1)) (Z.to_nat (s - 1)))
    as [(i & Hi & Hf)|Hall].
  { apply (register_found 1 st ctx (i + 1)); try done. split_and!; [lia|fold s; lia|done|left; lia]. }
  assert (Hall' : ∀ i, 0 < i < s → slot_at (svc_ctx_slot_ st) i ≠ 0).
  { intros i Hi. replace i with (i - 1 + 1) by lia. apply Hall. lia. }
  destruct (decide (slot_at (svc_ctx_slot_ st) 0 = 0)) as [H0|H0].
  - destruct (Z.le_gt_cases (alloc_svc_handle_seed_ st + s - 1) HANDLE_MASK) as [Hnw|Hw].
    + apply (register_found 1 st ctx 0); try done. split_and!; [lia|fold s; lia|done|by right; left].
    + destruct (decide (alloc_svc_handle_seed_ st = HANDLE_MASK + 1)).
      * apply (register_found 1 st ctx 0); try done.
        split_and!; [lia|fold s; lia|done|right; right; done].
      * exfalso. apply Htrap. split_and!; try done. destruct Hwf. lia.
  - assert (Hfull : ∀ i, 0 <= i < s → slot_at (svc_ctx_slot_ st) i ≠ 0).
    { intros i Hi. destruct (decide (i = 0)) as [->|]; [done|apply Hall'; lia]. }
    destruct (slot_search_spec hof st (Z.to_nat s) (alloc_svc_handle_seed_ st)) as (r & Hsr & Hr);
      [done|by destruct Hwf|].
    destruct r as [h|].
    { exfalso. apply (Hfull (h mod s)); [apply Z.mod_pos_bound; lia|by apply Hr]. }
    pose proof Hwf as [(k & Hk & Hsk) _ _ _]. fold s in Hsk.
    assert (s * 2 <= 2 ^ 24).
    { rewrite Hsk in Hmax |- *. apply Z.pow_lt_mono_r_iff in Hmax; try lia.
      replace (2 ^ k * 2) with (2 ^ (k + 1)) by (rewrite Z.pow_add_r by lia; lia).
      apply Z.pow_le_mono_r; lia. }
    destruct (slot_expand_spec hof handle_of handle_of_hof st Hwf)
      as (st1 & He & Hwf1 & Hs1 & Hseed1 & (r & Hr1) & Hsub & Hfind);
      [unfold HANDLE_MASK; fold s; lia|done|].
    destruct (register_found 0 st1 ctx r Hwf1 Hctx) as (h & st' & Hreg & H1 & H2 & H3 & H4 & H5); [|done|].
    { intros i Hi Heq. destruct (Hsub i Hi) as (j & Hj & Hej); [by rewrite Heq|].
      apply (Hnew j Hj). by rewrite Hej. }
    exists h, st'. split.
    + change 2%nat with (S 1). unfold register_loop at 1. fold s. rewrite Hsr. simpl rbind.
      fold (register_loop handle_of 1). rewrite He. simpl rbind. exact Hreg.
    + rewrite Hfind in H3. destruct H1. split_and!; try done; try lia. intros h'. rewrite H5. by rewrite Hfind.
Qed.

(** In the remaining situation the doubling reads the handle of a null context. *)
Lemma register_service_trap st ctx : slots_wf hof st → slot_trap st →
  svc_ctx_slot_size_ st < 2 ^ 24 →
  register_service handle_of st ctx = Err NullDeref.
Proof.
  intros Hwf (H0 & Hall & Hw) Hmax. pose proof (slots_size _ _ Hwf) as [Hs [c Hc]].
  set (s := svc_ctx_slot_size_ st) in *. unfold register_service. simpl. fold s.
  destruct (slot_search_spec hof st (Z.to_nat s) (alloc_svc_handle_seed_ st)) as (r & Hsr & Hr);
    [done|by destruct Hwf|].
  pose proof Hwf as [(k & Hk & Hsk) Hl Hseed _]. fold s in Hsk, Hl.
  destruct r as [h|].
  { exfalso. destruct Hr as (_ & (i & Hi & ->) & Hz). fold s in Hz.
    assert (Hv : visit (alloc_svc_handle_seed_ st) i mod s ≠ 0)
      by (apply visit_wrap_nonzero; try done; [lia|by exists c|lia|lia|lia]).
    pose proof (Z.mod_pos_bound (visit (alloc_svc_handle_seed_ st) i) s).
    apply (Hall (visit (alloc_svc_handle_seed_ st) i mod s)); [lia|done]. }
  rewrite Hsr. simpl. unfold slot_expand, massert. fold s.
  assert (s * 2 <= 2 ^ 24).
  { rewrite Hsk in Hmax |- *. apply Z.pow_lt_mono_r_iff in Hmax; try lia.
    replace (2 ^ k * 2) with (2 ^ (k + 1)) by (rewrite Z.pow_add_r by lia; lia).
    apply Z.pow_le_mono_r; lia. }
  rewrite (proj2 (Z.leb_le _ _)) by (unfold HANDLE_MASK; lia). simpl.
  destruct (Z.to_nat s) as [|n] eqn:En; [lia|]. simpl.
  rewrite slot_at_get by lia. by rewrite H0.
Qed.
End registration.

(** ** Lookup and removal *)

Lemma slot_get_Ok hof st h : slots_wf hof st →
  slot_get st h = Ok (slot_at (svc_ctx_slot_ st) (h mod svc_ctx_slot_size_ st)).
Proof.
  intros Hwf. unfold slot_get. rewrite (slots_hash hof) by done.
  pose proof (slots_mod_range hof st h Hwf). apply slot_at_get. destruct Hwf. lia.
Qed.

Lemma slot_find_nonzero hof st h : slot_find hof st h ≠ 0 →
  slot_at (svc_ctx_slot_ st) (h mod svc_ctx_slot_size_ st) = slot_find hof st h ∧
  hof !! slot_find hof st h = Some h.
Proof. unfold slot_find. case_decide as Hd; [|done]. intros _. split; [done|]. by destruct Hd. Qed.

Lemma slot_find_hof hof st h p : slot_find hof st h = p → p ≠ 0 → hof !! p = Some h.
Proof. intros <- Hp. by apply slot_find_nonzero. Qed.

(** a context occupies at most the slot of its own handle *)
Lemma slot_find_at hof st i : slots_wf hof st → 0 <= i < svc_ctx_slot_size_ st →
  slot_at (svc_ctx_slot_ st) i ≠ 0 →
  ∃ h, hof !! slot_at (svc_ctx_slot_ st) i = Some h ∧ 1 <= h <= HANDLE_MASK ∧
       slot_find hof st h = slot_at (svc_ctx_slot_ st) i.
Proof.
  intros [_ _ _ Hslot] Hi Hne. destruct (Hslot i Hi Hne) as (h & Hh & Hr & Hm).
  exists h. split_and!; try done; try lia. unfold slot_find. rewrite Hm. by rewrite decide_True.
Qed.

Lemma slot_clear_spec hof st h : slots_wf hof st → slot_find hof st h ≠ 0 →
  ∃ st', slot_clear st h = Ok st' ∧ slots_wf hof st' ∧
    svc_ctx_slot_size_ st' = svc_ctx_slot_size_ st ∧
    alloc_svc_handle_seed_ st' = alloc_svc_handle_seed_ st ∧
    (∀ i, 0 <= i < svc_ctx_slot_size_ st → slot_at (svc_ctx_slot_ st') i =
       if decide (i = h mod svc_ctx_slot_size_ st) then 0 else slot_at (svc_ctx_slot_ st) i) ∧
    ∀ h', slot_find hof st' h' = if decide (h' = h) then 0 else slot_find hof st h'.
Proof.
  intros Hwf Hf. unfold slot_clear. rewrite (slots_hash hof) by done.
  pose proof (slots_mod_range hof st h Hwf) as Hm. pose proof Hwf as [Hsz Hlen Hseed Hslot].
  rewrite arr_set_Ok by lia. simpl. eexists; split; [done|]. simpl.
  apply slot_find_nonzero in Hf as [Hat Hh].
  assert (Hst : ∀ i, 0 <= i → slot_at (<[Z.to_nat (h mod svc_ctx_slot_size_ st):=0]> (svc_ctx_slot_ st)) i =
     if decide (i = h mod svc_ctx_slot_size_ st) then 0 else slot_at (svc_ctx_slot_ st) i).
  { intros i Hi. rewrite slot_at_insert by lia. repeat case_decide; congruence. }
  split_and!; try done.
  - split; simpl; try done; [by rewrite length_insert|].
    intros i Hi. rewrite Hst by lia. case_decide; [done|]. by apply Hslot.
  - intros i Hi. apply Hst. lia.
  - intros h'. unfold slot_find at 1. simpl.
    pose proof (slots_mod_range hof st h' Hwf). rewrite Hst by lia.
    destruct (decide (h' mod _ = h mod _)) as [He|He].
    + rewrite (decide_False (P:=0 ≠ 0 ∧ _)) by (intros [? _]; done). case_decide as Hd; [done|].
      unfold slot_find. rewrite He, Hat, Hh. rewrite decide_False; [done|]. intros [_ ?]. congruence.
    + rewrite (decide_False (P:=h' = h)) by congruence. done.
Qed.

(** Forgetting (or adding) the handle of a context that is in no slot changes nothing. *)
Lemma slots_wf_agree hof hof' st : slots_wf hof st →
  (∀ i, 0 <= i < svc_ctx_slot_size_ st → slot_at (svc_ctx_slot_ st) i ≠ 0 →
     hof' !! slot_at (svc_ctx_slot_ st) i = hof !! slot_at (svc_ctx_slot_ st) i) →
  slots_wf hof' st ∧ ∀ h, slot_find hof' st h = slot_find hof st h.
Proof.
  intros Hwf Hag. pose proof Hwf as [Hsz Hlen Hseed Hslot]. split.
  - split; try done. intros i Hi Hne. rewrite Hag by done. by apply Hslot.
  - intros h. unfold slot_find. pose proof (slots_mod_range hof st h Hwf) as Hm.
    destruct (decide (slot_at (svc_ctx_slot_ st) (h mod svc_ctx_slot_size_ st) = 0)) as [Hz|Hz].
    + rewrite Hz. by rewrite !(decide_False (P:=0 ≠ 0 ∧ _)) by (intros [? _]; done).
    + by rewrite Hag.
Qed.

Lemma slots_init_wf : slots_wf ∅ slots_init.
Proof.
  split; simpl; try done.
  - exists 2. split; [lia|done].
  - intros i Hi. unfold slot_at, slots_init. simpl. unfold DEFAULT_SLOT_SIZE in Hi.
    assert (i = 0 ∨ i = 1 ∨ i = 2 ∨ i = 3) as [->|[->|[->| ->]]] by lia; done.
Qed.

(** ** Properties *)

(** [register_service] gives the context a non-zero handle within [HANDLE_MASK] that no
    registered service has, finds the context under it from then on, leaves every other handle
    as it was (through a doubling of the slot array too), and moves the handle seed past it.
    The state must not be a trap ([slot_trap]) and the array must still be able to double. *)
Theorem register_service_fresh hof handle_of st ctx :
  (∀ p h, hof !! p = Some h → handle_of p = Ok h) → slots_wf hof st → ctx ≠ 0 →
  (∀ i, 0 <= i < svc_ctx_slot_size_ st → slot_at (svc_ctx_slot_ st) i ≠ ctx) →
  ¬ slot_trap st → svc_ctx_slot_size_ st < 2 ^ 24 →
  ∃ h st', register_service handle_of st ctx = Ok (h, st') ∧ 1 <= h <= HANDLE_MASK ∧ slot_find hof st h = 0 ∧
    slots_wf (<[ctx := h]> hof) st' ∧ alloc_svc_handle_seed_ st' = h + 1 ∧
    ∀ h', slot_find (<[ctx := h]> hof) st' h' = if decide (h' = h) then ctx else slot_find hof st h'.
Proof.
  intros Hof Hwf Hctx Hnew Htrap Hmax.
  destruct (register_service_spec hof handle_of Hof st ctx Hwf Hctx Hnew Htrap Hmax) as (h & st' & Hr & H1 & H2 & H3 & H4 & H5).
  exists h, st'. split_and!; try done; lia.
Qed.

(** the handle of the context at an address, from a table *)
Definition handle_table (hof : gmap Z Z) (p : Z) : result Z :=
  match hof !! p with Some h => Ok h | None => Err UseAfterFree end.

Lemma handle_table_ok hof p h : hof !! p = Some h → handle_table hof p = Ok h.
Proof. unfold handle_table. by intros ->. Qed.

Lemma register_service_fresh_witness :
  ∃ h st', register_service (handle_table ∅) slots_init 77 = Ok (h, st') ∧ 1 <= h <= HANDLE_MASK ∧
    slot_find ∅ slots_init h = 0 ∧ slots_wf (<[77 := h]> ∅) st' ∧ alloc_svc_handle_seed_ st' = h + 1 ∧
    ∀ h', slot_find (<[77 := h]> ∅) st' h' = if decide (h' = h) then 77 else slot_find ∅ slots_init h'.
Proof.
  apply (register_service_fresh ∅ (handle_table ∅) slots_init 77).
  - apply handle_table_ok.
  - apply slots_init_wf.
  - lia.
  - intros i Hi. change (0 <= i < 4) in Hi. assert (i = 0 ∨ i = 1 ∨ i = 2 ∨ i = 3) as [-> |[-> |[-> | -> ]]] by lia; vm_compute; congruence.
  - intros (_ & H & _). apply (H 1); [vm_compute; split; congruence|reflexivity].
  - vm_compute. reflexivity.
Defined.

(** The one state [register_service] does not survive: when every slot but slot 0 is taken
    and the handles left to try wrap past [HANDLE_MASK], the wrapped handles start at 1 and never
    reach slot 0, so the array is expanded although a slot is free, and the expansion
    dereferences the null pointer of slot 0. *)
Theorem register_service_null_deref hof handle_of st ctx :
  slots_wf hof st → slot_trap st → svc_ctx_slot_size_ st < 2 ^ 24 →
  register_service handle_of st ctx = Err NullDeref.
Proof. intros Hwf Htrap Hmax. by apply (register_service_trap hof). Qed.

(** three services with the handles 1, 2 and 3, and a seed that is about to wrap *)
Definition trap_handles : gmap Z Z := list_to_map [(101, 1); (102, 2); (103, 3)].
Definition trap_state : slot_state := mkSlots 0xFFFFFE 4 [0; 101; 102; 103].

Lemma register_service_null_deref_witness : register_service (handle_table trap_handles) trap_state 77 = Err NullDeref.
Proof.
  apply (register_service_null_deref trap_handles (handle_table trap_handles) trap_state 77).
  - split; [exists 2; vm_compute; split; [split; congruence|reflexivity]|reflexivity|vm_compute; split; congruence|].
    intros i Hi Hne. change (0 <= i < 4) in Hi. assert (i = 0 ∨ i = 1 ∨ i = 2 ∨ i = 3) as [-> |[-> |[-> | -> ]]] by lia;
      [by destruct Hne|exists 1|exists 2|exists 3]; vm_compute; repeat split; congruence.
  - split; [reflexivity|]. split; [|vm_compute; split; congruence].
    intros i Hi. change (0 < i < 4) in Hi. assert (i = 1 ∨ i = 2 ∨ i = 3) as [-> |[-> | -> ]] by lia; vm_compute; congruence.
  - vm_compute. reflexivity.
Defined.
