(* ===== verification/Text.v ===== *)
(** * Text helpers: the parts of the C and C++ libraries the node formats and
    parses strings with

    Strings are [string]s without NUL bytes, as [const char*] arguments are. *)
From Stdlib Require Import Ascii String.
From stdpp Require Import pretty.
From S2P Require Import Prelude.
Open Scope string_scope.
Open Scope Z_scope.

(** ** Characters *)

Definition char_code (c : ascii) : Z := Z.of_N (N_of_ascii c).
Definition char_of_code (z : Z) : ascii := ascii_of_N (Z.to_N z).

(** the bytes of a string *)
Definition bytes_of (s : string) : list Z := char_code <$> list_ascii_of_string s.
Definition string_of_bytes (l : list Z) : string := string_of_list_ascii (char_of_code <$> l).

Definition strlen (s : string) : Z := Z.of_nat (String.length s).

(** [s[0]]: the first character, NUL for the empty string *)
Definition first_char (s : string) : ascii :=
  match s with EmptyString => Ascii.zero | String c _ => c end.

(** [s + 1]: only meaningful when [s] is not empty *)
Definition tail_str (s : string) : string :=
  match s with EmptyString => EmptyString | String _ s => s end.

(** ** Hexadecimal *)

Definition hex_char (upper : bool) (d : Z) : ascii :=
  if d <? 10 then char_of_code (48 + d)
  else char_of_code ((if upper then 55 else 87) + d).

(** the [n] low hexadecimal digits of [v], most significant first *)
Fixpoint hex_pad (upper : bool) (n : nat) (v : Z) : string :=
  match n with
  | O => ""
  | S n' => String (hex_char upper (Z.land (Z.shiftr v (4 * Z.of_nat n')) 15)) (hex_pad upper n' v)
  end.

(** number of hexadecimal digits of [v], at least one *)
Definition hex_width (v : Z) : nat := Z.to_nat (Z.max 1 (Z.log2 v / 4 + 1)).

(** [%x] ([upper = false]) and [{:0X}] ([upper = true]): no padding *)
Definition hex_min (upper : bool) (v : Z) : string :=
  if v =? 0 then "0" else hex_pad upper (hex_width v) v.

(** [{:08X}] and [%08x] on a [uint32_t] *)
Definition hex_08 (upper : bool) (v : Z) : string := hex_pad upper 8 v.

(** [%d], [%u] *)
Definition dec_str (v : Z) : string := pretty v.

(** ** [strtoul(s, nullptr, 16)] and [strtol(s, nullptr, 10)] *)

Definition is_space (c : ascii) : bool :=
  let z := char_code c in (z =? 32) || ((9 <=? z) && (z <=? 13)).

Definition digit_value (c : ascii) : option Z :=
  let z := char_code c in
  if (48 <=? z) && (z <=? 57) then Some (z - 48)
  else if (97 <=? z) && (z <=? 122) then Some (z - 87)
  else if (65 <=? z) && (z <=? 90) then Some (z - 55)
  else None.

Fixpoint skip_spaces (s : string) : string :=
  match s with
  | String c s' => if is_space c then skip_spaces s' else s
  | EmptyString => EmptyString
  end.

(** the value of the longest prefix of base-[base] digits, and whether there was one *)
Fixpoint digits_value (base : Z) (acc : Z) (s : string) : Z :=
  match s with
  | String c s' =>
      match digit_value c with
      | Some d => if d <? base then digits_value base (acc * base + d) s' else acc
      | None => acc
      end
  | EmptyString => acc
  end.

(** sign, then the digits; [0x] is accepted in base 16 when a digit follows *)
Definition strto_parse (base : Z) (s : string) : bool * Z :=
  let s := skip_spaces s in
  let '(neg, s) := match s with
                   | String c s' => if char_code c =? 45 then (true, s')
                                    else if char_code c =? 43 then (false, s') else (false, s)
                   | EmptyString => (false, s)
                   end in
  let s := match s with
           | String a (String b (String c s')) =>
               if (base =? 16) && (char_code a =? 48) && ((char_code b =? 120) || (char_code b =? 88))
                  && (match digit_value c with Some d => d <? 16 | None => false end)
               then String c s' else s
           | _ => s
           end in
  (neg, digits_value base 0 s).

(** [unsigned long] has 64 bits: out of range saturates, a minus sign negates modulo 2^64 *)
Definition ULONG_MAX : Z := 2 ^ 64 - 1.
Definition strtoul (base : Z) (s : string) : Z :=
  let '(neg, v) := strto_parse base s in
  if ULONG_MAX <? v then ULONG_MAX else if neg then u64 (- v) else v.

(** [long] has 64 bits: out of range saturates *)
Definition LONG_MAX : Z := 2 ^ 63 - 1.
Definition strtol (base : Z) (s : string) : Z :=
  let '(neg, v) := strto_parse base s in
  if neg then Z.max (- LONG_MAX - 1) (- v) else Z.min LONG_MAX v.

(** ** Searching and splitting *)

Definition str_take (n : nat) (s : string) : string := String.substring 0 n s.
Definition str_drop (n : nat) (s : string) : string :=
  String.substring n (String.length s - n) s.

(** [std::string::find(c)]; -1 is [npos] *)
Fixpoint str_find (c : ascii) (s : string) : Z :=
  match s with
  | EmptyString => -1
  | String d s' =>
      if Ascii.eqb c d then 0
      else let r := str_find c s' in if r =? -1 then -1 else r + 1
  end.

(** the pieces between the occurrences of [c] *)
Fixpoint split_on (c : ascii) (s : string) : list string :=
  match s with
  | EmptyString => [""]
  | String d s' =>
      if Ascii.eqb c d then "" :: split_on c s'
      else match split_on c s' with
           | t :: ts => String d t :: ts
           | [] => [String d ""]
           end
  end.

(** [std::sregex_token_iterator(begin, end, re, -1)] for a one-character [re]: the
    pieces, without an empty last one after a separator *)
Definition token_split (c : ascii) (s : string) : list string :=
  let ts := split_on c s in
  match rev ts with
  | "" :: t :: r => rev (t :: r)
  | _ => ts
  end.

Example token_split_last : token_split ";" "a;b;" = ["a"; "b"] ∧ token_split ";" ";" = [""] ∧ token_split ";" "" = [""].
Proof. done. Qed.

(** ** Lemmas *)

Lemma char_of_code_code z : 0 <= z < 256 → char_code (char_of_code z) = z.
Proof. intros. unfold char_code, char_of_code. rewrite N_ascii_embedding; lia. Qed.

Lemma char_code_range c : 0 <= char_code c < 256.
Proof. unfold char_code. pose proof (N_ascii_bounded c). lia. Qed.

Lemma char_code_inj c : char_of_code (char_code c) = c.
Proof. unfold char_of_code, char_code. rewrite N2Z.id. apply ascii_N_embedding. Qed.

Lemma string_of_bytes_of s : string_of_bytes (bytes_of s) = s.
Proof.
  unfold string_of_bytes, bytes_of. rewrite <- list_fmap_compose.
  rewrite (list_fmap_ext _ id) by (intros; apply char_code_inj).
  rewrite list_fmap_id. apply string_of_list_ascii_of_string.
Qed.

Lemma bytes_of_length s : Z.of_nat (length (bytes_of s)) = strlen s.
Proof. unfold bytes_of, strlen. rewrite length_fmap. f_equal. by induction s; simpl; f_equal. Qed.

Lemma bytes_of_range s : Forall (λ b, 0 <= b < 256) (bytes_of s).
Proof. apply Forall_forall. intros b Hb. apply list_elem_of_fmap in Hb as (c & -> & _). apply char_code_range. Qed.

Lemma hex_char_value u d : 0 <= d < 16 → digit_value (hex_char u d) = Some d.
Proof.
  intros Hd. assert (∃ n : nat, (n < 16)%nat ∧ d = Z.of_nat n) as (n & Hn & ->)
    by (exists (Z.to_nat d); lia).
  do 16 (destruct n as [|n]; [by destruct u|]). lia.
Qed.

Lemma digits_hex_pad u n v acc : 0 <= v →
  digits_value 16 acc (hex_pad u n v) = acc * 2 ^ (4 * Z.of_nat n) + v mod 2 ^ (4 * Z.of_nat n).
Proof.
  intros Hv. revert acc. induction n as [|n IH]; intros acc; simpl.
  { rewrite Z.mod_1_r. lia. }
  set (d := Z.land (Z.shiftr v (4 * Z.of_nat n)) 15).
  assert (Hd : d = (v / 2 ^ (4 * Z.of_nat n)) mod 2 ^ 4).
  { subst d. change 15 with (Z.ones 4). by rewrite Z.land_ones, Z.shiftr_div_pow2 by lia. }
  assert (0 <= d < 16) by (rewrite Hd; apply Z.mod_pos_bound; lia).
  rewrite hex_char_value by done. rewrite (proj2 (Z.ltb_lt _ _)) by lia. rewrite IH.
  replace (4 * Z.of_nat (S n)) with (4 * Z.of_nat n + 4) by lia.
  rewrite Z.pow_add_r, (Z.rem_mul_r v) by lia. rewrite <- Hd. lia.
Qed.

Lemma hex_width_bound v : 0 < v → v < 2 ^ (4 * Z.of_nat (hex_width v)).
Proof.
  intros Hv. unfold hex_width.
  pose proof (Z.log2_nonneg v). pose proof (Z.div_pos (Z.log2 v) 4).
  rewrite Z2Nat.id by lia. apply Z.log2_lt_pow2; [done|].
  pose proof (Z.mul_succ_div_gt (Z.log2 v) 4). lia.
Qed.

(** a string of hexadecimal digits only *)
Fixpoint all_hex (s : string) : bool :=
  match s with
  | EmptyString => true
  | String c s => match digit_value c with Some d => d <? 16 | None => false end && all_hex s
  end.

Lemma hex_digit_code c : (match digit_value c with Some d => d <? 16 | None => false end) = true →
  48 <= char_code c <= 57 ∨ 65 <= char_code c <= 70 ∨ 97 <= char_code c <= 102.
Proof. unfold digit_value. zbool. Qed.

Lemma strto_parse_hex s : all_hex s = true → strto_parse 16 s = (false, digits_value 16 0 s).
Proof.
  intros Hs. unfold strto_parse. destruct s as [|a s]; [done|].
  simpl in Hs. apply andb_true_iff in Hs as [Ha Hs]. apply hex_digit_code in Ha as Hca.
  assert (Hsp : is_space a = false) by (unfold is_space; zbool).
  simpl skip_spaces. rewrite Hsp.
  rewrite (proj2 (Z.eqb_neq (char_code a) 45)), (proj2 (Z.eqb_neq (char_code a) 43)) by lia.
  destruct s as [|b s]; [done|].
  simpl in Hs. apply andb_true_iff in Hs as [Hb Hs]. apply hex_digit_code in Hb.
  destruct s as [|c s]; [done|].
  rewrite (proj2 (Z.eqb_neq (char_code b) 120)), (proj2 (Z.eqb_neq (char_code b) 88)) by lia.
  simpl orb. rewrite andb_false_r. done.
Qed.

Lemma hex_pad_all_hex u n v : all_hex (hex_pad u n v) = true.
Proof.
  induction n as [|n IH]; [done|]. simpl.
  set (d := Z.land _ 15). assert (0 <= d < 16).
  { subst d. change 15 with (Z.ones 4). rewrite Z.land_ones by lia. apply Z.mod_pos_bound. lia. }
  rewrite hex_char_value by done. rewrite (proj2 (Z.ltb_lt _ _)) by lia. done.
Qed.

(** Reading back a padded number: [strtoul] inverts [%08x]. *)
Lemma strtoul_hex_pad u n v : 0 <= v < 2 ^ (4 * Z.of_nat n) → v < 2 ^ 64 →
  strtoul 16 (hex_pad u n v) = v.
Proof.
  intros Hv Hmax. unfold strtoul. rewrite strto_parse_hex by apply hex_pad_all_hex.
  rewrite digits_hex_pad, Z.mod_small by lia. simpl.
  rewrite (proj2 (Z.ltb_ge _ _)) by (unfold ULONG_MAX; lia). done.
Qed.

Lemma strtoul_hex_08 u v : 0 <= v < 2 ^ 32 → strtoul 16 (hex_08 u v) = v.
Proof. intros. apply strtoul_hex_pad; simpl; lia. Qed.

(** [strtoul] inverts [%x]. *)
Lemma strtoul_hex_min u v : 0 <= v < 2 ^ 64 → strtoul 16 (hex_min u v) = v.
Proof.
  intros Hv. unfold hex_min. destruct (Z.eqb_spec v 0) as [->|]; [done|].
  apply strtoul_hex_pad; [split; [lia|apply hex_width_bound; lia]|lia].
Qed.

(** ** Decimal numbers: [strtol] inverts [%d] *)

Lemma pretty_N_char_value x : (x < 10)%N → digit_value (pretty_N_char x) = Some (Z.of_N x).
Proof.
  intros Hx. assert (∃ n : nat, (n < 10)%nat ∧ x = N.of_nat n) as (n & Hn & ->) by (exists (N.to_nat x); lia).
  do 10 (destruct n as [|n]; [done|]). lia.
Qed.

Lemma pretty_N_go_value x s : digits_value 10 0 (pretty_N_go x s) = digits_value 10 (Z.of_N x) s.
Proof.
  revert s. induction (N.lt_wf_0 x) as [x _ IH]; intros s.
  destruct (decide (x = 0%N)) as [->|Hx]; [by rewrite pretty_N_go_0|].
  rewrite pretty_N_go_step, IH by (try apply N.div_lt; lia). simpl.
  rewrite pretty_N_char_value by (apply N.mod_lt; lia).
  rewrite (proj2 (Z.ltb_lt _ _)) by (pose proof (N.mod_lt x 10); lia).
  f_equal. rewrite N2Z.inj_div, N2Z.inj_mod. change (Z.of_N 10) with 10. pose proof (Z.div_mod (Z.of_N x) 10). lia.
Qed.

(** the text of a positive number starts with a digit *)
Lemma pretty_N_go_head x s : (0 < x)%N → ∃ d s', (d < 10)%N ∧ pretty_N_go x s = String (pretty_N_char d) s'.
Proof.
  revert s. induction (N.lt_wf_0 x) as [x _ IH]; intros s Hx.
  rewrite pretty_N_go_step by done. destruct (decide (x / 10 = 0)%N) as [->|Hd].
  - rewrite pretty_N_go_0. eexists _, _. split; [|done]. apply N.mod_lt. lia.
  - apply IH; [by apply N.div_lt|by apply N.neq_0_lt_0].
Qed.

Lemma pretty_digit_code d : (d < 10)%N → 48 <= char_code (pretty_N_char d) <= 57.
Proof.
  intros Hx. assert (∃ n : nat, (n < 10)%nat ∧ d = N.of_nat n) as (n & Hn & ->) by (exists (N.to_nat d); lia).
  do 10 (destruct n as [|n]; [by simpl; split|]). lia.
Qed.

Lemma strto_parse_digit d s : (d < 10)%N →
  strto_parse 10 (String (pretty_N_char d) s) = (false, digits_value 10 0 (String (pretty_N_char d) s)).
Proof.
  intros Hd. apply pretty_digit_code in Hd. unfold strto_parse. simpl skip_spaces.
  assert (Hsp : is_space (pretty_N_char d) = false) by (unfold is_space; zbool). rewrite Hsp.
  rewrite (proj2 (Z.eqb_neq _ 45)), (proj2 (Z.eqb_neq _ 43)) by lia.
  by destruct s as [|b [|c s]].
Qed.

Lemma strto_parse_dec x s : (0 < x)%N →
  strto_parse 10 (pretty_N_go x s) = (false, digits_value 10 (Z.of_N x) s).
Proof.
  intros Hx. rewrite <- pretty_N_go_value. destruct (pretty_N_go_head x s Hx) as (d & s' & Hd & ->).
  by apply strto_parse_digit.
Qed.

Lemma strto_parse_dash x s : (0 < x)%N →
  strto_parse 10 ("-" ++ pretty_N_go x s) = (true, digits_value 10 (Z.of_N x) s).
Proof.
  intros Hx. rewrite <- pretty_N_go_value. destruct (pretty_N_go_head x s Hx) as (d & s' & Hd & ->).
  simpl. by destruct s' as [|b [|c s']].
Qed.

Lemma dec_str_cases z :
  (z = 0 ∧ dec_str z = "0") ∨
  (0 < z ∧ dec_str z = pretty_N_go (Z.to_N z) "") ∨
  (z < 0 ∧ dec_str z = "-" ++ pretty_N_go (Z.to_N (- z)) "").
Proof. destruct z as [|p|p]; [by left|right; left|right; right]; done. Qed.

Lemma strtol_dec_str z : - 2 ^ 63 <= z < 2 ^ 63 → strtol 10 (dec_str z) = z.
Proof.
  intros Hz. unfold strtol. destruct (dec_str_cases z) as [[-> ->]|[[Hs ->]|[Hs ->]]]; [done| |].
  - rewrite strto_parse_dec by lia. simpl. unfold LONG_MAX. lia.
  - rewrite strto_parse_dash by lia. simpl. unfold LONG_MAX. lia.
Qed.

Lemma strtoul_dec_str z : 0 <= z < 2 ^ 64 → strtoul 10 (dec_str z) = z.
Proof.
  intros Hz. unfold strtoul. destruct (dec_str_cases z) as [[-> ->]|[[Hs ->]|[Hs ->]]]; [done| |lia].
  rewrite strto_parse_dec by lia. cbn [digits_value]. rewrite Z2N.id, (proj2 (Z.ltb_ge _ _)) by (unfold ULONG_MAX; lia). done.
Qed.

(** a number that is not negative has digits only *)
Lemma pretty_N_go_digits x s : Forall (λ b, 48 <= b <= 57) (bytes_of s) → Forall (λ b, 48 <= b <= 57) (bytes_of (pretty_N_go x s)).
Proof.
  revert s. induction (N.lt_wf_0 x) as [x _ IH]. intros s Hs. destruct (decide (x = 0)%N) as [->|Hx]; [done|].
  rewrite pretty_N_go_step by lia. apply IH; [apply N.div_lt; lia|]. unfold bytes_of. cbn [list_ascii_of_string]. rewrite fmap_cons.
  constructor; [|done]. apply pretty_digit_code, N.mod_lt. lia.
Qed.

Lemma dec_str_digits z : 0 <= z → Forall (λ b, 48 <= b <= 57) (bytes_of (dec_str z)).
Proof.
  intros Hz. destruct (dec_str_cases z) as [[-> ->]|[[Hs ->]|[Hs ->]]]; [|by apply pretty_N_go_digits|lia].
  by repeat constructor.
Qed.

(** ** Lengths of printed numbers *)

Lemma pretty_N_go_length k x s : (x < 10 ^ N.of_nat k)%N → strlen (pretty_N_go x s) <= Z.of_nat k + strlen s.
Proof.
  unfold strlen. revert x s. induction k as [|k IH]; intros x s Hx.
  - assert (x = 0%N) as -> by (simpl in Hx; lia). rewrite pretty_N_go_0. lia.
  - destruct (decide (x = 0%N)) as [->|H0]; [rewrite pretty_N_go_0; lia|].
    rewrite pretty_N_go_step by lia. etransitivity; [apply IH|].
    + replace (N.of_nat (S k)) with (N.succ (N.of_nat k)) in Hx by lia. rewrite N.pow_succ_r' in Hx.
      apply N.Div0.div_lt_upper_bound; lia.
    + cbn [String.length]. lia.
Qed.

(** [%d] of an [int] and [%u] of a [uint32_t] have at most 11 characters *)
Lemma dec_str_length z : - 2 ^ 32 < z < 2 ^ 32 → strlen (dec_str z) <= 11.
Proof.
  intros Hz. assert (Hpow : (10 ^ N.of_nat 10 = 10000000000)%N) by reflexivity.
  assert (Hgo : ∀ x, (x < 10000000000)%N → strlen (pretty_N_go x "") <= 10).
  { intros x Hx. rewrite <- Hpow in Hx. pose proof (pretty_N_go_length 10 x "" Hx) as H.
    replace (strlen "") with 0 in H by reflexivity. lia. }
  destruct (dec_str_cases z) as [[-> ->]|[[Hs ->]|[Hs ->]]]; [done| |].
  - specialize (Hgo (Z.to_N z)). lia.
  - specialize (Hgo (Z.to_N (- z))). generalize dependent (pretty_N_go (Z.to_N (- z)) ""). intros s Hgo.
    assert (strlen ("-" ++ s) = 1 + strlen s) by (unfold strlen; change (String.length ("-" ++ s)) with (S (String.length s)); lia).
    lia.
Qed.

Lemma hex_pad_length u n v : strlen (hex_pad u n v) = Z.of_nat n.
Proof. unfold strlen. f_equal. induction n as [|n IH]; [done|]. simpl. by rewrite IH. Qed.

(** [%x] of a [uint32_t] has at most 8 digits *)
Lemma hex_min_length u v : 0 <= v < 2 ^ 32 → strlen (hex_min u v) <= 8.
Proof.
  intros Hv. unfold hex_min. destruct (Z.eqb_spec v 0); [done|]. rewrite hex_pad_length. unfold hex_width.
  assert (Z.log2 v < 32) by (apply Z.log2_lt_pow2; lia).
  assert (Z.log2 v / 4 < 8) by (apply Z.div_lt_upper_bound; lia). pose proof (Z.log2_nonneg v).
  pose proof (Z.div_pos (Z.log2 v) 4). lia.
Qed.
