(* ===== verification/Bytes.v ===== *)
(** * Bytes: little-endian integers and parts of byte arrays

    The control commands, the socket messages and the UDP addresses are structs that
    the program moves as raw bytes; integers are stored least significant byte first. *)
From S2P Require Import Prelude.

(** the [n] bytes of an [n]-byte integer in memory *)
Fixpoint le_bytes (n : nat) (z : Z) : list Z :=
  match n with
  | O => []
  | S n => z mod 256 :: le_bytes n (z / 256)
  end.

(** the unsigned integer stored in these bytes *)
Fixpoint le_value (l : list Z) : Z :=
  match l with
  | [] => 0
  | b :: l => b + 256 * le_value l
  end.

Definition is_byte (b : Z) : Prop := 0 <= b < 256.

(** [n] bytes from the offset [off]; [None] past the end *)
Definition slice (l : list Z) (off n : nat) : option (list Z) :=
  if decide (off + n <= length l)%nat then Some (take n (drop off l)) else None.

(** [memcpy(l + off, src, length src)]; [None] past the end *)
Definition splice (l : list Z) (off : nat) (src : list Z) : option (list Z) :=
  if decide (off + length src <= length l)%nat
  then Some (take off l ++ src ++ drop (off + length src) l) else None.

(** a field of a struct, written at its offset *)
Definition put_field (l : list Z) (off : nat) (src : list Z) : list Z :=
  take off l ++ src ++ drop (off + length src) l.

(** fields read at an offset: [int], [uint32_t], [size_t] or a pointer *)
Definition get_u32 (l : list Z) (off : nat) : Z := le_value (take 4 (drop off l)).
Definition get_s32 (l : list Z) (off : nat) : Z := s32 (get_u32 l off).
Definition get_u64 (l : list Z) (off : nat) : Z := le_value (take 8 (drop off l)).

(** the bytes of a C string, up to its terminator *)
Fixpoint c_str (l : list Z) : list Z :=
  match l with
  | [] => []
  | b :: l => if b =? 0 then [] else b :: c_str l
  end.

(** a buffer is its contents: [Some b] for a byte that was copied into it, [None] for one
    that [skynet_malloc] left as it was; [memcpy] into it at an offset *)
Definition buffer : Type := list (option Z).
Definition malloc_buffer (n : Z) : buffer := replicate (Z.to_nat n) None.
Definition copy_into (b : buffer) (off : Z) (bytes : list Z) : result buffer :=
  if (0 <=? off) && (off + Z.of_nat (length bytes) <=? Z.of_nat (length b))
  then Ok (take (Z.to_nat off) b ++ (Some <$> bytes) ++ drop (Z.to_nat off + length bytes) b)
  else Err OutOfBounds.

(** [x[i] | x[i + 1] << 8 | x[i + 2] << 16 | x[i + 3] << 24], and one byte of a number *)
Definition read_le32 (x : list Z) (i : nat) : Z :=
  let b k := nth (i + k) x 0 in
  Z.lor (Z.lor (Z.lor (b 0%nat) (Z.shiftl (b 1%nat) 8)) (Z.shiftl (b 2%nat) 16)) (Z.shiftl (b 3%nat) 24).
Definition byte_at (r shift : Z) : Z := Z.land (Z.shiftr r shift) 0xff.

(** ** Lemmas *)

Lemma le_bytes_length n z : length (le_bytes n z) = n.
Proof. revert z. induction n as [|n IH]; intros z; [done|]. simpl. by rewrite IH. Qed.

Lemma le_bytes_byte n z : Forall is_byte (le_bytes n z).
Proof.
  revert z. induction n as [|n IH]; intros z; constructor; [|apply IH].
  unfold is_byte. apply Z.mod_pos_bound. lia.
Qed.

Lemma le_value_bytes n z : le_value (le_bytes n z) = z mod 256 ^ Z.of_nat n.
Proof.
  revert z. induction n as [|n IH]; intros z; [by rewrite Z.mod_1_r|].
  cbn [le_bytes le_value]. rewrite IH.
  replace (256 ^ Z.of_nat (S n)) with (256 * 256 ^ Z.of_nat n) by (rewrite Nat2Z.inj_succ, Z.pow_succ_r by lia; lia).
  rewrite Z.rem_mul_r by lia. lia.
Qed.

Lemma le_bytes_value l : Forall is_byte l → le_bytes (length l) (le_value l) = l.
Proof.
  induction 1 as [|b l Hb Hl IH]; [done|]. cbn [length le_bytes le_value]. unfold is_byte in Hb.
  rewrite (Z.mul_comm 256), Z.mod_add, Z.mod_small, Z.div_add, Z.div_small by lia.
  by rewrite Z.add_0_l, IH.
Qed.

Lemma le_value_range l : Forall is_byte l → 0 <= le_value l < 256 ^ Z.of_nat (length l).
Proof.
  induction 1 as [|b l Hb Hl IH]; [done|]. cbn [le_value length]. unfold is_byte in Hb.
  rewrite Nat2Z.inj_succ, Z.pow_succ_r by lia. lia.
Qed.

Lemma le_value_u32 z : le_value (le_bytes 4 z) = u32 z.
Proof. by rewrite le_value_bytes. Qed.

Lemma le_value_u64 z : le_value (le_bytes 8 z) = u64 z.
Proof. by rewrite le_value_bytes. Qed.

Lemma s32_u32 z : s32 (u32 z) = s32 z.
Proof. unfold s32, u32. by rewrite Zplus_mod_idemp_l. Qed.

Lemma slice_app l1 l2 l3 : slice (l1 ++ l2 ++ l3) (length l1) (length l2) = Some l2.
Proof.
  unfold slice. rewrite decide_True by (rewrite !length_app; lia).
  by rewrite drop_app_length, take_app_length.
Qed.

Lemma splice_length l off src l' : splice l off src = Some l' → length l' = length l.
Proof.
  unfold splice. case_decide as Hd; [|done]. intros [= <-].
  rewrite !length_app, length_take, length_drop. lia.
Qed.

Lemma slice_splice l off src l' : splice l off src = Some l' → slice l' off (length src) = Some src.
Proof.
  intros Hs. pose proof (splice_length _ _ _ _ Hs) as Hlen. unfold splice in Hs. case_decide as Hd; [|done].
  injection Hs as <-. unfold slice. rewrite decide_True by lia.
  rewrite drop_app_length' by (rewrite length_take; lia). by rewrite take_app_length.
Qed.

Lemma put_field_length l off src : (off + length src <= length l)%nat → length (put_field l off src) = length l.
Proof. intros. unfold put_field. rewrite !length_app, length_take, length_drop. lia. Qed.

(** what a read of [n] bytes at [off] sees of a field written at [off'] *)
Lemma put_field_same l off src n : (off + length src <= length l)%nat → n = length src →
  take n (drop off (put_field l off src)) = src.
Proof.
  intros Hl ->. unfold put_field. rewrite drop_app_length' by (rewrite length_take; lia).
  by rewrite take_app_length.
Qed.

Lemma put_field_other l off src n off' : (off + length src <= length l)%nat →
  (off' + n <= off ∨ off + length src <= off')%nat →
  take n (drop off' (put_field l off src)) = take n (drop off' l).
Proof.
  intros Hl Hd. apply list_eq. intros i. destruct (decide (i < n)%nat) as [Hi|Hi].
  2: { rewrite !lookup_take_ge by lia. done. }
  rewrite !lookup_take_lt, !lookup_drop by lia. unfold put_field.
  destruct Hd as [Hd|Hd].
  - rewrite lookup_app_l by (rewrite length_take; lia). rewrite lookup_take_lt by lia. done.
  - rewrite lookup_app_r by (rewrite length_take; lia). rewrite length_take.
    rewrite lookup_app_r by lia. rewrite lookup_drop. f_equal. lia.
Qed.

Lemma c_str_app l r : Forall (λ b, b ≠ 0) l → c_str (l ++ 0 :: r) = l.
Proof.
  induction 1 as [|b l Hb Hl IH]; [done|]. simpl. rewrite (proj2 (Z.eqb_neq b 0)) by done. by rewrite IH.
Qed.

(** filling a buffer from the first byte that is missing *)
Lemma copy_spec data k bytes : (length bytes <= k)%nat →
  copy_into ((Some <$> data) ++ replicate k None) (Z.of_nat (length data)) bytes =
    Ok ((Some <$> (data ++ bytes)) ++ replicate (k - length bytes) None).
Proof.
  intros Hk. unfold copy_into. rewrite length_app, length_fmap, length_replicate.
  rewrite (proj2 (Z.leb_le 0 _)), (proj2 (Z.leb_le _ _)) by lia. simpl. f_equal.
  rewrite Nat2Z.id, take_app_length' by (by rewrite length_fmap). rewrite fmap_app, <- app_assoc. do 2 f_equal.
  rewrite drop_app_ge, drop_replicate by (rewrite length_fmap; lia). f_equal. rewrite length_fmap. lia.
Qed.

Lemma copy_malloc n bytes : Z.of_nat (length bytes) <= n →
  copy_into (malloc_buffer n) 0 bytes = Ok ((Some <$> bytes) ++ replicate (Z.to_nat n - length bytes) None).
Proof. intros Hn. exact (copy_spec [] (Z.to_nat n) bytes ltac:(lia)). Qed.

Lemma copy_whole n bytes : Z.of_nat (length bytes) = n → copy_into (malloc_buffer n) 0 bytes = Ok (Some <$> bytes).
Proof. intros Hn. rewrite copy_malloc by lia. replace (Z.to_nat n - length bytes)%nat with 0%nat by lia. by rewrite app_nil_r. Qed.

(** a property of all bytes, checked one by one *)
Lemma all_bytes (f : Z → bool) : forallb f (seqZ 0 256) = true → ∀ b, is_byte b → f b = true.
Proof. intros Hf b Hb. rewrite forallb_forall in Hf. apply Hf, list_elem_of_In, elem_of_seqZ. exact Hb. Qed.

Lemma Forall_nth_byte l k : Forall is_byte l → is_byte (nth k l 0).
Proof.
  intros Hl. destruct (nth_in_or_default k l 0) as [Hin| ->]; [|by unfold is_byte].
  rewrite Forall_forall in Hl. by apply Hl, list_elem_of_In.
Qed.

(** an integer above another one of [n] bytes *)
Lemma le_bytes_join n k a b : 0 <= a < 256 ^ Z.of_nat n → le_bytes (n + k) (a + 256 ^ Z.of_nat n * b) = le_bytes n a ++ le_bytes k b.
Proof.
  revert a. induction n as [|n IH]; intros a Ha; [change (256 ^ Z.of_nat 0) with 1 in *; cbn [Nat.add le_bytes app]; f_equal; lia|].
  rewrite Nat2Z.inj_succ, Z.pow_succ_r in * by lia. cbn [Nat.add le_bytes app].
  replace (a + 256 * 256 ^ Z.of_nat n * b) with (a + 256 ^ Z.of_nat n * b * 256) by lia. rewrite Z.mod_add, Z.div_add by lia.
  f_equal. apply IH. split; [apply Z.div_pos; lia|apply Z.div_lt_upper_bound; lia].
Qed.

Lemma lor_add x y n : 0 <= n → x mod 2 ^ n = 0 → 0 <= y < 2 ^ n → Z.lor x y = x + y.
Proof.
  intros Hn Hx Hy. assert (Hq : x = x / 2 ^ n * 2 ^ n) by (pose proof (Z.div_mod x (2 ^ n)); lia).
  rewrite Hq at 1. rewrite <- Z.shiftl_mul_pow2, Z.lor_comm, lor_shiftl by done. lia.
Qed.

Lemma land_byte x : Z.land x 0xff = x mod 256.
Proof. apply (Z.land_ones _ 8). lia. Qed.

Lemma byte_at_spec r s : 0 <= s → byte_at r s = r / 2 ^ s mod 256.
Proof. intros Hs. unfold byte_at. by rewrite Z.shiftr_div_pow2, land_byte. Qed.

Lemma read_le32_spec x i : (i + 4 <= length x)%nat → Forall is_byte x → read_le32 x i = le_value (take 4 (drop i x)).
Proof.
  intros Hl Hx. assert (Hb := λ k, Forall_nth_byte x k Hx).
  assert (E : take 4 (drop i x) = [nth (i + 0) x 0; nth (i + 1) x 0; nth (i + 2) x 0; nth (i + 3) x 0]).
  { apply list_eq. intros k. destruct (decide (k < 4)%nat) as [Hk|Hk].
    - rewrite lookup_take_lt, lookup_drop by done.
      do 4 (destruct k as [|k]; [etrans; [apply (lookup_nth _ _ 0); lia|done]|]). lia.
    - rewrite lookup_take_ge by lia. symmetry. apply lookup_ge_None. simpl. lia. }
  rewrite E. unfold read_le32. cbn [le_value]. pose proof (Hb (i + 0)%nat). pose proof (Hb (i + 1)%nat).
  pose proof (Hb (i + 2)%nat). pose proof (Hb (i + 3)%nat). unfold is_byte in *.
  rewrite (lor_shiftl _ _ 8), (lor_shiftl _ _ 16), lor_shiftl by lia. lia.
Qed.
