(* ===== verification/SocketMessage.v ===== *)
(** * Socket messages (skynet-src/node/node_socket.h)

    What the socket thread queues for a service: an event, its socket, a number and a
    pointer, as bytes in memory. The node writes them, the service log and the Lua
    libraries read them. *)
From S2P Require Import Prelude Bytes.
Open Scope Z_scope.

(** [enum skynet_socket_event] *)
Definition SKYNET_SOCKET_EVENT_DATA : Z := 1.
Definition SKYNET_SOCKET_EVENT_CONNECT : Z := 2.
Definition SKYNET_SOCKET_EVENT_CLOSE : Z := 3.
Definition SKYNET_SOCKET_EVENT_ACCEPT : Z := 4.
Definition SKYNET_SOCKET_EVENT_ERROR : Z := 5.
Definition SKYNET_SOCKET_EVENT_UDP : Z := 6.
Definition SKYNET_SOCKET_EVENT_WARNING : Z := 7.

(** [struct skynet_socket_message] and its bytes in memory: three [int]s, four bytes nobody
    reads, the pointer *)
Record skynet_socket_message := mkSsm { ssm_socket_event : Z; ssm_socket_id : Z; ssm_ud : Z; ssm_buffer : Z }.

Definition ssm_bytes (m : skynet_socket_message) : list Z :=
  (le_bytes 4 (ssm_socket_event m) ++ le_bytes 4 (ssm_socket_id m) ++ le_bytes 4 (ssm_ud m) ++
   replicate 4 0 ++ le_bytes 8 (ssm_buffer m))%list.
Definition ssm_of_bytes (l : list Z) : skynet_socket_message := mkSsm (get_s32 l 0) (get_s32 l 4) (get_s32 l 8) (get_u64 l 16).

(** [sizeof(skynet_socket_message)] *)
Definition SOCKET_MESSAGE_SIZE : Z := 24.

(** ** Lemmas *)

Lemma ssm_bytes_length m : length (ssm_bytes m) = 24%nat.
Proof. unfold ssm_bytes. by rewrite !length_app, !le_bytes_length. Qed.

(** the fields that the C services and the Lua layer read back *)
Lemma ssm_roundtrip m rest : is_s32 (ssm_socket_event m) → is_s32 (ssm_socket_id m) → is_s32 (ssm_ud m) → is_u64 (ssm_buffer m) →
  ssm_of_bytes (ssm_bytes m ++ rest) = m.
Proof.
  intros H1 H2 H3 H4. destruct m as [e i u b].
  change (mkSsm (s32 (le_value (le_bytes 4 e))) (s32 (le_value (le_bytes 4 i))) (s32 (le_value (le_bytes 4 u))) (le_value (le_bytes 8 b)) =
          mkSsm e i u b).
  rewrite !le_value_u32, le_value_u64, u64_small by done. by rewrite !s32_u32, !s32_small.
Qed.
