(* ===== verification/SocketObject.v ===== *)
(** * Socket objects and their pool
    (skynet-src/socket: socket_server_def.h, socket_buffer.h, socket_object.h, .inl, .cpp,
    socket_object_pool.h, .inl, .cpp)

    A socket object is a slot of a fixed array; a socket id names a slot by its low 16 bits
    and a use of the slot by the rest. The objects carry the bookkeeping that lets worker
    threads send without going through the socket thread: a status, a count of the sends
    that are still in the control pipe, and a buffer for an unfinished direct write. *)
From S2P Require Import Prelude Bytes.

(** socket_server_def.h *)
Definition INVALID_FD : Z := -1.
Definition INVALID_SOCKET_ID : Z := -1.
Definition UDP_ADDRESS_SIZE : Z := 19.

(** [enum socket_status] *)
Inductive socket_status :=
  | SOCKET_STATUS_INVALID
  | SOCKET_STATUS_ALLOCED
  | SOCKET_STATUS_PREPARE_LISTEN
  | SOCKET_STATUS_LISTEN
  | SOCKET_STATUS_CONNECTING
  | SOCKET_STATUS_CONNECTED
  | SOCKET_STATUS_HALF_CLOSE_READ
  | SOCKET_STATUS_HALF_CLOSE_WRITE
  | SOCKET_STATUS_PREPARE_ACCEPT
  | SOCKET_STATUS_BIND.

#[export] Instance socket_status_eq_dec : EqDecision socket_status.
Proof. solve_decision. Defined.

Definition status_is (a b : socket_status) : bool := bool_decide (a = b).

(** [enum socket_type], stored in a [uint8_t] *)
Definition SOCKET_TYPE_TCP : Z := 0.
Definition SOCKET_TYPE_UDP : Z := 1.
Definition SOCKET_TYPE_UDPv6 : Z := 2.
Definition SOCKET_TYPE_UNKNOWN : Z := 255.

(** pointers to whole objects and blocks are addresses, 0 is [nullptr]; a [char*] into a
    block is the address of the block and an offset *)
Definition is_null (p : Z) : bool := p =? 0.
Record pointer := mkPtr { p_block : Z; p_off : Z }.
#[export] Instance pointer_eq_dec : EqDecision pointer.
Proof. solve_decision. Defined.
Definition ptr_add (p : pointer) (n : Z) : pointer := mkPtr (p_block p) (p_off p + n).

(** [struct socket_statistics] *)
Record socket_statistics := mkStat {
  recv_time_ticks : Z;
  send_time_ticks : Z;
  recv_bytes : Z;
  send_bytes : Z
}.
Definition socket_statistics_zero : socket_statistics := mkStat 0 0 0 0.

(** [struct write_buffer]; [udp_address] is [None] in a block of [SIZEOF_TCP_BUFFER] bytes,
    which ends before that field *)
Record write_buffer := mkWb {
  wb_next : Z;
  wb_buffer : Z;
  wb_ptr : pointer;
  wb_sz : Z;
  wb_is_user_object : bool;
  wb_udp_address : option (list Z)
}.
#[export] Instance eta_write_buffer : Eta write_buffer := λ r,
  mkWb (wb_next r) (wb_buffer r) (wb_ptr r) (wb_sz r) (wb_is_user_object r) (wb_udp_address r).

(** [struct write_buffer_list]: addresses of write buffers, 0 is [nullptr] *)
Record write_buffer_list := mkWbl { wl_head : Z; wl_tail : Z }.
#[export] Instance eta_write_buffer_list : Eta write_buffer_list := λ r, mkWbl (wl_head r) (wl_tail r).
Definition wbl_empty : write_buffer_list := mkWbl 0 0.

(** [class socket_object]; the union [p] is its bytes, [so_mutex] is whether
    [direct_write_mutex] is held *)
Record socket_object := mkSock {
  so_svc_handle : Z;
  so_socket_fd : Z;
  so_socket_id : Z;
  so_socket_type : Z;
  so_status : socket_status;
  so_reading : bool;
  so_writing : bool;
  so_closing : bool;
  so_high : write_buffer_list;
  so_low : write_buffer_list;
  so_write_buffer_size : Z;
  so_sending_count : Z;
  so_udp_connecting_count : Z;
  so_io_statistics : socket_statistics;
  so_warn_size : Z;
  so_p : list Z;
  so_mutex : bool;
  so_direct_write_offset : Z;
  so_direct_write_buffer : Z;
  so_direct_write_size : Z
}.
#[export] Instance eta_socket_object : Eta socket_object := λ r,
  mkSock (so_svc_handle r) (so_socket_fd r) (so_socket_id r) (so_socket_type r) (so_status r)
    (so_reading r) (so_writing r) (so_closing r) (so_high r) (so_low r) (so_write_buffer_size r)
    (so_sending_count r) (so_udp_connecting_count r) (so_io_statistics r) (so_warn_size r) (so_p r)
    (so_mutex r) (so_direct_write_offset r) (so_direct_write_buffer r) (so_direct_write_size r).

(** an object as the pool creates it *)
Definition socket_object_default : socket_object :=
  mkSock 0 INVALID_FD 0 SOCKET_TYPE_UNKNOWN SOCKET_STATUS_INVALID false false false wbl_empty wbl_empty
    0 0 0 socket_statistics_zero 0 (replicate (Z.to_nat UDP_ADDRESS_SIZE) 0) false 0 0 0.

(** the union's [size], an [int] in its first four bytes *)
Definition p_size (s : socket_object) : Z := s32 (le_value (take 4 (so_p s))).
Definition set_p_size (s : socket_object) (n : Z) : socket_object :=
  s <| so_p := (le_bytes 4 n ++ drop 4 (so_p s))%list |>.

(** ** socket_object.inl *)

Definition is_invalid (s : socket_object) (socket_id : Z) : bool :=
  negb (so_socket_id s =? socket_id) || status_is (so_status s) SOCKET_STATUS_INVALID.

Definition is_write_buffer_empty (s : socket_object) : bool :=
  (wl_head (so_high s) =? 0) && (wl_head (so_low s) =? 0).

Definition is_close_read (s : socket_object) : bool := status_is (so_status s) SOCKET_STATUS_HALF_CLOSE_READ.
Definition is_close_write (s : socket_object) : bool := status_is (so_status s) SOCKET_STATUS_HALF_CLOSE_WRITE.

Definition nomore_sending_data (s : socket_object) : bool :=
  (is_write_buffer_empty s && is_null (so_direct_write_buffer s) &&
   (Z.land (so_sending_count s) 0xFFFF =? 0)) || is_close_write s.

Definition can_direct_send (s : socket_object) (socket_id : Z) : bool :=
  (so_socket_id s =? socket_id) && nomore_sending_data s &&
  status_is (so_status s) SOCKET_STATUS_CONNECTED && (so_udp_connecting_count s =? 0).

Definition shutdown_read (s : socket_object) : socket_object := s <| so_status := SOCKET_STATUS_HALF_CLOSE_READ |>.
Definition shutdown_write (s : socket_object) : socket_object := s <| so_status := SOCKET_STATUS_HALF_CLOSE_WRITE |>.

Definition statistics_recv (s : socket_object) (bytes time_ticks : Z) : socket_object :=
  let io := so_io_statistics s in
  s <| so_io_statistics := mkStat time_ticks (send_time_ticks io) (u64 (recv_bytes io + s32 bytes)) (send_bytes io) |>.
Definition statistics_send (s : socket_object) (bytes time_ticks : Z) : socket_object :=
  let io := so_io_statistics s in
  s <| so_io_statistics := mkStat (recv_time_ticks io) time_ticks (recv_bytes io) (u64 (send_bytes io + s32 bytes)) |>.

(** ** socket_object_pool.inl, .h *)

Definition MAX_SOCKET_P : Z := 16.
Definition MAX_SOCKET : Z := Z.shiftl 1 MAX_SOCKET_P.

Definition socket_array_index (socket_id : Z) : Z := u32 socket_id mod MAX_SOCKET.
Definition socket_id_high16 (socket_id : Z) : Z := Z.land (Z.shiftr socket_id MAX_SOCKET_P) 0xFFFF.

(** [class socket_object_pool]: [socket_array_] maps an index below [MAX_SOCKET] to its
    object; an index that is not in the map has the object it was created with *)
Record socket_object_pool := mkPool {
  socket_array_ : gmap Z socket_object;
  alloc_socket_id_ : Z
}.
#[export] Instance eta_socket_object_pool : Eta socket_object_pool := λ r,
  mkPool (socket_array_ r) (alloc_socket_id_ r).
Definition socket_object_pool_init : socket_object_pool := mkPool ∅ 0.

(** the object at an index of the array, and its replacement *)
Definition socket_at (pool : socket_object_pool) (i : Z) : socket_object :=
  default socket_object_default (socket_array_ pool !! i).
Definition put_at (pool : socket_object_pool) (i : Z) (s : socket_object) : socket_object_pool :=
  pool <| socket_array_ := <[i := s]> (socket_array_ pool) |>.
#[global] Arguments socket_at : simpl never.
#[global] Arguments put_at : simpl never.

Definition get_socket (pool : socket_object_pool) (socket_id : Z) : socket_object :=
  socket_at pool (socket_array_index socket_id).
(** assignment through the reference [get_socket] returns *)
Definition put_socket (pool : socket_object_pool) (socket_id : Z) (s : socket_object) : socket_object_pool :=
  put_at pool (socket_array_index socket_id) s.

(** ** socket_object.cpp: the count of sends on their way *)

(** [socket_object::inc_sending_count]; the busy loop waits while the count is full, so a
    full count makes no progress here: [None] *)
Definition inc_sending_count (s : socket_object) (socket_id : Z) : option socket_object :=
  if negb (so_socket_type s =? SOCKET_TYPE_TCP) then Some s
  else
    let expect_sending_count := so_sending_count s in
    let expect_socket_id := Z.shiftr expect_sending_count 16 in
    if expect_socket_id =? socket_id_high16 socket_id then
      if Z.land expect_sending_count 0xFFFF =? 0xFFFF then None
      else Some (s <| so_sending_count := u32 (expect_sending_count + 1) |>)
    else Some s.

(** [socket_object::dec_sending_count] *)
Definition dec_sending_count (s : socket_object) (socket_id : Z) : result socket_object :=
  if (so_socket_id s =? socket_id) && (so_socket_type s =? SOCKET_TYPE_TCP) then
    massert (negb (Z.land (so_sending_count s) 0xFFFF =? 0));;;
    Ok (s <| so_sending_count := u32 (so_sending_count s - 1) |>)
  else Ok s.

Definition reset_sending_count (s : socket_object) (socket_id : Z) : socket_object :=
  s <| so_sending_count := Z.lor (Z.shiftl (socket_id_high16 socket_id) 16) 0 |>.

(** [udp_connecting_count] is a [uint16_t] *)
Definition inc_udp_connecting_count (s : socket_object) : socket_object :=
  s <| so_udp_connecting_count := (so_udp_connecting_count s + 1) mod 2 ^ 16 |>.
Definition dec_udp_connecting_count (s : socket_object) : socket_object :=
  s <| so_udp_connecting_count := (so_udp_connecting_count s - 1) mod 2 ^ 16 |>.
Definition reset_udp_connecting_count (s : socket_object) : socket_object :=
  s <| so_udp_connecting_count := 0 |>.

(** ** socket_object_pool.cpp *)

(** one round of the loop of [alloc_socket]: the id it tries, and the id counter *)
Definition next_socket_id (alloc_socket_id : Z) : Z :=
  let socket_id := s32 (alloc_socket_id + 1) in
  if socket_id <? 0 then Z.land socket_id 0x7FFFFFFF else socket_id.

(** what [alloc_socket] writes into the object it takes *)
Definition socket_alloced (s : socket_object) (socket_id : Z) : socket_object :=
  reset_udp_connecting_count
    (s <| so_status := SOCKET_STATUS_ALLOCED |> <| so_socket_id := socket_id |>
       <| so_socket_type := SOCKET_TYPE_UNKNOWN |>) <| so_socket_fd := INVALID_FD |>.

(** the loop of [alloc_socket], [n] rounds of it left *)
Fixpoint alloc_loop (n : nat) (pool : socket_object_pool) : Z * socket_object_pool :=
  match n with
  | O => (-1, pool)
  | S n =>
      let socket_id := next_socket_id (alloc_socket_id_ pool) in
      let pool := pool <| alloc_socket_id_ := socket_id |> in
      let s := get_socket pool socket_id in
      if negb (status_is (so_status s) SOCKET_STATUS_INVALID) then alloc_loop n pool
      else (socket_id, put_socket pool socket_id (socket_alloced s socket_id))
  end.

(** [socket_object_pool::alloc_socket] *)
Definition alloc_socket (pool : socket_object_pool) : Z * socket_object_pool :=
  alloc_loop (Z.to_nat MAX_SOCKET) pool.

(** [socket_object_pool::free_socket] *)
Definition free_socket (pool : socket_object_pool) (socket_id : Z) : socket_object_pool :=
  put_socket pool socket_id (get_socket pool socket_id <| so_status := SOCKET_STATUS_INVALID |>).

(** ** The pool *)

Lemma socket_at_put pool i j s :
  socket_at (put_at pool i s) j = if decide (i = j) then s else socket_at pool j.
Proof.
  unfold socket_at, put_at. simpl. case_decide as Hij; [subst; by rewrite lookup_insert_eq|].
  by rewrite lookup_insert_ne.
Qed.

Lemma get_put_socket pool id s : get_socket (put_socket pool id s) id = s.
Proof. unfold get_socket, put_socket. rewrite socket_at_put. by rewrite decide_True. Qed.

Lemma socket_array_index_mod id : socket_array_index id = id mod 2 ^ 16.
Proof.
  unfold socket_array_index, u32. change MAX_SOCKET with (2 ^ 16).
  change (2 ^ 32) with (2 ^ 16 * 2 ^ 16). rewrite Z.rem_mul_r by lia.
  rewrite (Z.mul_comm (2 ^ 16)), Z.mod_add, Z.mod_mod by lia. done.
Qed.

Lemma socket_array_index_range id : 0 <= socket_array_index id < MAX_SOCKET.
Proof. rewrite socket_array_index_mod. change MAX_SOCKET with (2 ^ 16). apply Z.mod_pos_bound. lia. Qed.

Lemma next_socket_id_mod c : 0 <= c < 2 ^ 31 → next_socket_id c = (c + 1) mod 2 ^ 31.
Proof.
  intros Hc. unfold next_socket_id. destruct (decide (c = 2 ^ 31 - 1)) as [->|Hne]; [done|].
  rewrite s32_small by lia. rewrite (proj2 (Z.ltb_ge _ _)) by lia. by rewrite Z.mod_small by lia.
Qed.

Lemma index_mod_31 z : socket_array_index (z mod 2 ^ 31) = socket_array_index z.
Proof.
  rewrite !socket_array_index_mod. change (2 ^ 31) with (2 ^ 16 * 2 ^ 15). rewrite Z.rem_mul_r by lia.
  by rewrite (Z.mul_comm (2 ^ 16)), Z.mod_add, Z.mod_mod by lia.
Qed.

(** the object a round [k] of the search looks at is free *)
Definition round_free (pool : socket_object_pool) (k : nat) : Prop :=
  so_status (get_socket pool (alloc_socket_id_ pool + 1 + Z.of_nat k)) = SOCKET_STATUS_INVALID.

Lemma alloc_loop_spec n pool : 0 <= alloc_socket_id_ pool < 2 ^ 31 →
  let '(id, pool') := alloc_loop n pool in
  (∃ k, (k < n)%nat ∧ round_free pool k ∧ (∀ j, (j < k)%nat → ¬ round_free pool j) ∧
     id = (alloc_socket_id_ pool + 1 + Z.of_nat k) mod 2 ^ 31 ∧
     pool' = put_socket (pool <| alloc_socket_id_ := id |>) id (socket_alloced (get_socket pool id) id)) ∨
  ((∀ k, (k < n)%nat → ¬ round_free pool k) ∧ id = -1 ∧
     socket_array_ pool' = socket_array_ pool ∧ 0 <= alloc_socket_id_ pool' < 2 ^ 31).
Proof.
  revert pool. induction n as [|n IH]; intros pool Hc; simpl.
  { right. repeat split; try lia; done. }
  rewrite next_socket_id_mod by done. set (id := (alloc_socket_id_ pool + 1) mod 2 ^ 31).
  assert (Hid : 0 <= id < 2 ^ 31) by (apply Z.mod_pos_bound; lia).
  assert (Hget : get_socket pool id = get_socket pool (alloc_socket_id_ pool + 1 + Z.of_nat 0)).
  { unfold get_socket, id. rewrite index_mod_31. by rewrite Z.add_0_r. }
  set (p1 := mkPool (socket_array_ pool) id).
  assert (Hg1 : get_socket p1 id = get_socket pool id) by done. rewrite Hg1.
  assert (Hround : ∀ k, round_free p1 k ↔ round_free pool (S k)).
  { intros k. unfold round_free, get_socket. simpl.
    rewrite <- (index_mod_31 (id + 1 + Z.of_nat k)). unfold id. rewrite <- Z.add_assoc, Zplus_mod_idemp_l, index_mod_31.
    by replace (alloc_socket_id_ pool + 1 + (1 + Z.of_nat k)) with (alloc_socket_id_ pool + 1 + Z.of_nat (S k)) by lia. }
  unfold status_is. case_bool_decide as Hfree; simpl.
  - left. exists 0%nat. split_and!; [lia| |lia|by rewrite Z.add_0_r|done]. unfold round_free. by rewrite <- Hget.
  - specialize (IH p1). fold p1. destruct (alloc_loop n p1) as [id' pool'].
    destruct IH as [(k & Hk & Hfr & Hmin & -> & ->)|(Hall & -> & Hsame & Hrange)]; [done| |].
    + left. exists (S k). split_and!; [lia|by apply Hround| | |].
      * intros [|j] Hj; [unfold round_free; by rewrite <- Hget|]. rewrite <- Hround. apply Hmin. lia.
      * unfold p1, id. simpl. rewrite <- Z.add_assoc, Zplus_mod_idemp_l. f_equal. lia.
      * done.
    + right. split_and!; try done; try lia. intros [|k] Hk; [unfold round_free; by rewrite <- Hget|].
      rewrite <- Hround. apply Hall. lia.
Qed.

Lemma index_covered c i : 0 <= i < MAX_SOCKET →
  ∃ k, (k < Z.to_nat MAX_SOCKET)%nat ∧ socket_array_index (c + 1 + Z.of_nat k) = i.
Proof.
  change MAX_SOCKET with (2 ^ 16). intros Hi. exists (Z.to_nat ((i - c - 1) mod 2 ^ 16)).
  pose proof (Z.mod_pos_bound (i - c - 1) (2 ^ 16)) as Hm. split; [apply Z2Nat.inj_lt; lia|].
  rewrite Z2Nat.id, socket_array_index_mod, Zplus_mod_idemp_r by lia.
  rewrite <- (Z.mod_small i (2 ^ 16)) at 2 by lia. f_equal. lia.
Qed.

(** [alloc_socket] takes a free slot whenever there is one and fails only when every
    slot of the array is in use. The id it returns is not negative and names the slot it
    took, the slot was free before, and no other slot changes. *)
Theorem alloc_socket_complete pool : 0 <= alloc_socket_id_ pool < 2 ^ 31 →
  let '(id, pool') := alloc_socket pool in
  0 <= alloc_socket_id_ pool' < 2 ^ 31 ∧
  ((∃ i, 0 <= i < MAX_SOCKET ∧ so_status (socket_at pool i) = SOCKET_STATUS_INVALID) →
     0 <= id < 2 ^ 31 ∧ so_status (get_socket pool id) = SOCKET_STATUS_INVALID ∧
     so_status (get_socket pool' id) = SOCKET_STATUS_ALLOCED ∧ so_socket_id (get_socket pool' id) = id ∧
     ∀ j, j ≠ socket_array_index id → socket_at pool' j = socket_at pool j) ∧
  ((∀ i, 0 <= i < MAX_SOCKET → so_status (socket_at pool i) ≠ SOCKET_STATUS_INVALID) →
     id = -1 ∧ socket_array_ pool' = socket_array_ pool).
Proof.
  intros Hc. unfold alloc_socket. pose proof (alloc_loop_spec (Z.to_nat MAX_SOCKET) pool Hc) as Hspec.
  destruct (alloc_loop (Z.to_nat MAX_SOCKET) pool) as [id pool'].
  destruct Hspec as [(k & Hk & Hfree & _ & Hid & ->)|(Hall & -> & Hsame & Hrange)].
  - assert (Hr : 0 <= id < 2 ^ 31) by (subst id; apply Z.mod_pos_bound; lia). split; [done|].
    assert (Hget : so_status (get_socket pool id) = SOCKET_STATUS_INVALID).
    { unfold round_free, get_socket in *. by rewrite Hid, index_mod_31. }
    split; [intros _|intros Hno; by destruct (Hno (socket_array_index id) (socket_array_index_range id))].
    rewrite get_put_socket. split_and!; try done; try lia.
    intros j Hj. unfold put_socket. rewrite socket_at_put, decide_False by congruence. done.
  - split; [done|]. split; [|done]. intros (i & Hi & Hst). exfalso.
    destruct (index_covered (alloc_socket_id_ pool) i Hi) as (k & Hk & Hidx). apply (Hall k Hk).
    unfold round_free, get_socket. by rewrite Hidx.
Qed.

Lemma alloc_socket_complete_witness : (alloc_socket socket_object_pool_init).1 = 1 ∧
  so_status (get_socket socket_object_pool_init 1) = SOCKET_STATUS_INVALID.
Proof.
  pose proof (alloc_socket_complete socket_object_pool_init (conj (Z.le_refl 0) eq_refl)) as H.
  split; [vm_compute; reflexivity|]. unfold alloc_socket in H.
  destruct H as (_ & H & _). apply H. exists 1. split; [split; [lia|reflexivity]|reflexivity].
Defined.
