(* ===== verification/SocketEndpoint.v ===== *)
(** * Endpoints and UDP addresses (skynet-src/socket/socket_endpoint.h, .cpp)

    [socket_endpoint::addr] is a union of [sockaddr], [sockaddr_in] and [sockaddr_in6]: 28
    bytes, with the family and the port at the same place in each of them. A UDP address is
    the compact form the Lua layer keeps: the protocol, the port and the host address. *)
From Stdlib Require Import String.
From S2P Require Import Prelude Bytes Text SocketObject.
Open Scope string_scope.
Open Scope Z_scope.

Definition AF_INET : Z := 2.
Definition AF_INET6 : Z := 10.
Definition INET6_ADDRSTRLEN : Z := 46.
Definition SIZEOF_SOCKADDR_IN : Z := 16.
Definition SIZEOF_SOCKADDR_IN6 : Z := 28.

(** the bytes of the union *)
Definition socket_endpoint : Type := list Z.
Definition endpoint_zero : socket_endpoint := replicate 28 0.

Definition sa_family (ep : socket_endpoint) : Z := le_value (take 2 ep).
(** [sin_port] and [sin6_port], [sin_addr], [sin6_addr] *)
Definition sin_port (ep : socket_endpoint) : list Z := take 2 (drop 2 ep).
Definition sin_addr (ep : socket_endpoint) : list Z := take 4 (drop 4 ep).
Definition sin6_addr (ep : socket_endpoint) : list Z := take 16 (drop 8 ep).

Definition ntohs (b : list Z) : Z := le_value (rev b).

Section text.
(** [inet_ntop] of the system: the text of a host address of the given family *)
Variable inet_ntop : Z → list Z → option string.

(** the host address [to_string] and the callers of [inet_ntop] convert *)
Definition host_addr (ep : socket_endpoint) : list Z :=
  if sa_family ep =? AF_INET then sin_addr ep else sin6_addr ep.

(** [socket_endpoint::to_string()] *)
Definition endpoint_to_string (ep : socket_endpoint) : string :=
  match inet_ntop (sa_family ep) (host_addr ep) with
  | None => ""
  | Some tmp => tmp ++ ":" ++ dec_str (ntohs (sin_port ep))
  end.

(** [socket_endpoint::to_string(buf_ptr, buf_sz)]: [snprintf] keeps [buf_sz - 1] characters *)
Definition endpoint_to_buffer (ep : socket_endpoint) (buf_sz : Z) : bool * string :=
  match inet_ntop (sa_family ep) (host_addr ep) with
  | None => (false, "")
  | Some tmp =>
      (true, string_of_list_ascii
               (take (Z.to_nat (buf_sz - 1))
                  (list_ascii_of_string (tmp ++ ":" ++ dec_str (ntohs (sin_port ep))))))
  end.
End text.

(** [socket_endpoint::from_udp_address]: the size of the address, 0 when the protocol does
    not match; [udp_address] is an array of at least [UDP_ADDRESS_SIZE] bytes *)
Definition from_udp_address (ep : socket_endpoint) (protocol_type : Z) (udp_address : list Z)
  : Z * socket_endpoint :=
  let type := nth 0 udp_address 0 in
  if negb (type =? protocol_type) then (0, ep)
  else
    let port := take 2 (drop 1 udp_address) in
    if protocol_type =? SOCKET_TYPE_UDP then
      let ep := put_field ep 0 (replicate 16 0) in
      let ep := put_field ep 0 (le_bytes 2 AF_INET) in
      let ep := put_field ep 2 port in
      (SIZEOF_SOCKADDR_IN, put_field ep 4 (take 4 (drop 3 udp_address)))
    else if protocol_type =? SOCKET_TYPE_UDPv6 then
      let ep := put_field ep 0 (replicate 28 0) in
      let ep := put_field ep 0 (le_bytes 2 AF_INET6) in
      let ep := put_field ep 2 port in
      (SIZEOF_SOCKADDR_IN6, put_field ep 8 (take 16 (drop 3 udp_address)))
    else (0, ep).

(** [socket_endpoint::to_udp_address]: the size of the address and the array it is written to *)
Definition to_udp_address (ep : socket_endpoint) (protocol_type : Z) (udp_address : list Z) : Z * list Z :=
  let udp_address := put_field udp_address 0 [protocol_type mod 256] in
  let udp_address := put_field udp_address 1 (sin_port ep) in
  if protocol_type =? SOCKET_TYPE_UDP
  then (7, put_field udp_address 3 (sin_addr ep))
  else (19, put_field udp_address 3 (sin6_addr ep)).

(** the protocols a UDP address can have *)
Definition udp_protocol (t : Z) : Prop := t = SOCKET_TYPE_UDP ∨ t = SOCKET_TYPE_UDPv6.
(** the bytes of an address of each protocol *)
Definition udp_address_len (t : Z) : nat := if t =? SOCKET_TYPE_UDP then 7 else 19.

Lemma from_udp_mismatch ep t addr : nth 0 addr 0 ≠ t → from_udp_address ep t addr = (0, ep).
Proof. intros H. unfold from_udp_address. by rewrite (proj2 (Z.eqb_neq _ _) H). Qed.

(** a byte list of a known length as its elements *)
Ltac split_bytes l :=
  repeat match goal with
  | H : length l = S _ |- _ => destruct l as [|? l]; [discriminate H|injection H as H]
  | H : length l = O |- _ => apply nil_length_inv in H; subst l
  end.

(** An endpoint written as a UDP address and read back is the same endpoint: the size is
    the size of its socket address, the family fits the protocol, and the port and the host
    address survive. Reading it with the other protocol fails without touching the endpoint. *)
Theorem udp_address_roundtrip ep ep0 t addr :
  udp_protocol t → length ep = 28%nat → length ep0 = 28%nat → length addr = 19%nat →
  let addr' := (to_udp_address ep t addr).2 in
  (to_udp_address ep t addr).1 = Z.of_nat (udp_address_len t) ∧ length addr' = 19%nat ∧
  (∀ i, (udp_address_len t <= i)%nat → addr' !! i = addr !! i) ∧
  let '(n, ep') := from_udp_address ep0 t addr' in
  n = (if t =? SOCKET_TYPE_UDP then SIZEOF_SOCKADDR_IN else SIZEOF_SOCKADDR_IN6) ∧
  sa_family ep' = (if t =? SOCKET_TYPE_UDP then AF_INET else AF_INET6) ∧
  sin_port ep' = sin_port ep ∧ host_addr ep' = (if t =? SOCKET_TYPE_UDP then sin_addr ep else sin6_addr ep) ∧
  ∀ t', t' ≠ t → from_udp_address ep0 t' addr' = (0, ep0).
Proof.
  intros Ht H1 H2 H3. split_bytes ep. split_bytes ep0. split_bytes addr.
  destruct Ht as [-> | ->]; simpl; (split_and!; [done..| |done|done|done|done|]).
  - intros i Hi. unfold udp_address_len in Hi; simpl in Hi. do 7 (destruct i as [|i]; [lia|]). done.
  - intros t' Ht'. apply from_udp_mismatch. by apply not_eq_sym.
  - intros i Hi. unfold udp_address_len in Hi; simpl in Hi. do 19 (destruct i as [|i]; [lia|]). done.
  - intros t' Ht'. apply from_udp_mismatch. by apply not_eq_sym.
Qed.

Lemma udp_address_roundtrip_witness :
  (from_udp_address endpoint_zero SOCKET_TYPE_UDP
     (to_udp_address (put_field endpoint_zero 2 [31; 144; 127; 0; 0; 1]) SOCKET_TYPE_UDP (replicate 19 0)).2).1
  = SIZEOF_SOCKADDR_IN.
Proof.
  refine (proj1 (proj2 (proj2 (proj2 (udp_address_roundtrip (put_field endpoint_zero 2 [31; 144; 127; 0; 0; 1])
           endpoint_zero SOCKET_TYPE_UDP (replicate 19 0) (or_introl eq_refl) eq_refl eq_refl eq_refl))))).
Defined.
