(* ===== verification/SocketCmd.v ===== *)
(** * Control commands (skynet-src/socket/socket_server_ctrl_cmd.h, .cpp; the sending and
    the decoding half of socket_server.cpp; skynet-src/socket/pipe)

    Worker threads do not touch the sockets: they write a command into a pipe that the
    socket thread reads. A command is a type byte, a length byte and the bytes of the
    request struct of its type, laid out by the compiler; the socket thread copies the
    bytes into a zeroed array and casts. The pipe is the queue of bytes the two ends share. *)
From Stdlib Require Import Ascii String.
From S2P Require Import Prelude Bytes Text SocketObject SocketEndpoint.
Open Scope string_scope.
Open Scope Z_scope.

Definition TCP_NODELAY : Z := 1.

(** the code of a character literal *)
Definition ch (c : ascii) : Z := char_code c.

(** [struct ctrl_cmd_package]: the header and the union [u], as bytes *)
Record ctrl_cmd_package := mkPkg { cp_header : list Z; cp_u : list Z }.
#[export] Instance eta_ctrl_cmd_package : Eta ctrl_cmd_package := λ r, mkPkg (cp_header r) (cp_u r).
Definition ctrl_cmd_package_default : ctrl_cmd_package := mkPkg (replicate 8 0) (replicate 256 0).

(** sizes of the request structs *)
Definition SIZEOF_listen : Z := 16.
Definition SIZEOF_connect : Z := 16.
Definition SIZEOF_send : Z := 24.
Definition SIZEOF_set_udp : Z := 24.
Definition SIZEOF_close : Z := 12.
Definition SIZEOF_bind_os_fd : Z := 12.
Definition SIZEOF_resume_pause : Z := 8.
Definition SIZEOF_set_opt : Z := 12.
Definition SIZEOF_udp_socket : Z := 16.

(** an [int] or [uint32_t] field; a [size_t] or pointer field *)
Definition put4 (cmd : ctrl_cmd_package) (off : nat) (z : Z) : ctrl_cmd_package :=
  cmd <| cp_u := put_field (cp_u cmd) off (le_bytes 4 z) |>.
Definition put8 (cmd : ctrl_cmd_package) (off : nat) (z : Z) : ctrl_cmd_package :=
  cmd <| cp_u := put_field (cp_u cmd) off (le_bytes 8 z) |>.
(** [cmd.header[6] = type; cmd.header[7] = (uint8_t)len;] *)
Definition set_header (cmd : ctrl_cmd_package) (type len : Z) : ctrl_cmd_package :=
  cmd <| cp_header := put_field (cp_header cmd) 6 [type mod 256; len mod 256] |>.

Definition prepare_ctrl_cmd_request_resume (cmd : ctrl_cmd_package) (svc_handle socket_id : Z) : Z * ctrl_cmd_package :=
  let cmd := put4 cmd 0 socket_id in
  let cmd := put4 cmd 4 svc_handle in
  (SIZEOF_resume_pause, set_header cmd (ch "R") SIZEOF_resume_pause).

Definition prepare_ctrl_cmd_request_pause (cmd : ctrl_cmd_package) (svc_handle socket_id : Z) : Z * ctrl_cmd_package :=
  let cmd := put4 cmd 0 socket_id in
  let cmd := put4 cmd 4 svc_handle in
  (SIZEOF_resume_pause, set_header cmd (ch "S") SIZEOF_resume_pause).

Definition prepare_ctrl_cmd_request_close (cmd : ctrl_cmd_package) (svc_handle socket_id : Z) : Z * ctrl_cmd_package :=
  let cmd := put4 cmd 0 socket_id in
  let cmd := put4 cmd 4 0 in
  let cmd := put4 cmd 8 svc_handle in
  (SIZEOF_close, set_header cmd (ch "K") SIZEOF_close).

Definition prepare_ctrl_cmd_request_shutdown (cmd : ctrl_cmd_package) (svc_handle socket_id : Z) : Z * ctrl_cmd_package :=
  let cmd := put4 cmd 0 socket_id in
  let cmd := put4 cmd 4 1 in
  let cmd := put4 cmd 8 svc_handle in
  (SIZEOF_close, set_header cmd (ch "K") SIZEOF_close).

(** -1 when the host does not fit, with the text of the log message *)
Definition prepare_ctrl_cmd_request_connect (cmd : ctrl_cmd_package) (svc_handle socket_id : Z)
    (remote_ip : string) (remote_port : Z) : Z * ctrl_cmd_package * option string :=
  let len := strlen remote_ip in
  if 256 <=? SIZEOF_connect + len
  then (-1, cmd, Some ("socket-server : Invalid addr " ++ remote_ip ++ "."))
  else
    let cmd := put4 cmd 8 svc_handle in
    let cmd := put4 cmd 0 socket_id in
    let cmd := put4 cmd 4 remote_port in
    let cmd := cmd <| cp_u := put_field (cp_u cmd) 12 (bytes_of remote_ip) |> in
    let cmd := cmd <| cp_u := put_field (cp_u cmd) (12 + String.length remote_ip) [0] |> in
    let len := len + SIZEOF_connect in
    (len, set_header cmd (ch "O") len, None).

Definition prepare_ctrl_cmd_request_bind (cmd : ctrl_cmd_package) (svc_handle socket_id os_fd : Z) : Z * ctrl_cmd_package :=
  let cmd := put4 cmd 8 svc_handle in
  let cmd := put4 cmd 0 socket_id in
  let cmd := put4 cmd 4 os_fd in
  (SIZEOF_bind_os_fd, set_header cmd (ch "B") SIZEOF_bind_os_fd).

Definition prepare_ctrl_cmd_request_listen (cmd : ctrl_cmd_package) (svc_handle socket_id listen_fd : Z) : Z * ctrl_cmd_package :=
  let cmd := put4 cmd 8 svc_handle in
  let cmd := put4 cmd 0 socket_id in
  let cmd := put4 cmd 4 listen_fd in
  (SIZEOF_listen, set_header cmd (ch "L") SIZEOF_listen).

(** [data_size] is already in the package: [clone_send_data] writes it there *)
Definition prepare_ctrl_cmd_request_send (cmd : ctrl_cmd_package) (socket_id sd_ptr : Z) (is_high : bool) : Z * ctrl_cmd_package :=
  let cmd := put4 cmd 0 socket_id in
  let cmd := put8 cmd 16 sd_ptr in
  (SIZEOF_send, set_header cmd (if is_high then ch "D" else ch "P") SIZEOF_send).

Definition prepare_ctrl_cmd_request_trigger_write (cmd : ctrl_cmd_package) (socket_id : Z) : Z * ctrl_cmd_package :=
  let cmd := put4 cmd 0 socket_id in
  let cmd := put8 cmd 8 0 in
  let cmd := put8 cmd 16 0 in
  (SIZEOF_send, set_header cmd (ch "W") SIZEOF_send).

Definition prepare_ctrl_cmd_request_set_opt (cmd : ctrl_cmd_package) (socket_id : Z) : Z * ctrl_cmd_package :=
  let cmd := put4 cmd 0 socket_id in
  let cmd := put4 cmd 4 TCP_NODELAY in
  let cmd := put4 cmd 8 1 in
  (SIZEOF_set_opt, set_header cmd (ch "T") SIZEOF_set_opt).

Definition prepare_ctrl_cmd_request_udp_socket (cmd : ctrl_cmd_package) (svc_handle socket_id socket_fd family : Z) : Z * ctrl_cmd_package :=
  let cmd := put4 cmd 12 svc_handle in
  let cmd := put4 cmd 0 socket_id in
  let cmd := put4 cmd 4 socket_fd in
  let cmd := put4 cmd 8 family in
  (SIZEOF_udp_socket, set_header cmd (ch "U") SIZEOF_udp_socket).

Definition prepare_ctrl_cmd_request_set_udp (cmd : ctrl_cmd_package) (socket_id socket_type : Z) (endpoint : socket_endpoint) : Z * ctrl_cmd_package :=
  let cmd := put4 cmd 0 socket_id in
  let '(addr_sz, address) := to_udp_address endpoint socket_type (take 19 (drop 4 (cp_u cmd))) in
  let cmd := cmd <| cp_u := put_field (cp_u cmd) 4 address |> in
  let len := SIZEOF_set_udp - UDP_ADDRESS_SIZE + addr_sz in
  (len, set_header cmd (ch "C") len).

Definition prepare_ctrl_cmd_request_send_udp (cmd : ctrl_cmd_package) (socket_id sd_ptr : Z) (udp_address : list Z) (addr_sz : Z) : Z * ctrl_cmd_package :=
  let cmd := put4 cmd 0 socket_id in
  let cmd := put8 cmd 16 sd_ptr in
  let cmd := cmd <| cp_u := put_field (cp_u cmd) 24 (take (Z.to_nat addr_sz) udp_address) |> in
  let len := SIZEOF_send + addr_sz in
  (len, set_header cmd (ch "A") len).

(** ** The pipe *)

(** the bytes [_send_ctrl_cmd] writes: the type, the length and that many bytes of [u] *)
Definition ctrl_cmd_wire (cmd : ctrl_cmd_package) : list Z :=
  let data_len := nth 7 (cp_header cmd) 0 in
  (drop 6 (cp_header cmd) ++ take (Z.to_nat data_len) (cp_u cmd))%list.

(** [pipe::read]: all [sz] bytes at once, or the [assert] fails *)
Definition pipe_read (pipe : list Z) (sz : Z) : result (list Z * list Z) :=
  massert (sz <=? Z.of_nat (length pipe));;;
  Ok (take (Z.to_nat sz) pipe, drop (Z.to_nat sz) pipe).

(** ** Decoding: the [switch] of [handle_ctrl_cmd] and its casts *)

Inductive ctrl_cmd :=
  | CmdResume (socket_id svc_handle : Z)
  | CmdPause (socket_id svc_handle : Z)
  | CmdBind (socket_id os_fd svc_handle : Z)
  | CmdListen (socket_id socket_fd svc_handle : Z)
  | CmdClose (socket_id shutdown svc_handle : Z)
  | CmdConnect (socket_id port svc_handle : Z) (host : string)
  | CmdExit
  | CmdTriggerWrite (socket_id data_size data_ptr : Z)
  | CmdSend (is_high : bool) (socket_id data_size data_ptr : Z)
  | CmdSendUdp (socket_id data_size data_ptr : Z) (address : list Z)
  | CmdSetUdp (socket_id : Z) (address : list Z)
  | CmdSetOpt (socket_id what value : Z)
  | CmdUdpSocket (socket_id socket_fd family svc_handle : Z)
  | CmdUnknown (type : Z).

Definition decode_ctrl_cmd (type : Z) (buf : list Z) : ctrl_cmd :=
  if type =? ch "R" then CmdResume (get_s32 buf 0) (get_u32 buf 4)
  else if type =? ch "S" then CmdPause (get_s32 buf 0) (get_u32 buf 4)
  else if type =? ch "B" then CmdBind (get_s32 buf 0) (get_s32 buf 4) (get_u32 buf 8)
  else if type =? ch "L" then CmdListen (get_s32 buf 0) (get_s32 buf 4) (get_u32 buf 8)
  else if type =? ch "K" then CmdClose (get_s32 buf 0) (get_s32 buf 4) (get_u32 buf 8)
  else if type =? ch "O" then CmdConnect (get_s32 buf 0) (get_s32 buf 4) (get_u32 buf 8) (string_of_bytes (c_str (drop 12 buf)))
  else if type =? ch "X" then CmdExit
  else if type =? ch "W" then CmdTriggerWrite (get_s32 buf 0) (get_u64 buf 8) (get_u64 buf 16)
  else if type =? ch "D" then CmdSend true (get_s32 buf 0) (get_u64 buf 8) (get_u64 buf 16)
  else if type =? ch "P" then CmdSend false (get_s32 buf 0) (get_u64 buf 8) (get_u64 buf 16)
  else if type =? ch "A" then CmdSendUdp (get_s32 buf 0) (get_u64 buf 8) (get_u64 buf 16) (take 19 (drop 24 buf))
  else if type =? ch "C" then CmdSetUdp (get_s32 buf 0) (take 19 (drop 4 buf))
  else if type =? ch "T" then CmdSetOpt (get_s32 buf 0) (get_s32 buf 4) (get_s32 buf 8)
  else if type =? ch "U" then CmdUdpSocket (get_s32 buf 0) (get_s32 buf 4) (get_s32 buf 8) (get_u32 buf 12)
  else CmdUnknown type.

(** the two reads of [handle_ctrl_cmd] into zeroed arrays, and the decoded command *)
Definition read_ctrl_cmd (pipe : list Z) : result (ctrl_cmd * list Z) :=
  let* (header, pipe) := pipe_read pipe 2 in
  let type := nth 0 header 0 in
  let len := nth 1 header 0 in
  let* (data, pipe) := pipe_read pipe len in
  Ok (decode_ctrl_cmd type (put_field (replicate 256 0) 0 data), pipe).

(** ** Round trip *)

(** the command a package asks for, for each [prepare_ctrl_cmd_request_*] called on a new
    package, and for the package [exit] sends as it is *)
Inductive prepared : ctrl_cmd → ctrl_cmd_package → Prop :=
  | P_resume id h : is_s32 id → is_u32 h →
      prepared (CmdResume id h) (prepare_ctrl_cmd_request_resume ctrl_cmd_package_default h id).2
  | P_pause id h : is_s32 id → is_u32 h →
      prepared (CmdPause id h) (prepare_ctrl_cmd_request_pause ctrl_cmd_package_default h id).2
  | P_close id h : is_s32 id → is_u32 h →
      prepared (CmdClose id 0 h) (prepare_ctrl_cmd_request_close ctrl_cmd_package_default h id).2
  | P_shutdown id h : is_s32 id → is_u32 h →
      prepared (CmdClose id 1 h) (prepare_ctrl_cmd_request_shutdown ctrl_cmd_package_default h id).2
  | P_connect id h host port : is_s32 id → is_u32 h → 0 <= port < 2 ^ 16 →
      strlen host < 240 → Forall (λ b, b ≠ 0) (bytes_of host) →
      prepared (CmdConnect id port h host)
        (prepare_ctrl_cmd_request_connect ctrl_cmd_package_default h id host port).1.2
  | P_bind id h fd : is_s32 id → is_u32 h → is_s32 fd →
      prepared (CmdBind id fd h) (prepare_ctrl_cmd_request_bind ctrl_cmd_package_default h id fd).2
  | P_listen id h fd : is_s32 id → is_u32 h → is_s32 fd →
      prepared (CmdListen id fd h) (prepare_ctrl_cmd_request_listen ctrl_cmd_package_default h id fd).2
  | P_send id size p high : is_s32 id → is_u64 size → is_u64 p →
      prepared (CmdSend high id size p)
        (prepare_ctrl_cmd_request_send (put8 ctrl_cmd_package_default 8 size) id p high).2
  | P_trigger id : is_s32 id →
      prepared (CmdTriggerWrite id 0 0) (prepare_ctrl_cmd_request_trigger_write ctrl_cmd_package_default id).2
  | P_set_opt id : is_s32 id →
      prepared (CmdSetOpt id TCP_NODELAY 1) (prepare_ctrl_cmd_request_set_opt ctrl_cmd_package_default id).2
  | P_udp_socket id h fd family : is_s32 id → is_u32 h → is_s32 fd → is_s32 family →
      prepared (CmdUdpSocket id fd family h)
        (prepare_ctrl_cmd_request_udp_socket ctrl_cmd_package_default h id fd family).2
  | P_set_udp id t ep : is_s32 id → udp_protocol t → length ep = 28%nat →
      prepared (CmdSetUdp id (to_udp_address ep t (replicate 19 0)).2)
        (prepare_ctrl_cmd_request_set_udp ctrl_cmd_package_default id t ep).2
  | P_send_udp id size p address t : is_s32 id → is_u64 size → is_u64 p → udp_protocol t → length address = 19%nat →
      prepared (CmdSendUdp id size p
                  (take (udp_address_len t) address ++ replicate (19 - udp_address_len t) 0))
        (prepare_ctrl_cmd_request_send_udp (put8 ctrl_cmd_package_default 8 size) id p address
           (Z.of_nat (udp_address_len t))).2
  | P_exit : prepared (CmdUnknown 0) ctrl_cmd_package_default.

Lemma pipe_read_app l rest sz : Z.of_nat (length l) = sz → pipe_read (l ++ rest) sz = Ok (l, rest).
Proof.
  intros <-. unfold pipe_read, massert. rewrite length_app, (proj2 (Z.leb_le _ _)) by lia.
  by rewrite Nat2Z.id, bind_Ok, take_app_length, drop_app_length.
Qed.

(** a package of the given type and length is read back as its bytes *)
Lemma read_ctrl_cmd_wire cmd type len rest : length (cp_u cmd) = 256%nat → 0 <= type < 256 → 0 <= len < 256 →
  drop 6 (cp_header cmd) = [type; len] →
  read_ctrl_cmd (ctrl_cmd_wire cmd ++ rest) =
    Ok (decode_ctrl_cmd type (take (Z.to_nat len) (cp_u cmd) ++ replicate (256 - Z.to_nat len) 0), rest).
Proof.
  intros Hu Ht Hl Hh. unfold read_ctrl_cmd, ctrl_cmd_wire. rewrite Hh.
  assert (Hn : nth 7 (cp_header cmd) 0 = len).
  { destruct (cp_header cmd) as [|? [|? [|? [|? [|? [|? [|? [|? r]]]]]]]]; try discriminate Hh. simpl in Hh. by injection Hh as _ -> _. }
  rewrite Hn. rewrite <- app_assoc. rewrite (pipe_read_app [type; len]) by done. rewrite bind_Ok.
  cbn [nth]. rewrite (pipe_read_app (take _ _)) by (rewrite length_take; lia). rewrite bind_Ok.
  unfold put_field. rewrite length_take, take_0, drop_replicate. cbn [app Nat.add].
  replace (Z.to_nat len `min` length (cp_u cmd))%nat with (Z.to_nat len) by lia. done.
Qed.

Lemma set_header_drop cmd type len : length (cp_header cmd) = 8%nat →
  drop 6 (cp_header (set_header cmd type len)) = [type mod 256; len mod 256].
Proof. intros H. destruct cmd as [h u]; simpl in *. by split_bytes h. Qed.

Lemma take_drop_take {A} (l r : list A) n off k : (off + k <= n)%nat → (n <= length l)%nat →
  take k (drop off (take n l ++ r)) = take k (drop off l).
Proof.
  intros H1 H2. apply list_eq. intros i. destruct (decide (i < k)%nat) as [Hi|Hi].
  2: { rewrite !lookup_take_ge by lia. done. }
  rewrite !(lookup_take_lt (drop _ _)) by lia. rewrite !lookup_drop.
  rewrite lookup_app_l by (rewrite length_take; lia). by rewrite lookup_take_lt by lia.
Qed.

Lemma s32_le z : is_s32 z → s32 (le_value (le_bytes 4 z)) = z.
Proof. intros. rewrite le_value_u32, s32_u32. by apply s32_small. Qed.
Lemma u32_le z : is_u32 z → le_value (le_bytes 4 z) = z.
Proof. intros. rewrite le_value_u32. by apply u32_small. Qed.
Lemma u64_le z : is_u64 z → le_value (le_bytes 8 z) = z.
Proof. intros. rewrite le_value_u64. by apply u64_small. Qed.

(** side conditions on lengths, and the reading of a field through the writes of others *)
Ltac len := repeat (rewrite ?put_field_length, ?le_bytes_length, ?length_replicate by len); simpl; lia.
Ltac fields :=
  repeat first
    [ rewrite put_field_same by len
    | rewrite put_field_other by len ].

(** replace a closed term by its value *)
Ltac eval_in t := let v := eval vm_compute in t in change t with v.

(** decode a package of a fixed length: select the case, then read each field *)
Ltac decode_case :=
  unfold decode_ctrl_cmd;
  repeat match goal with |- context [if ?b then _ else _] => eval_in b; cbv iota end.
Ltac read_fields :=
  unfold get_s32, get_u32, get_u64;
  rewrite ?take_drop_take by len;
  cbv beta zeta delta [prepare_ctrl_cmd_request_resume prepare_ctrl_cmd_request_pause prepare_ctrl_cmd_request_close
    prepare_ctrl_cmd_request_shutdown prepare_ctrl_cmd_request_bind prepare_ctrl_cmd_request_listen
    prepare_ctrl_cmd_request_send prepare_ctrl_cmd_request_trigger_write prepare_ctrl_cmd_request_set_opt
    prepare_ctrl_cmd_request_udp_socket put4 put8 set_header];
  cbn [fst snd cp_u set_to]; fields; rewrite ?s32_le, ?u32_le, ?u64_le by (done || vm_compute; done).
Ltac fixed_length :=
  erewrite read_ctrl_cmd_wire; [|len|apply Z.mod_pos_bound; lia|apply Z.mod_pos_bound; lia|apply set_header_drop; done];
  match goal with |- context [Z.to_nat ?n] => eval_in (Z.to_nat n) end;
  decode_case; read_fields; done.

Lemma put_field_chain u off l1 l2 : (off + length l1 <= length u)%nat →
  put_field (put_field u off l1) (off + length l1) l2 =
  (take off u ++ l1 ++ l2 ++ drop (off + length l1 + length l2) u)%list.
Proof.
  intros Hl. unfold put_field at 1.
  assert (Ht : take (off + length l1) (put_field u off l1) = (take off u ++ l1)%list).
  { unfold put_field. rewrite (app_assoc (take off u)). rewrite take_app_length'; [done|].
    rewrite length_app, length_take. lia. }
  rewrite Ht, <- !app_assoc. do 3 f_equal. unfold put_field. rewrite (app_assoc (take off u)).
  rewrite drop_app_ge by (rewrite length_app, length_take; lia). rewrite length_app, length_take, drop_drop. f_equal. lia.
Qed.

Lemma connect_roundtrip id h host port rest : is_s32 id → is_u32 h → 0 <= port < 2 ^ 16 →
  strlen host < 240 → Forall (λ b, b ≠ 0) (bytes_of host) →
  read_ctrl_cmd (ctrl_cmd_wire (prepare_ctrl_cmd_request_connect ctrl_cmd_package_default h id host port).1.2 ++ rest)
  = Ok (CmdConnect id port h host, rest).
Proof.
  intros Hid Hh Hport Hlen Hnul. unfold prepare_ctrl_cmd_request_connect, SIZEOF_connect.
  assert (H0 : 0 <= strlen host) by (unfold strlen; lia).
  rewrite (proj2 (Z.leb_gt _ _)) by lia. cbn [fst snd].
  set (u0 := cp_u (put4 (put4 (put4 ctrl_cmd_package_default 8 h) 0 id) 4 port)).
  assert (Hu0 : length u0 = 256%nat) by (unfold u0, put4; simpl; len).
  assert (Hb : length (bytes_of host) = Z.to_nat (strlen host)) by (pose proof (bytes_of_length host); lia).
  assert (Hchain : put_field (put_field u0 12 (bytes_of host)) (12 + String.length host) [0] =
            (take 12 u0 ++ bytes_of host ++ [0] ++ drop (12 + length (bytes_of host) + 1) u0)%list).
  { replace (String.length host) with (length (bytes_of host)) by (rewrite Hb; unfold strlen; lia). apply put_field_chain. lia. }
  erewrite read_ctrl_cmd_wire; [| |apply Z.mod_pos_bound; lia|apply Z.mod_pos_bound; lia|apply set_header_drop; done].
  2: { cbn [cp_u set_to set_header]. fold u0. rewrite Hchain, !length_app, length_take, length_drop. simpl. lia. }
  rewrite (Z.mod_small (strlen host + 16)) by lia. decode_case. cbn [cp_u set_to set_header]. fold u0.
  rewrite Hchain. clear Hchain.
  assert (Hbuf : ∃ X, (take (Z.to_nat (strlen host + 16))
      (take 12 u0 ++ bytes_of host ++ [0] ++ drop (12 + length (bytes_of host) + 1) u0) ++
      replicate (256 - Z.to_nat (strlen host + 16)) 0 = take 12 u0 ++ bytes_of host ++ 0 :: X)%list).
  { rewrite take_app_ge, take_app_ge, take_app_ge by (rewrite ?length_take; simpl; lia).
    rewrite <- !app_assoc. simpl. eexists. done. }
  destruct Hbuf as [X ->]. unfold get_s32, get_u32. rewrite !take_drop_take by lia.
  rewrite (drop_app_length' (take 12 u0)) by (rewrite length_take; lia).
  rewrite c_str_app, string_of_bytes_of by done.
  unfold u0, put4. cbn [cp_u set_to]. fields. by rewrite !s32_le, u32_le by (unfold is_s32; lia || done).
Qed.

Lemma set_udp_roundtrip id tp ep rest : is_s32 id → udp_protocol tp → length ep = 28%nat →
  read_ctrl_cmd (ctrl_cmd_wire (prepare_ctrl_cmd_request_set_udp ctrl_cmd_package_default id tp ep).2 ++ rest)
  = Ok (CmdSetUdp id (to_udp_address ep tp (replicate 19 0)).2, rest).
Proof.
  intros Hid [-> | ->] Hep; split_bytes ep.
  - erewrite (read_ctrl_cmd_wire _ 67 12); [|done..]. decode_case. unfold get_s32, get_u32.
    match goal with |- context [le_value ?x] => change x with (le_bytes 4 id) end. by rewrite s32_le.
  - erewrite (read_ctrl_cmd_wire _ 67 24); [|done..]. decode_case. unfold get_s32, get_u32.
    match goal with |- context [le_value ?x] => change x with (le_bytes 4 id) end. by rewrite s32_le.
Qed.

Lemma send_udp_roundtrip id size p address tp rest :
  is_s32 id → is_u64 size → is_u64 p → udp_protocol tp → length address = 19%nat →
  read_ctrl_cmd (ctrl_cmd_wire (prepare_ctrl_cmd_request_send_udp (put8 ctrl_cmd_package_default 8 size) id p address
    (Z.of_nat (udp_address_len tp))).2 ++ rest)
  = Ok (CmdSendUdp id size p (take (udp_address_len tp) address ++ replicate (19 - udp_address_len tp) 0), rest).
Proof.
  intros Hid Hsize Hp Htp Ha. rewrite <- (s32_le id Hid) at 2. rewrite <- (u64_le size Hsize) at 2.
  rewrite <- (u64_le p Hp) at 2.
  destruct Htp as [-> | ->]; split_bytes address.
  - by erewrite (read_ctrl_cmd_wire _ 65 31); [|done..].
  - by erewrite (read_ctrl_cmd_wire _ 65 43); [|done..].
Qed.

Lemma read_prepared c pkg rest : prepared c pkg →
  read_ctrl_cmd (ctrl_cmd_wire pkg ++ rest) = Ok (c, rest).
Proof.
  destruct 1.
  5: by apply connect_roundtrip.
  7: destruct high; fixed_length.
  1-9: fixed_length.
  - by apply set_udp_roundtrip.
  - by apply send_udp_roundtrip.
  - by erewrite (read_ctrl_cmd_wire _ 0 0); [|done..].
Qed.

(** C23: Every control command survives the pipe: whatever package a worker prepares and
    writes, the socket thread reads exactly its bytes and decodes the request with the same
    arguments, and what follows in the pipe is untouched. (The package [exit] sends is the
    exception that proves it: it arrives as a command of type 0, not as the exit command.) *)
Theorem ctrl_cmd_roundtrip c pkg rest : prepared c pkg →
  read_ctrl_cmd (ctrl_cmd_wire pkg ++ rest) = Ok (c, rest).
Proof. apply read_prepared. Qed.

Lemma ctrl_cmd_roundtrip_witness :
  read_ctrl_cmd (ctrl_cmd_wire (prepare_ctrl_cmd_request_close ctrl_cmd_package_default 8 5).2 ++ [0])
  = Ok (CmdClose 5 0 8, [0]).
Proof. apply ctrl_cmd_roundtrip. apply P_close; (split; [discriminate|reflexivity]). Defined.
