(* ===== verification/SocketState.v ===== *)
(** * The state of the socket server and its environment
    (skynet-src/socket: socket_server.h, socket_buffer.h, socket_lock.cpp, poller/poller.h,
    poller/poller_epoll.cpp, pipe/pipe.cpp, utils/socket_helper.inl)

    The server is a record of the fields of [class socket_server], the heap its pointers
    point into and the state of the kernel. Its operations are computations [M] that read
    and change this state or stop with a fault. System calls go to a [Kernel]: what a call
    returns and how it changes the kernel is a parameter of the model. *)
From Stdlib Require Import String.
From S2P Require Import Prelude Bytes Text SocketObject SocketEndpoint SocketCmd.
Open Scope string_scope.
Open Scope Z_scope.

(** ** System calls *)

Record addrinfo := mkAi { ai_family : Z; ai_socktype : Z; ai_protocol : Z; ai_addr : socket_endpoint }.

Inductive syscall :=
  | SysPipe
  | SysEpollCreate
  | SysEpollAdd (fd : Z) (ud : option Z)
  | SysEpollMod (fd : Z) (ud : option Z) (events : Z)
  | SysEpollDel (fd : Z)
  | SysEpollWait (max_events : Z)
  | SysSocket (family socktype protocol : Z)
  | SysSetsockopt (fd level opt value : Z)
  | SysGetsockoptError (fd : Z)
  | SysFcntlGetfl (fd : Z)
  | SysFcntlSetfl (fd flags : Z)
  | SysBind (fd : Z) (addr : socket_endpoint)
  | SysListen (fd backlog : Z)
  | SysAccept (fd : Z)
  | SysConnect (fd : Z) (addr : socket_endpoint)
  | SysGetsockname (fd : Z)
  | SysGetpeername (fd : Z)
  | SysGetaddrinfo (host port : string) (family socktype protocol : Z)
  | SysRead (fd sz : Z)
  | SysWrite (fd : Z) (data : list Z)
  | SysRecvfrom (fd sz : Z)
  | SysSendto (fd : Z) (data : list Z) (addr : socket_endpoint) (addr_sz : Z)
  | SysShutdown (fd how : Z)
  | SysClose (fd : Z).

(** what a call returns: its value, [errno] when the value is -1, and its out parameters *)
Record sysret := mkRet {
  sr_ret : Z;
  sr_errno : Z;
  sr_data : list Z;
  sr_value : Z;
  sr_endpoint : socket_endpoint;
  sr_addrs : list addrinfo;
  sr_events : list (option Z * Z)
}.

Class Kernel (K : Type) := {
  kernel : syscall → K → sysret * K;
  strerror : Z → string;
  gai_strerror : Z → string;
  inet_ntop : Z → list Z → option string
}.

Definition EINTR : Z := 4.
Definition EAGAIN : Z := 11.
Definition ENFILE : Z := 23.
Definition EMFILE : Z := 24.
Definition EINPROGRESS : Z := 115.
(** [EWOULDBLOCK] is [EAGAIN] on Linux *)
Definition AGAIN_WOULDBLOCK : Z := EAGAIN.

Definition AF_UNSPEC : Z := 0.
Definition SOCK_STREAM : Z := 1.
Definition SOCK_DGRAM : Z := 2.
Definition IPPROTO_TCP : Z := 6.
Definition IPPROTO_UDP : Z := 17.
Definition SOL_SOCKET : Z := 1.
Definition SO_REUSEADDR : Z := 2.
Definition SO_KEEPALIVE : Z := 9.
Definition O_NONBLOCK : Z := 2048.
Definition SHUT_RD : Z := 0.
Definition SHUT_WR : Z := 1.
Definition EPOLLIN : Z := 1.
Definition EPOLLOUT : Z := 4.
Definition EPOLLERR : Z := 8.
Definition EPOLLHUP : Z := 16.

(** ** Messages and requests *)

(** [enum socket_event]; the operations return an event or -1 *)
Definition SOCKET_EVENT_DATA : Z := 0.
Definition SOCKET_EVENT_CLOSE : Z := 1.
Definition SOCKET_EVENT_OPEN : Z := 2.
Definition SOCKET_EVENT_ACCEPT : Z := 3.
Definition SOCKET_EVENT_ERROR : Z := 4.
Definition SOCKET_EVENT_EXIT : Z := 5.
Definition SOCKET_EVENT_UDP : Z := 6.
Definition SOCKET_EVENT_WARNING : Z := 7.
Definition SOCKET_EVENT_RST : Z := 8.

(** what [socket_message::data_ptr] points to: nothing, a text, the server's
    [addr_tmp_buf_], or a block of the heap *)
Inductive data_ref :=
  | DNull
  | DText (s : string)
  | DAddrBuf
  | DBlock (p : Z).

(** [struct socket_message] *)
Record socket_message := mkSm { sm_socket_id : Z; sm_svc_handle : Z; sm_ud : Z; sm_data_ptr : data_ref }.
#[export] Instance eta_socket_message : Eta socket_message := λ r,
  mkSm (sm_socket_id r) (sm_svc_handle r) (sm_ud r) (sm_data_ptr r).
Definition socket_message_default : socket_message := mkSm 0 0 0 DNull.

(** [enum send_data_type], [struct send_data] *)
Definition SEND_DATA_TYPE_MEMORY : Z := 0.
Definition SEND_DATA_TYPE_USER_OBJECT : Z := 1.
Definition SEND_DATA_TYPE_USER_DATA : Z := 2.
Definition USER_OBJECT_TAG : Z := 2 ^ 64 - 1.

Record send_data := mkSd { sd_socket_id : Z; sd_type : Z; sd_data_ptr : Z; sd_data_size : Z }.

(** [send_user_object::free_func], a function pointer: never assigned, a lambda that does
    nothing, or [nullptr] *)
Inductive free_fn := FreeUninit | FreeNothing | FreeNull.
(** [struct send_user_object] *)
Record send_user_object := mkSo { suo_buffer : pointer; suo_sz : Z; suo_free : free_fn }.

(** [struct poller::event] *)
Record event := mkEv { ev_socket : option Z; ev_is_readable : bool; ev_is_writeable : bool; ev_is_error : bool; ev_is_eof : bool }.
#[export] Instance eta_event : Eta event := λ r,
  mkEv (ev_socket r) (ev_is_readable r) (ev_is_writeable r) (ev_is_error r) (ev_is_eof r).

Definition MAX_WAIT_EVENT : Z := 64.
Definition ADDR_TMP_BUFFER_SIZE : Z := 128.
Definition MAX_UDP_PACKAGE : Z := 64 * 1024.
Definition MIN_READ_BUFFER : Z := 64.
Definition WARNING_SIZE : Z := 1024 * 1024.

(** ** The server *)

(** [class socket_server]. [sv_result] is the message the caller of [poll_socket_event]
    passed in; the heap has the write buffers and the blocks of bytes; [sv_log] are the
    texts given to [log_error]. *)
Record server (K : Type) := mkServer {
  sv_poll_fd : Z;
  sv_read_fd : Z;
  sv_write_fd : Z;
  sv_time_ticks : Z;
  sv_pipe : list Z;
  sv_need_check_ctrl_cmd : bool;
  sv_events : list event;
  sv_event_wait_n : Z;
  sv_event_next_index : Z;
  sv_pool : socket_object_pool;
  sv_addr_tmp_buf : string;
  sv_result : socket_message;
  sv_wbs : gmap Z write_buffer;
  sv_blocks : gmap Z (list Z);
  sv_next : Z;
  sv_log : list string;
  sv_errno : Z;
  sv_os : K
}.
Arguments mkServer {K}.
Arguments sv_poll_fd {K}. Arguments sv_read_fd {K}. Arguments sv_write_fd {K}.
Arguments sv_time_ticks {K}. Arguments sv_pipe {K}. Arguments sv_need_check_ctrl_cmd {K}.
Arguments sv_events {K}. Arguments sv_event_wait_n {K}. Arguments sv_event_next_index {K}.
Arguments sv_pool {K}. Arguments sv_addr_tmp_buf {K}. Arguments sv_result {K}. Arguments sv_wbs {K}.
Arguments sv_blocks {K}. Arguments sv_next {K}. Arguments sv_log {K}. Arguments sv_errno {K}. Arguments sv_os {K}.

#[export] Instance eta_server K : Eta (server K) := λ r,
  mkServer (sv_poll_fd r) (sv_read_fd r) (sv_write_fd r) (sv_time_ticks r) (sv_pipe r) (sv_need_check_ctrl_cmd r) (sv_events r) (sv_event_wait_n r)
    (sv_event_next_index r) (sv_pool r) (sv_addr_tmp_buf r) (sv_result r) (sv_wbs r) (sv_blocks r)
    (sv_next r) (sv_log r) (sv_errno r) (sv_os r).

(** computations on the server *)
Definition M (K A : Type) : Type := server K → result (A * server K).

#[export] Instance M_ret K : MRet (M K) := λ A a s, Ok (a, s).
#[export] Instance M_bind K : MBind (M K) := λ A B k m s, let* (a, s) := m s in k a s.

Section memory.
Context {K : Type}.

Definition gets {A} (f : server K → A) : M K A := λ s, Ok (f s, s).
Definition modify (f : server K → server K) : M K unit := λ s, Ok (tt, f s).
Definition lift {A} (r : result A) : M K A := λ s, a <- r;; Ok (a, s).
Definition mfail {A} (f : fault) : M K A := λ _, Err f.
Definition check (b : bool) : M K unit := lift (massert b).

(** the socket object a pointer refers to (its index in the array), and a change of it *)
Definition sock (i : Z) : M K socket_object := gets (λ s, socket_at (sv_pool s) i).
Definition upd_sock (i : Z) (f : socket_object → socket_object) : M K unit :=
  modify (λ s, s <| sv_pool := put_at (sv_pool s) i (f (socket_at (sv_pool s) i)) |>).

Definition set_result_msg (m : socket_message) : M K unit := modify (λ s, s <| sv_result := m |>).
Definition upd_result (f : socket_message → socket_message) : M K unit :=
  modify (λ s, s <| sv_result := f (sv_result s) |>).

(** [log_error(nullptr, msg)] *)
Definition log_error_msg (msg : string) : M K unit := modify (λ s, s <| sv_log := (sv_log s ++ [msg])%list |>).

(** [new char[n]] with these contents; [delete[] p] *)
Definition new_block (bytes : list Z) : M K Z := λ s,
  Ok (sv_next s, s <| sv_next := sv_next s + 1 |> <| sv_blocks := <[sv_next s := bytes]> (sv_blocks s) |>).
Definition delete_block (p : Z) : M K unit := λ s,
  if p =? 0 then Ok (tt, s)
  else match sv_blocks s !! p with
       | Some _ => Ok (tt, s <| sv_blocks := delete p (sv_blocks s) |>)
       | None => Err DoubleFree
       end.

(** [n] bytes read from a pointer *)
Definition load (p : pointer) (n : Z) : M K (list Z) := λ s,
  if n <=? 0 then Ok ([], s)
  else if is_null (p_block p) then Err NullDeref
  else match sv_blocks s !! p_block p with
       | None => Err UseAfterFree
       | Some b =>
           if (0 <=? p_off p) && (p_off p + n <=? Z.of_nat (length b))
           then Ok (take (Z.to_nat n) (drop (Z.to_nat (p_off p)) b), s) else Err OutOfBounds
       end.

(** [memcpy] into a block *)
Definition store (p : pointer) (bytes : list Z) : M K unit := λ s,
  match sv_blocks s !! p_block p with
  | None => Err UseAfterFree
  | Some b =>
      match splice b (Z.to_nat (p_off p)) bytes with
      | Some b => Ok (tt, s <| sv_blocks := <[p_block p := b]> (sv_blocks s) |>)
      | None => Err OutOfBounds
      end
  end.

(** write buffers *)
Definition wb_new (wb : write_buffer) : M K Z := λ s,
  Ok (sv_next s, s <| sv_next := sv_next s + 1 |> <| sv_wbs := <[sv_next s := wb]> (sv_wbs s) |>).
Definition wb_get (p : Z) : M K write_buffer := λ s,
  if is_null p then Err NullDeref
  else match sv_wbs s !! p with Some wb => Ok (wb, s) | None => Err UseAfterFree end.
Definition wb_set (p : Z) (wb : write_buffer) : M K unit :=
  modify (λ s, s <| sv_wbs := <[p := wb]> (sv_wbs s) |>).
Definition wb_delete (p : Z) : M K unit := λ s,
  match sv_wbs s !! p with
  | Some _ => Ok (tt, s <| sv_wbs := delete p (sv_wbs s) |>)
  | None => Err DoubleFree
  end.

(** ** [class socket_lock] on [direct_write_mutex] of an object; the count is its state *)

Definition sl_lock (i count : Z) : M K Z :=
  (if count =? 0 then
     s ← sock i;
     if so_mutex s then mfail Blocked else upd_sock i (λ s, s <| so_mutex := true |>)
   else mret ());;
  mret (count + 1).

Definition sl_try_lock (i count : Z) : M K (bool * Z) :=
  s ← sock i;
  if (count =? 0) && so_mutex s then mret (false, count)
  else
    (if count =? 0 then upd_sock i (λ s, s <| so_mutex := true |>) else mret ());;
    mret (true, count + 1).

Definition sl_unlock (i count : Z) : M K Z :=
  let count := count - 1 in
  (if count <=? 0 then
     check (count =? 0);; upd_sock i (λ s, s <| so_mutex := false |>)
   else mret ());;
  mret count.

(** ** System calls, the poller and the socket options *)
Context `{Kernel K}.

(** [errno] changes when a call fails *)
Definition sys (c : syscall) : M K sysret := λ s,
  let '(r, k) := kernel c (sv_os s) in
  Ok (r, s <| sv_os := k |> <| sv_errno := if sr_ret r <? 0 then sr_errno r else sv_errno s |>).

(** poller_epoll.cpp; the epoll descriptor is the server's *)
Definition poller_init : M K bool :=
  r ← sys SysEpollCreate;
  modify (λ s, s <| sv_poll_fd := sr_ret r |>);;
  mret (negb (sr_ret r =? INVALID_FD)).
Definition poller_fini : M K unit :=
  fd ← gets sv_poll_fd;
  sys (SysClose fd);;
  modify (λ s, s <| sv_poll_fd := INVALID_FD |>).
Definition poller_add (socket_fd : Z) (ud : option Z) : M K bool :=
  r ← sys (SysEpollAdd socket_fd ud); mret (negb (sr_ret r =? -1)).
Definition poller_del (socket_fd : Z) : M K unit :=
  sys (SysEpollDel socket_fd);; mret ().
Definition poller_enable (socket_fd : Z) (ud : option Z) (enable_read enable_write : bool) : M K Z :=
  let events := Z.lor (if enable_read then EPOLLIN else 0) (if enable_write then EPOLLOUT else 0) in
  r ← sys (SysEpollMod socket_fd ud events);
  mret (if sr_ret r =? -1 then 1 else 0).
Definition to_event (e : option Z * Z) : event :=
  let flag := e.2 in
  mkEv e.1 (negb (Z.land flag EPOLLIN =? 0)) (negb (Z.land flag EPOLLOUT =? 0))
    (negb (Z.land flag EPOLLERR =? 0)) (negb (Z.land flag EPOLLHUP =? 0)).
(** the events of a wait overwrite the first elements of the array *)
Definition poller_wait : M K Z :=
  r ← sys (SysEpollWait MAX_WAIT_EVENT);
  let evs := take (Z.to_nat (sr_ret r)) (map to_event (sr_events r)) in
  modify (λ s, s <| sv_events := (evs ++ drop (length evs) (sv_events s))%list |>);;
  mret (sr_ret r).

(** pipe.cpp: the two descriptors are the data the call returns *)
Definition FD_SETSIZE : Z := 1024.
Definition pipe_init : M K bool :=
  r ← sys SysPipe;
  if sr_ret r =? -1 then mret false
  else
    let read_fd := nth 0 (sr_data r) 0 in
    modify (λ s, s <| sv_read_fd := read_fd |> <| sv_write_fd := nth 1 (sr_data r) 0 |>);;
    check (read_fd <? FD_SETSIZE);;
    mret true.
Definition pipe_fini : M K unit :=
  read_fd ← gets sv_read_fd;
  (if negb (read_fd =? INVALID_FD) then
     sys (SysClose read_fd);; modify (λ s, s <| sv_read_fd := INVALID_FD |>)
   else mret ());;
  write_fd ← gets sv_write_fd;
  (if negb (write_fd =? INVALID_FD) then
     sys (SysClose write_fd);; modify (λ s, s <| sv_write_fd := INVALID_FD |>)
   else mret ()).

(** socket_helper.inl *)
Definition keepalive (fd : Z) : M K bool :=
  r ← sys (SysSetsockopt fd SOL_SOCKET SO_KEEPALIVE 1); mret (negb (sr_ret r =? -1)).
Definition reuse_address (fd : Z) : M K bool :=
  r ← sys (SysSetsockopt fd SOL_SOCKET SO_REUSEADDR 1); mret (negb (sr_ret r =? -1)).
Definition nonblocking (fd : Z) : M K bool :=
  flag ← sys (SysFcntlGetfl fd);
  if sr_ret flag =? -1 then mret false
  else r ← sys (SysFcntlSetfl fd (Z.lor (sr_ret flag) O_NONBLOCK)); mret (negb (sr_ret r =? -1)).
End memory.
