(* ===== verification/SocketServer.v ===== *)
(** * The socket server (skynet-src/socket/socket_server.cpp)

    One definition per function of the source, in the order of their calls. [socket_ptr] is
    the index of a socket object; [result] is the message in the state of the server. The
    functions that take a [socket_lock&] take its count and return the new one. Loops that
    the kernel can prolong ([write] interrupted, [read] of a full buffer, the event loop)
    have fuel. *)
From Stdlib Require Import String.
From S2P Require Import Prelude Bytes Text SocketObject SocketEndpoint SocketCmd SocketState.
Open Scope string_scope.
Open Scope Z_scope.

Section server.
Context {K : Type} `{Kernel K}.
Notation M := (M K).

(** ** Data to send *)

(** a call of [free_func(ptr)] *)
Definition call_free (f : free_fn) : M unit :=
  match f with
  | FreeUninit => mfail UninitRead
  | FreeNothing => mret ()
  | FreeNull => mfail NullDeref
  end.

(** [init_send_user_object(so, object, sz)]: the functions of [uo_socket_] are null, and
    [free_func] is not assigned for memory *)
Definition init_send_user_object_raw (object sz : Z) : M (bool * send_user_object) :=
  if sz =? USER_OBJECT_TAG then mfail NullDeref
  else mret (false, mkSo (mkPtr object 0) sz FreeUninit).

(** [init_send_user_object(so, sd_ptr)] *)
Definition init_send_user_object (sd : send_data) : M send_user_object :=
  if sd_type sd =? SEND_DATA_TYPE_MEMORY then
    r ← init_send_user_object_raw (sd_data_ptr sd) (sd_data_size sd); mret r.2
  else if sd_type sd =? SEND_DATA_TYPE_USER_OBJECT then
    r ← init_send_user_object_raw (sd_data_ptr sd) USER_OBJECT_TAG; mret r.2
  else if sd_type sd =? SEND_DATA_TYPE_USER_DATA then
    mret (mkSo (mkPtr (sd_data_ptr sd) 0) (sd_data_size sd) FreeNothing)
  else mret (mkSo (mkPtr 0 0) 0 FreeNull).

Definition free_send_data (sd : send_data) : M unit :=
  if sd_type sd =? SEND_DATA_TYPE_MEMORY then delete_block (sd_data_ptr sd)
  else if sd_type sd =? SEND_DATA_TYPE_USER_OBJECT then mfail NullDeref
  else mret ().

(** the pointer and the size *)
Definition clone_send_data (sd : send_data) : M (Z * Z) :=
  if sd_type sd =? SEND_DATA_TYPE_MEMORY then mret (sd_data_ptr sd, sd_data_size sd)
  else if sd_type sd =? SEND_DATA_TYPE_USER_OBJECT then mret (sd_data_ptr sd, USER_OBJECT_TAG)
  else if sd_type sd =? SEND_DATA_TYPE_USER_DATA then
    bytes ← load (mkPtr (sd_data_ptr sd) 0) (sd_data_size sd);
    tmp ← new_block bytes;
    mret (tmp, sd_data_size sd)
  else mret (0, 0).

(** ** Write buffers *)

(** both branches of the source delete the data the same way *)
Definition free_write_buffer (wb_ptr : Z) : M unit :=
  wb ← wb_get wb_ptr;
  delete_block (wb_buffer wb);;
  wb_delete wb_ptr.

(** the loop of [free_write_buffer_list] *)
Fixpoint free_wb_loop (fuel : nat) (wb_ptr : Z) : M unit :=
  match fuel with
  | O => mfail OutOfFuel
  | S fuel =>
      if is_null wb_ptr then mret ()
      else
        wb ← wb_get wb_ptr;
        free_write_buffer wb_ptr;;
        free_wb_loop fuel (wb_next wb)
  end.

(** a list field of a socket object *)
Inductive which_list := High | Low.
Definition get_list (w : which_list) (s : socket_object) : write_buffer_list :=
  match w with High => so_high s | Low => so_low s end.
Definition set_list (w : which_list) (s : socket_object) (l : write_buffer_list) : socket_object :=
  match w with High => s <| so_high := l |> | Low => s <| so_low := l |> end.

(** fuel for a walk over the write buffers: there are no more of them than allocations *)
Definition wb_fuel : M nat := gets (λ s, S (size (sv_wbs s))).

Definition free_write_buffer_list (socket_ptr : Z) (w : which_list) : M unit :=
  s ← sock socket_ptr;
  fuel ← wb_fuel;
  free_wb_loop fuel (wl_head (get_list w s));;
  upd_sock socket_ptr (λ s, set_list w s wbl_empty).

(** [alloc_write_buffer]; [udp] is whether the block has room for an address *)
Definition alloc_write_buffer (socket_ptr : Z) (w : which_list) (data_ptr data_size : Z) (udp : bool) : M Z :=
  '(is_user_object, so) ← init_send_user_object_raw data_ptr data_size;
  wb_ptr ← wb_new (mkWb 0 data_ptr (suo_buffer so) (suo_sz so) is_user_object
                     (if udp then Some (replicate 19 0) else None));
  s ← sock socket_ptr;
  let l := get_list w s in
  (if is_null (wl_head l)
   then upd_sock socket_ptr (λ s, set_list w s (mkWbl wb_ptr wb_ptr))
   else
     check (negb (is_null (wl_tail l)));;
     tail ← wb_get (wl_tail l);
     check (is_null (wb_next tail));;
     wb_set (wl_tail l) (tail <| wb_next := wb_ptr |>);;
     upd_sock socket_ptr (λ s, set_list w s (mkWbl (wl_head l) wb_ptr)));;
  mret wb_ptr.

(** [udp_address] is [None] for TCP; 19 bytes of it are copied *)
Definition append_send_buffer (socket_ptr data_ptr data_size : Z) (is_high : bool) (udp_address : option (list Z)) : M unit :=
  wb_ptr ← alloc_write_buffer socket_ptr (if is_high then High else Low) data_ptr data_size
             (match udp_address with Some _ => true | None => false end);
  wb ← wb_get wb_ptr;
  (match udp_address with
   | Some a => wb_set wb_ptr (wb <| wb_udp_address := Some (take 19 a) |>)
   | None => mret ()
   end);;
  upd_sock socket_ptr (λ s, s <| so_write_buffer_size := so_write_buffer_size s + wb_sz wb |>).

Definition drop_udp (socket_ptr : Z) (w : which_list) (wb_ptr : Z) : M unit :=
  wb ← wb_get wb_ptr;
  upd_sock socket_ptr (λ s, s <| so_write_buffer_size := so_write_buffer_size s - wb_sz wb |>);;
  upd_sock socket_ptr (λ s,
    set_list w s (mkWbl (wb_next wb) (if is_null (wb_next wb) then 0 else wl_tail (get_list w s))));;
  free_write_buffer wb_ptr.

(** 0 or 1: whether the first buffer was sent in part *)
Definition list_uncomplete (socket_ptr : Z) (w : which_list) : M bool :=
  s ← sock socket_ptr;
  if is_null (wl_head (get_list w s)) then mret false
  else
    wb ← wb_get (wl_head (get_list w s));
    mret (negb (bool_decide (wb_ptr wb = mkPtr (wb_buffer wb) 0))).

Definition raise_uncomplete (socket_ptr : Z) : M unit :=
  s ← sock socket_ptr;
  let tmp := wl_head (so_low s) in
  wb ← wb_get tmp;
  upd_sock socket_ptr (λ s,
    s <| so_low := mkWbl (wb_next wb) (if is_null (wb_next wb) then 0 else wl_tail (so_low s)) |>);;
  check (is_null (wl_head (so_high s)));;
  wb_set tmp (wb <| wb_next := 0 |>);;
  upd_sock socket_ptr (λ s, s <| so_high := mkWbl tmp tmp |>).

(** ** Interest in events *)

Definition enable_write (socket_ptr : Z) (enable : bool) : M Z :=
  s ← sock socket_ptr;
  if negb (eqb (so_writing s) enable) then
    upd_sock socket_ptr (λ s, s <| so_writing := enable |>);;
    poller_enable (so_socket_fd s) (Some socket_ptr) (so_reading s) enable
  else mret 0.

Definition enable_read (socket_ptr : Z) (enable : bool) : M Z :=
  s ← sock socket_ptr;
  if negb (eqb (so_reading s) enable) then
    upd_sock socket_ptr (λ s, s <| so_reading := enable |>);;
    poller_enable (so_socket_fd s) (Some socket_ptr) enable (so_writing s)
  else mret 0.

(** ** Closing *)

(** [result->svc_handle], [socket_id], [ud = 0] and [data_ptr] of a socket *)
Definition result_of (socket_ptr : Z) (data : data_ref) : M unit :=
  s ← sock socket_ptr;
  set_result_msg (mkSm (so_socket_id s) (so_svc_handle s) 0 data).

Definition upd_pool (f : socket_object_pool → socket_object_pool) : M unit :=
  modify (λ s, s <| sv_pool := f (sv_pool s) |>).

Definition force_close (socket_ptr sl : Z) : M Z :=
  result_of socket_ptr DNull;;
  s ← sock socket_ptr;
  if status_is (so_status s) SOCKET_STATUS_INVALID then mret sl
  else
    check (negb (status_is (so_status s) SOCKET_STATUS_ALLOCED));;
    free_write_buffer_list socket_ptr High;;
    free_write_buffer_list socket_ptr Low;;
    poller_del (so_socket_fd s);;
    sl ← sl_lock socket_ptr sl;
    (if negb (status_is (so_status s) SOCKET_STATUS_BIND) then sys (SysClose (so_socket_fd s));; mret () else mret ());;
    upd_pool (λ pool, free_socket pool (so_socket_id s));;
    (if negb (is_null (so_direct_write_buffer s)) then
       free_send_data (mkSd (so_socket_id s)
         (if so_direct_write_size s =? USER_OBJECT_TAG then SEND_DATA_TYPE_USER_OBJECT else SEND_DATA_TYPE_MEMORY)
         (so_direct_write_buffer s) (so_direct_write_size s));;
       upd_sock socket_ptr (λ s, s <| so_direct_write_buffer := 0 |>)
     else mret ());;
    sl_unlock socket_ptr sl.

Definition close_read (socket_ptr : Z) : M unit :=
  upd_sock socket_ptr shutdown_read;;
  enable_read socket_ptr false;;
  s ← sock socket_ptr;
  sys (SysShutdown (so_socket_fd s) SHUT_RD);;
  result_of socket_ptr DNull.

Definition close_write (socket_ptr sl : Z) : M (Z * Z) :=
  s ← sock socket_ptr;
  if so_closing s then sl ← force_close socket_ptr sl; mret (SOCKET_EVENT_RST, sl)
  else if is_close_read s then sl ← force_close socket_ptr sl; mret (SOCKET_EVENT_RST, sl)
  else if is_close_write s then mret (SOCKET_EVENT_RST, sl)
  else
    upd_sock socket_ptr shutdown_write;;
    sys (SysShutdown (so_socket_fd s) SHUT_WR);;
    enable_write socket_ptr false;;
    errno ← gets sv_errno;
    result_of socket_ptr (DText (strerror errno));;
    mret (SOCKET_EVENT_ERROR, sl).

(** [new_socket]: the index of the object, [None] for [nullptr] *)
Definition new_socket (socket_id socket_fd socket_type svc_handle : Z) (reading : bool) : M (option Z) :=
  let i := socket_array_index socket_id in
  s ← sock i;
  check (status_is (so_status s) SOCKET_STATUS_ALLOCED);;
  added ← poller_add socket_fd (Some i);
  if negb added then upd_pool (λ pool, free_socket pool socket_id);; mret None
  else
    upd_sock i (λ s,
      let s := s <| so_socket_id := socket_id |> <| so_socket_fd := socket_fd |> <| so_reading := true |>
                 <| so_writing := false |> <| so_closing := false |> in
      let s := reset_sending_count s socket_id in
      let s := s <| so_socket_type := socket_type |> in
      let s := set_p_size s MIN_READ_BUFFER in
      s <| so_svc_handle := svc_handle |> <| so_write_buffer_size := 0 |> <| so_warn_size := 0 |>);;
    s ← sock i;
    check (is_null (wl_head (so_high s)));;
    check (is_null (wl_tail (so_high s)));;
    check (is_null (wl_head (so_low s)));;
    check (is_null (wl_tail (so_low s)));;
    upd_sock i (λ s, s <| so_direct_write_buffer := 0 |> <| so_direct_write_size := 0 |>
                       <| so_io_statistics := socket_statistics_zero |>);;
    err ← enable_read i reading;
    if negb (err =? 0) then upd_pool (λ pool, free_socket pool socket_id);; mret None
    else mret (Some i).

(** ** Sending from the socket thread *)

(** the [for (;;)] around [write] in [send_write_buffer_list_tcp]: the value of [write],
    retried while it is interrupted *)
Fixpoint write_retry (fuel : nat) (fd : Z) (data : list Z) : M Z :=
  match fuel with
  | O => mfail OutOfFuel
  | S fuel =>
      r ← sys (SysWrite fd data);
      if (sr_ret r <? 0) && (sr_errno r =? EINTR) then write_retry fuel fd data else mret (sr_ret r)
  end.

(** the loop of [send_write_buffer_list_tcp] *)
Fixpoint send_tcp_loop (fuel : nat) (socket_ptr : Z) (w : which_list) (sl : Z) : M (Z * Z) :=
  match fuel with
  | O => mfail OutOfFuel
  | S fuel' =>
      s ← sock socket_ptr;
      let tmp := wl_head (get_list w s) in
      if is_null tmp then
        upd_sock socket_ptr (λ s, set_list w s (get_list w s <| wl_tail := 0 |>));;
        mret (-1, sl)
      else
        wb ← wb_get tmp;
        data ← load (wb_ptr wb) (wb_sz wb);
        send_bytes ← write_retry fuel (so_socket_fd s) data;
        if send_bytes <? 0 then
          errno ← gets sv_errno;
          if errno =? AGAIN_WOULDBLOCK then mret (-1, sl) else close_write socket_ptr sl
        else
          time_ticks ← gets sv_time_ticks;
          upd_sock socket_ptr (λ s,
            statistics_send s send_bytes time_ticks
              <| so_write_buffer_size := so_write_buffer_size s - send_bytes |>);;
          if negb (send_bytes =? wb_sz wb) then
            wb_set tmp (wb <| wb_ptr := ptr_add (wb_ptr wb) send_bytes |> <| wb_sz := wb_sz wb - send_bytes |>);;
            mret (-1, sl)
          else
            upd_sock socket_ptr (λ s, set_list w s (get_list w s <| wl_head := wb_next wb |>));;
            free_write_buffer tmp;;
            send_tcp_loop fuel' socket_ptr w sl
  end.

(** the loop of [send_write_buffer_list_udp] *)
Fixpoint send_udp_loop (fuel : nat) (socket_ptr : Z) (w : which_list) : M Z :=
  match fuel with
  | O => mfail OutOfFuel
  | S fuel' =>
      s ← sock socket_ptr;
      let tmp := wl_head (get_list w s) in
      if is_null tmp then
        upd_sock socket_ptr (λ s, set_list w s (get_list w s <| wl_tail := 0 |>));;
        mret (-1)
      else
        wb ← wb_get tmp;
        address ← match wb_udp_address wb with Some a => mret a | None => mfail OutOfBounds end;
        let '(endpoint_sz, endpoint) := from_udp_address endpoint_zero (so_socket_type s) address in
        if endpoint_sz =? 0 then
          log_error_msg ("socket-server : udp (" ++ dec_str (so_socket_id s) ++ ") type mismatch.");;
          drop_udp socket_ptr w tmp;;
          mret (-1)
        else
          data ← load (wb_ptr wb) (wb_sz wb);
          r ← sys (SysSendto (so_socket_fd s) data endpoint endpoint_sz);
          if sr_ret r <? 0 then
            errno ← gets sv_errno;
            if (errno =? EINTR) || (errno =? AGAIN_WOULDBLOCK) then mret (-1)
            else
              log_error_msg ("socket-server : udp (" ++ dec_str (so_socket_id s) ++ ") sendto error " ++ strerror errno ++ ".");;
              drop_udp socket_ptr w tmp;;
              mret (-1)
          else
            time_ticks ← gets sv_time_ticks;
            upd_sock socket_ptr (λ s,
              statistics_send s (wb_sz wb) time_ticks
                <| so_write_buffer_size := so_write_buffer_size s - wb_sz wb |>);;
            upd_sock socket_ptr (λ s, set_list w s (get_list w s <| wl_head := wb_next wb |>));;
            free_write_buffer tmp;;
            send_udp_loop fuel' socket_ptr w
  end.

Definition send_write_buffer_list (fuel : nat) (socket_ptr : Z) (w : which_list) (sl : Z) : M (Z * Z) :=
  s ← sock socket_ptr;
  if so_socket_type s =? SOCKET_TYPE_TCP
  then send_tcp_loop fuel socket_ptr w sl
  else ret ← send_udp_loop fuel socket_ptr w; mret (ret, sl).

(** step 4 of [do_send_write_buffer]: everything is written *)
Definition finish_writing (socket_ptr sl : Z) : M (Z * Z) :=
  s ← sock socket_ptr;
  check (is_write_buffer_empty s && (so_write_buffer_size s =? 0));;
  if so_closing s then sl ← force_close socket_ptr sl; mret (-1, sl)
  else
    err ← enable_write socket_ptr false;
    if negb (err =? 0) then result_of socket_ptr (DText "disable write failed");; mret (SOCKET_EVENT_ERROR, sl)
    else if 0 <? so_warn_size s then
      upd_sock socket_ptr (λ s, s <| so_warn_size := 0 |>);;
      result_of socket_ptr DNull;;
      mret (SOCKET_EVENT_WARNING, sl)
    else mret (-1, sl).

(** the event of a list that failed: an error is reported, a reset is not *)
Definition list_event (ret : Z) : Z := if ret =? SOCKET_EVENT_ERROR then SOCKET_EVENT_ERROR else -1.

Definition do_send_write_buffer (fuel : nat) (socket_ptr sl : Z) : M (Z * Z) :=
  uncomplete ← list_uncomplete socket_ptr Low;
  check (negb uncomplete);;
  '(ret, sl) ← send_write_buffer_list fuel socket_ptr High sl;
  if negb (ret =? -1) then mret (list_event ret, sl)
  else
    s ← sock socket_ptr;
    if negb (is_null (wl_head (so_high s))) then mret (-1, sl)
    else if negb (is_null (wl_head (so_low s))) then
      '(ret, sl) ← send_write_buffer_list fuel socket_ptr Low sl;
      if negb (ret =? -1) then mret (list_event ret, sl)
      else
        uncomplete ← list_uncomplete socket_ptr Low;
        if (uncomplete : bool) then raise_uncomplete socket_ptr;; mret (-1, sl)
        else
          s ← sock socket_ptr;
          if negb (is_null (wl_head (so_low s))) then mret (-1, sl) else finish_writing socket_ptr sl
    else finish_writing socket_ptr sl.

(** the direct write that a worker left unfinished goes before the high priority list *)
Definition take_direct_write (socket_ptr : Z) : M unit :=
  s ← sock socket_ptr;
  if is_null (so_direct_write_buffer s) then mret ()
  else
    '(is_user_object, so) ← init_send_user_object_raw (so_direct_write_buffer s) (so_direct_write_size s);
    let sz := u64 (suo_sz so - so_direct_write_offset s) in
    let head := wl_head (so_high s) in
    wb_ptr ← wb_new (mkWb (if is_null head then 0 else head) (so_direct_write_buffer s)
                       (ptr_add (suo_buffer so) (so_direct_write_offset s)) sz is_user_object None);
    upd_sock socket_ptr (λ s,
      s <| so_write_buffer_size := so_write_buffer_size s + sz |>
        <| so_high := mkWbl wb_ptr (if is_null head then wb_ptr else wl_tail (so_high s)) |>
        <| so_direct_write_buffer := 0 |>).

Definition send_write_buffer (fuel : nat) (socket_ptr sl : Z) : M (Z * Z) :=
  '(locked, sl) ← sl_try_lock socket_ptr sl;
  if negb locked then mret (-1, sl)
  else
    take_direct_write socket_ptr;;
    '(socket_event, sl) ← do_send_write_buffer fuel socket_ptr sl;
    sl ← sl_unlock socket_ptr sl;
    mret (socket_event, sl).

(** ** Events of the kernel *)

(** [socket_object_pool_.alloc_socket()] *)
Definition alloc_socket_id : M Z := λ st,
  let '(id, pool) := alloc_socket (sv_pool st) in Ok (id, st <| sv_pool := pool |>).

(** [handle_accept]: 1 accepted, 0 nothing, -1 no more descriptors *)
Definition handle_accept (socket_ptr : Z) : M Z :=
  s ← sock socket_ptr;
  r ← sys (SysAccept (so_socket_fd s));
  let client_fd := sr_ret r in
  if client_fd <? 0 then
    errno ← gets sv_errno;
    if negb (errno =? EMFILE) && negb (errno =? ENFILE) then mret 0
    else result_of socket_ptr (DText (strerror errno));; mret (-1)
  else
    socket_id ← alloc_socket_id;
    if socket_id <? 0 then sys (SysClose client_fd);; mret 0
    else
      keepalive client_fd;;
      nonblocking client_fd;;
      s ← sock socket_ptr;
      new_socket_ptr ← new_socket socket_id client_fd SOCKET_TYPE_TCP (so_svc_handle s) false;
      match new_socket_ptr with
      | None => sys (SysClose client_fd);; mret 0
      | Some i =>
          time_ticks ← gets sv_time_ticks;
          upd_sock socket_ptr (λ s, statistics_recv s 1 time_ticks);;
          upd_sock i (λ s, s <| so_status := SOCKET_STATUS_PREPARE_ACCEPT |>);;
          s ← sock socket_ptr;
          set_result_msg (mkSm (so_socket_id s) (so_svc_handle s) socket_id DNull);;
          let '(ok, text) := endpoint_to_buffer inet_ntop (sr_endpoint r) ADDR_TMP_BUFFER_SIZE in
          modify (λ st, st <| sv_addr_tmp_buf := text |>);;
          (if ok then upd_result (λ m, m <| sm_data_ptr := DAddrBuf |>) else mret ());;
          mret 1
      end.

Definition handle_connect (socket_ptr sl : Z) : M (Z * Z) :=
  s ← sock socket_ptr;
  r ← sys (SysGetsockoptError (so_socket_fd s));
  let code := sr_ret r in
  let error := sr_value r in
  if (code <? 0) || negb (error =? 0) then
    sl ← force_close socket_ptr sl;
    errno ← gets sv_errno;
    upd_result (λ m, m <| sm_data_ptr := DText (if 0 <=? code then strerror error else strerror errno) |>);;
    mret (SOCKET_EVENT_ERROR, sl)
  else
    upd_sock socket_ptr (λ s, s <| so_status := SOCKET_STATUS_CONNECTED |>);;
    upd_result (λ m, mkSm (so_socket_id s) (so_svc_handle s) 0 (sm_data_ptr m));;
    s ← sock socket_ptr;
    err ← (if nomore_sending_data s then enable_write socket_ptr false else mret 0);
    if negb (err =? 0) then
      sl ← force_close socket_ptr sl;
      upd_result (λ m, m <| sm_data_ptr := DText "disable write failed" |>);;
      mret (SOCKET_EVENT_ERROR, sl)
    else
      r ← sys (SysGetpeername (so_socket_fd s));
      let ep := sr_endpoint r in
      match (if sr_ret r =? 0 then inet_ntop (sa_family ep) (host_addr ep) else None) with
      | Some text =>
          modify (λ st, st <| sv_addr_tmp_buf := text |>);;
          upd_result (λ m, m <| sm_data_ptr := DAddrBuf |>);;
          mret (SOCKET_EVENT_OPEN, sl)
      | None =>
          upd_result (λ m, m <| sm_data_ptr := DNull |>);;
          mret (SOCKET_EVENT_OPEN, sl)
      end.

(** [struct stream_buffer] *)
Record stream_buffer := mkStream { stb_buf : Z; stb_sz : Z }.

(** [reserve_buffer]: the buffer and where to read to; the bytes of [new char[n]] are not
    initialised, zeros stand for them *)
Definition reserve_buffer (buffer : stream_buffer) (sz : Z) : M (stream_buffer * pointer) :=
  if is_null (stb_buf buffer) then
    b ← new_block (replicate (Z.to_nat sz) 0);
    mret (mkStream b (stb_sz buffer), mkPtr b 0)
  else
    newbuffer ← new_block (replicate (Z.to_nat (sz + stb_sz buffer)) 0);
    old ← load (mkPtr (stb_buf buffer) 0) (stb_sz buffer);
    store (mkPtr newbuffer 0) old;;
    delete_block (stb_buf buffer);;
    mret (mkStream newbuffer (stb_sz buffer), mkPtr newbuffer (stb_sz buffer)).

(** the loop of [read_socket]: [inl n] when nothing was read, the buffer otherwise *)
Fixpoint read_loop (fuel : nat) (fd : Z) (buffer : stream_buffer) (rsz : Z) : M (Z + stream_buffer) :=
  match fuel with
  | O => mfail OutOfFuel
  | S fuel =>
      '(buffer, buf) ← reserve_buffer buffer rsz;
      r ← sys (SysRead fd rsz);
      let n := sr_ret r in
      if n <=? 0 then
        if stb_sz buffer =? 0 then delete_block (stb_buf buffer);; mret (inl n)
        else mret (inr buffer)
      else
        store buf (take (Z.to_nat n) (sr_data r));;
        let buffer := mkStream (stb_buf buffer) (stb_sz buffer + n) in
        if n <? rsz then mret (inr buffer)
        else rsz ← lift (int_chk (rsz * 2)); read_loop fuel fd buffer rsz
  end.

(** [read_socket]: the number of bytes read and the block with them *)
Definition read_socket (fuel : nat) (socket_ptr : Z) : M (Z * Z) :=
  s ← sock socket_ptr;
  let sz := p_size s in
  x ← read_loop fuel (so_socket_fd s) (mkStream 0 0) sz;
  match x with
  | inl n => mret (n, 0)
  | inr buffer =>
      let r := stb_sz buffer in
      (if sz <? r then p ← lift (int_chk (sz * 2)); upd_sock socket_ptr (λ s, set_p_size s p)
       else if (MIN_READ_BUFFER <? sz) && (r * 2 <? sz) then upd_sock socket_ptr (λ s, set_p_size s (sz / 2))
       else mret ());;
      mret (r, stb_buf buffer)
  end.

Definition forward_message_tcp (fuel : nat) (socket_ptr sl : Z) : M (Z * Z) :=
  '(n, buf) ← read_socket fuel socket_ptr;
  s ← sock socket_ptr;
  if n <? 0 then
    errno ← gets sv_errno;
    if errno =? EINTR then mret (-1, sl)
    else if errno =? AGAIN_WOULDBLOCK then log_error_msg "socket-server : EAGAIN capture.";; mret (-1, sl)
    else
      sl ← force_close socket_ptr sl;
      errno ← gets sv_errno;
      upd_result (λ m, m <| sm_data_ptr := DText (strerror errno) |>);;
      mret (SOCKET_EVENT_ERROR, sl)
  else if n =? 0 then
    if so_closing s then
      sl ← (if nomore_sending_data s then force_close socket_ptr sl else mret sl);
      mret (-1, sl)
    else if is_close_read s then mret (-1, sl)
    else
      sl ← (if is_close_write s then force_close socket_ptr sl else close_read socket_ptr;; mret sl);
      mret (SOCKET_EVENT_CLOSE, sl)
  else if is_close_read s then delete_block buf;; mret (-1, sl)
  else
    time_ticks ← gets sv_time_ticks;
    upd_sock socket_ptr (λ s, statistics_recv s n time_ticks);;
    set_result_msg (mkSm (so_socket_id s) (so_svc_handle s) n (DBlock buf));;
    mret (SOCKET_EVENT_DATA, sl).

Definition forward_message_udp (socket_ptr sl : Z) : M (Z * Z) :=
  s ← sock socket_ptr;
  r ← sys (SysRecvfrom (so_socket_fd s) MAX_UDP_PACKAGE);
  let recv_n := sr_ret r in
  if recv_n <? 0 then
    errno ← gets sv_errno;
    if (errno =? EINTR) || (errno =? AGAIN_WOULDBLOCK) then mret (-1, sl)
    else
      sl ← force_close socket_ptr sl;
      errno ← gets sv_errno;
      upd_result (λ m, m <| sm_data_ptr := DText (strerror errno) |>);;
      mret (SOCKET_EVENT_ERROR, sl)
  else
    time_ticks ← gets sv_time_ticks;
    upd_sock socket_ptr (λ s, statistics_recv s recv_n time_ticks);;
    let type := if sr_value r =? SIZEOF_SOCKADDR_IN then SOCKET_TYPE_UDP else SOCKET_TYPE_UDPv6 in
    if negb (so_socket_type s =? type) then mret (-1, sl)
    else
      let addr := (to_udp_address (sr_endpoint r) type (replicate (if type =? SOCKET_TYPE_UDP then 7 else 19) 0)).2 in
      data_ptr ← new_block (take (Z.to_nat recv_n) (sr_data r) ++ addr)%list;
      set_result_msg (mkSm (so_socket_id s) (so_svc_handle s) recv_n (DBlock data_ptr));;
      mret (SOCKET_EVENT_UDP, sl).

(** ** Control commands *)

(** the loop over the addresses of [handle_ctrl_cmd_connect_socket]: the descriptor, the
    last [status], and the address it connects to *)
Fixpoint connect_loop (ai_list : list addrinfo) (socket_fd status : Z) : M (Z * Z * option addrinfo) :=
  match ai_list with
  | [] => mret (socket_fd, status, None)
  | ai :: rest =>
      r ← sys (SysSocket (ai_family ai) (ai_socktype ai) (ai_protocol ai));
      let socket_fd := sr_ret r in
      if socket_fd <? 0 then connect_loop rest socket_fd status
      else
        keepalive socket_fd;;
        nonblocking socket_fd;;
        r ← sys (SysConnect socket_fd (ai_addr ai));
        let status := sr_ret r in
        errno ← gets sv_errno;
        if negb (status =? 0) && negb (errno =? EINPROGRESS) then
          sys (SysClose socket_fd);;
          connect_loop rest INVALID_FD status
        else mret (socket_fd, status, Some ai)
  end.

(** its failure: the text of the event, and the socket id goes back to the pool *)
Definition connect_failed (socket_id : Z) (data : data_ref) : M Z :=
  upd_result (λ m, m <| sm_data_ptr := data |>);;
  upd_pool (λ pool, free_socket pool socket_id);;
  mret SOCKET_EVENT_ERROR.

Definition handle_ctrl_cmd_connect_socket (socket_id port svc_handle : Z) (host : string) : M Z :=
  set_result_msg (mkSm socket_id svc_handle 0 DNull);;
  r ← sys (SysGetaddrinfo host (dec_str port) AF_UNSPEC SOCK_STREAM IPPROTO_TCP);
  if negb (sr_ret r =? 0) then connect_failed socket_id (DText (gai_strerror (sr_ret r)))
  else
    '(socket_fd, status, ai) ← connect_loop (sr_addrs r) INVALID_FD (sr_ret r);
    if socket_fd <? 0 then errno ← gets sv_errno; connect_failed socket_id (DText (strerror errno))
    else
      new_socket_ptr ← new_socket socket_id socket_fd SOCKET_TYPE_TCP svc_handle true;
      match new_socket_ptr with
      | None =>
          sys (SysClose socket_fd);;
          connect_failed socket_id (DText "reach skynet socket number limit")
      | Some i =>
          if status =? 0 then
            upd_sock i (λ s, s <| so_status := SOCKET_STATUS_CONNECTED |>);;
            (match ai with
             | Some ai =>
                 let addr := if ai_family ai =? AF_INET then sin_addr (ai_addr ai) else sin6_addr (ai_addr ai) in
                 match inet_ntop (ai_family ai) addr with
                 | Some text =>
                     modify (λ st, st <| sv_addr_tmp_buf := text |>);;
                     upd_result (λ m, m <| sm_data_ptr := DAddrBuf |>)
                 | None => mret ()
                 end
             | None => mret ()
             end);;
            mret SOCKET_EVENT_OPEN
          else
            upd_sock i (λ s, s <| so_status := SOCKET_STATUS_CONNECTING |>);;
            err ← enable_write i true;
            if negb (err =? 0) then connect_failed socket_id (DText "enable write failed") else mret (-1)
      end.

Definition handle_ctrl_cmd_close_socket (socket_id shutdown : Z) : M Z :=
  let i := socket_array_index socket_id in
  s ← sock i;
  if is_invalid s socket_id then mret (-1)
  else
    let shutdown_read := is_close_read s in
    if negb (shutdown =? 0) || nomore_sending_data s then
      force_close i 0;;
      mret (if shutdown_read then -1 else SOCKET_EVENT_CLOSE)
    else
      upd_sock i (λ s, s <| so_closing := true |>);;
      if negb shutdown_read then close_read i;; mret SOCKET_EVENT_CLOSE
      else mret (-1).

Definition handle_ctrl_cmd_bind_os_fd (socket_id os_fd svc_handle : Z) : M Z :=
  upd_result (λ m, mkSm socket_id svc_handle 0 (sm_data_ptr m));;
  new_socket_ptr ← new_socket socket_id os_fd SOCKET_TYPE_TCP svc_handle true;
  match new_socket_ptr with
  | None =>
      upd_result (λ m, m <| sm_data_ptr := DText "reach skynet socket number limit" |>);;
      mret SOCKET_EVENT_ERROR
  | Some i =>
      nonblocking os_fd;;
      upd_sock i (λ s, s <| so_status := SOCKET_STATUS_BIND |>);;
      upd_result (λ m, m <| sm_data_ptr := DText "binding" |>);;
      mret SOCKET_EVENT_OPEN
  end.

Definition handle_ctrl_cmd_resume_socket (socket_id svc_handle : Z) : M Z :=
  set_result_msg (mkSm socket_id svc_handle 0 DNull);;
  let i := socket_array_index socket_id in
  s ← sock i;
  if is_invalid s socket_id then
    upd_result (λ m, m <| sm_data_ptr := DText "invalid socket" |>);;
    mret SOCKET_EVENT_ERROR
  else if is_close_read s then mret (-1)
  else
    err ← enable_read i true;
    if negb (err =? 0) then
      upd_result (λ m, m <| sm_data_ptr := DText "enable read failed" |>);;
      mret SOCKET_EVENT_ERROR
    else if status_is (so_status s) SOCKET_STATUS_PREPARE_ACCEPT || status_is (so_status s) SOCKET_STATUS_PREPARE_LISTEN then
      upd_sock i (λ s, s <| so_status := if status_is (so_status s) SOCKET_STATUS_PREPARE_ACCEPT
                                         then SOCKET_STATUS_CONNECTED else SOCKET_STATUS_LISTEN |>
                         <| so_svc_handle := svc_handle |>);;
      upd_result (λ m, m <| sm_data_ptr := DText "start" |>);;
      mret SOCKET_EVENT_OPEN
    else if status_is (so_status s) SOCKET_STATUS_CONNECTED then
      upd_sock i (λ s, s <| so_svc_handle := svc_handle |>);;
      upd_result (λ m, m <| sm_data_ptr := DText "transfer" |>);;
      mret SOCKET_EVENT_OPEN
    else mret (-1).

Definition handle_ctrl_cmd_pause_socket (socket_id svc_handle : Z) : M Z :=
  let i := socket_array_index socket_id in
  s ← sock i;
  if is_invalid s socket_id then mret (-1)
  else
    err ← enable_read i false;
    if negb (err =? 0) then
      set_result_msg (mkSm socket_id svc_handle 0 (DText "enable read failed"));;
      mret SOCKET_EVENT_ERROR
    else mret (-1).

Definition handle_ctrl_cmd_setopt_socket (socket_id what value : Z) : M Z :=
  s ← sock (socket_array_index socket_id);
  if is_invalid s socket_id then mret SOCKET_EVENT_ERROR
  else sys (SysSetsockopt (so_socket_fd s) IPPROTO_TCP what value);; mret (-1).

Definition handle_ctrl_cmd_exit_socket : M Z :=
  set_result_msg (mkSm 0 0 0 DNull);; mret SOCKET_EVENT_EXIT.

(** the end of [handle_ctrl_cmd_send_socket]: a warning when much is waiting *)
Definition check_write_size (i : Z) : M Z :=
  s ← sock i;
  if (WARNING_SIZE <=? so_write_buffer_size s) && (so_warn_size s <=? so_write_buffer_size s) then
    upd_sock i (λ s, s <| so_warn_size := if so_warn_size s =? 0 then WARNING_SIZE * 2 else so_warn_size s * 2 |>);;
    let size := so_write_buffer_size s in
    set_result_msg (mkSm (so_socket_id s) (so_svc_handle s)
      (s32 (if size mod 1024 =? 0 then size / 1024 else size / 1024 + 1)) DNull);;
    mret SOCKET_EVENT_WARNING
  else mret (-1).

(** [priority] is whether it is [PRIORITY_TYPE_HIGH]; [udp_address] is [None] for [nullptr] *)
Definition handle_ctrl_cmd_send_socket (socket_id data_size data_ptr : Z) (high : bool) (udp_address : option (list Z)) : M Z :=
  let i := socket_array_index socket_id in
  s ← sock i;
  '(_, so) ← init_send_user_object_raw data_ptr data_size;
  if is_invalid s socket_id || is_close_write s || status_is (so_status s) SOCKET_STATUS_PREPARE_ACCEPT || so_closing s then
    call_free (suo_free so);; mret (-1)
  else if status_is (so_status s) SOCKET_STATUS_PREPARE_LISTEN || status_is (so_status s) SOCKET_STATUS_LISTEN then
    log_error_msg ("socket-server : write to listen " ++ dec_str socket_id ++ ".");;
    call_free (suo_free so);; mret (-1)
  else if is_write_buffer_empty s then
    (if so_socket_type s =? SOCKET_TYPE_TCP then
       append_send_buffer i data_ptr data_size true None;; mret true
     else
       let address := default (so_p s) udp_address in
       let '(endpoint_sz, endpoint) := from_udp_address endpoint_zero (so_socket_type s) address in
       if endpoint_sz =? 0 then
         log_error_msg ("socket-server : udp (" ++ dec_str socket_id ++ ") type mismatch.");;
         call_free (suo_free so);; mret false
       else
         data ← load (suo_buffer so) (suo_sz so);
         r ← sys (SysSendto (so_socket_fd s) data endpoint endpoint_sz);
         if negb (sr_ret r =? suo_sz so) then append_send_buffer i data_ptr data_size high (Some address);; mret true
         else
           time_ticks ← gets sv_time_ticks;
           upd_sock i (λ s, statistics_send s (sr_ret r) time_ticks);;
           call_free (suo_free so);; mret false) ≫= λ queued,
    if negb queued then mret (-1)
    else
      err ← enable_write i true;
      if negb (err =? 0) then result_of i (DText "enable write failed");; mret SOCKET_EVENT_ERROR
      else check_write_size i
  else
    append_send_buffer i data_ptr data_size high
      (if so_socket_type s =? SOCKET_TYPE_TCP then None else Some (default (so_p s) udp_address));;
    check_write_size i.

Definition handle_ctrl_cmd_trigger_write (socket_id : Z) : M Z :=
  let i := socket_array_index socket_id in
  s ← sock i;
  if is_invalid s socket_id then mret (-1)
  else
    err ← enable_write i true;
    if negb (err =? 0) then result_of i (DText "enable write failed");; mret SOCKET_EVENT_ERROR
    else mret (-1).

Definition handle_ctrl_cmd_listen_socket (socket_id listen_fd svc_handle : Z) : M Z :=
  new_socket_ptr ← new_socket socket_id listen_fd SOCKET_TYPE_TCP svc_handle false;
  match new_socket_ptr with
  | None =>
      sys (SysClose listen_fd);;
      set_result_msg (mkSm socket_id svc_handle 0 (DText "reach socket number limit"));;
      mret SOCKET_EVENT_ERROR
  | Some i => upd_sock i (λ s, s <| so_status := SOCKET_STATUS_PREPARE_LISTEN |>);; mret (-1)
  end.

Definition handle_ctrl_cmd_udp_socket (socket_id socket_fd family svc_handle : Z) : M Z :=
  let type := if family =? AF_INET6 then SOCKET_TYPE_UDPv6 else SOCKET_TYPE_UDP in
  new_socket_ptr ← new_socket socket_id socket_fd type svc_handle true;
  match new_socket_ptr with
  | None =>
      sys (SysClose socket_fd);;
      upd_pool (λ pool, free_socket pool socket_id);;
      mret SOCKET_EVENT_ERROR
  | Some i =>
      upd_sock i (λ s, s <| so_status := SOCKET_STATUS_CONNECTED |> <| so_p := replicate 19 0 |>);;
      mret (-1)
  end.

Definition handle_ctrl_cmd_set_udp_address (socket_id : Z) (address : list Z) : M Z :=
  let i := socket_array_index socket_id in
  s ← sock i;
  if is_invalid s socket_id then mret (-1)
  else
    let type := nth 0 address 0 in
    if negb (type =? so_socket_type s) then
      result_of i (DText "socket type mismatch");; mret SOCKET_EVENT_ERROR
    else
      let n := if type =? SOCKET_TYPE_UDP then 7%nat else 19%nat in
      upd_sock i (λ s, dec_udp_connecting_count (s <| so_p := put_field (so_p s) 0 (take n address) |>));;
      mret (-1).

(** [handle_ctrl_cmd] *)
Definition handle_ctrl_cmd : M Z :=
  cmd ← (λ st, let* (c, pipe) := read_ctrl_cmd (sv_pipe st) in Ok (c, st <| sv_pipe := pipe |>));
  match cmd with
  | CmdResume socket_id svc_handle => handle_ctrl_cmd_resume_socket socket_id svc_handle
  | CmdPause socket_id svc_handle => handle_ctrl_cmd_pause_socket socket_id svc_handle
  | CmdBind socket_id os_fd svc_handle => handle_ctrl_cmd_bind_os_fd socket_id os_fd svc_handle
  | CmdListen socket_id socket_fd svc_handle => handle_ctrl_cmd_listen_socket socket_id socket_fd svc_handle
  | CmdClose socket_id shutdown _ => handle_ctrl_cmd_close_socket socket_id shutdown
  | CmdConnect socket_id port svc_handle host => handle_ctrl_cmd_connect_socket socket_id port svc_handle host
  | CmdExit => handle_ctrl_cmd_exit_socket
  | CmdTriggerWrite socket_id _ _ => handle_ctrl_cmd_trigger_write socket_id
  | CmdSend high socket_id data_size data_ptr =>
      ret ← handle_ctrl_cmd_send_socket socket_id data_size data_ptr high None;
      let i := socket_array_index socket_id in
      s ← sock i;
      s ← lift (dec_sending_count s socket_id);
      upd_sock i (λ _, s);;
      mret ret
  | CmdSendUdp socket_id data_size data_ptr address =>
      handle_ctrl_cmd_send_socket socket_id data_size data_ptr true (Some address)
  | CmdSetUdp socket_id address => handle_ctrl_cmd_set_udp_address socket_id address
  | CmdSetOpt socket_id what value => handle_ctrl_cmd_setopt_socket socket_id what value
  | CmdUdpSocket socket_id socket_fd family svc_handle => handle_ctrl_cmd_udp_socket socket_id socket_fd family svc_handle
  | CmdUnknown type =>
      log_error_msg ("socket-server : Unknown ctrl command " ++ dec_str type ++ ".");; mret (-1)
  end.

(** ** The event loop *)

(** the loop of [_clear_closed_event], from event [i]; it stops at the first match *)
Fixpoint clear_event_loop (n : nat) (i socket_id : Z) : M unit :=
  match n with
  | O => mret ()
  | S n =>
      evs ← gets sv_events;
      ev ← lift (arr_get evs i);
      match ev_socket ev with
      | None => clear_event_loop n (i + 1) socket_id
      | Some p =>
          s ← sock p;
          if is_invalid s socket_id then
            evs ← lift (arr_set evs i (ev <| ev_socket := None |>));
            modify (λ st, st <| sv_events := evs |>)
          else clear_event_loop n (i + 1) socket_id
      end
  end.

Definition _clear_closed_event (socket_id : Z) : M unit :=
  next ← gets sv_event_next_index;
  wait_n ← gets sv_event_wait_n;
  clear_event_loop (Z.to_nat (wait_n - next)) next socket_id.

(** what one event does: [Some e] when [poll_socket_event] returns [e], [None] when it goes
    round its loop again *)
Definition dispatch_event (fuel : nat) (idx : Z) (ev : event) (socket_ptr : Z) : M (option Z) :=
  s ← sock socket_ptr;
  match so_status s with
  | SOCKET_STATUS_CONNECTING => r ← handle_connect socket_ptr 0; mret (Some r.1)
  | SOCKET_STATUS_LISTEN =>
      ok ← handle_accept socket_ptr;
      if 0 <? ok then mret (Some SOCKET_EVENT_ACCEPT)
      else if ok <? 0 then mret (Some SOCKET_EVENT_ERROR)
      else mret None
  | SOCKET_STATUS_INVALID => log_error_msg "socket-server : invalid socket";; mret None
  | _ =>
      if ev_is_readable ev then
        r ← (if so_socket_type s =? SOCKET_TYPE_TCP then forward_message_tcp fuel socket_ptr 0
             else forward_message_udp socket_ptr 0);
        let socket_event := r.1 in
        if negb (so_socket_type s =? SOCKET_TYPE_TCP) && (socket_event =? SOCKET_EVENT_UDP) then
          modify (λ st, st <| sv_event_next_index := sv_event_next_index st - 1 |>);;
          mret (Some SOCKET_EVENT_UDP)
        else
          (if ev_is_writeable ev && negb (socket_event =? SOCKET_EVENT_CLOSE) && negb (socket_event =? SOCKET_EVENT_ERROR) then
             evs ← gets sv_events;
             evs ← lift (arr_set evs idx (ev <| ev_is_readable := false |>));
             modify (λ st, st <| sv_events := evs |> <| sv_event_next_index := sv_event_next_index st - 1 |>)
           else mret ());;
          mret (if socket_event =? -1 then None else Some socket_event)
      else if ev_is_writeable ev then
        r ← send_write_buffer fuel socket_ptr 0;
        mret (if r.1 =? -1 then None else Some r.1)
      else if ev_is_error ev then
        r ← sys (SysGetsockoptError (so_socket_fd s));
        errno ← gets sv_errno;
        let err := if sr_ret r <? 0 then strerror errno
                   else if negb (sr_value r =? 0) then strerror (sr_value r) else "Unknown error" in
        force_close socket_ptr 0;;
        upd_result (λ m, m <| sm_data_ptr := DText err |>);;
        mret (Some SOCKET_EVENT_ERROR)
      else if ev_is_eof ev then
        force_close socket_ptr 0;;
        s ← sock socket_ptr;
        mret (Some (if is_close_read s then -1 else SOCKET_EVENT_CLOSE))
      else mret None
  end.

(** [poll_socket_event]: the event, and [is_more] *)
Fixpoint poll_socket_event (fuel : nat) (is_more : bool) : M (Z * bool) :=
  match fuel with
  | O => mfail OutOfFuel
  | S fuel' =>
      need ← gets sv_need_check_ctrl_cmd;
      pipe ← gets sv_pipe;
      if need && negb (bool_decide (pipe = [])) then
        type ← handle_ctrl_cmd;
        if type =? -1 then poll_socket_event fuel' is_more
        else
          (if (type =? SOCKET_EVENT_CLOSE) || (type =? SOCKET_EVENT_ERROR) then
             m ← gets sv_result; _clear_closed_event (sm_socket_id m)
           else mret ());;
          mret (type, is_more)
      else
        modify (λ st, st <| sv_need_check_ctrl_cmd := false |>);;
        next ← gets sv_event_next_index;
        wait_n ← gets sv_event_wait_n;
        '(more, waited) ← (if next =? wait_n then
            modify (λ st, st <| sv_need_check_ctrl_cmd := true |>);;
            n ← poller_wait;
            modify (λ st, st <| sv_event_wait_n := n |> <| sv_event_next_index := 0 |>);;
            if n <=? 0 then
              modify (λ st, st <| sv_event_wait_n := 0 |>);;
              errno ← gets sv_errno;
              mret (false, if errno =? EINTR then Some true else Some false)
            else mret (false, None)
          else mret (is_more, None));
        match waited with
        | Some true => poll_socket_event fuel' more
        | Some false => mret (-1, more)
        | None =>
            idx ← gets sv_event_next_index;
            evs ← gets sv_events;
            ev ← lift (arr_get evs idx);
            modify (λ st, st <| sv_event_next_index := idx + 1 |>);;
            match ev_socket ev with
            | None => poll_socket_event fuel' more
            | Some socket_ptr =>
                r ← dispatch_event fuel idx ev socket_ptr;
                match r with
                | Some e => mret (e, more)
                | None => poll_socket_event fuel' more
                end
            end
        end
  end.

(** ** The interface of the worker threads *)

(** [_send_ctrl_cmd]: the pipe takes the whole command at once *)
Definition _send_ctrl_cmd (cmd : ctrl_cmd_package) : M unit :=
  modify (λ s, s <| sv_pipe := (sv_pipe s ++ ctrl_cmd_wire cmd)%list |>).

(** [inc_sending_count]: waits for ever when the count is full *)
Definition inc_sending (i socket_id : Z) : M unit :=
  s ← sock i;
  match inc_sending_count s socket_id with
  | Some s => upd_sock i (λ _, s)
  | None => mfail Blocked
  end.

(** [_do_bind]: the descriptor and the family *)
Definition _do_bind (local_ip : string) (local_port protocol_type : Z) : M (Z * Z) :=
  let local_ip := if (String.length local_ip =? 0)%nat then "0.0.0.0" else local_ip in
  r ← sys (SysGetaddrinfo local_ip (dec_str local_port) AF_UNSPEC
             (if protocol_type =? IPPROTO_TCP then SOCK_STREAM else SOCK_DGRAM) protocol_type);
  if negb (sr_ret r =? 0) then mret (INVALID_FD, 0)
  else
    match sr_addrs r with
    | [] => mfail NullDeref
    | ai :: _ =>
        r ← sys (SysSocket (ai_family ai) (ai_socktype ai) 0);
        let socket_fd := sr_ret r in
        if socket_fd <? 0 then mret (INVALID_FD, ai_family ai)
        else
          ok ← reuse_address socket_fd;
          if negb ok then sys (SysClose socket_fd);; mret (INVALID_FD, ai_family ai)
          else
            r ← sys (SysBind socket_fd (ai_addr ai));
            if negb (sr_ret r =? 0) then sys (SysClose socket_fd);; mret (INVALID_FD, ai_family ai)
            else mret (socket_fd, ai_family ai)
    end.

Definition server_listen (svc_handle : Z) (local_ip : string) (local_port backlog : Z) : M Z :=
  '(listen_fd, _) ← _do_bind local_ip local_port IPPROTO_TCP;
  if listen_fd =? INVALID_FD then mret INVALID_SOCKET_ID
  else
    r ← sys (SysListen listen_fd backlog);
    if sr_ret r =? -1 then sys (SysClose listen_fd);; mret INVALID_SOCKET_ID
    else
      listen_socket_id ← alloc_socket_id;
      if listen_socket_id <? 0 then sys (SysClose listen_fd);; mret listen_socket_id
      else
        _send_ctrl_cmd (prepare_ctrl_cmd_request_listen ctrl_cmd_package_default svc_handle listen_socket_id listen_fd).2;;
        mret listen_socket_id.

Definition server_connect (svc_handle : Z) (remote_ip : string) (remote_port : Z) : M Z :=
  socket_id ← alloc_socket_id;
  if socket_id <? 0 then mret INVALID_SOCKET_ID
  else
    let '(len, cmd, err) := prepare_ctrl_cmd_request_connect ctrl_cmd_package_default svc_handle socket_id remote_ip remote_port in
    (match err with Some text => log_error_msg text | None => mret () end);;
    if len <? 0 then mret INVALID_SOCKET_ID
    else _send_ctrl_cmd cmd;; mret socket_id.

Definition server_start (svc_handle socket_id : Z) : M unit :=
  _send_ctrl_cmd (prepare_ctrl_cmd_request_resume ctrl_cmd_package_default svc_handle socket_id).2.
Definition server_pause (svc_handle socket_id : Z) : M unit :=
  _send_ctrl_cmd (prepare_ctrl_cmd_request_pause ctrl_cmd_package_default svc_handle socket_id).2.
(** the package is sent as it is created *)
Definition server_exit : M unit := _send_ctrl_cmd ctrl_cmd_package_default.
Definition server_close (svc_handle socket_id : Z) : M unit :=
  _send_ctrl_cmd (prepare_ctrl_cmd_request_close ctrl_cmd_package_default svc_handle socket_id).2.
Definition server_shutdown (svc_handle socket_id : Z) : M unit :=
  _send_ctrl_cmd (prepare_ctrl_cmd_request_shutdown ctrl_cmd_package_default svc_handle socket_id).2.
Definition server_nodelay (socket_id : Z) : M unit :=
  _send_ctrl_cmd (prepare_ctrl_cmd_request_set_opt ctrl_cmd_package_default socket_id).2.
Definition server_update_time (time_ticks : Z) : M unit :=
  modify (λ s, s <| sv_time_ticks := time_ticks |>).

Definition server_bind_os_fd (svc_handle os_fd : Z) : M Z :=
  socket_id ← alloc_socket_id;
  if socket_id <? 0 then mret INVALID_SOCKET_ID
  else
    _send_ctrl_cmd (prepare_ctrl_cmd_request_bind ctrl_cmd_package_default svc_handle socket_id os_fd).2;;
    mret socket_id.

(** [prepare_ctrl_cmd_request_send] on the package [clone_send_data] wrote the size into *)
Definition send_cmd (socket_id : Z) (sd : send_data) (high : bool) : M unit :=
  '(data_ptr, data_size) ← clone_send_data sd;
  _send_ctrl_cmd (prepare_ctrl_cmd_request_send (put8 ctrl_cmd_package_default 8 data_size) socket_id data_ptr high).2.

(** the part of [send] under the mutex, when the object can be sent to directly: the value
    [send] returns *)
Definition direct_send (i : Z) (sd : send_data) : M Z :=
  let socket_id := sd_socket_id sd in
  s ← sock i;
  so ← init_send_user_object sd;
  let write : M (option Z) :=
    if so_socket_type s =? SOCKET_TYPE_TCP then
      data ← load (suo_buffer so) (suo_sz so);
      r ← sys (SysWrite (so_socket_fd s) data); mret (Some (sr_ret r))
    else
      let '(endpoint_sz, endpoint) := from_udp_address endpoint_zero (so_socket_type s) (so_p s) in
      if endpoint_sz =? 0 then mret None
      else
        data ← load (suo_buffer so) (suo_sz so);
        r ← sys (SysSendto (so_socket_fd s) data endpoint endpoint_sz); mret (Some (sr_ret r)) in
  sent ← write;
  match sent with
  | None =>
      log_error_msg ("socket-server : set udp (" ++ dec_str socket_id ++ ") address first.");;
      call_free (suo_free so);;
      upd_sock i (λ s, s <| so_mutex := false |>);;
      mret (-1)
  | Some n =>
      let send_bytes := if n <? 0 then 0 else n in
      time_ticks ← gets sv_time_ticks;
      upd_sock i (λ s, statistics_send s send_bytes time_ticks);;
      if send_bytes =? suo_sz so then
        call_free (suo_free so);;
        upd_sock i (λ s, s <| so_mutex := false |>);;
        mret 0
      else
        '(data_ptr, data_size) ← clone_send_data sd;
        upd_sock i (λ s, s <| so_direct_write_buffer := data_ptr |> <| so_direct_write_size := data_size |>
                           <| so_direct_write_offset := send_bytes |> <| so_mutex := false |>);;
        inc_sending i socket_id;;
        _send_ctrl_cmd (prepare_ctrl_cmd_request_trigger_write ctrl_cmd_package_default socket_id).2;;
        mret 0
  end.

(** [socket_server::send]; the check before and the check after the lock see the same
    object, as nothing runs between them here *)
Definition server_send (sd : send_data) : M Z :=
  let socket_id := sd_socket_id sd in
  let i := socket_array_index socket_id in
  s ← sock i;
  if is_invalid s socket_id then free_send_data sd;; mret (-1)
  else if can_direct_send s socket_id && negb (so_mutex s) then
    upd_sock i (λ s, s <| so_mutex := true |>);;
    direct_send i sd
  else
    inc_sending i socket_id;;
    send_cmd socket_id sd true;;
    mret 0.

Definition server_send_low_priority (sd : send_data) : M Z :=
  let socket_id := sd_socket_id sd in
  let i := socket_array_index socket_id in
  s ← sock i;
  if is_invalid s socket_id then free_send_data sd;; mret (-1)
  else
    inc_sending i socket_id;;
    send_cmd socket_id sd false;;
    mret 0.

(** ** UDP *)

Definition server_udp_socket (svc_handle : Z) (local_ip : string) (local_port : Z) : M Z :=
  '(socket_fd, family) ←
    (if negb (local_port =? 0) || negb (String.length local_ip =? 0)%nat
     then _do_bind local_ip local_port IPPROTO_UDP
     else r ← sys (SysSocket AF_INET SOCK_DGRAM 0);
          mret (if sr_ret r <? 0 then INVALID_FD else sr_ret r, AF_INET));
  if socket_fd =? INVALID_FD then mret INVALID_SOCKET_ID
  else
    nonblocking socket_fd;;
    socket_id ← alloc_socket_id;
    if socket_id <? 0 then sys (SysClose socket_fd);; mret INVALID_SOCKET_ID
    else
      _send_ctrl_cmd (prepare_ctrl_cmd_request_udp_socket ctrl_cmd_package_default svc_handle socket_id socket_fd family).2;;
      mret socket_id.

(** the direct part of [udp_send]: [None] when the socket thread has to send *)
Definition udp_direct_send (i : Z) (udp_address : list Z) (sd : send_data) : M (option Z) :=
  s ← sock i;
  so ← init_send_user_object sd;
  let '(endpoint_sz, endpoint) := from_udp_address endpoint_zero (so_socket_type s) udp_address in
  if endpoint_sz =? 0 then call_free (suo_free so);; mret (Some (-1))
  else
    data ← load (suo_buffer so) (suo_sz so);
    r ← sys (SysSendto (so_socket_fd s) data endpoint endpoint_sz);
    if 0 <=? sr_ret r then
      time_ticks ← gets sv_time_ticks;
      upd_sock i (λ s, statistics_send s (sr_ret r) time_ticks);;
      call_free (suo_free so);;
      mret (Some 0)
    else mret None.

Definition server_udp_send (udp_address : list Z) (sd : send_data) : M Z :=
  let socket_id := sd_socket_id sd in
  let i := socket_array_index socket_id in
  s ← sock i;
  if is_invalid s socket_id then free_send_data sd;; mret (-1)
  else
    let type := nth 0 udp_address 0 in
    if negb (type =? SOCKET_TYPE_UDP) && negb (type =? SOCKET_TYPE_UDPv6) then free_send_data sd;; mret (-1)
    else
      let addr_sz := if type =? SOCKET_TYPE_UDP then 7 else 19 in
      done ← (if can_direct_send s socket_id && negb (so_mutex s) then udp_direct_send i udp_address sd else mret None);
      match done with
      | Some ret => mret ret
      | None =>
          '(data_ptr, data_size) ← clone_send_data sd;
          _send_ctrl_cmd (prepare_ctrl_cmd_request_send_udp (put8 ctrl_cmd_package_default 8 data_size)
                            socket_id data_ptr udp_address addr_sz).2;;
          mret 0
      end.

Definition server_udp_connect (socket_id : Z) (remote_ip : string) (remote_port : Z) : M Z :=
  let i := socket_array_index socket_id in
  s ← sock i;
  if is_invalid s socket_id then mret (-1)
  else if so_mutex s then mfail Blocked
  else
    upd_sock i inc_udp_connecting_count;;
    r ← sys (SysGetaddrinfo remote_ip (dec_str remote_port) AF_UNSPEC SOCK_DGRAM IPPROTO_UDP);
    if negb (sr_ret r =? 0) then mret (-1)
    else
      match sr_addrs r with
      | [] => mfail NullDeref
      | ai :: _ =>
          if (ai_family ai =? AF_INET) || (ai_family ai =? AF_INET6) then
            let type := if ai_family ai =? AF_INET then SOCKET_TYPE_UDP else SOCKET_TYPE_UDPv6 in
            _send_ctrl_cmd (prepare_ctrl_cmd_request_set_udp ctrl_cmd_package_default socket_id type (ai_addr ai)).2;;
            mret 0
          else mret (-1)
      end.

(** [udp_address]: the address behind the data of a UDP message, and its size *)
Definition server_udp_address (msg : socket_message) : M (option (Z * list Z)) :=
  match sm_data_ptr msg with
  | DBlock p =>
      type ← load (mkPtr p (sm_ud msg)) 1;
      let type := nth 0 type 0 in
      if type =? SOCKET_TYPE_UDP then a ← load (mkPtr p (sm_ud msg)) 7; mret (Some (7, a))
      else if type =? SOCKET_TYPE_UDPv6 then a ← load (mkPtr p (sm_ud msg)) 19; mret (Some (19, a))
      else mret None
  | _ => mfail NullDeref
  end.

(** ** Information about the sockets (socket_info.h, socket_object.cpp) *)

Inductive socket_info_type :=
  | SOCKET_INFO_TYPE_UNKNOWN
  | SOCKET_INFO_TYPE_LISTEN
  | SOCKET_INFO_TYPE_TCP
  | SOCKET_INFO_TYPE_UDP
  | SOCKET_INFO_TYPE_BIND
  | SOCKET_INFO_TYPE_CLOSING.

Record socket_info := mkInfo {
  si_socket_id : Z;
  si_type : socket_info_type;
  si_svc_handle : Z;
  si_statistics : socket_statistics;
  si_write_buffer_size : Z;
  si_reading : bool;
  si_writing : bool;
  si_endpoint : string
}.

(** the text of an endpoint in a [char[128]] that was empty *)
Definition info_endpoint (ep : option socket_endpoint) : string :=
  match ep with Some ep => (endpoint_to_buffer inet_ntop ep 128).2 | None => "" end.

Definition get_socket_info (s : socket_object) : M (option socket_info) :=
  x ← (match so_status s with
       | SOCKET_STATUS_BIND => mret (Some (SOCKET_INFO_TYPE_BIND, None))
       | SOCKET_STATUS_LISTEN =>
           r ← sys (SysGetsockname (so_socket_fd s));
           mret (Some (SOCKET_INFO_TYPE_LISTEN, if sr_ret r =? 0 then Some (sr_endpoint r) else None))
       | SOCKET_STATUS_HALF_CLOSE_READ | SOCKET_STATUS_HALF_CLOSE_WRITE | SOCKET_STATUS_CONNECTED =>
           let closing := negb (status_is (so_status s) SOCKET_STATUS_CONNECTED) in
           if so_socket_type s =? SOCKET_TYPE_TCP then
             r ← sys (SysGetpeername (so_socket_fd s));
             mret (Some (if closing then SOCKET_INFO_TYPE_CLOSING else SOCKET_INFO_TYPE_TCP,
                         if sr_ret r =? 0 then Some (sr_endpoint r) else None))
           else
             let '(n, ep) := from_udp_address endpoint_zero (so_socket_type s) (so_p s) in
             mret (Some (SOCKET_INFO_TYPE_UDP, if negb (n =? 0) then Some ep else None))
       | _ => mret None
       end);
  mret (match x with
        | None => None
        | Some (type, ep) =>
            Some (mkInfo (so_socket_id s) type (so_svc_handle s) (so_io_statistics s) (so_write_buffer_size s)
                    (so_reading s) (so_writing s) (info_endpoint ep))
        end).

(** [socket_object_pool::get_socket_info], from the object [i] on *)
Fixpoint pool_socket_info (n : nat) (i : Z) : M (list socket_info) :=
  match n with
  | O => mret []
  | S n =>
      s ← sock i;
      si ← get_socket_info s;
      rest ← pool_socket_info n (i + 1);
      mret (match si with Some si => si :: rest | None => rest end)
  end.

Definition server_get_socket_info : M (list socket_info) := pool_socket_info (Z.to_nat MAX_SOCKET) 0.

(** ** Start and end *)

Definition server_init (ticks : Z) : M bool :=
  modify (λ s, s <| sv_time_ticks := ticks |>);;
  ok ← poller_init;
  if negb ok then log_error_msg "socket-server: create event poll fd failed.";; mret false
  else
    ok ← pipe_init;
    if negb ok then log_error_msg "socket-server: create pipe failed.";; mret false
    else
      read_fd ← gets sv_read_fd;
      added ← poller_add read_fd None;
      if negb added then
        log_error_msg "socket-server: can't add server socket fd to event poll.";;
        pipe_fini;;
        mret false
      else mret true.

(** the loop of [fini] over the objects, from [i] on *)
Fixpoint fini_loop (n : nat) (i : Z) : M unit :=
  match n with
  | O => mret ()
  | S n =>
      s ← sock i;
      (if negb (status_is (so_status s) SOCKET_STATUS_ALLOCED) then force_close i 0;; mret () else mret ());;
      fini_loop n (i + 1)
  end.

Definition server_fini : M unit :=
  fini_loop (Z.to_nat MAX_SOCKET) 0;;
  pipe_fini;;
  poller_fini.
End server.

(** a server as it is created, on a kernel *)
Definition server_new {K} (k : K) : server K :=
  mkServer INVALID_FD INVALID_FD INVALID_FD 0 [] true (replicate (Z.to_nat MAX_WAIT_EVENT) (mkEv None false false false false)) 0 0
    socket_object_pool_init "" socket_message_default ∅ ∅ 1 [] 0 k.
