(* ===== verification/SocketStream.v ===== *)
(** * Sending over a TCP connection

    Worker threads and the socket thread both write to a connected socket: a worker writes
    directly when nothing is waiting, leaves what the kernel did not take in the direct
    write buffer, and otherwise sends a command; the socket thread moves commands to the
    write buffer lists and writes those when the kernel is ready. This file proves that the
    three places together are one queue: whatever the kernel takes at each write, the bytes
    reach it in the order of the sends, none lost and none twice, and while bytes are
    waiting the socket thread has been asked to write. *)
From Stdlib Require Import String.
From S2P Require Import Prelude Bytes Text SocketObject SocketEndpoint SocketCmd SocketState SocketServer.
Open Scope list_scope.
Open Scope Z_scope.

(** ** What the kernel promises about descriptors that do not block

    [k_sent k fd] are the bytes the kernel took for [fd] so far. A [write] takes a prefix of
    its data or fails; other calls than [write] and [sendto] take nothing. A call that does not
    block is not interrupted. *)
Class StreamKernel (K : Type) `{Kernel K} := {
  k_sent : K → Z → list Z;
  k_write : ∀ fd data k,
    let '(r, k') := kernel (SysWrite fd data) k in
    (0 <= sr_ret r <= Z.of_nat (length data) ∧
       k_sent k' fd = (k_sent k fd ++ take (Z.to_nat (sr_ret r)) data)%list) ∨
    (sr_ret r = -1 ∧ sr_errno r ≠ EINTR ∧ k_sent k' fd = k_sent k fd);
  k_shutdown : ∀ fd how k, k_sent (kernel (SysShutdown fd how) k).2 = k_sent k;
  k_epoll_mod : ∀ fd ud events k, k_sent (kernel (SysEpollMod fd ud events) k).2 = k_sent k
}.

(** ** The operations *)

Inductive stream_op :=
  | OpSend (data : list Z)     (** a worker sends a Lua string *)
  | OpCommand                  (** the socket thread takes the next command, if there is one *)
  | OpWritable.                (** the kernel reports the socket writable, if it was asked to *)

Section ops.
Context {K : Type} `{Kernel K}.
Variables (fuel : nat) (id : Z).
Notation i := (socket_array_index id).

(** a Lua string is memory of its own that outlives the call of [send] *)
Definition send_string (data : list Z) : M K Z :=
  p ← new_block data;
  r ← server_send (mkSd id SEND_DATA_TYPE_USER_DATA p (Z.of_nat (length data)));
  delete_block p;;
  mret r.

Definition stream_step (op : stream_op) : M K (list Z) :=
  match op with
  | OpSend data => send_string data;; mret data
  | OpCommand =>
      pipe ← gets sv_pipe;
      (if bool_decide (pipe = []) then mret () else handle_ctrl_cmd;; mret ());; mret []
  | OpWritable =>
      s ← sock i;
      (if so_writing s then send_write_buffer fuel i 0;; mret () else mret ());; mret []
  end.

(** the operations one after the other, while the socket is connected: the bytes sent *)
Fixpoint stream_run (ops : list stream_op) : M K (list Z) :=
  match ops with
  | [] => mret []
  | op :: ops =>
      s ← sock i;
      if status_is (so_status s) SOCKET_STATUS_CONNECTED then
        data ← stream_step op;
        rest ← stream_run ops;
        mret (data ++ rest)%list
      else mret []
  end.
End ops.

(** ** The invariant *)

(** the buffers of a list, from its head: address, buffer, and the bytes left to write *)
Definition chunk : Type := Z * write_buffer * list Z.

Inductive wchain (wbs : gmap Z write_buffer) : Z → list chunk → Prop :=
  | wchain_nil : wchain wbs 0 []
  | wchain_cons a wb rest l : 0 < a → wbs !! a = Some wb → wchain wbs (wb_next wb) l →
      wchain wbs a ((a, wb, rest) :: l).

Definition c_addr (c : chunk) : Z := c.1.1.
Definition c_block (c : chunk) : Z := wb_buffer c.1.2.
Definition c_rest (c : chunk) : list Z := c.2.

(** the data of a block from an offset on *)
Definition rest_at (blocks : gmap Z (list Z)) (p off : Z) (rest : list Z) : Prop :=
  ∃ b, blocks !! p = Some b ∧ 0 <= off <= Z.of_nat (length b) ∧ rest = drop (Z.to_nat off) b.

Definition chunk_ok (blocks : gmap Z (list Z)) (c : chunk) : Prop :=
  let '(_, wb, rest) := c in
  p_block (wb_ptr wb) = wb_buffer wb ∧ rest_at blocks (wb_buffer wb) (p_off (wb_ptr wb)) rest ∧
  wb_sz wb = Z.of_nat (length rest).

(** the commands of the socket in the pipe *)
Inductive item := ItSend (p : Z) (data : list Z) | ItTrigger.

Definition item_wire (id : Z) (it : item) : list Z :=
  match it with
  | ItSend p data =>
      ctrl_cmd_wire (prepare_ctrl_cmd_request_send
        (put8 ctrl_cmd_package_default 8 (Z.of_nat (length data))) id p true).2
  | ItTrigger => ctrl_cmd_wire (prepare_ctrl_cmd_request_trigger_write ctrl_cmd_package_default id).2
  end.
Definition item_data (it : item) : list Z := match it with ItSend _ data => data | ItTrigger => [] end.
Definition item_blocks (it : item) : list Z := match it with ItSend p _ => [p] | ItTrigger => [] end.
Definition item_count (it : item) : Z := match it with ItSend _ _ => 1 | ItTrigger => 0 end.
Definition item_ok (blocks : gmap Z (list Z)) (it : item) : Prop :=
  match it with
  | ItSend p data => blocks !! p = Some data ∧ Z.of_nat (length data) < USER_OBJECT_TAG ∧ p < 2 ^ 64
  | ItTrigger => True
  end.

Definition sum_Z (l : list Z) : Z := foldr Z.add 0 l.

Definition c_sz (c : chunk) : Z := wb_sz c.1.2.

(** the blocks that hold bytes that are waiting: they are different and allocated *)
Definition waiting_blocks (dw : option (Z * list Z)) (hs : list chunk) (items : list item) : list Z :=
  (option_list (fst <$> dw) ++ (c_block <$> hs) ++ concat (item_blocks <$> items))%list.

(** the bytes that are waiting, in the order they will be written *)
Definition waiting (dw : option (Z * list Z)) (hs : list chunk) (items : list item) : list Z :=
  (default [] (snd <$> dw) ++ concat (c_rest <$> hs) ++ concat (item_data <$> items))%list.

(** the high priority list of the object [s] *)
Record list_ok (s : socket_object) (wbs : gmap Z write_buffer) (blocks : gmap Z (list Z)) (next : Z) (hs : list chunk) : Prop := {
  l_head : wchain wbs (wl_head (so_high s)) hs;
  l_tail : wl_tail (so_high s) = default 0 (last (c_addr <$> hs));
  l_addrs : NoDup (c_addr <$> hs);
  l_bound : Forall (λ a, a < next) (c_addr <$> hs);
  l_chunks : Forall (chunk_ok blocks) hs;
  l_size : so_write_buffer_size s = sum_Z (c_sz <$> hs)
}.

(** the unfinished direct write of [s]: its block and the bytes left *)
Definition direct_ok (s : socket_object) (blocks : gmap Z (list Z)) (dw : option (Z * list Z)) : Prop :=
  match dw with
  | None => so_direct_write_buffer s = 0
  | Some (p, rest) =>
      so_direct_write_buffer s = p ∧ rest_at blocks p (so_direct_write_offset s) rest ∧
      so_direct_write_size s = so_direct_write_offset s + Z.of_nat (length rest) ∧
      so_direct_write_size s < USER_OBJECT_TAG
  end.

(** [s] is the TCP socket [id] on the descriptor [fd] *)
Record sock_ok (id fd : Z) (s : socket_object) (status : socket_status) : Prop := {
  s_id : so_socket_id s = id;
  s_fd : so_socket_fd s = fd;
  s_type : so_socket_type s = SOCKET_TYPE_TCP;
  s_status : so_status s = status;
  s_closing : so_closing s = false;
  s_mutex : so_mutex s = false;
  s_low : so_low s = wbl_empty
}.

Section inv.
Context {K : Type} `{StreamKernel K}.
Variables (id fd : Z).
Notation i := (socket_array_index id).
Notation S st := (socket_at (sv_pool st) i).

(** [c] is the count of sends; more than the commands in the pipe once a direct write was
    unfinished *)
Record stream_inv (st : server K) (status : socket_status) (dw : option (Z * list Z)) (hs : list chunk)
    (items : list item) (c : Z) : Prop := {
  i_sock : sock_ok id fd (S st) status;
  i_high : list_ok (S st) (sv_wbs st) (sv_blocks st) (sv_next st) hs;
  i_direct : direct_ok (S st) (sv_blocks st) dw;
  i_pipe : sv_pipe st = concat (item_wire id <$> items);
  i_items : Forall (item_ok (sv_blocks st)) items;
  i_nodup : NoDup (waiting_blocks dw hs items);
  i_alloc : Forall (λ p, 0 < p < sv_next st) (waiting_blocks dw hs items);
  i_count : so_sending_count (S st) = Z.shiftl (socket_id_high16 id) 16 + c;
  i_items_count : sum_Z (item_count <$> items) <= c;
  i_count_bound : 0 <= c < 0xFFFF;
  i_wait_high : hs ≠ [] → so_writing (S st) = true;
  i_wait_dw : dw ≠ None → so_writing (S st) = true ∨ ItTrigger ∈ items;
  i_next : 0 < sv_next st
}.
End inv.

(** ** Symbolic execution *)

Lemma M_bind_Ok {K A B} (m : M K A) (k : A → M K B) st a st' :
  m st = Ok (a, st') → (m ≫= k) st = k a st'.
Proof. intros Hm. unfold mbind, M_bind. by rewrite Hm. Qed.

Lemma M_bind_assoc {K A B C} (m : M K A) (k : A → M K B) (k' : B → M K C) st :
  ((m ≫= k) ≫= k') st = (m ≫= λ a, k a ≫= k') st.
Proof. unfold mbind, M_bind. by destruct (m st) as [[]|]. Qed.

(** one computation with a known outcome; then those that need no case distinction *)
Ltac mstep tac := rewrite ?M_bind_assoc; erewrite M_bind_Ok by tac; cbv beta iota zeta.
Ltac mrun := repeat first [rewrite M_bind_assoc | erewrite M_bind_Ok by reflexivity; cbv beta iota zeta].

(** a field of an updated record *)
Ltac psimpl :=
  repeat match goal with
  | |- context [?p (@set_to ?R ?T ?q ?j ?v ?s)] =>
      first [change (p (@set_to R T q j v s)) with v | change (p (@set_to R T q j v s)) with (p s)]
  end.
Ltac psimpl_in H :=
  repeat match type of H with
  | context [?p (@set_to ?R ?T ?q ?j ?v ?s)] =>
      first [change (p (@set_to R T q j v s)) with v in H | change (p (@set_to R T q j v s)) with (p s) in H]
  end.

Lemma check_true {K} b (st : server K) : b = true → check b st = Ok (tt, st).
Proof. by intros ->. Qed.

Lemma socket_at_same pool j s : socket_at (put_at pool j s) j = s.
Proof. rewrite socket_at_put. by rewrite decide_True. Qed.

(** ** Counts *)

Lemma socket_id_high16_range id : 0 <= socket_id_high16 id < 2 ^ 16.
Proof.
  unfold socket_id_high16. change 0xFFFF with (Z.ones 16). rewrite Z.land_ones by lia. apply Z.mod_pos_bound. lia.
Qed.

Lemma count_low id c : 0 <= c < 2 ^ 16 →
  Z.land (Z.shiftl (socket_id_high16 id) 16 + c) 0xFFFF = c ∧
  Z.shiftr (Z.shiftl (socket_id_high16 id) 16 + c) 16 = socket_id_high16 id ∧
  u32 (Z.shiftl (socket_id_high16 id) 16 + c) = Z.shiftl (socket_id_high16 id) 16 + c.
Proof.
  intros Hc. pose proof (socket_id_high16_range id) as Hh. change 0xFFFF with (Z.ones 16).
  rewrite Z.land_ones, Z.shiftl_mul_pow2, Z.shiftr_div_pow2 by lia.
  rewrite (Z.add_comm (_ * _)). split; [|split].
  - rewrite Z.mod_add by lia. by apply Z.mod_small.
  - rewrite Z.div_add, Z.div_small by lia. lia.
  - apply u32_small. lia.
Qed.

Lemma sum_Z_app l1 l2 : sum_Z (l1 ++ l2) = sum_Z l1 + sum_Z l2.
Proof. induction l1 as [|x l1 IH]; simpl; [done|]. rewrite IH. lia. Qed.

Lemma item_count_nonneg items : 0 <= sum_Z (item_count <$> items).
Proof. induction items as [|[] items IH]; [done|..]; rewrite fmap_cons; simpl; lia. Qed.

(** ** Lists of write buffers *)

Lemma wchain_frame wbs wbs' h hs : wchain wbs h hs →
  (∀ a, a ∈ c_addr <$> hs → wbs' !! a = wbs !! a) → wchain wbs' h hs.
Proof.
  induction 1 as [|a wb rest l Ha Hl Hc IH]; intros Hf; [constructor|].
  constructor; [done| |apply IH; intros b Hb; apply Hf; set_solver].
  rewrite Hf; [done|set_solver].
Qed.

Lemma wchain_null wbs h hs : wchain wbs h hs → is_null h = bool_decide (hs = []).
Proof. destruct 1; [done|]. unfold is_null. rewrite (proj2 (Z.eqb_neq _ 0)) by lia. done. Qed.

Lemma wchain_snoc wbs h hs a0 wb0 r0 a wb rest : wchain wbs h (hs ++ [(a0, wb0, r0)]) →
  NoDup (c_addr <$> hs ++ [(a0, wb0, r0)]) → 0 < a → a ∉ (c_addr <$> hs ++ [(a0, wb0, r0)]) → wb_next wb = 0 →
  wchain (<[a0 := wb0 <| wb_next := a |>]> (<[a := wb]> wbs)) h
    (hs ++ [(a0, wb0 <| wb_next := a |>, r0); (a, wb, rest)]).
Proof.
  revert h. induction hs as [|[[b wbb] rb] hs IH]; intros h Hc Hnd Ha Hni Hw.
  - inversion Hc as [|? ? ? ? Ha0 Hl Hn]; subst. simpl in *. apply wchain_cons; [done|by rewrite lookup_insert_eq|].
    simpl. apply wchain_cons; [done|rewrite lookup_insert_ne, lookup_insert_eq; [done|set_solver]|].
    rewrite Hw. constructor.
  - inversion Hc as [|? ? ? ? Hb Hl Hn]; subst. simpl in *. apply NoDup_cons in Hnd as [Hbn Hnd].
    apply wchain_cons; [done| |apply IH; [done|done|done|set_solver|done]].
    rewrite lookup_insert_ne, lookup_insert_ne; [done|set_solver|].
    rewrite fmap_app in Hbn. simpl in Hbn. set_solver.
Qed.

(** the data of the waiting blocks is all that matters of the heap *)
Lemma chunks_blocks blocks blocks' hs : (∀ q, q ∈ c_block <$> hs → blocks' !! q = blocks !! q) →
  Forall (chunk_ok blocks) hs → Forall (chunk_ok blocks') hs.
Proof.
  intros Hb Hok. rewrite Forall_forall in Hok |- *. intros [[a wb] rest] Hin.
  destruct (Hok _ Hin) as (E1 & (b & E2 & E3) & E4). split_and!; try done. exists b. rewrite Hb; [done|].
  apply list_elem_of_fmap. by exists (a, wb, rest).
Qed.

Lemma items_blocks blocks blocks' items : (∀ q, q ∈ concat (item_blocks <$> items) → blocks' !! q = blocks !! q) →
  Forall (item_ok blocks) items → Forall (item_ok blocks') items.
Proof.
  intros Hb Hok. rewrite Forall_forall in Hok |- *. intros [q data|] Hin; [|done].
  destruct (Hok _ Hin) as (E1 & E2 & E3). split_and!; try done.
  rewrite Hb; [done|]. apply list_elem_of_In, in_concat.
  exists [q]. split; [|by left]. apply in_map_iff. exists (ItSend q data). split; [done|]. by apply list_elem_of_In.
Qed.

(** ** What does not matter to the stream *)

(** the fields of a socket object the stream depends on *)
Definition core (s : socket_object) : socket_object :=
  s <| so_io_statistics := socket_statistics_zero |> <| so_warn_size := 0 |> <| so_writing := false |>
    <| so_svc_handle := 0 |> <| so_reading := false |>.

Lemma sock_ok_core id fd s s' status : core s' = core s → sock_ok id fd s status → sock_ok id fd s' status.
Proof. intros Hc []. destruct s, s'. injection Hc as. subst. by constructor. Qed.

Lemma list_ok_core s s' wbs blocks next hs : core s' = core s → list_ok s wbs blocks next hs → list_ok s' wbs blocks next hs.
Proof. intros Hc []. destruct s, s'. injection Hc as. subst. by constructor. Qed.

Lemma direct_ok_core s s' blocks dw : core s' = core s → direct_ok s blocks dw → direct_ok s' blocks dw.
Proof. intros Hc. destruct s, s'. injection Hc as. subst. done. Qed.

(** [s'] is [s] with another high priority list *)
Definition list_changed (s s' : socket_object) : Prop :=
  core s' = core s <| so_high := so_high s' |> <| so_write_buffer_size := so_write_buffer_size s' |>.

Lemma list_changed_ok id fd s s' status blocks dw : list_changed s s' → sock_ok id fd s status → direct_ok s blocks dw →
  sock_ok id fd s' status ∧ direct_ok s' blocks dw ∧ so_sending_count s' = so_sending_count s.
Proof.
  unfold list_changed. intros Hc [] Hd. destruct s, s'. simpl in *. injection Hc as. subst. split; [by constructor|]. done.
Qed.

Section proofs.
Context {K : Type} `{StreamKernel K}.
Variables (id fd : Z).
Notation i := (socket_array_index id).
Notation S st := (socket_at (sv_pool st) i).

(** the rest of the server the stream depends on is the same *)
Record frame (st st' : server K) : Prop := {
  f_wbs : sv_wbs st' = sv_wbs st;
  f_blocks : sv_blocks st' = sv_blocks st;
  f_next : sv_next st' = sv_next st;
  f_pipe : sv_pipe st' = sv_pipe st;
  f_sent : k_sent (sv_os st') = k_sent (sv_os st)
}.

Lemma frame_trans st1 st2 st3 : frame st1 st2 → frame st2 st3 → frame st1 st3.
Proof. intros [] []. split; congruence. Qed.

Lemma stream_inv_core (st st' : server K) status dw hs items c : stream_inv id fd st status dw hs items c →
  sv_wbs st' = sv_wbs st → sv_blocks st' = sv_blocks st → sv_next st' = sv_next st → sv_pipe st' = sv_pipe st →
  core (S st') = core (S st) → (so_writing (S st) = true → so_writing (S st') = true) →
  stream_inv id fd st' status dw hs items c.
Proof.
  intros [] Hw Hb Hn Hp Hcore Hwr. split; rewrite ?Hw, ?Hb, ?Hn, ?Hp; try done; eauto using sock_ok_core, list_ok_core, direct_ok_core.
  - assert (Hc : so_sending_count (S st') = so_sending_count (S st)) by (exact (f_equal so_sending_count Hcore)).
    by rewrite Hc.
  - intros Hd. destruct (i_wait_dw0 Hd); eauto.
Qed.

Lemma stream_inv_frame st st' status dw hs items c : stream_inv id fd st status dw hs items c →
  frame st st' → core (S st') = core (S st) → (so_writing (S st) = true → so_writing (S st') = true) →
  stream_inv id fd st' status dw hs items c.
Proof. intros Hinv [] Hcore Hwr. by apply (stream_inv_core st). Qed.

(** [enable_write] *)
Lemma enable_write_frame b st : ∃ n st', enable_write i b st = Ok (n, st') ∧ frame st st' ∧
  core (S st') = core (S st) ∧ so_writing (S st') = b.
Proof.
  unfold enable_write. mrun. destruct (eqb (so_writing (S st)) b) eqn:E; simpl.
  - exists 0, st. split; [done|]. split; [by split|]. split; [done|]. by apply eqb_prop.
  - mrun. unfold poller_enable, sys. unfold mbind, M_bind.
    match goal with |- context [kernel ?c ?k] => destruct (kernel c k) as [r k'] eqn:Hk end.
    simpl. eexists _, _. split; [done|]. split; [|simpl; by rewrite !socket_at_same].
    split; try done. simpl. change k' with (r, k').2. rewrite <- Hk. apply k_epoll_mod.
Qed.

Lemma wb_get_Ok (st : server K) p wb : 0 < p → sv_wbs st !! p = Some wb → wb_get p st = Ok (wb, st).
Proof. intros Hp Hl. unfold wb_get, is_null. rewrite (proj2 (Z.eqb_neq _ 0)) by lia. by rewrite Hl. Qed.

(** [check_write_size] *)
Lemma check_write_size_frame st : ∃ n st', check_write_size i st = Ok (n, st') ∧ frame st st' ∧
  core (S st') = core (S st) ∧ so_writing (S st') = so_writing (S st).
Proof.
  unfold check_write_size. mrun. destruct (_ && _).
  - mrun. eexists _, _. split; [done|]. split; [by split|]. simpl. by rewrite !socket_at_same.
  - by exists (-1), st.
Qed.

(** [append_send_buffer] to the high priority list *)
Lemma append_spec st hs p data : list_ok (S st) (sv_wbs st) (sv_blocks st) (sv_next st) hs →
  sv_blocks st !! p = Some data → Z.of_nat (length data) < USER_OBJECT_TAG → 0 < sv_next st →
  ∃ (st' : server K) (hs' : list chunk), append_send_buffer i p (Z.of_nat (length data)) true None st = Ok (tt, st') ∧
    list_ok (S st') (sv_wbs st') (sv_blocks st) (sv_next st + 1) hs' ∧
    c_block <$> hs' = (c_block <$> hs) ++ [p] ∧ c_rest <$> hs' = (c_rest <$> hs) ++ [data] ∧
    sv_blocks st' = sv_blocks st ∧ sv_next st' = sv_next st + 1 ∧ sv_pipe st' = sv_pipe st ∧ sv_os st' = sv_os st ∧
    S st' = S st <| so_high := so_high (S st') |> <| so_write_buffer_size := so_write_buffer_size (S st') |>.
Proof.
  intros [Lh Lt Ln Lb Lc Ls] Hp Hlen Hnext. unfold append_send_buffer, alloc_write_buffer, init_send_user_object_raw.
  rewrite (proj2 (Z.eqb_neq _ _)) by (unfold USER_OBJECT_TAG in *; lia).
  set (wb := mkWb 0 p (mkPtr p 0) (Z.of_nat (length data)) false None).
  assert (Hok : chunk_ok (sv_blocks st) (sv_next st, wb, data)).
  { split; [done|]. split; [|done]. exists data. split; [done|]. simpl. split; [lia|done]. }
  assert (Hfresh : sv_next st ∉ c_addr <$> hs).
  { intros Hin. rewrite Forall_forall in Lb. specialize (Lb _ Hin). simpl in Lb. lia. }
  destruct hs as [|[[a0 wb0] r0] hs _] using rev_ind.
  - inversion Lh as [Hh|].
    erewrite M_bind_Ok by (mrun; cbn [get_list sv_pool set_to]; rewrite <- Hh; cbn [is_null Z.eqb]; mrun; reflexivity).
    erewrite M_bind_Ok by (apply (wb_get_Ok _ _ wb); [done|]; simpl; by rewrite lookup_insert_eq).
    mrun. eexists _, [(sv_next st, wb, data)]. split; [reflexivity|]. simpl. rewrite !socket_at_same.
    split; [|done]. split; simpl.
    + constructor; [done|by rewrite lookup_insert_eq|constructor].
    + done.
    + apply NoDup_singleton.
    + apply Forall_singleton. unfold c_addr. simpl. lia.
    + by apply Forall_singleton.
    + rewrite Ls. simpl. unfold c_sz. simpl. lia.
  - assert (Htail : wl_tail (so_high (S st)) = a0).
    { rewrite Lt, fmap_app, last_app. done. }
    assert (Hin : sv_wbs st !! a0 = Some wb0 ∧ 0 < a0 ∧ wb_next wb0 = 0).
    { clear -Lh. remember (wl_head (so_high (S st))) as h eqn:E. clear E. revert h Lh.
      induction hs as [|[[b wbb] rb] hs IH]; intros h Lh; inversion Lh as [|? ? ? ? ? ? Hn]; subst; [by inversion Hn|eauto]. }
    destruct Hin as (Hl0 & Ha0 & Hn0).
    mrun. cbn [get_list sv_pool set_to]. rewrite (wchain_null _ _ _ Lh), bool_decide_eq_false_2 by (by destruct hs).
    cbv iota. rewrite Htail.
    mstep ltac:(apply check_true; unfold is_null; by rewrite (proj2 (Z.eqb_neq _ 0)) by lia).
    mstep ltac:(apply (wb_get_Ok _ _ wb0); [done|]; simpl; rewrite lookup_insert_ne; [done|
        intros <-; apply Hfresh; rewrite fmap_app; set_solver]).
    rewrite Hn0. mrun.
    mstep ltac:(apply (wb_get_Ok _ _ wb); [done|]; simpl; rewrite lookup_insert_ne, lookup_insert_eq; [done|
        intros ->; apply Hfresh; rewrite fmap_app; set_solver]).
    mrun. eexists _, (hs ++ [(a0, wb0 <| wb_next := sv_next st |>, r0); (sv_next st, wb, data)]).
    split; [reflexivity|]. simpl. rewrite !socket_at_same.
    assert (Haddr : c_addr <$> hs ++ [(a0, wb0 <| wb_next := sv_next st |>, r0); (sv_next st, wb, data)] =
                    (c_addr <$> hs ++ [(a0, wb0, r0)]) ++ [sv_next st]) by (rewrite !fmap_app, <- app_assoc; done).
    split; [|rewrite !fmap_app, <- !app_assoc; done]. split; simpl; fold (wb0 <| wb_next := sv_next st |>); rewrite ?Haddr.
    + apply wchain_snoc; done.
    + by rewrite last_snoc.
    + apply NoDup_app. split_and!; [done| |apply NoDup_singleton]. by intros x Hx ->%list_elem_of_singleton.
    + apply Forall_app. split; [|by apply Forall_singleton; lia]. eapply Forall_impl; [done|]. simpl. lia.
    + apply Forall_app in Lc as [Lc1 Lc2]. apply Forall_app. split; [done|]. pose proof (Forall_inv Lc2) as Lc3.
      apply Forall_cons. split; [exact Lc3|]. by apply Forall_singleton.
    + rewrite Ls, !fmap_app, !sum_Z_app. simpl. unfold c_sz. simpl. lia.
Qed.

(** one more buffer at the end of the high priority list *)
Record appended (st st' : server K) (hs hs' : list chunk) (p : Z) (data : list Z) : Prop := {
  a_list : list_ok (S st') (sv_wbs st') (sv_blocks st') (sv_next st') hs';
  a_block : c_block <$> hs' = (c_block <$> hs) ++ [p];
  a_rest : c_rest <$> hs' = (c_rest <$> hs) ++ [data];
  a_blocks : sv_blocks st' = sv_blocks st;
  a_next : sv_next st' = sv_next st + 1;
  a_pipe : sv_pipe st' = sv_pipe st;
  a_sent : k_sent (sv_os st') = k_sent (sv_os st);
  a_changed : list_changed (S st) (S st')
}.

Lemma appended_frame st st1 st2 hs hs' p data : appended st st1 hs hs' p data → frame st1 st2 →
  core (S st2) = core (S st1) → appended st st2 hs hs' p data.
Proof.
  intros [A1 A2 A3 A4 A5 A6 A7 A8] [Fw Fb Fn Fp Fs] Hc. split; try congruence.
  - rewrite Fw, Fb, Fn. by apply (list_ok_core (S st1)).
  - unfold list_changed in *. rewrite Hc, A8.
    assert (so_high (S st2) = so_high (S st1)) as -> by exact (f_equal so_high Hc).
    by assert (so_write_buffer_size (S st2) = so_write_buffer_size (S st1)) as -> by exact (f_equal so_write_buffer_size Hc).
Qed.

(** [handle_ctrl_cmd_send_socket] on the connected socket *)
Lemma handle_send_spec st hs p data : sock_ok id fd (S st) SOCKET_STATUS_CONNECTED →
  list_ok (S st) (sv_wbs st) (sv_blocks st) (sv_next st) hs →
  sv_blocks st !! p = Some data → Z.of_nat (length data) < USER_OBJECT_TAG → 0 < sv_next st →
  (hs ≠ [] → so_writing (S st) = true) →
  ∃ n (st' : server K) (hs' : list chunk),
    handle_ctrl_cmd_send_socket id (Z.of_nat (length data)) p true None st = Ok (n, st') ∧
    appended st st' hs hs' p data ∧ so_writing (S st') = true.
Proof.
  intros Hs Hl Hp Hlen Hnext Hwr. pose proof Hs as [Hid Hfd Htype Hst Hcl Hmu Hlow].
  destruct (append_spec st hs p data Hl Hp Hlen Hnext) as (st1 & hs1 & Ha & Hl1 & Hb1 & Hr1 & Hbl & Hn1 & Hp1 & Ho1 & HS1).
  assert (A1 : appended st st1 hs hs1 p data).
  { split; try congruence. unfold list_changed. rewrite HS1 at 1. by destruct (S st). }
  unfold handle_ctrl_cmd_send_socket, init_send_user_object_raw. mrun.
  assert (Htag : (Z.of_nat (length data) =? USER_OBJECT_TAG) = false) by (apply Z.eqb_neq; lia). rewrite Htag. mrun.
  unfold is_invalid, is_close_write, status_is. rewrite Hst, Hid, Hcl, Z.eqb_refl. cbn [negb orb bool_decide decide_rel].
  rewrite !bool_decide_eq_false_2 by done. cbn [orb].
  unfold is_write_buffer_empty. rewrite Hlow. pose proof (wchain_null _ _ _ (l_head _ _ _ _ _ Hl)) as Hnull. unfold is_null in Hnull.
  rewrite Hnull, Htype. destruct (decide (hs = [])) as [->|Hne].
  - rewrite bool_decide_eq_true_2 by done. cbn [andb wl_head wbl_empty Z.eqb SOCKET_TYPE_TCP].
    mstep ltac:(exact Ha). mrun. cbn [negb].
    destruct (enable_write_frame true st1) as (n2 & st2 & He & F2 & Hc2 & Hw2). mstep ltac:(exact He).
    pose proof (appended_frame _ _ _ _ _ _ _ A1 F2 Hc2) as A2. destruct (negb (n2 =? 0)).
    + mrun. eexists _, _, hs1. split; [reflexivity|]. split; [|done]. by apply (appended_frame _ _ _ _ _ _ _ A2).
    + destruct (check_write_size_frame st2) as (n3 & st3 & Hk & F3 & Hc3 & Hw3).
      exists n3, st3, hs1. split; [done|]. split; [by apply (appended_frame _ _ _ _ _ _ _ A2)|congruence].
  - rewrite bool_decide_eq_false_2 by done. cbn [andb Z.eqb SOCKET_TYPE_TCP].
    mstep ltac:(exact Ha). destruct (check_write_size_frame st1) as (n3 & st3 & Hk & F3 & Hc3 & Hw3).
    exists n3, st3, hs1. split; [done|]. split; [by apply (appended_frame _ _ _ _ _ _ _ A1)|].
    rewrite Hw3, HS1. by apply Hwr.
Qed.

Lemma read_item (st : server K) it items : is_s32 id → Forall (item_ok (sv_blocks st)) (it :: items) →
  Forall (λ p, 0 < p) (item_blocks it) → sv_pipe st = concat (item_wire id <$> it :: items) →
  read_ctrl_cmd (sv_pipe st) =
    Ok (match it with ItSend p data => CmdSend true id (Z.of_nat (length data)) p | ItTrigger => CmdTriggerWrite id 0 0 end,
        concat (item_wire id <$> items)).
Proof.
  intros Hid Hok Hpos ->. rewrite fmap_cons. apply Forall_inv in Hok.
  destruct it as [p data|]; [|by apply read_prepared; constructor].
  apply read_prepared. destruct Hok as (_ & Hlen & Hp). apply Forall_inv in Hpos.
  constructor; [done| |]; unfold is_u64, USER_OBJECT_TAG in *; lia.
Qed.

(** the socket thread handles a send *)
Lemma command_send st dw hs p data items c : is_s32 id →
  stream_inv id fd st SOCKET_STATUS_CONNECTED dw hs (ItSend p data :: items) c →
  ∃ n (st' : server K) hs', handle_ctrl_cmd st = Ok (n, st') ∧
    stream_inv id fd st' SOCKET_STATUS_CONNECTED dw hs' items (c - 1) ∧
    waiting dw hs' items = waiting dw hs (ItSend p data :: items) ∧ length hs' = Datatypes.S (length hs) ∧
    k_sent (sv_os st') = k_sent (sv_os st) ∧ sv_next st' = sv_next st + 1.
Proof.
  intros Hid []. pose proof (Forall_inv i_items0) as (Hp & Hlen & Hp64).
  assert (Hppos : Forall (λ q, 0 < q) (item_blocks (ItSend p data))).
  { apply Forall_singleton. rewrite Forall_forall in i_alloc0. apply i_alloc0. unfold waiting_blocks. rewrite fmap_cons. set_solver. }
  unfold handle_ctrl_cmd. mstep ltac:(rewrite (read_item st _ _ Hid i_items0 Hppos i_pipe0); reflexivity).
  set (st0 := st <| sv_pipe := concat (item_wire id <$> items) |>).
  destruct (handle_send_spec st0 hs p data) as (n & st1 & hs1 & Hh & [A1 A2 A3 A4 A5 A6 A7 A8] & Hw1); try done.
  mstep ltac:(exact Hh). mrun.
  destruct (list_changed_ok id fd _ _ _ _ _ A8 i_sock0 i_direct0) as (Hs1 & Hd1 & Hc1).
  pose proof (item_count_nonneg items) as Hnn. rewrite fmap_cons in i_items_count0. simpl in i_items_count0.
  destruct (count_low id c) as (Hlow & _ & _); [lia|]. destruct (count_low id (c - 1)) as (_ & _ & Hu); [lia|].
  unfold dec_sending_count. rewrite (s_id _ _ _ _ Hs1), (s_type _ _ _ _ Hs1), !Z.eqb_refl, Hc1.
  change (socket_at (sv_pool st0) i) with (S st). rewrite i_count0, Hlow. cbn [andb].
  rewrite (proj2 (Z.eqb_neq c 0)) by lia. mrun.
  replace (Z.shiftl (socket_id_high16 id) 16 + c - 1) with (Z.shiftl (socket_id_high16 id) 16 + (c - 1)) by lia. rewrite Hu.
  eexists _, _, hs1. split; [reflexivity|]. 
  assert (Hwb : waiting_blocks dw hs1 items = waiting_blocks dw hs (ItSend p data :: items)).
  { unfold waiting_blocks. rewrite A2, fmap_cons. simpl. by rewrite <- app_assoc. }
  split; [|split; [unfold waiting; rewrite A3, fmap_cons, concat_app; simpl; by rewrite app_nil_r, <- app_assoc|]].
  2:{ split; [|by split]. apply (f_equal length) in A2. rewrite length_app, !length_fmap in A2. simpl in A2. lia. }
  split; simpl; rewrite ?socket_at_same, ?Hwb, ?A4, ?A5, ?A6; try done; try lia.
  - destruct Hs1. by constructor.
  - rewrite <- A4, <- A5. destruct A1. by constructor.
  - by apply Forall_inv_tail in i_items0.
  - eapply Forall_impl; [done|]. simpl. lia.
  - intros _. by left.
  - simpl. lia.
Qed.

(** the socket thread handles the request to write *)
Lemma command_trigger st dw hs items c : is_s32 id →
  stream_inv id fd st SOCKET_STATUS_CONNECTED dw hs (ItTrigger :: items) c →
  ∃ n (st' : server K), handle_ctrl_cmd st = Ok (n, st') ∧
    stream_inv id fd st' SOCKET_STATUS_CONNECTED dw hs items c ∧
    k_sent (sv_os st') = k_sent (sv_os st) ∧ sv_next st' = sv_next st.
Proof.
  intros Hid Hinv. pose proof Hinv as []. unfold handle_ctrl_cmd.
  mstep ltac:(rewrite (read_item st _ _ Hid i_items0 (Forall_nil_2 _) i_pipe0); reflexivity).
  set (st0 := st <| sv_pipe := concat (item_wire id <$> items) |>).
  assert (Hinv0 : so_writing (S st0) = true ∨ so_writing (S st0) = false) by (destruct (so_writing (S st0)); auto).
  unfold handle_ctrl_cmd_trigger_write. mrun. change (socket_at (sv_pool st0) i) with (S st).
  unfold is_invalid, status_is. rewrite (s_id _ _ _ _ i_sock0), (s_status _ _ _ _ i_sock0), Z.eqb_refl. cbn [negb orb].
  rewrite bool_decide_eq_false_2 by done.
  destruct (enable_write_frame true st0) as (n2 & st2 & He & [Fw Fb Fn Fp Fs] & Hc2 & Hw2). mstep ltac:(exact He).
  assert (Hinv2 : stream_inv id fd st2 SOCKET_STATUS_CONNECTED dw hs items c).
  { split; rewrite ?Fw, ?Fb, ?Fn, ?Fp; try done; eauto using sock_ok_core, list_ok_core, direct_ok_core.
    - by apply Forall_inv_tail in i_items0.
    - by rewrite (f_equal so_sending_count Hc2 : so_sending_count (S st2) = so_sending_count (S st)). }
  destruct (negb (n2 =? 0)); [mrun|]; (eexists _, _; split; [reflexivity|]; split; [|done]); [|done].
  by apply (stream_inv_frame st2).
Qed.

(** ** A worker sends *)

(** other blocks come and go *)
Lemma stream_inv_blocks (st st' : server K) status dw hs items c : stream_inv id fd st status dw hs items c →
  S st' = S st → sv_wbs st' = sv_wbs st → sv_pipe st' = sv_pipe st → sv_next st <= sv_next st' →
  (∀ q, q ∈ waiting_blocks dw hs items → sv_blocks st' !! q = sv_blocks st !! q) →
  stream_inv id fd st' status dw hs items c.
Proof.
  intros [] HS Hw Hp Hn Hb. unfold waiting_blocks in Hb.
  split; rewrite ?HS, ?Hw, ?Hp; try done; try lia.
  - destruct i_high0 as [L1 L2 L3 L4 L5 L6]. split; try done.
    + eapply Forall_impl; [done|]. simpl. lia.
    + apply (chunks_blocks (sv_blocks st)); [|done]. intros q Hq. apply Hb. set_solver.
  - destruct dw as [[q rest]|]; [|done]. destruct i_direct0 as (E1 & (b & E2 & E3) & E4 & E5). split_and!; try done.
    exists b. rewrite Hb; [done|]. simpl. set_solver.
  - apply (items_blocks (sv_blocks st)); [|done]. intros q Hq. apply Hb. set_solver.
  - eapply Forall_impl; [done|]. simpl. lia.
Qed.

Lemma load_block (st : server K) p data : 0 < p → sv_blocks st !! p = Some data →
  load (mkPtr p 0) (Z.of_nat (length data)) st = Ok (data, st).
Proof.
  intros Hp Hl. unfold load. simpl. destruct (Z.leb_spec (Z.of_nat (length data)) 0).
  - destruct data; [done|]. simpl in *. lia.
  - unfold is_null. rewrite (proj2 (Z.eqb_neq p 0)), Hl by lia. rewrite (proj2 (Z.leb_le _ _)) by lia. simpl.
    rewrite Nat2Z.id. change (drop (Z.to_nat 0) data) with data. by rewrite take_ge.
Qed.

(** a Lua string is copied into a block of its own *)
Lemma clone_string (st : server K) p data : 0 < p → sv_blocks st !! p = Some data →
  clone_send_data (mkSd id SEND_DATA_TYPE_USER_DATA p (Z.of_nat (length data))) st =
    Ok ((sv_next st, Z.of_nat (length data)),
        st <| sv_next := sv_next st + 1 |> <| sv_blocks := <[sv_next st := data]> (sv_blocks st) |>).
Proof.
  intros Hp Hl. unfold clone_send_data. cbn [sd_type sd_data_ptr sd_data_size]. change (SEND_DATA_TYPE_USER_DATA =? _) with false at 1.
  change (SEND_DATA_TYPE_USER_DATA =? SEND_DATA_TYPE_USER_OBJECT) with false. change (SEND_DATA_TYPE_USER_DATA =? _) with true. cbv iota.
  mstep ltac:(apply load_block; done). by mrun.
Qed.

Lemma inc_sending_spec (st : server K) c : so_socket_type (S st) = SOCKET_TYPE_TCP →
  so_sending_count (S st) = Z.shiftl (socket_id_high16 id) 16 + c → 0 <= c < 0xFFFF →
  inc_sending i id st = Ok (tt, st <| sv_pool := put_at (sv_pool st) i
    (S st <| so_sending_count := Z.shiftl (socket_id_high16 id) 16 + (c + 1) |>) |>).
Proof.
  intros Ht Hc Hb. unfold inc_sending. mrun. unfold inc_sending_count. rewrite Ht, Z.eqb_refl, Hc. cbn [negb].
  destruct (count_low id c) as (-> & -> & _); [lia|]. destruct (count_low id (c + 1)) as (_ & _ & Hu); [lia|].
  rewrite Z.eqb_refl, (proj2 (Z.eqb_neq c _)) by lia. rewrite <- Z.add_assoc, Hu. done.
Qed.

(** only the kernel changed *)
Record kept (st st' : server K) : Prop := {
  k_pool : sv_pool st' = sv_pool st;
  k_wbs : sv_wbs st' = sv_wbs st;
  k_blocks : sv_blocks st' = sv_blocks st;
  k_next : sv_next st' = sv_next st;
  k_pipe : sv_pipe st' = sv_pipe st
}.

Lemma sys_write (st : server K) data : ∃ r (st' : server K), sys (SysWrite fd data) st = Ok (r, st') ∧ kept st st' ∧
  ((0 <= sr_ret r <= Z.of_nat (length data) ∧
      k_sent (sv_os st') fd = k_sent (sv_os st) fd ++ take (Z.to_nat (sr_ret r)) data) ∨
   (sr_ret r = -1 ∧ sr_errno r ≠ EINTR ∧ sv_errno st' = sr_errno r ∧ k_sent (sv_os st') fd = k_sent (sv_os st) fd)).
Proof.
  unfold sys. pose proof (k_write fd data (sv_os st)) as Hk. destruct (kernel (SysWrite fd data) (sv_os st)) as [r k].
  exists r. eexists. split; [reflexivity|]. split; [done|]. destruct Hk as [Hk|(Hr & He & Hk)]; [by left|right]. simpl. by rewrite Hr.
Qed.

Lemma items_no_send items : sum_Z (item_count <$> items) <= 0 →
  concat (item_data <$> items) = [] ∧ concat (item_blocks <$> items) = [].
Proof.
  induction items as [|[p d|] items IH]; [done|..]; rewrite !fmap_cons; simpl; [|done].
  pose proof (item_count_nonneg items). lia.
Qed.

Lemma fresh_not_waiting (st : server K) status dw hs items c q : stream_inv id fd st status dw hs items c →
  sv_next st <= q → q ∉ waiting_blocks dw hs items.
Proof.
  intros [] Hq Hin. rewrite Forall_forall in i_alloc0. specialize (i_alloc0 _ Hin). simpl in i_alloc0. lia.
Qed.

(** what the kernel took stays taken *)
Definition grows (st st' : server K) : Prop := k_sent (sv_os st) fd `prefix_of` k_sent (sv_os st') fd.

Lemma grows_refl (st st' : server K) : k_sent (sv_os st') fd = k_sent (sv_os st) fd → grows st st'.
Proof. unfold grows. by intros ->. Qed.

Lemma grows_trans (st1 st2 st3 : server K) : grows st1 st2 → grows st2 st3 → grows st1 st3.
Proof. unfold grows. apply transitivity. Qed.

(** an unfinished direct write *)
Lemma stream_inv_direct (st st' : server K) items data sb :
  stream_inv id fd st SOCKET_STATUS_CONNECTED None [] items 0 →
  0 <= sb <= Z.of_nat (length data) → Z.of_nat (length data) < USER_OBJECT_TAG →
  sv_wbs st' = sv_wbs st → sv_blocks st' = <[sv_next st := data]> (sv_blocks st) → sv_next st' = sv_next st + 1 →
  sv_pipe st' = sv_pipe st ++ item_wire id ItTrigger →
  core (S st') = core (S st) <| so_direct_write_buffer := sv_next st |> <| so_direct_write_size := Z.of_nat (length data) |>
    <| so_direct_write_offset := sb |> <| so_sending_count := Z.shiftl (socket_id_high16 id) 16 + 1 |> →
  stream_inv id fd st' SOCKET_STATUS_CONNECTED (Some (sv_next st, drop (Z.to_nat sb) data)) [] (items ++ [ItTrigger]) 1.
Proof.
  intros Hinv Hsb Hlen Hw Hb Hn Hp Hc. pose proof Hinv as [].
  destruct (items_no_send items) as [Hid0 Hib0]; [lia|].
  assert (Hinv' : stream_inv id fd (st <| sv_blocks := sv_blocks st' |> <| sv_next := sv_next st' |>) SOCKET_STATUS_CONNECTED None [] items 0).
  { apply (stream_inv_blocks st); try done; psimpl; [lia|]. intros q Hq. rewrite Hb, lookup_insert_ne; [done|].
    intros <-. by apply (fresh_not_waiting _ _ _ _ _ _ _ Hinv (Z.le_refl _)). }
  destruct Hinv' as [J1 J2 J3 J4 J5 J6 J7 J8 J9 J10 J11 J12 J13]. psimpl_in J1. psimpl_in J2. psimpl_in J5.
  assert (Hwb : waiting_blocks (Some (sv_next st, drop (Z.to_nat sb) data)) [] (items ++ [ItTrigger]) = [sv_next st]).
  { unfold waiting_blocks. rewrite fmap_app, concat_app, Hib0. done. }
  split.
  - destruct J1. destruct (S st'), (S st). simpl in *. injection Hc as. subst. by constructor.
  - rewrite Hw. destruct J2. destruct (S st'), (S st). simpl in *. injection Hc as. subst. by constructor.
  - simpl. destruct (S st'), (S st). simpl in *. injection Hc as. subst. split_and!; [done| |rewrite length_drop; lia|done].
    exists data. rewrite Hb, lookup_insert_eq. done.
  - rewrite Hp, i_pipe0, fmap_app, concat_app, fmap_cons, fmap_nil. cbn [concat]. by rewrite app_nil_r.
  - apply Forall_app. split; [done|]. by apply Forall_singleton.
  - rewrite Hwb. apply NoDup_singleton.
  - rewrite Hwb. apply Forall_singleton. lia.
  - exact (f_equal so_sending_count Hc).
  - rewrite fmap_app, sum_Z_app. simpl. lia.
  - lia.
  - done.
  - intros _. right. set_solver.
  - lia.
Qed.

(** [send] of a string when a direct write is possible *)
Lemma send_direct st p data items : stream_inv id fd st SOCKET_STATUS_CONNECTED None [] items 0 →
  0 < p < sv_next st → sv_blocks st !! p = Some data → p ∉ waiting_blocks None [] items →
  Z.of_nat (length data) < USER_OBJECT_TAG →
  ∃ (st' : server K) dw items' c',
    direct_send i (mkSd id SEND_DATA_TYPE_USER_DATA p (Z.of_nat (length data)))
      (st <| sv_pool := put_at (sv_pool st) i (S st <| so_mutex := true |>) |>) = Ok (0, st') ∧
    stream_inv id fd st' SOCKET_STATUS_CONNECTED dw [] items' c' ∧ sv_blocks st' !! p = Some data ∧
    p ∉ waiting_blocks dw [] items' ∧ c' <= 1 ∧ (length items' <= Datatypes.S (length items))%nat ∧ grows st st' ∧ sv_next st' <= sv_next st + 1 ∧
    k_sent (sv_os st') fd ++ waiting dw [] items' = k_sent (sv_os st) fd ++ waiting None [] items ++ data.
Proof.
  intros Hinv Hp Hl Hnot Hlen. pose proof Hinv as [].
  unfold direct_send. mrun. psimpl. rewrite socket_at_same. psimpl.
  rewrite (s_type _ _ _ _ i_sock0), (s_fd _ _ _ _ i_sock0), Z.eqb_refl. cbv iota.
  mstep ltac:(apply (load_block _ p data); [lia|done]). rewrite ?M_bind_assoc.
  match goal with |- context [mbind _ (sys (SysWrite fd data)) ?s] =>
    destruct (sys_write s data) as (r & st1 & Hsys & [Kp Kw Kb Kn Kpi] & Hcase) end.
  psimpl_in Kp; psimpl_in Kw; psimpl_in Kb; psimpl_in Kn; psimpl_in Kpi; psimpl_in Hcase.
  mstep ltac:(exact Hsys). clear Hsys. mrun. cbn [sd_socket_id sd_data_ptr sd_data_size suo_buffer suo_sz suo_free].
  set (sb := if sr_ret r <? 0 then 0 else sr_ret r).
  assert (Hsb : 0 <= sb <= Z.of_nat (length data) ∧
    k_sent (sv_os st1) fd = k_sent (sv_os st) fd ++ take (Z.to_nat sb) data).
  { unfold sb. destruct Hcase as [[Hr Hk]|(Hr & _ & _ & Hk)].
    - rewrite (proj2 (Z.ltb_ge _ _)) by lia. done.
    - rewrite Hr. simpl. rewrite app_nil_r. split; [lia|done]. }
  clearbody sb. clear Hcase. destruct Hsb as [Hsb Hk]. destruct (items_no_send items) as [Hid0 Hib0]; [lia|].
  rewrite Kp, socket_at_same. destruct (Z.eqb_spec sb (Z.of_nat (length data))) as [Hfull|Hpart]; cbv iota.
  - mrun. eexists _, None, items, 0. split; [reflexivity|]. psimpl. rewrite Kb.
    split; [|split_and!; try done; try lia].
    + apply (stream_inv_core st); psimpl; rewrite ?socket_at_same; try done.
      pose proof (s_mutex _ _ _ _ i_sock0). by destruct (S st); simpl in *; subst.
    + by eexists.
    + rewrite Hk, Hfull, Nat2Z.id, take_ge by lia. unfold waiting. simpl. by rewrite Hid0, app_nil_r.
  - mstep ltac:(apply (clone_string _ p data); [lia|by psimpl; rewrite Kb]). mrun.
    psimpl. rewrite !socket_at_same.
    mstep ltac:(apply (inc_sending_spec _ 0); psimpl; rewrite ?socket_at_same; [exact (s_type _ _ _ _ i_sock0)|exact i_count0|lia]).
    mrun. eexists _, (Some (sv_next st, drop (Z.to_nat sb) data)), (items ++ [ItTrigger]), 1. split; [reflexivity|].
    psimpl. rewrite !Kn, Kb. rewrite lookup_insert_ne by lia.
    split; [|split; [done|split; [|split; [lia|split; [rewrite length_app; simpl; lia|split; [by eexists|split; [lia|]]]]]]].
    + apply (stream_inv_direct st); [done..| | | | |]; psimpl; rewrite ?socket_at_same, ?Kw, ?Kn, ?Kb, ?Kpi; [done..|].
      pose proof (s_mutex _ _ _ _ i_sock0). destruct (S st). simpl in *. by subst.
    + unfold waiting_blocks. rewrite fmap_app, concat_app, Hib0. simpl. set_solver by lia.
    + rewrite Hk. unfold waiting. rewrite fmap_app, concat_app, Hid0. simpl. rewrite !app_nil_r, <- app_assoc. by rewrite take_drop.
Qed.

(** a send through the pipe *)
Lemma stream_inv_queue (st st' : server K) dw hs items c data :
  stream_inv id fd st SOCKET_STATUS_CONNECTED dw hs items c → c + 1 < 0xFFFF →
  Z.of_nat (length data) < USER_OBJECT_TAG → sv_next st < 2 ^ 64 →
  sv_wbs st' = sv_wbs st → sv_blocks st' = <[sv_next st := data]> (sv_blocks st) → sv_next st' = sv_next st + 1 →
  sv_pipe st' = sv_pipe st ++ item_wire id (ItSend (sv_next st) data) →
  S st' = S st <| so_sending_count := Z.shiftl (socket_id_high16 id) 16 + (c + 1) |> →
  stream_inv id fd st' SOCKET_STATUS_CONNECTED dw hs (items ++ [ItSend (sv_next st) data]) (c + 1).
Proof.
  intros Hinv Hc Hlen Hn64 Hw Hb Hn Hp HS.
  assert (Hinv' : stream_inv id fd (st <| sv_blocks := sv_blocks st' |> <| sv_next := sv_next st' |>) SOCKET_STATUS_CONNECTED dw hs items c).
  { apply (stream_inv_blocks st); try done; psimpl; [lia|]. intros q Hq. rewrite Hb, lookup_insert_ne; [done|].
    intros <-. by apply (fresh_not_waiting _ _ _ _ _ _ _ Hinv (Z.le_refl _)). }
  destruct Hinv' as [J1 J2 J3 J4 J5 J6 J7 J8 J9 J10 J11 J12 J13]. psimpl_in J1. psimpl_in J2. psimpl_in J3. psimpl_in J4.
  psimpl_in J5. psimpl_in J11. psimpl_in J12.
  assert (Hwb : waiting_blocks dw hs (items ++ [ItSend (sv_next st) data]) = waiting_blocks dw hs items ++ [sv_next st]).
  { unfold waiting_blocks. rewrite fmap_app, concat_app. simpl. by rewrite !app_assoc. }
  pose proof (i_next _ _ _ _ _ _ _ _ Hinv) as Hpos.
  split; rewrite ?HS, ?Hw, ?Hwb; psimpl.
  - destruct J1. by constructor.
  - destruct J2. by constructor.
  - done.
  - rewrite Hp, J4, fmap_app, concat_app, fmap_cons, fmap_nil. cbn [concat]. by rewrite app_nil_r.
  - apply Forall_app. split; [done|]. apply Forall_singleton. split; [by rewrite Hb, lookup_insert_eq|done].
  - apply NoDup_app. split_and!; [done| |apply NoDup_singleton]. intros q Hq ->%list_elem_of_singleton.
    by apply (fresh_not_waiting _ _ _ _ _ _ _ Hinv (Z.le_refl _)).
  - apply Forall_app. split; [done|]. apply Forall_singleton. lia.
  - done.
  - rewrite fmap_app, sum_Z_app. simpl. lia.
  - lia.
  - done.
  - intros Hd. destruct (J12 Hd); [by left|right]. set_solver.
  - lia.
Qed.

(** [send] of a string *)
Lemma send_spec st p data dw hs items c : stream_inv id fd st SOCKET_STATUS_CONNECTED dw hs items c →
  0 < p < sv_next st → sv_blocks st !! p = Some data → p ∉ waiting_blocks dw hs items →
  Z.of_nat (length data) < USER_OBJECT_TAG → c + 1 < 0xFFFF → sv_next st < 2 ^ 64 →
  ∃ (st' : server K) dw' items' c',
    server_send (mkSd id SEND_DATA_TYPE_USER_DATA p (Z.of_nat (length data))) st = Ok (0, st') ∧
    stream_inv id fd st' SOCKET_STATUS_CONNECTED dw' hs items' c' ∧ sv_blocks st' !! p = Some data ∧
    p ∉ waiting_blocks dw' hs items' ∧ c' <= c + 1 ∧ (length items' <= Datatypes.S (length items))%nat ∧ grows st st' ∧ sv_next st' <= sv_next st + 1 ∧
    k_sent (sv_os st') fd ++ waiting dw' hs items' = k_sent (sv_os st) fd ++ waiting dw hs items ++ data.
Proof.
  intros Hinv Hp Hl Hnot Hlen Hc Hn64. pose proof Hinv as [].
  unfold server_send. mrun. cbn [sd_socket_id].
  unfold is_invalid, status_is. rewrite (s_id _ _ _ _ i_sock0), (s_status _ _ _ _ i_sock0), Z.eqb_refl. cbn [negb orb].
  rewrite bool_decide_eq_false_2 by done. destruct (can_direct_send (S st) id) eqn:Ecan.
  - rewrite (s_mutex _ _ _ _ i_sock0). cbn [andb negb]. mrun.
    unfold can_direct_send, nomore_sending_data, is_close_write, status_is in Ecan.
    rewrite (s_status _ _ _ _ i_sock0), (bool_decide_eq_false_2 (_ = SOCKET_STATUS_HALF_CLOSE_WRITE)), orb_false_r in Ecan by done.
    apply andb_true_iff in Ecan as [Ecan _]. apply andb_true_iff in Ecan as [Ecan _]. apply andb_true_iff in Ecan as [_ Ecan].
    apply andb_true_iff in Ecan as [Ecan Ecount]. apply andb_true_iff in Ecan as [Eempty Edw].
    destruct (count_low id c) as (Hlow & _ & _); [lia|]. rewrite i_count0, Hlow in Ecount. apply Z.eqb_eq in Ecount. subst c.
    assert (hs = []) as ->.
    { unfold is_write_buffer_empty in Eempty. apply andb_true_iff in Eempty as [Eh _].
      pose proof (wchain_null _ _ _ (l_head _ _ _ _ _ i_high0)) as Hnull. unfold is_null in Hnull. rewrite Hnull in Eh.
      by apply bool_decide_eq_true in Eh. }
    assert (dw = None) as ->.
    { destruct dw as [[q rest]|]; [|done]. destruct i_direct0 as (Hq & _). unfold is_null in Edw. apply Z.eqb_eq in Edw.
      apply Forall_inv in i_alloc0. simpl in i_alloc0. lia. }
    destruct (send_direct st p data items) as (st' & dw' & items' & c' & H1 & H2 & H3 & H4 & H5 & H6 & H7 & H8 & H9); try done.
    exists st', dw', items', c'. split; [exact H1|]. split_and!; try done; lia.
  - cbn [andb]. mstep ltac:(apply (inc_sending_spec _ c); [exact (s_type _ _ _ _ i_sock0)|done|lia]).
    unfold send_cmd. mstep ltac:(apply (clone_string _ p data); [lia|by psimpl]). mrun.
    eexists _, dw, (items ++ [ItSend (sv_next st) data]), (c + 1). split; [reflexivity|]. psimpl.
    split; [|split; [|split; [|split; [lia|split; [rewrite length_app; simpl; lia|split; [by apply grows_refl|split; [lia|]]]]]]].
    + apply (stream_inv_queue st); [done..| | | | |]; psimpl; [done..|]. by rewrite socket_at_same.
    + rewrite lookup_insert_ne by lia. done.
    + unfold waiting_blocks in *. rewrite fmap_app, concat_app. simpl. rewrite !not_elem_of_app in *. set_solver by lia.
    + unfold waiting. rewrite fmap_app, concat_app. simpl. by rewrite app_nil_r, !app_assoc.
Qed.

(** a worker sends a Lua string *)
Lemma send_string_spec st data dw hs items c : stream_inv id fd st SOCKET_STATUS_CONNECTED dw hs items c →
  Z.of_nat (length data) < USER_OBJECT_TAG → c + 1 < 0xFFFF → sv_next st + 1 < 2 ^ 64 →
  ∃ (st' : server K) dw' items' c',
    send_string id data st = Ok (0, st') ∧ stream_inv id fd st' SOCKET_STATUS_CONNECTED dw' hs items' c' ∧
    c' <= c + 1 ∧ (length items' <= Datatypes.S (length items))%nat ∧ grows st st' ∧ sv_next st' <= sv_next st + 2 ∧
    k_sent (sv_os st') fd ++ waiting dw' hs items' = k_sent (sv_os st) fd ++ waiting dw hs items ++ data.
Proof.
  intros Hinv Hlen Hc Hn64. pose proof (i_next _ _ _ _ _ _ _ _ Hinv) as Hpos. unfold send_string. mrun.
  set (st0 := st <| sv_next := sv_next st + 1 |> <| sv_blocks := <[sv_next st := data]> (sv_blocks st) |>).
  assert (Hinv0 : stream_inv id fd st0 SOCKET_STATUS_CONNECTED dw hs items c).
  { apply (stream_inv_blocks st); try done; unfold st0; psimpl; [lia|]. intros q Hq. rewrite lookup_insert_ne; [done|].
    intros <-. by apply (fresh_not_waiting _ _ _ _ _ _ _ Hinv (Z.le_refl _)). }
  destruct (send_spec st0 (sv_next st) data dw hs items c) as (st1 & dw' & items' & c' & Hs & Hinv1 & Hl1 & Hn1 & Hc1 & Hlen1 & Hg1 & Hx1 & Hk1);
    try done; unfold st0; psimpl; try lia.
  { by rewrite lookup_insert_eq. }
  { by apply (fresh_not_waiting _ _ _ _ _ _ _ Hinv (Z.le_refl _)). }
  mstep ltac:(exact Hs). unfold delete_block. rewrite ?M_bind_assoc. unfold mbind at 1, M_bind at 1.
  rewrite (proj2 (Z.eqb_neq _ 0)) by lia. rewrite Hl1. cbn [rbind].
  eexists _, dw', items', c'. split; [reflexivity|]. psimpl. psimpl_in Hx1.
  split; [|split_and!; [lia|done|exact Hg1|unfold st0 in Hx1; psimpl_in Hx1; lia|exact Hk1]].
  apply (stream_inv_blocks st1); try done; psimpl. intros q Hq. rewrite lookup_delete_ne; [done|]. by intros <-.
Qed.
End proofs.
