(* ===== verification/SocketDrain.v ===== *)
(** * The socket thread writes, and the order of the bytes

    The second half of the proof begun in [SocketStream]: the loop that writes the high
    priority list, the writable event around it, and the theorem about any sequence of
    operations on a connected socket. *)
From Stdlib Require Import String.
From S2P Require Import Prelude Bytes Text SocketObject SocketEndpoint SocketCmd SocketState SocketServer SocketStream.
Open Scope list_scope.
Open Scope Z_scope.

Section drain.
Context {K : Type} `{StreamKernel K}.
Variables (id fd : Z).
Notation i := (socket_array_index id).
Notation S st := (socket_at (sv_pool st) i).


(** the server as it will be when the lock is released and the tail of an emptied list reset *)
Definition norm_sock (s : socket_object) (hs : list chunk) : socket_object :=
  s <| so_mutex := false |> <| so_high := mkWbl (wl_head (so_high s)) (default 0 (last (c_addr <$> hs))) |>.
Definition norm (st : server K) (hs : list chunk) : server K :=
  st <| sv_pool := put_at (sv_pool st) i (norm_sock (S st) hs) |>.

(** the invariant while the socket thread holds the lock *)
Record locked_inv (st : server K) (hs : list chunk) (items : list item) (c : Z) : Prop := {
  k_mutex : so_mutex (S st) = true;
  k_tail : hs ≠ [] → wl_tail (so_high (S st)) = default 0 (last (c_addr <$> hs));
  k_writing : so_writing (S st) = true;
  k_inv : stream_inv id fd (norm st hs) SOCKET_STATUS_CONNECTED None hs items c
}.

Lemma norm_S st hs : S (norm st hs) = norm_sock (S st) hs.
Proof. unfold norm. psimpl. apply socket_at_same. Qed.

(** what the invariant says about the object itself *)
Lemma locked_sock st hs items c : locked_inv st hs items c →
  so_socket_fd (S st) = fd ∧ so_socket_type (S st) = SOCKET_TYPE_TCP ∧ so_closing (S st) = false ∧
  so_status (S st) = SOCKET_STATUS_CONNECTED ∧ so_low (S st) = wbl_empty ∧
  wchain (sv_wbs st) (wl_head (so_high (S st))) hs ∧ so_write_buffer_size (S st) = sum_Z (c_sz <$> hs) ∧
  Forall (chunk_ok (sv_blocks st)) hs ∧ Forall (λ p, 0 < p) (c_block <$> hs).
Proof.
  intros [_ _ _ [I1 I2 _ _ _ _ I7 _ _ _ _ _ _]]. rewrite norm_S in I1, I2. destruct I1, I2. unfold norm_sock in *.
  split_and!; try done. unfold waiting_blocks in I7. apply Forall_app in I7 as [_ I7]. apply Forall_app in I7 as [I7 _].
  eapply Forall_impl; [done|]. simpl. lia.
Qed.

Lemma load_chunk (st : server K) a wb rest : chunk_ok (sv_blocks st) (a, wb, rest) → 0 < wb_buffer wb →
  load (wb_ptr wb) (wb_sz wb) st = Ok (rest, st).
Proof.
  intros (Hb & (b & Hl & Hoff & Hrest) & Hsz) Hpos. unfold load. rewrite Hsz. destruct (Z.leb_spec (Z.of_nat (length rest)) 0).
  - destruct rest; [done|]. simpl in *. lia.
  - rewrite Hb. unfold is_null. rewrite (proj2 (Z.eqb_neq _ 0)), Hl by lia.
    assert (Hlen : length rest = (length b - Z.to_nat (p_off (wb_ptr wb)))%nat) by (rewrite Hrest; apply length_drop).
    rewrite !(proj2 (Z.leb_le _ _)) by lia. simpl. by rewrite <- Hrest, Nat2Z.id, take_ge.
Qed.

(** the kernel takes at least one byte at each write *)
Definition takes_some : Prop := ∀ data (k : K), Z.min 1 (Z.of_nat (length data)) <= sr_ret (kernel (SysWrite fd data) k).1.

(** what a kernel that takes bytes leads to: the list is written, or more bytes were *)
Definition progress (st st' : server K) : Prop :=
  so_high (S st') = wbl_empty ∨ (length (k_sent (sv_os st) fd) < length (k_sent (sv_os st') fd))%nat.

Lemma write_retry_spec (st : server K) fuel data : ∃ n (st' : server K), write_retry (Datatypes.S fuel) fd data st = Ok (n, st') ∧ kept st st' ∧
  (takes_some → Z.min 1 (Z.of_nat (length data)) <= n) ∧
  ((0 <= n <= Z.of_nat (length data) ∧ k_sent (sv_os st') fd = k_sent (sv_os st) fd ++ take (Z.to_nat n) data) ∨
   (n = -1 ∧ k_sent (sv_os st') fd = k_sent (sv_os st) fd)).
Proof.
  destruct (sys_write fd st data) as (r & st' & Hs & Hkept & Hcase). exists (sr_ret r), st'. simpl.
  assert (Hall : takes_some → Z.min 1 (Z.of_nat (length data)) <= sr_ret r).
  { intros Hall. specialize (Hall data (sv_os st)). unfold sys in Hs. destruct (kernel _ _). by simplify_eq/=. }
  mstep ltac:(exact Hs). destruct Hcase as [[Hr Hk]|(Hr & He & _ & Hk)].
  - rewrite (proj2 (Z.ltb_ge _ _)) by lia. cbn [andb]. split_and!; [done..|]. by left.
  - rewrite (proj2 (Z.eqb_neq _ EINTR)) by done. rewrite andb_false_r. split_and!; [done..|]. by right.
Qed.

(** the high priority list changed *)
Lemma locked_change (st st' : server K) hs hs' items c l n : locked_inv st hs items c →
  core (S st') = core (S st) <| so_high := l |> <| so_write_buffer_size := n |> → so_writing (S st') = so_writing (S st) →
  sv_next st' = sv_next st → sv_pipe st' = sv_pipe st →
  list_ok (norm_sock (S st') hs') (sv_wbs st') (sv_blocks st') (sv_next st') hs' →
  (hs' ≠ [] → wl_tail (so_high (S st')) = default 0 (last (c_addr <$> hs'))) →
  Forall (item_ok (sv_blocks st')) items → NoDup (waiting_blocks None hs' items) →
  (∀ q, q ∈ waiting_blocks None hs' items → q ∈ waiting_blocks None hs items) →
  locked_inv st' hs' items c.
Proof.
  intros [Km Kt Kw [I1 I2 I3 I4 I5 I6 I7 I8 I9 I10 I11 I12 I13]] Hc Hw Hn Hp Hl Ht Hit Hnd Hsub.
  unfold norm in I4, I5, I7, I13. psimpl_in I4. psimpl_in I5. psimpl_in I7. psimpl_in I13. rewrite norm_S in *.
  split; [|done|congruence|].
  - rewrite <- Km. exact (f_equal so_mutex Hc).
  - split; rewrite ?norm_S; unfold norm; psimpl; rewrite ?Hp, ?Hn; try done.
    + destruct I1. destruct (S st'), (S st). unfold norm_sock in *. simpl in *. injection Hc as. subst. by constructor.
    + by rewrite <- Hn.
    + destruct (S st'), (S st). unfold norm_sock in *. simpl in *. injection Hc as. by subst.
    + apply Forall_forall. intros q Hq. rewrite Forall_forall in I7. by apply I7, Hsub.
    + rewrite <- I8. exact (f_equal so_sending_count Hc).
    + intros _. unfold norm_sock. psimpl. congruence.
Qed.

(** a call to the kernel *)
Lemma locked_kept (st st' : server K) hs items c : locked_inv st hs items c → kept st st' → locked_inv st' hs items c.
Proof.
  intros [Km Kt Kw Hinv] [Hp Hw Hb Hn Hpi]. split; rewrite ?Hp; try done.
  apply (stream_inv_core id fd (norm st hs)); rewrite ?norm_S; unfold norm; psimpl; rewrite ?Hp; done.
Qed.

(** part of the first buffer was written *)
Lemma locked_partial (st st' : server K) a wb rest hs items c n : locked_inv st ((a, wb, rest) :: hs) items c →
  0 <= n <= Z.of_nat (length rest) →
  core (S st') = core (S st) <| so_write_buffer_size := so_write_buffer_size (S st) - n |> →
  so_writing (S st') = so_writing (S st) → sv_next st' = sv_next st → sv_pipe st' = sv_pipe st → sv_blocks st' = sv_blocks st →
  sv_wbs st' = <[a := wb <| wb_ptr := ptr_add (wb_ptr wb) n |> <| wb_sz := wb_sz wb - n |>]> (sv_wbs st) →
  locked_inv st' ((a, wb <| wb_ptr := ptr_add (wb_ptr wb) n |> <| wb_sz := wb_sz wb - n |>, drop (Z.to_nat n) rest) :: hs) items c.
Proof.
  intros Hinv Hn Hc Hw Hnx Hp Hb Hwbs. pose proof (k_inv _ _ _ _ Hinv) as [_ I2 _ _ I5 I6 _ _ _ _ _ _ _].
  unfold norm in I2, I5. psimpl_in I2. psimpl_in I5. rewrite socket_at_same in I2. destruct I2 as [L1 L2 L3 L4 L5 L6].
  apply (locked_change st st' ((a, wb, rest) :: hs) _ items c (so_high (S st)) (so_write_buffer_size (S st) - n));
    try done; [| |by rewrite Hb].
  - assert (Hh : so_high (S st') = so_high (S st)) by exact (f_equal so_high Hc).
    assert (Hs : so_write_buffer_size (S st') = so_write_buffer_size (S st) - n) by exact (f_equal so_write_buffer_size Hc).
    unfold norm_sock in *. psimpl_in L1. psimpl_in L6. split; psimpl; rewrite ?Hb, ?Hnx, ?Hs, ?L6, ?Hh; try done.
    + rewrite Hwbs. inversion L1 as [|? ? ? ? Ha Hl Hrest]; subst. rewrite <- Hh in *. simpl. 
      constructor; [done|by rewrite lookup_insert_eq|]. simpl. apply (wchain_frame (sv_wbs st)); [done|].
      intros b Hbin. rewrite lookup_insert_ne; [done|]. rewrite fmap_cons in L3. apply NoDup_cons in L3 as [L3 _]. intros <-. done.
    + apply Forall_cons in L5 as [(E1 & (b & E2 & E3 & E4) & E5) L5]. apply Forall_cons. split; [|done].
      split; [done|]. assert (Hlen : length rest = (length b - Z.to_nat (p_off (wb_ptr wb)))%nat) by (rewrite E4; apply length_drop).
      split; [|simpl; rewrite length_drop; lia]. exists b. simpl. split; [done|]. split; [lia|].
      rewrite E4, drop_drop. f_equal. lia.
    + rewrite !fmap_cons. simpl. unfold c_sz. simpl. lia.
  - intros _. rewrite (f_equal so_high Hc : so_high (S st') = so_high (S st)). by apply (k_tail _ _ _ _ Hinv).
Qed.

(** the first buffer was written *)
Lemma locked_remove (st st' : server K) a wb rest hs items c : locked_inv st ((a, wb, rest) :: hs) items c →
  core (S st') = core (S st) <| so_high := mkWbl (wb_next wb) (wl_tail (so_high (S st))) |>
    <| so_write_buffer_size := so_write_buffer_size (S st) - Z.of_nat (length rest) |> →
  so_writing (S st') = so_writing (S st) → sv_next st' = sv_next st → sv_pipe st' = sv_pipe st →
  sv_blocks st' = delete (wb_buffer wb) (sv_blocks st) → sv_wbs st' = delete a (sv_wbs st) →
  locked_inv st' hs items c.
Proof.
  intros Hinv Hc Hw Hnx Hp Hb Hwbs. pose proof (k_inv _ _ _ _ Hinv) as [_ I2 _ _ I5 I6 _ _ _ _ _ _ _].
  unfold norm in I2, I5. psimpl_in I2. psimpl_in I5. rewrite socket_at_same in I2. destruct I2 as [L1 L2 L3 L4 L5 L6].
  assert (Hh : so_high (S st') = mkWbl (wb_next wb) (wl_tail (so_high (S st)))) by exact (f_equal so_high Hc).
  assert (Hs : so_write_buffer_size (S st') = so_write_buffer_size (S st) - Z.of_nat (length rest)) by exact (f_equal so_write_buffer_size Hc).
  unfold waiting_blocks in I6. rewrite fmap_cons in I6. simpl in I6. apply NoDup_cons in I6 as [I6a I6].
  assert (Hblk : ∀ q, q ∈ (c_block <$> hs) ++ concat (item_blocks <$> items) → sv_blocks st' !! q = sv_blocks st !! q).
  { intros q Hq. rewrite Hb, lookup_delete_ne; [done|]. intros <-. by apply I6a. }
  apply (locked_change st st' ((a, wb, rest) :: hs) _ items c (mkWbl (wb_next wb) (wl_tail (so_high (S st))))
    (so_write_buffer_size (S st) - Z.of_nat (length rest))); try done.
  - rewrite fmap_cons in L3, L4, L6. apply NoDup_cons in L3 as [L3a L3]. apply Forall_cons in L4 as [_ L4].
    unfold norm_sock in *. psimpl_in L1. psimpl_in L6. split; psimpl; rewrite ?Hnx, ?Hs, ?L6, ?Hh; try done.
    + rewrite Hwbs. inversion L1 as [|? ? ? ? Ha Hl Hrest]; subst. apply (wchain_frame (sv_wbs st)); [done|].
      intros b Hbin. rewrite lookup_delete_ne; [done|]. by intros <-.
    + apply Forall_inv_tail in L5. apply (chunks_blocks (sv_blocks st)); [|done]. intros q Hq. apply Hblk. set_solver.
    + apply Forall_inv in L5 as (_ & _ & E5). simpl. unfold c_sz at 1. simpl. lia.
  - intros Hne. rewrite Hh. simpl. rewrite (k_tail _ _ _ _ Hinv) by done. destruct hs as [|x hs]; [done|].
    by rewrite !fmap_cons, last_cons_cons.
  - apply (items_blocks (sv_blocks st)); [|done]. intros q Hq. apply Hblk. set_solver.
  - unfold waiting_blocks. rewrite fmap_cons. simpl. set_solver.
Qed.

(** [close_write] after a write failed *)
Lemma close_write_spec (st : server K) sl : so_closing (S st) = false → so_status (S st) = SOCKET_STATUS_CONNECTED →
  ∃ st' : server K, close_write i sl st = Ok ((SOCKET_EVENT_ERROR, sl), st') ∧
    so_status (S st') = SOCKET_STATUS_HALF_CLOSE_WRITE ∧ so_mutex (S st') = so_mutex (S st) ∧
    k_sent (sv_os st') = k_sent (sv_os st) ∧ sv_next st' = sv_next st.
Proof.
  intros Hcl Hst. unfold close_write. mrun. rewrite Hcl. unfold is_close_read, is_close_write, status_is. rewrite Hst.
  rewrite !bool_decide_eq_false_2 by done. mrun. rewrite ?M_bind_assoc.
  match goal with |- context [mbind _ (sys ?c) ?s] =>
    assert (Hsys : ∃ r (st1 : server K), sys c s = Ok (r, st1) ∧ kept s st1 ∧ k_sent (sv_os st1) = k_sent (sv_os s)) end.
  { unfold sys. match goal with |- context [kernel ?c ?k] => pose proof (k_shutdown fd SHUT_WR k) as Hsh; destruct (kernel c k) as [r k'] eqn:Hk end.
    exists r. eexists. split; [reflexivity|]. split; [done|]. psimpl. change k' with (r, k').2. rewrite <- Hk. apply k_shutdown. }
  destruct Hsys as (r & st1 & Hsys & [Kp Kw Kb Kn Kpi] & Ks). psimpl_in Kp. psimpl_in Kn. psimpl_in Ks.
  mstep ltac:(exact Hsys). destruct (enable_write_frame id false st1) as (n & st2 & He & [Fw Fb Fn Fp Fs] & Hc & _).
  mstep ltac:(exact He). mrun. eexists. split; [reflexivity|]. psimpl.
  assert (HS1 : S st1 = shutdown_write (S st)) by (rewrite Kp; apply socket_at_same).
  rewrite HS1 in Hc. split_and!; [exact (f_equal so_status Hc)|exact (f_equal so_mutex Hc)|congruence|congruence].
Qed.

Lemma delete_block_Ok (st : server K) p b : 0 < p → sv_blocks st !! p = Some b →
  delete_block p st = Ok (tt, st <| sv_blocks := delete p (sv_blocks st) |>).
Proof. intros Hp Hl. unfold delete_block. rewrite (proj2 (Z.eqb_neq p 0)) by lia. by rewrite Hl. Qed.

Lemma free_write_buffer_Ok (st : server K) a wb b : 0 < a → sv_wbs st !! a = Some wb → 0 < wb_buffer wb →
  sv_blocks st !! wb_buffer wb = Some b →
  free_write_buffer a st =
    Ok (tt, st <| sv_blocks := delete (wb_buffer wb) (sv_blocks st) |> <| sv_wbs := delete a (sv_wbs st) |>).
Proof.
  intros Ha Hl Hb Hbl. unfold free_write_buffer. mstep ltac:(apply wb_get_Ok; done).
  mstep ltac:(apply (delete_block_Ok _ _ b); done). unfold wb_delete. psimpl. by rewrite Hl.
Qed.

Lemma wchain_inv wbs h a wb rest hs : wchain wbs h ((a, wb, rest) :: hs) →
  h = a ∧ 0 < a ∧ wbs !! a = Some wb ∧ wchain wbs (wb_next wb) hs.
Proof. by inversion 1. Qed.

Lemma waiting_cons ch hs items : waiting None (ch :: hs) items = c_rest ch ++ waiting None hs items.
Proof. unfold waiting. rewrite fmap_cons. simpl. by rewrite <- app_assoc. Qed.

(** the loop that writes the high priority list *)
Lemma tcp_loop_spec hs fuel sl (st : server K) items c : locked_inv st hs items c → (length hs < fuel)%nat →
  ∃ ret (st' : server K), send_tcp_loop fuel i High sl st = Ok ((ret, sl), st') ∧ sv_next st' = sv_next st ∧
  (takes_some → ret = -1 ∧ progress st st') ∧ grows fd st st' ∧
  ((ret = -1 ∧ ∃ hs', locked_inv st' hs' items c ∧ (hs' = [] → so_high (S st') = wbl_empty) ∧
      (length hs' <= length hs)%nat ∧
      k_sent (sv_os st') fd ++ waiting None hs' items = k_sent (sv_os st) fd ++ waiting None hs items) ∨
   (ret = SOCKET_EVENT_ERROR ∧ so_mutex (S st') = true ∧ so_status (S st') = SOCKET_STATUS_HALF_CLOSE_WRITE ∧
      ∃ bytes, k_sent (sv_os st') fd ++ bytes = k_sent (sv_os st) fd ++ waiting None hs items)).
Proof.
  revert fuel st. induction hs as [|[[a wb] rest] hs IH]; intros fuel st Hinv Hfuel; (destruct fuel as [|fuel]; [simpl in Hfuel; lia|]);
    destruct (locked_sock _ _ _ _ Hinv) as (Hfd & Hty & Hcl & Hst & Hlow & Hch & Hsz & Hck & Hpos); cbn [send_tcp_loop]; mrun; cbn [get_list].
  - assert (Hh : wl_head (so_high (S st)) = 0) by (inversion Hch; congruence). rewrite Hh. cbn [is_null Z.eqb]. mrun.
    assert (Hempty : so_high (S st) <| wl_tail := 0 |> = wbl_empty) by (destruct (so_high (S st)); simpl in *; by subst).
    eexists _, _. split; [reflexivity|]. psimpl. split; [done|]. rewrite socket_at_same. cbn [set_list get_list]. psimpl.
    split; [intros _; split; [done|left; psimpl; by rewrite socket_at_same]|]. split; [by apply grows_refl|]. left. split; [done|]. exists []. split; [|split_and!; done].
    + apply (locked_change st _ [] [] items c (mkWbl 0 0) (so_write_buffer_size (S st))); psimpl;
        rewrite ?socket_at_same; cbn [set_list get_list]; try done; pose proof (k_inv _ _ _ _ Hinv) as [I1 I2 I3 I4 I5 I6 _ _ _ _ _ _ _];
        unfold norm in *; psimpl_in I2; psimpl_in I5; try done.
      * destruct (S st) as [? ? ? ? ? ? ? ? [] ?]. simpl in *. by subst.
      * rewrite socket_at_same in I2. destruct I2. by split.
  - destruct (wchain_inv _ _ _ _ _ _ Hch) as (Hh & Ha & Hl & Hrest). rewrite Hh.
    unfold is_null. rewrite (proj2 (Z.eqb_neq a 0)) by lia. mstep ltac:(apply wb_get_Ok; done).
    apply Forall_cons in Hck as [Hc1 Hck]. rewrite fmap_cons in Hpos. apply Forall_cons in Hpos as [Hp1 Hpos].
    mstep ltac:(apply (load_chunk _ a _ rest); done). rewrite Hfd.
    destruct (write_retry_spec st fuel rest) as (n & st1 & Hw & Hkept & Hall & Hcase).
    mstep ltac:(exact Hw). pose proof (locked_kept _ _ _ _ _ Hinv Hkept) as Hinv1. pose proof Hkept as [Kp Kw Kb Kn Kpi].
    destruct Hcase as [[Hn Hk]|[-> Hk]].
    2:{ cbn [Z.ltb Z.compare]. mrun. destruct (_ =? _).
      - eexists _, _. split; [reflexivity|]. split; [done|]. split; [intros ?%Hall; lia|]. split; [by apply grows_refl|]. left. split; [done|].
        exists ((a, wb, rest) :: hs). by rewrite Hk.
      - destruct (close_write_spec st1 sl) as (st2 & Hc & Hs2 & Hm2 & Hk2 & Hn2); [by rewrite Kp..|].
        exists SOCKET_EVENT_ERROR, st2. split; [done|]. split; [congruence|]. split; [intros ?%Hall; lia|]. split; [apply grows_refl; congruence|]. right.
        rewrite Hk2, Hk, Hm2. split_and!; [done|exact (k_mutex _ _ _ _ Hinv1)|done|by eexists]. }
    rewrite (proj2 (Z.ltb_ge n 0)) by lia. mrun. destruct (Z.eqb_spec n (wb_sz wb)) as [Hfull|Hpart]; cbn [negb].
    2:{ mrun. eexists _, _. split; [reflexivity|]. psimpl. split; [done|].
      split; [intros Hn'%Hall; destruct Hc1 as (_ & _ & ?); split; [done|]; right; psimpl; rewrite Hk, length_app, length_take; lia|].
      split; [by eexists|]. left. split; [done|]. eexists. split; [|split_and!].
      - apply (locked_partial st1 _ a wb rest hs items c n); [done..| | | | | |]; psimpl; rewrite ?socket_at_same; try done.
      - done.
      - done.
      - rewrite Hk. unfold waiting. rewrite !fmap_cons. simpl.
        by rewrite <- !app_assoc, (app_assoc (take _ _)), take_drop. }
    mrun. destruct Hc1 as (E1 & (b & E2 & E3 & E4) & E5).
    mstep ltac:(apply (free_write_buffer_Ok _ a wb b); [done|psimpl; by rewrite Kw|done|psimpl; by rewrite Kb]).
    match goal with |- context [send_tcp_loop fuel i High sl ?s] => set (st2 := s) end.
    assert (Hinv2 : locked_inv st2 hs items c).
    { apply (locked_remove st1 _ a wb rest hs items c); [done|..]; unfold st2; psimpl; rewrite ?socket_at_same; psimpl; try done.
      unfold statistics_send. rewrite <- E5, <- Hfull. by destruct (S st1). }
    destruct (IH fuel st2 Hinv2) as (ret & st3 & Hr & Hn3 & Hall3 & Hg3 & Hcase); [simpl in Hfuel; lia|]. exists ret, st3. split; [done|].
    assert (Hk2 : k_sent (sv_os st2) fd = k_sent (sv_os st) fd ++ rest).
    { unfold st2. psimpl. rewrite Hk, take_ge; [done|lia]. }
    rewrite Hk2, <- app_assoc in Hcase. rewrite waiting_cons. split; [rewrite Hn3; unfold st2; by psimpl|].
    split; [intros [Hret Hprog]%Hall3; split; [done|]; destruct Hprog as [Hp|Hp]; [by left|right]; rewrite Hk2, length_app in Hp; lia|].
    split; [unfold grows in *; rewrite Hk2 in Hg3; etrans; [by apply prefix_app_r|exact Hg3]|].
    destruct Hcase as [(? & hs' & ? & ? & ? & ?)|?]; [left|by right]. split; [done|]. exists hs'. split_and!; try done. simpl. lia.
Qed.
(** ** The writable event *)

(** the lock is taken *)
Definition locked (st : server K) : server K :=
  st <| sv_pool := put_at (sv_pool st) i (S st <| so_mutex := true |>) |>.

Lemma locked_S st : S (locked st) = S st <| so_mutex := true |>.
Proof. unfold locked. psimpl. apply socket_at_same. Qed.

(** a buffer before the high priority list *)
Lemma list_ok_prepend s s' wbs blocks next hs wb rest : list_ok s wbs blocks next hs → 0 < next →
  wb_next wb = wl_head (so_high s) → chunk_ok blocks (next, wb, rest) →
  so_high s' = mkWbl next (default 0 (last (c_addr <$> (next, wb, rest) :: hs))) →
  so_write_buffer_size s' = so_write_buffer_size s + wb_sz wb →
  list_ok s' (<[next := wb]> wbs) blocks (next + 1) ((next, wb, rest) :: hs).
Proof.
  intros [L1 L2 L3 L4 L5 L6] Hn Hw Hc Hh Hs.
  assert (Hfresh : next ∉ c_addr <$> hs).
  { intros Hin. rewrite Forall_forall in L4. specialize (L4 _ Hin). simpl in L4. lia. }
  split; rewrite ?Hh, ?Hs, ?fmap_cons; simpl.
  - constructor; [done|by rewrite lookup_insert_eq|]. rewrite Hw. apply (wchain_frame wbs); [done|].
    intros a Ha. rewrite lookup_insert_ne; [done|]. by intros <-.
  - done.
  - by apply NoDup_cons.
  - apply Forall_cons. split; [unfold c_addr; simpl; lia|]. eapply Forall_impl; [done|]. simpl. lia.
  - by apply Forall_cons.
  - rewrite L6. unfold c_sz. simpl. lia.
Qed.

(** [take_direct_write] *)
Lemma take_direct_spec (st : server K) dw hs items c : stream_inv id fd st SOCKET_STATUS_CONNECTED dw hs items c →
  so_writing (S st) = true →
  ∃ (st' : server K) hs', take_direct_write i (locked st) = Ok (tt, st') ∧ locked_inv st' hs' items c ∧
    waiting None hs' items = waiting dw hs items ∧ (length hs' <= Datatypes.S (length hs))%nat ∧
    k_sent (sv_os st') fd = k_sent (sv_os st) fd ∧ sv_next st <= sv_next st' <= sv_next st + 1.
Proof.
  intros Hinv Hwr. pose proof Hinv as [I1 I2 I3 I4 I5 I6 I7 I8 I9 I10 I11 I12 I13]. unfold take_direct_write. mrun. rewrite locked_S. psimpl.
  destruct dw as [[p rest]|].
  2:{ simpl in I3. rewrite I3. cbn [is_null Z.eqb]. eexists _, hs. split; [reflexivity|].
    split; [|split_and!; try done; unfold locked; psimpl; lia].
    split; rewrite ?locked_S; try done; [by intros; apply (l_tail _ _ _ _ _ I2)|].
    apply (stream_inv_core id fd st); rewrite ?norm_S, ?locked_S; try done.
    pose proof (l_tail _ _ _ _ _ I2) as Ht. pose proof (s_mutex _ _ _ _ I1) as Hm. unfold norm_sock. rewrite <- Ht.
    destruct (S st) as [? ? ? ? ? ? ? ? [] ?]. simpl in *. by subst. }
  destruct I3 as (D1 & (b & D2 & D3 & D4) & D5 & D6). rewrite D1.
  pose proof I7 as I7'. apply Forall_cons in I7' as [Hp _]. simpl in Hp.
  unfold is_null at 1. rewrite (proj2 (Z.eqb_neq p 0)) by lia. unfold init_send_user_object_raw.
  rewrite (proj2 (Z.eqb_neq _ USER_OBJECT_TAG)) by lia. mrun.
  assert (Hlen : length rest = (length b - Z.to_nat (so_direct_write_offset (S st)))%nat) by (rewrite D4; apply length_drop).
  unfold USER_OBJECT_TAG in D6. cbn [suo_sz suo_buffer]. rewrite D5, Z.add_simpl_l, (u64_small (Z.of_nat (length rest))) by lia.
  set (h := wl_head (so_high (S st))). replace (if is_null h then 0 else h) with h by (unfold is_null; by destruct (Z.eqb_spec h 0)).
  set (wb := mkWb _ _ _ _ _ _). eexists _, ((sv_next st, wb, rest) :: hs). split; [reflexivity|].
  split; [|split_and!; try done; unfold locked; psimpl; try lia; unfold waiting; rewrite fmap_cons; simpl; by rewrite <- app_assoc].
  assert (Htail : (if is_null h then sv_next st else wl_tail (so_high (S st))) =
                  default 0 (last (c_addr <$> (sv_next st, wb, rest) :: hs))).
  { pose proof (wchain_null _ _ _ (l_head _ _ _ _ _ I2)) as Hnull. fold h in Hnull. rewrite Hnull, (l_tail _ _ _ _ _ I2).
    destruct hs as [|x hs]; [done|]. by rewrite bool_decide_eq_false_2, !fmap_cons, last_cons_cons by done. }
  assert (Hok : chunk_ok (sv_blocks st) (sv_next st, wb, rest)).
  { split; [done|]. split; [|done]. exists b. simpl. split; [done|]. split; [lia|]. by rewrite D4. }
  match goal with |- locked_inv ?s _ _ _ => set (st' := s) end.
  assert (HS : S st' = S st <| so_mutex := true |> <| so_write_buffer_size := so_write_buffer_size (S st) + Z.of_nat (length rest) |>
    <| so_high := mkWbl (sv_next st) (default 0 (last (c_addr <$> (sv_next st, wb, rest) :: hs))) |> <| so_direct_write_buffer := 0 |>).
  { unfold st'. psimpl. rewrite socket_at_same, locked_S. psimpl. rewrite <- Htail. reflexivity. }
  assert (Hrec : sv_wbs st' = <[sv_next st := wb]> (sv_wbs st) ∧ sv_blocks st' = sv_blocks st ∧ sv_next st' = sv_next st + 1 ∧
    sv_pipe st' = sv_pipe st) by done.
  clearbody st'. destruct Hrec as (R1 & R2 & R3 & R4).
  split; rewrite ?HS; try done.
  split; rewrite ?norm_S; unfold norm; psimpl; rewrite ?HS, ?R1, ?R2, ?R3, ?R4; try done; try lia.
  - destruct I1. by constructor.
  - by apply (list_ok_prepend (S st)).
  - eapply Forall_impl; [exact I7|]. simpl. lia.
Qed.
(** the lock is released *)
Definition unlocked (st : server K) : server K :=
  st <| sv_pool := put_at (sv_pool st) i (S st <| so_mutex := false |>) |>.

Lemma unlocked_S st : S (unlocked st) = S st <| so_mutex := false |>.
Proof. unfold unlocked. psimpl. apply socket_at_same. Qed.

Lemma locked_unlock (st st' : server K) hs items c : locked_inv st hs items c → (hs = [] → so_high (S st) = wbl_empty) →
  frame st st' → core (S st') = core (S st) → (hs ≠ [] → so_writing (S st') = true) →
  stream_inv id fd (unlocked st') SOCKET_STATUS_CONNECTED None hs items c.
Proof.
  intros [Km Kt Kw [I1 I2 I3 I4 I5 I6 I7 I8 I9 I10 I11 I12 I13]] Hnil [Fw Fb Fn Fp Fs] Hc Hwr. rewrite norm_S in *.
  unfold norm in I2, I4, I5, I7, I13. psimpl_in I2. psimpl_in I4. psimpl_in I5. psimpl_in I7. psimpl_in I13. unfold norm in I3. psimpl_in I3.
  assert (Htail : wl_tail (so_high (S st)) = default 0 (last (c_addr <$> hs))).
  { destruct hs; [by rewrite (Hnil eq_refl)|by apply Kt]. }
  assert (Hcore : core (S (unlocked st')) = core (norm_sock (S st) hs)).
  { rewrite unlocked_S. unfold norm_sock. rewrite <- Htail. clear -Hc. destruct (S st) as [? ? ? ? ? ? ? ? [] ?], (S st'). simpl in *. injection Hc as. by subst. }
  split; try (unfold unlocked; psimpl; rewrite ?Fw, ?Fb, ?Fn, ?Fp; done).
  - by apply (sock_ok_core _ _ (norm_sock (S st) hs)).
  - unfold unlocked at 2 3 4. psimpl. rewrite Fw, Fb, Fn. by apply (list_ok_core (norm_sock (S st) hs)).
  - unfold unlocked at 2. psimpl. rewrite Fb. by apply (direct_ok_core (norm_sock (S st) hs)).
  - rewrite <- I8. exact (f_equal so_sending_count Hcore).
  - rewrite unlocked_S. by psimpl.
Qed.

(** everything is written: the event is switched off *)
Lemma finish_spec (st : server K) sl items c : locked_inv st [] items c → so_high (S st) = wbl_empty →
  ∃ ev (st' : server K), finish_writing i sl st = Ok ((ev, sl), st') ∧ frame st st' ∧ core (S st') = core (S st).
Proof.
  intros Hinv Hh. destruct (locked_sock _ _ _ _ Hinv) as (_ & _ & Hcl & _ & Hlow & _ & Hsz & _ & _).
  unfold finish_writing. mrun. mstep ltac:(apply check_true; unfold is_write_buffer_empty; by rewrite Hh, Hlow, Hsz).
  rewrite Hcl. destruct (enable_write_frame id false st) as (n & st1 & He & F1 & Hc1 & _). mstep ltac:(exact He).
  destruct (negb (n =? 0)); [|destruct (_ <? _)]; mrun; (eexists _, _; split; [reflexivity|]); (split; [|try exact Hc1]).
  - apply (frame_trans _ st1); [done|by split].
  - apply (frame_trans _ st1); [done|by split].
  - psimpl. rewrite socket_at_same. exact Hc1.
  - done.
Qed.

(** what a writable event leads to: the socket is connected, or the write half was closed *)
Definition written (st st' : server K) (dw : option (Z * list Z)) (hs : list chunk) (items : list item) (c : Z) (n : nat) : Prop :=
  (takes_some → so_status (S st') ≠ SOCKET_STATUS_HALF_CLOSE_WRITE ∧ progress st st') ∧ grows fd st st' ∧
  ((∃ hs', stream_inv id fd st' SOCKET_STATUS_CONNECTED None hs' items c ∧ (length hs' <= n)%nat ∧
      k_sent (sv_os st') fd ++ waiting None hs' items = k_sent (sv_os st) fd ++ waiting dw hs items) ∨
   (so_status (S st') = SOCKET_STATUS_HALF_CLOSE_WRITE ∧
      ∃ bytes, k_sent (sv_os st') fd ++ bytes = k_sent (sv_os st) fd ++ waiting dw hs items)).

Lemma do_send_spec (st : server K) fuel sl hs items c : locked_inv st hs items c → (length hs < fuel)%nat →
  ∃ ev (st' : server K), do_send_write_buffer fuel i sl st = Ok ((ev, sl), st') ∧ sv_next st' = sv_next st ∧
    written st (unlocked st') None hs items c (length hs).
Proof.
  intros Hinv Hfuel. destruct (locked_sock _ _ _ _ Hinv) as (_ & Hty & _ & _ & Hlow & _).
  unfold do_send_write_buffer, list_uncomplete. mrun. cbn [get_list]. rewrite Hlow. cbn [wl_head wbl_empty is_null Z.eqb].
  mrun. unfold send_write_buffer_list. mrun. rewrite Hty. cbn [Z.eqb SOCKET_TYPE_TCP].
  destruct (tcp_loop_spec hs fuel sl st items c Hinv Hfuel) as (ret & st1 & Hl & Hn1 & Hall & Hg & Hcase).
  mstep ltac:(exact Hl). destruct Hcase as [(-> & hs1 & Hinv1 & Hnil & Hlen & Hk)|(-> & Hm & Hst1 & bytes & Hk)].
  2:{ change (negb (SOCKET_EVENT_ERROR =? -1)) with true. cbv iota. eexists _, _. split; [reflexivity|]. split; [done|].
    split; [by intros [? _]%Hall|]. split; [done|]. right. rewrite unlocked_S. split; [done|]. by exists bytes. }
  change (negb (-1 =? -1)) with false. cbv iota. mrun. destruct (locked_sock _ _ _ _ Hinv1) as (_ & _ & _ & _ & Hlow1 & Hch1 & _).
  rewrite (wchain_null _ _ _ Hch1), Hlow1. destruct (decide (hs1 = [])) as [->|Hne].
  - rewrite bool_decide_eq_true_2 by done. cbn [negb wl_head wbl_empty is_null Z.eqb].
    destruct (finish_spec st1 sl items c Hinv1 (Hnil eq_refl)) as (ev & st2 & Hf & F2 & Hc2).
    exists ev, st2. split; [done|]. split; [destruct F2; congruence|]. 
    assert (Hinv2 : stream_inv id fd (unlocked st2) SOCKET_STATUS_CONNECTED None [] items c) by (by apply (locked_unlock st1)).
    assert (Hempty : so_high (S (unlocked st2)) = wbl_empty).
    { rewrite unlocked_S. psimpl. rewrite <- (Hnil eq_refl). exact (f_equal so_high Hc2). }
    split; [intros _; split; [by rewrite (s_status _ _ _ _ (i_sock _ _ _ _ _ _ _ _ Hinv2))|by left]|].
    split; [unfold grows, unlocked in *; psimpl; destruct F2 as [_ _ _ _ ->]; done|].
    left. exists []. split; [done|]. split; [simpl; lia|]. unfold unlocked. psimpl. destruct F2 as [_ _ _ _ ->]. done.
  - rewrite bool_decide_eq_false_2 by done. cbn [negb]. eexists _, _. split; [reflexivity|]. split; [done|].
    assert (Hinv2 : stream_inv id fd (unlocked st1) SOCKET_STATUS_CONNECTED None hs1 items c).
    { apply (locked_unlock st1); try done. intros _. by apply (k_writing _ _ _ _ Hinv1). }
    split; [|split; [done|left; exists hs1; split_and!; [done|lia|done]]].
    intros [_ Hp]%Hall. split; [by rewrite (s_status _ _ _ _ (i_sock _ _ _ _ _ _ _ _ Hinv2))|].
    unfold progress. rewrite unlocked_S. exact Hp.
Qed.

(** the writable event *)
Lemma writable_spec (st : server K) fuel dw hs items c : stream_inv id fd st SOCKET_STATUS_CONNECTED dw hs items c →
  so_writing (S st) = true → (Datatypes.S (length hs) < fuel)%nat →
  ∃ ev (st' : server K), send_write_buffer fuel i 0 st = Ok (ev, st') ∧ sv_next st <= sv_next st' <= sv_next st + 1 ∧
    written st st' dw hs items c (Datatypes.S (length hs)).
Proof.
  intros Hinv Hwr Hfuel. unfold send_write_buffer, sl_try_lock. mrun. rewrite (s_mutex _ _ _ _ (i_sock _ _ _ _ _ _ _ _ Hinv)).
  cbn [andb Z.eqb]. mrun. cbn [negb]. fold (locked st).
  destruct (take_direct_spec st dw hs items c Hinv Hwr) as (st1 & hs1 & Ht & Hinv1 & Hwait & Hlen & Hk & Hn).
  mstep ltac:(exact Ht). destruct (do_send_spec st1 fuel 1 hs1 items c Hinv1) as (ev & st2 & Hd & Hn2 & Hw); [lia|].
  mstep ltac:(exact Hd). unfold sl_unlock. cbn [Z.sub Z.leb Z.add Z.opp Z.pos_sub Z.compare]. mrun. eexists _, _. split; [reflexivity|].
  psimpl. split; [lia|]. fold (unlocked st2). destruct Hw as [Hall [Hg [(hs2 & Hinv2 & Hl2 & Hk2)|(Hst & bytes & Hk2)]]];
    (split; [unfold progress in *; by rewrite <- Hk|]); (split; [unfold grows in *; by rewrite <- Hk|]).
  - left. exists hs2. split; [done|]. split; [lia|]. congruence.
  - right. split; [done|]. exists bytes. congruence.
Qed.
End drain.
