(* ===== verification/SocketOrder.v ===== *)
(** * The bytes of a connection arrive in order

    The theorems about any sequence of operations on a connected socket, from the lemmas on
    single operations of [SocketStream] and [SocketDrain]: what the kernel was given and
    what is waiting are together the bytes sent, in order; nothing waits unless the socket
    thread was asked to write; and with a kernel that takes bytes everything is delivered. *)
From Stdlib Require Import String.
From S2P Require Import Prelude Bytes Text SocketObject SocketEndpoint SocketCmd SocketState SocketServer SocketStream SocketDrain.
Open Scope list_scope.
Open Scope Z_scope.

Definition op_data (op : stream_op) : list Z := match op with OpSend data => data | _ => [] end.

Section order.
Context {K : Type} `{StreamKernel K}.
Variables (fuel : nat) (id fd : Z).
Hypothesis Hid : is_s32 id.
Notation i := (socket_array_index id).
Notation S st := (socket_at (sv_pool st) i).

(** a connected socket with nothing to send *)
Record idle (st : server K) : Prop := {
  idle_sock : sock_ok id fd (S st) SOCKET_STATUS_CONNECTED;
  idle_high : so_high (S st) = wbl_empty;
  idle_size : so_write_buffer_size (S st) = 0;
  idle_direct : so_direct_write_buffer (S st) = 0;
  idle_count : so_sending_count (S st) = Z.shiftl (socket_id_high16 id) 16;
  idle_pipe : sv_pipe st = [];
  idle_next : 0 < sv_next st
}.

Lemma idle_inv st : idle st → stream_inv id fd st SOCKET_STATUS_CONNECTED None [] [] 0.
Proof.
  intros [I1 I2 I3 I4 I5 I6 I7]. split; try done; try (constructor; done); [|lia].
  split; try done; rewrite ?I2; try done; constructor.
Qed.

(** what one or more operations that send [data] lead to *)
Definition connected_after (st st' : server K) dw hs items (c : Z) (n k : nat) (data : list Z) : Prop :=
  ∃ dw' hs' items' c', stream_inv id fd st' SOCKET_STATUS_CONNECTED dw' hs' items' c' ∧ c' <= c + Z.of_nat n ∧
    (length hs' <= length hs + n)%nat ∧ (length items' <= length items + k)%nat ∧ grows fd st st' ∧
    k_sent (sv_os st') fd ++ waiting dw' hs' items' = k_sent (sv_os st) fd ++ waiting dw hs items ++ data.
Definition closed_after (st st' : server K) dw hs items (data : list Z) : Prop :=
  so_status (S st') = SOCKET_STATUS_HALF_CLOSE_WRITE ∧ grows fd st st' ∧
  ∃ bytes, k_sent (sv_os st') fd ++ bytes = k_sent (sv_os st) fd ++ waiting dw hs items ++ data.

(** one command *)
Lemma command_step (st : server K) dw hs items c : stream_inv id fd st SOCKET_STATUS_CONNECTED dw hs items c →
  ∃ st' : server K, stream_step fuel id OpCommand st = Ok ([], st') ∧ sv_next st <= sv_next st' <= sv_next st + 1 ∧
    ∃ hs' c', stream_inv id fd st' SOCKET_STATUS_CONNECTED dw hs' (tail items) c' ∧ c' <= c ∧
      (length hs' <= Datatypes.S (length hs))%nat ∧ k_sent (sv_os st') = k_sent (sv_os st) ∧
      waiting dw hs' (tail items) = waiting dw hs items.
Proof.
  intros Hinv. unfold stream_step. mrun. destruct items as [|[p data|] items]; simpl tail.
  - rewrite (i_pipe _ _ _ _ _ _ _ _ Hinv). simpl. mrun. exists st. split; [done|]. split; [lia|]. exists hs, c. split_and!; try done; lia.
  - destruct (command_send id fd st dw hs p data items c Hid Hinv) as (n & st1 & hs1 & Hc & Hinv1 & Hw & Hlen & Hk & Hn).
    rewrite bool_decide_eq_false_2 by (rewrite (i_pipe _ _ _ _ _ _ _ _ Hinv), fmap_cons; simpl; discriminate).
    mstep ltac:(exact Hc). mrun. exists st1. split; [done|]. split; [lia|]. exists hs1, (c - 1). split_and!; try done; lia.
  - destruct (command_trigger id fd st dw hs items c Hid Hinv) as (n & st1 & Hc & Hinv1 & Hk & Hn).
    rewrite bool_decide_eq_false_2 by (rewrite (i_pipe _ _ _ _ _ _ _ _ Hinv), fmap_cons; simpl; discriminate).
    mstep ltac:(exact Hc). mrun. exists st1. split; [done|]. split; [lia|]. exists hs, c. split_and!; try done; lia.
Qed.

(** nothing waits unless the socket thread was asked to write *)
Lemma not_waiting (st : server K) dw hs items c : stream_inv id fd st SOCKET_STATUS_CONNECTED dw hs items c →
  ItTrigger ∉ items → so_writing (S st) = false → dw = None ∧ hs = [].
Proof.
  intros [_ _ _ _ _ _ _ _ _ _ I11 I12 _] Hno Hw. split.
  - destruct dw as [d|]; [|done]. destruct I12; [done|congruence|done].
  - destruct hs as [|h hs]; [done|]. specialize (I11 ltac:(done)). congruence.
Qed.

(** one writable event *)
Lemma writable_step (st : server K) dw hs items c : stream_inv id fd st SOCKET_STATUS_CONNECTED dw hs items c →
  (Datatypes.S (length hs) < fuel)%nat →
  ∃ st' : server K, stream_step fuel id OpWritable st = Ok ([], st') ∧ sv_next st <= sv_next st' <= sv_next st + 1 ∧
    ((so_writing (S st) = false ∧ st' = st) ∨ written id fd st st' dw hs items c (Datatypes.S (length hs))).
Proof.
  intros Hinv Hfuel. unfold stream_step. mrun. destruct (so_writing (S st)) eqn:Hw.
  - destruct (writable_spec id fd st fuel dw hs items c Hinv Hw Hfuel) as (ev & st1 & Hs & Hn & Hwr).
    mstep ltac:(exact Hs). mrun. exists st1. split; [done|]. split; [lia|]. by right.
  - mrun. exists st. split; [done|]. split; [lia|]. by left.
Qed.

(** one operation *)
Lemma step_spec op (st : server K) dw hs items c : stream_inv id fd st SOCKET_STATUS_CONNECTED dw hs items c →
  c + 1 < 0xFFFF → sv_next st + 1 < 2 ^ 64 → (Datatypes.S (length hs) < fuel)%nat →
  Z.of_nat (length (op_data op)) < USER_OBJECT_TAG →
  ∃ st' : server K, stream_step fuel id op st = Ok (op_data op, st') ∧ sv_next st' <= sv_next st + 2 ∧
    (takes_some fd (K := K) → so_status (S st') ≠ SOCKET_STATUS_HALF_CLOSE_WRITE) ∧
    (connected_after st st' dw hs items c 1 1 (op_data op) ∨ closed_after st st' dw hs items (op_data op)).
Proof.
  intros Hinv Hc Hn Hfuel Hlen. unfold connected_after, closed_after. destruct op as [data| |]; cbn [op_data] in *; rewrite ?app_nil_r.
  - destruct (send_string_spec id fd st data dw hs items c Hinv Hlen Hc Hn) as (st1 & dw1 & items1 & c1 & Hs & Hinv1 & Hc1 & Hl1 & Hg1 & Hn1 & Hk).
    unfold stream_step. mstep ltac:(exact Hs). mrun. exists st1. split; [done|]. split; [lia|].
    split; [by rewrite (s_status _ _ _ _ (i_sock _ _ _ _ _ _ _ _ Hinv1))|].
    left. exists dw1, hs, items1, c1. split_and!; try done; lia.
  - destruct (command_step st dw hs items c Hinv) as (st1 & Hs & Hn1 & hs1 & c1 & Hinv1 & Hc1 & Hl1 & Hk & Hw).
    exists st1. split; [done|]. split; [lia|]. split; [by rewrite (s_status _ _ _ _ (i_sock _ _ _ _ _ _ _ _ Hinv1))|].
    left. exists dw, hs1, (tail items), c1. unfold grows. rewrite Hk, Hw. split_and!; try done; [lia|lia|destruct items; simpl; lia].
  - destruct (writable_step st dw hs items c Hinv Hfuel) as (st1 & Hs & Hn1 & Hcase). exists st1. split; [done|]. split; [lia|].
    destruct Hcase as [[Hwr ->]|[Hsome [Hg Hcase]]].
    + split; [by rewrite (s_status _ _ _ _ (i_sock _ _ _ _ _ _ _ _ Hinv))|]. left. exists dw, hs, items, c. split_and!; try done; try lia. by apply grows_refl.
    + split; [by intros [? _]%Hsome|]. destruct Hcase as [(hs1 & Hinv1 & Hl1 & Hk)|[Hst Hb]]; [left|by right].
      exists None, hs1, items, c. split_and!; try done; lia.
Qed.

(** ** Sequences of operations *)

Lemma run_cons op ops (st st' st'' : server K) data rest : so_status (S st) = SOCKET_STATUS_CONNECTED →
  stream_step fuel id op st = Ok (data, st') → stream_run fuel id ops st' = Ok (rest, st'') →
  stream_run fuel id (op :: ops) st = Ok (data ++ rest, st'').
Proof.
  intros Hs Hop Hops. cbn [stream_run]. mrun. unfold status_is. rewrite Hs, bool_decide_eq_true_2 by done.
  mstep ltac:(exact Hop). mstep ltac:(exact Hops). done.
Qed.

Lemma run_stopped ops (st : server K) : so_status (S st) = SOCKET_STATUS_HALF_CLOSE_WRITE →
  stream_run fuel id ops st = Ok ([], st).
Proof. intros Hs. destruct ops; [done|]. cbn [stream_run]. mrun. unfold status_is. by rewrite Hs, bool_decide_eq_false_2. Qed.

Lemma run_app ops1 ops2 (st st' st'' : server K) data1 data2 : stream_run fuel id ops1 st = Ok (data1, st') →
  stream_run fuel id ops2 st' = Ok (data2, st'') → stream_run fuel id (ops1 ++ ops2) st = Ok (data1 ++ data2, st'').
Proof.
  revert st data1. induction ops1 as [|op ops1 IH]; intros st data1 H1 H2; [by injection H1 as <- <-|].
  simpl app. cbn [stream_run] in *. revert H1. mrun. destruct (status_is _ _) eqn:Es.
  - intros H1. unfold mbind, M_bind in H1 |- *. destruct (stream_step fuel id op st) as [[d st1]|]; [|done]. simpl in *.
    destruct (stream_run fuel id ops1 st1) as [[r st2]|] eqn:E1; [|done]. simpl in H1. injection H1 as <- <-.
    rewrite (IH _ _ E1 H2). simpl. by rewrite app_assoc.
  - intros [= <- <-]. destruct ops2 as [|op2 ops2]; [by injection H2 as <- <-|]. cbn [stream_run] in H2. revert H2. mrun. by rewrite Es.
Qed.

Lemma connected_after_trans (st st1 st2 : server K) dw hs items c n k data1 data2 n' k' : 
  (∃ dw' hs' items' c', stream_inv id fd st1 SOCKET_STATUS_CONNECTED dw' hs' items' c' ∧ c' <= c + Z.of_nat n ∧
    (length hs' <= length hs + n)%nat ∧ (length items' <= length items + k)%nat ∧ grows fd st st1 ∧
    k_sent (sv_os st1) fd ++ waiting dw' hs' items' = k_sent (sv_os st) fd ++ waiting dw hs items ++ data1 ∧
    connected_after st1 st2 dw' hs' items' c' n' k' data2) →
  connected_after st st2 dw hs items c (n + n') (k + k') (data1 ++ data2).
Proof.
  intros (dw1 & hs1 & items1 & c1 & _ & Hc1 & Hh1 & Hi1 & Hg1 & Hk1 & dw2 & hs2 & items2 & c2 & Hinv2 & Hc2 & Hh2 & Hi2 & Hg2 & Hk2).
  exists dw2, hs2, items2, c2. split_and!; try done; try lia; [by eapply grows_trans|]. by rewrite Hk2, !app_assoc, Hk1, <- !app_assoc.
Qed.

(** any operations *)
Lemma run_spec ops (st : server K) dw hs items c : stream_inv id fd st SOCKET_STATUS_CONNECTED dw hs items c →
  c + Z.of_nat (length ops) < 0xFFFF → sv_next st + 2 * Z.of_nat (length ops) < 2 ^ 64 →
  (Datatypes.S (length hs + length ops) < fuel)%nat →
  Forall (λ op, Z.of_nat (length (op_data op)) < USER_OBJECT_TAG) ops →
  ∃ data (st' : server K), stream_run fuel id ops st = Ok (data, st') ∧ sv_next st' <= sv_next st + 2 * Z.of_nat (length ops) ∧
    (takes_some fd (K := K) → so_status (S st') ≠ SOCKET_STATUS_HALF_CLOSE_WRITE) ∧
    ((data = concat (op_data <$> ops) ∧ connected_after st st' dw hs items c (length ops) (length ops) data) ∨
     closed_after st st' dw hs items data).
Proof.
  revert st dw hs items c. induction ops as [|op ops IH]; intros st dw hs items c Hinv Hc Hn Hfuel Hsz.
  - exists [], st. split; [done|]. split; [simpl; lia|]. split; [by rewrite (s_status _ _ _ _ (i_sock _ _ _ _ _ _ _ _ Hinv))|].
    left. split; [done|]. exists dw, hs, items, c. rewrite app_nil_r. split_and!; try done; try lia. by apply grows_refl.
  - apply Forall_cons in Hsz as [Hop Hsz]. simpl length in *.
    destruct (step_spec op st dw hs items c Hinv) as (st1 & Hs & Hn1 & Hsome1 & Hcase); [lia..|].
    pose proof (s_status _ _ _ _ (i_sock _ _ _ _ _ _ _ _ Hinv)) as Hst.
    destruct Hcase as [(dw1 & hs1 & items1 & c1 & Hinv1 & Hc1 & Hh1 & Hi1 & Hg1 & Hk1)|(Hst1 & Hg1 & bytes & Hk1)].
    2:{ exists (op_data op ++ []), st1. split; [by eapply run_cons; [..|apply run_stopped]|]. split; [lia|]. split; [done|].
      right. split; [done|]. split; [done|]. exists bytes. by rewrite app_nil_r. }
    destruct (IH st1 dw1 hs1 items1 c1 Hinv1) as (data & st2 & Hr & Hn2 & Hsome & Hcase); [lia..|done|].
    exists (op_data op ++ data), st2. split; [by eapply run_cons|]. split; [lia|]. split; [done|].
    destruct Hcase as [[-> Hca]|(Hst2 & Hg2 & bytes & Hk2)].
    + left. rewrite fmap_cons. split; [done|]. apply (connected_after_trans st st1 st2 dw hs items c 1 1 _ _ (length ops) (length ops)).
      exists dw1, hs1, items1, c1. split_and!; try done; lia.
    + right. split; [done|]. split; [by eapply grows_trans|]. exists bytes. by rewrite Hk2, !app_assoc, Hk1, <- !app_assoc.
Qed.

(** the commands in the pipe *)
Lemma run_commands n (st : server K) dw hs items c : stream_inv id fd st SOCKET_STATUS_CONNECTED dw hs items c →
  ∃ st' : server K, stream_run fuel id (replicate n OpCommand) st = Ok ([], st') ∧
    ∃ hs' c', stream_inv id fd st' SOCKET_STATUS_CONNECTED dw hs' (drop n items) c' ∧
      (length hs' <= length hs + n)%nat ∧ k_sent (sv_os st') = k_sent (sv_os st) ∧
      waiting dw hs' (drop n items) = waiting dw hs items.
Proof.
  revert st hs items c. induction n as [|n IH]; intros st hs items c Hinv.
  - exists st. split; [done|]. exists hs, c. rewrite drop_0. split_and!; try done; lia.
  - destruct (command_step st dw hs items c Hinv) as (st1 & Hs & _ & hs1 & c1 & Hinv1 & _ & Hl1 & Hk1 & Hw1).
    destruct (IH _ _ _ _ Hinv1) as (st2 & Hr & hs2 & c2 & Hinv2 & Hl2 & Hk2 & Hw2).
    exists st2. split; [exact (run_cons _ _ _ _ _ _ _ (s_status _ _ _ _ (i_sock _ _ _ _ _ _ _ _ Hinv)) Hs Hr)|].
    assert (Hd : drop n (tail items) = drop (Datatypes.S n) items) by (destruct items; [apply drop_nil|done]).
    rewrite Hd in *. exists hs2, c2. split_and!; try done; [lia|congruence|congruence].
Qed.

(** writable events, with a kernel that takes bytes *)
Lemma run_writable n (st : server K) dw hs c : takes_some fd (K := K) →
  stream_inv id fd st SOCKET_STATUS_CONNECTED dw hs [] c → (Datatypes.S (length hs + n) < fuel)%nat →
  (length (waiting dw hs []) < n)%nat ∨ waiting dw hs [] = [] →
  ∃ st' : server K, stream_run fuel id (replicate n OpWritable) st = Ok ([], st') ∧
    k_sent (sv_os st') fd = k_sent (sv_os st) fd ++ waiting dw hs [].
Proof.
  intros Hsome. revert st dw hs c. induction n as [|n IH]; intros st dw hs c Hinv Hfuel Hn.
  - destruct Hn as [?|Hw]; [lia|]. exists st. rewrite Hw, app_nil_r. done.
  - pose proof (s_status _ _ _ _ (i_sock _ _ _ _ _ _ _ _ Hinv)) as Hst.
    destruct (writable_step st dw hs [] c Hinv) as (st1 & Hs & _ & Hcase); [lia|].
    destruct Hcase as [[Hwr ->]|[Hprog [_ Hcase]]].
    + destruct (not_waiting st dw hs [] c Hinv) as [-> ->]; [apply not_elem_of_nil|done|].
      destruct (IH st None [] c Hinv) as (st2 & Hr & Hk2); [simpl in *; lia|by right|].
      exists st2. split; [exact (run_cons _ _ _ _ _ _ _ Hst Hs Hr)|done].
    + destruct (Hprog Hsome) as [Hne Hp]. destruct Hcase as [(hs1 & Hinv1 & Hl1 & Hk1)|[? _]]; [|done].
      destruct (IH st1 None hs1 c Hinv1) as (st2 & Hr & Hk2); [lia| |].
      { destruct Hp as [Hp|Hp].
        - right. pose proof (l_head _ _ _ _ _ (i_high _ _ _ _ _ _ _ _ Hinv1)) as Hch. rewrite Hp in Hch. simpl in Hch.
          inversion Hch; [done|lia].
        - left. apply (f_equal length) in Hk1. rewrite !length_app in Hk1. destruct Hn as [Hn|Hn]; [|rewrite Hn in Hk1; simpl in Hk1]; lia. }
      exists st2. split; [exact (run_cons _ _ _ _ _ _ _ Hst Hs Hr)|congruence].
Qed.

End order.

(** ** A kernel to run the server on

    Each write takes as many bytes as the list says, fails with [EAGAIN] where it says a
    negative number, and takes three bytes after the end of the list. *)
Record sim := mkSim { sim_caps : list Z; sim_log : list (Z * list Z) }.

Definition sim_ret (ret errno : Z) : sysret := mkRet ret errno [] 0 endpoint_zero [] [].

Definition sim_call (c : syscall) (k : sim) : sysret * sim :=
  match c with
  | SysWrite fd data =>
      let cap := default 3 (head (sim_caps k)) in
      if cap <? 0 then (sim_ret (-1) EAGAIN, mkSim (tail (sim_caps k)) (sim_log k))
      else
        let n := Z.min cap (Z.of_nat (length data)) in
        (sim_ret n 0, mkSim (tail (sim_caps k)) (sim_log k ++ [(fd, take (Z.to_nat n) data)]))
  | SysSocket _ _ _ => (sim_ret 7 0, k)
  | SysGetaddrinfo _ _ family socktype protocol =>
      (mkRet 0 0 [] 0 endpoint_zero [mkAi AF_INET socktype protocol endpoint_zero] [], k)
  | _ => (sim_ret 0 0, k)
  end.

#[export] Instance sim_kernel : Kernel sim := {
  kernel := sim_call;
  strerror := λ _, "error"%string;
  gai_strerror := λ _, "error"%string;
  inet_ntop := λ _ _, Some "127.0.0.1"%string
}.

Definition sim_sent (k : sim) (fd : Z) : list Z := concat (snd <$> filter (λ e, e.1 = fd) (sim_log k)).

#[export] Program Instance sim_stream : StreamKernel sim := { k_sent := sim_sent }.
Next Obligation.
  intros fd data k. simpl. destruct (Z.ltb_spec (default 3 (head (sim_caps k))) 0); simpl; [by right|left]. split; [lia|].
  unfold sim_sent. simpl. rewrite filter_app, fmap_app, concat_app. simpl. rewrite filter_cons_True by done. simpl. by rewrite app_nil_r.
Qed.
Next Obligation. done. Qed.
Next Obligation. done. Qed.

(** the same kernel with an empty list: every write takes up to three bytes *)
Record steady := mkSteady { steady_log : list (Z * list Z) }.
#[export] Instance steady_kernel : Kernel steady := {
  kernel c k := let '(r, k) := sim_call c (mkSim [] (steady_log k)) in (r, mkSteady (sim_log k));
  strerror := λ _, "error"%string;
  gai_strerror := λ _, "error"%string;
  inet_ntop := λ _ _, Some "127.0.0.1"%string
}.
#[export] Program Instance steady_stream : StreamKernel steady := { k_sent k := sim_sent (mkSim [] (steady_log k)) }.
Next Obligation.
  intros fd data k. simpl. left. split; [lia|]. unfold sim_sent. simpl.
  rewrite filter_app, fmap_app, concat_app. simpl. rewrite filter_cons_True by done. simpl. by rewrite app_nil_r.
Qed.
Next Obligation. done. Qed.
Next Obligation. done. Qed.

Lemma steady_takes fd : takes_some fd (K := steady).
Proof. intros data k. simpl. lia. Qed.

(** the server with one connection: the socket 1 on the descriptor 7 *)
Definition sim_connected {K} `{Kernel K} (k : K) : server K :=
  match (server_init 0;; server_connect 5 "127.0.0.1" 80;; handle_ctrl_cmd) (server_new k) with
  | Ok (_, st) => st
  | Err _ => server_new k
  end.

Lemma sim_idle caps : idle 1 7 (sim_connected (mkSim caps [])).
Proof. by split; try split. Qed.

Lemma steady_idle : idle 1 7 (sim_connected (mkSteady [])).
Proof. by split; try split. Qed.

Definition sim_ops : list stream_op :=
  [OpSend [1; 2; 3; 4]; OpSend [5; 6]; OpCommand; OpWritable; OpCommand; OpSend []; OpWritable; OpSend [7]].


Definition sim_data : list Z := [1; 2; 3; 4; 5; 6; 7].

