(* ===== verification/SocketEdge.v ===== *)
(** * Where the socket server does not do what it means to

    Three behaviours of the socket server that its callers do not expect, each from the
    definitions of [SocketServer] and for every state in which it occurs. *)
From Stdlib Require Import String.
From S2P Require Import Prelude Bytes Text SocketObject SocketEndpoint SocketCmd SocketState SocketServer SocketStream SocketDrain SocketOrder.
Open Scope list_scope.
Open Scope Z_scope.

Section edge.
Context {K : Type} `{Kernel K}.
Variable id : Z.
Notation i := (socket_array_index id).
Notation S st := (socket_at (sv_pool st) i).

Lemma sys_Ok c (st : server K) : ∃ r (st' : server K), sys c st = Ok (r, st') ∧ sv_pool st' = sv_pool st ∧ sv_result st' = sv_result st ∧
  r = (kernel c (sv_os st)).1.
Proof. unfold sys. destruct (kernel c (sv_os st)) as [r k]. eexists _, _. split; [reflexivity|done]. Qed.

Lemma enable_read_off (st : server K) : ∃ n (st' : server K), enable_read i false st = Ok (n, st') ∧
  S st' = S st <| so_reading := false |>.
Proof.
  unfold enable_read, poller_enable. mrun. destruct (so_reading (S st)) eqn:E; cbn [eqb negb].
  - mrun. match goal with |- context [mbind _ (sys ?c) ?s] => destruct (sys_Ok c s) as (r & st1 & Hs & Hp & _) end.
    mstep ltac:(exact Hs). eexists _, st1. split; [reflexivity|]. rewrite Hp. psimpl. by rewrite socket_at_same.
  - eexists _, st. split; [reflexivity|]. destruct (S st). simpl in *. by subst.
Qed.

(** [close_read]: the object is marked and no longer read *)
Lemma close_read_spec (st : server K) : ∃ st' : server K, close_read i st = Ok (tt, st') ∧
  S st' = S st <| so_status := SOCKET_STATUS_HALF_CLOSE_READ |> <| so_reading := false |>.
Proof.
  unfold close_read. mrun.
  match goal with |- context [enable_read i false ≫= _] => idtac | _ => idtac end.
  destruct (enable_read_off (st <| sv_pool := put_at (sv_pool st) i (shutdown_read (S st)) |>)) as (n & st1 & He & HS).
  psimpl_in HS. rewrite socket_at_same in HS. mstep ltac:(exact He). mrun.
  match goal with |- context [mbind _ (sys ?c) ?s] => destruct (sys_Ok c s) as (r & st2 & Hs & Hp & _) end.
  mstep ltac:(exact Hs). mrun. eexists. split; [reflexivity|]. psimpl. by rewrite Hp, HS.
Qed.

(** the size of a block of [n] bytes that is sent without being copied *)
Definition memory_data (p : Z) (data : list Z) : send_data := mkSd id SEND_DATA_TYPE_MEMORY p (Z.of_nat (length data)).

Lemma idle_blocks (st : server K) fd blocks : idle id fd st → idle id fd (st <| sv_blocks := blocks |>).
Proof. intros []. by constructor. Qed.

Lemma idle_can_send (st : server K) fd : idle id fd st → so_udp_connecting_count (S st) = 0 → can_direct_send (S st) id = true.
Proof.
  intros [I1 I2 I3 I4 I5 I6 I7] Hu. unfold can_direct_send, nomore_sending_data, is_write_buffer_empty, status_is.
  rewrite (s_id _ _ _ _ I1), Z.eqb_refl, I2, (s_low _ _ _ _ I1), I4, I5, Hu, (s_status _ _ _ _ I1).
  replace (Z.land (socket_id_high16 id ≪ 16) 0xFFFF) with 0; [done|].
  destruct (count_low id 0) as (Hc & _); [lia|]. by rewrite Z.add_0_r in Hc.
Qed.
End edge.

(** ** Properties *)

(** [socket_server::exit] is not understood by the socket thread: the command it sends has
    the type 0 instead of 'X', so that the socket thread logs an unknown command and goes on
    polling; no event for the end of the socket server is ever reported. *)
Theorem exit_not_understood {K} `{Kernel K} (st : server K) : sv_pipe st = [] →
  ∃ st', (server_exit;; handle_ctrl_cmd) st = Ok (-1, st') ∧ sv_pipe st' = [] ∧ sv_pool st' = sv_pool st ∧
    sv_log st' = sv_log st ++ ["socket-server : Unknown ctrl command 0."%string].
Proof.
  intros Hp. unfold server_exit, _send_ctrl_cmd. mrun. rewrite Hp. unfold handle_ctrl_cmd. mrun.
  eexists. split; [reflexivity|]. done.
Qed.

Lemma exit_not_understood_witness :
  ∃ st', (server_exit;; handle_ctrl_cmd) (sim_connected (mkSim [] [])) = Ok (-1, st') ∧ sv_pipe st' = [] ∧
    sv_pool st' = sv_pool (sim_connected (mkSim [] [])) ∧
    sv_log st' = sv_log (sim_connected (mkSim [] [])) ++ ["socket-server : Unknown ctrl command 0."%string].
Proof. apply exit_not_understood. done. Defined.

(** a send of memory that the kernel takes whole calls a function pointer that was never
    set: [send] writes the bytes directly and then calls [free_func] of a [send_user_object]
    for which [init_send_user_object] assigns none. *)
Theorem memory_send_uninitialised {K} `{Kernel K} (st : server K) id fd p data :
  idle id fd st → so_udp_connecting_count (socket_at (sv_pool st) (socket_array_index id)) = 0 →
  0 < p → sv_blocks st !! p = Some data → Z.of_nat (length data) < USER_OBJECT_TAG →
  sr_ret (kernel (SysWrite fd data) (sv_os st)).1 = Z.of_nat (length data) →
  server_send (memory_data id p data) st = Err UninitRead.
Proof.
  intros Hidle Hu Hp Hb Hlen Hk. pose proof (idle_can_send id st fd Hidle Hu) as Hcan. pose proof (idle_sock _ _ _ Hidle) as Hs.
  unfold server_send, memory_data. mrun. cbn [sd_socket_id]. unfold is_invalid, status_is.
  rewrite (s_id _ _ _ _ Hs), (s_status _ _ _ _ Hs), Z.eqb_refl, bool_decide_eq_false_2 by done. cbn [negb orb].
  rewrite Hcan, (s_mutex _ _ _ _ Hs). cbn [andb negb]. mrun.
  unfold direct_send, init_send_user_object, init_send_user_object_raw. cbn [sd_type sd_data_ptr sd_data_size sd_socket_id].
  change (SEND_DATA_TYPE_MEMORY =? SEND_DATA_TYPE_MEMORY) with true. rewrite (proj2 (Z.eqb_neq _ USER_OBJECT_TAG)) by lia. mrun.
  cbn [snd suo_buffer suo_sz suo_free]. psimpl. rewrite socket_at_same. psimpl.
  rewrite (s_type _ _ _ _ Hs), (s_fd _ _ _ _ Hs), Z.eqb_refl. cbv iota.
  mstep ltac:(apply (load_block _ p data); [lia|done]). rewrite ?M_bind_assoc.
  match goal with |- context [mbind _ (sys ?c) ?s] => destruct (sys_Ok c s) as (r & st1 & Hsys & Hpool & _ & Hr) end.
  mstep ltac:(exact Hsys). mrun. psimpl_in Hr. rewrite Hr, Hk, (proj2 (Z.ltb_ge _ 0)), Z.eqb_refl by lia. reflexivity.
Qed.

Lemma memory_send_uninitialised_witness :
  let st := sim_connected (mkSim [10] []) <| sv_blocks := {[ 5 := [1; 2; 3] ]} |> in
  server_send (memory_data 1 5 [1; 2; 3]) st = Err UninitRead.
Proof.
  cbv zeta. apply (memory_send_uninitialised _ 1 7); [|done|done|done|done|done].
  apply idle_blocks, sim_idle.
Defined.

(** once a direct write was unfinished, [close] does not close: the count of sends that the
    worker raised for the unfinished write is never lowered, so that when everything was sent and
    nothing is in the pipe a [close] still finds data to wait for. The service is told that the
    socket was closed, but the object keeps its descriptor and its id, and neither reads nor waits
    to write. *)
Theorem close_waits_forever {K} `{StreamKernel K} (st : server K) id fd c svc_handle :
  is_s32 id → is_u32 svc_handle → stream_inv id fd st SOCKET_STATUS_CONNECTED None [] [] c → 0 < c →
  so_writing (socket_at (sv_pool st) (socket_array_index id)) = false →
  ∃ st', (server_close svc_handle id;; handle_ctrl_cmd) st = Ok (SOCKET_EVENT_CLOSE, st') ∧
    let s := socket_at (sv_pool st') (socket_array_index id) in
    so_status s = SOCKET_STATUS_HALF_CLOSE_READ ∧ so_closing s = true ∧ so_socket_id s = id ∧ so_socket_fd s = fd ∧
    so_reading s = false ∧ so_writing s = false ∧ is_write_buffer_empty s = true ∧ so_direct_write_buffer s = 0.
Proof.
  intros Hid Hh Hinv Hc Hw. destruct Hinv as [Hs Hl Hd Hp _ _ _ Hcount _ Hcb _ _ _]. simpl in Hp.
  unfold server_close, _send_ctrl_cmd. mrun. rewrite Hp. cbn [app]. unfold handle_ctrl_cmd.
  mstep ltac:(psimpl; rewrite <- (app_nil_r (ctrl_cmd_wire _)), (read_prepared _ _ _ (P_close id svc_handle Hid Hh)); reflexivity).
  unfold handle_ctrl_cmd_close_socket. mrun. psimpl. unfold is_invalid, status_is, is_close_read, nomore_sending_data, is_close_write, status_is.
  rewrite (s_id _ _ _ _ Hs), (s_status _ _ _ _ Hs), Z.eqb_refl, !bool_decide_eq_false_2 by done. cbn [negb orb].
  destruct (count_low id c) as (Hlow & _); [lia|]. rewrite Hcount, Hlow, (proj2 (Z.eqb_neq c 0)), andb_false_r by lia. cbn [orb Z.eqb negb].
  mrun. match goal with |- context [mbind _ (close_read _) ?s] => destruct (close_read_spec id s) as (st1 & Hcr & HS) end.
  mstep ltac:(exact Hcr). exists st1. split; [done|]. cbv zeta. rewrite HS. psimpl. rewrite socket_at_same.
  pose proof (l_head _ _ _ _ _ Hl) as Hh0. unfold is_write_buffer_empty. psimpl. rewrite (s_low _ _ _ _ Hs).
  split_and!; try done; try (by apply Hs). by inversion Hh0.
Qed.

(** four bytes of which the kernel took two at first *)
Definition sim_partial : server sim :=
  match stream_run 20 1 [OpSend [1; 2; 3; 4]; OpCommand; OpWritable] (sim_connected (mkSim [2] [])) with
  | Ok (_, st) => st
  | Err _ => sim_connected (mkSim [] [])
  end.

Lemma sim_partial_inv : stream_inv 1 7 sim_partial SOCKET_STATUS_CONNECTED None [] [] 1.
Proof. split; try done; try (split; done || constructor); constructor. Qed.

Lemma close_waits_forever_witness :
  sim_sent (sv_os sim_partial) 7 = [1; 2; 3; 4] ∧
  ∃ st', (server_close 5 1;; handle_ctrl_cmd) sim_partial = Ok (SOCKET_EVENT_CLOSE, st') ∧
    let s := socket_at (sv_pool st') (socket_array_index 1) in
    so_status s = SOCKET_STATUS_HALF_CLOSE_READ ∧ so_closing s = true ∧ so_socket_id s = 1 ∧ so_socket_fd s = 7 ∧
    so_reading s = false ∧ so_writing s = false ∧ is_write_buffer_empty s = true ∧ so_direct_write_buffer s = 0.
Proof.
  split; [done|]. apply (close_waits_forever sim_partial 1 7 1 5); [done|done|exact sim_partial_inv|done|done].
Defined.
