(* ===== verification/ModManager.v ===== *)
(** * C service modules (skynet-src/mod: mod_manager.h, mod_manager.cpp, dll_loader.inl)

    The table of loaded service modules. The dynamic loader is outside the
    program: [dlopen] and [dlsym] are parameters, 0 is [nullptr]. *)
From Stdlib Require Import Ascii String.
From S2P Require Import Prelude Text.
Open Scope string_scope.
Open Scope Z_scope.

(** [struct service_mod_info]; [handle_] is the field of its [dll_loader_] *)
Record service_mod_info := mkMod {
  mod_name_ : string;
  mod_dll_handle_ : Z;
  mod_create_func_ : Z;
  mod_release_func_ : Z
}.

(** [class mod_manager] *)
Record mod_manager := mkMods {
  search_path_ : string;
  service_mod_map_ : gmap string service_mod_info
}.

Definition mods_empty : mod_manager := mkMods "" ∅.

(** [mod_manager::init] *)
Definition mod_init (mm : mod_manager) (search_path : string) : mod_manager :=
  mkMods search_path (service_mod_map_ mm).

(** [mod_manager::query]; [None] is [nullptr] *)
Definition mod_query (mm : mod_manager) (mod_name : string) : option service_mod_info :=
  service_mod_map_ mm !! mod_name.

(** [mod_manager::fini] *)
Definition mod_fini (mm : mod_manager) : mod_manager := mkMods (search_path_ mm) ∅.

Definition CREATE_CSERVICE_PROC : string := "create_service".
Definition RELEASE_CSERVICE_PROC : string := "release_service".

Section loader.
Variable dlopen : string → Z.
Variable dlsym : Z → string → Z.

(** [dll_loader::load] on a loader whose handle is [handle]: the new handle and the result *)
Definition dll_load (handle : Z) (filename : string) : Z * bool :=
  if negb (handle =? 0) then (handle, true)
  else let handle := if (strlen filename =? 0) then handle else dlopen filename in
       (handle, negb (handle =? 0)).

(** [dll_loader::get_symbol] *)
Definition dll_get_symbol (handle : Z) (symbol : string) : Z :=
  if handle =? 0 then 0 else dlsym handle symbol.

(** the file a search path entry names: its first [?] replaced *)
Definition mod_path (path mod_name : string) (pos : Z) : string :=
  str_take (Z.to_nat pos) path ++ mod_name ++ str_drop (Z.to_nat (pos + 1)) path.

(** the loop over the search path of [_try_load_dll]; the process exits on an
    entry without wildcard *)
Fixpoint try_paths (paths : list string) (mod_name : string) (handle : Z) : result Z :=
  match paths with
  | [] => Ok handle
  | path :: paths =>
      let pos := str_find "?" path in
      if pos =? -1 then Err ProcessExit
      else
        let '(handle, ok) := dll_load handle (mod_path path mod_name pos) in
        if ok : bool then Ok handle else try_paths paths mod_name handle
  end.

(** [mod_manager::_try_load_dll] *)
Definition _try_load_dll (mm : mod_manager) (mod_name : string) : result (option service_mod_info) :=
  handle <- try_paths (token_split ";" (search_path_ mm)) mod_name 0;;
  if handle =? 0 then Ok None else Ok (Some (mkMod mod_name handle 0 0)).

(** [mod_manager::load] *)
Definition mod_load (mm : mod_manager) (mod_name : string)
  : result (option service_mod_info * mod_manager) :=
  r <- _try_load_dll mm mod_name;;
  match r with
  | None => Ok (None, mm)
  | Some mi =>
      let create := dll_get_symbol (mod_dll_handle_ mi) CREATE_CSERVICE_PROC in
      let release := dll_get_symbol (mod_dll_handle_ mi) RELEASE_CSERVICE_PROC in
      if (create =? 0) || (release =? 0) then Ok (None, mm)
      else
        let mi := mkMod (mod_name_ mi) (mod_dll_handle_ mi) create release in
        Ok (Some mi, mkMods (search_path_ mm) (<[mod_name := mi]> (service_mod_map_ mm)))
  end.

(** ** Properties *)

(** every registered module has both entry points *)
Definition mods_wf (mm : mod_manager) : Prop :=
  map_Forall (λ name mi, mod_name_ mi = name ∧ mod_dll_handle_ mi ≠ 0 ∧
                         mod_create_func_ mi ≠ 0 ∧ mod_release_func_ mi ≠ 0)
             (service_mod_map_ mm).

Lemma mod_load_wf mm name r mm' : mods_wf mm → mod_load mm name = Ok (r, mm') → mods_wf mm'.
Proof.
  intros Hwf H. unfold mod_load in H.
  destruct (_try_load_dll mm name) as [[mi|]|] eqn:Ht; simpl in H; [|by simplify_eq|done].
  unfold _try_load_dll in Ht. destruct (try_paths _ _ _) as [h|]; simpl in Ht; [|done].
  destruct (Z.eqb_spec h 0); simplify_eq/=. destruct (_ || _) eqn:E; simplify_eq; [done|].
  apply orb_false_iff in E as [E1 E2]. apply Z.eqb_neq in E1, E2.
  by apply map_Forall_insert_2.
Qed.

(** A successful load is what a later query finds; the other entries stay. *)
Lemma mod_load_query mm name mi mm' : mod_load mm name = Ok (Some mi, mm') →
  mod_query mm' name = Some mi ∧
  ∀ other, other ≠ name → mod_query mm' other = mod_query mm other.
Proof.
  intros H. unfold mod_load in H.
  destruct (_try_load_dll mm name) as [[mi0|]|]; simpl in H; [|by simplify_eq|done].
  destruct (_ || _) eqn:E; simplify_eq. unfold mod_query. simpl. split.
  - apply lookup_insert_eq.
  - intros other Hne. by rewrite lookup_insert_ne.
Qed.

(** The loaded library is the first entry of the search path that opens. *)
Lemma try_paths_first paths name : Forall (λ p, str_find "?" p ≠ -1) paths →
  ∃ h, try_paths paths name 0 = Ok h ∧
    (h = 0 → Forall (λ p, (dll_load 0 (mod_path p name (str_find "?" p))).2 = false) paths) ∧
    (h ≠ 0 → ∃ ps p qs, paths = (ps ++ p :: qs)%list ∧
       Forall (λ p, (dll_load 0 (mod_path p name (str_find "?" p))).2 = false) ps ∧
       dll_load 0 (mod_path p name (str_find "?" p)) = (h, true)).
Proof.
  induction paths as [|p paths IH]; intros Hall; cbn [try_paths].
  { exists 0. by repeat split. }
  apply Forall_cons in Hall as [Hp Hall]. rewrite (proj2 (Z.eqb_neq _ _)) by done.
  destruct (dll_load 0 (mod_path p name (str_find "?" p))) as [h ok] eqn:Hl. destruct ok.
  - exists h. split; [done|]. assert (h ≠ 0).
    { unfold dll_load in Hl. simpl in Hl. injection Hl as Hh Hneg.
      apply negb_true_iff, Z.eqb_neq in Hneg. congruence. }
    split; [done|]. intros _. by exists [], p, paths.
  - assert (h = 0) as ->.
    { unfold dll_load in Hl. simpl in Hl. injection Hl as Hh Hneg.
      apply negb_false_iff, Z.eqb_eq in Hneg. congruence. }
    destruct (IH Hall) as (h & -> & H0 & H1). exists h. split; [done|]. split.
    + intros Hh. constructor; [by rewrite Hl|by apply H0].
    + intros Hh. destruct (H1 Hh) as (ps & p' & qs & -> & Hps & Hp').
      exists (p :: ps), p', qs. split; [done|]. split; [|done]. constructor; [by rewrite Hl|done].
Qed.
End loader.

(** ** Properties of loading *)

(** Loading a module opens the first library of the search path that opens: after a
    successful [load], every earlier entry of the path failed to open, the module carries both
    entry points of that library, a later [query] finds it, and the other modules stay. *)
Theorem mod_load_first_match dlopen dlsym mm name mi mm' :
  Forall (λ p, str_find "?" p ≠ -1) (token_split ";" (search_path_ mm)) →
  mods_wf mm → mod_load dlopen dlsym mm name = Ok (Some mi, mm') →
  (∃ ps p qs, token_split ";" (search_path_ mm) = (ps ++ p :: qs)%list ∧
     Forall (λ p, (dll_load dlopen 0 (mod_path p name (str_find "?" p))).2 = false) ps ∧
     dll_load dlopen 0 (mod_path p name (str_find "?" p)) = (mod_dll_handle_ mi, true)) ∧
  mod_create_func_ mi = dll_get_symbol dlsym (mod_dll_handle_ mi) CREATE_CSERVICE_PROC ∧ mod_create_func_ mi ≠ 0 ∧
  mod_release_func_ mi = dll_get_symbol dlsym (mod_dll_handle_ mi) RELEASE_CSERVICE_PROC ∧ mod_release_func_ mi ≠ 0 ∧
  mods_wf mm' ∧ mod_query mm' name = Some mi ∧ ∀ other, other ≠ name → mod_query mm' other = mod_query mm other.
Proof.
  intros Hp Hwf Hl. pose proof (mod_load_wf _ _ _ _ _ _ Hwf Hl) as Hwf'.
  destruct (mod_load_query _ _ _ _ _ _ Hl) as [Hq Ho].
  destruct (try_paths_first dlopen (token_split ";" (search_path_ mm)) name Hp) as (h & Ht & _ & Hsome).
  unfold mod_load, _try_load_dll in Hl. rewrite Ht in Hl. simpl in Hl.
  destruct (Z.eqb_spec h 0) as [|Hh]; [done|]. simpl in Hl. destruct (_ || _) eqn:E; [done|].
  apply orb_false_iff in E as [E1 E2]. apply Z.eqb_neq in E1, E2. simplify_eq/=. split_and!; try done. by apply Hsome.
Qed.

Lemma mod_load_first_match_witness :
  let dlopen f := if String.eqb f "b/x.so" then 5 else 0 in
  let dlsym (h : Z) s := if String.eqb s CREATE_CSERVICE_PROC then 6 else 7 in
  let mm := mod_init mods_empty "a/?.so;b/?.so;c/?.so" in
  ∃ mi mm', mod_load dlopen dlsym mm "x" = Ok (Some mi, mm') ∧ mod_create_func_ mi ≠ 0 ∧ mod_query mm' "x" = Some mi.
Proof.
  intros dlopen dlsym mm. destruct (mod_load dlopen dlsym mm "x") as [[[mi|] mm']|] eqn:Hl; [|vm_compute in Hl; congruence..].
  exists mi, mm'. split; [reflexivity|].
  destruct (mod_load_first_match dlopen dlsym mm "x" mi mm') as (_ & _ & H1 & _ & _ & _ & H2 & _).
  - repeat constructor; vm_compute; congruence.
  - apply map_Forall_empty.
  - exact Hl.
  - split; [exact H1|exact H2].
Defined.
