(* ===== verification/Timer.v ===== *)
(** * The timer (skynet-src/timer: timer.h, timer.cpp, timer_manager.h, timer_manager.cpp)

    A hierarchical timing wheel: 256 lists for the current block of 256 ticks and
    four levels of 64 lists for later ones, cascaded down as the 32-bit tick
    counter advances. The specification is a list of pending timers with absolute
    expiry ticks, in the order they were set: a tick dispatches the timers that
    expire at it, in that order, and no others.

    Where the dispatched messages go is a parameter ([push], which the node
    instantiates with [push_service_message]); so is the clock. *)
From S2P Require Import Prelude Message.

(** the enum of timer.h *)
Definition TIME_NEAR_SHIFT : Z := 8.
Definition TIME_NEAR : Z := Z.shiftl 1 TIME_NEAR_SHIFT.
Definition TIME_LEVEL_SHIFT : Z := 6.
Definition TIME_LEVEL : Z := Z.shiftl 1 TIME_LEVEL_SHIFT.
Definition TIME_NEAR_MASK : Z := TIME_NEAR - 1.
Definition TIME_LEVEL_MASK : Z := TIME_LEVEL - 1.

(** [struct timer_event] *)
Record timer_event := mkEvent {
  te_svc_handle : Z;
  te_session : Z
}.

(** [struct timer_node] with the event stored behind it *)
Record timer_node := mkNode {
  expire : Z;
  event : timer_event
}.

(** [struct link_list]: the nodes from [head.next] to [tail] *)
Definition link_list : Type := list timer_node.

(** [struct timer] *)
Record timer := mkTimer {
  near : list link_list;
  t_ : list (list link_list);
  time : Z;
  start_seconds : Z;
  current : Z;
  current_tick : Z
}.

Definition with_near (T : timer) (n : list link_list) : timer :=
  mkTimer n (t_ T) (time T) (start_seconds T) (current T) (current_tick T).
Definition with_levels (T : timer) (l : list (list link_list)) : timer :=
  mkTimer (near T) l (time T) (start_seconds T) (current T) (current_tick T).
Definition with_time (T : timer) (x : Z) : timer :=
  mkTimer (near T) (t_ T) x (start_seconds T) (current T) (current_tick T).
Definition with_clock (T : timer) (cur tick : Z) : timer :=
  mkTimer (near T) (t_ T) (time T) (start_seconds T) cur tick.

(** ** timer.cpp *)

(** [link]: append at the tail *)
Definition link (list : link_list) (node : timer_node) : link_list := list ++ [node].

(** [link_clear]: the old nodes, and the emptied list *)
Definition link_clear (list : link_list) : link_list * link_list := (list, []).

(** a list of the wheel: [near[i]] or [t[level][i]] *)
Inductive loc :=
  | Near (i : Z)
  | Level (level i : Z).

#[export] Instance loc_eq_dec : EqDecision loc.
Proof. solve_decision. Defined.

Definition get_list (T : timer) (l : loc) : result link_list :=
  match l with
  | Near i => arr_get (near T) i
  | Level lv i => row <- arr_get (t_ T) lv;; arr_get row i
  end.

Definition set_list (T : timer) (l : loc) (x : link_list) : result timer :=
  match l with
  | Near i => n <- arr_set (near T) i x;; Ok (with_near T n)
  | Level lv i =>
      row <- arr_get (t_ T) lv;;
      row <- arr_set row i x;;
      rows <- arr_set (t_ T) lv row;;
      Ok (with_levels T rows)
  end.

(** the [for] of [add_node]: the level, trying [n] more masks *)
Fixpoint level_loop (n : nat) (i mask time current_time : Z) : Z :=
  match n with
  | O => i
  | S n =>
      if Z.lor time (mask - 1) =? Z.lor current_time (mask - 1) then i
      else level_loop n (i + 1) (u32 (Z.shiftl mask TIME_LEVEL_SHIFT)) time current_time
  end.

(** the list [add_node] chooses *)
Definition node_loc (time current_time : Z) : loc :=
  if Z.lor time TIME_NEAR_MASK =? Z.lor current_time TIME_NEAR_MASK
  then Near (Z.land time TIME_NEAR_MASK)
  else
    let i := level_loop 3 0 (Z.shiftl TIME_NEAR TIME_LEVEL_SHIFT) time current_time in
    Level i (Z.land (Z.shiftr time (TIME_NEAR_SHIFT + i * TIME_LEVEL_SHIFT)) TIME_LEVEL_MASK).

(** [add_node] *)
Definition add_node (T : timer) (node : timer_node) : result timer :=
  let l := node_loc (expire node) (time T) in
  x <- get_list T l;;
  set_list T l (link x node).

Fixpoint add_nodes (T : timer) (nodes : link_list) : result timer :=
  match nodes with
  | [] => Ok T
  | n :: nodes => T <- add_node T n;; add_nodes T nodes
  end.

(** [move_list] *)
Definition move_list (T : timer) (level idx : Z) : result timer :=
  x <- get_list T (Level level idx);;
  T <- set_list T (Level level idx) (link_clear x).2;;
  add_nodes T (link_clear x).1.

(** ** timer_manager.cpp *)

(** [create_timer] *)
Definition create_timer : timer :=
  mkTimer (replicate (Z.to_nat TIME_NEAR) [])
          (replicate 4 (replicate (Z.to_nat TIME_LEVEL) []))
          0 0 0 0.

(** [timer_add] *)
Definition timer_add (T : timer) (arg : timer_event) (time_ : Z) : result timer :=
  add_node T (mkNode (u32 (time_ + time T)) arg).

(** the [while] of [timer_shift]; four levels exist, the loop stops at the last *)
Fixpoint shift_loop (n : nat) (T : timer) (ct mask time_ i : Z) : result timer :=
  if Z.land ct (mask - 1) =? 0 then
    match n with
    | O => Err OutOfFuel
    | S n =>
        let idx := Z.land time_ TIME_LEVEL_MASK in
        if negb (idx =? 0) then move_list T i idx
        else shift_loop n T ct (Z.shiftl mask TIME_LEVEL_SHIFT) (Z.shiftr time_ TIME_LEVEL_SHIFT) (i + 1)
    end
  else Ok T.

(** [timer_shift] *)
Definition timer_shift (T : timer) : result timer :=
  let ct := u32 (time T + 1) in
  let T := with_time T ct in
  if ct =? 0 then move_list T 3 0
  else shift_loop 4 T ct TIME_NEAR (Z.shiftr ct TIME_NEAR_SHIFT) 0.

(** the message a timer delivers *)
Definition timeout_message (session : Z) : service_message :=
  mkMsg 0 session 0 (u64 (Z.shiftl (msg_type_code SERVICE_MSG_TYPE_RESPONSE) MESSAGE_TYPE_SHIFT)).

Section dispatch.
Context {W : Type}.
(** [service_manager::push_service_message]: its result (0 or -1) and the new state *)
Variable push : W → Z → service_message → result (Z * W).
(** the [log_error] of [update_time], with the two clock readings *)
Variable log_clock_error : W → Z → Z → result W.

(** [dispatch_list] *)
Fixpoint dispatch_list (nodes : link_list) (w : W) : result W :=
  match nodes with
  | [] => Ok w
  | n :: nodes =>
      let* (_, w) := push w (te_svc_handle (event n)) (timeout_message (te_session (event n))) in
      dispatch_list nodes w
  end.

(** the [while] of [timer_execute] *)
Fixpoint execute_loop (fuel : nat) (idx : Z) (T : timer) (w : W) : result (timer * W) :=
  x <- arr_get (near T) idx;;
  match x with
  | [] => Ok (T, w)
  | _ :: _ =>
      match fuel with
      | O => Err OutOfFuel
      | S fuel =>
          n <- arr_set (near T) idx (link_clear x).2;;
          w <- dispatch_list (link_clear x).1 w;;
          execute_loop fuel idx (with_near T n) w
      end
  end.

(** [timer_execute]: no timer is added while the list is dispatched, so one
    iteration empties it *)
Definition timer_execute (T : timer) (w : W) : result (timer * W) :=
  execute_loop 1 (Z.land (time T) TIME_NEAR_MASK) T w.

(** [timer_update] *)
Definition timer_update (T : timer) (w : W) : result (timer * W) :=
  let* (T, w) := timer_execute T w in
  T <- timer_shift T;;
  timer_execute T w.

Fixpoint timer_updates (n : nat) (T : timer) (w : W) : result (timer * W) :=
  match n with
  | O => Ok (T, w)
  | S n => let* (T, w) := timer_update T w in timer_updates n T w
  end.

(** [timer_manager::init]; [sec], [cs] are what [systime] reads, [tick] what
    [time_helper::get_time_tick] reads *)
Definition timer_init (sec cs tick : Z) : timer :=
  mkTimer (near create_timer) (t_ create_timer) 0 sec cs tick.

(** [timer_manager::timeout] *)
Definition timeout (T : timer) (w : W) (svc_handle time_ session_id : Z) : result (Z * timer * W) :=
  if time_ <=? 0 then
    let* (r, w) := push w svc_handle (timeout_message session_id) in
    if negb (r =? 0) then Ok (-1, T, w) else Ok (session_id, T, w)
  else
    T <- timer_add T (mkEvent svc_handle session_id) time_;;
    Ok (session_id, T, w).

(** [timer_manager::update_time] at the clock reading [ct] *)
Definition update_time (T : timer) (w : W) (ct : Z) : result (timer * W) :=
  if ct <? current_tick T then
    w <- log_clock_error w ct (current_tick T);;
    Ok (with_clock T (current T) ct, w)
  else if negb (ct =? current_tick T) then
    let diff := u32 (ct - current_tick T) in
    let T := with_clock T (u64 (current T + diff)) ct in
    timer_updates (Z.to_nat diff) T w
  else Ok (T, w).
End dispatch.

(** [timer_manager::now_ticks], [timer_manager::start_seconds] *)
Definition now_ticks (T : timer) : Z := current T.
Definition get_start_seconds (T : timer) : Z := start_seconds T.

(** ** time_helper.cpp and [systime]: clock readings as [(tv_sec, tv_nsec)] *)
Definition NANO_SEC : Z := 1000000000.
Definition MICRO_SEC : Z := 1000000.
Definition get_time_tick (sec nsec : Z) : Z := u64 (u64 sec * 100 + nsec / 10000000).
Definition get_time_ns (sec nsec : Z) : Z := u64 (u64 sec * NANO_SEC + nsec).
Definition thread_time (sec nsec : Z) : Z := u64 (u64 sec * MICRO_SEC + u64 nsec / (NANO_SEC / MICRO_SEC)).
Definition systime (sec nsec : Z) : Z * Z := (u32 sec, u32 (nsec / 10000000)).

(** ** Specification *)

(** a pending timer: its absolute expiry tick and its event *)
Notation pending := (list (Z * timer_event)).

(** the timers that expire at a tick, in the order they were set *)
Definition due (E : Z) (p : pending) : pending := filter (λ x, x.1 = E) p.
Definition not_due (E : Z) (p : pending) : pending := filter (λ x, x.1 ≠ E) p.

(** the timers that expire in the [n] ticks after [N]: by tick, and in the order they
    were set within one *)
Definition expiring (N : Z) (n : nat) (p : pending) : pending :=
  mjoin ((λ E, due E p) <$> seqZ (N + 1) (Z.of_nat n)).

(** the stored node of a pending timer *)
Definition node_of (x : Z * timer_event) : timer_node := mkNode (u32 x.1) x.2.

(** longest delay a caller can ask for: [time_] is an [int] *)
Definition MAX_DELAY : Z := 2 ^ 31 - 1.

(** a call of the timer manager: [timeout], or [update_time] at a clock reading *)
Inductive timer_op :=
  | T_timeout (svc_handle time_ session_id : Z)
  | T_update (ct : Z).

Definition timer_op_ok (op : timer_op) : Prop :=
  match op with T_timeout _ d _ => d <= MAX_DELAY | T_update _ => True end.

Section runs.
Context {W : Type}.
Variable push : W → Z → service_message → result (Z * W).
Variable log_clock_error : W → Z → Z → result W.

(** a sequence of calls on the wheel, with what the [timeout]s return *)
Fixpoint run_timer (ops : list timer_op) (T : timer) (w : W) : result (list Z * timer * W) :=
  match ops with
  | [] => Ok ([], T, w)
  | T_timeout h d s :: ops =>
      let* (r, T, w) := timeout push T w h d s in
      let* (rs, T, w) := run_timer ops T w in
      Ok (r :: rs, T, w)
  | T_update ct :: ops =>
      let* (T, w) := update_time push log_clock_error T w ct in
      run_timer ops T w
  end.

(** the same calls on the list [p] of pending timers, at tick [N] and with the clock
    last read as [clock] *)
Fixpoint run_pending (ops : list timer_op) (N : Z) (p : pending) (clock : Z) (w : W) : result (list Z * W) :=
  match ops with
  | [] => Ok ([], w)
  | T_timeout h d s :: ops =>
      if d <=? 0 then
        let* (r, w) := push w h (timeout_message s) in
        let* (rs, w) := run_pending ops N p clock w in
        Ok ((if negb (r =? 0) then -1 else s) :: rs, w)
      else
        let* (rs, w) := run_pending ops N (p ++ [(N + d, mkEvent h s)]) clock w in
        Ok (s :: rs, w)
  | T_update ct :: ops =>
      if ct <? clock then
        w <- log_clock_error w ct clock;;
        run_pending ops N p ct w
      else if negb (ct =? clock) then
        let n := u32 (ct - clock) in
        w <- dispatch_list push (node_of <$> expiring N (Z.to_nat n) p) w;;
        run_pending ops (N + n) (filter (λ x, N + n < x.1) p) ct w
      else run_pending ops N p clock w
  end.
End runs.

(** where the wheel keeps a timer that expires at [E] when [N] ticks have passed *)
Definition place (N E : Z) : loc :=
  if E / 2 ^ 8 =? N / 2 ^ 8 then Near (E mod 2 ^ 8)
  else if E / 2 ^ 14 =? N / 2 ^ 14 then Level 0 ((E / 2 ^ 8) mod 64)
  else if E / 2 ^ 20 =? N / 2 ^ 20 then Level 1 ((E / 2 ^ 14) mod 64)
  else if E / 2 ^ 26 =? N / 2 ^ 26 then Level 2 ((E / 2 ^ 20) mod 64)
  else Level 3 ((E / 2 ^ 26) mod 64).

(** the list the tick [M] cascades, if any *)
Definition cascade (M : Z) : option loc :=
  if negb (M mod 2 ^ 8 =? 0) then None
  else if negb ((M / 2 ^ 8) mod 64 =? 0) then Some (Level 0 ((M / 2 ^ 8) mod 64))
  else if negb ((M / 2 ^ 14) mod 64 =? 0) then Some (Level 1 ((M / 2 ^ 14) mod 64))
  else if negb ((M / 2 ^ 20) mod 64 =? 0) then Some (Level 2 ((M / 2 ^ 20) mod 64))
  else Some (Level 3 ((M / 2 ^ 26) mod 64)).

Definition valid_loc (l : loc) : Prop :=
  match l with
  | Near i => 0 <= i < 256
  | Level lv i => 0 <= lv < 4 ∧ 0 <= i < 64
  end.

Record wheel_shape (T : timer) : Prop := {
  ws_near : length (near T) = 256%nat;
  ws_rows : length (t_ T) = 4%nat;
  ws_row : ∀ i r, t_ T !! i = Some r → length r = 64%nat
}.

(** The wheel [T] holds the pending timers [p] at tick [N], all expiring at [lo] or
    later: [G l] lists the timers of the list [l], and the timers of one expiry tick
    are all in one list, in order. *)
Record wheel (lo N : Z) (T : timer) (p : pending) (G : loc → pending) : Prop := {
  wh_shape : wheel_shape T;
  wh_time : time T = u32 N;
  wh_nonneg : 0 <= N;
  wh_range : ∀ x, x ∈ p → lo <= x.1 <= N + MAX_DELAY;
  wh_list : ∀ l, valid_loc l → get_list T l = Ok (node_of <$> G l);
  wh_due : ∀ l E, valid_loc l → due E (G l) = if decide (place N E = l) then due E p else []
}.

(** ** Arithmetic of the wheel *)

Ltac Zify.zify_post_hook ::= Z.to_euclidean_division_equations.

(** [a | (2^k - 1)] compares the bits from [k] up. *)
Lemma lor_mask_eq a b k : 0 <= k → 0 <= a → 0 <= b →
  (Z.lor a (2 ^ k - 1) =? Z.lor b (2 ^ k - 1)) = (a / 2 ^ k =? b / 2 ^ k).
Proof.
  intros Hk Ha Hb. rewrite Z.sub_1_r, <- Z.ones_equiv.
  assert (Hs : ∀ x, Z.shiftr (Z.lor x (Z.ones k)) k = x / 2 ^ k).
  { intros x. rewrite Z.shiftr_lor, (Z.shiftr_div_pow2 (Z.ones k)), Z.ones_div_pow2 by lia.
    rewrite Z.sub_diag. change (Z.ones 0) with 0. rewrite Z.lor_0_r. by apply Z.shiftr_div_pow2. }
  apply eq_true_iff_eq. rewrite !Z.eqb_eq. split.
  - intros He. by rewrite <- !Hs, He.
  - intros He. apply Z.bits_inj'. intros n Hn. rewrite !Z.lor_spec.
    destruct (Z.lt_ge_cases n k).
    + by rewrite Z.ones_spec_low, !orb_true_r by lia.
    + replace n with (n - k + k) by lia. rewrite <- !Z.div_pow2_bits by lia. by rewrite He.
Qed.

Lemma u32_div E k : 0 <= k <= 32 → u32 E / 2 ^ k = (E / 2 ^ k) mod 2 ^ (32 - k).
Proof.
  intros Hk. unfold u32. replace (2 ^ 32) with (2 ^ k * 2 ^ (32 - k)) by (rewrite <- Z.pow_add_r by lia; f_equal; lia).
  rewrite Z.rem_mul_r by lia. rewrite Z.add_comm, Z.mul_comm, Z.div_add_l by lia.
  rewrite (Z.div_small (E mod 2 ^ k)); [lia|]. apply Z.mod_pos_bound. lia.
Qed.

(** For delays below 2^31 the 32-bit block numbers decide equality of the absolute ones. *)
Lemma block_eq E N k : k = 8 ∨ k = 14 ∨ k = 20 ∨ k = 26 → 0 <= E - N <= MAX_DELAY →
  (Z.lor (u32 E) (2 ^ k - 1) =? Z.lor (u32 N) (2 ^ k - 1)) = (E / 2 ^ k =? N / 2 ^ k).
Proof.
  intros Hk HE. unfold MAX_DELAY in HE. rewrite lor_mask_eq by (try apply u32_range; lia).
  rewrite !u32_div by lia. apply eq_true_iff_eq. rewrite !Z.eqb_eq.
  split; [|by intros ->].
  destruct Hk as [->|[->|[->| ->]]]; cbn -[Z.div Z.modulo]; lia.
Qed.

Lemma level_slot E k : 0 <= k <= 26 →
  Z.land (Z.shiftr (u32 E) k) TIME_LEVEL_MASK = (E / 2 ^ k) mod 64.
Proof.
  intros Hk. rewrite Z.shiftr_div_pow2, u32_div by lia.
  change TIME_LEVEL_MASK with (Z.ones 6). rewrite Z.land_ones by lia.
  replace (2 ^ (32 - k)) with (2 ^ 6 * 2 ^ (26 - k)) by (rewrite <- Z.pow_add_r by lia; f_equal; lia).
  rewrite Z.rem_mul_r by lia. rewrite (Z.mul_comm (2 ^ 6)), Z.mod_add by lia. apply Z.mod_mod. lia.
Qed.

(** [add_node] puts a node where [place] says. *)
Lemma node_loc_place N E : 0 <= E - N <= MAX_DELAY → node_loc (u32 E) (u32 N) = place N E.
Proof.
  intros HE. unfold node_loc, place.
  change TIME_NEAR_MASK with (2 ^ 8 - 1). rewrite block_eq by auto.
  destruct (E / 2 ^ 8 =? N / 2 ^ 8) eqn:E8.
  { f_equal. change (2 ^ 8 - 1) with (Z.ones 8). rewrite Z.land_ones by lia. unfold u32. lia. }
  unfold level_loop. change (Z.shiftl TIME_NEAR TIME_LEVEL_SHIFT) with (2 ^ 14).
  change (u32 (Z.shiftl (2 ^ 14) TIME_LEVEL_SHIFT)) with (2 ^ 20).
  change (u32 (Z.shiftl (2 ^ 20) TIME_LEVEL_SHIFT)) with (2 ^ 26).
  rewrite !block_eq by auto.
  destruct (E / 2 ^ 14 =? _); [f_equal; by apply level_slot|].
  destruct (E / 2 ^ 20 =? _); [f_equal; by apply level_slot|].
  destruct (E / 2 ^ 26 =? _); f_equal; by apply level_slot.
Qed.

Lemma place_valid N E : valid_loc (place N E).
Proof. unfold place. repeat case_match; simpl; lia. Qed.

(** Advancing the clock from [M - 1] to [M] only changes the place of the timers of
    the cascaded list. *)
Lemma place_cascade M E : 0 < M → M <= E <= M - 1 + MAX_DELAY →
  place M E = place (M - 1) E ∨ cascade M = Some (place (M - 1) E).
Proof.
  intros HM HE. unfold MAX_DELAY in HE. unfold place, cascade.
  change (2 ^ 8) with 256. change (2 ^ 14) with 16384. change (2 ^ 20) with 1048576. change (2 ^ 26) with 67108864.
  destruct (Z.eqb_spec (M mod 256) 0) as [H0|H0]; simpl.
  2:{ left. replace ((M - 1) / 256) with (M / 256) by lia. replace ((M - 1) / 16384) with (M / 16384) by lia.
      replace ((M - 1) / 1048576) with (M / 1048576) by lia.
      by replace ((M - 1) / 67108864) with (M / 67108864) by lia. }
  rewrite (proj2 (Z.eqb_neq (E / 256) ((M - 1) / 256))) by lia.
  destruct (Z.eqb_spec ((M / 256) mod 64) 0) as [H1|H1]; simpl.
  2:{ replace ((M - 1) / 16384) with (M / 16384) by lia.
      replace ((M - 1) / 1048576) with (M / 1048576) by lia.
      replace ((M - 1) / 67108864) with (M / 67108864) by lia.
      destruct (Z.eqb_spec (E / 256) (M / 256)) as [He|He].
      - right. rewrite (proj2 (Z.eqb_eq (E / 16384) (M / 16384))) by lia. by rewrite He.
      - by left. }
  rewrite (proj2 (Z.eqb_neq (E / 16384) ((M - 1) / 16384))) by lia.
  destruct (Z.eqb_spec ((M / 16384) mod 64) 0) as [H2|H2]; simpl.
  2:{ replace ((M - 1) / 1048576) with (M / 1048576) by lia.
      replace ((M - 1) / 67108864) with (M / 67108864) by lia.
      destruct (Z.eqb_spec (E / 16384) (M / 16384)) as [He|He].
      - right. rewrite (proj2 (Z.eqb_eq (E / 1048576) (M / 1048576))) by lia. by rewrite He.
      - left. by rewrite (proj2 (Z.eqb_neq (E / 256) (M / 256))) by lia. }
  rewrite (proj2 (Z.eqb_neq (E / 1048576) ((M - 1) / 1048576))) by lia.
  destruct (Z.eqb_spec ((M / 1048576) mod 64) 0) as [H3|H3]; simpl.
  2:{ replace ((M - 1) / 67108864) with (M / 67108864) by lia.
      destruct (Z.eqb_spec (E / 1048576) (M / 1048576)) as [He|He].
      - right. rewrite (proj2 (Z.eqb_eq (E / 67108864) (M / 67108864))) by lia. by rewrite He.
      - left. rewrite (proj2 (Z.eqb_neq (E / 256) (M / 256))) by lia.
        by rewrite (proj2 (Z.eqb_neq (E / 16384) (M / 16384))) by lia. }
  rewrite (proj2 (Z.eqb_neq (E / 67108864) ((M - 1) / 67108864))) by lia.
  destruct (Z.eqb_spec (E / 67108864) (M / 67108864)) as [He|He].
  - right. by rewrite He.
  - left. rewrite (proj2 (Z.eqb_neq (E / 256) (M / 256))) by lia.
    rewrite (proj2 (Z.eqb_neq (E / 16384) (M / 16384))) by lia.
    by rewrite (proj2 (Z.eqb_neq (E / 1048576) (M / 1048576))) by lia.
Qed.

(** what is due now is the whole near list of the current tick *)
Lemma place_now M E : M <= E → place M E = Near (M mod 2 ^ 8) → E = M.
Proof. unfold place. intros HE. repeat case_match; intros [= He]; lia. Qed.

Lemma place_self M : place M M = Near (M mod 2 ^ 8).
Proof. unfold place. by rewrite Z.eqb_refl. Qed.

Lemma cascade_level M l : cascade M = Some l → valid_loc l ∧ ∃ lv i, l = Level lv i.
Proof. unfold cascade. repeat case_match; intros [= <-]; simpl; (split; [lia|eauto]). Qed.

(** ** The lists of the wheel *)

Lemma get_list_shape T l : wheel_shape T → valid_loc l → ∃ x, get_list T l = Ok x.
Proof.
  intros [H1 H2 H3] Hl. destruct l as [i|lv i]; simpl in *.
  - destruct (arr_get_in_range (near T) i) as (x & _ & ->); [lia|]. eauto.
  - destruct (arr_get_in_range (t_ T) lv) as (r & Hr & ->); [lia|]. simpl.
    destruct (arr_get_in_range r i) as (x & _ & ->); [rewrite (H3 _ _ Hr); lia|]. eauto.
Qed.

Lemma arr_get_insert {A} (l : list A) i j x : 0 <= i < Z.of_nat (length l) → 0 <= j →
  arr_get (<[Z.to_nat i := x]> l) j = if decide (i = j) then Ok x else arr_get l j.
Proof.
  intros Hi Hj. unfold arr_get. rewrite (proj2 (Z.ltb_ge _ _)) by lia. case_decide as Hd.
  - subst. by rewrite list_lookup_insert_eq by lia.
  - by rewrite list_lookup_insert_ne by lia.
Qed.

Lemma set_list_spec T l x : wheel_shape T → valid_loc l →
  ∃ T', set_list T l x = Ok T' ∧ wheel_shape T' ∧ time T' = time T ∧ current T' = current T ∧
    current_tick T' = current_tick T ∧
    ∀ l', valid_loc l' → get_list T' l' = if decide (l' = l) then Ok x else get_list T l'.
Proof.
  intros [H1 H2 H3] Hl. destruct l as [i|lv i]; simpl in Hl |- *.
  - rewrite arr_set_Ok by lia. simpl. eexists; split; [done|]. split_and!; try done.
    + split; simpl; [by rewrite length_insert|done|done].
    + intros [j|lv j] Hv; cbn [get_list near with_near t_] in Hv |- *; simpl in Hv; [|by destruct (decide (Level _ _ = Near _))].
      rewrite arr_get_insert by lia. repeat case_decide; congruence.
  - destruct (arr_get_in_range (t_ T) lv) as (r & Hr & Hg); [lia|]. rewrite Hg. simpl.
    rewrite arr_set_Ok by (rewrite (H3 _ _ Hr); lia). simpl. rewrite arr_set_Ok by lia. simpl.
    eexists; split; [done|]. split_and!; try done.
    + split; simpl; [done|by rewrite length_insert|]. intros k r' Hk.
      apply list_lookup_insert_Some in Hk as [(_ & <- & _)|[_ Hk]]; [|by eapply H3].
      rewrite length_insert. by eapply H3.
    + intros [j|lv' j] Hv; cbn [get_list near with_levels t_] in Hv |- *; simpl in Hv; [by destruct (decide (Near _ = Level _ _))|].
      rewrite arr_get_insert by lia. destruct (decide (lv = lv')) as [<-|Hne].
      * simpl. rewrite Hg. simpl. rewrite arr_get_insert by (rewrite ?(H3 _ _ Hr); lia).
        repeat case_decide; congruence.
      * by rewrite decide_False by congruence.
Qed.

(** the lists alone *)
Definition holds (T : timer) (G : loc → pending) : Prop :=
  wheel_shape T ∧ ∀ l, valid_loc l → get_list T l = Ok (node_of <$> G l).

Lemma set_list_holds T G l x : holds T G → valid_loc l →
  ∃ T', set_list T l (node_of <$> x) = Ok T' ∧ holds T' (λ l', if decide (l' = l) then x else G l') ∧
    time T' = time T ∧ current T' = current T ∧ current_tick T' = current_tick T.
Proof.
  intros [Hs Hg] Hl. destruct (set_list_spec T l (node_of <$> x) Hs Hl) as (T' & -> & Hs' & Ht & Hc & Hk & Hg').
  eexists; split; [done|]. split; [|done]. split; [done|]. intros l' Hl'. rewrite Hg' by done.
  case_decide; [done|by apply Hg].
Qed.

Lemma add_node_holds T G M x : holds T G → time T = u32 M → 0 <= x.1 - M <= MAX_DELAY →
  ∃ T', add_node T (node_of x) = Ok T' ∧
    holds T' (λ l, if decide (l = place M x.1) then G l ++ [x] else G l) ∧
    time T' = time T ∧ current T' = current T ∧ current_tick T' = current_tick T.
Proof.
  intros Hh Ht Hx. pose proof Hh as [Hs Hg]. unfold add_node. simpl. rewrite Ht, node_loc_place by done.
  rewrite Hg by apply place_valid. simpl. unfold link.
  change [node_of x] with (node_of <$> [x]). rewrite <- fmap_app.
  destruct (set_list_holds T G (place M x.1) (G (place M x.1) ++ [x]) Hh (place_valid _ _))
    as (T' & -> & Hh' & Hrest). eexists; split; [done|]. split; [|by rewrite <- Ht].
  destruct Hh' as [Hs' Hg']. split; [done|]. intros l Hl. rewrite Hg' by done.
  by destruct (decide (l = place M x.1)) as [->|].
Qed.

Lemma add_nodes_holds xs T G M : holds T G → time T = u32 M →
  (∀ x, x ∈ xs → 0 <= x.1 - M <= MAX_DELAY) →
  ∃ T', add_nodes T (node_of <$> xs) = Ok T' ∧
    holds T' (λ l, G l ++ filter (λ x, place M x.1 = l) xs) ∧
    time T' = time T ∧ current T' = current T ∧ current_tick T' = current_tick T.
Proof.
  revert T G. induction xs as [|x xs IH]; intros T G Hh Ht Hr.
  { exists T. split; [done|]. split; [|done]. destruct Hh as [Hs Hg]. split; [done|].
    intros l Hl. simpl. by rewrite filter_nil, app_nil_r, Hg. }
  destruct (add_node_holds T G M x Hh Ht) as (T1 & Ha & Hh1 & Ht1 & Hc1 & Hk1); [apply Hr; set_solver|].
  cbn [fmap list_fmap add_nodes]. rewrite Ha. simpl.
  destruct (IH T1 _ Hh1) as (T' & -> & Hh' & Ht' & Hc' & Hk'); [congruence|intros; apply Hr; set_solver|].
  exists T'. split; [done|]. split; [|by rewrite Ht', Ht1, Hc', Hc1, Hk', Hk1].
  destruct Hh' as [Hs' Hg']. split; [done|]. intros l Hl. rewrite Hg' by done.
  rewrite filter_cons. do 2 f_equal. destruct (decide (l = place M x.1)) as [->|Hne].
  - rewrite decide_True by done. by rewrite <- app_assoc.
  - by rewrite decide_False by congruence.
Qed.

(** ** Cascading *)

(** [timer_shift] moves exactly the list [cascade] names. *)
Lemma timer_shift_cascade N T : 0 <= N → time T = u32 N →
  timer_shift T =
    match cascade (N + 1) with
    | Some (Level lv i) => move_list (with_time T (u32 (N + 1))) lv i
    | _ => Ok (with_time T (u32 (N + 1)))
    end.
Proof.
  intros HN Ht. unfold timer_shift. rewrite Ht.
  replace (u32 (u32 N + 1)) with (u32 (N + 1)) by (unfold u32; lia).
  set (M := N + 1). set (T1 := with_time T (u32 M)).
  assert (Hlow : ∀ k, 0 <= k <= 32 → Z.land (u32 M) (2 ^ k - 1) = M mod 2 ^ k).
  { intros k Hk. rewrite Z.sub_1_r, <- Z.ones_equiv, Z.land_ones by lia. unfold u32.
    replace (2 ^ 32) with (2 ^ k * 2 ^ (32 - k)) by (rewrite <- Z.pow_add_r by lia; f_equal; lia).
    rewrite Z.rem_mul_r by lia. rewrite (Z.mul_comm (2 ^ k) ((M / 2 ^ k) mod _)), Z.mod_add by lia.
    apply Z.mod_mod. lia. }
  destruct (Z.eqb_spec (u32 M) 0) as [Hz|Hz].
  { unfold u32 in Hz. unfold cascade. rewrite !(proj2 (Z.eqb_eq _ 0)) by lia. simpl.
    replace ((M / 2 ^ 26) mod 64) with 0 by lia. done. }
  unfold cascade, shift_loop.
  change TIME_NEAR with (2 ^ 8). change TIME_NEAR_SHIFT with 8.
  change (Z.shiftl (2 ^ 8) TIME_LEVEL_SHIFT) with (2 ^ 14).
  change (Z.shiftl (2 ^ 14) TIME_LEVEL_SHIFT) with (2 ^ 20).
  change (Z.shiftl (2 ^ 20) TIME_LEVEL_SHIFT) with (2 ^ 26).
  rewrite !Z.shiftr_shiftr by (unfold TIME_LEVEL_SHIFT; lia).
  change (8 + TIME_LEVEL_SHIFT) with 14. change (14 + TIME_LEVEL_SHIFT) with 20. change (20 + TIME_LEVEL_SHIFT) with 26.
  rewrite !level_slot, !Hlow by lia.
  destruct (Z.eqb_spec (M mod 2 ^ 8) 0) as [H0|]; simpl negb; cbv iota; [|done].
  destruct (Z.eqb_spec ((M / 2 ^ 8) mod 64) 0) as [H1|]; simpl negb; cbv iota; [|done].
  rewrite (proj2 (Z.eqb_eq (M mod 2 ^ 14) 0)) by lia.
  destruct (Z.eqb_spec ((M / 2 ^ 14) mod 64) 0) as [H2|]; simpl negb; cbv iota; [|done].
  rewrite (proj2 (Z.eqb_eq (M mod 2 ^ 20) 0)) by lia.
  destruct (Z.eqb_spec ((M / 2 ^ 20) mod 64) 0) as [H3|]; simpl negb; cbv iota; [|done].
  rewrite (proj2 (Z.eqb_eq (M mod 2 ^ 26) 0)) by lia.
  rewrite (proj2 (Z.eqb_neq ((M / 2 ^ 26) mod 64) 0)) by (unfold u32 in Hz; lia). done.
Qed.

(** [due] of the parts of a cascaded list *)
Lemma due_app E p q : due E (p ++ q) = due E p ++ due E q.
Proof. apply filter_app. Qed.

Lemma due_cons E x p : due E (x :: p) = if decide (x.1 = E) then x :: due E p else due E p.
Proof. reflexivity. Qed.

Lemma due_singleton E x : due E [x] = if decide (x.1 = E) then [x] else [].
Proof. reflexivity. Qed.

Lemma elem_of_due x E p : x ∈ due E p ↔ x.1 = E ∧ x ∈ p.
Proof.
  induction p as [|y p IH]; [by split; [intros ?%not_elem_of_nil|intros [_ ?%not_elem_of_nil]]|].
  rewrite due_cons. case_decide; set_solver.
Qed.

Lemma due_filter_place E M l p :
  due E (filter (λ x, place M x.1 = l) p) = if decide (place M E = l) then due E p else [].
Proof.
  induction p as [|x p IH]; [by case_decide|].
  rewrite filter_cons, due_cons. destruct (decide (place M x.1 = l)) as [Hp|Hp].
  - rewrite due_cons, IH. destruct (decide (x.1 = E)) as [<-|]; [|done]. by rewrite !decide_True.
  - rewrite IH. destruct (decide (x.1 = E)) as [<-|]; [|done]. by rewrite !decide_False.
Qed.

Lemma wheel_elem lo N T p G l x : wheel lo N T p G → valid_loc l → x ∈ G l → x ∈ p ∧ place N x.1 = l.
Proof.
  intros HW Hl Hx. assert (Hd : x ∈ due x.1 (G l)) by by apply elem_of_due.
  rewrite (wh_due _ _ _ _ _ HW) in Hd by done. case_decide; [|by apply not_elem_of_nil in Hd].
  split; [|done]. by apply elem_of_due in Hd as [_ ?].
Qed.

(** the shift from tick [N] to tick [N + 1] *)
Lemma timer_shift_wheel N T p G : wheel (N + 1) N T p G →
  ∃ T' G', timer_shift T = Ok T' ∧ wheel (N + 1) (N + 1) T' p G' ∧
    current T' = current T ∧ current_tick T' = current_tick T.
Proof.
  intros HW. pose proof HW as [Hs Ht HN Hr Hl Hd]. unfold MAX_DELAY in Hr.
  rewrite (timer_shift_cascade N) by done. set (T1 := with_time T (u32 (N + 1))).
  assert (Hh1 : holds T1 G) by (split; [by destruct Hs|done]).
  destruct (cascade (N + 1)) as [l0|] eqn:Hc.
  2:{ exists T1, G. split; [done|]. split; [|done]. split; [by destruct Hs|done|lia| |done|].
      - intros x Hx. specialize (Hr x Hx). unfold MAX_DELAY. lia.
      - intros l E Hv. rewrite Hd by done. destruct (due E p) as [|x q] eqn:Hq; [by repeat case_decide|].
        assert (HE : x.1 = E ∧ x ∈ p) by (apply elem_of_due; rewrite Hq; set_solver).
        destruct HE as [<- Hx]. specialize (Hr x Hx).
        destruct (place_cascade (N + 1) x.1) as [-> |Hno]; [lia|unfold MAX_DELAY; lia| |congruence].
        by replace (N + 1 - 1) with N by lia. }
  destruct (cascade_level _ _ Hc) as [Hv (lv & i & ->)]. unfold move_list, link_clear.
  rewrite (proj2 Hh1) by done. rewrite bind_Ok. cbn [fst snd].
  destruct (set_list_holds T1 G (Level lv i) [] Hh1 Hv) as (T2 & Hset & Hh2 & Ht2 & Hc2 & Hk2).
  change (set_list T1 (Level lv i) [] = Ok T2) in Hset. rewrite Hset. rewrite bind_Ok.
  destruct (add_nodes_holds (G (Level lv i)) T2 _ (N + 1) Hh2) as (T3 & Hadd & [Hs3 Hl3] & Ht3 & Hc3 & Hk3).
  { by rewrite Ht2. }
  { intros x Hx. destruct (wheel_elem _ _ _ _ _ _ _ HW Hv Hx) as [Hp _]. specialize (Hr x Hp). unfold MAX_DELAY. lia. }
  rewrite Hadd. eexists _, _. split; [done|]. split; [|by rewrite Hc3, Hk3, Hc2, Hk2].
  split; [done|by rewrite Ht3, Ht2|lia| |exact Hl3|].
  { intros x Hx. specialize (Hr x Hx). unfold MAX_DELAY. lia. }
  intros l E Hvl. cbv beta. rewrite due_app, due_filter_place, (Hd (Level lv i)) by done.
  destruct (due E p) as [|x q] eqn:Hq.
  { destruct (decide (l = _)); [by repeat case_decide|]. rewrite Hd, Hq by done. by repeat case_decide. }
  assert (HE : x.1 = E ∧ x ∈ p) by (apply elem_of_due; rewrite Hq; set_solver).
  destruct HE as [<- Hx]. specialize (Hr x Hx).
  assert (Hpc := place_cascade (N + 1) x.1). replace (N + 1 - 1) with N in Hpc by lia.
  destruct Hpc as [Hsame|Hmv]; [lia|unfold MAX_DELAY; lia| |].
  - destruct (decide (l = Level lv i)) as [->|Hne]; [|rewrite Hd, Hq by done]; rewrite ?Hsame;
      repeat case_decide; simpl; rewrite ?app_nil_r; congruence.
  - rewrite Hc in Hmv. injection Hmv as Hmv.
    destruct (decide (l = Level lv i)) as [->|Hne]; [|rewrite Hd, Hq by done];
      repeat case_decide; simpl; congruence.
Qed.

(** ** Dispatching *)

Lemma elem_of_not_due x E p : x ∈ not_due E p ↔ x.1 ≠ E ∧ x ∈ p.
Proof. unfold not_due. by rewrite list_elem_of_filter. Qed.

Lemma due_not_due E M p : due E (not_due M p) = if decide (E = M) then [] else due E p.
Proof.
  induction p as [|x p IH]; [by case_decide|]. unfold not_due. rewrite filter_cons, (due_cons E x p).
  fold (not_due M p). destruct (decide (x.1 ≠ M)); [rewrite due_cons|]; rewrite IH;
    repeat case_decide; simplify_eq; try done; exfalso; lia.
Qed.

(** a list whose timers all expire at [E] *)
Lemma due_all E p : (∀ x, x ∈ p → x.1 = E) → due E p = p.
Proof.
  induction p as [|x p IH]; intros Hp; [done|]. rewrite due_cons, decide_True by (apply Hp; set_solver).
  f_equal. apply IH. intros; apply Hp; set_solver.
Qed.

(** the near list of the current tick holds what is due now *)
Lemma near_now lo N T p G : wheel lo N T p G → N <= lo → G (Near (N mod 2 ^ 8)) = due N p.
Proof.
  intros HW Hlo. assert (Hv : valid_loc (Near (N mod 2 ^ 8))) by (simpl; lia).
  rewrite <- (due_all N (G _)).
  - rewrite (wh_due _ _ _ _ _ HW) by done. rewrite decide_True by apply place_self. done.
  - intros x Hx. destruct (wheel_elem _ _ _ _ _ _ _ HW Hv Hx) as [Hp Hpl].
    apply place_now; [|done]. pose proof (wh_range _ _ _ _ _ HW x Hp). lia.
Qed.

Lemma near_index N : Z.land (u32 N) TIME_NEAR_MASK = N mod 2 ^ 8.
Proof. change TIME_NEAR_MASK with (Z.ones 8). rewrite Z.land_ones by lia. unfold u32. lia. Qed.

Lemma expiring_S N n p : expiring N (S n) p = due (N + 1) p ++ expiring (N + 1) n (not_due (N + 1) p).
Proof.
  unfold expiring. rewrite seqZ_cons by lia. rewrite fmap_cons. simpl. f_equal. f_equal.
  replace (Z.pred (Z.of_nat (S n))) with (Z.of_nat n) by lia.
  replace (Z.succ (N + 1)) with (N + 1 + 1) by lia. apply list_fmap_ext.
  intros i E Hi. apply lookup_seqZ in Hi. rewrite due_not_due. by rewrite decide_False by lia.
Qed.

Lemma timer_add_wheel N T p G ev d : wheel (N + 1) N T p G → 0 < d <= MAX_DELAY →
  ∃ T' G', timer_add T ev d = Ok T' ∧ wheel (N + 1) N T' (p ++ [(N + d, ev)]) G' ∧
    current T' = current T ∧ current_tick T' = current_tick T.
Proof.
  intros HW Hdl. pose proof HW as [Hs Ht HN Hr Hl Hd]. unfold timer_add. rewrite Ht.
  replace (mkNode (u32 (d + u32 N)) ev) with (node_of (N + d, ev)).
  2:{ unfold node_of. simpl. f_equal. unfold u32. lia. }
  destruct (add_node_holds T G N (N + d, ev) (conj Hs Hl) Ht) as (T' & -> & [Hs' Hl'] & Ht' & Hc & Hk); [simpl; lia|].
  eexists _, _. split; [done|]. split; [|by rewrite Hc, Hk].
  split; [done|by rewrite Ht'|done| |exact Hl'|].
  - intros x [Hx| ->%list_elem_of_singleton]%elem_of_app; [by apply Hr|simpl; lia].
  - intros l E Hv. cbv beta. rewrite due_app, due_singleton. cbn [fst].
    destruct (decide (l = place N (N + d))) as [->|Hne]; rewrite ?due_app, ?due_singleton, Hd by done; cbn [fst];
      destruct (decide (N + d = E)) as [<-|]; repeat case_decide; simpl; rewrite ?app_nil_r; congruence.
Qed.

Section dispatch_proofs.
Context {W : Type}.
Variable push : W → Z → service_message → result (Z * W).

Lemma dispatch_list_app xs ys w :
  dispatch_list push (xs ++ ys) w = (w <- dispatch_list push xs w;; dispatch_list push ys w).
Proof.
  revert w. induction xs as [|x xs IH]; intros w; [done|]. simpl.
  destruct (push _ _ _) as [[r w']|]; simpl; [apply IH|done].
Qed.

(** [timer_execute] dispatches what is due now and leaves the rest. *)
Lemma timer_execute_wheel N T p G w : wheel N N T p G →
  ∃ T' G', timer_execute push T w = (w <- dispatch_list push (node_of <$> due N p) w;; Ok (T', w)) ∧
    wheel (N + 1) N T' (not_due N p) G' ∧ current T' = current T ∧ current_tick T' = current_tick T.
Proof.
  intros HW. pose proof HW as [Hs Ht HN Hr Hl Hd].
  assert (Hv : valid_loc (Near (N mod 2 ^ 8))) by (simpl; lia).
  assert (Hnear := near_now _ _ _ _ _ HW (Z.le_refl _)).
  assert (Hget := Hl _ Hv). rewrite Hnear in Hget. simpl in Hget.
  assert (Hr' : ∀ x, x ∈ not_due N p → N + 1 <= x.1 <= N + MAX_DELAY).
  { intros x [Hx1 Hx]%elem_of_not_due. specialize (Hr x Hx). lia. }
  assert (Hd' : ∀ l E, valid_loc l → due E (if decide (l = Near (N mod 2 ^ 8)) then [] else G l) =
                                     if decide (place N E = l) then due E (not_due N p) else []).
  { intros l E Hvl. rewrite due_not_due. destruct (decide (l = _)) as [->|Hne].
    - destruct (decide (place N E = _)) as [He|]; [|done]. destruct (decide (E = N)) as [|HE]; [done|].
      transitivity (due E (due N p)); [|rewrite <- Hnear, Hd, decide_True by done; done].
      symmetry. destruct (due E (due N p)) as [|x q] eqn:Hq; [done|exfalso].
      assert (Hx : x ∈ due E (due N p)) by (rewrite Hq; set_solver).
      apply elem_of_due in Hx as [? [? _]%elem_of_due]. congruence.
    - rewrite Hd by done. repeat case_decide; subst; try done. by rewrite place_self in Hne. }
  unfold timer_execute. rewrite Ht, near_index. unfold execute_loop. rewrite Hget. rewrite bind_Ok.
  destruct (due N p) as [|x q] eqn:Hq; cbn [fmap list_fmap].
  - exists T, G. split; [done|]. split; [|done]. split; try done. intros l E Hvl.
    rewrite <- Hd' by done. destruct (decide (l = _)) as [->|]; [|done]. by rewrite Hnear.
  - destruct Hs as [Hs1 Hs2 Hs3]. rewrite arr_set_Ok by lia. rewrite bind_Ok. cbn [link_clear fst snd].
    set (T' := with_near T _). exists T', (λ l, if decide (l = Near (N mod 2 ^ 8)) then [] else G l).
    split.
    + destruct (dispatch_list _ _ _) as [w'|]; [|done]. rewrite !bind_Ok. simpl near.
      rewrite arr_get_insert by lia. by rewrite decide_True by done.
    + split; [|done]. split; try done.
      * split; [simpl; by rewrite length_insert|done|done].
      * intros [j|lv j] Hvl; [|by rewrite decide_False by done; apply (Hl (Level lv j))].
        cbn [get_list]. simpl near. simpl in Hvl. rewrite arr_get_insert by lia.
        specialize (Hl (Near j) Hvl). simpl in Hl. repeat case_decide; simplify_eq; done.
Qed.

(** One tick dispatches the timers that expire at it, in the order they were set. *)
Lemma timer_update_wheel N T p G w : wheel (N + 1) N T p G →
  ∃ T' G', timer_update push T w =
      (w <- dispatch_list push (node_of <$> due (N + 1) p) w;; Ok (T', w)) ∧
    wheel (N + 2) (N + 1) T' (not_due (N + 1) p) G' ∧
    current T' = current T ∧ current_tick T' = current_tick T.
Proof.
  intros HW. unfold timer_update.
  assert (H1 : timer_execute push T w = Ok (T, w)).
  { pose proof HW as [Hs Ht HN Hr Hl Hd]. unfold timer_execute. rewrite Ht, near_index. unfold execute_loop.
    assert (Hv : valid_loc (Near (N mod 2 ^ 8))) by (simpl; lia).
    specialize (Hl _ Hv). simpl in Hl. rewrite Hl, bind_Ok, (near_now _ _ _ _ _ HW) by lia.
    destruct (due N p) as [|x q] eqn:Hq; [done|exfalso].
    assert (Hx : x ∈ due N p) by (rewrite Hq; set_solver). apply elem_of_due in Hx as [<- Hx].
    specialize (Hr x Hx). lia. }
  rewrite H1, bind_Ok. destruct (timer_shift_wheel N T p G HW) as (T1 & G1 & Hsh & HW1 & Hc1 & Hk1).
  rewrite Hsh, bind_Ok. destruct (timer_execute_wheel _ _ _ _ w HW1) as (T2 & G2 & Hex & HW2 & Hc2 & Hk2).
  replace (N + 2) with (N + 1 + 1) by lia. exists T2, G2. rewrite Hex, Hc2, Hk2. done.
Qed.
Lemma timer_updates_wheel n N T p G w : wheel (N + 1) N T p G →
  ∃ T' G', timer_updates push n T w =
      (w <- dispatch_list push (node_of <$> expiring N n p) w;; Ok (T', w)) ∧
    wheel (N + Z.of_nat n + 1) (N + Z.of_nat n) T' (filter (λ x, N + Z.of_nat n < x.1) p) G' ∧
    current T' = current T ∧ current_tick T' = current_tick T.
Proof.
  revert N T p G w. induction n as [|n IH]; intros N T p G w HW.
  { exists T, G. split; [done|]. split; [|done]. rewrite Z.add_0_r.
    rewrite filter_all; [done|]. intros x Hx. pose proof (wh_range _ _ _ _ _ HW x Hx). lia. }
  simpl timer_updates.
  destruct (timer_update_wheel N T p G w HW) as (T1 & G1 & Hu & HW1 & Hc1 & Hk1).
  rewrite Hu. replace (N + 2) with (N + 1 + 1) in HW1 by lia.
  rewrite expiring_S, fmap_app, dispatch_list_app.
  replace (N + Z.of_nat (S n)) with (N + 1 + Z.of_nat n) by lia.
  replace (filter (λ x, N + 1 + Z.of_nat n < x.1) p)
    with (filter (λ x, N + 1 + Z.of_nat n < x.1) (not_due (N + 1) p)).
  2:{ unfold not_due. rewrite filter_filter. apply list_filter_iff. intros x. lia. }
  destruct (dispatch_list push (node_of <$> due (N + 1) p) w) as [w1|e] eqn:Hd1; simpl rbind.
  - destruct (IH _ _ _ _ w1 HW1) as (T2 & G2 & Hus & HW2 & Hc2 & Hk2). exists T2, G2.
    rewrite Hus, Hc2, Hk2. done.
  - destruct (IH _ _ _ _ w HW1) as (T2 & G2 & _ & HW2 & Hc2 & Hk2). exists T2, G2.
    rewrite Hc2, Hk2. done.
Qed.

Variable log_clock_error : W → Z → Z → result W.

(** Every sequence of calls on the wheel has the effect it has on the list of
    pending timers. *)
Lemma run_timer_wheel ops N T p G w : wheel (N + 1) N T p G → Forall timer_op_ok ops →
  (let* (rs, _, w) := run_timer push log_clock_error ops T w in Ok (rs, w)) =
  run_pending push log_clock_error ops N p (current_tick T) w.
Proof.
  revert N T p G w. induction ops as [|op ops IH]; intros N T p G w HW Hops; [done|].
  apply Forall_cons in Hops as [Hop Hops]. destruct op as [h d s|ct]; simpl in Hop |- *.
  - unfold timeout. destruct (Z.leb_spec d 0).
    + destruct (push w h (timeout_message s)) as [[r w1]|]; [|done]. simpl.
      rewrite <- (IH N T p G w1) by done.
      destruct (negb (r =? 0)); simpl; by destruct (run_timer _ _ _ _ _) as [[[??]?]|].
    + destruct (timer_add_wheel N T p G (mkEvent h s) d HW) as (T1 & G1 & -> & HW1 & Hc & Hk); [lia|]. simpl.
      rewrite <- Hk, <- (IH _ _ _ _ w HW1) by done. by destruct (run_timer _ _ _ _ _) as [[[??]?]|].
  - unfold update_time. destruct (Z.ltb_spec ct (current_tick T)).
    + destruct (log_clock_error _ _ _) as [w1|]; [|done]. simpl.
      apply (IH N (with_clock T (current T) ct) p G w1); [destruct HW as [[]]; by split|done].
    + destruct (Z.eqb_spec ct (current_tick T)) as [->|Hne]; simpl.
      * by rewrite (IH N T p G w).
      * set (T0 := with_clock T _ ct).
        assert (HW0 : wheel (N + 1) N T0 p G) by (destruct HW as [[]]; by split).
        destruct (timer_updates_wheel (Z.to_nat (u32 (ct - current_tick T))) N T0 p G w HW0)
          as (T1 & G1 & -> & HW1 & Hc1 & Hk1).
        rewrite Z2Nat.id in HW1 by (apply u32_range).
        destruct (dispatch_list _ _ _) as [w1|]; [|done]. simpl. by rewrite (IH _ _ _ _ w1 HW1), Hk1.
Qed.
End dispatch_proofs.

Lemma wheel_init sec cs tick : wheel 1 0 (timer_init sec cs tick) [] (λ _, []).
Proof.
  split; try done.
  - split; try done. intros i r Hi. apply lookup_replicate in Hi as [-> _]. done.
  - by intros x ?%not_elem_of_nil.
  - intros [i|lv i]; cbn [valid_loc get_list timer_init near t_ create_timer].
    + intros Hi. apply arr_get_Ok; [lia|]. rewrite lookup_replicate. change TIME_NEAR with 256. split; [done|lia].
    + intros [Hlv Hi]. destruct (arr_get_in_range (t_ create_timer) lv)
        as (r & Hr & Hg); [simpl; lia|].
      cbn [t_ create_timer] in Hr, Hg. rewrite Hg, bind_Ok. apply lookup_replicate in Hr as [-> _].
      apply arr_get_Ok; [lia|]. rewrite lookup_replicate. change TIME_LEVEL with 64. split; [done|lia].
  - intros l E _. by case_decide.
Qed.

(** ** Expiry order *)

Lemma expiring_ext N n p q : (∀ E, N < E <= N + Z.of_nat n → due E p = due E q) → expiring N n p = expiring N n q.
Proof.
  intros He. unfold expiring. f_equal. apply list_fmap_ext. intros i E Hi. apply lookup_seqZ in Hi. apply He. lia.
Qed.

Lemma expiring_app N a b p : expiring N (a + b) p = (expiring N a p ++ expiring (N + Z.of_nat a) b p)%list.
Proof.
  unfold expiring. rewrite Nat2Z.inj_add, seqZ_app by lia. rewrite fmap_app, join_app.
  by replace (N + 1 + Z.of_nat a) with (N + Z.of_nat a + 1) by lia.
Qed.

Lemma expiring_one N p : expiring N 1 p = due (N + 1) p.
Proof. unfold expiring. simpl. apply app_nil_r. Qed.

Lemma due_snoc_ne E p x : x.1 ≠ E → due E (p ++ [x]) = due E p.
Proof. intros Hx. by rewrite due_app, due_singleton, decide_False, app_nil_r. Qed.

(** the place of a timer that is set last *)
Lemma expiring_snoc N n p d ev : 0 < d →
  expiring N n (p ++ [(N + d, ev)]) =
    (expiring N (Z.to_nat (Z.min (d - 1) (Z.of_nat n))) p ++
     (if d <=? Z.of_nat n then due (N + d) p ++ (N + d, ev) :: expiring (N + d) (n - Z.to_nat d) p else []))%list.
Proof.
  intros Hd. destruct (Z.leb_spec d (Z.of_nat n)).
  - replace n with (Z.to_nat (d - 1) + (1 + (n - Z.to_nat d)))%nat at 1 by lia. rewrite !expiring_app, expiring_one.
    replace (Z.to_nat (Z.min (d - 1) (Z.of_nat n))) with (Z.to_nat (d - 1)) by lia.
    replace (N + Z.of_nat (Z.to_nat (d - 1)) + 1) with (N + d) by lia.
    replace (N + Z.of_nat (Z.to_nat (d - 1)) + Z.of_nat 1) with (N + d) by lia. apply (f_equal2 app).
    + apply expiring_ext. intros E HE. apply due_snoc_ne. simpl. lia.
    + rewrite due_app, due_singleton, decide_True by done. rewrite <- app_assoc. apply (f_equal2 app); [done|]. simpl. apply (f_equal (cons _)).
      apply expiring_ext. intros E HE. apply due_snoc_ne. simpl. lia.
  - rewrite app_nil_r. replace (Z.to_nat (Z.min (d - 1) (Z.of_nat n))) with n by lia.
    apply expiring_ext. intros E HE. apply due_snoc_ne. simpl. lia.
Qed.

(** ** Properties *)

(** C4: The timing wheel is a priority list: in every sequence of [timeout] calls (with any
    delay an [int] can hold) and [update_time] calls (with any clock readings), the messages
    dispatched, their order and the values returned are those of the list of pending timers,
    in which an update that advances the clock by [n] ticks dispatches the timers that expire
    in these ticks, tick by tick and in the order they were set, through every cascade and
    across the wrap-around of the 32-bit tick counter. *)
Theorem timer_refines_pending {W} (push : W → Z → service_message → result (Z * W))
    (log_clock_error : W → Z → Z → result W) ops sec cs tick w : Forall timer_op_ok ops →
  (let* (rs, _, w) := run_timer push log_clock_error ops (timer_init sec cs tick) w in Ok (rs, w)) =
  run_pending push log_clock_error ops 0 [] tick w.
Proof. intros Hops. exact (run_timer_wheel push log_clock_error ops 0 (timer_init sec cs tick) [] (λ _, []) w (wheel_init _ _ _) Hops). Qed.

(** a receiver that records the messages *)
Definition push_record (w : list (Z * Z)) (h : Z) (m : service_message) : result (Z * list (Z * Z)) :=
  Ok (0, (w ++ [(h, session_id m)])%list).
Definition no_clock_log (w : list (Z * Z)) (a b : Z) : result (list (Z * Z)) := Ok w.

Definition timer_example : list timer_op :=
  [T_timeout 7 300 1; T_timeout 7 3 2; T_timeout 8 300 3; T_update 103; T_timeout 9 297 4; T_timeout 9 0 5; T_update 400].

Lemma timer_refines_pending_witness :
  Forall timer_op_ok timer_example ∧
  (let* (rs, _, w) := run_timer push_record no_clock_log timer_example (timer_init 0 0 100) [] in Ok (rs, w)) =
  Ok ([1; 2; 3; 4; 5], [(7, 2); (9, 5); (7, 1); (8, 3); (9, 4)]).
Proof.
  assert (Hops : Forall timer_op_ok timer_example) by (repeat constructor; vm_compute; congruence).
  split; [exact Hops|]. rewrite (timer_refines_pending push_record no_clock_log timer_example 0 0 100 [] Hops).
  vm_compute. reflexivity.
Defined.

(** A timer fires once and on time: set with a delay of [d] ticks at tick [N], it is
    among the timers dispatched by the next [n] ticks exactly when [d <= n], it is dispatched
    after every timer that expires earlier or was set before it for the same tick, and every
    timer left in the wheel expires later. *)
Theorem timer_fires_on_time {W} (push : W → Z → service_message → result (Z * W)) N T p G ev d n w :
  wheel (N + 1) N T p G → 0 < d <= MAX_DELAY →
  ∃ T1 T2 G2, timer_add T ev d = Ok T1 ∧
    timer_updates push n T1 w =
      (w <- dispatch_list push (node_of <$> expiring N n (p ++ [(N + d, ev)])) w;; Ok (T2, w)) ∧
    expiring N n (p ++ [(N + d, ev)]) =
      (expiring N (Z.to_nat (Z.min (d - 1) (Z.of_nat n))) p ++
       (if d <=? Z.of_nat n then due (N + d) p ++ (N + d, ev) :: expiring (N + d) (n - Z.to_nat d) p else []))%list ∧
    wheel (N + Z.of_nat n + 1) (N + Z.of_nat n) T2 (filter (λ x, N + Z.of_nat n < x.1) (p ++ [(N + d, ev)])) G2.
Proof.
  intros HW Hd. destruct (timer_add_wheel N T p G ev d HW Hd) as (T1 & G1 & Ha & HW1 & _).
  destruct (timer_updates_wheel push n N T1 _ G1 w HW1) as (T2 & G2 & Hu & HW2 & _).
  exists T1, T2, G2. split_and!; [done|done|apply expiring_snoc; lia|done].
Qed.

Lemma timer_fires_on_time_witness :
  wheel (0 + 1) 0 (timer_init 0 0 0) [] (λ _, []) ∧
  ∃ T1 T2 G2, timer_add (timer_init 0 0 0) (mkEvent 5 9) 2 = Ok T1 ∧
    timer_updates push_record 3 T1 [] = Ok (T2, [(5, 9)]) ∧
    wheel (0 + 3 + 1) (0 + 3) T2 [] G2.
Proof.
  split; [apply wheel_init|].
  destruct (timer_fires_on_time push_record 0 (timer_init 0 0 0) [] (λ _, []) (mkEvent 5 9) 2 3 []) as (T1 & T2 & G2 & H1 & H2 & _ & H4).
  - apply wheel_init.
  - vm_compute. split; congruence.
  - exists T1, T2, G2. split; [exact H1|]. split; [rewrite H2; vm_compute; reflexivity|exact H4].
Defined.
