(* ===== verification/Env.v ===== *)
(** * The node environment (skynet-src/node: node_env.h, node_env.cpp, node_config.h,
    node_config.cpp)

    [node_env] keeps write-once variables in the globals of a Lua state; the Lua
    library is outside the program, so its globals are the interface [LuaGlobals]
    and the theorems hold for every implementation of it. [_init_env] flattens
    the configuration table into variables, [node_config::load] reads the five
    settings of the node back. *)
From Stdlib Require Import Ascii String.
From stdpp Require Import pretty.
From S2P Require Import Prelude Text.
Open Scope string_scope.
Open Scope Z_scope.

(** what the environment uses of a [lua_State]: string-valued globals *)
Class LuaGlobals (E : Type) := {
  luaL_newstate : E;
  lua_getglobal : E → string → option string;
  lua_setglobal : E → string → string → E;
  lua_get_new : ∀ k, lua_getglobal luaL_newstate k = None;
  lua_get_set : ∀ e k v, lua_getglobal (lua_setglobal e k v) k = Some v;
  lua_get_set_ne : ∀ e k k' v, k ≠ k' → lua_getglobal (lua_setglobal e k v) k' = lua_getglobal e k'
}.

#[export] Program Instance gmap_globals : LuaGlobals (gmap string string) :=
  {| luaL_newstate := ∅; lua_getglobal e k := e !! k; lua_setglobal e k v := <[k := v]> e |}.
Next Obligation. intros k. apply lookup_empty. Qed.
Next Obligation. intros e k v. apply lookup_insert_eq. Qed.
Next Obligation. intros e k k' v Hk. by apply lookup_insert_ne. Qed.

(** a key of the configuration table *)
Inductive lua_key :=
  | K_string (s : string)
  | K_other.

(** a value of the configuration table: [L_number] carries what [lua_tostring] makes of
    the number, [L_other] is a value [lua_tostring] does not convert *)
Inductive lua_value :=
  | L_bool (b : bool)
  | L_string (s : string)
  | L_number (text : string)
  | L_table (fields : list (lua_key * lua_value))
  | L_other.

(** [class node_config] *)
Record node_config := mkConfig {
  thread_ : Z;
  cfg_profile_ : Z;
  daemon_pid_file_ : option string;
  cservice_path_ : string;
  bootstrap_ : string
}.

(** the digits [std::stoi] consumes start here: it throws when there is none *)
Definition stoi_has_digit (base : Z) (s : string) : bool :=
  let s := skip_spaces s in
  let s := match s with
           | String c s' => if (char_code c =? 45) || (char_code c =? 43) then s' else s
           | EmptyString => s
           end in
  match s with
  | String c _ => match digit_value c with Some d => d <? base | None => false end
  | EmptyString => false
  end.

(** [std::stoi(s, nullptr, base)] *)
Definition stoi (base : Z) (s : string) : result Z :=
  if negb (stoi_has_digit base s) then Err UncaughtException
  else let v := strtol base s in
       if (v <? - INT_MAX - 1) || (INT_MAX <? v) then Err UncaughtException else Ok v.

Section env.
Context {E : Type} `{LuaGlobals E}.
Implicit Types e : E.

(** [node_env::get_env] *)
Definition get_env (e : E) (key : string) : option string := lua_getglobal e key.

(** [node_env::set_env] *)
Definition set_env (e : E) (key value : string) : result E :=
  massert (match lua_getglobal e key with None => true | Some _ => false end);;;
  Ok (lua_setglobal e key value).

(** [node_env::set_int32] *)
Definition set_int32 (e : E) (key : string) (value : Z) : result E := set_env e key (dec_str value).

(** [node_env::get_int32] *)
Definition get_int32 (e : E) (key : string) (default_value : Z) : result (Z * E) :=
  match get_env e key with
  | None => e <- set_env e key (dec_str default_value);; Ok (default_value, e)
  | Some str => v <- stoi 10 str;; Ok (v, e)
  end.

(** [node_env::set_boolean] *)
Definition set_boolean (e : E) (key : string) (value : Z) : result E :=
  set_env e key (if value =? 0 then "false" else "true").

(** [node_env::get_boolean] *)
Definition get_boolean (e : E) (key : string) (default_value : Z) : result (Z * E) :=
  match get_env e key with
  | None => e <- set_env e key (if default_value =? 0 then "false" else "true");; Ok (default_value, e)
  | Some str => Ok (if String.eqb str "true" then 1 else 0, e)
  end.

(** [node_env::set_string] *)
Definition set_string (e : E) (key value : string) : result E := set_env e key value.

(** [node_env::get_string] *)
Definition get_string (e : E) (key : string) (default_value : option string) : result (option string * E) :=
  match get_env e key with
  | None =>
      match default_value with
      | Some d => e <- set_env e key d;; Ok (get_env e key, e)
      | None => Ok (None, e)
      end
  | Some str => Ok (Some str, e)
  end.

(** the variable a field is stored under *)
Definition full_key (parent_key key : string) : string :=
  if String.eqb parent_key "" then key else parent_key ++ "_" ++ key.

(** [_init_env]: one field, then the loop over the table. The call for a table under
    an empty key pops the table as the outermost call does, and leaves the caller's
    stack one short. *)
Fixpoint init_field (parent_key : string) (k : lua_key) (v : lua_value) (e : E) : result E :=
  match k with
  | K_other => Err ProcessExit
  | K_string key =>
      match v with
      | L_bool b => set_boolean e (full_key parent_key key) (if b then 1 else 0)
      | L_table fields =>
          e <- (fix go (fs : list (lua_key * lua_value)) (e : E) : result E :=
                  match fs with
                  | [] => Ok e
                  | (k', v') :: fs => e <- init_field (full_key parent_key key) k' v' e;; go fs e
                  end) fields e;;
          if String.eqb (full_key parent_key key) "" then Err OutOfBounds else Ok e
      | L_string s | L_number s => set_string e (full_key parent_key key) s
      | L_other => Err ProcessExit
      end
  end.

Fixpoint _init_env (parent_key : string) (fields : list (lua_key * lua_value)) (e : E) : result E :=
  match fields with
  | [] => Ok e
  | (k, v) :: fields => e <- init_field parent_key k v e;; _init_env parent_key fields e
  end.

(** [node_config::load], for the table the configuration script returns ([None] when
    the script fails) *)
Definition config_load (table : option (list (lua_key * lua_value))) (e : E)
  : result (option node_config * E) :=
  match table with
  | None => Ok (None, e)
  | Some fields =>
      e <- _init_env "" fields e;;
      let* (thread, e) := get_int32 e "thread" 8 in
      let* (cpath, e) := get_string e "cservice_path" (Some "./cservice/?.so") in
      let* (boot, e) := get_string e "bootstrap" (Some "snlua bootstrap") in
      let* (daemon, e) := get_string e "daemon" None in
      let* (profile, e) := get_boolean e "profile" 1 in
      Ok (Some (mkConfig thread profile daemon (default "" cpath) (default "" boot)), e)
  end.
End env.

(** ** Specification: the variables of a configuration *)

(** the text of a boolean *)
Definition bool_text (b : bool) : string := if b then "true" else "false".

(** the variables a field stands for, [None] when it is not a valid configuration *)
Fixpoint flatten_field (parent_key : string) (k : lua_key) (v : lua_value) : option (list (string * string)) :=
  match k with
  | K_other => None
  | K_string key =>
      match v with
      | L_bool b => Some [(full_key parent_key key, bool_text b)]
      | L_table fields =>
          if String.eqb (full_key parent_key key) "" then None
          else (fix go (fs : list (lua_key * lua_value)) : option (list (string * string)) :=
                  match fs with
                  | [] => Some []
                  | (k', v') :: fs =>
                      match flatten_field (full_key parent_key key) k' v', go fs with
                      | Some a, Some b => Some (a ++ b)%list
                      | _, _ => None
                      end
                  end) fields
      | L_string s | L_number s => Some [(full_key parent_key key, s)]
      | L_other => None
      end
  end.

Fixpoint flatten (parent_key : string) (fields : list (lua_key * lua_value)) : option (list (string * string)) :=
  match fields with
  | [] => Some []
  | (k, v) :: fields =>
      match flatten_field parent_key k v, flatten parent_key fields with
      | Some a, Some b => Some (a ++ b)%list
      | _, _ => None
      end
  end.

Section env_proofs.
Context {E : Type} `{LuaGlobals E}.
Implicit Types e : E.

(** set the variables one by one *)
Fixpoint set_all (kvs : list (string * string)) (e : E) : result E :=
  match kvs with
  | [] => Ok e
  | (k, v) :: kvs => e <- set_env e k v;; set_all kvs e
  end.

Lemma set_all_app a b e : set_all (a ++ b)%list e = (e <- set_all a e;; set_all b e).
Proof.
  revert e. induction a as [|[k v] a IH]; intros e; [done|]. simpl.
  destruct (set_env e k v); simpl; [apply IH|done].
Qed.

Lemma set_all_one k v e : set_all [(k, v)] e = set_env e k v.
Proof. simpl. by destruct (set_env e k v). Qed.

Lemma init_field_flatten v parent_key k e kvs :
  flatten_field parent_key k v = Some kvs → init_field parent_key k v e = set_all kvs e.
Proof.
  revert parent_key k e kvs. revert v. fix IH 1. intros v parent_key k e kvs.
  destruct k as [key|]; [|by destruct v]. destruct v as [b|s|s|fields|]; cbn [flatten_field init_field].
  - intros [= <-]. rewrite set_all_one. unfold set_boolean. by destruct b.
  - intros [= <-]. by rewrite set_all_one.
  - intros [= <-]. by rewrite set_all_one.
  - set (p := full_key parent_key key). destruct (String.eqb p ""); [done|]. intros Hf.
    match goal with |- rbind ?m _ = _ => enough (Hm : m = set_all kvs e) by (rewrite Hm; by destruct (set_all kvs e)) end.
    revert e kvs Hf. induction fields as [|[k' v'] fs IHfs]; intros e kvs; [by intros [= <-]|].
    destruct (flatten_field p k' v') as [a|] eqn:Ha; [|done].
    destruct ((fix go (fs : list (lua_key * lua_value)) := _) fs) as [b|] eqn:Hb; [|done].
    intros [= <-]. rewrite set_all_app, (IH v' p k' e a Ha).
    destruct (set_all a e); simpl; [by apply IHfs|done].
  - done.
Qed.

(** [_init_env] sets the variables of the table in the order of the traversal. *)
Lemma init_env_flatten parent_key fields e kvs :
  flatten parent_key fields = Some kvs → _init_env parent_key fields e = set_all kvs e.
Proof.
  revert e kvs. induction fields as [|[k v] fields IH]; intros e kvs; simpl; [by intros [= <-]|].
  destruct (flatten_field parent_key k v) as [a|] eqn:Ha; [|done].
  destruct (flatten parent_key fields) as [b|] eqn:Hb; [|done].
  intros [= <-]. rewrite set_all_app, (init_field_flatten v _ _ _ a Ha).
  destruct (set_all a e); simpl; [by apply IH|done].
Qed.

Lemma set_env_new e k v : get_env e k = None → set_env e k v = Ok (lua_setglobal e k v).
Proof. unfold set_env, get_env. by intros ->. Qed.

Lemma set_env_old e k v v' : get_env e k = Some v' → set_env e k v = Err AssertFail.
Proof. unfold set_env, get_env. by intros ->. Qed.

Lemma get_set_env e k v k' : get_env (lua_setglobal e k v) k' = if decide (k' = k) then Some v else get_env e k'.
Proof. unfold get_env. case_decide as Hd; [subst; apply lua_get_set|by apply lua_get_set_ne]. Qed.

Lemma set_all_ok kvs e : NoDup kvs.*1 → (∀ k, k ∈ kvs.*1 → get_env e k = None) →
  ∃ e', set_all kvs e = Ok e' ∧
    ∀ k, get_env e' k = match (list_to_map kvs : gmap string string) !! k with
                        | Some v => Some v
                        | None => get_env e k
                        end.
Proof.
  revert e. induction kvs as [|[k v] kvs IH]; intros e Hnd Hnew; [by exists e|]. simpl in *.
  apply NoDup_cons in Hnd as [Hk Hnd]. rewrite set_env_new by set_solver. simpl.
  destruct (IH (lua_setglobal e k v)) as (e' & -> & Hget); [done| |].
  { intros k' Hk'. rewrite get_set_env, decide_False by (intros ->; done). set_solver. }
  exists e'. split; [done|]. intros k'. rewrite Hget, get_set_env.
  destruct (decide (k' = k)) as [->|Hne].
  - rewrite lookup_insert_eq. by rewrite (not_elem_of_list_to_map_1 kvs k Hk).
  - by rewrite lookup_insert_ne.
Qed.

(** a variable that is set twice fails the assertion of [set_env] *)
Lemma set_all_dup kvs e : (¬ NoDup kvs.*1 ∨ ∃ k, k ∈ kvs.*1 ∧ is_Some (get_env e k)) →
  set_all kvs e = Err AssertFail.
Proof.
  revert e. induction kvs as [|[k v] kvs IH]; intros e Hbad.
  { destruct Hbad as [Hn|(k & Hk & _)]; [by destruct Hn; apply NoDup_nil_2|by apply not_elem_of_nil in Hk]. }
  simpl. destruct (get_env e k) as [v'|] eqn:Hk; [by rewrite (set_env_old _ _ _ v')|].
  rewrite set_env_new by done. simpl. apply IH. simpl in Hbad. destruct Hbad as [Hnd|(k' & Hk' & Hs)].
  - destruct (decide (k ∈ kvs.*1)) as [Hin|Hin].
    + right. exists k. split; [done|]. rewrite get_set_env, decide_True by done. eauto.
    + left. intros Hn. apply Hnd. by apply NoDup_cons.
  - right. exists k'. apply elem_of_cons in Hk' as [->|Hk']; [by rewrite Hk in Hs; destruct Hs|].
    split; [done|]. rewrite get_set_env. case_decide; eauto.
Qed.
End env_proofs.

(** ** Integers survive the environment *)
Lemma stoi_dec_str z : - 2 ^ 31 <= z < 2 ^ 31 → stoi 10 (dec_str z) = Ok z.
Proof.
  intros Hz. unfold stoi. rewrite strtol_dec_str by lia.
  assert (Hd : stoi_has_digit 10 (dec_str z) = true).
  { unfold stoi_has_digit. destruct (dec_str_cases z) as [[-> ->]|[[Hs ->]|[Hs ->]]]; [done| |].
    - destruct (pretty_N_go_head (Z.to_N z) "") as (d & s & Hd & ->); [lia|].
      pose proof (pretty_digit_code d Hd). simpl skip_spaces.
      assert (Hsp : is_space (pretty_N_char d) = false) by (unfold is_space; zbool). rewrite Hsp.
      rewrite (proj2 (Z.eqb_neq _ 45)), (proj2 (Z.eqb_neq _ 43)) by lia. simpl orb. cbv iota.
      rewrite pretty_N_char_value by done. apply Z.ltb_lt. lia.
    - destruct (pretty_N_go_head (Z.to_N (- z)) "") as (d & s & Hd & ->); [lia|].
      simpl. rewrite pretty_N_char_value by done. apply Z.ltb_lt. lia. }
  rewrite Hd. simpl negb. cbv iota. rewrite (proj2 (Z.ltb_ge _ _)), (proj2 (Z.ltb_ge _ _)) by (unfold INT_MAX; lia).
  done.
Qed.

(** ** Properties *)

(** Loading the configuration stores exactly the variables of the table: for a table
    whose flattened fields (nested keys joined with an underscore, booleans as text) have
    distinct names, [_init_env] on a fresh environment returns and every variable reads as the
    value of its field; when two fields flatten to the same name, the write-once assertion of
    [set_env] stops the node. *)
Theorem init_env_variables {E} `{LuaGlobals E} fields kvs : flatten "" fields = Some kvs →
  (NoDup kvs.*1 → ∃ e : E, _init_env "" fields luaL_newstate = Ok e ∧
     ∀ k, get_env e k = (list_to_map kvs : gmap string string) !! k) ∧
  (¬ NoDup kvs.*1 → _init_env "" fields (luaL_newstate : E) = Err AssertFail).
Proof.
  intros Hf. rewrite (init_env_flatten _ _ _ _ Hf). split; intros Hnd.
  - destruct (set_all_ok kvs luaL_newstate Hnd) as (e & He & Hget); [intros; apply lua_get_new|].
    exists e. split; [done|]. intros k. rewrite Hget. unfold get_env. rewrite lua_get_new. by destruct (_ !! k).
  - apply set_all_dup. by left.
Qed.

Definition config_example : list (lua_key * lua_value) :=
  [(K_string "thread", L_number "8"); (K_string "daemon", L_string "./skynet.pid");
   (K_string "log", L_table [(K_string "path", L_string "/tmp"); (K_string "on", L_bool true)])].

Lemma init_env_variables_witness :
  (∃ e : gmap string string, _init_env "" config_example luaL_newstate = Ok e ∧
     ∀ k, get_env e k = (list_to_map [("thread", "8"); ("daemon", "./skynet.pid"); ("log_path", "/tmp"); ("log_on", "true")]
                          : gmap string string) !! k) ∧
  _init_env "" (config_example ++ [(K_string "log_path", L_string "x")])%list (luaL_newstate : gmap string string) = Err AssertFail.
Proof.
  split.
  - apply (init_env_variables (E := gmap string string) config_example
             [("thread", "8"); ("daemon", "./skynet.pid"); ("log_path", "/tmp"); ("log_on", "true")]); [reflexivity|].
    refine (bool_decide_unpack _ _). vm_compute. exact I.
  - apply (init_env_variables (E := gmap string string) (config_example ++ [(K_string "log_path", L_string "x")])%list
             [("thread", "8"); ("daemon", "./skynet.pid"); ("log_path", "/tmp"); ("log_on", "true"); ("log_path", "x")]);
      [reflexivity|]. refine (bool_decide_unpack _ _). vm_compute. exact I.
Defined.

(** Integers survive the environment: [get_int32] after [set_int32] returns the value,
    for every 32-bit value, and [get_int32] of a variable that is not set stores and returns the
    default, so that the next call returns it too. *)
Theorem env_int32_roundtrip {E} `{LuaGlobals E} (e : E) key v d : get_env e key = None → - 2 ^ 31 <= v < 2 ^ 31 →
  (∃ e', set_int32 e key v = Ok e' ∧ get_int32 e' key d = Ok (v, e')) ∧
  (∃ e', get_int32 e key v = Ok (v, e') ∧ get_int32 e' key d = Ok (v, e')).
Proof.
  intros Hk Hv. unfold set_int32, get_int32. rewrite Hk, set_env_new by done. simpl.
  split; (eexists; split; [done|]); rewrite get_set_env, decide_True by done; by rewrite stoi_dec_str.
Qed.

Lemma env_int32_roundtrip_witness :
  let e : gmap string string := ∅ in
  get_env e "thread" = None ∧
  (∃ e', set_int32 e "thread" (-5) = Ok e' ∧ get_int32 e' "thread" 8 = Ok (-5, e')) ∧
  (∃ e', get_int32 e "thread" (-5) = Ok (-5, e') ∧ get_int32 e' "thread" 8 = Ok (-5, e')).
Proof.
  split; [reflexivity|]. apply (env_int32_roundtrip (E := gmap string string) ∅ "thread" (-5) 8); [reflexivity|lia].
Defined.
