(* ===== verification/Service.v ===== *)
(** * The service manager (skynet-src/service: service_context.h, service_manager.h, .cpp;
    skynet-src/log/log.cpp; [drop_message] of skynet-src/node/node.cpp)

    Service contexts are reference counted objects in a heap; the manager keeps
    them in the slot array of [HandleSlot] and names them in the table of
    [HandleName]; each context owns a private queue of [MqGlobal]. Messages are
    blocks of a heap of their own, so that every allocation and [delete[]] of a
    payload is explicit.

    The code of the loaded C services is outside the program: the entry points
    of a module and the [init] of an instance are parameters that may change the
    whole node. *)
From Stdlib Require Import Ascii String.
From S2P Require Import Prelude Message Timer Env MqPrivate MqGlobal HandleName HandleSlot Text ModManager.
Open Scope string_scope.
Open Scope Z_scope.

(** [class service_context]; pointers are addresses, [svc_mod_ptr_] is the key of
    the module table *)
Record service_context := mkCtx {
  ctx_svc_mod_ptr : string;
  ctx_svc_ptr : Z;
  ctx_cb_ud : Z;
  ctx_msg_callback : Z;
  ctx_queue : Z;
  ctx_log_fd : Z;
  ctx_cmd_result : string;
  ctx_svc_handle : Z;
  ctx_session_id : Z;
  ctx_ref : Z;
  ctx_is_init : bool;
  ctx_is_blocked : bool;
  ctx_message_count : Z;
  ctx_cpu_cost : Z;
  ctx_cpu_start : Z;
  ctx_profile : bool
}.

Definition ctx_with_queue (r : service_context) (x : Z) : service_context :=
  mkCtx (ctx_svc_mod_ptr r) (ctx_svc_ptr r) (ctx_cb_ud r) (ctx_msg_callback r) x (ctx_log_fd r) (ctx_cmd_result r) (ctx_svc_handle r) (ctx_session_id r) (ctx_ref r) (ctx_is_init r) (ctx_is_blocked r) (ctx_message_count r) (ctx_cpu_cost r) (ctx_cpu_start r) (ctx_profile r).
Definition ctx_with_log_fd (r : service_context) (x : Z) : service_context :=
  mkCtx (ctx_svc_mod_ptr r) (ctx_svc_ptr r) (ctx_cb_ud r) (ctx_msg_callback r) (ctx_queue r) x (ctx_cmd_result r) (ctx_svc_handle r) (ctx_session_id r) (ctx_ref r) (ctx_is_init r) (ctx_is_blocked r) (ctx_message_count r) (ctx_cpu_cost r) (ctx_cpu_start r) (ctx_profile r).
Definition ctx_with_cmd_result (r : service_context) (x : string) : service_context :=
  mkCtx (ctx_svc_mod_ptr r) (ctx_svc_ptr r) (ctx_cb_ud r) (ctx_msg_callback r) (ctx_queue r) (ctx_log_fd r) x (ctx_svc_handle r) (ctx_session_id r) (ctx_ref r) (ctx_is_init r) (ctx_is_blocked r) (ctx_message_count r) (ctx_cpu_cost r) (ctx_cpu_start r) (ctx_profile r).
Definition ctx_with_svc_handle (r : service_context) (x : Z) : service_context :=
  mkCtx (ctx_svc_mod_ptr r) (ctx_svc_ptr r) (ctx_cb_ud r) (ctx_msg_callback r) (ctx_queue r) (ctx_log_fd r) (ctx_cmd_result r) x (ctx_session_id r) (ctx_ref r) (ctx_is_init r) (ctx_is_blocked r) (ctx_message_count r) (ctx_cpu_cost r) (ctx_cpu_start r) (ctx_profile r).
Definition ctx_with_session_id (r : service_context) (x : Z) : service_context :=
  mkCtx (ctx_svc_mod_ptr r) (ctx_svc_ptr r) (ctx_cb_ud r) (ctx_msg_callback r) (ctx_queue r) (ctx_log_fd r) (ctx_cmd_result r) (ctx_svc_handle r) x (ctx_ref r) (ctx_is_init r) (ctx_is_blocked r) (ctx_message_count r) (ctx_cpu_cost r) (ctx_cpu_start r) (ctx_profile r).
Definition ctx_with_ref (r : service_context) (x : Z) : service_context :=
  mkCtx (ctx_svc_mod_ptr r) (ctx_svc_ptr r) (ctx_cb_ud r) (ctx_msg_callback r) (ctx_queue r) (ctx_log_fd r) (ctx_cmd_result r) (ctx_svc_handle r) (ctx_session_id r) x (ctx_is_init r) (ctx_is_blocked r) (ctx_message_count r) (ctx_cpu_cost r) (ctx_cpu_start r) (ctx_profile r).
Definition ctx_with_is_init (r : service_context) (x : bool) : service_context :=
  mkCtx (ctx_svc_mod_ptr r) (ctx_svc_ptr r) (ctx_cb_ud r) (ctx_msg_callback r) (ctx_queue r) (ctx_log_fd r) (ctx_cmd_result r) (ctx_svc_handle r) (ctx_session_id r) (ctx_ref r) x (ctx_is_blocked r) (ctx_message_count r) (ctx_cpu_cost r) (ctx_cpu_start r) (ctx_profile r).
Definition ctx_with_is_blocked (r : service_context) (x : bool) : service_context :=
  mkCtx (ctx_svc_mod_ptr r) (ctx_svc_ptr r) (ctx_cb_ud r) (ctx_msg_callback r) (ctx_queue r) (ctx_log_fd r) (ctx_cmd_result r) (ctx_svc_handle r) (ctx_session_id r) (ctx_ref r) (ctx_is_init r) x (ctx_message_count r) (ctx_cpu_cost r) (ctx_cpu_start r) (ctx_profile r).
Definition ctx_with_message_count (r : service_context) (x : Z) : service_context :=
  mkCtx (ctx_svc_mod_ptr r) (ctx_svc_ptr r) (ctx_cb_ud r) (ctx_msg_callback r) (ctx_queue r) (ctx_log_fd r) (ctx_cmd_result r) (ctx_svc_handle r) (ctx_session_id r) (ctx_ref r) (ctx_is_init r) (ctx_is_blocked r) x (ctx_cpu_cost r) (ctx_cpu_start r) (ctx_profile r).
Definition ctx_with_cpu_cost (r : service_context) (x : Z) : service_context :=
  mkCtx (ctx_svc_mod_ptr r) (ctx_svc_ptr r) (ctx_cb_ud r) (ctx_msg_callback r) (ctx_queue r) (ctx_log_fd r) (ctx_cmd_result r) (ctx_svc_handle r) (ctx_session_id r) (ctx_ref r) (ctx_is_init r) (ctx_is_blocked r) (ctx_message_count r) x (ctx_cpu_start r) (ctx_profile r).
Definition ctx_with_cpu_start (r : service_context) (x : Z) : service_context :=
  mkCtx (ctx_svc_mod_ptr r) (ctx_svc_ptr r) (ctx_cb_ud r) (ctx_msg_callback r) (ctx_queue r) (ctx_log_fd r) (ctx_cmd_result r) (ctx_svc_handle r) (ctx_session_id r) (ctx_ref r) (ctx_is_init r) (ctx_is_blocked r) (ctx_message_count r) (ctx_cpu_cost r) x (ctx_profile r).
Definition ctx_with_msg_callback (r : service_context) (x : Z) : service_context :=
  mkCtx (ctx_svc_mod_ptr r) (ctx_svc_ptr r) (ctx_cb_ud r) x (ctx_queue r) (ctx_log_fd r) (ctx_cmd_result r) (ctx_svc_handle r) (ctx_session_id r) (ctx_ref r) (ctx_is_init r) (ctx_is_blocked r) (ctx_message_count r) (ctx_cpu_cost r) (ctx_cpu_start r) (ctx_profile r).
Definition ctx_with_cb_ud (r : service_context) (x : Z) : service_context :=
  mkCtx (ctx_svc_mod_ptr r) (ctx_svc_ptr r) x (ctx_msg_callback r) (ctx_queue r) (ctx_log_fd r) (ctx_cmd_result r) (ctx_svc_handle r) (ctx_session_id r) (ctx_ref r) (ctx_is_init r) (ctx_is_blocked r) (ctx_message_count r) (ctx_cpu_cost r) (ctx_cpu_start r) (ctx_profile r).

(** the state of a node that the services act on: the queues, the contexts, the
    message payloads, the address the next allocation returns, the service
    manager, the [static] of [_log], the module table, [node]'s flags, the timer,
    the environment, and the text written to the open log files *)
Record world := mkWorld {
  w_mq : mq_state;
  w_ctxs : gmap Z service_context;
  w_blocks : gmap Z (list Z);
  w_next : Z;
  w_slots : slot_state;
  w_names : name_table;
  w_svc_count : Z;
  w_log_handle : Z;
  w_mods : mod_manager;
  w_profile : bool;
  w_monitor_exit : Z;
  w_timer : timer;
  w_env : gmap string string;
  w_files : gmap Z string
}.

Definition w_with_mq (r : world) (x : mq_state) : world :=
  mkWorld x (w_ctxs r) (w_blocks r) (w_next r) (w_slots r) (w_names r) (w_svc_count r) (w_log_handle r) (w_mods r) (w_profile r) (w_monitor_exit r) (w_timer r) (w_env r) (w_files r).
Definition w_with_ctxs (r : world) (x : gmap Z service_context) : world :=
  mkWorld (w_mq r) x (w_blocks r) (w_next r) (w_slots r) (w_names r) (w_svc_count r) (w_log_handle r) (w_mods r) (w_profile r) (w_monitor_exit r) (w_timer r) (w_env r) (w_files r).
Definition w_with_blocks (r : world) (x : gmap Z (list Z)) : world :=
  mkWorld (w_mq r) (w_ctxs r) x (w_next r) (w_slots r) (w_names r) (w_svc_count r) (w_log_handle r) (w_mods r) (w_profile r) (w_monitor_exit r) (w_timer r) (w_env r) (w_files r).
Definition w_with_next (r : world) (x : Z) : world :=
  mkWorld (w_mq r) (w_ctxs r) (w_blocks r) x (w_slots r) (w_names r) (w_svc_count r) (w_log_handle r) (w_mods r) (w_profile r) (w_monitor_exit r) (w_timer r) (w_env r) (w_files r).
Definition w_with_slots (r : world) (x : slot_state) : world :=
  mkWorld (w_mq r) (w_ctxs r) (w_blocks r) (w_next r) x (w_names r) (w_svc_count r) (w_log_handle r) (w_mods r) (w_profile r) (w_monitor_exit r) (w_timer r) (w_env r) (w_files r).
Definition w_with_names (r : world) (x : name_table) : world :=
  mkWorld (w_mq r) (w_ctxs r) (w_blocks r) (w_next r) (w_slots r) x (w_svc_count r) (w_log_handle r) (w_mods r) (w_profile r) (w_monitor_exit r) (w_timer r) (w_env r) (w_files r).
Definition w_with_svc_count (r : world) (x : Z) : world :=
  mkWorld (w_mq r) (w_ctxs r) (w_blocks r) (w_next r) (w_slots r) (w_names r) x (w_log_handle r) (w_mods r) (w_profile r) (w_monitor_exit r) (w_timer r) (w_env r) (w_files r).
Definition w_with_log_handle (r : world) (x : Z) : world :=
  mkWorld (w_mq r) (w_ctxs r) (w_blocks r) (w_next r) (w_slots r) (w_names r) (w_svc_count r) x (w_mods r) (w_profile r) (w_monitor_exit r) (w_timer r) (w_env r) (w_files r).
Definition w_with_mods (r : world) (x : mod_manager) : world :=
  mkWorld (w_mq r) (w_ctxs r) (w_blocks r) (w_next r) (w_slots r) (w_names r) (w_svc_count r) (w_log_handle r) x (w_profile r) (w_monitor_exit r) (w_timer r) (w_env r) (w_files r).
Definition w_with_profile (r : world) (x : bool) : world :=
  mkWorld (w_mq r) (w_ctxs r) (w_blocks r) (w_next r) (w_slots r) (w_names r) (w_svc_count r) (w_log_handle r) (w_mods r) x (w_monitor_exit r) (w_timer r) (w_env r) (w_files r).
Definition w_with_monitor_exit (r : world) (x : Z) : world :=
  mkWorld (w_mq r) (w_ctxs r) (w_blocks r) (w_next r) (w_slots r) (w_names r) (w_svc_count r) (w_log_handle r) (w_mods r) (w_profile r) x (w_timer r) (w_env r) (w_files r).
Definition w_with_timer (r : world) (x : timer) : world :=
  mkWorld (w_mq r) (w_ctxs r) (w_blocks r) (w_next r) (w_slots r) (w_names r) (w_svc_count r) (w_log_handle r) (w_mods r) (w_profile r) (w_monitor_exit r) x (w_env r) (w_files r).
Definition w_with_env (r : world) (x : gmap string string) : world :=
  mkWorld (w_mq r) (w_ctxs r) (w_blocks r) (w_next r) (w_slots r) (w_names r) (w_svc_count r) (w_log_handle r) (w_mods r) (w_profile r) (w_monitor_exit r) (w_timer r) x (w_files r).
Definition w_with_files (r : world) (x : gmap Z string) : world :=
  mkWorld (w_mq r) (w_ctxs r) (w_blocks r) (w_next r) (w_slots r) (w_names r) (w_svc_count r) (w_log_handle r) (w_mods r) (w_profile r) (w_monitor_exit r) (w_timer r) (w_env r) x.

#[export] Program Instance world_has_mq : HasMq world :=
  {| get_mq := w_mq; set_mq := w_with_mq |}.
Next Obligation. done. Qed.
Next Obligation. by intros []. Qed.
Next Obligation. done. Qed.

(** [service_manager::init] *)
Definition service_manager_init (w : world) : world :=
  w_with_svc_count (w_with_names (w_with_slots w slots_init) names_init) 0.

(** a node whose objects have been initialised *)
Definition world_init : world :=
  mkWorld mq_state_init ∅ ∅ 1 slots_init names_init 0 0 mods_empty false 0 create_timer ∅ ∅.

(** ** Memory *)

(** [new]: an address never handed out before *)
Definition alloc_addr (w : world) : Z * world := (w_next w, w_with_next w (w_next w + 1)).

(** [new char[n]] with the given contents *)
Definition alloc_block (w : world) (bytes : list Z) : Z * world :=
  let p := w_next w in
  (p, w_with_blocks (w_with_next w (p + 1)) (<[p := bytes]> (w_blocks w))).

(** [delete[] p] *)
Definition free_block (w : world) (p : Z) : result world :=
  if p =? 0 then Ok w
  else match w_blocks w !! p with
       | Some _ => Ok (w_with_blocks w (delete p (w_blocks w)))
       | None => Err DoubleFree
       end.

(** [memcpy] out of [p]: [n] readable bytes *)
Definition read_block (w : world) (p n : Z) : result (list Z) :=
  if p =? 0 then Err NullDeref
  else match w_blocks w !! p with
       | Some b => if n <=? Z.of_nat (length b) then Ok (take (Z.to_nat n) b) else Err OutOfBounds
       | None => Err UseAfterFree
       end.

Definition ctx_deref (w : world) (p : Z) : result service_context :=
  if p =? 0 then Err NullDeref
  else match w_ctxs w !! p with Some c => Ok c | None => Err UseAfterFree end.

Definition ctx_store (w : world) (p : Z) (c : service_context) : world :=
  w_with_ctxs w (<[p := c]> (w_ctxs w)).

(** ** service_context.inl *)

(** [service_context::new_session]: always positive, restarting at 1 on overflow *)
Definition next_session (session_id : Z) : Z :=
  let s := s32 (session_id + 1) in if s <=? 0 then 1 else s.

Definition new_session (w : world) (p : Z) : result (Z * world) :=
  c <- ctx_deref w p;;
  let s := next_session (ctx_session_id c) in
  Ok (s, ctx_store w p (ctx_with_session_id c s)).

(** [service_context::grab]: [++ref_] *)
Definition ctx_grab (w : world) (p : Z) : result world :=
  c <- ctx_deref w p;;
  Ok (ctx_store w p (ctx_with_ref c (ctx_ref c + 1))).

(** [service_context::set_callback] *)
Definition set_callback (w : world) (p cb cb_ud : Z) : result world :=
  c <- ctx_deref w p;;
  Ok (ctx_store w p (ctx_with_cb_ud (ctx_with_msg_callback c cb) cb_ud)).

(** ** service_manager.cpp *)

(** [service_manager::grab]; 0 is [nullptr] *)
Definition grab (w : world) (svc_handle : Z) : result (Z * world) :=
  p <- slot_get (w_slots w) svc_handle;;
  if p =? 0 then Ok (0, w)
  else
    c <- ctx_deref w p;;
    if negb (ctx_svc_handle c =? svc_handle) then Ok (0, w)
    else w <- ctx_grab w p;; Ok (p, w).

(** [service_manager::svc_count] *)
Definition svc_count (w : world) : Z := w_svc_count w.

Section services.
(** the entry points of a loaded module: [create_func_()] and [release_func_(svc_ptr)] *)
Variable create_func : Z → world → result (Z * world).
Variable release_func : Z → Z → world → result world.
(** [svc_ptr->init(svc_ctx, svc_args)] *)
Variable svc_init : Z → Z → option string → world → result (bool * world).
Variable dlopen : string → Z.
Variable dlsym : Z → string → Z.

(** [--svc_ctx->ref_]: the new count *)
Definition ref_dec (w : world) (p : Z) : result (Z * world) :=
  c <- ctx_deref w p;;
  Ok (ctx_ref c - 1, ctx_store w p (ctx_with_ref c (ctx_ref c - 1))).

(** what [release_service] does once the count is 0; closing the log file has no
    effect on the node's memory *)
Definition destroy_service (w : world) (p : Z) : result world :=
  c <- ctx_deref w p;;
  w <- match service_mod_map_ (w_mods w) !! ctx_svc_mod_ptr c with
       | Some mi => release_func (mod_release_func_ mi) (ctx_svc_ptr c) w
       | None => Err NullDeref
       end;;
  mq <- mark_release (w_mq w) (ctx_queue c);;
  let w := w_with_mq w mq in
  let w := w_with_ctxs w (delete p (w_ctxs w)) in
  Ok (w_with_svc_count w (w_svc_count w - 1)).

(** [service_manager::release_service]; 0 when the service was deleted *)
Definition release_service (w : world) (p : Z) : result (Z * world) :=
  let* (n, w) := ref_dec w p in
  if n =? 0 then w <- destroy_service w p;; Ok (0, w) else Ok (p, w).

(** [service_manager::push_service_message] *)
Definition push_service_message (w : world) (svc_handle : Z) (m : service_message)
  : result (Z * world) :=
  let* (p, w) := grab w svc_handle in
  if p =? 0 then Ok (-1, w)
  else
    c <- ctx_deref w p;;
    mq <- mq_push (w_mq w) (ctx_queue c) m;;
    let* (_, w) := release_service (w_with_mq w mq) p in
    Ok (0, w).

(** ** log.cpp *)

Definition LOG_LEVEL_TRACE : Z := 0.
Definition LOG_LEVEL_DEBUG : Z := 1.
Definition LOG_LEVEL_INFO : Z := 2.
Definition LOG_LEVEL_WARN : Z := 3.
Definition LOG_LEVEL_ERROR : Z := 4.
Definition MAX_LOG_MSG_SIZE : Z := 64 * 1024.
Definition LOG_LEVEL_LEN : Z := 4.

(** the bytes of an [int] in memory *)
Definition int_bytes (z : Z) : list Z :=
  [Z.land z 255; Z.land (Z.shiftr z 8) 255; Z.land (Z.shiftr z 16) 255; Z.land (Z.shiftr z 24) 255].

(** the buffer of [_log]: its length after the limit is applied, and its bytes; the
    second [memcpy] writes the whole text and its terminator *)
Definition log_len (msg : string) : Z :=
  let actual_len := LOG_LEVEL_LEN + strlen msg in
  if MAX_LOG_MSG_SIZE <? actual_len then MAX_LOG_MSG_SIZE else actual_len.

Definition log_buffer (log_level : Z) (msg : string) : result (list Z) :=
  let bytes := (int_bytes log_level ++ bytes_of msg ++ [0])%list in
  if Z.of_nat (length bytes) <=? log_len msg + 1 then Ok bytes else Err OutOfBounds.

(** [_log]; the handle of the logger is looked up once *)
Definition _log (w : world) (svc_ctx : Z) (log_level : Z) (msg : string) : result world :=
  h <- (if w_log_handle w =? 0 then find_by_name (w_names w) "logger" else Ok (w_log_handle w));;
  let w := w_with_log_handle w h in
  if h =? 0 then Ok w
  else if strlen msg <=? 0 then Ok w
  else
    bytes <- log_buffer log_level msg;;
    let '(data, w) := alloc_block w bytes in
    src <- (if negb (svc_ctx =? 0) then c <- ctx_deref w svc_ctx;; Ok (ctx_svc_handle c) else Ok 0);;
    let* (_, w) := push_service_message w h
                     (mkMsg src 0 data (pack_size (msg_type_code SERVICE_MSG_TYPE_TEXT) (log_len msg))) in
    Ok w.

Definition log_trace (w : world) (svc_ctx : Z) (msg : string) := _log w svc_ctx LOG_LEVEL_TRACE msg.
Definition log_debug (w : world) (svc_ctx : Z) (msg : string) := _log w svc_ctx LOG_LEVEL_DEBUG msg.
Definition log_info (w : world) (svc_ctx : Z) (msg : string) := _log w svc_ctx LOG_LEVEL_INFO msg.
Definition log_warn (w : world) (svc_ctx : Z) (msg : string) := _log w svc_ctx LOG_LEVEL_WARN msg.
Definition log_error (w : world) (svc_ctx : Z) (msg : string) := _log w svc_ctx LOG_LEVEL_ERROR msg.

(** ** Sending *)

(** [svc_msg_type & tag] *)
Definition has_tag (svc_msg_type tag : Z) : bool := negb (Z.land svc_msg_type tag =? 0).

(** [service_manager::send]; a negative result is an error *)
Definition send (w : world) (svc_ctx src_svc_handle dst_svc_handle svc_msg_type session_id msg msg_sz : Z)
  : result (Z * world) :=
  if size_too_large msg_sz then
    w <- log_error w svc_ctx ("The message to " ++ hex_08 true dst_svc_handle ++ " is too large");;
    w <- (if has_tag svc_msg_type MESSAGE_TAG_DONT_COPY then free_block w msg else Ok w);;
    Ok (-2, w)
  else
    let need_copy := negb (has_tag svc_msg_type MESSAGE_TAG_DONT_COPY) in
    let need_alloc_session := has_tag svc_msg_type MESSAGE_TAG_ALLOC_SESSION in
    let svc_msg_type := Z.land svc_msg_type 255 in
    let* (session_id, w) :=
      (if need_alloc_session then massert (session_id =? 0);;; new_session w svc_ctx
       else Ok (session_id, w)) in
    let* (msg, w) :=
      (if need_copy && negb (msg =? 0) then
         bytes <- read_block w msg msg_sz;; Ok (alloc_block w (bytes ++ [0])%list)
       else Ok (msg, w)) in
    let msg_sz := pack_size svc_msg_type msg_sz in
    if dst_svc_handle =? 0 then
      if negb (msg =? 0) then
        w <- log_error w svc_ctx "Destination service handle can't be 0";;
        w <- free_block w msg;;
        Ok (-1, w)
      else Ok (session_id, w)
    else
      src <- (if src_svc_handle =? 0 then c <- ctx_deref w svc_ctx;; Ok (ctx_svc_handle c)
              else Ok src_svc_handle);;
      let* (r, w) := push_service_message w dst_svc_handle (mkMsg src session_id msg msg_sz) in
      if negb (r =? 0) then w <- free_block w msg;; Ok (-1, w) else Ok (session_id, w).

(** [service_manager::send_by_name] *)
Definition send_by_name (w : world) (svc_ctx src_svc_handle : Z) (dst_name_or_addr : string)
  (svc_msg_type session msg sz : Z) : result (Z * world) :=
  src <- (if src_svc_handle =? 0 then c <- ctx_deref w svc_ctx;; Ok (ctx_svc_handle c)
          else Ok src_svc_handle);;
  if Ascii.eqb (first_char dst_name_or_addr) ":" then
    send w svc_ctx src (u32 (strtoul 16 (tail_str dst_name_or_addr))) svc_msg_type session msg sz
  else if Ascii.eqb (first_char dst_name_or_addr) "." then
    des <- find_by_name (w_names w) (tail_str dst_name_or_addr);;
    if des =? 0 then
      w <- (if has_tag svc_msg_type MESSAGE_TAG_DONT_COPY then free_block w msg else Ok w);;
      Ok (-1, w)
    else send w svc_ctx src des svc_msg_type session msg sz
  else send w svc_ctx src 0 svc_msg_type session msg sz.

(** [service_manager::query_by_name] *)
Definition query_by_name (w : world) (svc_ctx : Z) (name_or_addr : string) : result (Z * world) :=
  if Ascii.eqb (first_char name_or_addr) ":" then
    Ok (u32 (strtoul 16 (tail_str name_or_addr)), w)
  else if Ascii.eqb (first_char name_or_addr) "." then
    h <- find_by_name (w_names w) (tail_str name_or_addr);; Ok (h, w)
  else
    w <- log_error w svc_ctx ("Don't support query global name " ++ name_or_addr);;
    Ok (0, w).

(** [drop_message] of node.cpp, for the queue of the service [svc_handle] *)
Definition drop_message (svc_handle : Z) (m : service_message) (w : world) : result world :=
  w <- free_block w (data_ptr m);;
  massert (negb (svc_handle =? 0));;;
  let* (_, w) := send w 0 svc_handle (src_svc_handle m) (msg_type_code SERVICE_MSG_TYPE_ERROR) 0 0 0 in
  Ok w.

(** ** Life cycle *)

(** [service_manager::process_blocked_service] *)
Definition process_blocked_service (w : world) (svc_handle : Z) : result world :=
  let* (p, w) := grab w svc_handle in
  if p =? 0 then Ok w
  else
    c <- ctx_deref w p;;
    let* (_, w) := release_service (ctx_store w p (ctx_with_is_blocked c true)) p in
    Ok w.

(** the part of [unregister_service] under the write lock: the context taken out
    of the slot array, 0 when the handle is not registered *)
Definition unregister_slot (w : world) (svc_handle : Z) : result (Z * world) :=
  p <- slot_get (w_slots w) svc_handle;;
  if p =? 0 then Ok (0, w)
  else
    c <- ctx_deref w p;;
    if negb (ctx_svc_handle c =? svc_handle) then Ok (0, w)
    else
      slots <- slot_clear (w_slots w) svc_handle;;
      names <- remove_names (w_names w) svc_handle;;
      Ok (p, w_with_names (w_with_slots w slots) names).

(** [service_manager::unregister_service] *)
Definition unregister_service (w : world) (svc_handle : Z) : result (Z * world) :=
  let* (p, w) := unregister_slot w svc_handle in
  if p =? 0 then Ok (0, w)
  else let* (_, w) := release_service w p in Ok (1, w).

(** one pass of [service_manager::unregister_service_all], from slot [i] with [cnt]
    services unregistered so far; the bound is read at every iteration *)
Fixpoint unregister_pass (fuel : nat) (i cnt : Z) (w : world) : result (Z * world) :=
  if i <? svc_ctx_slot_size_ (w_slots w) then
    match fuel with
    | O => Err OutOfFuel
    | S fuel =>
        p <- arr_get (svc_ctx_slot_ (w_slots w)) i;;
        h <- (if p =? 0 then Ok 0 else c <- ctx_deref w p;; Ok (ctx_svc_handle c));;
        let* (r, w) := (if h =? 0 then Ok (0, w) else unregister_service w h) in
        unregister_pass fuel (i + 1) (if r =? 0 then cnt else cnt + 1) w
    end
  else Ok (cnt, w).

(** [service_manager::unregister_service_all]: passes until one unregisters nothing *)
Fixpoint unregister_service_all (fuel : nat) (w : world) : result world :=
  match fuel with
  | O => Err OutOfFuel
  | S fuel =>
      let* (n, w) := unregister_pass (Z.to_nat (svc_ctx_slot_size_ (w_slots w))) 0 0 w in
      if n =? 0 then Ok w else unregister_service_all fuel w
  end.

(** the handle of the context at an address *)
Definition handle_at (w : world) (p : Z) : result Z := c <- ctx_deref w p;; Ok (ctx_svc_handle c).

(** the part of [create_service] from [new service_context] to [++svc_count_]: the
    context, its handle and its queue; returns the context and the queue *)
Definition create_context (w : world) (mod_key : string) (svc_ptr : Z) : result (Z * Z * world) :=
  let '(p, w) := alloc_addr w in
  let c := mkCtx mod_key svc_ptr 0 0 0 0 "" 0 0 2 false false 0 0 0 (w_profile w) in
  let w := ctx_store w p c in
  let* (h, slots) := register_service (handle_at w) (w_slots w) p in
  let w := w_with_slots w slots in
  let w := ctx_store w p (ctx_with_svc_handle c h) in
  let '(q, w) := alloc_addr w in
  let w := w_with_mq w (mq_create (w_mq w) q h) in
  let w := ctx_store w p (ctx_with_queue (ctx_with_svc_handle c h) q) in
  Ok (p, q, w_with_svc_count w (w_svc_count w + 1)).

(** [service_manager::create_service]; 0 when the launch fails *)
Definition create_service (w : world) (svc_name : string) (svc_args : option string)
  : result (Z * world) :=
  let* (mi, w) :=
    (match mod_query (w_mods w) svc_name with
     | Some mi => Ok (Some mi, w)
     | None => let* (mi, mods) := mod_load dlopen dlsym (w_mods w) svc_name in
               Ok (mi, w_with_mods w mods)
     end) in
  match mi with
  | None => Ok (0, w)
  | Some mi =>
      let* (svc_ptr, w) := create_func (mod_create_func_ mi) w in
      if svc_ptr =? 0 then Ok (0, w)
      else
        let* (p, q, w) := create_context w svc_name svc_ptr in
        let* (ok, w) := svc_init svc_ptr p svc_args w in
        if ok : bool then
          let* (ret, w) := release_service w p in
          w <- (if negb (ret =? 0) then c <- ctx_deref w p;; Ok (ctx_store w p (ctx_with_is_init c true))
                else Ok w);;
          mq <- gpush (w_mq w) q;;
          let w := w_with_mq w mq in
          w <- (if negb (ret =? 0)
                then log_info w ret ("LAUNCH " ++ svc_name ++ " " ++ default "" svc_args)
                else Ok w);;
          Ok (ret, w)
        else
          w <- log_error w p ("FAILED launch " ++ svc_name);;
          c <- ctx_deref w p;;
          let svc_handle := ctx_svc_handle c in
          let* (_, w) := release_service w p in
          let* (_, w) := unregister_service w svc_handle in
          Ok (0, w)
  end.
End services.

(** ** Properties *)

(** Session numbers are positive: [new_session] returns a value between 1 and [INT_MAX]
    for every previous value an [int] can hold, the next one is its successor until [INT_MAX]
    is reached, and then they start again at 1. *)
Theorem session_positive s : - 2 ^ 31 <= s < 2 ^ 31 →
  1 <= next_session s <= INT_MAX ∧ (0 <= s < INT_MAX → next_session s = s + 1) ∧ next_session INT_MAX = 1.
Proof.
  intros Hs. pose proof (s32_range (s + 1)) as Hr. unfold next_session, INT_MAX in *. split_and!; [| |intros| done].
  - destruct (Z.leb_spec (s32 (s + 1)) 0); lia.
  - destruct (Z.leb_spec (s32 (s + 1)) 0); lia.
  - rewrite s32_small by lia. by rewrite (proj2 (Z.leb_gt _ _)) by lia.
Qed.

Lemma session_positive_witness :
  1 <= next_session 41 <= INT_MAX ∧ (0 <= 41 < INT_MAX → next_session 41 = 41 + 1) ∧ next_session INT_MAX = 1.
Proof. apply (session_positive 41). lia. Defined.
