(* ===== verification/Node.v ===== *)
(** * The node: message dispatch (skynet-src/node: node.h, node.inl, node.cpp,
    node_thread.cpp; skynet-src/service: service_monitor.h, .cpp, service_log.cpp)

    A worker thread takes a queue off the global list, finds the service that owns
    it and runs the service's callback on a number of messages that the thread's
    weight determines. A monitor per worker records what is being processed; the
    monitor thread compares its versions. Messages of a service that has a log
    file are also written there.

    The callback of a service and the clocks are parameters. *)
From Stdlib Require Import Ascii String.
From S2P Require Import Prelude Bytes SocketMessage Message Timer Env MqPrivate MqGlobal HandleName HandleSlot Text ModManager Service.
Open Scope string_scope.
Open Scope Z_scope.

(** ** service_monitor.cpp *)

(** [class service_monitor] *)
Record service_monitor := mkMonitor {
  last_version_ : Z;
  check_version_ : Z;
  mon_src_svc_handle_ : Z;
  mon_dst_svc_handle_ : Z
}.

Definition monitor_init : service_monitor := mkMonitor 0 0 0 0.

(** [service_monitor::process_begin]; [std::atomic<int>] wraps around *)
Definition process_begin (mon : service_monitor) (src_svc_handle dst_svc_handle : Z) : service_monitor :=
  mkMonitor (s32 (last_version_ mon + 1)) (check_version_ mon) src_svc_handle dst_svc_handle.

(** [service_monitor::process_end] *)
Definition process_end (mon : service_monitor) : service_monitor :=
  mkMonitor (s32 (last_version_ mon + 1)) (check_version_ mon) 0 0.

(** ** node.inl *)

Definition get_monitor_exit (w : world) : Z := w_monitor_exit w.
Definition set_monitor_exit (w : world) (monitor_exit : Z) : world := w_with_monitor_exit w monitor_exit.
Definition enable_profiler (w : world) (enable : Z) : world := w_with_profile w (negb (enable =? 0)).
Definition is_profile (w : world) : bool := w_profile w.

(** ** service_log.cpp: what is written to the log file of a service *)

(** [fprintf(f, ...)] *)
Definition file_write (w : world) (f : Z) (text : string) : world :=
  w_with_files w (<[f := default "" (w_files w !! f) ++ text]> (w_files w)).

(** [_log_blob]: two hexadecimal digits per byte *)
Fixpoint _log_blob (bytes : list Z) : string :=
  match bytes with
  | [] => ""
  | b :: bytes => hex_pad false 2 b ++ _log_blob bytes
  end.

(** [_log_socket]: [bytes] is the payload of the message *)
Definition _log_socket (w : world) (f : Z) (bytes : list Z) : result world :=
  if Z.of_nat (length bytes) <? SOCKET_MESSAGE_SIZE then Err OutOfBounds
  else
    let field i n := le_value (take n (drop i bytes)) in
    let socket_event := s32 (field 0 4)%nat in
    let socket_id := s32 (field 4 4)%nat in
    let ud := s32 (field 8 4)%nat in
    let buffer := field 16%nat 8%nat in
    let w := file_write w f ("[socket] socket_event: " ++ dec_str socket_event ++ ", socket_id: "
                             ++ dec_str socket_id ++ ", data_size: " ++ dec_str ud ++ " ") in
    w <- (if buffer =? 0 then
            let text := drop (Z.to_nat SOCKET_MESSAGE_SIZE) bytes in
            match list_find (λ b, b = 0) text with
            | Some (n, _) => Ok (file_write w f ("[" ++ string_of_bytes (take n text) ++ "]"))
            | None => Err OutOfBounds
            end
          else
            data <- read_block w buffer (u64 ud);;
            Ok (file_write w f (_log_blob data)));;
    Ok (file_write w f (String (ascii_of_nat 10) "")).

(** [service_log::log] *)
Definition service_log_log (w : world) (f src_svc_handle svc_msg_type session_id buffer sz : Z) : result world :=
  bytes <- (if sz =? 0 then Ok [] else read_block w buffer sz);;
  if svc_msg_type =? msg_type_code SERVICE_MSG_TYPE_SOCKET then _log_socket w f bytes
  else
    let ti := u32 (now_ticks (w_timer w)) in
    Ok (file_write w f (":" ++ hex_08 false src_svc_handle ++ " " ++ dec_str svc_msg_type ++ " "
                        ++ dec_str session_id ++ " " ++ dec_str ti ++ " "
                        ++ _log_blob bytes ++ String (ascii_of_nat 10) "")).

(** ** node_thread.cpp: the weights of the worker threads *)
Definition WORKER_THREAD_WEIGHT : list Z :=
  [-1; -1; -1; -1;
   0; 0; 0; 0;
   1; 1; 1; 1; 1; 1; 1; 1;
   2; 2; 2; 2; 2; 2; 2; 2;
   3; 3; 3; 3; 3; 3; 3; 3].
Definition WORKER_THREAD_WEIGHT_COUNT : Z := Z.of_nat (length WORKER_THREAD_WEIGHT).
Definition worker_weight (idx : Z) : result Z :=
  if idx <? WORKER_THREAD_WEIGHT_COUNT then arr_get WORKER_THREAD_WEIGHT idx else Ok 0.

Section node.
Variable create_func : Z → world → result (Z * world).
Variable release_func : Z → Z → world → result world.
Variable svc_init : Z → Z → option string → world → result (bool * world).
Variable dlopen : string → Z.
Variable dlsym : Z → string → Z.
(** [svc_ctx->msg_callback_(svc_ctx, ud, type, session, source, data, size)]; not 0 when
    the callback keeps the payload *)
Variable msg_callback : Z → Z → Z → Z → Z → Z → Z → Z → world → result (Z * world).
(** the thread CPU clock, as [(tv_sec, tv_nsec)] *)
Variable thread_clock : world → Z * Z.

Definition thread_time_now (w : world) : Z := thread_time (thread_clock w).1 (thread_clock w).2.

(** [service_monitor::check] *)
Definition monitor_check (w : world) (mon : service_monitor) : result (service_monitor * world) :=
  if check_version_ mon =? last_version_ mon then
    if negb (mon_dst_svc_handle_ mon =? 0) then
      w <- process_blocked_service release_func w (mon_dst_svc_handle_ mon);;
      w <- log_warn release_func w 0
             ("A message from [:" ++ hex_08 true (mon_src_svc_handle_ mon) ++ "] to [:"
              ++ hex_08 true (mon_dst_svc_handle_ mon) ++ "] maybe in an dead loop (last_version = "
              ++ dec_str (last_version_ mon) ++ ")");;
      Ok (mon, w)
    else Ok (mon, w)
  else Ok (mkMonitor (last_version_ mon) (last_version_ mon) (mon_src_svc_handle_ mon) (mon_dst_svc_handle_ mon), w).

(** [node::_do_dispatch_message] *)
Definition _do_dispatch_message (w : world) (svc_ctx : Z) (msg : service_message) : result world :=
  let svc_msg_type := unpack_type (data_size msg) in
  let msg_sz := unpack_size (data_size msg) in
  c <- ctx_deref w svc_ctx;;
  w <- (if negb (ctx_log_fd c =? 0)
        then service_log_log w (ctx_log_fd c) (src_svc_handle msg) svc_msg_type (session_id msg) (data_ptr msg) msg_sz
        else Ok w);;
  let w := ctx_store w svc_ctx (ctx_with_message_count c (s32 (ctx_message_count c + 1))) in
  let call w := msg_callback (ctx_msg_callback c) svc_ctx (ctx_cb_ud c) svc_msg_type (session_id msg)
                  (src_svc_handle msg) (data_ptr msg) msg_sz w in
  let* (reserve_msg, w) :=
    (if ctx_profile c then
       c <- ctx_deref w svc_ctx;;
       let w := ctx_store w svc_ctx (ctx_with_cpu_start c (thread_time_now w)) in
       let* (reserve_msg, w) := call w in
       c <- ctx_deref w svc_ctx;;
       let cost_time := u64 (thread_time_now w - ctx_cpu_start c) in
       Ok (reserve_msg, ctx_store w svc_ctx (ctx_with_cpu_cost c (u64 (ctx_cpu_cost c + cost_time))))
     else call w) in
  if reserve_msg =? 0 then free_block w (data_ptr msg) else Ok w.

(** the [while] of [node::_dispatch_all] *)
Fixpoint dispatch_all_loop (fuel : nat) (w : world) (svc_ctx q : Z) : result world :=
  let* (e, m, mq) := mq_pop (w_mq w) q service_message_default in
  let w := w_with_mq w mq in
  if e : bool then Ok w
  else match fuel with
       | O => Err OutOfFuel
       | S fuel => w <- _do_dispatch_message w svc_ctx m;; dispatch_all_loop fuel w svc_ctx q
       end.

(** [node::_dispatch_all]; the callback may queue more messages, so the bound is the caller's *)
Definition _dispatch_all (fuel : nat) (w : world) (svc_ctx : Z) : result world :=
  c <- ctx_deref w svc_ctx;;
  dispatch_all_loop fuel w svc_ctx (ctx_queue c).

(** one message of [node::dispatch_message], once it is popped *)
Definition process_message (w : world) (mon : service_monitor) (svc_handle svc_ctx q : Z) (msg : service_message)
  : result (service_monitor * world) :=
  let* (ov, mq) := mq_overload (w_mq w) q in
  let w := w_with_mq w mq in
  w <- (if negb (ov =? 0)
        then log_warn release_func w svc_ctx ("May overload, message queue length = " ++ dec_str ov)
        else Ok w);;
  let mon := process_begin mon (src_svc_handle msg) svc_handle in
  c <- ctx_deref w svc_ctx;;
  w <- (if ctx_msg_callback c =? 0 then free_block w (data_ptr msg) else _do_dispatch_message w svc_ctx msg);;
  Ok (process_end mon, w).

(** the [for] of [node::dispatch_message]: [inl] when it returns because the queue is
    empty, with the queue it returns *)
Fixpoint dispatch_loop (fuel : nat) (i n weight : Z) (w : world) (mon : service_monitor) (svc_handle svc_ctx q : Z)
  : result ((Z + unit) * service_monitor * world) :=
  if i <? n then
    match fuel with
    | O => Err OutOfFuel
    | S fuel =>
        let* (e, msg, mq) := mq_pop (w_mq w) q service_message_default in
        let w := w_with_mq w mq in
        if e : bool then
          let* (_, w) := release_service release_func w svc_ctx in
          let* (q', mq) := gpop (w_mq w) in
          Ok (inl q', mon, w_with_mq w mq)
        else
          n <- (if (i =? 0) && (0 <=? weight)
                then len <- mq_length (w_mq w) q;; Ok (Z.shiftr len weight)
                else Ok n);;
          let* (mon, w) := process_message w mon svc_handle svc_ctx q msg in
          dispatch_loop fuel (i + 1) n weight w mon svc_handle svc_ctx q
    end
  else Ok (inr tt, mon, w).

(** enough iterations for the queue at [q] *)
Definition queue_fuel (w : world) (q : Z) : nat :=
  match mqs (w_mq w) !! q with Some qo => S (Z.to_nat (length_ qo)) | None => 1%nat end.

(** [node::dispatch_message]: the queue to go on with, 0 when there is none *)
Definition dispatch_message (w : world) (mon : service_monitor) (q weight : Z)
  : result (Z * service_monitor * world) :=
  let* (q, mq) := (if q =? 0 then gpop (w_mq w) else Ok (q, w_mq w)) in
  let w := w_with_mq w mq in
  if q =? 0 then Ok (0, mon, w)
  else
    qo <- mq_deref (w_mq w) q;;
    let svc_handle := svc_handle_ qo in
    let* (svc_ctx, w) := grab w svc_handle in
    if svc_ctx =? 0 then
      w <- release (drop_message release_func svc_handle) (queue_fuel w q) q w;;
      let* (q', mq) := gpop (w_mq w) in
      Ok (q', mon, w_with_mq w mq)
    else
      let* (r, mon, w) := dispatch_loop (queue_fuel w q) 0 1 weight w mon svc_handle svc_ctx q in
      match r with
      | inl q' => Ok (q', mon, w)
      | inr _ =>
          c <- ctx_deref w svc_ctx;;
          massert (q =? ctx_queue c);;;
          let* (next_q, mq) := gpop (w_mq w) in
          let w := w_with_mq w mq in
          mq <- (if negb (next_q =? 0) then gpush (w_mq w) q else Ok (w_mq w));;
          let w := w_with_mq w mq in
          let q := if negb (next_q =? 0) then next_q else q in
          let* (_, w) := release_service release_func w svc_ctx in
          Ok (q, mon, w)
      end.

(** [node::_bootstrap] *)
Definition _bootstrap (fuel : nat) (w : world) (log_svc_ctx : Z) (cmdline : string) : result world :=
  let fail w :=
    w <- log_error release_func w 0 ("Bootstrap error : " ++ cmdline);;
    w <- _dispatch_all fuel w log_svc_ctx;;
    Err ProcessExit in
  match token_split " " cmdline with
  | svc_name :: svc_args :: _ =>
      let* (svc_ctx, w) := create_service create_func release_func svc_init dlopen dlsym w svc_name (Some svc_args) in
      if svc_ctx =? 0 then fail w else Ok w
  | _ => fail w
  end.

(** [node::start] up to the start of the threads; [sec], [cs], [tick] are the clocks
    that [timer_manager::init] reads *)
Definition node_start (fuel : nat) (w : world) (config : node_config) (sec cs tick : Z) : result world :=
  let w := service_manager_init w in
  let w := w_with_mq w mq_state_init in
  let w := w_with_mods w (mod_init (w_mods w) (cservice_path_ config)) in
  let w := w_with_timer w (timer_init sec cs tick) in
  let w := enable_profiler w (cfg_profile_ config) in
  let* (log_svc_ctx, w) := create_service create_func release_func svc_init dlopen dlsym w "logger" None in
  if log_svc_ctx =? 0 then Err ProcessExit
  else
    c <- ctx_deref w log_svc_ctx;;
    let* (_, names) := set_handle_by_name (w_names w) "logger" (ctx_svc_handle c) in
    _bootstrap fuel (w_with_names w names) log_svc_ctx (bootstrap_ config).
(** [node_thread::thread_timer] after SIGHUP: the logger is told to open its file again *)
Definition reopen_log (w : world) : result world :=
  logger <- find_by_name (w_names w) "logger";;
  if negb (logger =? 0) then
    let* (_, w) := push_service_message release_func w logger
                     (mkMsg 0 0 0 (u64 (Z.shiftl (msg_type_code SERVICE_MSG_TYPE_SYSTEM) MESSAGE_TYPE_SHIFT))) in
    Ok w
  else Ok w.
End node.
