(* ===== verification/Command.v ===== *)
(** * Service commands (skynet-src/service/service_command.cpp; the log file part of
    service_log.cpp)

    A service controls the node with textual commands: [exec] looks the command up
    and runs its function on the service's context and the parameter. A result is
    the text at the returned pointer, [None] is [nullptr].

    The C library's file and time functions and [%lf] are parameters, as is the
    [signal] entry point of a service. *)
From Stdlib Require Import Ascii String.
From S2P Require Import Prelude Message Timer Env MqPrivate MqGlobal HandleName HandleSlot Text ModManager Service Node.
Open Scope string_scope.
Open Scope Z_scope.

(** [char cmd_result_[32]] *)
Definition CMD_RESULT_SIZE : Z := 32.

(** [sprintf(svc_ctx->cmd_result_, ...)]: the text and its terminator must fit *)
Definition set_result (w : world) (svc_ctx : Z) (text : string) : result (option string * world) :=
  c <- ctx_deref w svc_ctx;;
  if CMD_RESULT_SIZE <=? strlen text then Err OutOfBounds
  else Ok (Some text, ctx_store w svc_ctx (ctx_with_cmd_result c text)).

(** [_id_to_hex] *)
Definition _id_to_hex (id : Z) : string := ":" ++ hex_pad true 8 id.

(** the characters up to the first one of [delims], and what follows it *)
Fixpoint strsep (delims : list ascii) (s : string) : string * option string :=
  match s with
  | EmptyString => ("", None)
  | String c s =>
      if existsb (Ascii.eqb c) delims then ("", Some s)
      else let (t, r) := strsep delims s in (String c t, r)
  end.

Definition ascii_tab : ascii := ascii_of_nat 9.
Definition ascii_lf : ascii := ascii_of_nat 10.
Definition ascii_cr : ascii := ascii_of_nat 13.

(** [%s] of [sscanf]: skip white space, then the longest run of other characters; [None]
    at the end of the input *)
Fixpoint scan_word (s : string) : string * string :=
  match s with
  | EmptyString => ("", "")
  | String c s' => if is_space c then ("", s) else let (t, r) := scan_word s' in (String c t, r)
  end.
Definition scan_s (s : string) : option (string * string) :=
  match skip_spaces s with EmptyString => None | s' => Some (scan_word s') end.

(** [strtol(s, nullptr, 0)]: the base is chosen by the prefix *)
Definition strtol_auto (s : string) : Z :=
  let t := skip_spaces s in
  let t := match t with
           | String c t' => if (char_code c =? 45) || (char_code c =? 43) then t' else t
           | EmptyString => t
           end in
  match t with
  | String a (String b _) =>
      if char_code a =? 48
      then (if (char_code b =? 120) || (char_code b =? 88) then strtol 16 s else strtol 8 s)
      else strtol 10 s
  | _ => strtol 10 s
  end.

(** [strchr(s, ' ')] *)
Fixpoint from_space (s : string) : option string :=
  match s with
  | EmptyString => None
  | String c s' => if Ascii.eqb c " " then Some s else from_space s'
  end.

(** the parameter, where the function reads it without a check *)
Definition deref_param (param : option string) : result string :=
  match param with Some s => Ok s | None => Err NullDeref end.

Section commands.
Variable create_func : Z → world → result (Z * world).
Variable release_func : Z → Z → world → result world.
Variable svc_init : Z → Z → option string → world → result (bool * world).
Variable dlopen : string → Z.
Variable dlsym : Z → string → Z.
Variable thread_clock : world → Z * Z.
(** [svc_ptr->signal(sig)] *)
Variable svc_signal : Z → Z → world → result world.
(** [fopen(path, "ab")], 0 when it fails; [ctime]; [%lf] of [x / 1000000.0] *)
Variable fopen : string → Z.
Variable ctime : Z → string.
Variable lf_micros : Z → string.

Notation log_error := (log_error release_func).
Notation log_info := (log_info release_func).
Notation log_warn := (log_warn release_func).

(** [_to_svc_handle] *)
Definition _to_svc_handle (w : world) (svc_ctx : Z) (param : string) : result (Z * world) :=
  if Ascii.eqb (first_char param) ":" then Ok (u32 (strtoul 16 (tail_str param)), w)
  else if Ascii.eqb (first_char param) "." then h <- find_by_name (w_names w) (tail_str param);; Ok (h, w)
  else w <- log_error w svc_ctx ("Can't convert " ++ param ++ " to svc_handle");; Ok (0, w).

(** [_handle_exit] *)
Definition _handle_exit (w : world) (svc_ctx svc_handle : Z) : result world :=
  let* (svc_handle, w) :=
    (if svc_handle =? 0 then
       c <- ctx_deref w svc_ctx;;
       w <- log_info w svc_ctx "KILL self";; Ok (ctx_svc_handle c, w)
     else w <- log_info w svc_ctx ("KILL :" ++ hex_min true svc_handle);; Ok (svc_handle, w)) in
  w <- (if negb (get_monitor_exit w =? 0) then
          let* (_, w) := send release_func w svc_ctx svc_handle (get_monitor_exit w)
                           (msg_type_code SERVICE_MSG_TYPE_CLIENT) 0 0 0 in Ok w
        else Ok w);;
  let* (_, w) := unregister_service release_func w svc_handle in
  Ok w.

(** [cmd_timeout] *)
Definition cmd_timeout (w : world) (svc_ctx : Z) (param : option string) : result (option string * world) :=
  param <- deref_param param;;
  let ticks := s32 (strtol 10 param) in
  let* (session_id, w) := new_session w svc_ctx in
  c <- ctx_deref w svc_ctx;;
  let* (_, T, w) := timeout (push_service_message release_func) (w_timer w) w (ctx_svc_handle c) ticks session_id in
  set_result (w_with_timer w T) svc_ctx (dec_str session_id).

(** [cmd_register] *)
Definition cmd_register (w : world) (svc_ctx : Z) (param : option string) : result (option string * world) :=
  c <- ctx_deref w svc_ctx;;
  match param with
  | None | Some EmptyString => set_result w svc_ctx (":" ++ hex_min false (ctx_svc_handle c))
  | Some param =>
      if Ascii.eqb (first_char param) "." then
        let* (name, names) := set_handle_by_name (w_names w) (tail_str param) (ctx_svc_handle c) in
        Ok (name, w_with_names w names)
      else w <- log_error w svc_ctx ("Can't register global name " ++ param ++ " in C");; Ok (None, w)
  end.

(** [cmd_query] *)
Definition cmd_query (w : world) (svc_ctx : Z) (param : option string) : result (option string * world) :=
  param <- deref_param param;;
  if Ascii.eqb (first_char param) "." then
    svc_handle <- find_by_name (w_names w) (tail_str param);;
    if negb (svc_handle =? 0) then set_result w svc_ctx (":" ++ hex_min false svc_handle) else Ok (None, w)
  else Ok (None, w).

(** [cmd_name]: a word that [sscanf] does not store is read uninitialised *)
Definition cmd_name (w : world) (svc_ctx : Z) (param : option string) : result (option string * world) :=
  param <- deref_param param;;
  match scan_s param with
  | None => Err UninitRead
  | Some (name, rest) =>
      match scan_s rest with
      | None => Err UninitRead
      | Some (svc_handle, _) =>
          if negb (Ascii.eqb (first_char svc_handle) ":") then Ok (None, w)
          else
            let handle_id := u32 (strtoul 16 (tail_str svc_handle)) in
            if handle_id =? 0 then Ok (None, w)
            else if Ascii.eqb (first_char name) "." then
              let* (r, names) := set_handle_by_name (w_names w) (tail_str name) handle_id in
              Ok (r, w_with_names w names)
            else w <- log_error w svc_ctx ("Can't set global name " ++ name ++ " in C");; Ok (None, w)
      end
  end.

(** [cmd_exit] *)
Definition cmd_exit (w : world) (svc_ctx : Z) (param : option string) : result (option string * world) :=
  w <- _handle_exit w svc_ctx 0;; Ok (None, w).

(** [cmd_kill] *)
Definition cmd_kill (w : world) (svc_ctx : Z) (param : option string) : result (option string * world) :=
  param <- deref_param param;;
  let* (svc_handle, w) := _to_svc_handle w svc_ctx param in
  w <- (if negb (svc_handle =? 0) then _handle_exit w svc_ctx svc_handle else Ok w);;
  Ok (None, w).

(** [cmd_launch] *)
Definition cmd_launch (w : world) (context : Z) (param : option string) : result (option string * world) :=
  param <- deref_param param;;
  let '(mod_name, rest) := strsep [" "%char; ascii_tab; ascii_cr; ascii_lf] param in
  let args := match rest with None => None | Some r => Some (strsep [ascii_cr; ascii_lf] r).1 end in
  let* (svc_ctx, w) := create_service create_func release_func svc_init dlopen dlsym w mod_name args in
  if svc_ctx =? 0 then Ok (None, w)
  else
    c <- ctx_deref w svc_ctx;;
    set_result w context (_id_to_hex (ctx_svc_handle c)).

(** [cmd_get_env] *)
Definition cmd_get_env (w : world) (svc_ctx : Z) (param : option string) : result (option string * world) :=
  param <- deref_param param;; Ok (get_env (w_env w) param, w).

(** [cmd_set_env]: the key ends at the first space *)
Definition cmd_set_env (w : world) (svc_ctx : Z) (param : option string) : result (option string * world) :=
  param <- deref_param param;;
  match strsep [" "%char] param with
  | (_, None) => Ok (None, w)
  | (key, Some value) => e <- set_env (w_env w) key value;; Ok (None, w_with_env w e)
  end.

(** [cmd_start_time] *)
Definition cmd_start_time (w : world) (svc_ctx : Z) (param : option string) : result (option string * world) :=
  set_result w svc_ctx (dec_str (get_start_seconds (w_timer w))).

(** [cmd_abort]: each pass that unregisters something shrinks the set of services *)
Definition cmd_abort (w : world) (svc_ctx : Z) (param : option string) : result (option string * world) :=
  w <- unregister_service_all release_func 2 w;; Ok (None, w).

(** [cmd_monitor] *)
Definition cmd_monitor (w : world) (svc_ctx : Z) (param : option string) : result (option string * world) :=
  match param with
  | None | Some EmptyString =>
      if negb (get_monitor_exit w =? 0) then set_result w svc_ctx (":" ++ hex_min false (get_monitor_exit w))
      else Ok (None, w)
  | Some param =>
      let* (svc_handle, w) := _to_svc_handle w svc_ctx param in
      Ok (None, set_monitor_exit w svc_handle)
  end.

(** [cmd_stat] *)
Definition cmd_stat (w : world) (svc_ctx : Z) (param : option string) : result (option string * world) :=
  param <- deref_param param;;
  c <- ctx_deref w svc_ctx;;
  if String.eqb param "mqlen" then len <- mq_length (w_mq w) (ctx_queue c);; set_result w svc_ctx (dec_str len)
  else if String.eqb param "is_blocked" then
    if ctx_is_blocked c then set_result (ctx_store w svc_ctx (ctx_with_is_blocked c false)) svc_ctx "1"
    else set_result w svc_ctx "0"
  else if String.eqb param "cpu" then set_result w svc_ctx (lf_micros (ctx_cpu_cost c))
  else if String.eqb param "time" then
    if ctx_profile c then set_result w svc_ctx (lf_micros (u64 (thread_time_now thread_clock w - ctx_cpu_start c)))
    else set_result w svc_ctx "0"
  else if String.eqb param "message" then set_result w svc_ctx (dec_str (ctx_message_count c))
  else set_result w svc_ctx "".

(** [service_log::open_log_file] *)
Definition open_log_file (w : world) (svc_ctx svc_handle : Z) : result (Z * world) :=
  match get_env (w_env w) "log_path" with
  | None => Ok (0, w)
  | Some log_path =>
      let tmp := log_path ++ "/" ++ hex_08 false svc_handle ++ ".log" in
      let f := fopen tmp in
      if f =? 0 then w <- log_error w svc_ctx ("Open log file " ++ tmp ++ " fail");; Ok (0, w)
      else
        w <- log_info w svc_ctx ("Open log file " ++ tmp);;
        let now := now_ticks (w_timer w) in
        let ti := get_start_seconds (w_timer w) + now / 100 in
        Ok (f, file_write w f ("open time: " ++ dec_str (u32 now) ++ " " ++ ctime ti))
  end.

(** [service_log::close_log_file] *)
Definition close_log_file (w : world) (svc_ctx f svc_handle : Z) : result world :=
  w <- log_info w svc_ctx ("Close log file :" ++ hex_08 true svc_handle);;
  Ok (file_write w f ("close time: " ++ dec_str (u32 (now_ticks (w_timer w))) ++ String ascii_lf "")).

(** [cmd_service_log_on] *)
Definition cmd_service_log_on (w : world) (context : Z) (param : option string) : result (option string * world) :=
  param <- deref_param param;;
  let* (svc_handle, w) := _to_svc_handle w context param in
  if svc_handle =? 0 then Ok (None, w)
  else
    let* (svc_ctx, w) := grab w svc_handle in
    if svc_ctx =? 0 then Ok (None, w)
    else
      c <- ctx_deref w svc_ctx;;
      w <- (if ctx_log_fd c =? 0 then
              let* (f, w) := open_log_file w context svc_handle in
              if f =? 0 then Ok w
              else
                c <- ctx_deref w svc_ctx;;
                if ctx_log_fd c =? 0 then Ok (ctx_store w svc_ctx (ctx_with_log_fd c f)) else Ok w
            else Ok w);;
      let* (_, w) := release_service release_func w svc_ctx in
      Ok (None, w).

(** [cmd_service_log_off] *)
Definition cmd_service_log_off (w : world) (context : Z) (param : option string) : result (option string * world) :=
  param <- deref_param param;;
  let* (svc_handle, w) := _to_svc_handle w context param in
  if svc_handle =? 0 then Ok (None, w)
  else
    let* (svc_ctx, w) := grab w svc_handle in
    if svc_ctx =? 0 then Ok (None, w)
    else
      c <- ctx_deref w svc_ctx;;
      w <- (if negb (ctx_log_fd c =? 0)
            then close_log_file (ctx_store w svc_ctx (ctx_with_log_fd c 0)) context (ctx_log_fd c) svc_handle
            else Ok w);;
      let* (_, w) := release_service release_func w svc_ctx in
      Ok (None, w).

(** [cmd_signal] *)
Definition cmd_signal (w : world) (context : Z) (param : option string) : result (option string * world) :=
  param <- deref_param param;;
  let* (svc_handle, w) := _to_svc_handle w context param in
  if svc_handle =? 0 then Ok (None, w)
  else
    let* (svc_ctx, w) := grab w svc_handle in
    if svc_ctx =? 0 then Ok (None, w)
    else
      let sig := match from_space param with Some s => s32 (strtol_auto s) | None => 0 end in
      c <- ctx_deref w svc_ctx;;
      w <- svc_signal (ctx_svc_ptr c) sig w;;
      let* (_, w) := release_service release_func w svc_ctx in
      Ok (None, w).

(** [cmd_map] *)
Definition cmd_map (cmd : string) : option (world → Z → option string → result (option string * world)) :=
  if String.eqb cmd "TIMEOUT" then Some cmd_timeout
  else if String.eqb cmd "REGISTER" then Some cmd_register
  else if String.eqb cmd "QUERY" then Some cmd_query
  else if String.eqb cmd "NAME" then Some cmd_name
  else if String.eqb cmd "EXIT" then Some cmd_exit
  else if String.eqb cmd "KILL" then Some cmd_kill
  else if String.eqb cmd "LAUNCH" then Some cmd_launch
  else if String.eqb cmd "GET_ENV" then Some cmd_get_env
  else if String.eqb cmd "SET_ENV" then Some cmd_set_env
  else if String.eqb cmd "START_TIME" then Some cmd_start_time
  else if String.eqb cmd "ABORT" then Some cmd_abort
  else if String.eqb cmd "MONITOR" then Some cmd_monitor
  else if String.eqb cmd "STAT" then Some cmd_stat
  else if String.eqb cmd "LOG_ON" then Some cmd_service_log_on
  else if String.eqb cmd "LOG_OFF" then Some cmd_service_log_off
  else if String.eqb cmd "SIGNAL" then Some cmd_signal
  else None.

(** [service_command::exec] *)
Definition exec_command (w : world) (svc_ctx : Z) (cmd : string) (cmd_param : option string)
  : result (option string * world) :=
  match cmd_map cmd with
  | Some f => f w svc_ctx cmd_param
  | None => Ok (None, w)
  end.
End commands.

(** ** Lemmas *)

(** no space in the string *)
Fixpoint no_space (s : string) : bool :=
  match s with
  | EmptyString => true
  | String c s => negb (Ascii.eqb c " ") && no_space s
  end.

Lemma strsep_space k v : no_space k = true → strsep [" "%char] (k ++ String " " v) = (k, Some v).
Proof.
  induction k as [|c k IH]; simpl; [done|]. intros [Hc Hk]%andb_true_iff. apply negb_true_iff in Hc.
  rewrite Hc. simpl. by rewrite IH.
Qed.

Lemma set_result_Ok w p c text : p ≠ 0 → w_ctxs w !! p = Some c → strlen text < CMD_RESULT_SIZE →
  set_result w p text = Ok (Some text, ctx_store w p (ctx_with_cmd_result c text)).
Proof.
  intros Hp Hc Hl. unfold set_result, ctx_deref. rewrite (proj2 (Z.eqb_neq _ _)) by done. rewrite Hc. simpl.
  by rewrite (proj2 (Z.leb_gt _ _)) by done.
Qed.

Lemma strlen_cons c s : strlen (String c s) = 1 + strlen s.
Proof. unfold strlen. cbn [String.length]. lia. Qed.

(** both text forms of a handle are read back *)
Lemma handle_text_back release_func w svc_ctx h : 0 <= h < 2 ^ 32 →
  _to_svc_handle release_func w svc_ctx (_id_to_hex h) = Ok (h, w) ∧
  _to_svc_handle release_func w svc_ctx (":" ++ hex_min false h) = Ok (h, w).
Proof.
  intros Hh. unfold _to_svc_handle, _id_to_hex.
  assert (Hc : ∀ s, Ascii.eqb (first_char (":" ++ s)) ":" = true) by done.
  assert (Ht : ∀ s, tail_str (":" ++ s) = s) by done. rewrite !Hc, !Ht. split.
  - change (hex_pad true 8 h) with (hex_08 true h). by rewrite strtoul_hex_08, u32_small.
  - by rewrite strtoul_hex_min, u32_small by lia.
Qed.

(** ** Properties *)

(** Handles survive their text forms: the ":%08X" text that LAUNCH returns and the ":%x"
    text that REGISTER, QUERY and MONITOR return are converted back by [_to_svc_handle] to the
    same handle, for every 32-bit handle. *)
Theorem handle_text_roundtrip release_func w svc_ctx h : 0 <= h < 2 ^ 32 →
  _to_svc_handle release_func w svc_ctx (_id_to_hex h) = Ok (h, w) ∧
  _to_svc_handle release_func w svc_ctx (":" ++ hex_min false h) = Ok (h, w).
Proof. apply handle_text_back. Qed.

Lemma handle_text_roundtrip_witness :
  let rf := λ (_ _ : Z) (w : world), Ok w in
  _to_svc_handle rf world_init 0 ":0000BEEF" = Ok (0xBEEF, world_init) ∧
  _to_svc_handle rf world_init 0 ":beef" = Ok (0xBEEF, world_init).
Proof. apply (handle_text_roundtrip (λ _ _ w, Ok w) world_init 0 0xBEEF). lia. Defined.

(** The 32-byte result buffer of a context never overflows on the numbers and handles the
    commands print: storing a [%d] or [%u] of 32 bits, a ":%x" handle or an [_id_to_hex] handle
    succeeds for every live context and returns the text. *)
Theorem cmd_result_fits w p c v h : p ≠ 0 → w_ctxs w !! p = Some c → - 2 ^ 31 <= v < 2 ^ 32 → 0 <= h < 2 ^ 32 →
  Forall (λ text, set_result w p text = Ok (Some text, ctx_store w p (ctx_with_cmd_result c text)))
    [dec_str v; ":" ++ hex_min false h; _id_to_hex h; "0"; "1"; ""].
Proof.
  intros Hp Hc Hv Hh. pose proof (dec_str_length v). pose proof (hex_min_length false h).
  pose proof (hex_pad_length true 8 h). unfold _id_to_hex.
  assert (Hcons : ∀ s, strlen (":" ++ s) = 1 + strlen s) by (intros s; apply strlen_cons).
  rewrite !Forall_cons, Forall_nil.
  split_and!; try done; apply set_result_Ok; try done; rewrite ?Hcons; unfold CMD_RESULT_SIZE; lia.
Qed.

Lemma cmd_result_fits_witness :
  let c := mkCtx "m" 5 0 0 0 0 "" 7 0 1 true false 0 0 0 false in
  let w := w_with_ctxs world_init {[ 1 := c ]} in
  Forall (λ text, set_result w 1 text = Ok (Some text, ctx_store w 1 (ctx_with_cmd_result c text)))
    [dec_str (- 2 ^ 31); ":" ++ hex_min false 0xFFFFFFFF; _id_to_hex 0xFFFFFFFF; "0"; "1"; ""].
Proof.
  intros c w. apply (cmd_result_fits w 1 c (- 2 ^ 31) 0xFFFFFFFF); [lia|reflexivity|lia|lia].
Defined.

Section command_properties.
Variable create_func : Z → world → result (Z * world).
Variable release_func : Z → Z → world → result world.
Variable svc_init : Z → Z → option string → world → result (bool * world).
Variable dlopen : string → Z.
Variable dlsym : Z → string → Z.
Variable thread_clock : world → Z * Z.
Variable svc_signal : Z → Z → world → result world.
Variable fopen : string → Z.
Variable ctime : Z → string.
Variable lf_micros : Z → string.

Notation exec_command := (exec_command create_func release_func svc_init dlopen dlsym thread_clock svc_signal fopen ctime lf_micros).

(** A variable set with SET_ENV is what GET_ENV returns, in the whole node and for
    every value, spaces included; setting it a second time fails the write-once assertion. *)
Theorem env_command_roundtrip w p p' k v v' : no_space k = true → get_env (w_env w) k = None →
  ∃ w', exec_command w p "SET_ENV" (Some (k ++ String " " v)) = Ok (None, w') ∧
    exec_command w' p' "GET_ENV" (Some k) = Ok (Some v, w') ∧
    exec_command w' p' "SET_ENV" (Some (k ++ String " " v')) = Err AssertFail.
Proof.
  intros Hk Hn. unfold exec_command. simpl. unfold cmd_set_env, cmd_get_env. simpl.
  rewrite !strsep_space by done. rewrite set_env_new by done. simpl. eexists; split; [done|].
  assert (Hg : get_env (lua_setglobal (w_env w) k v) k = Some v) by (by rewrite get_set_env, decide_True).
  simpl in *. split; [by rewrite Hg|]. by rewrite (set_env_old _ _ _ v).
Qed.

(** A registered name resolves: after REGISTER ".name" by a service the command
    returns the name, QUERY ".name" by any service returns the text of the first service's
    handle, and KILL, MONITOR or LOG_ON given that text address that handle. *)
Theorem register_query_roundtrip w p c p' c' name : names_wf (w_names w) → name_cap_ (w_names w) * 2 <= MAX_SLOT_SIZE →
  p ≠ 0 → w_ctxs w !! p = Some c → p' ≠ 0 → w_ctxs w !! p' = Some c' → 0 < ctx_svc_handle c < 2 ^ 32 →
  names_map (names_live (w_names w)) !! name = None →
  ∃ w1 w2 text, exec_command w p "REGISTER" (Some (String "." name)) = Ok (Some name, w1) ∧
    exec_command w1 p' "QUERY" (Some (String "." name)) = Ok (Some text, w2) ∧
    _to_svc_handle release_func w2 p' text = Ok (ctx_svc_handle c, w2) ∧
    _to_svc_handle release_func w2 p' (String "." name) = Ok (ctx_svc_handle c, w2).
Proof.
  intros Hwf Hcap Hp Hc Hp' Hc' Hh Hnew. unfold exec_command. simpl. unfold cmd_register, cmd_query.
  unfold ctx_deref. rewrite (proj2 (Z.eqb_neq p 0)) by done. rewrite Hc. simpl.
  destruct (set_handle_by_name_map (w_names w) name (ctx_svc_handle c) Hwf Hcap) as (st' & Hwf' & Hs).
  rewrite Hnew in Hs. destruct Hs as (-> & Hm & _). simpl.
  assert (Hf : find_by_name st' name = Ok (ctx_svc_handle c)).
  { rewrite find_by_name_lookup by done. by rewrite Hm, lookup_insert_eq. }
  exists (w_with_names w st'). change (w_names (w_with_names w st')) with st'. rewrite Hf, bind_Ok.
  rewrite (proj2 (Z.eqb_neq _ 0)) by lia. cbn [negb].
  assert (Hlen : strlen (":" ++ hex_min false (ctx_svc_handle c)) < CMD_RESULT_SIZE).
  { change (strlen (String ":" (hex_min false (ctx_svc_handle c))) < CMD_RESULT_SIZE). rewrite strlen_cons. pose proof (hex_min_length false (ctx_svc_handle c)).
    unfold CMD_RESULT_SIZE. lia. }
  rewrite (set_result_Ok (w_with_names w st') p' c') by done. eexists _, _. split; [done|]. split; [done|].
  destruct (handle_text_back release_func (ctx_store (w_with_names w st') p'
    (ctx_with_cmd_result c' (":" ++ hex_min false (ctx_svc_handle c)))) p' (ctx_svc_handle c)) as [_ Hback]; [lia|].
  split; [exact Hback|]. unfold _to_svc_handle. simpl. by rewrite Hf.
Qed.
End command_properties.

Definition example_ctx : service_context := mkCtx "m" 5 0 0 0 0 "" 7 0 1 true false 0 0 0 false.
Definition example_node : world := w_with_ctxs world_init {[ 1 := example_ctx ]}.

Lemma env_command_roundtrip_witness :
  let exec := exec_command (λ _ w, Ok (5, w)) (λ _ _ w, Ok w) (λ _ _ _ w, Ok (true, w)) (λ _, 0) (λ _ _, 0)
                (λ _, (0, 0)) (λ _ _ w, Ok w) (λ _, 0) (λ _, "") (λ _, "") in
  ∃ w', exec example_node 1 "SET_ENV" (Some "start main loop") = Ok (None, w') ∧
    exec w' 1 "GET_ENV" (Some "start") = Ok (Some "main loop", w') ∧
    exec w' 1 "SET_ENV" (Some "start again") = Err AssertFail.
Proof.
  apply (env_command_roundtrip (λ _ w, Ok (5, w)) (λ _ _ w, Ok w) (λ _ _ _ w, Ok (true, w)) (λ _, 0) (λ _ _, 0)
           (λ _, (0, 0)) (λ _ _ w, Ok w) (λ _, 0) (λ _, "") (λ _, "") example_node 1 1 "start" "main loop" "again"); reflexivity.
Defined.

Lemma register_query_roundtrip_witness :
  let exec := exec_command (λ _ w, Ok (5, w)) (λ _ _ w, Ok w) (λ _ _ _ w, Ok (true, w)) (λ _, 0) (λ _ _, 0)
                (λ _, (0, 0)) (λ _ _ w, Ok w) (λ _, 0) (λ _, "") (λ _, "") in
  ∃ w1 w2 text, exec example_node 1 "REGISTER" (Some ".db") = Ok (Some "db", w1) ∧
    exec w1 1 "QUERY" (Some ".db") = Ok (Some text, w2) ∧
    _to_svc_handle (λ _ _ w, Ok w) w2 1 text = Ok (7, w2) ∧ _to_svc_handle (λ _ _ w, Ok w) w2 1 ".db" = Ok (7, w2).
Proof.
  apply (register_query_roundtrip (λ _ w, Ok (5, w)) (λ _ _ w, Ok w) (λ _ _ _ w, Ok (true, w)) (λ _, 0) (λ _ _, 0)
           (λ _, (0, 0)) (λ _ _ w, Ok w) (λ _, 0) (λ _, "") (λ _, "") example_node 1 example_ctx 1 example_ctx "db").
  - apply names_init_wf.
  - vm_compute. congruence.
  - lia.
  - reflexivity.
  - lia.
  - reflexivity.
  - simpl. lia.
  - reflexivity.
Defined.
