(* ===== verification/Scheduler.v ===== *)
(** * Concurrency of the node: services, queues and worker threads

    The threads of a node act on the shared state through operations that are
    atomic: each runs under the mutex of a queue, the lock of the service manager
    or a single atomic counter update. This file gives the interleavings of those
    operations: a state is the node together with what the threads own (counted
    references to contexts, queues taken off the global list, contexts whose
    count has reached 0), an action is one atomic operation by a thread that owns
    what the operation needs.

    The invariant [sched_inv] says who may reach a context or a queue; from it, no
    interleaving fails an assertion or touches freed memory, and a service with
    pending messages is always scheduled exactly once. *)
From stdpp Require Import gmultiset.
From Stdlib Require Import Ascii String.
From S2P Require Import Prelude Message MqPrivate MqGlobal HandleName HandleSlot Text ModManager Service.
Open Scope string_scope.
Open Scope Z_scope.

Record gstate := mkG {
  g_w : world;
  g_refs : gmultiset Z;   (** references to contexts the threads hold *)
  g_held : gset Z;        (** queues the threads hold *)
  g_dying : gset Z        (** contexts whose count a thread has brought to 0 *)
}.

Definition gstate_init (mods : mod_manager) : gstate :=
  mkG (w_with_mods world_init mods) ∅ ∅ ∅.

Inductive action :=
  | A_grab (svc_handle : Z)
  | A_push (svc_ctx : Z) (m : service_message)
  | A_release (svc_ctx : Z)
  | A_destroy (svc_ctx : Z)
  | A_unregister (svc_handle : Z)
  | A_create (mod_key : string) (svc_ptr : Z)
  | A_publish (q : Z)
  | A_take
  | A_pop (q svc_ctx : Z)
  | A_drop (q : Z).

Section scheduler.
Variable release_func : Z → Z → world → result world.

(** the queue a context pointer leads to *)
Definition queue_of (w : world) (p : Z) : Z :=
  match w_ctxs w !! p with Some c => ctx_queue c | None => 0 end.

(** enough iterations to empty the queue at [q] *)
Definition drop_fuel (w : world) (q : Z) : nat :=
  match mqs (w_mq w) !! q with Some qo => S (Z.to_nat (length_ qo)) | None => O end.

(** one atomic operation *)
Definition exec (a : action) (g : gstate) : result gstate :=
  let w := g_w g in
  match a with
  | A_grab h =>
      let* (p, w) := grab w h in
      Ok (mkG w (if p =? 0 then g_refs g else g_refs g ⊎ {[+ p +]}) (g_held g) (g_dying g))
  | A_push p m =>
      c <- ctx_deref w p;;
      mq <- mq_push (w_mq w) (ctx_queue c) m;;
      Ok (mkG (w_with_mq w mq) (g_refs g) (g_held g) (g_dying g))
  | A_release p =>
      let* (n, w) := ref_dec w p in
      Ok (mkG w (g_refs g ∖ {[+ p +]}) (g_held g) (if n =? 0 then {[p]} ∪ g_dying g else g_dying g))
  | A_destroy p =>
      w <- destroy_service release_func w p;;
      Ok (mkG w (g_refs g) (g_held g) (g_dying g ∖ {[p]}))
  | A_unregister h =>
      let* (p, w) := unregister_slot w h in
      Ok (mkG w (if p =? 0 then g_refs g else g_refs g ⊎ {[+ p +]}) (g_held g) (g_dying g))
  | A_create key svc_ptr =>
      let* (p, q, w) := create_context w key svc_ptr in
      Ok (mkG w (g_refs g ⊎ {[+ p +]}) ({[q]} ∪ g_held g) (g_dying g))
  | A_publish q =>
      mq <- gpush (w_mq w) q;;
      Ok (mkG (w_with_mq w mq) (g_refs g) (g_held g ∖ {[q]}) (g_dying g))
  | A_take =>
      let* (q, mq) := gpop (w_mq w) in
      Ok (mkG (w_with_mq w mq) (g_refs g) (if q =? 0 then g_held g else {[q]} ∪ g_held g) (g_dying g))
  | A_pop q p =>
      let* (e, _, mq) := mq_pop (w_mq w) q service_message_default in
      Ok (mkG (w_with_mq w mq) (g_refs g) (if e : bool then g_held g ∖ {[q]} else g_held g) (g_dying g))
  | A_drop q =>
      mq <- release (λ _ s, Ok s) (drop_fuel w q) q (w_mq w);;
      Ok (mkG (w_with_mq w mq) (g_refs g) (g_held g ∖ {[q]}) (g_dying g))
  end.

(** what a thread must own to perform an action, and the limits of the machine:
    a queue below 2^29 slots, a slot array that can still double *)
Definition enabled (a : action) (g : gstate) : Prop :=
  match a with
  | A_grab _ | A_take | A_unregister _ => True
  | A_push p _ => p ∈ g_refs g ∧
      match mqs (w_mq (g_w g)) !! queue_of (g_w g) p with
      | Some qo => cap_ qo <= 2 ^ 29
      | None => True
      end
  | A_release p => p ∈ g_refs g
  | A_destroy p => p ∈ g_dying g
  | A_create key _ => is_Some (service_mod_map_ (w_mods (g_w g)) !! key) ∧
      ¬ slot_trap (w_slots (g_w g)) ∧ svc_ctx_slot_size_ (w_slots (g_w g)) < 2 ^ 24
  | A_publish q | A_drop q => q ∈ g_held g
  | A_pop q p => q ∈ g_held g ∧ p ∈ g_refs g ∧ queue_of (g_w g) p = q
  end.

Definition hofs (w : world) : gmap Z Z := ctx_svc_handle <$> w_ctxs w.

(** the reference the slot array holds *)
Definition slot_ref (w : world) (p : Z) (c : service_context) : Z :=
  if decide (slot_find (hofs w) (w_slots w) (ctx_svc_handle c) = p) then 1 else 0.

(** a live context: its counted references, its queue, its module *)
Record ctx_inv (g : gstate) (p : Z) (c : service_context) : Prop := {
  ci_addr : 0 < p < w_next (g_w g);
  ci_handle : 1 <= ctx_svc_handle c <= HANDLE_MASK;
  ci_ref : ctx_ref c = slot_ref (g_w g) p c + Z.of_nat (multiplicity p (g_refs g));
  ci_dying : ctx_ref c = 0 ↔ p ∈ g_dying g;
  ci_mod : is_Some (service_mod_map_ (w_mods (g_w g)) !! ctx_svc_mod_ptr c);
  ci_queue : ∃ q, mqs (w_mq (g_w g)) !! ctx_queue c = Some q ∧
               is_release_ q = false ∧ svc_handle_ q = ctx_svc_handle c
}.

(** a queue: scheduled exactly when it is on the global list [l] or held by a thread;
    only a scheduled queue has messages; an unreleased queue has an owner *)
Record queue_inv (g : gstate) (l : list Z) (q : Z) (qo : mq_private) : Prop := {
  qi_addr : 0 < q < w_next (g_w g);
  qi_wf : mq_wf qo;
  qi_cap : cap_ qo <= 2 ^ 30;
  qi_sched : is_release_ qo = false → (is_in_global_ qo = true ↔ q ∈ l ∨ q ∈ g_held g);
  qi_released : is_release_ qo = true → q ∈ l ∨ q ∈ g_held g;
  qi_idle : is_in_global_ qo = false → contents qo = [];
  qi_owner : is_release_ qo = false → ∃ p c, w_ctxs (g_w g) !! p = Some c ∧ ctx_queue c = q
}.

Record sched_inv_at (g : gstate) (l : list Z) : Prop := {
  si_slots : slots_wf (hofs (g_w g)) (w_slots (g_w g));
  si_names : names_wf (w_names (g_w g));
  si_list : glist (w_mq (g_w g)) l;
  si_ctx : ∀ p c, w_ctxs (g_w g) !! p = Some c → ctx_inv g p c;
  si_inj : ∀ p p' c c', w_ctxs (g_w g) !! p = Some c → w_ctxs (g_w g) !! p' = Some c' →
             ctx_queue c = ctx_queue c' → p = p';
  si_queue : ∀ q qo, mqs (w_mq (g_w g)) !! q = Some qo → queue_inv g l q qo;
  si_held : ∀ q, q ∈ g_held g → is_Some (mqs (w_mq (g_w g)) !! q) ∧ q ∉ l;
  si_refs : ∀ p, p ∈ g_refs g → is_Some (w_ctxs (g_w g) !! p);
  si_dying : ∀ p, p ∈ g_dying g → is_Some (w_ctxs (g_w g) !! p);
  si_count : w_svc_count (g_w g) = Z.of_nat (size (w_ctxs (g_w g)));
  si_next : 0 < w_next (g_w g)
}.

Definition sched_inv (g : gstate) : Prop := ∃ l, sched_inv_at g l.

(** ** Frame lemmas *)

Lemma with_next_eq qo qo' : with_next qo' 0 = with_next qo 0 → qo' = with_next qo (next_ qo').
Proof. destruct qo, qo'. unfold with_next. simpl. congruence. Qed.

Lemma queue_inv_link g l q qo qo' : with_next qo' 0 = with_next qo 0 →
  queue_inv g l q qo → queue_inv g l q qo'.
Proof.
  intros He%with_next_eq [H1 H2 H3 H4 H5 H6 H7]. rewrite He. split; try done.
  by destruct H2; split.
Qed.

Lemma ctx_inv_link g p c mq' : unlink (mqs mq') = unlink (mqs (w_mq (g_w g))) →
  ctx_inv g p c → ctx_inv (mkG (w_with_mq (g_w g) mq') (g_refs g) (g_held g) (g_dying g)) p c.
Proof.
  intros Hu [H1 H2 H3 H4 H5 (q & Hq & Hr & Hh)]. split; try done. simpl.
  destruct (unlink_lookup _ _ _ _ Hu Hq) as (q' & Hq' & He%with_next_eq).
  exists q'. split; [done|]. by rewrite He.
Qed.

(** only the queues and the threads' queues change *)
Lemma sched_inv_mq g l mq' l' held' : sched_inv_at g l → glist mq' l' →
  let g' := mkG (w_with_mq (g_w g) mq') (g_refs g) held' (g_dying g) in
  (∀ q qo, mqs mq' !! q = Some qo → queue_inv g' l' q qo) →
  (∀ p c, w_ctxs (g_w g) !! p = Some c → ∃ q, mqs mq' !! ctx_queue c = Some q ∧
     is_release_ q = false ∧ svc_handle_ q = ctx_svc_handle c) →
  (∀ q, q ∈ held' → is_Some (mqs mq' !! q) ∧ q ∉ l') →
  sched_inv_at g' l'.
Proof.
  intros [S1 S2 S3 S4 S5 S6 S7 S8 S9 S10 S11] Hl g' Hq Hc Hh. split; try done.
  intros p c Hp. destruct (S4 p c Hp) as [H1 H2 H3 H4 H5 H6]. split; try done. exact (Hc p c Hp).
Qed.

(** moving queues between the list and the threads *)
Lemma sched_inv_move g l mq' l' held' : sched_inv_at g l → glist mq' l' →
  unlink (mqs mq') = unlink (mqs (w_mq (g_w g))) →
  (∀ q, q ∈ l' ∨ q ∈ held' ↔ q ∈ l ∨ q ∈ g_held g) → (∀ q, q ∈ held' → q ∉ l') →
  sched_inv_at (mkG (w_with_mq (g_w g) mq') (g_refs g) held' (g_dying g)) l'.
Proof.
  intros Hinv Hl Hu Hiff Hdisj. pose proof Hinv as [S1 S2 S3 S4 S5 S6 S7 S8 S9 S10 S11].
  apply (sched_inv_mq g l); try done.
  - intros q qo Hq. destruct (unlink_lookup _ _ _ _ (eq_sym Hu) Hq) as (qo0 & Hq0 & He).
    apply (queue_inv_link _ _ _ qo0); [done|]. destruct (S6 q qo0 Hq0) as [H1 H2 H3 H4 H5 H6 H7].
    split; try done; intros Hr; simpl; rewrite Hiff; auto.
  - intros p c Hp. by destruct (ctx_inv_link g p c mq' Hu (S4 p c Hp)).
  - intros q Hq. split; [|by apply Hdisj].
    assert (is_Some (mqs (w_mq (g_w g)) !! q)) as [qo Hqo].
    { destruct (proj1 (Hiff q)) as [Hin|Hin]; [by right| |by apply S7].
      by apply (glist_elem _ _ _ S3 Hin). }
    destruct (unlink_lookup _ _ _ _ Hu Hqo) as (? & ? & _). eauto.
Qed.

(** ** The queue actions *)

Lemma publish_ok g l q : sched_inv_at g l → q ∈ g_held g →
  ∃ g', exec (A_publish q) g = Ok g' ∧ sched_inv_at g' (l ++ [q]).
Proof.
  intros Hinv Hq. pose proof Hinv as [S1 S2 S3 S4 S5 S6 S7 S8 S9 S10 S11].
  destruct (S7 q Hq) as [[qo Hqo] Hnl]. pose proof (qi_addr _ _ _ _ (S6 q qo Hqo)).
  destruct (gpush_spec _ _ q qo S3 ltac:(lia) Hqo Hnl) as (mq' & Hp & Hl' & Hu).
  simpl. rewrite Hp. simpl. eexists; split; [done|].
  apply (sched_inv_move g l); try done.
  - intros x. rewrite elem_of_app, list_elem_of_singleton.
    destruct (decide (x = q)); set_solver.
  - intros x Hx. rewrite elem_of_app, list_elem_of_singleton. destruct (S7 x); set_solver.
Qed.

Lemma take_ok g l : sched_inv_at g l →
  ∃ g' l', exec A_take g = Ok g' ∧ sched_inv_at g' l'.
Proof.
  intros Hinv. pose proof Hinv as [S1 S2 S3 S4 S5 S6 S7 S8 S9 S10 S11].
  pose proof (gpop_spec _ _ S3) as Hp. simpl. destruct l as [|q l'].
  - rewrite Hp. simpl. exists g, []. split; [|done]. by destruct g as [[] ? ? ?].
  - destruct Hp as (Hq0 & mq' & -> & Hl' & Hu). simpl.
    rewrite (proj2 (Z.eqb_neq _ _)) by done. eexists _, l'. split; [done|].
    destruct (proj1 (NoDup_cons _ _) (gl_nodup _ _ S3)) as [Hn _].
    apply (sched_inv_move g (q :: l')); try done.
    + intros x. set_solver.
    + intros x Hx Hxl. apply elem_of_union in Hx as [->%elem_of_singleton|Hx]; [done|].
      destruct (S7 x Hx) as [_ Hn']. apply Hn', elem_of_cons. by right.
Qed.

(** one queue is written, and possibly enters or leaves the list *)
Lemma sched_inv_store g l mq' l' held' q qo qo1 :
  sched_inv_at g l → mqs (w_mq (g_w g)) !! q = Some qo → glist mq' l' →
  unlink (mqs mq') = unlink (<[q := qo1]> (mqs (w_mq (g_w g)))) →
  (∀ x, x ≠ q → (x ∈ l' ∨ x ∈ held' ↔ x ∈ l ∨ x ∈ g_held g)) →
  (∀ x, x ∈ held' → x ∉ l' ∧ x ∈ g_held g) →
  is_release_ qo1 = is_release_ qo → svc_handle_ qo1 = svc_handle_ qo →
  let g' := mkG (w_with_mq (g_w g) mq') (g_refs g) held' (g_dying g) in
  queue_inv g' l' q qo1 → sched_inv_at g' l'.
Proof.
  intros Hinv Hqo Hl Hu Hiff Hheld Hrel Hsh g' Hq1. pose proof Hinv as [S1 S2 S3 S4 S5 S6 S7 S8 S9 S10 S11].
  apply (sched_inv_mq g l); try done.
  - intros x xo Hx. destruct (unlink_lookup _ _ _ _ (eq_sym Hu) Hx) as (xo0 & Hx0 & He).
    apply (queue_inv_link _ _ _ xo0); [done|].
    apply lookup_insert_Some in Hx0 as [[<- <-]|[Hne Hx0]]; [done|].
    destruct (S6 x xo0 Hx0) as [H1 H2 H3 H4 H5 H6 H7].
    split; try done; intros Hr; simpl; rewrite Hiff by done; auto.
  - intros p c Hp. destruct (ci_queue _ _ _ (S4 p c Hp)) as (x & Hx & Hr & Hh).
    assert (∃ x0, <[q := qo1]> (mqs (w_mq (g_w g))) !! ctx_queue c = Some x0 ∧
              is_release_ x0 = false ∧ svc_handle_ x0 = ctx_svc_handle c) as (x0 & Hx0 & Hr0 & Hh0).
    { destruct (decide (ctx_queue c = q)) as [Heq|Hne].
      - rewrite Heq in *. exists qo1. rewrite lookup_insert_eq. simplify_eq. by rewrite Hrel, Hsh.
      - exists x. by rewrite lookup_insert_ne by done. }
    destruct (unlink_lookup _ _ _ _ Hu Hx0) as (x1 & Hx1 & He%with_next_eq).
    exists x1. split; [done|]. by rewrite He.
  - intros x Hx. destruct (Hheld x Hx) as [Hn Hg]. split; [|done].
    destruct (S7 x Hg) as [[xo Hxo] _].
    assert (is_Some (<[q := qo1]> (mqs (w_mq (g_w g))) !! x)) as [y Hy]
      by (apply lookup_insert_is_Some'; eauto).
    destruct (unlink_lookup _ _ _ _ Hu Hy) as (? & ? & _). eauto.
Qed.

(** what the owner of a reference may rely on *)
Lemma owned_ctx g l p : sched_inv_at g l → p ∈ g_refs g →
  ∃ c qo, w_ctxs (g_w g) !! p = Some c ∧ ctx_inv g p c ∧ p ≠ 0 ∧
    mqs (w_mq (g_w g)) !! ctx_queue c = Some qo ∧ is_release_ qo = false ∧
    queue_inv g l (ctx_queue c) qo ∧ ctx_queue c ≠ 0.
Proof.
  intros Hinv Hp. destruct (si_refs _ _ Hinv p Hp) as [c Hc].
  pose proof (si_ctx _ _ Hinv p c Hc) as Hci. destruct (ci_queue _ _ _ Hci) as (qo & Hq & Hr & _).
  pose proof (si_queue _ _ Hinv _ _ Hq) as Hqi. exists c, qo.
  pose proof (ci_addr _ _ _ Hci). pose proof (qi_addr _ _ _ _ Hqi).
  split_and!; try done; lia.
Qed.

Lemma ctx_deref_Ok w p c : p ≠ 0 → w_ctxs w !! p = Some c → ctx_deref w p = Ok c.
Proof. intros Hp Hc. unfold ctx_deref. rewrite (proj2 (Z.eqb_neq _ _)) by done. by rewrite Hc. Qed.

Lemma push_ok g l p m : sched_inv_at g l → enabled (A_push p m) g →
  ∃ g' l', exec (A_push p m) g = Ok g' ∧ sched_inv_at g' l'.
Proof.
  intros Hinv [Hp Hcap]. pose proof Hinv as [S1 S2 S3 S4 S5 S6 S7 S8 S9 S10 S11].
  destruct (owned_ctx g l p Hinv Hp) as (c & qo & Hc & Hci & Hp0 & Hq & Hr & Hqi & Hq0).
  unfold queue_of in Hcap. rewrite Hc, Hq in Hcap.
  simpl. rewrite (ctx_deref_Ok _ _ c) by done. simpl. unfold mq_push.
  rewrite (mq_deref_Ok _ _ qo) by done. simpl. pose proof Hqi as [Q1 Q2 Q3 Q4 Q5 Q6 Q7].
  destruct (enqueue_spec qo m Q2) as (qo' & -> & Hwf' & Hcont & Hg & Hrl & Hsh & Hn & _ & _ & Hcap');
    [unfold INT_MAX; lia|]. simpl.
  assert (Hc' : cap_ qo' <= 2 ^ 30) by (rewrite Hcap'; case_match; lia).
  rewrite Hg. destruct (is_in_global_ qo) eqn:Eg; simpl.
  - eexists _, l. split; [done|].
    eapply (sched_inv_store g l _ l _ (ctx_queue c) qo qo'); try done.
    + by apply (glist_store _ _ _ qo).
    + intros x Hx. split; [by apply S7|done].
    + split; simpl; rewrite ?Hrl, ?Hg; try done.
  - assert (Hnot : ctx_queue c ∉ l ∧ ctx_queue c ∉ g_held g).
    { specialize (Q4 Hr). split; intros Hin; [assert (false = true) by (apply Q4; by left)
      |assert (false = true) by (apply Q4; by right)]; done. }
    destruct Hnot as [Hnl Hnh].
    pose proof (glist_store _ _ _ _ (with_in_global qo' true) S3 Hq Hn) as Hgl.
    destruct (gpush_spec _ _ (ctx_queue c) (with_in_global qo' true) Hgl Hq0) as (mq' & -> & Hl' & Hu);
      [by simpl; rewrite lookup_insert_eq|done|]. simpl.
    eexists _, _. split; [done|].
    eapply (sched_inv_store g l _ _ _ (ctx_queue c) qo (with_in_global qo' true)); try done.
    + intros x Hx. rewrite elem_of_app, list_elem_of_singleton. naive_solver.
    + intros x Hx. split; [|done]. rewrite elem_of_app, list_elem_of_singleton.
      destruct (S7 x Hx). intros [?| ->]; done.
    + split; simpl; rewrite ?Hrl; try done.
      * by destruct Hwf'; split.
      * intros _. split; [|done]. intros _. left. rewrite elem_of_app, list_elem_of_singleton. by right.
      * rewrite Hr. done.
Qed.

Lemma sched_pop_ok g l q p : sched_inv_at g l → enabled (A_pop q p) g →
  ∃ g' l', exec (A_pop q p) g = Ok g' ∧ sched_inv_at g' l'.
Proof.
  intros Hinv (Hq & Hp & Hqp). pose proof Hinv as [S1 S2 S3 S4 S5 S6 S7 S8 S9 S10 S11].
  destruct (owned_ctx g l p Hinv Hp) as (c & qo & Hc & Hci & Hp0 & Hqo & Hr & Hqi & Hq0).
  unfold queue_of in Hqp. rewrite Hc in Hqp. subst q.
  simpl. unfold mq_pop. rewrite (mq_deref_Ok _ _ qo) by done. simpl.
  pose proof Hqi as [Q1 Q2 Q3 Q4 Q5 Q6 Q7]. destruct (S7 _ Hq) as [_ Hnl].
  destruct (contents qo) as [|m0 ms] eqn:Hcont.
  - rewrite pop_empty by done. simpl. eexists _, l. split; [done|].
    eapply (sched_inv_store g l _ l _ (ctx_queue c) qo); try done.
    + by apply (glist_store _ _ _ qo).
    + intros x Hx. rewrite elem_of_difference, elem_of_singleton. naive_solver.
    + intros x [Hx _]%elem_of_difference. split; [by apply S7|done].
    + split; simpl; try done.
      * by destruct Q2; split.
      * intros _. split; [done|]. intros [?|[_ Hx]%elem_of_difference]; [done|].
        by rewrite elem_of_singleton in Hx.
      * rewrite Hr. done.
  - destruct (pop_nonempty qo service_message_default m0 ms Q2 Q3 Hcont)
      as (qo' & -> & Hwf' & Hcont' & Hg & Hrl & Hsh & Hn & Hcap & _). simpl.
    eexists _, l. split; [done|].
    eapply (sched_inv_store g l _ l _ (ctx_queue c) qo qo'); try done.
    + by apply (glist_store _ _ _ qo).
    + intros x Hx. split; [by apply S7|done].
    + split; simpl; rewrite ?Hrl, ?Hg, ?Hcap; try done.
      rewrite (proj2 (Q4 Hr) (or_intror Hq)). done.
Qed.

Lemma drop_ok g l q : sched_inv_at g l → q ∈ g_held g →
  ∃ g' l', exec (A_drop q) g = Ok g' ∧ sched_inv_at g' l'.
Proof.
  intros Hinv Hq. pose proof Hinv as [S1 S2 S3 S4 S5 S6 S7 S8 S9 S10 S11].
  destruct (S7 q Hq) as [[qo Hqo] Hnl]. pose proof (S6 q qo Hqo) as [Q1 Q2 Q3 Q4 Q5 Q6 Q7].
  simpl. unfold drop_fuel. rewrite Hqo.
  destruct (is_release_ qo) eqn:Hr.
  - rewrite (release_trivial _ q _ l qo) by (done || lia || rewrite contents_length; lia). simpl.
    eexists _, l. split; [done|].
    apply (sched_inv_mq g l); [done|by apply glist_free| | |]; simpl.
    + intros x xo [Hne Hx]%lookup_delete_Some. destruct (S6 x xo Hx) as [H1 H2 H3 H4 H5 H6 H7].
      split; try done; simpl; intros Hrx; rewrite elem_of_difference, elem_of_singleton; naive_solver.
    + intros p c Hp. destruct (ci_queue _ _ _ (S4 p c Hp)) as (x & Hx & Hrx & Hh).
      exists x. split; [|done]. rewrite lookup_delete_ne; [done|]. intros Heq. rewrite <- Heq, Hqo in Hx. congruence.
    + intros x [Hx Hne]%elem_of_difference. rewrite elem_of_singleton in Hne.
      destruct (S7 x Hx) as [? ?]. by rewrite lookup_delete_ne by done.
  - unfold release. simpl. rewrite (mq_deref_Ok _ _ qo) by (done || lia). simpl. rewrite Hr.
    destruct (publish_ok g l q Hinv Hq) as (g' & Hex & Hinv'). simpl in Hex.
    destruct (gpush (w_mq (g_w g)) q) as [mq'|]; [|done]. simpl in *. eauto.
Qed.

(** ** The context actions *)

Lemma hofs_store w p c c' : w_ctxs w !! p = Some c → ctx_svc_handle c' = ctx_svc_handle c →
  hofs (ctx_store w p c') = hofs w.
Proof.
  intros Hc Hh. unfold hofs. simpl. rewrite fmap_insert, Hh. apply insert_id.
  by rewrite lookup_fmap, Hc.
Qed.

(** a context is written, and possibly the threads' references to it *)
Lemma sched_inv_ctx g l p c c' refs' dying' :
  sched_inv_at g l → w_ctxs (g_w g) !! p = Some c →
  ctx_svc_handle c' = ctx_svc_handle c → ctx_queue c' = ctx_queue c →
  ctx_svc_mod_ptr c' = ctx_svc_mod_ptr c →
  (∀ x, x ≠ p → multiplicity x refs' = multiplicity x (g_refs g)) →
  (∀ x, x ≠ p → (x ∈ dying' ↔ x ∈ g_dying g)) →
  ctx_ref c' = slot_ref (g_w g) p c + Z.of_nat (multiplicity p refs') →
  (ctx_ref c' = 0 ↔ p ∈ dying') →
  sched_inv_at (mkG (ctx_store (g_w g) p c') refs' (g_held g) dying') l.
Proof.
  intros [S1 S2 S3 S4 S5 S6 S7 S8 S9 S10 S11] Hc Hh Hq Hm Hrefs Hdy Href Hzero.
  pose proof (hofs_store _ _ _ c' Hc Hh) as Hhof.
  assert (Hold : ∀ x cx, <[p := c']> (w_ctxs (g_w g)) !! x = Some cx →
    ∃ cx0, w_ctxs (g_w g) !! x = Some cx0 ∧ ctx_queue cx = ctx_queue cx0).
  { intros x cx [[<- <-]|[? ?]]%lookup_insert_Some; eauto. }
  split; simpl; rewrite ?Hhof; try done.
  - intros x cx Hx. apply lookup_insert_Some in Hx as [[<- <-]|[Hne Hx]].
    + destruct (S4 p c Hc) as [H1 H2 H3 H4 H5 H6].
      split; unfold slot_ref in *; simpl in *; rewrite ?Hhof, ?Hh, ?Hm, ?Hq; try done.
    + destruct (S4 x cx Hx) as [H1 H2 H3 H4 H5 H6].
      split; unfold slot_ref in *; simpl in *; rewrite ?Hhof; try done.
      * by rewrite Hrefs.
      * by rewrite Hdy.
  - intros x y cx cy Hx Hy He. destruct (Hold x cx Hx) as (cx0 & Hx0 & Hqx).
    destruct (Hold y cy Hy) as (cy0 & Hy0 & Hqy). apply (S5 x y cx0 cy0); congruence.
  - intros x xo Hx. destruct (S6 x xo Hx) as [H1 H2 H3 H4 H5 H6 H7]. split; try done. simpl.
    intros Hr. destruct (H7 Hr) as (y & cy & Hy & Hqy).
    destruct (decide (y = p)) as [->|Hne]; [exists p, c'|exists y, cy].
    + rewrite lookup_insert_eq. simplify_eq. done.
    + by rewrite lookup_insert_ne by done.
  - intros x Hx. apply lookup_insert_is_Some'. destruct (decide (x = p)) as [->|]; [by left|].
    right. apply S8. apply elem_of_multiplicity. rewrite <- Hrefs by done. by apply elem_of_multiplicity.
  - intros x Hx. apply lookup_insert_is_Some'. destruct (decide (x = p)) as [->|]; [by left|].
    right. apply S9. by apply Hdy.
  - rewrite S10. f_equal. symmetry. apply map_size_insert_Some. eauto.
Qed.

Lemma hofs_lookup w p c : w_ctxs w !! p = Some c → hofs w !! p = Some (ctx_svc_handle c).
Proof. intros Hc. unfold hofs. by rewrite lookup_fmap, Hc. Qed.

Lemma hofs_Some w p h : hofs w !! p = Some h →
  ∃ c, w_ctxs w !! p = Some c ∧ ctx_svc_handle c = h.
Proof. unfold hofs. rewrite lookup_fmap. intros (c & -> & ?)%fmap_Some. eauto. Qed.

(** the lookup that [grab] and [unregister_service] start with *)
Lemma lookup_slot g l h : sched_inv_at g l →
  let p := slot_find (hofs (g_w g)) (w_slots (g_w g)) h in
  (p = 0 ∧ ∃ p', slot_get (w_slots (g_w g)) h = Ok p' ∧
     (p' = 0 ∨ ∃ c, p' ≠ 0 ∧ ctx_deref (g_w g) p' = Ok c ∧ ctx_svc_handle c ≠ h)) ∨
  (p ≠ 0 ∧ slot_get (w_slots (g_w g)) h = Ok p ∧
     ∃ c, w_ctxs (g_w g) !! p = Some c ∧ ctx_svc_handle c = h ∧ ctx_inv g p c).
Proof.
  intros Hinv p. pose proof Hinv as [S1 S2 S3 S4 S5 S6 S7 S8 S9 S10 S11].
  pose proof (slot_get_Ok _ _ h S1) as Hget. destruct (decide (p = 0)) as [Hz|Hnz].
  - left. split; [done|]. eexists; split; [exact Hget|].
    set (p' := slot_at _ _) in *. destruct (decide (p' = 0)) as [?|Hp']; [by left|]. right.
    destruct (sw_slot _ _ S1 (h mod svc_ctx_slot_size_ (w_slots (g_w g)))) as (h' & Hh' & _);
      [by eapply slots_mod_range|done|]. fold p' in Hh'.
    destruct (hofs_Some _ _ _ Hh') as (c & Hc & He). exists c. split_and!; [done|by apply ctx_deref_Ok|].
    intros Heq. apply Hp'. rewrite <- Hz. subst p. unfold slot_find. fold p'.
    rewrite decide_True; [done|]. split; [done|]. congruence.
  - right. split; [done|]. destruct (slot_find_nonzero _ _ _ Hnz) as [Hat Hhof].
    rewrite Hget, Hat. split; [done|]. destruct (hofs_Some _ _ _ Hhof) as (c & Hc & He).
    exists c. split_and!; try done. by apply S4.
Qed.

Lemma grab_ok g l h : sched_inv_at g l →
  ∃ g', exec (A_grab h) g = Ok g' ∧ sched_inv_at g' l.
Proof.
  intros Hinv. simpl. unfold grab.
  destruct (lookup_slot g l h Hinv) as [(_ & p' & -> & Hp')|(Hp & -> & c & Hc & Hh & Hci)]; simpl.
  - assert (Hg : g = mkG (g_w g) (g_refs g) (g_held g) (g_dying g)) by (by destruct g).
    destruct Hp' as [->|(c & Hp' & -> & Hne)]; simpl.
    + eexists; split; [done|]. by rewrite <- Hg.
    + rewrite (proj2 (Z.eqb_neq _ _)) by done. simpl. rewrite (proj2 (Z.eqb_neq _ _)) by done. simpl.
      eexists; split; [done|]. by rewrite <- Hg.
  - set (p := slot_find _ _ h) in *. rewrite (proj2 (Z.eqb_neq _ _)) by done.
    rewrite (ctx_deref_Ok _ _ c) by done. simpl. rewrite Hh, Z.eqb_refl. simpl.
    unfold ctx_grab. rewrite (ctx_deref_Ok _ _ c) by done. simpl.
    rewrite (proj2 (Z.eqb_neq _ _)) by done. eexists; split; [done|].
    destruct Hci as [C1 C2 C3 C4 C5 C6].
    assert (Hsr : slot_ref (g_w g) p c = 1) by (unfold slot_ref; rewrite Hh; by rewrite decide_True).
    apply (sched_inv_ctx g l p c); try done; simpl.
    + intros x Hx. rewrite multiplicity_disj_union, multiplicity_singleton_ne by done. lia.
    + rewrite multiplicity_disj_union, multiplicity_singleton_eq. lia.
    + rewrite <- C4. lia.
Qed.

Lemma release_ok g l p : sched_inv_at g l → p ∈ g_refs g →
  ∃ g', exec (A_release p) g = Ok g' ∧ sched_inv_at g' l.
Proof.
  intros Hinv Hp. destruct (owned_ctx g l p Hinv Hp) as (c & qo & Hc & Hci & Hp0 & _).
  simpl. unfold ref_dec. rewrite (ctx_deref_Ok _ _ c) by done. simpl. eexists; split; [done|].
  destruct Hci as [C1 C2 C3 C4 C5 C6]. rewrite elem_of_multiplicity in Hp.
  assert (Hsr : 0 <= slot_ref (g_w g) p c) by (unfold slot_ref; case_decide; lia).
  apply (sched_inv_ctx g l p c); try done; simpl.
  - intros x Hx. rewrite multiplicity_difference, multiplicity_singleton_ne by done. lia.
  - intros x Hx. case_match; [|done]. set_solver.
  - rewrite multiplicity_difference, multiplicity_singleton_eq. lia.
  - destruct (Z.eqb_spec (ctx_ref c - 1) 0); [split; [set_solver|done]|].
    rewrite <- C4. lia.
Qed.

(** a context that is in the slot array is counted there *)
Lemma slot_holds g l i p c : sched_inv_at g l → w_ctxs (g_w g) !! p = Some c →
  0 <= i < svc_ctx_slot_size_ (w_slots (g_w g)) → p ≠ 0 →
  slot_at (svc_ctx_slot_ (w_slots (g_w g))) i = p → slot_ref (g_w g) p c = 1.
Proof.
  intros Hinv Hc Hi Hp Hat.
  destruct (slot_find_at _ _ i (si_slots _ _ Hinv) Hi) as (h & Hh & _ & Hf); [by rewrite Hat|].
  rewrite Hat in *. rewrite (hofs_lookup _ _ _ Hc) in Hh. simplify_eq.
  unfold slot_ref. by rewrite decide_True.
Qed.

Lemma mark_release_spec g l p c : sched_inv_at g l → w_ctxs (g_w g) !! p = Some c →
  ∃ mq' l' qo, mark_release (w_mq (g_w g)) (ctx_queue c) = Ok mq' ∧ glist mq' l' ∧
    mqs (w_mq (g_w g)) !! ctx_queue c = Some qo ∧
    unlink (mqs mq') = unlink (<[ctx_queue c := with_release qo true]> (mqs (w_mq (g_w g)))) ∧
    (∀ x, x ≠ ctx_queue c → x ∈ l' ↔ x ∈ l) ∧ (ctx_queue c ∈ l' ∨ ctx_queue c ∈ g_held g) ∧
    (∀ x, x ∈ g_held g → x ∉ l').
Proof.
  intros Hinv Hc. pose proof Hinv as [S1 S2 S3 S4 S5 S6 S7 S8 S9 S10 S11].
  destruct (ci_queue _ _ _ (S4 p c Hc)) as (qo & Hq & Hr & _).
  pose proof (S6 _ _ Hq) as [Q1 Q2 Q3 Q4 Q5 Q6 Q7]. specialize (Q4 Hr).
  unfold mark_release. rewrite (mq_deref_Ok _ _ qo) by (done || lia). simpl. rewrite Hr. simpl.
  pose proof (glist_store _ _ _ _ (with_release qo true) S3 Hq eq_refl) as Hgl.
  destruct (is_in_global_ qo) eqn:Eg; simpl.
  - eexists _, l, qo. split; [done|]. split_and!; try done; [by apply Q4|]. intros x Hx. by apply S7.
  - destruct (gpush_spec _ _ (ctx_queue c) (with_release qo true) Hgl) as (mq' & -> & Hl' & Hu);
      [lia|by simpl; rewrite lookup_insert_eq|intros Hin; assert (false = true) by (apply Q4; by left); done|].
    eexists _, _, qo. split; [done|]. split_and!; try done.
    + intros x Hx. rewrite elem_of_app, list_elem_of_singleton. naive_solver.
    + left. rewrite elem_of_app, list_elem_of_singleton. by right.
    + intros x Hx. rewrite elem_of_app, list_elem_of_singleton. destruct (S7 x Hx) as [_ Hn].
      intros [?| ->]; [done|]. assert (false = true) by (apply Q4; by right). done.
Qed.

Lemma destroy_ok g l p : (∀ f s w, release_func f s w = Ok w) →
  sched_inv_at g l → p ∈ g_dying g →
  ∃ g' l', exec (A_destroy p) g = Ok g' ∧ sched_inv_at g' l'.
Proof.
  intros Hframe Hinv Hp. pose proof Hinv as [S1 S2 S3 S4 S5 S6 S7 S8 S9 S10 S11].
  destruct (S9 p Hp) as [c Hc]. pose proof (S4 p c Hc) as [C1 C2 C3 C4 [mi Hmi] C6].
  simpl. unfold destroy_service. rewrite (ctx_deref_Ok _ _ c) by (done || lia). simpl.
  rewrite Hmi, Hframe. simpl.
  destruct (mark_release_spec g l p c Hinv Hc) as (mq' & l' & qo & -> & Hl' & Hq & Hu & Hx & Hself & Hheld).
  simpl. eexists _, l'. split; [done|].
  apply (proj2 C4) in Hp as Hzero.
  assert (Hsr : slot_ref (g_w g) p c = 0) by (unfold slot_ref in *; case_decide; lia).
  assert (Hm0 : multiplicity p (g_refs g) = 0%nat) by lia.
  assert (Hhof : hofs (w_with_svc_count (w_with_ctxs (w_with_mq (g_w g) mq') (delete p (w_ctxs (g_w g))))
                        (w_svc_count (g_w g) - 1)) = delete p (hofs (g_w g))).
  { unfold hofs. simpl. apply fmap_delete. }
  destruct (slots_wf_agree (hofs (g_w g)) (delete p (hofs (g_w g))) (w_slots (g_w g)) S1) as [Hwf Hfind].
  { intros i Hi Hne. apply lookup_delete_ne. intros He.
    pose proof (slot_holds g l i p c Hinv Hc Hi ltac:(lia) (eq_sym He)). lia. }
  assert (Hqx : ∀ x xo, mqs mq' !! x = Some xo → ∃ xo0, with_next xo 0 = with_next xo0 0 ∧
    ((x = ctx_queue c ∧ xo0 = with_release qo true) ∨ (x ≠ ctx_queue c ∧ mqs (w_mq (g_w g)) !! x = Some xo0))).
  { intros x xo Hxo. destruct (unlink_lookup _ _ _ _ (eq_sym Hu) Hxo) as (xo0 & Hx0 & He).
    exists xo0. split; [by symmetry|]. apply lookup_insert_Some in Hx0 as [[<- <-]|[? ?]]; [by left|].
    right. by split. }
  split; simpl; rewrite ?Hhof; try done.
  - intros x cx [Hne Hcx]%lookup_delete_Some. destruct (S4 x cx Hcx) as [D1 D2 D3 D4 D5 (y & Hy & Hyr & Hyh)].
    split; unfold slot_ref in *; simpl; rewrite ?Hhof, ?Hfind; try done.
    + rewrite D4, elem_of_difference, elem_of_singleton. naive_solver.
    + assert (ctx_queue cx ≠ ctx_queue c) by (intros He; by apply Hne, (S5 p x c cx)).
      assert (Hy' : <[ctx_queue c := with_release qo true]> (mqs (w_mq (g_w g))) !! ctx_queue cx = Some y)
        by (by rewrite lookup_insert_ne).
      destruct (unlink_lookup _ _ _ _ Hu Hy') as (y' & Hy'' & He%with_next_eq).
      exists y'. split; [done|]. by rewrite He.
  - intros x y cx cy [_ Hcx]%lookup_delete_Some [_ Hcy]%lookup_delete_Some. by apply S5.
  - intros x xo Hxo. destruct (Hqx x xo Hxo) as (xo0 & He & Hcase).
    apply (queue_inv_link _ _ _ xo0); [done|].
    destruct Hcase as [[-> ->]|[Hne Hx0]].
    + destruct (S6 _ _ Hq) as [Q1 Q2 Q3 Q4 Q5 Q6 Q7]. split; simpl; try done. by destruct Q2; split.
    + destruct (S6 _ _ Hx0) as [Q1 Q2 Q3 Q4 Q5 Q6 Q7]. split; simpl; try done; rewrite ?Hx by done; try done.
      intros Hr. destruct (Q7 Hr) as (y & cy & Hy & Hqy). exists y, cy. split; [|done].
      rewrite lookup_delete_ne; [done|]. intros ->. simplify_eq.
  - intros x Hxh. split; [|by apply Hheld]. destruct (S7 x Hxh) as [[xo Hxo] _].
    assert (is_Some (<[ctx_queue c := with_release qo true]> (mqs (w_mq (g_w g))) !! x)) as [y Hy]
      by (apply lookup_insert_is_Some'; eauto).
    destruct (unlink_lookup _ _ _ _ Hu Hy) as (? & ? & _). eauto.
  - intros x Hxr. destruct (decide (x = p)) as [->|].
    + rewrite elem_of_multiplicity in Hxr. lia.
    + rewrite lookup_delete_ne by done. by apply S8.
  - intros x [Hxd Hne]%elem_of_difference. rewrite elem_of_singleton in Hne.
    rewrite lookup_delete_ne by done. by apply S9.
  - rewrite S10, map_size_delete_Some by eauto.
    assert (size (w_ctxs (g_w g)) ≠ 0%nat) by (apply map_size_ne_0_lookup; eauto). lia.
Qed.

Lemma unregister_ok g l h : sched_inv_at g l →
  ∃ g', exec (A_unregister h) g = Ok g' ∧ sched_inv_at g' l.
Proof.
  intros Hinv. simpl. unfold unregister_slot.
  destruct (lookup_slot g l h Hinv) as [(_ & p' & -> & Hp')|(Hp & -> & c & Hc & Hh & Hci)]; simpl.
  { assert (Hg : g = mkG (g_w g) (g_refs g) (g_held g) (g_dying g)) by (by destruct g).
    destruct Hp' as [->|(c & Hp' & -> & Hne)]; simpl.
    - eexists; split; [done|]. by rewrite <- Hg.
    - rewrite (proj2 (Z.eqb_neq _ _)) by done. simpl. rewrite (proj2 (Z.eqb_neq _ _)) by done. simpl.
      eexists; split; [done|]. by rewrite <- Hg. }
  set (p := slot_find (hofs (g_w g)) (w_slots (g_w g)) h) in *.
  pose proof Hinv as [S1 S2 S3 S4 S5 S6 S7 S8 S9 S10 S11].
  rewrite (proj2 (Z.eqb_neq _ _)) by done.
  rewrite (ctx_deref_Ok _ _ c) by done. simpl. rewrite Hh, Z.eqb_refl. simpl.
  destruct (slot_clear_spec _ _ h S1 Hp) as (st' & -> & Hwf' & Hsz & Hseed & _ & Hfind). simpl.
  destruct (remove_names_map _ h S2) as (nt' & -> & Hnw & _ & _). simpl.
  rewrite (proj2 (Z.eqb_neq _ _)) by done. eexists; split; [done|].
  split; simpl; try done.
  - intros x cx Hx. pose proof (S4 x cx Hx) as [D1 D2 D3 D4 D5 D6].
    split; unfold slot_ref in *; simpl; change (hofs (w_with_names _ _)) with (hofs (g_w g)); try done.
    rewrite Hfind, multiplicity_disj_union. rewrite D3. destruct (decide (x = p)) as [->|Hne].
    + rewrite multiplicity_singleton_eq. rewrite Hc in Hx. injection Hx as <-. rewrite Hh.
      rewrite (decide_True (P:=h = h)) by done. rewrite (decide_False (P:=0 = p)) by (intros ?; by apply Hp).
      fold p. rewrite decide_True by done. lia.
    + rewrite multiplicity_singleton_ne by done.
      destruct (decide (ctx_svc_handle cx = h)) as [He|]; [|lia].
      rewrite He. fold p. rewrite (decide_False (P:=p = x)) by congruence.
      rewrite (decide_False (P:=0 = x)) by lia. lia.
  - intros x xo Hx. by destruct (S6 x xo Hx).
  - intros x Hx. destruct (decide (x = p)) as [->|]; [eauto|]. apply S8.
    rewrite elem_of_multiplicity, multiplicity_disj_union, multiplicity_singleton_ne in Hx by done.
    rewrite elem_of_multiplicity. lia.
Qed.

(** addresses are never reused, so a fresh one is in no slot *)
Lemma fresh_slot g l i : sched_inv_at g l → 0 <= i < svc_ctx_slot_size_ (w_slots (g_w g)) →
  slot_at (svc_ctx_slot_ (w_slots (g_w g))) i ≠ w_next (g_w g).
Proof.
  intros Hinv Hi He. pose proof (si_next _ _ Hinv).
  destruct (slot_find_at _ _ i (si_slots _ _ Hinv) Hi) as (h & Hh & _); [lia|].
  destruct (hofs_Some _ _ _ Hh) as (c & Hc & _).
  pose proof (ci_addr _ _ _ (si_ctx _ _ Hinv _ _ Hc)). lia.
Qed.

Lemma create_ok g l key svc_ptr : sched_inv_at g l →
  enabled (A_create key svc_ptr) g →
  ∃ g' l', exec (A_create key svc_ptr) g = Ok g' ∧ sched_inv_at g' l'.
Proof.
  intros Hinv ([mi Hmi] & Htrap & Hsize). pose proof Hinv as [S1 S2 S3 S4 S5 S6 S7 S8 S9 S10 Hn].
  set (w := g_w g) in *. set (p := w_next w) in *.
  assert (Hpc : w_ctxs w !! p = None).
  { destruct (w_ctxs w !! p) as [c|] eqn:E; [|done]. pose proof (ci_addr _ _ _ (S4 p c E)). fold w p in H. lia. }
  assert (Hqc : mqs (w_mq w) !! (p + 1) = None).
  { destruct (mqs (w_mq w) !! (p + 1)) as [c|] eqn:E; [|done].
    pose proof (qi_addr _ _ _ _ (S6 _ c E)). fold w p in H. lia. }
  assert (Hpr : multiplicity p (g_refs g) = 0%nat).
  { destruct (decide (p ∈ g_refs g)) as [Hin|Hin]; [destruct (S8 p Hin); congruence|].
    rewrite elem_of_multiplicity in Hin. lia. }
  assert (Hpd : p ∉ g_dying g) by (intros Hin; destruct (S9 p Hin); congruence).
  assert (Hqh : p + 1 ∉ g_held g) by (intros Hin; destruct (S7 _ Hin) as [[? ?] _]; congruence).
  assert (Hql : p + 1 ∉ l) by (intros Hin; destruct (glist_elem _ _ _ S3 Hin) as [_ [? ?]]; congruence).
  simpl. unfold create_context. fold w. simpl. fold p.
  set (c0 := mkCtx key svc_ptr 0 0 0 0 "" 0 0 2 false false 0 0 0 (w_profile w)).
  set (w1 := ctx_store (w_with_next w (p + 1)) p c0).
  assert (Hh1 : hofs w1 = <[p := 0]> (hofs w)) by (unfold hofs; simpl; by rewrite fmap_insert).
  destruct (slots_wf_agree (hofs w) (hofs w1) (w_slots w) S1) as [Hwf1 Hfind1].
  { intros i Hi Hne. rewrite Hh1, lookup_insert_ne; [done|]. intros He.
    by apply (fresh_slot g l i Hinv Hi). }
  destruct (register_service_spec (hofs w1) (handle_at w1)) with (st := w_slots w) (ctx := p)
    as (h & st' & Hreg & Hhr & Hwf2 & Hfree & Hseed & Hfind); try done.
  { intros x hx Hx. destruct (hofs_Some _ _ _ Hx) as (cx & Hcx & <-). unfold handle_at.
    rewrite (ctx_deref_Ok _ _ cx); [done| |done].
    simpl in Hcx. apply lookup_insert_Some in Hcx as [[<- _]|[_ Hcx]]; [lia|].
    pose proof (ci_addr _ _ _ (S4 x cx Hcx)). lia. }
  { lia. }
  { intros i Hi. by apply (fresh_slot g l i). }
  change (w_slots w1) with (w_slots w). rewrite Hreg. simpl.
  eexists _, l. split; [done|]. simpl. fold p.
  set (c1 := ctx_with_queue (ctx_with_svc_handle c0 h) (p + 1)).
  match goal with |- sched_inv_at (mkG ?wx _ _ _) _ => set (w2 := wx) end.
  assert (Hctxs : w_ctxs w2 = <[p := c1]> (w_ctxs w)).
  { subst w2. simpl. by rewrite !insert_insert_eq. }
  assert (Hh2 : hofs w2 = <[p := h]> (hofs w1)).
  { unfold hofs at 1. rewrite Hctxs, fmap_insert, Hh1, insert_insert_eq. done. }
  assert (Hsl2 : w_slots w2 = st') by done.
  assert (Hfind2 : ∀ h', slot_find (hofs w2) st' h' = if decide (h' = h) then p else slot_find (hofs w) (w_slots w) h').
  { intros h'. rewrite Hh2, Hfind. case_decide; [done|]. apply Hfind1. }
  assert (Hfree' : slot_find (hofs w) (w_slots w) h = 0) by (by rewrite <- Hfind1).
  split; try done.
  - change (slots_wf (hofs w2) st'). by rewrite Hh2.
  - simpl. by apply glist_alloc.
  - cbn [g_w g_refs g_held g_dying]. rewrite Hctxs. intros x cx Hx. apply lookup_insert_Some in Hx as [[<- <-]|[Hne Hx]].
    + split; simpl; try done; try lia.
      * unfold slot_ref. simpl. rewrite Hfind2, (decide_True (P:=h = h)) by done. rewrite decide_True by done.
        rewrite multiplicity_disj_union, multiplicity_singleton_eq. fold w. lia.
      * exists (create h). by rewrite lookup_insert_eq.
    + pose proof (S4 x cx Hx) as [D1 D2 D3 D4 D5 (y & Hy & ? & ?)]. fold w in D1, D3, D5, Hy.
      split; simpl; try done; try lia.
      * unfold slot_ref in *. rewrite Hfind2.
        rewrite multiplicity_disj_union, multiplicity_singleton_ne by done. rewrite D3.
        destruct (decide (ctx_svc_handle cx = h)) as [->|]; [|lia].
        rewrite Hfree'. rewrite (decide_False (P:=p = x)), (decide_False (P:=0 = x)) by (congruence || lia). lia.
      * exists y. split; [|done]. rewrite lookup_insert_ne; [done|]. intros He. congruence.
  - cbn [g_w g_refs g_held g_dying]. rewrite Hctxs. intros x y cx cy Hx Hy He.
    assert (Hfr : ∀ z cz, w_ctxs w !! z = Some cz → ctx_queue cz ≠ p + 1).
    { intros z cz Hz Hez. destruct (ci_queue _ _ _ (S4 z cz Hz)) as (y0 & Hy0 & _). fold w in Hy0. congruence. }
    apply lookup_insert_Some in Hx as [[<- <-]|[? Hx]], Hy as [[<- <-]|[? Hy]]; try done.
    + by destruct (Hfr y cy Hy).
    + by destruct (Hfr x cx Hx).
    + by apply (S5 x y cx cy).
  - simpl. intros x xo Hx. apply lookup_insert_Some in Hx as [[<- <-]|[Hne Hx]].
    + split; simpl; try done; try lia; try apply create_wf.
      * intros _. split; [|done]. intros _. right. set_solver.
      * intros _. exists p, c1. split; [|done].
        change (w_ctxs w2 !! p = Some c1). by rewrite Hctxs, lookup_insert_eq.
    + pose proof (S6 x xo Hx) as [Q1 Q2 Q3 Q4 Q5 Q6 Q7]. fold w in Q1, Q7. split; simpl; try done; try lia.
      * intros Hr. rewrite (Q4 Hr). rewrite elem_of_union, elem_of_singleton. naive_solver.
      * intros Hr. rewrite elem_of_union. destruct (Q5 Hr); auto.
      * intros Hr. destruct (Q7 Hr) as (y & cy & Hy & Hqy). exists y, cy. split; [|done].
        change (w_ctxs w2 !! y = Some cy). rewrite Hctxs, lookup_insert_ne; [done|]. intros ->. congruence.
  - simpl. intros x [->%elem_of_singleton|Hx]%elem_of_union.
    + rewrite lookup_insert_eq. eauto.
    + destruct (S7 x Hx) as [? ?]. split; [|done]. apply lookup_insert_is_Some'. by right.
  - cbn [g_w g_refs g_held g_dying]. rewrite Hctxs. intros x Hx. apply lookup_insert_is_Some'. destruct (decide (x = p)) as [->|]; [by left|].
    right. apply S8. rewrite elem_of_multiplicity, multiplicity_disj_union, multiplicity_singleton_ne in Hx by done.
    rewrite elem_of_multiplicity. lia.
  - cbn [g_w g_refs g_held g_dying]. rewrite Hctxs. intros x Hx. apply lookup_insert_is_Some'. right. by apply S9.
  - cbn [g_w]. rewrite Hctxs, map_size_insert_None by done.
    change (w_svc_count w2) with (w_svc_count w + 1). fold w in S10. rewrite S10. lia.
  - change (0 < p + 1 + 1). lia.
Qed.

(** ** Interleavings *)

(** the states the threads can reach from a node that has just started *)
Inductive reachable (mods : mod_manager) : gstate → Prop :=
  | reach_init : reachable mods (gstate_init mods)
  | reach_step g a g' : reachable mods g → enabled a g → exec a g = Ok g' → reachable mods g'.

Lemma sched_inv_init mods : sched_inv (gstate_init mods).
Proof.
  exists []. split; simpl; try done.
  - apply slots_init_wf.
  - apply glist_init.
  - intros p Hp. multiset_solver.
Qed.

Lemma exec_ok g a : (∀ f s w, release_func f s w = Ok w) → sched_inv g → enabled a g →
  ∃ g', exec a g = Ok g' ∧ sched_inv g'.
Proof.
  unfold sched_inv. intros Hframe [l Hinv] Hen. destruct a.
  - destruct (grab_ok g l svc_handle Hinv) as (? & ? & ?). eauto.
  - destruct (push_ok g l svc_ctx m Hinv Hen) as (? & ? & ? & ?). eauto.
  - destruct (release_ok g l svc_ctx Hinv Hen) as (? & ? & ?). eauto.
  - destruct (destroy_ok g l svc_ctx Hframe Hinv Hen) as (? & ? & ? & ?). eauto.
  - destruct (unregister_ok g l svc_handle Hinv) as (? & ? & ?). eauto.
  - destruct (create_ok g l mod_key svc_ptr Hinv Hen) as (? & ? & ? & ?). eauto.
  - destruct (publish_ok g l q Hinv Hen) as (? & ? & ?). eauto.
  - destruct (take_ok g l Hinv) as (? & ? & ? & ?). eauto.
  - destruct (sched_pop_ok g l q svc_ctx Hinv Hen) as (? & ? & ? & ?). eauto.
  - destruct (drop_ok g l q Hinv Hen) as (? & ? & ? & ?). eauto.
Qed.

Lemma reachable_inv mods g : (∀ f s w, release_func f s w = Ok w) → reachable mods g → sched_inv g.
Proof.
  intros Hframe. induction 1 as [|g a g' Hr IH Hen Hex]; [apply sched_inv_init|].
  destruct (exec_ok g a Hframe IH Hen) as (g'' & Hex' & Hinv). congruence.
Qed.
End scheduler.

(** ** Properties *)


(** a module table with one module, and a release function that does nothing *)
Definition mods_one : mod_manager := mkMods "" {[ "m" := mkMod "m" 1 2 3 ]}.
Definition release_nothing (f s : Z) (w : world) : result world := Ok w.

Lemma create_enabled_init : enabled (A_create "m" 5) (gstate_init mods_one).
Proof.
  split; [eexists; reflexivity|]. split; [|vm_compute; reflexivity].
  intros (_ & H & _). apply (H 1); [vm_compute; split; congruence|reflexivity].
Qed.


Fixpoint exec_all (release_func : Z → Z → world → result world) (acts : list action) (g : gstate) : result gstate :=
  match acts with
  | [] => Ok g
  | a :: acts => g <- exec release_func a g;; exec_all release_func acts g
  end.

(** a created service with one message, its queue still held by the creating thread *)
Definition example_g : gstate :=
  match exec_all release_nothing [A_create "m" 5; A_push 1 (mkMsg 9 0 0 0)] (gstate_init mods_one) with
  | Ok g => g
  | Err _ => gstate_init mods_one
  end.

Lemma example_reachable : reachable release_nothing mods_one example_g.
Proof.
  eapply (reach_step _ _ _ (A_push 1 (mkMsg 9 0 0 0))); [eapply (reach_step _ _ _ (A_create "m" 5))| |].
  - apply reach_init.
  - apply create_enabled_init.
  - vm_compute. reflexivity.
  - split; [vm_compute; repeat constructor|vm_compute; congruence].
  - vm_compute. reflexivity.
Qed.

(** C2: No service is forgotten and none runs twice at once: in every reachable state there is
    a list of queues without repetitions that the links of the global queue form, and every
    queue with pending messages is on it or held by a worker, and never both. *)
Theorem pending_scheduled_once release_func mods g : (∀ f s w, release_func f s w = Ok w) →
  reachable release_func mods g →
  ∃ l, glist (w_mq (g_w g)) l ∧ NoDup l ∧
    ∀ q qo, mqs (w_mq (g_w g)) !! q = Some qo → contents qo ≠ [] →
      (q ∈ l ∨ q ∈ g_held g) ∧ ¬ (q ∈ l ∧ q ∈ g_held g).
Proof.
  intros Hf Hr. destruct (reachable_inv release_func mods g Hf Hr) as [l Hinv].
  exists l. split; [apply Hinv|]. split; [apply (gl_nodup _ _ (si_list _ _ Hinv))|].
  intros q qo Hq Hne. pose proof (si_queue _ _ Hinv q qo Hq) as [_ _ _ Hs Hrel Hidle _]. split.
  - destruct (is_release_ qo) eqn:Er; [by apply Hrel|]. apply Hs; [done|].
    destruct (is_in_global_ qo) eqn:Eg; [done|]. by destruct Hne; apply Hidle.
  - intros [Hl Hh]. by destruct (si_held _ _ Hinv q Hh).
Qed.

Lemma pending_scheduled_once_witness :
  ∃ l, glist (w_mq (g_w example_g)) l ∧ (2 ∈ l ∨ 2 ∈ g_held example_g) ∧ ¬ (2 ∈ l ∧ 2 ∈ g_held example_g).
Proof.
  destruct (pending_scheduled_once release_nothing mods_one example_g (λ _ _ _, eq_refl) example_reachable) as (l & Hl & _ & Hall).
  exists l. split; [exact Hl|]. eapply (Hall 2); [vm_compute; reflexivity|vm_compute; congruence].
Defined.


