(* ===== verification/Manager.v ===== *)
(** * The service manager's calls as sequences of atomic actions

    [Scheduler] proves that single atomic operations keep the invariant of the
    node. Here the calls of [Service] are followed through those operations: in
    every state of the invariant they return, they keep the invariant, and their
    effect is the documented one: a message goes to the end of the receiver's
    queue or its payload is freed, an unregistered handle finds nothing, aborting
    unregisters every service. *)
From stdpp Require Import gmultiset.
From Stdlib Require Import Ascii String.
From S2P Require Import Prelude Message Timer Env MqPrivate MqGlobal HandleName HandleSlot Text ModManager Service Node Command Scheduler.
Open Scope string_scope.
Open Scope Z_scope.

(** the messages of every queue, oldest first *)
Definition contents_map (s : mq_state) : gmap Z (list service_message) := contents <$> mqs s.

(** the context registered under a handle, 0 when there is none *)
Definition svc_find (w : world) (h : Z) : Z := slot_find (hofs w) (w_slots w) h.

(** the node of [g] replaced, the threads as they are *)
Definition at_world (g : gstate) (w : world) : gstate := mkG w (g_refs g) (g_held g) (g_dying g).

(** a reference taken and dropped again *)
Lemma refs_add_sub (X : gmultiset Z) p : (X ⊎ {[+ p +]}) ∖ {[+ p +]} = X.
Proof. multiset_solver. Qed.

(** ** Queues *)

Lemma contents_map_unlink s s' : unlink (mqs s') = unlink (mqs s) → contents_map s' = contents_map s.
Proof.
  intros Hu. assert (H : ∀ t, contents_map t = contents <$> unlink (mqs t)).
  { intros t. unfold contents_map, unlink. rewrite <- map_fmap_compose. by apply map_fmap_ext. }
  by rewrite !H, Hu.
Qed.

Lemma contents_map_store s q qo : contents_map (mq_store s q qo) = <[q := contents qo]> (contents_map s).
Proof. unfold contents_map. simpl. apply fmap_insert. Qed.

Lemma mq_push_contents s l q qo m : glist s l → mqs s !! q = Some qo → q ≠ 0 → mq_wf qo →
  cap_ qo * 2 <= INT_MAX → (is_in_global_ qo = false → q ∉ l) →
  ∃ s', mq_push s q m = Ok s' ∧ contents_map s' = <[q := (contents qo ++ [m])%list]> (contents_map s).
Proof.
  intros Hl Hq Hq0 Hwf Hcap Hnl. unfold mq_push. rewrite (mq_deref_Ok _ _ qo) by done. simpl.
  destruct (enqueue_spec qo m Hwf Hcap) as (qo' & -> & _ & Hc & Hg & _ & _ & Hn & _). simpl. rewrite Hg.
  destruct (is_in_global_ qo) eqn:Eg; simpl.
  - eexists; split; [done|]. by rewrite contents_map_store, Hc.
  - destruct (gpush_spec (mq_store s q (with_in_global qo' true)) l q (with_in_global qo' true))
      as (s' & -> & _ & Hu); [by apply (glist_store _ _ _ qo)|done|by simpl; rewrite lookup_insert_eq|by apply Hnl|].
    eexists; split; [done|]. rewrite (contents_map_unlink _ _ Hu), contents_map_store.
    change (contents (with_in_global qo' true)) with (contents qo'). by rewrite Hc.
Qed.

Section manager.
Variable release_func : Z → Z → world → result world.
(** releasing the instance of a service leaves the node alone *)
Hypothesis release_frame : ∀ f s w, release_func f s w = Ok w.

(** ** [grab], [release_service] *)

Lemma grab_dead g l h : sched_inv_at g l → svc_find (g_w g) h = 0 → grab (g_w g) h = Ok (0, g_w g).
Proof.
  intros Hinv Hz. unfold grab.
  destruct (lookup_slot g l h Hinv) as [(_ & p' & -> & Hp')|(Hp & _)]; [|done]. simpl.
  destruct Hp' as [->|(c & Hp' & Hd & Hne)]; [done|].
  rewrite (proj2 (Z.eqb_neq _ _)) by done. rewrite Hd. simpl. by rewrite (proj2 (Z.eqb_neq _ _)) by done.
Qed.

Lemma find_live g l h : sched_inv_at g l → svc_find (g_w g) h ≠ 0 →
  ∃ c, w_ctxs (g_w g) !! svc_find (g_w g) h = Some c ∧ ctx_svc_handle c = h ∧ 1 <= ctx_ref c.
Proof.
  intros Hinv Hp. destruct (lookup_slot g l h Hinv) as [(Hz & _)|(_ & _ & c & Hc & Hh & Hci)]; [done|].
  exists c. split_and!; [done|done|]. rewrite (ci_ref _ _ _ Hci). unfold slot_ref. rewrite Hh.
  rewrite decide_True by done. lia.
Qed.

Lemma grab_live g l h c : sched_inv_at g l → svc_find (g_w g) h ≠ 0 →
  w_ctxs (g_w g) !! svc_find (g_w g) h = Some c →
  let w := ctx_store (g_w g) (svc_find (g_w g) h) (ctx_with_ref c (ctx_ref c + 1)) in
  grab (g_w g) h = Ok (svc_find (g_w g) h, w) ∧
  sched_inv_at (mkG w (g_refs g ⊎ {[+ svc_find (g_w g) h +]}) (g_held g) (g_dying g)) l.
Proof.
  intros Hinv Hp Hc w. destruct (lookup_slot g l h Hinv) as [(Hz & _)|(_ & Hget & c' & Hc' & Hh & _)]; [done|].
  fold (svc_find (g_w g) h) in *. rewrite Hc in Hc'. injection Hc' as <-. subst h.
  destruct (grab_ok release_func g l (ctx_svc_handle c) Hinv) as (g' & Hex & Hinv'). simpl in Hex. unfold grab in *.
  rewrite Hget in *. simpl in *. rewrite (proj2 (Z.eqb_neq _ _)) in * by done.
  rewrite (ctx_deref_Ok _ _ c) in * by done. simpl in *. rewrite Z.eqb_refl in *. simpl in *.
  unfold ctx_grab in *. rewrite (ctx_deref_Ok _ _ c) in * by done. simpl in *.
  rewrite (proj2 (Z.eqb_neq _ _)) in Hex by done. simplify_eq. done.
Qed.

(** dropping a reference: the context stays, or it is destroyed with the last one *)
Lemma release_service_ok g l p : sched_inv_at g l → p ∈ g_refs g →
  ∃ r w' l', release_service release_func (g_w g) p = Ok (r, w') ∧
    sched_inv_at (mkG w' (g_refs g ∖ {[+ p +]}) (g_held g) (g_dying g)) l' ∧
    w_slots w' = w_slots (g_w g) ∧ w_names w' = w_names (g_w g).
Proof.
  intros Hinv Hp. destruct (owned_ctx release_func g l p Hinv Hp) as (c & qo & Hc & Hci & Hp0 & _).
  destruct (release_ok release_func g l p Hinv Hp) as (g1 & Hex & Hinv1). simpl in Hex.
  unfold release_service, ref_dec in *. rewrite (ctx_deref_Ok _ _ c) in * by done. simpl in *.
  destruct (Z.eqb_spec (ctx_ref c - 1) 0) as [Hz|Hz]; simplify_eq.
  - destruct (destroy_ok release_func _ l p release_frame Hinv1) as (g2 & l2 & Hex2 & Hinv2); [set_solver|].
    simpl in Hex2. destruct (destroy_service release_func _ p) as [w2|] eqn:Hd; [|done]. simpl in Hex2.
    simplify_eq. simpl. exists 0, w2, l2. split; [done|].
    assert (Hpd : p ∉ g_dying g) by (rewrite <- (ci_dying _ _ _ Hci); lia).
    replace (({[p]} ∪ g_dying g) ∖ {[p]}) with (g_dying g) in Hinv2 by set_solver. split; [done|].
    unfold destroy_service in Hd. inv_ok. destruct (service_mod_map_ _ !! _); [|done].
    rewrite release_frame in Ha0. inv_ok. done.
  - by exists p, (ctx_store (g_w g) p (ctx_with_ref c (ctx_ref c - 1))), l.
Qed.

(** ** [push_service_message] *)

Lemma push_dead g l h m : sched_inv_at g l → svc_find (g_w g) h = 0 →
  push_service_message release_func (g_w g) h m = Ok (-1, g_w g).
Proof. intros Hinv Hz. unfold push_service_message. by rewrite (grab_dead g l). Qed.

(** the queue of a registered service can take another message *)
Definition has_room (w : world) (h : Z) : Prop :=
  match mqs (w_mq w) !! queue_of w (svc_find w h) with
  | Some qo => cap_ qo <= 2 ^ 29
  | None => True
  end.

Lemma push_live g l h m : sched_inv_at g l → svc_find (g_w g) h ≠ 0 → has_room (g_w g) h →
  ∃ mq' ms, push_service_message release_func (g_w g) h m = Ok (0, w_with_mq (g_w g) mq') ∧
    contents_map (w_mq (g_w g)) !! queue_of (g_w g) (svc_find (g_w g) h) = Some ms ∧
    contents_map mq' = <[queue_of (g_w g) (svc_find (g_w g) h) := (ms ++ [m])%list]> (contents_map (w_mq (g_w g))) ∧
    sched_inv (at_world g (w_with_mq (g_w g) mq')).
Proof.
  intros Hinv Hp Hroom. destruct (find_live g l h Hinv Hp) as (c & Hc & Hh & Href).
  set (p := svc_find (g_w g) h) in *. unfold has_room, queue_of in *. fold p in Hroom. rewrite Hc in *.
  destruct (grab_live g l h c Hinv Hp Hc) as [Hg Hinv1]. fold p in Hg, Hinv1.
  set (c1 := ctx_with_ref c (ctx_ref c + 1)) in *. set (w1 := ctx_store (g_w g) p c1) in *.
  set (g1 := mkG w1 (g_refs g ⊎ {[+ p +]}) (g_held g) (g_dying g)) in *.
  assert (Hc1 : w_ctxs (g_w g1) !! p = Some c1) by (simpl; by rewrite lookup_insert_eq).
  assert (Hpr : p ∈ g_refs g1) by (simpl; multiset_solver).
  destruct (owned_ctx release_func g1 l p Hinv1 Hpr) as (c' & qo & Hc' & _ & Hp0 & Hq & Hr & Hqi & Hq0).
  rewrite Hc1 in Hc'. injection Hc' as <-. change (ctx_queue c1) with (ctx_queue c) in *.
  change (w_mq (g_w g1)) with (w_mq (g_w g)) in Hq. rewrite Hq in Hroom.
  destruct (mq_push_contents (w_mq (g_w g)) l (ctx_queue c) qo m) as (mq' & Hpush & Hcm).
  { apply (si_list _ _ Hinv). } { done. } { done. } { apply Hqi. } { unfold INT_MAX. lia. }
  { intros Hng Hin. assert (is_in_global_ qo = true) by (apply Hqi; [done|by left]). congruence. }
  destruct (push_ok release_func g1 l p m Hinv1) as (g2 & l2 & Hex2 & Hinv2).
  { split; [done|]. unfold queue_of. rewrite Hc1. change (ctx_queue c1) with (ctx_queue c).
    change (w_mq (g_w g1)) with (w_mq (g_w g)). by rewrite Hq. }
  simpl in Hex2. rewrite (ctx_deref_Ok w1 p c1) in Hex2 by done. simpl in Hex2. rewrite Hpush in Hex2. simpl in Hex2.
  injection Hex2 as <-. set (g2 := mkG (w_with_mq w1 mq') _ _ _) in *.
  destruct (release_ok release_func g2 l2 p Hinv2) as (g3 & Hex3 & Hinv3); [done|].
  exists mq', (contents qo). unfold push_service_message. rewrite Hg. simpl.
  rewrite (proj2 (Z.eqb_neq _ _)) by done. rewrite (ctx_deref_Ok w1 p c1) by done. simpl.
  rewrite Hpush. simpl. unfold release_service. simpl in Hex3. unfold ref_dec in *.
  rewrite (ctx_deref_Ok (w_with_mq w1 mq') p c1) in * by done. simpl in *.
  replace (ctx_ref c + 1 - 1) with (ctx_ref c) in * by lia.
  rewrite (proj2 (Z.eqb_neq (ctx_ref c) 0)) in * by lia. simpl in *. simplify_eq.
  assert (Hw : ctx_store (w_with_mq w1 mq') p (ctx_with_ref c1 (ctx_ref c)) = w_with_mq (g_w g) mq').
  { unfold ctx_store, w_with_ctxs, w_with_mq. simpl. rewrite insert_insert_eq, insert_id; [done|].
    rewrite Hc. by destruct c. }
  rewrite Hw in *. split_and!; try done.
  - unfold contents_map. by rewrite lookup_fmap, Hq.
  - exists l2. rewrite refs_add_sub in Hinv3. done.
Qed.
(** ** [unregister_service] *)

Lemma unregister_slot_spec g l h : sched_inv_at g l →
  ∃ w1, unregister_slot (g_w g) h = Ok (svc_find (g_w g) h, w1) ∧
    svc_ctx_slot_size_ (w_slots w1) = svc_ctx_slot_size_ (w_slots (g_w g)) ∧
    ∀ i, 0 <= i < svc_ctx_slot_size_ (w_slots (g_w g)) →
      slot_at (svc_ctx_slot_ (w_slots w1)) i =
        if decide (svc_find (g_w g) h ≠ 0 ∧ i = h mod svc_ctx_slot_size_ (w_slots (g_w g))) then 0
        else slot_at (svc_ctx_slot_ (w_slots (g_w g))) i.
Proof.
  intros Hinv. unfold unregister_slot.
  destruct (lookup_slot g l h Hinv) as [(Hz & p' & Hget & Hp')|(Hp & Hget & c & Hc & Hh & Hci)];
    fold (svc_find (g_w g) h) in *; rewrite Hget; simpl.
  - exists (g_w g). rewrite Hz. split_and!; [|done|by intros; rewrite decide_False by naive_solver].
    destruct Hp' as [->|(c & Hp' & -> & Hne)]; [done|].
    rewrite (proj2 (Z.eqb_neq _ _)) by done. simpl. by rewrite (proj2 (Z.eqb_neq _ _)) by done.
  - rewrite (proj2 (Z.eqb_neq _ _)) by done. rewrite (ctx_deref_Ok _ _ c) by done. simpl.
    rewrite Hh, Z.eqb_refl. simpl.
    destruct (slot_clear_spec _ _ h (si_slots _ _ Hinv) Hp) as (st' & -> & _ & Hsz & _ & Hat & _). simpl.
    destruct (remove_names_map _ h (si_names _ _ Hinv)) as (nt' & -> & _). simpl.
    eexists; split; [done|]. split; [done|]. intros i Hi. simpl. rewrite Hat by done.
    repeat case_decide; naive_solver.
Qed.

Lemma unregister_service_ok g l h : sched_inv_at g l →
  ∃ w' l', unregister_service release_func (g_w g) h = Ok (if svc_find (g_w g) h =? 0 then 0 else 1, w') ∧
    sched_inv_at (at_world g w') l' ∧
    svc_ctx_slot_size_ (w_slots w') = svc_ctx_slot_size_ (w_slots (g_w g)) ∧
    ∀ i, 0 <= i < svc_ctx_slot_size_ (w_slots (g_w g)) →
      slot_at (svc_ctx_slot_ (w_slots w')) i =
        if decide (svc_find (g_w g) h ≠ 0 ∧ i = h mod svc_ctx_slot_size_ (w_slots (g_w g))) then 0
        else slot_at (svc_ctx_slot_ (w_slots (g_w g))) i.
Proof.
  intros Hinv. destruct (unregister_slot_spec g l h Hinv) as (w1 & Hu & Hsz & Hat).
  destruct (unregister_ok release_func g l h Hinv) as (g1 & Hex & Hinv1). simpl in Hex.
  unfold unregister_service. rewrite Hu in *. simpl in *.
  destruct (Z.eqb_spec (svc_find (g_w g) h) 0) as [Hz|Hz]; simplify_eq; simpl.
  - by exists w1, l.
  - destruct (release_service_ok _ _ (svc_find (g_w g) h) Hinv1) as (r & w2 & l2 & Hr & Hinv2 & Hs & _);
      [simpl; multiset_solver|]. simpl in Hr, Hinv2, Hs. rewrite Hr. simpl. exists w2, l2.
    rewrite Hs. split_and!; try done.
    rewrite refs_add_sub in Hinv2. done.
Qed.

(** ** [unregister_service_all] *)

(** every slot below [n] is empty *)
Definition slots_clear (w : world) (n : Z) : Prop :=
  ∀ i, 0 <= i < n → slot_at (svc_ctx_slot_ (w_slots w)) i = 0.

Lemma unregister_pass_ok fuel g l i cnt : sched_inv_at g l → 0 <= i <= svc_ctx_slot_size_ (w_slots (g_w g)) →
  svc_ctx_slot_size_ (w_slots (g_w g)) - i <= Z.of_nat fuel → slots_clear (g_w g) i →
  ∃ n w' l', unregister_pass release_func fuel i cnt (g_w g) = Ok (n, w') ∧ sched_inv_at (at_world g w') l' ∧
    svc_ctx_slot_size_ (w_slots w') = svc_ctx_slot_size_ (w_slots (g_w g)) ∧
    slots_clear w' (svc_ctx_slot_size_ (w_slots w')) ∧
    (slots_clear (g_w g) (svc_ctx_slot_size_ (w_slots (g_w g))) → n = cnt).
Proof.
  revert g l i cnt. induction fuel as [|fuel IH]; intros g l i cnt Hinv Hi Hf Hcl.
  { replace i with (svc_ctx_slot_size_ (w_slots (g_w g))) in * by lia. simpl. rewrite Z.ltb_irrefl.
    exists cnt, (g_w g), l. split_and!; try done. by destruct g. }
  simpl. destruct (Z.ltb_spec i (svc_ctx_slot_size_ (w_slots (g_w g)))) as [Hlt|Hge].
  2:{ replace i with (svc_ctx_slot_size_ (w_slots (g_w g))) in * by lia.
      exists cnt, (g_w g), l. split_and!; try done. by destruct g. }
  pose proof (sw_len _ _ (si_slots _ _ Hinv)) as Hlen. rewrite slot_at_get by lia. rewrite bind_Ok.
  set (p := slot_at (svc_ctx_slot_ (w_slots (g_w g))) i). destruct (Z.eqb_spec p 0) as [Hp|Hp].
  - rewrite !bind_Ok. rewrite Z.eqb_refl, bind_Ok. apply (IH g l); [done|lia|lia|].
    intros j Hj. destruct (decide (j = i)) as [->|]; [done|]. apply Hcl. lia.
  - destruct (slot_find_at _ _ i (si_slots _ _ Hinv) ltac:(lia) Hp) as (h & Hh & Hrange & Hfind). fold p in Hh, Hfind.
    destruct (hofs_Some _ _ _ Hh) as (c & Hc & <-). rewrite (ctx_deref_Ok _ _ c) by done. rewrite !bind_Ok.
    rewrite (proj2 (Z.eqb_neq _ _)) by lia.
    destruct (unregister_service_ok g l (ctx_svc_handle c) Hinv) as (w1 & l1 & Hu & Hinv1 & Hsz & Hat).
    rewrite Hu, bind_Ok. unfold svc_find in *. rewrite Hfind in *. rewrite (proj2 (Z.eqb_neq p 0)) by done.
    assert (Hmod : ctx_svc_handle c mod svc_ctx_slot_size_ (w_slots (g_w g)) = i).
    { destruct (sw_slot _ _ (si_slots _ _ Hinv) i ltac:(lia) Hp) as (h' & Hh' & _ & Hm). fold p in Hh'. congruence. }
    destruct (IH (at_world g w1) l1 (i + 1) (cnt + 1) Hinv1) as (n & w2 & l2 & Hps & Hinv2 & Hsz2 & Hcl2 & _).
    { simpl. lia. } { simpl. lia. }
    { intros j Hj. simpl. rewrite Hat by lia. destruct (decide (p ≠ 0 ∧ _)) as [|Hd]; [done|].
      apply Hcl. enough (j ≠ i) by lia. intros ->. by apply Hd. }
    simpl in Hps. change (1 =? 0) with false. cbv iota. rewrite Hps. exists n, w2, l2. split; [done|].
    split; [done|]. simpl in Hsz2. split; [congruence|]. split; [done|]. intros Hall.
    destruct Hp. apply Hall. lia.
Qed.

(** Two passes are enough: the second one finds every slot empty. *)
Lemma unregister_service_all_ok g l : sched_inv_at g l →
  ∃ w', unregister_service_all release_func 2 (g_w g) = Ok w' ∧ sched_inv (at_world g w') ∧
    ∀ h, svc_find w' h = 0.
Proof.
  intros Hinv. simpl. pose proof (slots_size _ _ (si_slots _ _ Hinv)) as [Hs0 _].
  destruct (unregister_pass_ok (Z.to_nat (svc_ctx_slot_size_ (w_slots (g_w g)))) g l 0 0 Hinv)
    as (n & w1 & l1 & -> & Hinv1 & Hsz1 & Hcl1 & _); [lia|lia|intros i Hi; lia|]. rewrite bind_Ok.
  assert (Hnone : ∀ w, 0 < svc_ctx_slot_size_ (w_slots w) →
            slots_clear w (svc_ctx_slot_size_ (w_slots w)) → ∀ h, svc_find w h = 0).
  { intros w Hpos Hcl h. unfold svc_find, slot_find. rewrite Hcl by (apply Z.mod_pos_bound; lia).
    rewrite decide_False; [done|]. naive_solver. }
  destruct (Z.eqb_spec n 0).
  { exists w1. split_and!; [done|by exists l1|]. apply Hnone; [lia|done]. }
  destruct (unregister_pass_ok (Z.to_nat (svc_ctx_slot_size_ (w_slots w1))) (at_world g w1) l1 0 0 Hinv1)
    as (n2 & w2 & l2 & Hps & Hinv2 & Hsz2 & Hcl2 & Hn2); simpl in *; [lia|lia|intros i Hi; lia|].
  rewrite Hps, bind_Ok, (Hn2 Hcl1). simpl. exists w2. split_and!; [done|by exists l2|].
  apply Hnone; [lia|done].
Qed.

(** ** [send] *)

Lemma has_tag_dont_copy t : 0 <= t < 256 →
  has_tag (t + MESSAGE_TAG_DONT_COPY) MESSAGE_TAG_DONT_COPY = true ∧
  has_tag (t + MESSAGE_TAG_DONT_COPY) MESSAGE_TAG_ALLOC_SESSION = false ∧
  Z.land (t + MESSAGE_TAG_DONT_COPY) 255 = t ∧
  has_tag t MESSAGE_TAG_DONT_COPY = false ∧ has_tag t MESSAGE_TAG_ALLOC_SESSION = false ∧ Z.land t 255 = t.
Proof.
  intros Ht. assert (∃ n : nat, (n < 256)%nat ∧ t = Z.of_nat n) as (n & Hn & ->) by (exists (Z.to_nat t); lia).
  clear Ht. revert n Hn.
  assert (Hall : forallb (λ n, let t := Z.of_nat n in
     has_tag (t + MESSAGE_TAG_DONT_COPY) MESSAGE_TAG_DONT_COPY &&
     negb (has_tag (t + MESSAGE_TAG_DONT_COPY) MESSAGE_TAG_ALLOC_SESSION) &&
     (Z.land (t + MESSAGE_TAG_DONT_COPY) 255 =? t) &&
     negb (has_tag t MESSAGE_TAG_DONT_COPY) && negb (has_tag t MESSAGE_TAG_ALLOC_SESSION) &&
     (Z.land t 255 =? t)) (seq 0 256) = true) by (vm_compute; reflexivity).
  intros n Hn. rewrite forallb_forall in Hall. specialize (Hall n). rewrite in_seq in Hall.
  specialize (Hall ltac:(lia)). cbv zeta in Hall. rewrite !andb_true_iff, !negb_true_iff, !Z.eqb_eq in Hall. tauto.
Qed.

(** the message [send] builds without copying *)
Definition sent_message (src dst_type session msg msg_sz : Z) : service_message :=
  mkMsg src session msg (pack_size dst_type msg_sz).

Lemma send_dont_copy w svc_ctx src dst t session msg msg_sz :
  0 <= t < 256 → 0 <= msg_sz < 2 ^ 56 → src ≠ 0 → dst ≠ 0 →
  send release_func w svc_ctx src dst (t + MESSAGE_TAG_DONT_COPY) session msg msg_sz =
  (let* (r, w) := push_service_message release_func w dst (sent_message src t session msg msg_sz) in
   if negb (r =? 0) then w <- free_block w msg;; Ok (-1, w) else Ok (session, w)).
Proof.
  intros Ht Hsz Hsrc Hdst. destruct (has_tag_dont_copy t Ht) as (H1 & H2 & H3 & _). unfold send.
  rewrite (proj2 (size_too_large_spec msg_sz ltac:(lia))) by lia. cbv zeta. rewrite H1, H2, H3. simpl rbind.
  rewrite (proj2 (Z.eqb_neq dst 0)), (proj2 (Z.eqb_neq src 0)) by done. done.
Qed.

(** a copying [send] allocates a terminated copy and then sends it *)
Lemma send_copy w svc_ctx src dst t session msg bytes :
  0 <= t < 256 → Z.of_nat (length bytes) < 2 ^ 56 → src ≠ 0 → dst ≠ 0 → msg ≠ 0 →
  w_blocks w !! msg = Some bytes →
  send release_func w svc_ctx src dst t session msg (Z.of_nat (length bytes)) =
  send release_func (alloc_block w (bytes ++ [0])%list).2 svc_ctx src dst (t + MESSAGE_TAG_DONT_COPY) session
    (w_next w) (Z.of_nat (length bytes)).
Proof.
  intros Ht Hsz Hsrc Hdst Hmsg Hb. rewrite send_dont_copy by (done || lia).
  destruct (has_tag_dont_copy t Ht) as (_ & _ & _ & H1 & H2 & H3). unfold send.
  rewrite (proj2 (size_too_large_spec (Z.of_nat (length bytes)) ltac:(lia))) by lia. cbv zeta. rewrite H1, H2, H3. simpl rbind.
  rewrite (proj2 (Z.eqb_neq msg 0)) by done. simpl. unfold read_block.
  rewrite (proj2 (Z.eqb_neq msg 0)) by done. rewrite Hb, Z.leb_refl. simpl.
  rewrite Nat2Z.id, firstn_all. rewrite (proj2 (Z.eqb_neq dst 0)), (proj2 (Z.eqb_neq src 0)) by done. done.
Qed.

(** [send] hands the payload over: to the end of the receiver's queue, or back to the
    allocator when there is no receiver. *)
Lemma send_owned g l svc_ctx src dst t session msg msg_sz bytes :
  sched_inv_at g l → 0 <= t < 256 → 0 <= msg_sz < 2 ^ 56 → src ≠ 0 → dst ≠ 0 → msg ≠ 0 →
  w_blocks (g_w g) !! msg = Some bytes → has_room (g_w g) dst →
  let m := sent_message src t session msg msg_sz in
  if svc_find (g_w g) dst =? 0 then
    send release_func (g_w g) svc_ctx src dst (t + MESSAGE_TAG_DONT_COPY) session msg msg_sz =
    Ok (-1, w_with_blocks (g_w g) (delete msg (w_blocks (g_w g))))
  else
    ∃ w' q ms, send release_func (g_w g) svc_ctx src dst (t + MESSAGE_TAG_DONT_COPY) session msg msg_sz = Ok (session, w') ∧
      q = queue_of (g_w g) (svc_find (g_w g) dst) ∧
      contents_map (w_mq (g_w g)) !! q = Some ms ∧
      contents_map (w_mq w') = <[q := (ms ++ [m])%list]> (contents_map (w_mq (g_w g))) ∧
      w_blocks w' = w_blocks (g_w g) ∧ sched_inv (at_world g w').
Proof.
  intros Hinv Ht Hsz Hsrc Hdst Hmsg Hb Hroom m. rewrite send_dont_copy by done.
  destruct (Z.eqb_spec (svc_find (g_w g) dst) 0) as [Hz|Hz].
  - rewrite (push_dead g l) by done. simpl. unfold free_block.
    rewrite (proj2 (Z.eqb_neq msg 0)) by done. by rewrite Hb.
  - destruct (push_live g l dst m Hinv Hz Hroom) as (mq' & ms & Hp & Hms & Hcm & Hinv').
    subst m. rewrite Hp. simpl. eexists _, _, ms. split_and!; done.
Qed.

(** ** The log *)

(** A log text of up to 64K - 4 bytes fits the buffer of [_log], a longer one is
    written past its end. *)
Lemma log_buffer_bound log_level msg : is_ok (log_buffer log_level msg) = (strlen msg + LOG_LEVEL_LEN <=? MAX_LOG_MSG_SIZE).
Proof.
  unfold log_buffer, log_len. rewrite !length_app. simpl length.
  replace (Z.of_nat (4 + (length (bytes_of msg) + 1))) with (strlen msg + 5) by (rewrite <- bytes_of_length; lia).
  unfold LOG_LEVEL_LEN, MAX_LOG_MSG_SIZE.
  destruct (Z.ltb_spec (64 * 1024) (4 + strlen msg)), (Z.leb_spec (strlen msg + 4) (64 * 1024)); try lia.
  - by rewrite (proj2 (Z.leb_gt _ _)) by lia.
  - by rewrite (proj2 (Z.leb_le _ _)) by lia.
Qed.

(** payloads and addresses come and go without touching the invariant *)
Lemma sched_inv_memory g l w' : sched_inv_at g l →
  w_mq w' = w_mq (g_w g) → w_ctxs w' = w_ctxs (g_w g) → w_slots w' = w_slots (g_w g) → w_names w' = w_names (g_w g) →
  w_mods w' = w_mods (g_w g) → w_svc_count w' = w_svc_count (g_w g) → w_next (g_w g) <= w_next w' →
  sched_inv_at (at_world g w') l.
Proof.
  destruct w'. simpl. intros [S1 S2 S3 S4 S5 S6 S7 S8 S9 S10 S11] -> -> -> -> -> -> Hn. split; try done.
  - intros p c Hc. destruct (S4 p c Hc) as [C1 C2 C3 C4 C5 C6]. split; try done. simpl. lia.
  - intros q qo Hq. destruct (S6 q qo Hq) as [Q1 Q2 Q3 Q4 Q5 Q6 Q7]. split; try done. simpl. lia.
  - simpl. lia.
Qed.

(** the handle that [_log] gives as the source: 0 for the node itself *)
Definition log_source (w : world) (p src : Z) : Prop :=
  p = 0 ∧ src = 0 ∨ ∃ c, p ≠ 0 ∧ w_ctxs w !! p = Some c ∧ src = ctx_svc_handle c.

(** [_log] queues the text for the logger, as a text message from the service. *)
Lemma log_delivers g l p src log_level msg : sched_inv_at g l → log_source (g_w g) p src → w_log_handle (g_w g) ≠ 0 →
  svc_find (g_w g) (w_log_handle (g_w g)) ≠ 0 → has_room (g_w g) (w_log_handle (g_w g)) →
  0 < strlen msg <= MAX_LOG_MSG_SIZE - LOG_LEVEL_LEN →
  ∃ w' q ms, _log release_func (g_w g) p log_level msg = Ok w' ∧
    q = queue_of (g_w g) (svc_find (g_w g) (w_log_handle (g_w g))) ∧
    contents_map (w_mq (g_w g)) !! q = Some ms ∧
    contents_map (w_mq w') = <[q := (ms ++ [mkMsg src 0 (w_next (g_w g)) (strlen msg + LOG_LEVEL_LEN)])%list]>
                               (contents_map (w_mq (g_w g))) ∧
    w_blocks w' !! w_next (g_w g) = Some (int_bytes log_level ++ bytes_of msg ++ [0])%list.
Proof.
  intros Hinv Hs Hh Hfind Hroom Hlen. unfold _log. rewrite (proj2 (Z.eqb_neq _ 0)) by done. rewrite bind_Ok. cbv zeta.
  rewrite (proj2 (Z.eqb_neq _ 0)) by done. rewrite (proj2 (Z.leb_gt (strlen msg) 0)) by lia.
  assert (Hb : log_buffer log_level msg = Ok (int_bytes log_level ++ bytes_of msg ++ [0])%list).
  { pose proof (log_buffer_bound log_level msg) as Hbb. rewrite (proj2 (Z.leb_le _ _)) in Hbb by lia.
    unfold log_buffer in *. cbv zeta in *. by destruct (_ <=? _). }
  rewrite Hb, bind_Ok. cbn [alloc_block].
  set (w0 := w_with_blocks _ _).
  assert (Hsrc : (if negb (p =? 0) then c <- ctx_deref w0 p;; Ok (ctx_svc_handle c) else Ok 0) = Ok src).
  { destruct Hs as [[-> ->]|(c & Hp & Hc & ->)]; [done|]. rewrite (proj2 (Z.eqb_neq p 0)) by done. by rewrite (ctx_deref_Ok w0 p c). }
  rewrite Hsrc.
  assert (Hp : pack_size (msg_type_code SERVICE_MSG_TYPE_TEXT) (log_len msg) = strlen msg + LOG_LEVEL_LEN).
  { rewrite pack_size_add; simpl; unfold log_len, MAX_LOG_MSG_SIZE, LOG_LEVEL_LEN in *;
      destruct (Z.ltb_spec (64 * 1024) (4 + strlen msg)); lia. }
  rewrite bind_Ok, Hp.
  assert (Hinv0 : sched_inv_at (at_world g w0) l) by (apply sched_inv_memory; simpl; done || lia).
  destruct (push_live (at_world g w0) l (w_log_handle (g_w g)) (mkMsg src 0 (w_next (g_w g)) (strlen msg + LOG_LEVEL_LEN)) Hinv0 Hfind Hroom) as (mq' & ms & Hpush & Hms & Hcm & _).
  simpl g_w in *. eexists (w_with_mq w0 mq'), _, ms. split; [|split; [done|split; [exact Hms|split; [exact Hcm|]]]].
  - change (w_next (w_with_log_handle (g_w g) (w_log_handle (g_w g)))) with (w_next (g_w g)). rewrite Hpush. done.
  - simpl. apply lookup_insert_eq.
Qed.
End manager.

(** ** Properties *)


(** the node of [example_g] with a payload at address 50 *)
Definition example_payload : gstate :=
  at_world example_g (w_with_blocks (g_w example_g) {[ 50 := [1; 2; 3] ]}).

Lemma example_payload_inv : sched_inv example_payload.
Proof.
  destruct (reachable_inv release_nothing mods_one example_g (λ _ _ _, eq_refl) example_reachable) as [l Hinv].
  exists l. destruct Hinv as [S1 S2 S3 S4 S5 S6 S7 S8 S9 S10 S11]. split; try done.
  - intros p c Hc. by destruct (S4 p c Hc).
  - intros q qo Hq. by destruct (S6 q qo Hq).
Qed.


(** Aborting terminates and unregisters everything: in every state of the invariant
    [unregister_service_all] returns after at most two passes over the slot array, the invariant
    holds, and no handle finds a service any more. *)
Theorem unregister_all_terminates release_func g : (∀ f s w, release_func f s w = Ok w) → sched_inv g →
  ∃ w', unregister_service_all release_func 2 (g_w g) = Ok w' ∧ sched_inv (at_world g w') ∧ ∀ h, svc_find w' h = 0.
Proof. intros Hf [l Hinv]. by apply (unregister_service_all_ok release_func Hf g l). Qed.

Lemma unregister_all_terminates_witness :
  svc_find (g_w example_payload) 1 = 1 ∧
  ∃ w', unregister_service_all release_nothing 2 (g_w example_payload) = Ok w' ∧
    sched_inv (at_world example_payload w') ∧ ∀ h, svc_find w' h = 0.
Proof.
  split; [reflexivity|]. apply (unregister_all_terminates release_nothing example_payload); [reflexivity|apply example_payload_inv].
Defined.


Lemma strlen_concat_replicate n : strlen (string_of_list_ascii (replicate n "x"%char)) = Z.of_nat n.
Proof. unfold strlen. f_equal. induction n as [|n IH]; [done|]. simpl. by rewrite IH. Qed.


(** A log text within the limit reaches the logger: the level, the text and a terminator
    are queued for it as one text message, whose size is what the logger reads. *)
Theorem log_reaches_logger release_func g log_level msg : (∀ f s w, release_func f s w = Ok w) → sched_inv g →
  w_log_handle (g_w g) ≠ 0 → svc_find (g_w g) (w_log_handle (g_w g)) ≠ 0 → has_room (g_w g) (w_log_handle (g_w g)) →
  0 < strlen msg <= MAX_LOG_MSG_SIZE - LOG_LEVEL_LEN →
  ∃ w' q ms, _log release_func (g_w g) 0 log_level msg = Ok w' ∧
    q = queue_of (g_w g) (svc_find (g_w g) (w_log_handle (g_w g))) ∧ contents_map (w_mq (g_w g)) !! q = Some ms ∧
    contents_map (w_mq w') = <[q := (ms ++ [mkMsg 0 0 (w_next (g_w g)) (strlen msg + LOG_LEVEL_LEN)])%list]>
                               (contents_map (w_mq (g_w g))) ∧
    w_blocks w' !! w_next (g_w g) = Some (int_bytes log_level ++ bytes_of msg ++ [0])%list.
Proof. intros Hf [l Hinv] Hh Hfind Hroom Hlen. apply (log_delivers release_func Hf g l); try done. by left. Qed.

(** the node of [example_g] with its service as the logger *)
Definition example_logger : gstate := at_world example_g (w_with_log_handle (g_w example_g) 1).

Lemma example_logger_inv : sched_inv example_logger.
Proof.
  destruct (reachable_inv release_nothing mods_one example_g (λ _ _ _, eq_refl) example_reachable) as [l Hinv].
  exists l. destruct Hinv as [S1 S2 S3 S4 S5 S6 S7 S8 S9 S10 S11]. split; try done.
  - intros p c Hc. by destruct (S4 p c Hc).
  - intros q qo Hq. by destruct (S6 q qo Hq).
Qed.

Lemma log_reaches_logger_witness :
  ∃ w' q ms, _log release_nothing (g_w example_logger) 0 LOG_LEVEL_WARN "hi" = Ok w' ∧ q = 2 ∧
    contents_map (w_mq w') = <[q := (ms ++ [mkMsg 0 0 3 6])%list]> (contents_map (w_mq (g_w example_logger))) ∧
    w_blocks w' !! 3 = Some [3; 0; 0; 0; 104; 105; 0].
Proof.
  destruct (log_reaches_logger release_nothing example_logger LOG_LEVEL_WARN "hi" (λ _ _ _, eq_refl) example_logger_inv)
    as (w' & q & ms & H1 & H2 & _ & H4 & H5); [vm_compute; congruence..|vm_compute; split; congruence|].
  exists w', q, ms. split; [exact H1|]. split; [exact H2|]. split; [exact H4|exact H5].
Defined.
