(* ===== verification/Dispatch.v ===== *)
(** * What one call of [node::dispatch_message] does

    For a service whose callback sends nothing, one call by a worker that holds
    the service's queue consumes a number of the oldest messages that depends on
    the length of the queue and the worker's weight, never faults, keeps the
    scheduling invariant, and leaves the queue scheduled. *)
From stdpp Require Import gmultiset.
From Stdlib Require Import Ascii String.
From S2P Require Import Prelude Message Timer Env MqPrivate MqGlobal HandleName HandleSlot Text ModManager Service Node Command Scheduler Manager.
Open Scope string_scope.
Open Scope Z_scope.

(** the messages one call consumes from a queue of [len] *)
Definition batch (len weight : Z) : Z :=
  if weight <? 0 then 1 else Z.max 1 (Z.shiftr (len - 1) weight).

(** the parts of a node the scheduling invariant speaks about *)
Record core_eq (w w' : world) : Prop := {
  ce_mq : w_mq w' = w_mq w;
  ce_ctxs : w_ctxs w' = w_ctxs w;
  ce_next : w_next w' = w_next w;
  ce_slots : w_slots w' = w_slots w;
  ce_names : w_names w' = w_names w;
  ce_count : w_svc_count w' = w_svc_count w;
  ce_mods : w_mods w' = w_mods w
}.

#[export] Instance core_eq_equiv : Equivalence core_eq.
Proof.
  split.
  - intros w. by split.
  - intros w w' []. by split.
  - intros w1 w2 w3 [] []. split; congruence.
Qed.

#[export] Instance ctx_deref_proper : Proper (core_eq ==> eq ==> eq) ctx_deref.
Proof. intros w w' [] p ? <-. unfold ctx_deref. by rewrite ce_ctxs0. Qed.

Lemma sched_inv_core g w l : core_eq (g_w g) w → sched_inv_at g l → sched_inv_at (at_world g w) l.
Proof.
  intros [H1 H2 H3 H4 H5 H6 H7] [S1 S2 S3 S4 S5 S6 S7 S8 S9 S10 S11].
  assert (Hh : hofs w = hofs (g_w g)) by (unfold hofs; by rewrite H2).
  split; simpl; rewrite ?Hh, ?H1, ?H2, ?H3, ?H4, ?H5, ?H6, ?H7; try done.
  - intros p c Hc. destruct (S4 p c Hc) as [C1 C2 C3 C4 C5 C6].
    split; unfold slot_ref in *; simpl; rewrite ?Hh, ?H1, ?H3, ?H4, ?H7; done.
  - intros q qo Hq. destruct (S6 q qo Hq) as [Q1 Q2 Q3 Q4 Q5 Q6 Q7].
    split; simpl; rewrite ?H2, ?H3; done.
Qed.

Lemma u32_s32 a : u32 (s32 a) = u32 a.
Proof.
  unfold u32, s32. rewrite Zminus_mod_idemp_l. f_equal. lia.
Qed.

Lemma u32_add_l a b : u32 (u32 a + b) = u32 (a + b).
Proof. unfold u32. apply Z.add_mod_idemp_l. lia. Qed.

(** two steps of a wrapping version counter *)
Lemma version_step v x : u32 (s32 (s32 (v + 1) + 1) + x) = u32 (v + (2 + x)).
Proof.
  unfold u32, s32. rewrite <- Z.add_mod_idemp_l by lia. Z.to_euclidean_division_equations. lia.
Qed.

(** a context after [n] more messages *)
Record ctx_processed (n : Z) (c c' : service_context) : Prop := {
  cp_handle : ctx_svc_handle c' = ctx_svc_handle c;
  cp_queue : ctx_queue c' = ctx_queue c;
  cp_mod : ctx_svc_mod_ptr c' = ctx_svc_mod_ptr c;
  cp_ref : ctx_ref c' = ctx_ref c;
  cp_callback : ctx_msg_callback c' = ctx_msg_callback c;
  cp_log : ctx_log_fd c' = ctx_log_fd c;
  cp_count : u32 (ctx_message_count c') = u32 (ctx_message_count c + n)
}.

Lemma ctx_processed_trans a b c c' c'' : ctx_processed a c c' → ctx_processed b c' c'' → ctx_processed (a + b) c c''.
Proof.
  intros [H1 H2 H3 H4 H5 H6 H7] [G1 G2 G3 G4 G5 G6 G7]. split; try congruence.
  rewrite G7, <- u32_add_l, H7, u32_add_l. f_equal. lia.
Qed.

Section dispatch.
Variable release_func : Z → Z → world → result world.
Hypothesis release_frame : ∀ f s w, release_func f s w = Ok w.
Variable thread_clock : world → Z * Z.
Variable msg_callback : Z → Z → Z → Z → Z → Z → Z → Z → world → result (Z * world).
(** the callback sends nothing: it may use the payload memory, the files, the timer and
    the environment; when it returns 0 the payload is still allocated *)
Hypothesis callback_quiet : ∀ cb p ud ty s src d sz w,
  ∃ r w', msg_callback cb p ud ty s src d sz w = Ok (r, w') ∧ core_eq w w' ∧
    (r = 0 → d = 0 ∨ is_Some (w_blocks w' !! d)).

Notation _do_dispatch_message := (_do_dispatch_message msg_callback thread_clock).
Notation process_message := (process_message release_func msg_callback thread_clock).
Notation dispatch_loop := (dispatch_loop release_func msg_callback thread_clock).
Notation dispatch_message := (dispatch_message release_func msg_callback thread_clock).

Lemma free_ok w p : p = 0 ∨ is_Some (w_blocks w !! p) → ∃ w', free_block w p = Ok w' ∧ core_eq w w'.
Proof.
  intros Hp. unfold free_block. destruct (Z.eqb_spec p 0); [by exists w|].
  destruct Hp as [?|[b ->]]; [done|]. by eexists.
Qed.

Lemma do_dispatch_ok w p c m : p ≠ 0 → w_ctxs w !! p = Some c → ctx_log_fd c = 0 →
  ∃ w' c', _do_dispatch_message w p m = Ok w' ∧ core_eq (ctx_store w p c') w' ∧ ctx_processed 1 c c'.
Proof.
  intros Hp Hc Hlog. unfold Node._do_dispatch_message. rewrite (ctx_deref_Ok _ _ c) by done. rewrite bind_Ok, Hlog.
  cbn [Z.eqb negb]. rewrite bind_Ok. cbv zeta. set (c1 := ctx_with_message_count c _). set (w1 := ctx_store w p c1).
  assert (Hc1 : w_ctxs w1 !! p = Some c1) by apply lookup_insert_eq.
  destruct (ctx_profile c).
  - rewrite (ctx_deref_Ok w1 p c1), bind_Ok by done. set (c2 := ctx_with_cpu_start c1 _). set (w2 := ctx_store w1 p c2).
    edestruct callback_quiet as (r & w3 & -> & Hce & Hfree). rewrite bind_Ok. fold w2 in Hce.
    assert (Hd3 : ctx_deref w3 p = Ok c2) by (rewrite <- Hce; apply ctx_deref_Ok; [done|apply lookup_insert_eq]).
    rewrite Hd3, bind_Ok, bind_Ok.
    set (c3 := ctx_with_cpu_cost c2 _). set (w4 := ctx_store w3 p c3).
    assert (Hce4 : core_eq (ctx_store w p c3) w4).
    { destruct Hce as [E1 E2 E3 E4 E5 E6 E7]. split; simpl in *; try done. rewrite E2, !insert_insert_eq. done. }
    destruct (Z.eqb_spec r 0) as [Hr|Hr].
    + destruct (free_ok w4 (data_ptr m) (Hfree Hr)) as (w5 & -> & Hce5). exists w5, c3.
      split; [done|]. split; [by rewrite Hce4|split; try done; apply u32_s32].
    + exists w4, c3. split; [done|]. split; [done|split; try done; apply u32_s32].
  - edestruct callback_quiet as (r & w3 & -> & Hce & Hfree). rewrite bind_Ok. fold w1 in Hce.
    destruct (Z.eqb_spec r 0) as [Hr|Hr].
    + destruct (free_ok w3 (data_ptr m) (Hfree Hr)) as (w5 & -> & Hce5). exists w5, c1.
      split; [done|]. split; [by transitivity w3|split; try done; apply u32_s32].
    + exists w3, c1. split; [done|]. split; [done|split; try done; apply u32_s32].
Qed.

(** a worker is dispatching the service at [p]: it holds a reference and the queue, whose
    messages are [ms], below the overload threshold *)
Record dispatching (g : gstate) (l : list Z) (p : Z) (c : service_context) (ms : list service_message) : Prop := {
  dp_inv : sched_inv_at g l;
  dp_ctx : w_ctxs (g_w g) !! p = Some c;
  dp_ref : p ∈ g_refs g;
  dp_held : ctx_queue c ∈ g_held g;
  dp_queue : ∃ qo, mqs (w_mq (g_w g)) !! ctx_queue c = Some qo ∧ contents qo = ms ∧ overload_ qo = 0 ∧
               Z.of_nat (length ms) <= overload_threshold_ qo;
  dp_callback : ctx_msg_callback c ≠ 0;
  dp_log : ctx_log_fd c = 0
}.

Lemma dispatch_step g l p c m ms mon h : dispatching g l p c (m :: ms) →
  ∃ mq1 w' c' l', mq_pop (w_mq (g_w g)) (ctx_queue c) service_message_default = Ok (false, m, mq1) ∧
    mq_length mq1 (ctx_queue c) = Ok (Z.of_nat (length ms)) ∧
    process_message (w_with_mq (g_w g) mq1) mon h p (ctx_queue c) m =
      Ok (process_end (process_begin mon (src_svc_handle m) h), w') ∧
    dispatching (at_world g w') l' p c' ms ∧ ctx_processed 1 c c'.
Proof.
  intros [Hinv Hc Hp Hh (qo & Hq & Hms & Hov & Hthr) Hcb Hlog].
  destruct (owned_ctx release_func g l p Hinv Hp) as (c0 & qo0 & Hc0 & Hci & Hp0 & Hq0 & Hr & Hqi & Hqz). simplify_eq.
  pose proof Hqi as [Q1 Q2 Q3 Q4 Q5 Q6 Q7]. simpl in Hthr.
  destruct (pop_nonempty qo service_message_default m ms Q2 Q3 Hms)
    as (qo1 & Hpop & Hwf1 & Hms1 & _ & _ & _ & Hn1 & _ & Hthr1 & Hov1).
  rewrite (proj2 (Z.ltb_ge _ _)), Hov in Hov1 by lia.
  destruct (sched_pop_ok release_func g l (ctx_queue c) p Hinv) as (g1 & l1 & Hex & Hinv1).
  { split_and!; try done. unfold queue_of. by rewrite Hc. }
  unfold exec, mq_pop in *. rewrite (mq_deref_Ok _ _ qo) in * by done. simpl in *. rewrite Hpop in *. simpl in *.
  set (mq1 := mq_store (w_mq (g_w g)) (ctx_queue c) qo1) in *. injection Hex as <-.
  assert (Hq1 : mqs mq1 !! ctx_queue c = Some qo1) by apply lookup_insert_eq.
  assert (Hst : mq_store mq1 (ctx_queue c) qo1 = mq1) by (unfold mq1, mq_store; simpl; by rewrite insert_insert_eq).
  set (w1 := w_with_mq (g_w g) mq1) in *.
  destruct (do_dispatch_ok w1 p c m Hp0 Hc Hlog) as (w' & c' & Hdd & Hce & Hcp).
  exists mq1, w', c', l1. split; [done|]. split.
  { unfold mq_length. rewrite (mq_deref_Ok _ _ qo1) by done. simpl. by rewrite length_contents, Hms1. }
  split.
  { unfold Node.process_message, mq_overload. change (w_mq w1) with mq1. rewrite (mq_deref_Ok _ _ qo1), bind_Ok by done.
    unfold overload. rewrite Hov1. cbn [Z.eqb negb fst snd]. rewrite bind_Ok. cbn [w_mq w_with_mq].
    rewrite Hst. cbn [Z.eqb negb]. rewrite bind_Ok. change (w_with_mq (w_with_mq (g_w g) mq1) mq1) with w1.
    rewrite (ctx_deref_Ok w1 p c), bind_Ok by done. rewrite (proj2 (Z.eqb_neq _ _)) by done. by rewrite Hdd. }
  split; [|done]. pose proof Hcp as [G1 G2 G3 G4 G5 G6 G7]. pose proof (si_ctx _ _ Hinv1 p c Hc) as [D1 D2 D3 D4 D5 D6].
  assert (Hinv2 : sched_inv_at (mkG (ctx_store w1 p c') (g_refs g) (g_held g) (g_dying g)) l1).
  { apply (sched_inv_ctx _ l1 p c c' _ _ Hinv1); try done; simpl in *; by rewrite G4. }
  split; simpl.
  - by apply (sched_inv_core (mkG (ctx_store w1 p c') (g_refs g) (g_held g) (g_dying g))).
  - rewrite (ce_ctxs _ _ Hce). apply lookup_insert_eq.
  - done.
  - by rewrite G2.
  - exists qo1. rewrite (ce_mq _ _ Hce), G2. done.
  - by rewrite G5.
  - by rewrite G6.
Qed.

(** the iterations after the first one: the bound is fixed *)
Lemma dispatch_rest j fuel i n weight g l p c ms mon h : dispatching g l p c ms →
  Z.max 0 (n - i) = Z.of_nat j → (0 < i ∨ weight < 0) → 0 <= i → (j <= length ms)%nat → (j <= fuel)%nat →
  ∃ mon' w' c' l', dispatch_loop fuel i n weight (g_w g) mon h p (ctx_queue c) = Ok (inr tt, mon', w') ∧
    dispatching (at_world g w') l' p c' (drop j ms) ∧ ctx_processed (Z.of_nat j) c c' ∧
    u32 (last_version_ mon') = u32 (last_version_ mon + 2 * Z.of_nat j).
Proof.
  revert fuel i g l c ms mon. induction j as [|j IH]; intros fuel i g l c ms mon Hd Hn Hi Hi0 Hj Hf.
  { exists mon, (g_w g), c, l. split; [|split_and!; [by destruct g|split; try done; f_equal; lia|f_equal; lia]].
    destruct fuel; simpl; by rewrite (proj2 (Z.ltb_ge i n)) by lia. }
  destruct ms as [|m ms]; [simpl in Hj; lia|]. destruct fuel as [|fuel]; [lia|].
  destruct (dispatch_step g l p c m ms mon h Hd) as (mq1 & w1 & c1 & l1 & Hpop & Hlen & Hproc & Hd1 & Hcp1).
  cbn [Node.dispatch_loop]. rewrite (proj2 (Z.ltb_lt i n)) by lia. rewrite Hpop, bind_Ok.
  replace ((i =? 0) && (0 <=? weight)) with false by (destruct (Z.eqb_spec i 0), (Z.leb_spec 0 weight); simpl; lia || done).
  rewrite bind_Ok, Hproc, bind_Ok. set (mon1 := process_end _).
  destruct (IH fuel (i + 1) (at_world g w1) l1 c1 ms mon1 Hd1) as (mon' & w' & c' & l' & Hl & Hd' & Hcp' & Hv');
    [lia|by left; lia|lia|simpl in Hj; lia|lia|].
  rewrite (cp_queue _ _ _ Hcp1) in Hl. exists mon', w', c', l'. split_and!; try done.
  - replace (Z.of_nat (S j)) with (1 + Z.of_nat j) by lia. by apply (ctx_processed_trans _ _ _ c1).
  - rewrite Hv'. unfold mon1. cbn [process_end process_begin last_version_]. rewrite version_step. f_equal. lia.
Qed.

(** the whole loop *)
Lemma dispatch_loop_batch fuel weight g l p c ms mon h : dispatching g l p c ms → ms ≠ [] →
  (length ms <= fuel)%nat →
  let k := batch (Z.of_nat (length ms)) weight in
  ∃ mon' w' c' l', dispatch_loop fuel 0 1 weight (g_w g) mon h p (ctx_queue c) = Ok (inr tt, mon', w') ∧
    dispatching (at_world g w') l' p c' (drop (Z.to_nat k) ms) ∧ ctx_processed k c c' ∧
    u32 (last_version_ mon') = u32 (last_version_ mon + 2 * k).
Proof.
  intros Hd Hne Hf k. destruct (Z.ltb_spec weight 0) as [Hw|Hw].
  { assert (Hk : k = 1) by (unfold k, batch; by rewrite (proj2 (Z.ltb_lt _ _)) by lia). rewrite Hk.
    apply (dispatch_rest 1 fuel 0 1 weight g l p c ms mon h Hd); try lia; destruct ms; simpl in *; try done; lia. }
  assert (Hk : k = Z.max 1 (Z.shiftr (Z.of_nat (length ms) - 1) weight))
    by (unfold k, batch; by rewrite (proj2 (Z.ltb_ge _ _)) by lia).
  clearbody k. destruct ms as [|m ms]; [done|]. destruct fuel as [|fuel]; [simpl in Hf; lia|].
  destruct (dispatch_step g l p c m ms mon h Hd) as (mq1 & w1 & c1 & l1 & Hpop & Hlen & Hproc & Hd1 & Hcp1).
  cbn [Node.dispatch_loop]. rewrite (proj2 (Z.ltb_lt 0 1)) by lia. rewrite Hpop, bind_Ok.
  rewrite (proj2 (Z.leb_le 0 weight)) by lia. cbn [Z.eqb andb]. change (w_mq (w_with_mq (g_w g) mq1)) with mq1.
  rewrite Hlen, bind_Ok, bind_Ok, Hproc, bind_Ok. set (mon1 := process_end _).
  set (n := Z.shiftr (Z.of_nat (length ms)) weight).
  replace (Z.of_nat (length (m :: ms)) - 1) with (Z.of_nat (length ms)) in Hk by (simpl; lia). fold n in Hk.
  assert (Hn : 0 <= n <= Z.of_nat (length ms)).
  { unfold n. rewrite Z.shiftr_div_pow2 by lia. split; [apply Z.div_pos; lia|].
    apply Z.div_le_upper_bound; [lia|]. assert (1 <= 2 ^ weight) by (apply Z.pow_le_mono_r with (b := 0); lia). nia. }
  destruct (dispatch_rest (Z.to_nat (n - 1)) fuel 1 n weight (at_world g w1) l1 p c1 ms mon1 h Hd1)
    as (mon' & w' & c' & l' & Hl & Hd' & Hcp' & Hv'); try lia; [simpl in Hf; lia|].
  rewrite (cp_queue _ _ _ Hcp1) in Hl. simpl g_w in Hl. change (0 + 1) with 1. rewrite Hl. exists mon', w', c', l'.
  split; [done|]. replace (Z.to_nat k) with (S (Z.to_nat (n - 1))) by lia.
  replace k with (1 + Z.of_nat (Z.to_nat (n - 1))) by lia. split_and!; [done|by apply (ctx_processed_trans _ _ _ c1)|].
  rewrite Hv'. unfold mon1. cbn [process_end process_begin last_version_]. rewrite version_step. f_equal. lia.
Qed.

(** dropping a reference that is not the last one *)
Lemma release_not_last g l p c : sched_inv_at g l → p ∈ g_refs g → w_ctxs (g_w g) !! p = Some c → 2 <= ctx_ref c →
  let w' := ctx_store (g_w g) p (ctx_with_ref c (ctx_ref c - 1)) in
  release_service release_func (g_w g) p = Ok (p, w') ∧
  sched_inv_at (mkG w' (g_refs g ∖ {[+ p +]}) (g_held g) (g_dying g)) l.
Proof.
  intros Hinv Hp Hc Href w'. pose proof (ci_addr _ _ _ (si_ctx _ _ Hinv p c Hc)) as Hp0.
  destruct (release_ok release_func g l p Hinv Hp) as (g1 & Hex & Hinv1). simpl in Hex.
  unfold release_service, ref_dec in *. rewrite (ctx_deref_Ok _ _ c) in * by (done || lia). simpl in *.
  rewrite (proj2 (Z.eqb_neq (ctx_ref c - 1) 0)) in * by lia. simplify_eq. done.
Qed.

(** the end of [dispatch_message]: take the next queue and put this one back behind it *)
Lemma dispatch_next g l q : sched_inv_at g l → q ∈ g_held g →
  ∃ nq mq l' , gpop (w_mq (g_w g)) = Ok (nq, mq) ∧
    ∃ mq', (if negb (nq =? 0) then gpush mq q else Ok mq) = Ok mq' ∧
    let q' := if negb (nq =? 0) then nq else q in
    q' ≠ 0 ∧ contents_map mq' = contents_map (w_mq (g_w g)) ∧
    sched_inv_at (mkG (w_with_mq (g_w g) mq') (g_refs g) ({[q']} ∪ g_held g ∖ {[q]}) (g_dying g)) l'.
Proof.
  intros Hinv Hq. destruct (si_held _ _ Hinv q Hq) as [[qo Hqo] Hnl].
  pose proof (qi_addr _ _ _ _ (si_queue _ _ Hinv _ _ Hqo)) as Hq0.
  destruct (take_ok release_func g l Hinv) as (g1 & l1 & Hex & Hinv1). simpl in Hex.
  pose proof (gpop_spec _ _ (si_list _ _ Hinv)) as Hpop. destruct l as [|nq l].
  - rewrite Hpop in *. simpl in Hex. exists 0, (w_mq (g_w g)), l1. split; [done|].
    exists (w_mq (g_w g)). split; [done|]. simpl. split; [lia|]. split; [done|]. simplify_eq.
    by replace ({[q]} ∪ g_held g ∖ {[q]}) with (g_held g) by (apply set_eq; intros x; destruct (decide (x = q)); set_solver).
  - destruct Hpop as (Hn0 & mq & Hpop & Hl & Hu). rewrite Hpop in *. simpl in Hex.
    rewrite (proj2 (Z.eqb_neq nq 0)) in Hex by done. simplify_eq.
    destruct (publish_ok release_func _ _ q Hinv1) as (g2 & Hex2 & Hinv2); [simpl; set_solver|].
    simpl in Hex2. destruct (gpush mq q) as [mq'|] eqn:Hpush; [|done]. simpl in Hex2. simplify_eq.
    exists nq, mq, (l1 ++ [q])%list. split; [done|]. exists mq'.
    rewrite (proj2 (Z.eqb_neq nq 0)) by done. cbn [negb]. split; [done|]. split; [done|].
    assert (Hne : nq ≠ q) by (intros ->; apply Hnl; set_solver). split.
    + destruct (glist_elem _ _ nq (si_list _ _ Hinv)) as [_ _]; [set_solver|].
      assert (Hqm : is_Some (mqs mq !! q)).
      { destruct (unlink_lookup _ _ _ _ Hu Hqo) as (y & Hy & _). eauto. }
      destruct Hqm as [y Hy].
      destruct (gpush_spec mq l q y Hl) as (mq2 & Hp2 & _ & Hu2); [lia|done|set_solver|]. rewrite Hpush in Hp2. simplify_eq.
      by rewrite (contents_map_unlink _ _ Hu2), (contents_map_unlink _ _ Hu).
    + by replace ({[nq]} ∪ g_held g ∖ {[q]}) with (({[nq]} ∪ g_held g) ∖ {[q]})
        by (apply set_eq; intros x; destruct (decide (x = q)); set_solver).
Qed.

Lemma dispatch_message_batch g l q qo p c mon weight :
  sched_inv_at g l → q ∈ g_held g → mqs (w_mq (g_w g)) !! q = Some qo →
  svc_find (g_w g) (svc_handle_ qo) = p → p ≠ 0 → w_ctxs (g_w g) !! p = Some c → ctx_queue c = q →
  ctx_msg_callback c ≠ 0 → ctx_log_fd c = 0 → contents qo ≠ [] → overload_ qo = 0 →
  Z.of_nat (length (contents qo)) <= overload_threshold_ qo →
  let k := batch (Z.of_nat (length (contents qo))) weight in
  ∃ q' mon' w', dispatch_message (g_w g) mon q weight = Ok (q', mon', w') ∧ q' ≠ 0 ∧
    contents_map (w_mq w') !! q = Some (drop (Z.to_nat k) (contents qo)) ∧
    u32 (last_version_ mon') = u32 (last_version_ mon + 2 * k) ∧
    sched_inv (mkG w' (g_refs g) ({[q']} ∪ g_held g ∖ {[q]}) (g_dying g)).
Proof.
  intros Hinv Hq Hqo Hf Hp Hc Hcq Hcb Hlog Hne Hov Hthr k.
  pose proof (si_queue _ _ Hinv _ _ Hqo) as Hqi. pose proof (qi_addr _ _ _ _ Hqi) as Hq0.
  unfold Node.dispatch_message. rewrite (proj2 (Z.eqb_neq q 0)) by lia. rewrite bind_Ok.
  change (w_with_mq (g_w g) (w_mq (g_w g))) with (set_mq (g_w g) (get_mq (g_w g))). rewrite set_get_mq.
  rewrite (proj2 (Z.eqb_neq q 0)) by lia. rewrite (mq_deref_Ok _ _ qo), bind_Ok by (done || lia).
  destruct (grab_live release_func g l (svc_handle_ qo) c Hinv) as [Hg Hinv1]; [congruence|congruence|].
  rewrite Hf in *. rewrite Hg, bind_Ok. rewrite (proj2 (Z.eqb_neq p 0)) by done.
  set (c1 := ctx_with_ref c (ctx_ref c + 1)) in *. set (w1 := ctx_store (g_w g) p c1) in *.
  set (g1 := mkG w1 (g_refs g ⊎ {[+ p +]}) (g_held g) (g_dying g)) in *.
  assert (Hd : dispatching g1 l p c1 (contents qo)).
  { split; simpl; try done.
    - apply lookup_insert_eq.
    - multiset_solver.
    - by rewrite Hcq.
    - exists qo. by rewrite Hcq. }
  assert (Hfuel : (length (contents qo) <= queue_fuel w1 q)%nat).
  { unfold queue_fuel. change (w_mq w1) with (w_mq (g_w g)). rewrite Hqo, contents_length. lia. }
  destruct (dispatch_loop_batch (queue_fuel w1 q) weight g1 l p c1 (contents qo) mon (svc_handle_ qo) Hd Hne Hfuel)
    as (mon' & w2 & c2 & l2 & Hloop & Hd2 & Hcp & Hv).
  fold k in Hd2, Hcp, Hv. change (ctx_queue c1) with (ctx_queue c) in Hloop. rewrite Hcq in Hloop.
  change (g_w g1) with w1 in Hloop. rewrite Hloop, bind_Ok. destruct Hd2 as [Hinv2 Hc2 Hp2 Hh2 (qo2 & Hqo2 & Hms2 & _) _ _].
  pose proof (cp_queue _ _ _ Hcp) as Hcq2. change (ctx_queue c1) with (ctx_queue c) in Hcq2. rewrite Hcq in Hcq2.
  simpl g_w in *. rewrite (ctx_deref_Ok w2 p c2), bind_Ok by done. rewrite Hcq2, Z.eqb_refl. cbn [massert]. rewrite bind_Ok.
  destruct (dispatch_next _ _ q Hinv2) as (nq & mq & l3 & Hpop & mq' & Hpush & Hq' & Hcm & Hinv3); [by rewrite <- Hcq2|].
  simpl g_w in *. rewrite Hpop, bind_Ok. cbv zeta. change (w_mq (w_with_mq w2 mq)) with mq. rewrite Hpush, bind_Ok.
  change (w_with_mq (w_with_mq w2 mq) mq') with (w_with_mq w2 mq').
  set (q' := if negb (nq =? 0) then nq else q) in *.
  destruct (find_live g l (svc_handle_ qo) Hinv) as (c0 & Hc0 & _ & Href); [congruence|]. rewrite Hf, Hc in Hc0.
  injection Hc0 as <-. pose proof (cp_ref _ _ _ Hcp) as Hr2. simpl in Hr2.
  destruct (release_not_last _ l3 p c2 Hinv3 Hp2 Hc2) as [Hrel Hinv4]; [lia|].
  simpl g_w in *. rewrite Hrel, bind_Ok. eexists q', mon', _. split; [done|]. split; [done|]. split; [|split; [done|]].
  - change (contents_map mq' !! q = Some (drop (Z.to_nat k) (contents qo))). rewrite Hcm. unfold contents_map.
    rewrite <- Hcq2, lookup_fmap, Hqo2. simpl. by rewrite Hms2.
  - exists l3. simpl in Hinv4.
    by rewrite refs_add_sub in Hinv4.
Qed.
End dispatch.

(** ** The monitor *)

(** what a worker tells its monitor: the begin of a message, or its end *)
Inductive mon_event :=
  | M_begin (src dst : Z)
  | M_end.

Fixpoint mon_run (evs : list mon_event) (mon : service_monitor) : service_monitor :=
  match evs with
  | [] => mon
  | M_begin src dst :: evs => mon_run evs (process_begin mon src dst)
  | M_end :: evs => mon_run evs (process_end mon)
  end.

Lemma mon_run_version evs mon :
  check_version_ (mon_run evs mon) = check_version_ mon ∧
  u32 (last_version_ (mon_run evs mon)) = u32 (last_version_ mon + Z.of_nat (length evs)).
Proof.
  revert mon. induction evs as [|ev evs IH]; intros mon; [split; [done|f_equal; simpl; lia]|].
  destruct ev as [src dst|]; simpl; [destruct (IH (process_begin mon src dst)) as [-> ->]|destruct (IH (process_end mon)) as [-> ->]];
    (split; [done|]); cbn [process_begin process_end last_version_];
    rewrite <- u32_add_l, u32_s32, u32_add_l; f_equal; lia.
Qed.

Lemma process_blocked_marks release_func g l h c : (∀ f s w, release_func f s w = Ok w) → sched_inv_at g l →
  svc_find (g_w g) h ≠ 0 → w_ctxs (g_w g) !! svc_find (g_w g) h = Some c →
  process_blocked_service release_func (g_w g) h =
    Ok (ctx_store (g_w g) (svc_find (g_w g) h) (ctx_with_is_blocked c true)).
Proof.
  intros Hf Hinv Hp Hc. destruct (find_live g l h Hinv Hp) as (c0 & Hc0 & _ & Href). simplify_eq.
  destruct (grab_live release_func g l h c Hinv Hp Hc) as [Hg _]. unfold process_blocked_service. rewrite Hg. simpl.
  set (p := svc_find (g_w g) h) in *. rewrite (proj2 (Z.eqb_neq p 0)) by done.
  rewrite (ctx_deref_Ok _ _ (ctx_with_ref c (ctx_ref c + 1))) by (done || apply lookup_insert_eq). simpl.
  unfold release_service, ref_dec.
  rewrite (ctx_deref_Ok _ _ (ctx_with_is_blocked (ctx_with_ref c (ctx_ref c + 1)) true)) by (done || apply lookup_insert_eq).
  simpl. replace (ctx_ref c + 1 - 1) with (ctx_ref c) by lia. rewrite (proj2 (Z.eqb_neq (ctx_ref c) 0)) by lia. simpl.
  f_equal. unfold ctx_store, w_with_ctxs. simpl. rewrite !insert_insert_eq. by destruct c.
Qed.

(** ** Properties *)

(** a callback that sends nothing: it may use the payload memory, the files, the timer and the
    environment, and when it returns 0 the payload is still allocated *)
Definition quiet_callback (msg_callback : Z → Z → Z → Z → Z → Z → Z → Z → world → result (Z * world)) : Prop :=
  ∀ cb p ud ty s src d sz w, ∃ r w', msg_callback cb p ud ty s src d sz w = Ok (r, w') ∧ core_eq w w' ∧
    (r = 0 → d = 0 ∨ is_Some (w_blocks w' !! d)).

(** a worker holds the queue [q] of the registered service at [p], which has messages below the
    overload threshold, a callback and no log file *)
Record dispatchable (g : gstate) (q : Z) (qo : mq_private) (p : Z) (c : service_context) : Prop := {
  db_inv : sched_inv g;
  db_held : q ∈ g_held g;
  db_queue : mqs (w_mq (g_w g)) !! q = Some qo;
  db_find : svc_find (g_w g) (svc_handle_ qo) = p;
  db_live : p ≠ 0;
  db_ctx : w_ctxs (g_w g) !! p = Some c;
  db_own : ctx_queue c = q;
  db_callback : ctx_msg_callback c ≠ 0;
  db_log : ctx_log_fd c = 0;
  db_pending : contents qo ≠ [];
  db_overload : overload_ qo = 0;
  db_below : Z.of_nat (length (contents qo)) <= overload_threshold_ qo
}.

Lemma dispatchable_batch release_func msg_callback thread_clock g q qo p c mon weight :
  (∀ f s w, release_func f s w = Ok w) → quiet_callback msg_callback → dispatchable g q qo p c →
  let k := batch (Z.of_nat (length (contents qo))) weight in
  ∃ q' mon' w', dispatch_message release_func msg_callback thread_clock (g_w g) mon q weight = Ok (q', mon', w') ∧ q' ≠ 0 ∧
    contents_map (w_mq w') !! q = Some (drop (Z.to_nat k) (contents qo)) ∧
    u32 (last_version_ mon') = u32 (last_version_ mon + 2 * k) ∧
    sched_inv (mkG w' (g_refs g) ({[q']} ∪ g_held g ∖ {[q]}) (g_dying g)).
Proof. intros Hf Hcb [[l Hinv] ? ? ? ? ? ? ? ? ? ? ?]. by apply (dispatch_message_batch _ Hf _ _ Hcb g l q qo p c). Qed.


(** [example_g] with a callback set *)
Definition example_busy : gstate :=
  match w_ctxs (g_w example_g) !! 1 with
  | Some c => at_world example_g (ctx_store (g_w example_g) 1 (ctx_with_msg_callback c 99))
  | None => example_g
  end.

Lemma example_busy_inv : sched_inv example_busy.
Proof.
  destruct (reachable_inv release_nothing mods_one example_g (λ _ _ _, eq_refl) example_reachable) as [l Hinv].
  exists l. unfold example_busy. destruct (w_ctxs (g_w example_g) !! 1) as [c|] eqn:Hc; [|done].
  pose proof (si_ctx _ _ Hinv 1 c Hc) as [D1 D2 D3 D4 D5 D6].
  by apply (sched_inv_ctx _ l 1 c _ _ _ Hinv).
Qed.

(** a callback that keeps the payload *)
Definition keep_callback (cb p ud ty s src d sz : Z) (w : world) : result (Z * world) := Ok (1, w).

Lemma example_busy_dispatchable : ∃ qo c, contents qo = [mkMsg 9 0 0 0] ∧ dispatchable example_busy 2 qo 1 c.
Proof.
  destruct (mqs (w_mq (g_w example_busy)) !! 2) as [qo|] eqn:Hq; [|vm_compute in Hq; congruence].
  destruct (w_ctxs (g_w example_busy) !! 1) as [c|] eqn:Hc; [|vm_compute in Hc; congruence].
  pose proof Hq as Hq'. pose proof Hc as Hc'. vm_compute in Hq', Hc'. injection Hq' as <-. injection Hc' as <-.
  match type of Hq with _ = Some ?qo => match type of Hc with _ = Some ?c => exists qo, c end end. split; [vm_compute; reflexivity|].
  split; [apply example_busy_inv|refine (bool_decide_unpack _ _); vm_compute; exact I|exact Hq|vm_compute; reflexivity|congruence|exact Hc|reflexivity
         |simpl; congruence|reflexivity|vm_compute; congruence|reflexivity|vm_compute; congruence].
Qed.

Lemma keep_callback_quiet : quiet_callback keep_callback.
Proof. intros cb p ud ty s src d sz w. exists 1, w. split; [done|]. by split. Qed.


(** A worker of weight 0, documented to process all messages of a queue, leaves one: of
    two or more queued messages it processes all but the newest, since the bound is read after
    the first message has been taken off the queue and the loop counts that message too. *)
Theorem weight_zero_leaves_one release_func msg_callback thread_clock g q qo p c mon :
  (∀ f s w, release_func f s w = Ok w) → quiet_callback msg_callback → dispatchable g q qo p c →
  (2 <= length (contents qo))%nat →
  ∃ q' mon' w' m, dispatch_message release_func msg_callback thread_clock (g_w g) mon q 0 = Ok (q', mon', w') ∧
    last (contents qo) = Some m ∧ contents_map (w_mq w') !! q = Some [m].
Proof.
  intros Hf Hcb Hd Hlen.
  destruct (dispatchable_batch _ _ thread_clock _ _ _ _ _ mon 0 Hf Hcb Hd) as (q' & mon' & w' & Hdm & _ & Hc & _).
  destruct (last (contents qo)) as [m|] eqn:Hm; [|apply last_None in Hm; rewrite Hm in Hlen; simpl in Hlen; lia].
  exists q', mon', w', m. split; [done|]. split; [done|]. rewrite Hc. f_equal.
  apply last_Some in Hm as [l Hl]. rewrite Hl in *. rewrite length_app in *. simpl in *.
  unfold batch. simpl. rewrite Z.shiftr_0_r, drop_app_length'; [done|lia].
Qed.

(** [example_busy] with a second message *)
Definition example_busy2 : gstate :=
  match exec release_nothing (A_push 1 (mkMsg 8 0 0 0)) example_busy with Ok g => g | Err _ => example_busy end.

Lemma example_busy2_dispatchable :
  ∃ qo c, contents qo = [mkMsg 9 0 0 0; mkMsg 8 0 0 0] ∧ dispatchable example_busy2 2 qo 1 c.
Proof.
  destruct (mqs (w_mq (g_w example_busy2)) !! 2) as [qo|] eqn:Hq; [|vm_compute in Hq; congruence].
  destruct (w_ctxs (g_w example_busy2) !! 1) as [c|] eqn:Hc; [|vm_compute in Hc; congruence].
  pose proof Hq as Hq'. pose proof Hc as Hc'. vm_compute in Hq', Hc'. injection Hq' as <-. injection Hc' as <-.
  match type of Hq with _ = Some ?qo => match type of Hc with _ = Some ?c => exists qo, c end end. split; [vm_compute; reflexivity|].
  split; [|refine (bool_decide_unpack _ _); vm_compute; exact I|exact Hq|vm_compute; reflexivity|congruence|exact Hc|reflexivity
         |simpl; congruence|reflexivity|vm_compute; congruence|reflexivity|vm_compute; congruence].
  destruct (exec_ok release_nothing example_busy (A_push 1 (mkMsg 8 0 0 0)) (λ _ _ _, eq_refl) example_busy_inv)
    as (g' & Hex & Hinv); [split; [vm_compute; repeat constructor|vm_compute; congruence]|].
  unfold example_busy2. by rewrite Hex.
Qed.

Lemma weight_zero_leaves_one_witness :
  ∃ q' mon' w', dispatch_message release_nothing keep_callback (λ _, (0, 0)) (g_w example_busy2) monitor_init 2 0 = Ok (q', mon', w') ∧
    contents_map (w_mq w') !! 2 = Some [mkMsg 8 0 0 0].
Proof.
  destruct example_busy2_dispatchable as (qo & c & Hms & Hd).
  destruct (weight_zero_leaves_one release_nothing keep_callback (λ _, (0, 0)) example_busy2 2 qo 1 c monitor_init
              (λ _ _ _, eq_refl) keep_callback_quiet Hd) as (q' & mon' & w' & m & H1 & H2 & H3).
  - rewrite Hms. simpl. lia.
  - exists q', mon', w'. split; [exact H1|]. rewrite Hms in H2. simpl in H2. injection H2 as <-. exact H3.
Defined.

(** The monitor reports a worker exactly when it has been inside one message since the
    last check: after 1 to 2^32 - 1 begin or end events a check only records the version and
    leaves the node alone, without any event a check of an idle worker does nothing, and without
    any event a check of a worker inside a message marks the destination service as blocked and
    logs a warning. *)
Theorem monitor_reports_stuck release_func g mon evs : (∀ f s w, release_func f s w = Ok w) → sched_inv g →
  - 2 ^ 31 <= last_version_ mon < 2 ^ 31 → check_version_ mon = last_version_ mon →
  (evs ≠ [] → Z.of_nat (length evs) < 2 ^ 32 →
     let mon' := mon_run evs mon in
     monitor_check release_func (g_w g) mon' =
       Ok (mkMonitor (last_version_ mon') (last_version_ mon') (mon_src_svc_handle_ mon') (mon_dst_svc_handle_ mon'), g_w g)) ∧
  (mon_dst_svc_handle_ mon = 0 → monitor_check release_func (g_w g) mon = Ok (mon, g_w g)) ∧
  (∀ c, mon_dst_svc_handle_ mon ≠ 0 → svc_find (g_w g) (mon_dst_svc_handle_ mon) ≠ 0 →
     w_ctxs (g_w g) !! svc_find (g_w g) (mon_dst_svc_handle_ mon) = Some c →
     ∃ text, monitor_check release_func (g_w g) mon =
       (w <- log_warn release_func (ctx_store (g_w g) (svc_find (g_w g) (mon_dst_svc_handle_ mon)) (ctx_with_is_blocked c true)) 0 text;;
        Ok (mon, w))).
Proof.
  intros Hf [l Hinv] Hv Hc. split_and!.
  - intros Hne Hlen mon'. destruct (mon_run_version evs mon) as [H1 H2]. fold mon' in H1, H2. unfold monitor_check.
    rewrite (proj2 (Z.eqb_neq (check_version_ mon') (last_version_ mon'))); [done|].
    rewrite H1, Hc. intros He. rewrite <- He in H2. destruct evs as [|ev evs]; [done|]. clearbody mon'.
    unfold u32 in H2. cbn [length] in *. apply (f_equal (λ x, (x - last_version_ mon mod 2 ^ 32) mod 2 ^ 32)) in H2.
    rewrite Z.sub_diag, <- Zminus_mod in H2.
    replace (last_version_ mon + Z.of_nat (S (length evs)) - last_version_ mon) with (Z.of_nat (S (length evs))) in H2 by lia.
    rewrite Z.mod_small in H2 by lia. rewrite Z.mod_small in H2 by lia. lia.
  - intros Hd. unfold monitor_check. by rewrite Hc, Z.eqb_refl, Hd.
  - intros c Hd Hp Hctx. unfold monitor_check. rewrite Hc, Z.eqb_refl. rewrite (proj2 (Z.eqb_neq _ 0)) by done. cbn [negb].
    rewrite (process_blocked_marks release_func g l _ c) by done. rewrite bind_Ok. by eexists.
Qed.

Lemma monitor_reports_stuck_witness :
  let mon := mkMonitor 5 5 3 1 in
  monitor_check release_nothing (g_w example_g) (mon_run [M_end; M_begin 4 1] mon) = Ok (mkMonitor 7 7 4 1, g_w example_g) ∧
  ∃ c text, w_ctxs (g_w example_g) !! 1 = Some c ∧
    monitor_check release_nothing (g_w example_g) mon =
      (w <- log_warn release_nothing (ctx_store (g_w example_g) 1 (ctx_with_is_blocked c true)) 0 text;; Ok (mon, w)).
Proof.
  intros mon.
  destruct (monitor_reports_stuck release_nothing example_g mon [M_end; M_begin 4 1] (λ _ _ _, eq_refl)
              (reachable_inv release_nothing mods_one example_g (λ _ _ _, eq_refl) example_reachable)) as (H1 & _ & H3).
  - simpl. lia.
  - reflexivity.
  - split; [apply H1; [congruence|vm_compute; reflexivity]|].
    destruct (w_ctxs (g_w example_g) !! 1) as [c|] eqn:Hc; [|vm_compute in Hc; congruence].
    exists c. destruct (H3 c) as [text Ht]; [simpl; lia|vm_compute; congruence|exact Hc|].
    exists text. split; [reflexivity|exact Ht].
Defined.

(** A failed launch leaks the queue of the service: when the [init] of a new service
    fails, [create_service] returns [nullptr] and the context is gone, but its queue is still
    allocated, marked as released, and on no list any thread could reach it from. *)
Theorem failed_launch_leaks_queue :
  ∃ w' qo, create_service (λ _ w, Ok (5, w)) release_nothing (λ _ _ _ w, Ok (false, w)) (λ _, 0) (λ _ _, 0)
             (w_with_mods world_init mods_one) "m" None = Ok (0, w') ∧
    w_ctxs w' = ∅ ∧ w_svc_count w' = 0 ∧ mqs (w_mq w') !! 2 = Some qo ∧ is_release_ qo = true ∧
    ghead_ (w_mq w') = 0 ∧ gtail_ (w_mq w') = 0.
Proof. eexists _, _. split; [vm_compute; reflexivity|]. repeat (split; [vm_compute; reflexivity|]). vm_compute. reflexivity. Qed.
