(* ===== verification/CService.v ===== *)
(** * The C services (src/service-src: logger, snlua; skynet-src/memory/skynet_malloc.cpp)

    The logger takes its configuration from the environment of the node, builds the sinks of
    the spdlog library, and prints the text messages it receives. snlua runs a Lua service: it
    sends its argument to itself, and the first message starts the Lua loader. [lalloc]
    counts the memory of a Lua state and refuses to go over a limit.

    The functions have the types of the parameters of [Node] and [Service] that stand for the
    entry points of loaded services. spdlog and Lua are parameters: [spdlog_log] prints a line,
    [sink_ok] tells whether the constructor of a sink returns, [luaL_loadfile] and [loader_call]
    read and run the loader (the call may change the node), [memlimit] is what it leaves in the
    registry. The names of the callbacks are addresses. *)
From Stdlib Require Import Ascii String.
From S2P Require Import Prelude Bytes Message Timer Env MqPrivate MqGlobal HandleName HandleSlot Text ModManager Service Node Command.
Open Scope string_scope.
Open Scope Z_scope.

(** ** Text *)

Definition lower (c : ascii) : ascii :=
  let z := char_code c in if (65 <=? z) && (z <=? 90) then char_of_code (z + 32) else c.
(** [strcasecmp(a, b) == 0] *)
Fixpoint same_nocase (a b : string) : bool :=
  match a, b with
  | EmptyString, EmptyString => true
  | String c a, String d b => Ascii.eqb (lower c) (lower d) && same_nocase a b
  | _, _ => false
  end.

(** [s.erase(0, s.find_first_not_of(" "))] *)
Fixpoint trim_left (s : string) : string :=
  match s with String c s' => if Ascii.eqb c " " then trim_left s' else s | EmptyString => "" end.
(** [s.erase(s.find_last_not_of(" ") + 1)] *)
Fixpoint trim_right (s : string) : string :=
  match s with
  | EmptyString => ""
  | String c s' => match trim_right s' with "" => if Ascii.eqb c " " then "" else String c "" | t => String c t end
  end.
Definition _trim (s : string) : string := trim_right (trim_left s).

(** ** log_def.h, log_config.h *)

Definition LOG_TYPE_NULL : Z := 0.
Definition LOG_TYPE_CONSOLE : Z := 0x01.
Definition LOG_TYPE_CONSOLE_COLOR : Z := 0x02.
Definition LOG_TYPE_HOURLY : Z := 0x10.
Definition LOG_TYPE_DAILY : Z := 0x20.
Definition LOG_TYPE_ROTATING : Z := 0x40.

Definition string_to_logger_type (type : string) : Z :=
  if same_nocase type "console" then LOG_TYPE_CONSOLE
  else if same_nocase type "console_color" then LOG_TYPE_CONSOLE_COLOR
  else if same_nocase type "hourly" then LOG_TYPE_HOURLY
  else if same_nocase type "daily" then LOG_TYPE_DAILY
  else if same_nocase type "rotating" then LOG_TYPE_ROTATING
  else LOG_TYPE_CONSOLE.

Definition LOG_LEVEL_OFF : Z := 5.
Definition string_to_log_level (level : string) : Z :=
  if same_nocase level "trace" then LOG_LEVEL_TRACE
  else if same_nocase level "debug" then LOG_LEVEL_DEBUG
  else if same_nocase level "info" then LOG_LEVEL_INFO
  else if same_nocase level "warn" then LOG_LEVEL_WARN
  else if same_nocase level "error" then LOG_LEVEL_ERROR
  else if same_nocase level "off" then LOG_LEVEL_OFF
  else LOG_LEVEL_INFO.

(** [spdlog::level::level_enum] *)
Inductive level_enum := level_trace | level_debug | level_info | level_warn | level_err | level_off.
Definition to_spdlog_level (level : Z) : level_enum :=
  if level =? LOG_LEVEL_TRACE then level_trace
  else if level =? LOG_LEVEL_DEBUG then level_debug
  else if level =? LOG_LEVEL_INFO then level_info
  else if level =? LOG_LEVEL_WARN then level_warn
  else if level =? LOG_LEVEL_ERROR then level_err
  else if level =? LOG_LEVEL_OFF then level_off
  else level_info.

Definition LOG_LEVEL_TYPE_LONG : Z := 0.
Definition LOG_LEVEL_TYPE_SHORT : Z := 1.
Definition string_to_log_level_type (type : string) : Z :=
  if same_nocase type "long" then LOG_LEVEL_TYPE_LONG
  else if same_nocase type "short" then LOG_LEVEL_TYPE_SHORT
  else LOG_LEVEL_TYPE_LONG.

Definition DEFAULT_LOG_TYPE : string := "console".
Definition DEFAULT_LOG_BASENAME : string := "./logs/skynet.log".
Definition DEFAULT_LOG_LEVEL : string := "info".
Definition DEFAULT_LOG_LEVEL_TYPE : string := "long".
Definition DEFAULT_LOG_ROTATING_MAX_FILES : Z := 5.
Definition DEFAULT_LOG_ROTATING_MAX_SIZE : Z := 50.
Definition DEFAULT_LOG_DAILY_ROTATING_HOUR : Z := 23.
Definition DEFAULT_LOG_DAILY_ROTATING_MINUTE : Z := 59.

(** [class log_config] with its three structures *)
Record log_config := mkLogConfig {
  type_ : Z; basename_ : string; level_ : Z; level_type_ : Z;
  max_files_ : Z; max_size_ : Z; rotating_hour_ : Z; rotation_minute_ : Z
}.
#[export] Instance eta_log_config : Eta log_config :=
  λ r, mkLogConfig (type_ r) (basename_ r) (level_ r) (level_type_ r) (max_files_ r) (max_size_ r) (rotating_hour_ r) (rotation_minute_ r).
Definition log_config_default : log_config :=
  mkLogConfig LOG_TYPE_CONSOLE DEFAULT_LOG_BASENAME LOG_LEVEL_INFO LOG_LEVEL_TYPE_LONG
    DEFAULT_LOG_ROTATING_MAX_FILES DEFAULT_LOG_ROTATING_MAX_SIZE DEFAULT_LOG_DAILY_ROTATING_HOUR DEFAULT_LOG_DAILY_ROTATING_MINUTE.

(** the sinks, as they are constructed *)
Inductive sink :=
  | null_sink_st
  | stdout_sink_st
  | stderr_color_sink_st
  | hourly_file_sink_st (basename : string)
  | daily_file_sink_st (basename : string) (hour minute : Z)
  | rotating_file_sink_st (basename : string) (max_size max_files : Z).

(** the default logger after [init]: its sinks, its level, and which pattern is set *)
Record spdlogger := mkLogger { lg_sinks : list sink; lg_level : level_enum; lg_pattern : string }.
Definition PATTERN_LONG : string := "[%Y-%m-%d %H:%M:%S.%e] [%^%l%$] %v".
Definition PATTERN_SHORT : string := "[%Y-%m-%d %H:%M:%S.%e] [%^%L%$] %v".

Section services.
Variable create_func : Z → world → result (Z * world).
Variable release_func : Z → Z → world → result world.
Variable svc_init : Z → Z → option string → world → result (bool * world).
Variable dlopen : string → Z.
Variable dlsym : Z → string → Z.
Variable thread_clock : world → Z * Z.
Variable svc_signal : Z → Z → world → result world.
Variable fopen : string → Z.
Variable ctime : Z → string.
Variable lf_micros : Z → string.

Notation exec_command := (exec_command create_func release_func svc_init dlopen dlsym thread_clock svc_signal fopen ctime lf_micros).

(** [_get_env] of both services *)
Definition _get_env (w : world) (svc_ctx : Z) (key default_value : string) : result (string * world) :=
  let* (ret, w) := exec_command w svc_ctx "GET_ENV" (Some key) in
  Ok (default default_value ret, w).

(** ** logger_service.cpp *)

Section logger.
(** the address of [logger_cb] *)
Variable LOGGER_CB : Z.
(** the constructor of a sink does not throw *)
Variable sink_ok : sink → bool.
(** [spdlog::trace], ..., [spdlog::error] of the default logger *)
Variable spdlog_log : Z → string → world → world.

Definition make_sink (s : sink) : result sink := if sink_ok s then Ok s else Err UncaughtException.

(** a number of the environment: [_get_env(key, "")], then its default or [std::stoi] *)
Definition env_int (w : world) (svc_ctx : Z) (key : string) (dflt : Z) : result (Z * world) :=
  let* (value, w) := _get_env w svc_ctx key "" in
  if String.eqb value "" then Ok (dflt, w) else n <- stoi 10 value;; Ok (n, w).

(** [static_cast<uint32_t>] of the flags *)
Definition type_flags (types : list string) : Z :=
  foldl (λ t s, Z.lor t (string_to_logger_type (_trim s))) LOG_TYPE_NULL types.

Definition base_config (w : world) (svc_ctx : Z) : result (log_config * world) :=
  let* (value, w) := _get_env w svc_ctx "logger_type" DEFAULT_LOG_TYPE in
  let c := log_config_default <| type_ := type_flags (token_split "," value) |> in
  let* (value, w) := _get_env w svc_ctx "logger_file_basename" DEFAULT_LOG_BASENAME in
  let c := c <| basename_ := value |> in
  let* (value, w) := _get_env w svc_ctx "logger_log_level" DEFAULT_LOG_LEVEL in
  let c := c <| level_ := string_to_log_level value |> in
  let* (value, w) := _get_env w svc_ctx "logger_log_level_type" DEFAULT_LOG_LEVEL_TYPE in
  Ok (c <| level_type_ := string_to_log_level_type value |>, w).

Definition has_flag (t flag : Z) : bool := negb (Z.land t flag =? 0).

Definition console_sink (c : log_config) : result (option sink) :=
  if has_flag (type_ c) LOG_TYPE_CONSOLE then s <- make_sink stdout_sink_st;; Ok (Some s)
  else if has_flag (type_ c) LOG_TYPE_CONSOLE_COLOR then s <- make_sink stderr_color_sink_st;; Ok (Some s)
  else Ok None.

Definition file_sink (w : world) (svc_ctx : Z) (c : log_config) : result (option sink * log_config * world) :=
  if has_flag (type_ c) LOG_TYPE_HOURLY then
    s <- make_sink (hourly_file_sink_st (basename_ c));; Ok (Some s, c, w)
  else if has_flag (type_ c) LOG_TYPE_DAILY then
    let* (hour, w) := env_int w svc_ctx "logger_daily_rotating_hour" DEFAULT_LOG_DAILY_ROTATING_HOUR in
    let* (minute, w) := env_int w svc_ctx "logger_daily_rotation_minute" DEFAULT_LOG_DAILY_ROTATING_MINUTE in
    let c := c <| rotating_hour_ := hour |> <| rotation_minute_ := minute |> in
    s <- make_sink (daily_file_sink_st (basename_ c) hour minute);; Ok (Some s, c, w)
  else if has_flag (type_ c) LOG_TYPE_ROTATING then
    let* (size, w) := env_int w svc_ctx "logger_rotating_max_size" DEFAULT_LOG_ROTATING_MAX_SIZE in
    size <- int_chk (size * 1024);;
    size <- int_chk (size * 1024);;
    let* (files, w) := env_int w svc_ctx "logger_rotating_max_files" DEFAULT_LOG_ROTATING_MAX_FILES in
    let c := c <| max_size_ := size |> <| max_files_ := files |> in
    s <- make_sink (rotating_file_sink_st (basename_ c) (u64 size) (u64 files));; Ok (Some s, c, w)
  else Ok (None, c, w).

(** [logger_service::init]; the result has the configuration and the default logger *)
Definition logger_init (w : world) (this svc_ctx : Z) (param : option string) : result (bool * log_config * spdlogger * world) :=
  let* (c, w) := base_config w svc_ctx in
  let* (console, file, c, w) :=
    (if type_ c =? LOG_TYPE_NULL then s <- make_sink null_sink_st;; Ok (None, Some s, c, w)
     else console <- console_sink c;; let* (file, c, w) := file_sink w svc_ctx c in Ok (console, file, c, w)) in
  sinks <- (match console, file with
            | Some a, Some b => Ok [a; b]
            | Some a, None => Ok [a]
            | None, Some b => Ok [b]
            | None, None => Err NullDeref
            end);;
  w <- set_callback w svc_ctx LOGGER_CB this;;
  Ok (true, c, mkLogger sinks (to_spdlog_level (level_ c)) (if level_type_ c =? LOG_LEVEL_TYPE_LONG then PATTERN_LONG else PATTERN_SHORT), w).

(** [logger_service::logger_cb] *)
Definition logger_cb (svc_ctx ud svc_msg_type session_id src_svc_handle msg sz : Z) (w : world) : result (Z * world) :=
  if svc_msg_type =? msg_type_code SERVICE_MSG_TYPE_TEXT then
    if sz <=? LOG_LEVEL_LEN then Ok (0, w)
    else
      bytes <- read_block w msg sz;;
      let log_level := s32 (le_value (take 4 bytes)) in
      let log_msg_len := s32 (sz - LOG_LEVEL_LEN) in
      if (LOG_LEVEL_TRACE <=? log_level) && (log_level <=? LOG_LEVEL_ERROR) then
        if log_msg_len <? 0 then Err UncaughtException
        else
          let log_msg := string_of_bytes (take (Z.to_nat log_msg_len) (drop 4 bytes)) in
          Ok (0, spdlog_log log_level ("[:" ++ hex_08 true src_svc_handle ++ "] " ++ log_msg) w)
      else Ok (0, w)
  else Ok (0, w).
End logger.

(** ** snlua_service.cpp *)

(** the fields of [snlua_service]; [L_] is whether the Lua state is open *)
Record snlua_service := mkSnlua { L_ : bool; svc_ctx_ : Z; mem_ : Z; mem_report_ : Z; mem_limit_ : Z }.
#[export] Instance eta_snlua : Eta snlua_service := λ r, mkSnlua (L_ r) (svc_ctx_ r) (mem_ r) (mem_report_ r) (mem_limit_ r).
Definition MEMORY_WARNING_REPORT : Z := 32 * 1024 * 1024.
Definition snlua_new : snlua_service := mkSnlua true 0 0 MEMORY_WARNING_REPORT 0.
Definition snlua_fini (svc : snlua_service) : snlua_service := if L_ svc then svc <| L_ := false |> else svc.

(** the globals that the loader reads *)
Record lua_env := mkLuaEnv { LUA_PATH : string; LUA_CPATH : string; LUA_SERVICE : string; LUA_PRELOAD : option string }.

Section snlua.
(** the address of [snlua_cb] *)
Variable SNLUA_CB : Z.
(** [luaL_loadfile]: the message of an error; the call of the loader with its argument: the
    message of an error, and the node after it; "memlimit" of the registry, when it is a number *)
Variable luaL_loadfile : string → option string.
Variable loader_call : world → Z → lua_env → list Z → result (option string * world).
Variable memlimit : world → option Z.
(** [{:.2f}] and [{:.3f}] of a [float] *)
Variable fmt_float : Z → Z → string.

Notation log_info := (log_info release_func).
Notation log_warn := (log_warn release_func).
Notation log_error := (log_error release_func).

(** [snlua_service::init] *)
Definition snlua_init (this svc_ctx : Z) (param : option string) (w : world) : result (bool * world) :=
  param <- deref_param param;;
  let param_sz := strlen param in
  let '(tmp_param, w) := alloc_block w (bytes_of param) in
  w <- set_callback w svc_ctx SNLUA_CB this;;
  let* (s, w) := exec_command w svc_ctx "REGISTER" None in
  s <- deref_param s;;
  h <- stoi 16 (str_drop 1 s);;
  let* (_, w) := send release_func w svc_ctx 0 (u32 h) MESSAGE_TAG_DONT_COPY 0 tmp_param param_sz in
  Ok (true, w).

(** [report_launcher_error]; the literal is memory that lasts as long as the call *)
Definition report_launcher_error (w : world) (svc_ctx : Z) : result world :=
  let '(p, w) := alloc_block w (bytes_of "ERROR" ++ [0])%list in
  let* (_, w) := send_by_name release_func w svc_ctx 0 ".launcher" (msg_type_code SERVICE_MSG_TYPE_TEXT) 0 p 5 in
  free_block w p.

(** [snlua_service::init_lua_cb] *)
Definition init_lua_cb (svc : snlua_service) (w : world) (svc_ctx args sz : Z) : result (bool * snlua_service * world) :=
  let svc := svc <| svc_ctx_ := svc_ctx |> in
  let* (path, w) := _get_env w svc_ctx "lua_path" "./lualib/?.lua;./lualib/?/init.lua" in
  let* (cpath, w) := _get_env w svc_ctx "lua_cpath" "./luaclib/?.so" in
  let* (service, w) := _get_env w svc_ctx "luaservice" "./service/?.lua" in
  let* (preload, w) := exec_command w svc_ctx "GET_ENV" (Some "preload") in
  let env := mkLuaEnv path cpath service preload in
  let* (loader, w) := _get_env w svc_ctx "lualoader" "./lualib/loader.lua" in
  match luaL_loadfile loader with
  | Some err =>
      w <- log_error w svc_ctx ("Can't load " ++ loader ++ " : " ++ err);;
      w <- report_launcher_error w svc_ctx;;
      Ok (false, svc, w)
  | None =>
      bytes <- read_block w args sz;;
      let* (r, w) := loader_call w svc_ctx env bytes in
      match r with
      | Some err =>
          w <- log_error w svc_ctx ("lua loader error : " ++ err);;
          w <- report_launcher_error w svc_ctx;;
          Ok (false, svc, w)
      | None =>
          match memlimit w with
          | Some limit =>
              w <- log_info w svc_ctx ("Set memory limit to " ++ fmt_float 2 (u64 limit) ++ "M");;
              Ok (true, svc <| mem_limit_ := u64 limit |>, w)
          | None => Ok (true, svc, w)
          end
      end
  end.

(** [snlua_service::snlua_cb] *)
Definition snlua_cb (svc : snlua_service) (svc_ctx svc_msg_type session msg sz : Z) (w : world) : result (Z * snlua_service * world) :=
  massert ((svc_msg_type =? 0) && (session =? 0));;;
  w <- set_callback w svc_ctx 0 0;;
  let* (ret, svc, w) := init_lua_cb svc w svc_ctx msg sz in
  w <- (if ret : bool then Ok w else let* (_, w) := exec_command w svc_ctx "EXIT" None in Ok w);;
  Ok (0, svc, w).

(** [snlua_service::signal]; the signal of a patched Lua is not compiled in *)
Definition snlua_signal (svc : snlua_service) (sig : Z) (w : world) : result world :=
  w <- log_info w (svc_ctx_ svc) ("recv a signal " ++ dec_str sig);;
  if sig =? 0 then Ok w
  else if sig =? 1 then log_info w (svc_ctx_ svc) ("Current Memory " ++ fmt_float 3 (mem_ svc) ++ "K")
  else Ok w.

(** ** The memory of a Lua state *)

(** [realloc] of the C library on the sizes of the blocks: a new address, 0 when it fails *)
Variable realloc : gmap Z Z → Z → Z → Z.

(** [skynet_lalloc] *)
Definition skynet_lalloc (heap : gmap Z Z) (ptr osize nsize : Z) : result (Z * gmap Z Z) :=
  if negb ((ptr =? 0) || bool_decide (is_Some (heap !! ptr))) then Err DoubleFree
  else if nsize =? 0 then Ok (0, delete ptr heap)
  else
    let q := realloc heap ptr nsize in
    if q =? 0 then Ok (0, heap) else Ok (q, <[q := nsize]> (delete ptr heap)).

(** [snlua_service::lalloc] *)
Definition lalloc (svc : snlua_service) (heap : gmap Z Z) (w : world) (ptr osize nsize : Z) : result (Z * snlua_service * gmap Z Z * world) :=
  let mem := mem_ svc in
  let svc := svc <| mem_ := u64 (mem_ svc + nsize) |> in
  let svc := if negb (ptr =? 0) then svc <| mem_ := u64 (mem_ svc - osize) |> else svc in
  if negb (mem_limit_ svc =? 0) && (mem_limit_ svc <? mem_ svc) && ((ptr =? 0) || (osize <? nsize)) then
    Ok (0, svc <| mem_ := mem |>, heap, w)
  else
    let* (svc, w) :=
      (if mem_report_ svc <? mem_ svc then
         w <- log_warn w (svc_ctx_ svc) ("Memory warning " ++ fmt_float 2 (mem_ svc) ++ "M");;
         Ok (svc <| mem_report_ := u64 (mem_report_ svc * 2) |>, w)
       else Ok (svc, w)) in
    let* (p, heap) := skynet_lalloc heap ptr osize nsize in
    Ok (p, svc, heap, w).
End snlua.
End services.
