(* ===== verification/CServiceProof.v ===== *)
(** * The C services: properties

    A log call ends as a line of the logger, whatever the configuration of the logger it has
    a sink, the argument of a Lua service reaches the loader, and the count of the memory of
    a Lua state is its size and stays within the limit. *)
From stdpp Require Import gmultiset.
From Stdlib Require Import Ascii String.
From S2P Require Import Prelude Bytes Message Timer Env MqPrivate MqGlobal HandleName HandleSlot Text ModManager Service Node Command Scheduler Manager CService.
Open Scope string_scope.
Open Scope Z_scope.

(** ** The logger prints what was logged *)

Lemma int_bytes_le z : int_bytes z = le_bytes 4 z.
Proof.
  unfold int_bytes. cbn [le_bytes]. change 255 with (Z.ones 8). rewrite !Z.land_ones, !Z.shiftr_div_pow2 by lia.
  rewrite !Z.div_div by lia. done.
Qed.

Lemma int_bytes_value z : - 2 ^ 31 <= z < 2 ^ 31 → s32 (le_value (int_bytes z)) = z.
Proof. intros Hz. rewrite int_bytes_le, le_value_u32, s32_u32. by apply s32_small. Qed.

Lemma read_block_prefix w p bytes n : p ≠ 0 → w_blocks w !! p = Some bytes → (n <= length bytes)%nat →
  read_block w p (Z.of_nat n) = Ok (take n bytes).
Proof.
  intros Hp Hb Hn. unfold read_block. rewrite (proj2 (Z.eqb_neq p 0)) by done. rewrite Hb, (proj2 (Z.leb_le _ _)) by lia. by rewrite Nat2Z.id.
Qed.

(** the line of a message *)
Definition log_line (src : Z) (msg : string) : string := "[:" ++ hex_08 true src ++ "] " ++ msg.

Section logger.
Variable spdlog_log : Z → string → world → world.

Lemma logger_cb_text w ctx ud session src p level msg : p ≠ 0 → LOG_LEVEL_TRACE <= level <= LOG_LEVEL_ERROR → 0 < strlen msg < 2 ^ 31 - 4 →
  w_blocks w !! p = Some (int_bytes level ++ bytes_of msg ++ [0])%list →
  logger_cb spdlog_log ctx ud (msg_type_code SERVICE_MSG_TYPE_TEXT) session src p (strlen msg + LOG_LEVEL_LEN) w = Ok (0, spdlog_log level (log_line src msg) w).
Proof.
  intros Hp Hl Hm Hb. unfold logger_cb, LOG_LEVEL_LEN. rewrite Z.eqb_refl, (proj2 (Z.leb_gt _ _)) by lia.
  assert (Hlen : length (bytes_of msg) = Z.to_nat (strlen msg)) by (rewrite <- bytes_of_length; lia).
  replace (strlen msg + 4) with (Z.of_nat (4 + length (bytes_of msg))) at 1 by lia.
  rewrite (read_block_prefix w p _ _ Hp Hb) by (rewrite !length_app; cbn [length int_bytes]; lia).
  assert (Ht : take (4 + length (bytes_of msg)) (int_bytes level ++ bytes_of msg ++ [0])%list = (int_bytes level ++ bytes_of msg)%list)
    by (rewrite app_assoc, take_app_length'; [done|by rewrite length_app]).
  rewrite bind_Ok, Ht.
  rewrite (take_app_length' (int_bytes level)), (drop_app_length' (int_bytes level)) by done. cbv zeta.
  unfold LOG_LEVEL_TRACE, LOG_LEVEL_ERROR in *. rewrite int_bytes_value by lia.
  rewrite (proj2 (Z.leb_le 0 level)), (proj2 (Z.leb_le level 4)) by lia. cbn [andb].
  rewrite s32_small by lia. rewrite (proj2 (Z.ltb_ge _ _)) by lia. replace (strlen msg + 4 - 4) with (strlen msg) by lia.
  rewrite <- Hlen, firstn_all. by rewrite string_of_bytes_of.
Qed.
End logger.

(** C16: What a service logs is what the logger prints: for every level and every text of up to 64K - 4 bytes, the log
    call adds one message to the end of the logger's queue, and the callback of the logger, given that message as
    the dispatcher unpacks it, prints one line of that level: the handle of the service and the text. *)
Theorem log_prints_line release_func spdlog_log g p src level msg : (∀ f s w, release_func f s w = Ok w) → sched_inv g → log_source (g_w g) p src →
  w_log_handle (g_w g) ≠ 0 → svc_find (g_w g) (w_log_handle (g_w g)) ≠ 0 → has_room (g_w g) (w_log_handle (g_w g)) →
  LOG_LEVEL_TRACE <= level <= LOG_LEVEL_ERROR → 0 < strlen msg <= MAX_LOG_MSG_SIZE - LOG_LEVEL_LEN →
  ∃ w' q ms m, _log release_func (g_w g) p level msg = Ok w' ∧ q = queue_of (g_w g) (svc_find (g_w g) (w_log_handle (g_w g))) ∧
    contents_map (w_mq (g_w g)) !! q = Some ms ∧ contents_map (w_mq w') = <[q := (ms ++ [m])%list]> (contents_map (w_mq (g_w g))) ∧
    ∀ w2 ctx ud, w_blocks w2 !! data_ptr m = w_blocks w' !! data_ptr m →
      logger_cb spdlog_log ctx ud (unpack_type (data_size m)) (session_id m) (src_svc_handle m) (data_ptr m) (unpack_size (data_size m)) w2 =
      Ok (0, spdlog_log level ("[:" ++ hex_08 true src ++ "] " ++ msg) w2).
Proof.
  intros Hf [l Hinv] Hs Hh Hfind Hroom Hlevel Hlen.
  destruct (log_delivers release_func Hf g l p src level msg Hinv Hs Hh Hfind Hroom Hlen) as (w' & q & ms & E & Hq & Hms & Hcm & Hb).
  exists w', q, ms, (mkMsg src 0 (w_next (g_w g)) (strlen msg + LOG_LEVEL_LEN)). split_and!; try done.
  intros w2 ctx ud Hb2. cbn [data_ptr data_size session_id src_svc_handle] in *. rewrite Hb in Hb2. unfold MAX_LOG_MSG_SIZE in Hlen.
  assert (Hp : strlen msg + LOG_LEVEL_LEN = pack_size (msg_type_code SERVICE_MSG_TYPE_TEXT) (strlen msg + LOG_LEVEL_LEN)) by (rewrite pack_size_add; unfold LOG_LEVEL_LEN in *; cbn; lia).
  rewrite Hp, unpack_type_pack, unpack_size_pack by (unfold LOG_LEVEL_LEN in *; cbn; lia).
  apply logger_cb_text; [|done|unfold LOG_LEVEL_LEN in *; lia|done].
  pose proof (si_next _ _ Hinv). lia.
Qed.
Lemma log_prints_line_witness : let print level line w := file_write w 77 (dec_str level ++ " " ++ line) in
  ∃ w' ms m, _log release_nothing (g_w example_logger) 0 LOG_LEVEL_WARN "hi" = Ok w' ∧
    contents_map (w_mq w') = <[2 := (ms ++ [m])%list]> (contents_map (w_mq (g_w example_logger))) ∧
    logger_cb print 1 0 (unpack_type (data_size m)) (session_id m) (src_svc_handle m) (data_ptr m) (unpack_size (data_size m)) w' =
    Ok (0, file_write w' 77 "3 [:00000000] hi").
Proof.
  intros print. destruct (log_prints_line release_nothing print example_logger 0 0 LOG_LEVEL_WARN "hi" (λ _ _ _, eq_refl) example_logger_inv)
    as (w' & q & ms & m & H1 & H2 & _ & H4 & H5); [by left|vm_compute; congruence..|vm_compute; split; congruence|vm_compute; split; congruence|].
  exists w', ms, m. split; [exact H1|]. split; [rewrite H4, H2; reflexivity|]. exact (H5 w' 1 0 eq_refl).
Defined.

(** ** The configuration of the logger *)

Lemma has_flag_bit t b : 0 <= b → has_flag t (2 ^ b) = Z.testbit t b.
Proof.
  intros Hb. unfold has_flag. assert (E : Z.land t (2 ^ b) = if Z.testbit t b then 2 ^ b else 0).
  { apply Z.bits_inj'. intros n Hn. rewrite Z.land_spec. destruct (decide (n = b)) as [->|Hne].
    - rewrite Z.pow2_bits_true by done. destruct (Z.testbit t b); [by rewrite Z.pow2_bits_true|by rewrite Z.bits_0].
    - rewrite Z.pow2_bits_false by done. rewrite andb_false_r. destruct (Z.testbit t b); [by rewrite Z.pow2_bits_false|by rewrite Z.bits_0]. }
  rewrite E. destruct (Z.testbit t b); [|done]. pose proof (Z.pow_pos_nonneg 2 b). by rewrite (proj2 (Z.eqb_neq _ 0)) by lia.
Qed.

(** a type has one of the five flags *)
Definition has_type (t : Z) : Prop := ∃ b, b ∈ [0; 1; 4; 5; 6] ∧ Z.testbit t b = true.

Lemma string_to_logger_type_has s : has_type (string_to_logger_type s).
Proof.
  unfold string_to_logger_type. repeat case_match; first [by exists 0; split; [set_solver|]|by exists 1; split; [set_solver|]
    |by exists 4; split; [set_solver|]|by exists 5; split; [set_solver|]|by exists 6; split; [set_solver|]].
Qed.

Lemma has_type_lor t s : has_type t ∨ has_type s → has_type (Z.lor t s).
Proof. intros [(b & Hb & E)|(b & Hb & E)]; exists b; (split; [done|]); rewrite Z.lor_spec, E; [done|apply orb_true_r]. Qed.

Lemma type_flags_has types : types ≠ [] → has_type (type_flags types).
Proof.
  unfold type_flags. intros Hne. assert (H : ∀ t, has_type t ∨ types ≠ [] → has_type (foldl (λ t s, Z.lor t (string_to_logger_type (_trim s))) t types)); [|by apply H; right].
  clear Hne. induction types as [|s types IH]; intros t [H|H]; cbn [foldl]; try done; apply IH; left; apply has_type_lor; [by left|right; apply string_to_logger_type_has].
Qed.

Lemma token_split_ne c s : token_split c s ≠ [].
Proof.
  assert (H : split_on c s ≠ []) by (destruct s as [|d s]; cbn; [done|]; destruct (Ascii.eqb c d); [done|by destruct (split_on c s)]).
  unfold token_split. destruct (rev (split_on c s)) as [|[|] [|x r]] eqn:E; try done.
  intros E2. apply (f_equal length) in E2. rewrite length_rev in E2. done.
Qed.

Section init.
Variable create_func : Z → world → result (Z * world).
Variable release_func : Z → Z → world → result world.
Variable svc_init : Z → Z → option string → world → result (bool * world).
Variable dlopen : string → Z.
Variable dlsym : Z → string → Z.
Variable thread_clock : world → Z * Z.
Variable svc_signal : Z → Z → world → result world.
Variable fopen : string → Z.
Variable ctime : Z → string.
Variable lf_micros : Z → string.

Notation _get_env := (_get_env create_func release_func svc_init dlopen dlsym thread_clock svc_signal fopen ctime lf_micros).
Notation env_int := (env_int create_func release_func svc_init dlopen dlsym thread_clock svc_signal fopen ctime lf_micros).
Notation base_config := (base_config create_func release_func svc_init dlopen dlsym thread_clock svc_signal fopen ctime lf_micros).
Notation file_sink := (file_sink create_func release_func svc_init dlopen dlsym thread_clock svc_signal fopen ctime lf_micros).
Notation logger_init := (logger_init create_func release_func svc_init dlopen dlsym thread_clock svc_signal fopen ctime lf_micros).

Lemma get_env_spec w p key d : _get_env w p key d = Ok (default d (get_env (w_env w) key), w).
Proof. done. Qed.

Lemma base_config_spec w p : ∃ c, base_config w p = Ok (c, w) ∧ has_type (type_ c).
Proof. unfold CService.base_config. rewrite !get_env_spec, !bind_Ok. eexists. split; [done|]. cbn. apply type_flags_has, token_split_ne. Qed.

(** a number of the configuration that can be used: so many megabytes are an [int] *)
Definition number_ok (v : string) : Prop := ∃ n, stoi 10 v = Ok n ∧ -2048 <= n < 2048.
Definition bad_number (w : world) (key : string) : Prop := ∃ v, get_env (w_env w) key = Some v ∧ v ≠ "" ∧ ¬ number_ok v.
Definition number_keys : list string :=
  ["logger_daily_rotating_hour"; "logger_daily_rotation_minute"; "logger_rotating_max_size"; "logger_rotating_max_files"].

(** a step of the configuration gives a result with [P], or stops at a bad number *)
Definition outcome {A} (w : world) (r : result A) (P : A → Prop) : Prop :=
  match r with
  | Ok a => P a
  | Err e => (e = UncaughtException ∨ e = SignedOverflow) ∧ ∃ key, key ∈ number_keys ∧ bad_number w key
  end.

Lemma outcome_bind {A B} w (r : result A) (f : A → result B) P Q : outcome w r P → (∀ a, P a → outcome w (f a) Q) → outcome w (rbind r f) Q.
Proof. destruct r as [a|e]; cbn; [intros H Hf; by apply Hf|done]. Qed.

Lemma stoi_cases b s : (∃ n, stoi b s = Ok n) ∨ stoi b s = Err UncaughtException.
Proof. unfold stoi. repeat case_match; try (by right); left; by eexists. Qed.

Lemma env_int_outcome w p key d : -2048 <= d < 2048 → key ∈ number_keys →
  outcome w (env_int w p key d) (λ r, r.2 = w ∧ (-2048 <= r.1 < 2048 ∨ bad_number w key)).
Proof.
  intros Hd Hkey. unfold CService.env_int. rewrite get_env_spec, bind_Ok. cbv zeta.
  destruct (get_env (w_env w) key) as [v|] eqn:E; [change (default "" (Some v)) with v|by split; [|left]].
  destruct (String.eqb_spec v "") as [->|Hv]; [by split; [|left]|].
  assert (Hbad : ¬ number_ok v → bad_number w key) by (by intros; exists v).
  destruct (stoi_cases 10 v) as [[n En]|En]; rewrite En; cbn [rbind outcome fst snd].
  - split; [done|]. destruct (decide (-2048 <= n < 2048)) as [|Hn]; [by left|right]. apply Hbad. intros (n' & En' & Hn'). congruence.
  - split; [by left|]. exists key. split; [done|]. apply Hbad. intros (n' & En' & _). congruence.
Qed.

Lemma int_chk_outcome w key z : key ∈ number_keys → - 2 ^ 31 <= z < 2 ^ 31 ∨ bad_number w key → outcome w (int_chk z) (λ m, m = z).
Proof.
  intros Hkey Hz. unfold int_chk. destruct (_ && _) eqn:E; [done|]. split; [by right|]. exists key. split; [done|]. destruct Hz as [Hz|]; [|done].
  exfalso. unfold INT_MAX in E. apply andb_false_iff in E as [E%Z.leb_gt|E%Z.leb_gt]; lia.
Qed.

Section sinks.
Variable sink_ok : sink → bool.
Hypothesis sinks_ok : ∀ s, sink_ok s = true.

Lemma make_sink_ok s : make_sink sink_ok s = Ok s.
Proof. unfold make_sink. by rewrite sinks_ok. Qed.

Lemma file_sink_outcome w p c : outcome w (file_sink sink_ok w p c) (λ r, r.2 = w ∧ r.1.1 ≠ Some null_sink_st ∧
  (r.1.1 = None → has_flag (type_ c) LOG_TYPE_HOURLY = false ∧ has_flag (type_ c) LOG_TYPE_DAILY = false ∧ has_flag (type_ c) LOG_TYPE_ROTATING = false)).
Proof.
  unfold CService.file_sink, DEFAULT_LOG_DAILY_ROTATING_HOUR, DEFAULT_LOG_DAILY_ROTATING_MINUTE, DEFAULT_LOG_ROTATING_MAX_SIZE, DEFAULT_LOG_ROTATING_MAX_FILES.
  assert (Hk : ∀ i key, number_keys !! i = Some key → key ∈ number_keys) by (intros i key; apply list_elem_of_lookup_2).
  destruct (has_flag _ LOG_TYPE_HOURLY); [|destruct (has_flag _ LOG_TYPE_DAILY); [|destruct (has_flag _ LOG_TYPE_ROTATING); [|done]]].
  - by rewrite make_sink_ok.
  - eapply outcome_bind; [apply env_int_outcome; [lia|by apply (Hk 0%nat)]|]. intros [h w1] [[= ->] _].
    eapply outcome_bind; [apply env_int_outcome; [lia|by apply (Hk 1%nat)]|]. intros [m w1] [[= ->] _]. cbv zeta. by rewrite make_sink_ok.
  - eapply outcome_bind; [apply env_int_outcome; [lia|by apply (Hk 2%nat)]|]. intros [n w1] [[= ->] Hn]. cbn [fst] in Hn.
    eapply outcome_bind; [apply (int_chk_outcome w "logger_rotating_max_size"); [by apply (Hk 2%nat)|destruct Hn; [left; lia|by right]]|]. intros m ->.
    eapply outcome_bind; [apply (int_chk_outcome w "logger_rotating_max_size"); [by apply (Hk 2%nat)|destruct Hn; [left; lia|by right]]|]. intros m ->.
    eapply outcome_bind; [apply env_int_outcome; [lia|by apply (Hk 3%nat)]|]. intros [k w1] [[= ->] _]. cbv zeta. by rewrite make_sink_ok.
Qed.

Lemma console_sink_spec c : ∃ o, console_sink sink_ok c = Ok o ∧ o ≠ Some null_sink_st ∧
  (o = None → has_flag (type_ c) LOG_TYPE_CONSOLE = false ∧ has_flag (type_ c) LOG_TYPE_CONSOLE_COLOR = false).
Proof.
  unfold console_sink. destruct (has_flag _ LOG_TYPE_CONSOLE); [|destruct (has_flag _ LOG_TYPE_CONSOLE_COLOR)]; rewrite ?make_sink_ok; by eexists.
Qed.

(** one of the flags is set *)
Lemma has_type_flags t : has_type t → has_flag t LOG_TYPE_CONSOLE = false → has_flag t LOG_TYPE_CONSOLE_COLOR = false →
  has_flag t LOG_TYPE_HOURLY = false → has_flag t LOG_TYPE_DAILY = false → has_flag t LOG_TYPE_ROTATING = false → False.
Proof.
  intros (b & Hb & E). change LOG_TYPE_CONSOLE with (2 ^ 0). change LOG_TYPE_CONSOLE_COLOR with (2 ^ 1). change LOG_TYPE_HOURLY with (2 ^ 4).
  change LOG_TYPE_DAILY with (2 ^ 5). change LOG_TYPE_ROTATING with (2 ^ 6). rewrite !has_flag_bit by lia.
  rewrite !elem_of_cons, elem_of_nil in Hb. intros H1 H2 H3 H4 H5. destruct Hb as [->|[->|[->|[->|[->|[]]]]]]; congruence.
Qed.

Lemma logger_init_ok CB w this p param c0 : p ≠ 0 → w_ctxs w !! p = Some c0 →
  outcome w (logger_init CB sink_ok w this p param) (λ r, r.1.1.1 = true ∧ lg_sinks r.1.2 ≠ [] ∧ null_sink_st ∉ lg_sinks r.1.2 ∧
    r.2 = ctx_store w p (ctx_with_cb_ud (ctx_with_msg_callback c0 CB) this)).
Proof.
  intros Hp Hc. unfold CService.logger_init. destruct (base_config_spec w p) as (c & -> & Ht). rewrite bind_Ok. cbv beta iota.
  assert (Hnz : (type_ c =? LOG_TYPE_NULL) = false).
  { apply Z.eqb_neq. intros E. destruct Ht as (b & _ & Hb). rewrite E in Hb. by rewrite Z.bits_0 in Hb. }
  rewrite Hnz. destruct (console_sink_spec c) as (o & -> & Ho & Hno). rewrite bind_Ok.
  eapply (outcome_bind w _ _ (λ r, r.2 = w ∧ r.1.1.1 = o ∧ r.1.1.2 ≠ Some null_sink_st ∧ (o = None → r.1.1.2 ≠ None))).
  - eapply outcome_bind; [apply file_sink_outcome|]. intros [[f c'] w1] (E1 & E2 & E3). cbn in *. subst w1. split_and!; try done.
    intros -> ->. destruct Hno as [H1 H2]; [done|]. destruct E3 as (H3 & H4 & H5); [done|]. by eapply has_type_flags.
  - intros [[[a f] c'] w1] (E1 & E2 & E3 & E4). cbn in E1, E2, E3, E4. subst w1 a.
    assert (Hset : set_callback w p CB this = Ok (ctx_store w p (ctx_with_cb_ud (ctx_with_msg_callback c0 CB) this))).
    { unfold set_callback. by rewrite (ctx_deref_Ok w p c0). }
    destruct o as [a|], f as [b|]; [..|by destruct E4]; rewrite bind_Ok, Hset, bind_Ok; cbn; split_and!; try done; set_solver.
Qed.
End sinks.
End init.

(** ** A Lua service gets its argument *)

Lemma substring_all s : substring 0 (String.length s) s = s.
Proof. induction s as [|c s IH]; cbn; [done|by rewrite IH]. Qed.
Lemma str_drop_1 c s : str_drop 1 (String c s) = s.
Proof. unfold str_drop. cbn [String.length substring]. rewrite Nat.sub_succ, Nat.sub_0_r. apply substring_all. Qed.

Lemma stoi_hex_min u h : 0 < h < 2 ^ 31 → stoi 16 (hex_min u h) = Ok h.
Proof.
  intros Hh. unfold hex_min. rewrite (proj2 (Z.eqb_neq h 0)) by lia.
  pose proof (hex_width_bound h ltac:(lia)) as Hw. assert (Hall := hex_pad_all_hex u (hex_width h) h).
  assert (Hv : strtol 16 (hex_pad u (hex_width h) h) = h).
  { unfold strtol. rewrite strto_parse_hex by done. rewrite digits_hex_pad, Z.mod_small by lia. unfold LONG_MAX. cbn. lia. }
  assert (Hd : ∃ n, hex_width h = S n) by (exists (Nat.pred (hex_width h)); unfold hex_width; lia). destruct Hd as [n Hn].
  unfold stoi, stoi_has_digit. rewrite Hv. rewrite Hn in *. cbn [hex_pad] in *. set (d := Z.land _ 15) in *.
  assert (Hd : 0 <= d < 16) by (subst d; change 15 with (Z.ones 4); rewrite Z.land_ones by lia; apply Z.mod_pos_bound; lia).
  cbn [all_hex] in Hall. apply andb_true_iff in Hall as [Hc _]. pose proof (hex_digit_code _ Hc) as Hcode.
  assert (Hsp : is_space (hex_char u d) = false) by (unfold is_space; zbool).
  cbn [skip_spaces]. rewrite Hsp, (proj2 (Z.eqb_neq _ 45)), (proj2 (Z.eqb_neq _ 43)) by lia. cbn [orb].
  rewrite hex_char_value by done. rewrite (proj2 (Z.ltb_lt d 16)) by lia. unfold INT_MAX. cbn [negb].
  by rewrite (proj2 (Z.ltb_ge _ _)), (proj2 (Z.ltb_ge _ _)) by lia.
Qed.

Section snlua.
Variable create_func : Z → world → result (Z * world).
Variable release_func : Z → Z → world → result world.
Hypothesis release_frame : ∀ f s w, release_func f s w = Ok w.
Variable svc_init : Z → Z → option string → world → result (bool * world).
Variable dlopen : string → Z.
Variable dlsym : Z → string → Z.
Variable thread_clock : world → Z * Z.
Variable svc_signal : Z → Z → world → result world.
Variable fopen : string → Z.
Variable ctime : Z → string.
Variable lf_micros : Z → string.

Notation snlua_init := (snlua_init create_func release_func svc_init dlopen dlsym thread_clock svc_signal fopen ctime lf_micros).
Notation snlua_cb := (snlua_cb create_func release_func svc_init dlopen dlsym thread_clock svc_signal fopen ctime lf_micros).

(** what the scheduler knows about a context stays when other fields are written *)
Lemma sched_inv_fields g l p c c' : sched_inv_at g l → w_ctxs (g_w g) !! p = Some c →
  ctx_svc_handle c' = ctx_svc_handle c → ctx_queue c' = ctx_queue c → ctx_svc_mod_ptr c' = ctx_svc_mod_ptr c → ctx_ref c' = ctx_ref c →
  sched_inv_at (at_world g (ctx_store (g_w g) p c')) l.
Proof.
  intros Hinv Hc Hh Hq Hm Hr. destruct (si_ctx _ _ Hinv p c Hc) as [_ _ Href Hdy _ _].
  apply (sched_inv_ctx g l p c c' (g_refs g) (g_dying g)); try done; rewrite Hr; done.
Qed.

Lemma snlua_init_sends CB g l this p c param : sched_inv_at g l → p ≠ 0 → w_ctxs (g_w g) !! p = Some c →
  svc_find (g_w g) (ctx_svc_handle c) = p → has_room (g_w g) (ctx_svc_handle c) → strlen param < 2 ^ 31 →
  ∃ w' ms c', snlua_init CB this p (Some param) (g_w g) = Ok (true, w') ∧ contents_map (w_mq (g_w g)) !! ctx_queue c = Some ms ∧
    contents_map (w_mq w') = <[ctx_queue c := (ms ++ [mkMsg (ctx_svc_handle c) 0 (w_next (g_w g)) (strlen param)])%list]> (contents_map (w_mq (g_w g))) ∧
    w_blocks w' = <[w_next (g_w g) := bytes_of param]> (w_blocks (g_w g)) ∧ w_ctxs w' = <[p := c']> (w_ctxs (g_w g)) ∧ ctx_msg_callback c' = CB ∧ ctx_cb_ud c' = this ∧
    sched_inv (at_world g w').
Proof.
  intros Hinv Hp Hc Hfind Hroom Hlen. destruct (si_ctx _ _ Hinv p c Hc) as [_ Hh _ _ _ _]. unfold HANDLE_MASK in Hh. set (h := ctx_svc_handle c) in *.
  assert (Hlen0 : 0 <= strlen param) by (unfold strlen; lia).
  unfold CService.snlua_init, deref_param. rewrite bind_Ok. cbv zeta. cbn [alloc_block]. set (w0 := w_with_blocks _ _).
  unfold set_callback. rewrite (ctx_deref_Ok w0 p c Hp Hc), bind_Ok, bind_Ok. set (c1 := ctx_with_cb_ud _ _). set (w1 := ctx_store w0 p c1).
  assert (Hc1 : w_ctxs w1 !! p = Some c1) by apply lookup_insert_eq.
  pose proof (hex_min_length false h ltac:(lia)) as Hhex.
  assert (Hreg : exec_command create_func release_func svc_init dlopen dlsym thread_clock svc_signal fopen ctime lf_micros w1 p "REGISTER" None =
    Ok (Some (String ":" (hex_min false h)), ctx_store w1 p (ctx_with_cmd_result c1 (String ":" (hex_min false h))))).
  { transitivity (cmd_register release_func w1 p None); [done|]. unfold cmd_register. rewrite (ctx_deref_Ok w1 p c1 Hp Hc1), bind_Ok. apply set_result_Ok; [done|done|].
    change (ctx_svc_handle c1) with h. unfold CMD_RESULT_SIZE, strlen in *. cbn [String.length append]. lia. }
  rewrite Hreg, bind_Ok. cbv iota beta. rewrite bind_Ok, str_drop_1, stoi_hex_min, bind_Ok by lia. rewrite u32_small by lia.
  set (c2 := ctx_with_cmd_result _ _). set (w2 := ctx_store w1 p c2).
  assert (Hw2 : w2 = ctx_store w0 p c2) by (unfold w2, w1, ctx_store, w_with_ctxs; cbn; by rewrite insert_insert_eq).
  assert (Hinv2 : sched_inv_at (at_world g w2) l).
  { rewrite Hw2. apply (sched_inv_fields (at_world g w0) l p c); try done. apply sched_inv_memory; cbn; done || lia. }
  assert (Hf2 : svc_find (g_w (at_world g w2)) h = p).
  { rewrite <- Hfind. unfold svc_find. cbn [g_w at_world]. rewrite Hw2. by rewrite (hofs_store w0 p c c2). }
  assert (Hq2 : queue_of w2 p = ctx_queue c) by (unfold queue_of, w2; cbn; by rewrite lookup_insert_eq).
  assert (Hq : queue_of (g_w g) p = ctx_queue c) by (unfold queue_of; by rewrite Hc).
  assert (Hroom2 : has_room (g_w (at_world g w2)) h).
  { unfold has_room in *. rewrite Hf2. cbn [g_w at_world]. rewrite Hq2. by rewrite Hfind, Hq in Hroom. }
  destruct (push_live release_func release_frame (at_world g w2) l h (mkMsg h 0 (w_next (g_w g)) (strlen param)) Hinv2) as (mq' & ms & Hpush & Hms & Hcm & Hinv3);
    [by rewrite Hf2|done|]. cbn [g_w at_world] in *. rewrite Hf2, Hq2 in *.
  exists (w_with_mq w2 mq'), ms, c2. split.
  - assert (Hsend : send release_func w2 p 0 h MESSAGE_TAG_DONT_COPY 0 (w_next (g_w g)) (strlen param) = Ok (0, w_with_mq w2 mq')).
    { unfold send. rewrite (proj2 (size_too_large_spec (strlen param) ltac:(lia))) by lia. cbv zeta.
      change (has_tag MESSAGE_TAG_DONT_COPY MESSAGE_TAG_DONT_COPY) with true. change (has_tag MESSAGE_TAG_DONT_COPY MESSAGE_TAG_ALLOC_SESSION) with false.
      change (Z.land MESSAGE_TAG_DONT_COPY 255) with 0. cbn [negb andb]. rewrite !bind_Ok. cbv iota beta. rewrite (proj2 (Z.eqb_neq h 0)) by lia. rewrite Z.eqb_refl. rewrite (ctx_deref_Ok w2 p c2 Hp) by apply lookup_insert_eq. rewrite !bind_Ok.
      change (ctx_svc_handle c2) with h. replace (pack_size 0 (strlen param)) with (strlen param) by (rewrite pack_size_add; lia). rewrite Hpush. done. }
    by rewrite Hsend.
  - split_and!; try done. cbn. by rewrite insert_insert_eq.
Qed.

(** the globals of the loader *)
Definition env_of (w : world) : lua_env :=
  mkLuaEnv (default "./lualib/?.lua;./lualib/?/init.lua" (get_env (w_env w) "lua_path")) (default "./luaclib/?.so" (get_env (w_env w) "lua_cpath"))
    (default "./service/?.lua" (get_env (w_env w) "luaservice")) (get_env (w_env w) "preload").
Definition loader_of (w : world) : string := default "./lualib/loader.lua" (get_env (w_env w) "lualoader").

Lemma snlua_cb_calls luaL_loadfile loader_call memlimit fmt_float svc w p c d param w' : p ≠ 0 → w_ctxs w !! p = Some c → d ≠ 0 → w_blocks w !! d = Some (bytes_of param) →
  luaL_loadfile (loader_of w) = None →
  loader_call (ctx_store w p (ctx_with_cb_ud (ctx_with_msg_callback c 0) 0)) p (env_of w) (bytes_of param) = Ok (None, w') → memlimit w' = None →
  snlua_cb luaL_loadfile loader_call memlimit fmt_float svc p 0 0 d (strlen param) w = Ok (0, svc <| svc_ctx_ := p |>, w').
Proof.
  intros Hp Hc Hd Hb Hload Hcall Hmem. unfold CService.snlua_cb. cbn [Z.eqb andb massert rbind].
  unfold set_callback. rewrite (ctx_deref_Ok w p c Hp Hc), !bind_Ok. set (w1 := ctx_store _ _ _) in *.
  assert (Hpre : exec_command create_func release_func svc_init dlopen dlsym thread_clock svc_signal fopen ctime lf_micros w1 p "GET_ENV" (Some "preload") = Ok (get_env (w_env w1) "preload", w1)) by done.
  unfold CService.init_lua_cb. cbv zeta.
  do 3 (rewrite get_env_spec, bind_Ok; cbv iota beta). rewrite Hpre, bind_Ok. cbv iota beta. rewrite get_env_spec, bind_Ok. cbv iota beta.
  change (default "./lualib/loader.lua" (get_env (w_env w1) "lualoader")) with (loader_of w). rewrite Hload.
  rewrite <- bytes_of_length, (read_block_prefix w1 d (bytes_of param)) by done. rewrite firstn_all, bind_Ok.
  change (mkLuaEnv _ _ _ _) with (env_of w). rewrite Hcall, bind_Ok, Hmem, bind_Ok. done.
Qed.
End snlua.

(** ** The memory of a Lua state *)

Definition total (heap : gmap Z Z) : Z := map_fold (λ _ n s, n + s) 0 heap.

Lemma total_empty : total ∅ = 0.
Proof. done. Qed.
Lemma mem_total_insert heap p n : heap !! p = None → total (<[p := n]> heap) = n + total heap.
Proof. intros H. unfold total. rewrite map_fold_insert_L; [done|intros; lia|done]. Qed.
Lemma total_delete heap p n : heap !! p = Some n → total heap = n + total (delete p heap).
Proof. intros H. unfold total. rewrite (map_fold_delete_L _ _ p n); [done|intros; lia|done]. Qed.

(** the count of a Lua state is the size of its blocks *)
Definition counted (svc : snlua_service) (heap : gmap Z Z) : Prop :=
  mem_ svc = total heap ∧ 0 <= total heap < 2 ^ 64 ∧ map_Forall (λ _ n, 0 <= n) heap.

Lemma mem_total_nonneg heap : map_Forall (λ _ n, 0 <= n) heap → 0 <= total heap.
Proof.
  induction heap as [|p n heap Hp IH] using map_ind; [done|]. intros [Hn H]%map_Forall_insert; [|done]. rewrite mem_total_insert by done. specialize (IH H). lia.
Qed.

Section memory.
Variable release_func : Z → Z → world → result world.
Variable fmt_float : Z → Z → string.
Variable realloc : gmap Z Z → Z → Z → Z.

(** the size that a request takes away *)
Definition old_size (ptr osize : Z) : Z := if ptr =? 0 then 0 else osize.

Lemma total_without heap ptr osize : map_Forall (λ _ n, 0 <= n) heap → ptr = 0 ∧ heap !! 0 = None ∨ ptr ≠ 0 ∧ heap !! ptr = Some osize →
  total heap = old_size ptr osize + total (delete ptr heap) ∧ 0 <= total (delete ptr heap) ∧ 0 <= old_size ptr osize.
Proof.
  intros Hpos Hptr. assert (Hd : map_Forall (λ _ n, 0 <= n) (delete ptr heap)) by (by apply map_Forall_delete). apply mem_total_nonneg in Hd. unfold old_size.
  destruct Hptr as [[-> H0]|[Hp H]].
  - rewrite delete_id in * by done. split_and!; done || lia.
  - rewrite (proj2 (Z.eqb_neq ptr 0)) by done. split_and!; [by apply total_delete|done|by apply (Hpos ptr)].
Qed.

Lemma lalloc_spec svc heap w ptr osize nsize :
  counted svc heap → 0 <= nsize → total heap + nsize < 2 ^ 64 → ptr = 0 ∧ heap !! 0 = None ∨ ptr ≠ 0 ∧ heap !! ptr = Some osize →
  (nsize ≠ 0 → realloc heap ptr nsize ≠ 0 ∧ delete ptr heap !! realloc heap ptr nsize = None) →
  (∀ text, ∃ w', log_warn release_func w (svc_ctx_ svc) text = Ok w') →
  let rest := total (delete ptr heap) in
  if negb (mem_limit_ svc =? 0) && (mem_limit_ svc <? rest + nsize) && ((ptr =? 0) || (osize <? nsize)) then
    lalloc release_func fmt_float realloc svc heap w ptr osize nsize = Ok (0, svc, heap, w)
  else ∃ p svc' heap' w', lalloc release_func fmt_float realloc svc heap w ptr osize nsize = Ok (p, svc', heap', w') ∧
    counted svc' heap' ∧ total heap' = rest + nsize ∧ mem_limit_ svc' = mem_limit_ svc ∧
    heap' = (if nsize =? 0 then delete ptr heap else <[p := nsize]> (delete ptr heap)) ∧ (p = 0 ↔ nsize = 0).
Proof.
  intros (Hmem & Htot & Hpos) Hn Hmax Hptr Hre Hlog rest. destruct (total_without heap ptr osize Hpos Hptr) as (E & Hrest & Hold). fold rest in E, Hrest.
  assert (Hm : mem_ (if negb (ptr =? 0) then svc <| mem_ := u64 (mem_ svc + nsize) |> <| mem_ := u64 (u64 (mem_ svc + nsize) - osize) |> else svc <| mem_ := u64 (mem_ svc + nsize) |>) = rest + nsize).
  { unfold old_size in *. rewrite Hmem, (u64_small (total heap + nsize)) by lia. destruct (ptr =? 0); cbn; [|rewrite u64_small]; lia. }
  unfold lalloc. cbv zeta. set (svc1 := if negb (ptr =? 0) then _ else _) in *.
  assert (Hsvc : mem_limit_ svc1 = mem_limit_ svc ∧ mem_report_ svc1 = mem_report_ svc ∧ svc_ctx_ svc1 = svc_ctx_ svc ∧ svc1 <| mem_ := mem_ svc |> = svc).
  { subst svc1. destruct (negb _); cbn; split_and!; try done; by destruct svc. }
  destruct Hsvc as (Hlim & Hrep & Hctx & Hback). change (mem_ svc1 = rest + nsize) in Hm. rewrite Hm, Hlim, Hback.
  destruct (_ && _ && _); [done|].
  assert (Hwarn : ∃ svc2 w2, (if mem_report_ svc1 <? rest + nsize then
      w <- log_warn release_func w (svc_ctx_ svc1) ("Memory warning " ++ fmt_float 2 (rest + nsize) ++ "M");; Ok (svc1 <| mem_report_ := u64 (mem_report_ svc1 * 2) |>, w)
    else Ok (svc1, w)) = Ok (svc2, w2) ∧ mem_ svc2 = rest + nsize ∧ mem_limit_ svc2 = mem_limit_ svc).
  { destruct (_ <? _); [|by exists svc1, w]. rewrite Hctx. destruct (Hlog ("Memory warning " ++ fmt_float 2 (rest + nsize) ++ "M")) as [w' ->]. by eexists _, w'. }
  destruct Hwarn as (svc2 & w2 & -> & Hm2 & Hl2). rewrite bind_Ok. unfold skynet_lalloc.
  assert (Hlive : (ptr =? 0) || bool_decide (is_Some (heap !! ptr)) = true).
  { destruct Hptr as [[-> _]|[_ H]]; [done|]. rewrite H, bool_decide_eq_true_2 by done. apply orb_true_r. }
  rewrite Hlive. cbn [negb]. destruct (Z.eqb_spec nsize 0) as [->|Hn0].
  - rewrite bind_Ok. exists 0, svc2, (delete ptr heap), w2. fold rest. split_and!; try done; try lia. unfold counted. fold rest. split_and!; try lia. by apply map_Forall_delete.
  - destruct (Hre Hn0) as [Hq Hfresh]. rewrite (proj2 (Z.eqb_neq _ 0)) by done. rewrite bind_Ok. eexists _, svc2, _, w2. split; [done|].
    assert (Ht : total (<[realloc heap ptr nsize := nsize]> (delete ptr heap)) = rest + nsize) by (rewrite mem_total_insert by done; fold rest; lia).
    split_and!; rewrite ?Ht; try done; try lia. unfold counted. rewrite Ht. split_and!; try lia. apply map_Forall_insert_2; [done|]. by apply map_Forall_delete.
Qed.
End memory.

(** ** Claims *)

(** Whatever the configuration says, the logger has somewhere to print: [init] succeeds with at least one sink that
    is not the null sink, and with the callback set, unless one of the four numbers of the file sinks is given as a text
    that is not an [int], or is so large that its megabytes are none; then an exception or an overflow ends the node.
    So no value of [logger_type] silences the logger. *)
Theorem logger_init_outcome create_func release_func svc_init dlopen dlsym thread_clock svc_signal fopen ctime lf_micros cb sink_ok w this p param c :
  (∀ s, sink_ok s = true) → p ≠ 0 → w_ctxs w !! p = Some c →
  match logger_init create_func release_func svc_init dlopen dlsym thread_clock svc_signal fopen ctime lf_micros cb sink_ok w this p param with
  | Ok (ok, cfg, lg, w') => ok = true ∧ lg_sinks lg ≠ [] ∧ null_sink_st ∉ lg_sinks lg ∧ w' = ctx_store w p (ctx_with_cb_ud (ctx_with_msg_callback c cb) this)
  | Err e => (e = UncaughtException ∨ e = SignedOverflow) ∧ ∃ key v, key ∈ number_keys ∧ get_env (w_env w) key = Some v ∧ v ≠ "" ∧ ¬ number_ok v
  end.
Proof.
  intros Hs Hp Hc. pose proof (logger_init_ok create_func release_func svc_init dlopen dlsym thread_clock svc_signal fopen ctime lf_micros sink_ok Hs cb w this p param c Hp Hc) as H.
  unfold outcome in H. destruct (CService.logger_init _ _ _ _ _ _ _ _ _ _ _ _ _ _ _ _) as [[[[ok cfg] lg] w']|e]; [done|].
  destruct H as [He (key & Hk & v & Hv)]. split; [done|]. by exists key, v.
Qed.
Lemma logger_init_outcome_witness : let w := g_w example_g in
  let r := logger_init (λ _ w, Ok (5, w)) release_nothing (λ _ _ _ w, Ok (true, w)) (λ _, 0) (λ _ _, 0) (λ _, (0, 0)) (λ _ _ w, Ok w) (λ _, 0) (λ _, "") (λ _, "")
             99 (λ _, true) w 5 1 None in
  is_ok r = true ∧ match r with Ok (ok, cfg, lg, w') => ok = true ∧ lg_sinks lg ≠ [] ∧ null_sink_st ∉ lg_sinks lg | Err _ => False end.
Proof.
  intros w r. assert (Hr : is_ok r = true) by (vm_compute; reflexivity). split; [exact Hr|].
  destruct (w_ctxs w !! 1) as [c|] eqn:Hc; [|vm_compute in Hc; congruence].
  pose proof (logger_init_outcome (λ _ w, Ok (5, w)) release_nothing (λ _ _ _ w, Ok (true, w)) (λ _, 0) (λ _ _, 0) (λ _, (0, 0)) (λ _ _ w, Ok w) (λ _, 0) (λ _, "") (λ _, "")
             99 (λ _, true) w 5 1 None c (λ _, eq_refl) ltac:(done) Hc) as H. fold r in H.
  destruct r as [[[[ok cfg] lg] w']|e]; [|done]. destruct H as (H1 & H2 & H3 & _). split; [exact H1|split; [exact H2|exact H3]].
Defined.

(** C17: A new Lua service starts with its argument: [init] puts one message behind those of the service's queue, from the
    service to itself, with a copy of the argument, and sets the callback; and that callback, given the message,
    clears itself and calls the Lua loader with the same bytes and the paths of the environment. *)
Theorem snlua_argument_reaches_loader create_func release_func svc_init dlopen dlsym thread_clock svc_signal fopen ctime lf_micros cb g this p c param :
  (∀ f s w, release_func f s w = Ok w) → sched_inv g → p ≠ 0 → w_ctxs (g_w g) !! p = Some c → svc_find (g_w g) (ctx_svc_handle c) = p →
  has_room (g_w g) (ctx_svc_handle c) → strlen param < 2 ^ 31 →
  ∃ w' ms m c', snlua_init create_func release_func svc_init dlopen dlsym thread_clock svc_signal fopen ctime lf_micros cb this p (Some param) (g_w g) = Ok (true, w') ∧
    contents_map (w_mq (g_w g)) !! ctx_queue c = Some ms ∧ contents_map (w_mq w') = <[ctx_queue c := (ms ++ [m])%list]> (contents_map (w_mq (g_w g))) ∧
    w_ctxs w' !! p = Some c' ∧ ctx_msg_callback c' = cb ∧ sched_inv (at_world g w') ∧
    ∀ luaL_loadfile loader_call memlimit fmt_float svc w2 c2 w3, w_ctxs w2 !! p = Some c2 → w_blocks w2 !! data_ptr m = w_blocks w' !! data_ptr m →
      luaL_loadfile (loader_of w2) = None →
      loader_call (ctx_store w2 p (ctx_with_cb_ud (ctx_with_msg_callback c2 0) 0)) p (env_of w2) (bytes_of param) = Ok (None, w3) → memlimit w3 = None →
      snlua_cb create_func release_func svc_init dlopen dlsym thread_clock svc_signal fopen ctime lf_micros luaL_loadfile loader_call memlimit fmt_float svc p
        (unpack_type (data_size m)) (session_id m) (data_ptr m) (unpack_size (data_size m)) w2 = Ok (0, svc <| svc_ctx_ := p |>, w3).
Proof.
  intros Hf [l Hinv] Hp Hc Hfind Hroom Hlen.
  destruct (snlua_init_sends create_func release_func Hf svc_init dlopen dlsym thread_clock svc_signal fopen ctime lf_micros cb g l this p c param Hinv Hp Hc Hfind Hroom Hlen)
    as (w' & ms & c' & E & Hms & Hcm & Hb & Hctx & Hcb & _ & Hinv').
  eexists w', ms, _, c'. split; [exact E|]. split; [exact Hms|]. split; [exact Hcm|]. split; [by rewrite Hctx, lookup_insert_eq|]. split; [done|]. split; [done|].
  intros lf lc ml ff svc w2 c2 w3 Hc2 Hb2 Hload Hcall Hmem. cbn [data_ptr data_size session_id] in *. rewrite Hb, lookup_insert_eq in Hb2.
  assert (Hlen0 : 0 <= strlen param) by (unfold strlen; lia).
  assert (Hpk : strlen param = pack_size 0 (strlen param)) by (rewrite pack_size_add; lia). rewrite Hpk, unpack_type_pack, unpack_size_pack by lia.
  apply (snlua_cb_calls create_func release_func svc_init dlopen dlsym thread_clock svc_signal fopen ctime lf_micros lf lc ml ff svc w2 p c2 (w_next (g_w g)) param w3); try done.
  pose proof (si_next _ _ Hinv). lia.
Qed.
Definition example_ctx : service_context := default (mkCtx "" 0 0 0 0 0 "" 0 0 0 false false 0 0 0 false) (w_ctxs (g_w example_g) !! 1).
Lemma snlua_argument_reaches_loader_witness :
  let create_func := λ (_ : Z) (w : world), Ok (5, w) in let svc_init := λ (_ _ : Z) (_ : option string) (w : world), Ok (true, w) in
  let signal := λ (_ _ : Z) (w : world), Ok w in
  ∃ w' ms m, snlua_init create_func release_nothing svc_init (λ _, 0) (λ _ _, 0) (λ _, (0, 0)) signal (λ _, 0) (λ _, "") (λ _, "") 99 5 1 (Some "main") (g_w example_g) = Ok (true, w') ∧
    contents_map (w_mq w') = <[ctx_queue example_ctx := (ms ++ [m])%list]> (contents_map (w_mq (g_w example_g))) ∧
    ∀ svc, ∃ w3, snlua_cb create_func release_nothing svc_init (λ _, 0) (λ _ _, 0) (λ _, (0, 0)) signal (λ _, 0) (λ _, "") (λ _, "")
      (λ _, None) (λ w _ env bytes, Ok (None, file_write w 77 (LUA_CPATH env ++ " " ++ string_of_bytes bytes))) (λ _, None) (λ _ _, "") svc 1
      (unpack_type (data_size m)) (session_id m) (data_ptr m) (unpack_size (data_size m)) w' = Ok (0, svc <| svc_ctx_ := 1 |>, w3).
Proof.
  intros create_func svc_init signal.
  destruct (snlua_argument_reaches_loader create_func release_nothing svc_init (λ _, 0) (λ _ _, 0) (λ _, (0, 0)) signal (λ _, 0) (λ _, "") (λ _, "") 99 example_g 5 1 example_ctx "main"
    (λ _ _ _, eq_refl)) as (w' & ms & m & c' & H1 & _ & H3 & H4 & _ & _ & H7);
    [apply (reachable_inv release_nothing mods_one example_g (λ _ _ _, eq_refl) example_reachable)|done|vm_compute; reflexivity|vm_compute; reflexivity|vm_compute; congruence|done|].
  exists w', ms, m. split; [exact H1|]. split; [exact H3|]. intros svc. eexists.
  apply (H7 (λ _, None) (λ w _ env bytes, Ok (None, file_write w 77 (LUA_CPATH env ++ " " ++ string_of_bytes bytes))) (λ _, None) (λ _ _, "") svc w' c'
    _ H4 eq_refl eq_refl eq_refl eq_refl).
Defined.


(** ** What the code does not expect *)

(** 2048 megabytes are not an [int] *)
Example logger_size_overflows : let r w := logger_init (λ _ w, Ok (5, w)) release_nothing (λ _ _ _ w, Ok (true, w)) (λ _, 0) (λ _ _, 0) (λ _, (0, 0)) (λ _ _ w, Ok w) (λ _, 0) (λ _, "") (λ _, "")
    99 (λ _, true) w 5 1 None in
  let env size := w_with_env (g_w example_g) (<["logger_type" := "rotating"]> {["logger_rotating_max_size" := size]}) in
  r (env "2048") = Err SignedOverflow ∧ r (env "2G") ≠ Err UncaughtException ∧ r (env "much") = Err UncaughtException.
Proof. vm_compute. repeat split; congruence. Qed.

(** a Lua service launched without an argument *)
Lemma snlua_needs_argument create_func release_func svc_init dlopen dlsym thread_clock svc_signal fopen ctime lf_micros cb this p w :
  snlua_init create_func release_func svc_init dlopen dlsym thread_clock svc_signal fopen ctime lf_micros cb this p None w = Err NullDeref.
Proof. done. Qed.

(** an allocation that fails is counted all the same *)
Example lalloc_counts_failure : let svc := mkSnlua true 0 100 MEMORY_WARNING_REPORT 0 in
  match lalloc release_nothing (λ _ _, "") (λ _ _ _, 0) svc {[8 := 100]} world_init 0 5 60 with
  | Ok (p, svc', heap', _) => p = 0 ∧ heap' = {[8 := 100]} ∧ mem_ svc' = 160
  | Err _ => False
  end.
Proof. vm_compute. repeat split. Qed.
