(* ===== verification/NodeSocket.v ===== *)
(** * The node's socket facade (skynet-src/node: node_socket.h, node_socket.cpp)

    The socket thread polls the socket server and turns each event into a message in the
    queue of the service that owns the socket; the other operations pass to the server.

    The socket server and the services share one heap in the program; the two parts of the
    model number their blocks apart. A block that the server hands to a service gets a number
    of the receiving part, texts of the server's log are queued for the logger when the call
    that wrote them returns. *)
From Stdlib Require Import Ascii String.
From S2P Require Import Prelude Bytes SocketMessage Message Timer Env MqPrivate MqGlobal HandleName HandleSlot Text ModManager Service Node Scheduler Manager SocketObject SocketEndpoint SocketCmd SocketState SocketServer SocketOrder.
Open Scope string_scope.
Open Scope Z_scope.

(** [class node_socket]: [ns_server] is [socket_server_], [None] when it is reset; the kernel
    is kept while there is no server *)
Record node_socket (K : Type) := mkNs { ns_world : world; ns_server : option (server K); ns_kernel : K }.
Arguments mkNs {K}. Arguments ns_world {K}. Arguments ns_server {K}. Arguments ns_kernel {K}.

Definition N (K A : Type) : Type := node_socket K → result (A * node_socket K).
#[export] Instance N_ret K : MRet (N K) := λ A a s, Ok (a, s).
#[export] Instance N_bind K : MBind (N K) := λ A B k m s, let* (a, s) := m s in k a s.

Section node_socket.
Context {K : Type} `{Kernel K}.
Variable release_func : Z → Z → world → result world.
Notation N := (N K).
Notation M := (M K).

(** the texts given to [log_error] *)
Fixpoint log_texts (w : world) (texts : list string) : result world :=
  match texts with
  | [] => Ok w
  | text :: texts => w <- Service.log_error release_func w 0 text;; log_texts w texts
  end.

(** a call [socket_server_->...] *)
Definition on_server {A} (m : M A) : N A := λ ns,
  match ns_server ns with
  | None => Err NullDeref
  | Some sv =>
      let* (a, sv) := m sv in
      w <- log_texts (ns_world ns) (sv_log sv);;
      Ok (a, mkNs w (Some (sv <| sv_log := [] |>)) (ns_kernel ns))
  end.

Definition gets_world {A} (f : world → A) : N A := λ ns, Ok (f (ns_world ns), ns).

(** [socket_server_.reset()]: the destructor calls [fini] *)
Definition ns_reset : N unit := λ ns,
  match ns_server ns with
  | None => Ok (tt, ns)
  | Some sv =>
      let* (_, sv) := server_fini sv in
      w <- log_texts (ns_world ns) (sv_log sv);;
      Ok (tt, mkNs w None (sv_os sv))
  end.

Definition ns_init : N bool :=
  (λ ns, Ok (tt, mkNs (ns_world ns) (Some (server_new (ns_kernel ns))) (ns_kernel ns)));;
  ticks ← gets_world (λ w, now_ticks (w_timer w));
  ok ← on_server (server_init ticks);
  if negb ok then ns_reset;; mret false else mret true.

Definition ns_fini : N unit := ns_reset.

Definition ns_exit : N unit := on_server server_exit.

Definition ns_update_time : N unit :=
  ticks ← gets_world (λ w, now_ticks (w_timer w));
  on_server (server_update_time ticks).

(** the bytes up to the terminator that [data_ptr] points to *)
Definition message_text (sv : server K) (d : data_ref) : list Z :=
  match d with
  | DNull => []
  | DText s => bytes_of s
  | DAddrBuf => bytes_of (sv_addr_tmp_buf sv)
  | DBlock p => c_str (default [] (sv_blocks sv !! p))
  end.

(** the memory a message without a copy refers to: it changes hands *)
Definition hand_over (w : world) (sv : server K) (d : data_ref) : result (Z * world * server K) :=
  match d with
  | DNull => Ok (0, w, sv)
  | DBlock p =>
      match sv_blocks sv !! p with
      | None => Err UseAfterFree
      | Some bytes =>
          let '(q, w) := alloc_block w bytes in
          Ok (q, w, sv <| sv_blocks := delete p (sv_blocks sv) |>)
      end
  | _ => Err DoubleFree   (* memory the service cannot give back *)
  end.

Definition forward_message (socket_event : Z) (padding : bool) : N unit := λ ns,
  match ns_server ns with
  | None => Err NullDeref
  | Some sv =>
      let msg := sv_result sv in
      let text := if padding then take 128 (message_text sv (sm_data_ptr msg)) else [] in
      let* (buffer, w, sv) := (if padding then Ok (0, ns_world ns, sv) else hand_over (ns_world ns) sv (sm_data_ptr msg)) in
      let sz := SOCKET_MESSAGE_SIZE + Z.of_nat (length text) in
      let '(sm, w) := alloc_block w (ssm_bytes (mkSsm socket_event (sm_socket_id msg) (sm_ud msg) buffer) ++ text)%list in
      let* (r, w) := push_service_message release_func w (sm_svc_handle msg)
                       (mkMsg 0 0 sm (pack_size (msg_type_code SERVICE_MSG_TYPE_SOCKET) sz)) in
      w <- (if negb (r =? 0) then w <- free_block w buffer;; free_block w sm else Ok w);;
      Ok (tt, mkNs w (Some sv) (ns_kernel ns))
  end.

(** [node_socket::poll_socket_event]; the message of the call is a fresh one *)
Definition ns_poll_socket_event (fuel : nat) : N Z := λ ns,
  match ns_server ns with
  | None => Err AssertFail
  | Some _ =>
      (('(type, is_more) ← on_server (set_result_msg socket_message_default;; poll_socket_event fuel true);
        let forwarded := if (is_more : bool) then -1 else 1 in
        if type =? SOCKET_EVENT_EXIT then mret 0
        else if type =? SOCKET_EVENT_DATA then forward_message SKYNET_SOCKET_EVENT_DATA false;; mret forwarded
        else if type =? SOCKET_EVENT_CLOSE then forward_message SKYNET_SOCKET_EVENT_CLOSE false;; mret forwarded
        else if type =? SOCKET_EVENT_OPEN then forward_message SKYNET_SOCKET_EVENT_CONNECT true;; mret forwarded
        else if type =? SOCKET_EVENT_ERROR then forward_message SKYNET_SOCKET_EVENT_ERROR true;; mret forwarded
        else if type =? SOCKET_EVENT_ACCEPT then forward_message SKYNET_SOCKET_EVENT_ACCEPT true;; mret forwarded
        else if type =? SOCKET_EVENT_UDP then forward_message SKYNET_SOCKET_EVENT_UDP false;; mret forwarded
        else if type =? SOCKET_EVENT_WARNING then forward_message SKYNET_SOCKET_EVENT_WARNING false;; mret forwarded
        else
          on_server (log_error_msg ("Unknown socket message type " ++ dec_str type ++ "."));;
          mret (-1)) : N Z) ns
  end.

(** ** The operations that pass to the server *)

Definition ns_send (svc_handle : Z) (sd : send_data) : N Z := on_server (server_send sd).
Definition ns_send_low_priority (svc_handle : Z) (sd : send_data) : N Z := on_server (server_send_low_priority sd).
Definition ns_listen (svc_handle : Z) (local_ip : string) (local_port backlog : Z) : N Z :=
  on_server (server_listen svc_handle local_ip (local_port mod 2 ^ 16) backlog).
Definition ns_connect (svc_handle : Z) (remote_host : string) (remote_port : Z) : N Z :=
  on_server (server_connect svc_handle remote_host (remote_port mod 2 ^ 16)).
Definition ns_close (svc_handle socket_id : Z) : N unit := on_server (server_close svc_handle socket_id).
Definition ns_shutdown (svc_handle socket_id : Z) : N unit := on_server (server_shutdown svc_handle socket_id).
Definition ns_start (svc_handle socket_id : Z) : N unit := on_server (server_start svc_handle socket_id).
Definition ns_pause (svc_handle socket_id : Z) : N unit := on_server (server_pause svc_handle socket_id).
Definition ns_nodelay (svc_handle socket_id : Z) : N unit := on_server (server_nodelay socket_id).
Definition ns_bind_os_fd (svc_handle os_fd : Z) : N Z := on_server (server_bind_os_fd svc_handle os_fd).
Definition ns_udp_socket (svc_handle : Z) (local_ip : string) (local_port : Z) : N Z :=
  on_server (server_udp_socket svc_handle local_ip (local_port mod 2 ^ 16)).
Definition ns_udp_connect (svc_handle socket_id : Z) (remote_ip : string) (remote_port : Z) : N Z :=
  on_server (server_udp_connect socket_id remote_ip remote_port).
Definition ns_udp_sendbuffer (svc_handle : Z) (address : list Z) (sd : send_data) : N Z := on_server (server_udp_send address sd).
Definition ns_udp_address (msg : skynet_socket_message) : N (option (Z * list Z)) := λ ns,
  if negb (ssm_socket_event msg =? SKYNET_SOCKET_EVENT_UDP) then Ok (None, ns)
  else
    match ns_server ns with
    | None => Err NullDeref
    | Some sv =>
        let* (r, _) := server_udp_address (mkSm (ssm_socket_id msg) 0 (ssm_ud msg) (DBlock (ssm_buffer msg)))
                         (sv <| sv_blocks := w_blocks (ns_world ns) |>) in
        Ok (r, ns)
    end.
Definition ns_get_socket_info : N (list socket_info) := on_server server_get_socket_info.
End node_socket.

(** ** Lemmas *)

(** blocks are below the address of the next one *)
Definition blocks_below (w : world) : Prop := ∀ p, is_Some (w_blocks w !! p) → p < w_next w.

Section delivery.
Context {K : Type} `{Kernel K}.
Variable release_func : Z → Z → world → result world.
Hypothesis Hrelease : ∀ f s w, release_func f s w = Ok w.

Lemma alloc_inv g l bytes : sched_inv_at g l → sched_inv_at (at_world g (alloc_block (g_w g) bytes).2) l.
Proof. intros Hinv. apply sched_inv_memory; simpl; done || lia. Qed.

(** the message that [forward_message] queues, from a world that already has its buffer *)
Lemma push_message g l h bytes m : sched_inv_at g l → svc_find (g_w g) h ≠ 0 → has_room (g_w g) h →
  ∃ w' ms, push_service_message release_func (alloc_block (g_w g) bytes).2 h m = Ok (0, w') ∧
    contents_map (w_mq (g_w g)) !! queue_of (g_w g) (svc_find (g_w g) h) = Some ms ∧
    contents_map (w_mq w') = <[queue_of (g_w g) (svc_find (g_w g) h) := (ms ++ [m])%list]> (contents_map (w_mq (g_w g))) ∧
    w_blocks w' = <[w_next (g_w g) := bytes]> (w_blocks (g_w g)) ∧ sched_inv (at_world g w').
Proof.
  intros Hinv Hf Hroom.
  destruct (push_live release_func Hrelease (at_world g (alloc_block (g_w g) bytes).2) l h m (alloc_inv g l bytes Hinv) Hf Hroom)
    as (mq' & ms & Hp & Hms & Hcm & Hinv').
  eexists _, ms. split; [exact Hp|]. split_and!; done.
Qed.

(** a message with a copy of a text *)
Lemma forward_text g (sv : server K) k ev : sched_inv g →
  svc_find (g_w g) (sm_svc_handle (sv_result sv)) ≠ 0 → has_room (g_w g) (sm_svc_handle (sv_result sv)) →
  let msg := sv_result sv in
  let text := take 128 (message_text sv (sm_data_ptr msg)) in
  let q := queue_of (g_w g) (svc_find (g_w g) (sm_svc_handle msg)) in
  ∃ w' ms, forward_message release_func ev true (mkNs (g_w g) (Some sv) k) = Ok (tt, mkNs w' (Some sv) k) ∧
    contents_map (w_mq (g_w g)) !! q = Some ms ∧
    contents_map (w_mq w') =
      <[q := (ms ++ [mkMsg 0 0 (w_next (g_w g)) (pack_size (msg_type_code SERVICE_MSG_TYPE_SOCKET) (24 + Z.of_nat (length text)))])%list]>
        (contents_map (w_mq (g_w g))) ∧
    w_blocks w' !! w_next (g_w g) = Some (ssm_bytes (mkSsm ev (sm_socket_id msg) (sm_ud msg) 0) ++ text)%list ∧
    sched_inv (at_world g w').
Proof.
  intros [l Hinv] Hf Hroom msg text q. unfold forward_message. cbn [ns_server ns_world ns_kernel]. cbv iota. rewrite bind_Ok.
  destruct (push_message g l _ (ssm_bytes (mkSsm ev (sm_socket_id msg) (sm_ud msg) 0) ++ text)
    (mkMsg 0 0 (w_next (g_w g)) (pack_size (msg_type_code SERVICE_MSG_TYPE_SOCKET) (24 + Z.of_nat (length text)))) Hinv Hf Hroom)
    as (w' & ms & Hp & Hms & Hcm & Hb & Hinv').
  exists w', ms. cbn [alloc_block]. change SOCKET_MESSAGE_SIZE with 24. fold msg text.
  unfold alloc_block in Hp. cbn [snd] in Hp. fold msg in Hp. rewrite Hp. cbn [rbind negb Z.eqb]. split_and!; try done. by rewrite Hb, lookup_insert_eq.
Qed.

(** a message that hands over a block of data *)
Lemma forward_data g (sv : server K) k ev p data : sched_inv g → blocks_below (g_w g) →
  sm_data_ptr (sv_result sv) = DBlock p → sv_blocks sv !! p = Some data → has_room (g_w g) (sm_svc_handle (sv_result sv)) →
  let msg := sv_result sv in
  let sv' := sv <| sv_blocks := delete p (sv_blocks sv) |> in
  let q := queue_of (g_w g) (svc_find (g_w g) (sm_svc_handle msg)) in
  if svc_find (g_w g) (sm_svc_handle msg) =? 0 then
    ∃ w', forward_message release_func ev false (mkNs (g_w g) (Some sv) k) = Ok (tt, mkNs w' (Some sv') k) ∧
      w_blocks w' = w_blocks (g_w g) ∧ w_mq w' = w_mq (g_w g) ∧ sched_inv (at_world g w')
  else
    ∃ w' ms b, forward_message release_func ev false (mkNs (g_w g) (Some sv) k) = Ok (tt, mkNs w' (Some sv') k) ∧
      contents_map (w_mq (g_w g)) !! q = Some ms ∧
      contents_map (w_mq w') =
        <[q := (ms ++ [mkMsg 0 0 (b + 1) (pack_size (msg_type_code SERVICE_MSG_TYPE_SOCKET) 24)])%list]> (contents_map (w_mq (g_w g))) ∧
      w_blocks w' = <[b + 1 := ssm_bytes (mkSsm ev (sm_socket_id msg) (sm_ud msg) b)]> (<[b := data]> (w_blocks (g_w g))) ∧
      w_blocks (g_w g) !! b = None ∧ w_blocks (g_w g) !! (b + 1) = None ∧ sched_inv (at_world g w') ∧ b = w_next (g_w g).
Proof.
  intros [l Hinv] Hbelow Hd Hl Hroom msg sv' q. pose proof (si_next _ _ Hinv) as Hpos.
  assert (Hfree : ∀ b, w_next (g_w g) <= b → w_blocks (g_w g) !! b = None).
  { intros b Hb. destruct (w_blocks (g_w g) !! b) eqn:E; [|done]. specialize (Hbelow b ltac:(by eexists)). lia. }
  unfold forward_message. cbn [ns_server ns_world ns_kernel]. cbv iota. unfold hand_over. rewrite Hd, Hl. unfold alloc_block at 1 3.
  set (w1 := w_with_blocks _ _). rewrite !bind_Ok. cbv iota zeta. rewrite app_nil_r. change (SOCKET_MESSAGE_SIZE + Z.of_nat (length [])) with 24.
  fold msg sv'. pose proof (alloc_inv g l data Hinv) as Hinv1. unfold alloc_block in Hinv1. fold w1 in Hinv1. cbn [snd] in Hinv1.
  set (bytes := ssm_bytes _). unfold alloc_block. set (m := mkMsg _ _ _ _).
  change (w_next w1) with (w_next (g_w g) + 1).
  destruct (Z.eqb_spec (svc_find (g_w g) (sm_svc_handle msg)) 0) as [Hz|Hz].
  - pose proof (alloc_inv _ l bytes Hinv1) as Hinv2.
    set (w2 := w_with_blocks _ _). pose proof (push_dead release_func (at_world g w2) l (sm_svc_handle msg) m Hinv2 Hz) as Hp.
    cbn [at_world g_w] in Hp. rewrite Hp. cbn [rbind negb Z.eqb].
    unfold free_block at 1. rewrite (proj2 (Z.eqb_neq (w_next (g_w g)) 0)) by lia.
    change (w_blocks w2) with (<[w_next (g_w g) + 1 := bytes]> (<[w_next (g_w g) := data]> (w_blocks (g_w g)))).
    rewrite lookup_insert_ne, lookup_insert_eq by lia. rewrite bind_Ok. unfold free_block.
    rewrite (proj2 (Z.eqb_neq (w_next (g_w g) + 1) 0)) by lia. cbn [w_blocks w_with_blocks].
    rewrite lookup_delete_ne, lookup_insert_eq by lia. rewrite bind_Ok.
    eexists. split; [reflexivity|]. cbn [w_blocks w_mq w_with_blocks w_with_next]. split; [|split; [done|]].
    + rewrite delete_insert_ne, !delete_insert_eq by lia. rewrite (delete_id _ (w_next (g_w g))), delete_id by (apply Hfree; lia). done.
    + exists l. apply sched_inv_memory; simpl; done || lia.
  - destruct (push_message (at_world g w1) l (sm_svc_handle msg) bytes m Hinv1 Hz Hroom) as (w' & ms & Hp & Hms & Hcm & Hb & Hinv').
    unfold alloc_block in Hp. cbn [snd at_world g_w] in Hp. change (w_next w1) with (w_next (g_w g) + 1) in Hp. rewrite Hp.
    cbn [rbind negb Z.eqb]. exists w', ms, (w_next (g_w g)). split_and!; try done; apply Hfree; lia.
Qed.
End delivery.

(** ** Properties *)

(** data that arrives on a socket reaches the service that owns it, and its memory has
    exactly one owner: [forward_message] takes the block out of the server, and either the
    service is registered and its queue gets one message more, whose bytes read back as the
    event, the socket, the size and the block with the data, or there is no such service and
    both blocks are freed; no other queue or block changes and the node's invariant is kept. *)
Theorem socket_data_delivered {K} `{Kernel K} release_func g (sv : server K) k ev p data :
  (∀ f s w, release_func f s w = Ok w) → sched_inv g → blocks_below (g_w g) → w_next (g_w g) < 2 ^ 63 →
  is_s32 ev → is_s32 (sm_socket_id (sv_result sv)) → is_s32 (sm_ud (sv_result sv)) →
  sm_data_ptr (sv_result sv) = DBlock p → sv_blocks sv !! p = Some data → has_room (g_w g) (sm_svc_handle (sv_result sv)) →
  ∃ w', forward_message release_func ev false (mkNs (g_w g) (Some sv) k) =
          Ok (tt, mkNs w' (Some (sv <| sv_blocks := delete p (sv_blocks sv) |>)) k) ∧
    sched_inv (at_world g w') ∧
    if svc_find (g_w g) (sm_svc_handle (sv_result sv)) =? 0
    then w_blocks w' = w_blocks (g_w g) ∧ w_mq w' = w_mq (g_w g)
    else ∃ ms sm bytes q, q = queue_of (g_w g) (svc_find (g_w g) (sm_svc_handle (sv_result sv))) ∧
      contents_map (w_mq (g_w g)) !! q = Some ms ∧
      contents_map (w_mq w') =
        <[q := (ms ++ [mkMsg 0 0 sm (pack_size (msg_type_code SERVICE_MSG_TYPE_SOCKET) (Z.of_nat (length bytes)))])%list]>
          (contents_map (w_mq (g_w g))) ∧
      let m := ssm_of_bytes bytes in
      w_blocks w' = <[sm := bytes]> (<[ssm_buffer m := data]> (w_blocks (g_w g))) ∧ sm ≠ ssm_buffer m ∧
      w_blocks (g_w g) !! sm = None ∧ w_blocks (g_w g) !! ssm_buffer m = None ∧
      ssm_socket_event m = ev ∧ ssm_socket_id m = sm_socket_id (sv_result sv) ∧ ssm_ud m = sm_ud (sv_result sv).
Proof.
  intros Hr Hinv Hbelow Hn Hev Hid Hud Hd Hl Hroom.
  pose proof (forward_data release_func Hr g sv k ev p data Hinv Hbelow Hd Hl Hroom) as Hfwd. cbv zeta in Hfwd.
  destruct (svc_find (g_w g) (sm_svc_handle (sv_result sv)) =? 0).
  - destruct Hfwd as (w' & Hf & Hb & Hq & Hinv'). exists w'. done.
  - destruct Hfwd as (w' & ms & b & Hf & Hms & Hcm & Hb & Hb0 & Hb1 & Hinv' & Hbn). exists w'. split; [done|]. split; [done|].
    set (m := mkSsm ev (sm_socket_id (sv_result sv)) (sm_ud (sv_result sv)) b).
    eexists ms, (b + 1), (ssm_bytes m), _. split; [done|]. split; [done|]. rewrite ssm_bytes_length. split; [done|]. cbv zeta.
    assert (Hm : ssm_of_bytes (ssm_bytes m) = m).
    { rewrite <- (app_nil_r (ssm_bytes m)). apply ssm_roundtrip; try done. destruct Hinv as [l Hinv].
      pose proof (si_next _ _ Hinv). unfold is_u64. simpl. lia. }
    rewrite Hm. split_and!; try done. simpl. lia.
Qed.

(** the service 1 of [example_g], and a message with data for it *)
Definition example_server : server sim :=
  server_new (mkSim [] []) <| sv_blocks := {[ 7 := [104; 105] ]} |> <| sv_result := mkSm 3 1 2 (DBlock 7) |>.

Lemma socket_data_delivered_witness :
  svc_find (g_w example_g) 1 ≠ 0 ∧
  ∃ w', forward_message release_nothing SKYNET_SOCKET_EVENT_DATA false (mkNs (g_w example_g) (Some example_server) (mkSim [] [])) =
          Ok (tt, mkNs w' (Some (example_server <| sv_blocks := delete 7 (sv_blocks example_server) |>)) (mkSim [] [])) ∧
    sched_inv (at_world example_g w').
Proof.
  split; [done|].
  destruct (socket_data_delivered release_nothing example_g example_server (mkSim [] []) SKYNET_SOCKET_EVENT_DATA 7 [104; 105])
    as (w' & Hf & Hinv & _); [done|exact (reachable_inv release_nothing mods_one example_g (λ _ _ _, eq_refl) example_reachable)|
    by intros q [b Hq]|done|done|done|done|done|done|vm_compute; congruence|].
  by exists w'.
Defined.

(** a text that the socket server reports (an address, an error) is queued without its
    terminator, so a service that has a log file open reads past the end of the message:
    [service_log::log] on the message that [forward_message] queued is out of bounds. *)
Theorem logged_text_overreads {K} `{Kernel K} release_func g (sv : server K) k ev f :
  (∀ f s w, release_func f s w = Ok w) → sched_inv g → is_s32 ev →
  is_s32 (sm_socket_id (sv_result sv)) → is_s32 (sm_ud (sv_result sv)) →
  0 ∉ message_text sv (sm_data_ptr (sv_result sv)) →
  svc_find (g_w g) (sm_svc_handle (sv_result sv)) ≠ 0 → has_room (g_w g) (sm_svc_handle (sv_result sv)) →
  ∃ w' ms m q, forward_message release_func ev true (mkNs (g_w g) (Some sv) k) = Ok (tt, mkNs w' (Some sv) k) ∧
    contents_map (w_mq (g_w g)) !! q = Some ms ∧ contents_map (w_mq w') = <[q := (ms ++ [m])%list]> (contents_map (w_mq (g_w g))) ∧
    service_log_log w' f (src_svc_handle m) (unpack_type (data_size m)) (session_id m) (data_ptr m) (unpack_size (data_size m)) =
      Err OutOfBounds.
Proof.
  intros Hr Hinv Hev Hid Hud Hno Hf Hroom.
  destruct (forward_text release_func Hr g sv k ev Hinv Hf Hroom) as (w' & ms & Hfw & Hms & Hcm & Hb & _).
  set (text := take 128 _) in *. eexists w', ms, _, _. split_and!; [done..|]. cbn [src_svc_handle session_id data_ptr data_size].
  set (m := mkSsm _ _ _ _) in *.
  assert (Hlen : length (ssm_bytes m ++ text)%list = (24 + length text)%nat) by (rewrite length_app, ssm_bytes_length; lia).
  assert (Ht : (length text <= 128)%nat) by (unfold text; rewrite length_take; lia).
  rewrite unpack_type_pack, unpack_size_pack by (simpl; lia).
  unfold service_log_log, read_block. destruct Hinv as [l Hinv]. pose proof (si_next _ _ Hinv) as Hpos.
  rewrite (proj2 (Z.eqb_neq (24 + _) 0)), (proj2 (Z.eqb_neq (w_next _) 0)), Hb, Hlen, (proj2 (Z.leb_le _ _)), bind_Ok by lia.
  rewrite Z.eqb_refl, take_ge by lia. unfold _log_socket.
  rewrite Hlen, (proj2 (Z.ltb_ge _ _)) by (unfold SOCKET_MESSAGE_SIZE; lia).
  pose proof (ssm_roundtrip m text Hev Hid Hud ltac:(done)) as Hm. apply (f_equal ssm_buffer) in Hm.
  unfold ssm_of_bytes, get_u64 in Hm. cbn [ssm_buffer m] in Hm. cbv zeta. rewrite Hm. cbn [Z.eqb].
  change (Z.to_nat SOCKET_MESSAGE_SIZE) with 24%nat. rewrite drop_app_length' by (by rewrite ssm_bytes_length).
  destruct (list_find _ text) as [[n b]|] eqn:E; [|done].
  apply list_find_Some in E as (E & -> & _). exfalso. apply Hno. apply list_elem_of_lookup_2 in E.
  unfold text in E. by apply elem_of_take in E as (j & E & _); apply list_elem_of_lookup_2 in E.
Qed.

Lemma logged_text_overreads_witness :
  let sv := server_new (mkSim [] []) <| sv_result := mkSm 3 1 0 (DText "Connection reset by peer") |> in
  ∃ w' ms m q, forward_message release_nothing SKYNET_SOCKET_EVENT_ERROR true (mkNs (g_w example_g) (Some sv) (mkSim [] [])) =
      Ok (tt, mkNs w' (Some sv) (mkSim [] [])) ∧
    contents_map (w_mq (g_w example_g)) !! q = Some ms ∧
    contents_map (w_mq w') = <[q := (ms ++ [m])%list]> (contents_map (w_mq (g_w example_g))) ∧
    service_log_log w' 5 (src_svc_handle m) (unpack_type (data_size m)) (session_id m) (data_ptr m) (unpack_size (data_size m)) =
      Err OutOfBounds.
Proof.
  cbv zeta. apply logged_text_overreads; [done|exact (reachable_inv release_nothing mods_one example_g (λ _ _ _, eq_refl) example_reachable)|
    done|done|done| |done|vm_compute; congruence].
  vm_compute. set_solver.
Defined.
