(* ===== verification/Netpack.v ===== *)
(** * Packages on a byte stream (luaclib-src/lua-netpack.cpp)

    A gate service receives the bytes of many connections in chunks of any size and cuts
    them into packages: two bytes of length, high byte first, and the data. What is left of
    a package until its last byte arrives is kept in a hash table by socket, and packages
    that arrive together go through a ring buffer.

    A buffer is its contents (see Bytes.v). A pointer has one owner at a time, so that freeing
    a buffer is the end of its contents. The userdata at index 1 of the Lua stack is an
    optional queue; a cell of its ring that was never written is [netpack_default] here and
    indeterminate in the program, which reads only cells between head and tail. *)
From S2P Require Import Prelude Bytes SocketMessage.
Open Scope list_scope.
Open Scope Z_scope.

Definition QUEUE_SIZE : Z := 1024.
Definition HASH_SIZE : Z := 4096.

Record netpack := mkNp { np_socket_id : Z; np_size : Z; np_buf_ptr : buffer }.
Definition netpack_default : netpack := mkNp 0 0 [].

(** [next] is the order of the list *)
Record uncomplete := mkUc { uc_pack : netpack; uc_read : Z; uc_header : Z }.

Record msg_queue := mkQueue {
  q_cap : Z;
  q_head : Z;
  q_tail : Z;
  q_hash : list (list uncomplete);
  q_queue : list netpack
}.
#[export] Instance eta_msg_queue : Eta msg_queue := λ r,
  mkQueue (q_cap r) (q_head r) (q_tail r) (q_hash r) (q_queue r).

(** a sum of [int]s is an [int] *)
Definition hash_socket_id (socket_id : Z) : result Z :=
  let a := Z.shiftr socket_id 24 in
  let b := Z.shiftr socket_id 12 in
  ab <- int_chk (a + b);;
  abc <- int_chk (ab + socket_id);;
  Ok (u32 abc mod HASH_SIZE).

(** the walk along a list: the entry of the socket and the list without it *)
Fixpoint unlink_uncomplete (socket_id : Z) (l : list uncomplete) : option (uncomplete * list uncomplete) :=
  match l with
  | [] => None
  | uc :: l =>
      if np_socket_id (uc_pack uc) =? socket_id then Some (uc, l)
      else match unlink_uncomplete socket_id l with
           | Some (found, l) => Some (found, uc :: l)
           | None => None
           end
  end.

Definition _find_uncomplete (q : option msg_queue) (socket_id : Z) : result (option uncomplete * option msg_queue) :=
  match q with
  | None => Ok (None, None)
  | Some q =>
      h <- hash_socket_id socket_id;;
      l <- arr_get (q_hash q) h;;
      match unlink_uncomplete socket_id l with
      | None => Ok (None, Some q)
      | Some (uc, l) => hash <- arr_set (q_hash q) h l;; Ok (Some uc, Some (q <| q_hash := hash |>))
      end
  end.

Definition get_queue (q : option msg_queue) : msg_queue :=
  default (mkQueue QUEUE_SIZE 0 0 (replicate (Z.to_nat HASH_SIZE) []) (replicate (Z.to_nat QUEUE_SIZE) netpack_default)) q.

Definition expand_queue (q : msg_queue) : result msg_queue :=
  cap <- int_chk (q_cap q + QUEUE_SIZE);;
  queue <- for_loop (Z.to_nat (q_cap q)) 0 (λ i nq,
      np <- arr_get (q_queue q) ((q_head q + i) mod q_cap q);; arr_set nq i np)
    (replicate (Z.to_nat cap) netpack_default);;
  Ok (mkQueue cap 0 (q_cap q) (q_hash q) queue).

Definition push_data (q : option msg_queue) (socket_id : Z) (buf : buffer) (size : Z) : result msg_queue :=
  let q := get_queue q in
  queue <- arr_set (q_queue q) (q_tail q) (mkNp socket_id size buf);;
  let tail := q_tail q + 1 in
  let tail := if q_cap q <=? tail then tail - q_cap q else tail in
  let q := q <| q_queue := queue |> <| q_tail := tail |> in
  if q_head q =? tail then expand_queue q else Ok q.

(** a new entry at the head of its list *)
Definition save_uncomplete (q : option msg_queue) (uc : uncomplete) : result msg_queue :=
  let q := get_queue q in
  h <- hash_socket_id (np_socket_id (uc_pack uc));;
  l <- arr_get (q_hash q) h;;
  hash <- arr_set (q_hash q) h (uc :: l);;
  Ok (q <| q_hash := hash |>).

Definition _read_size (b0 b1 : Z) : Z := Z.lor (Z.shiftl b0 8) b1.

(** the entry for a package of which [bytes] arrived *)
Definition partial_pack (socket_id pack_size : Z) (bytes : list Z) : result uncomplete :=
  buf <- copy_into (malloc_buffer pack_size) 0 bytes;;
  Ok (mkUc (mkNp socket_id pack_size buf) (Z.of_nat (length bytes)) 0).
Definition header_pack (socket_id b : Z) : uncomplete := mkUc (mkNp socket_id 0 []) (-1) b.

Fixpoint _push_more (fuel : nat) (q : option msg_queue) (socket_id : Z) (buf : list Z) : result msg_queue :=
  match fuel with
  | O => Err OutOfFuel
  | S fuel =>
      match buf with
      | [] => Err OutOfBounds
      | [b] => save_uncomplete q (header_pack socket_id b)
      | b0 :: b1 :: buf =>
          let pack_size := _read_size b0 b1 in
          if Z.of_nat (length buf) <? pack_size then
            uc <- partial_pack socket_id pack_size buf;; save_uncomplete q uc
          else
            pack <- copy_into (malloc_buffer pack_size) 0 (take (Z.to_nat pack_size) buf);;
            q <- push_data q socket_id pack pack_size;;
            let buf := drop (Z.to_nat pack_size) buf in
            if 0 <? Z.of_nat (length buf) then _push_more fuel (Some q) socket_id buf else Ok q
      end
  end.

Definition _close_uncomplete (q : option msg_queue) (socket_id : Z) : result (option msg_queue) :=
  let* (_, q) := _find_uncomplete q socket_id in Ok q.

(** what [filter] returns after the queue: nothing, or the type and its arguments *)
Inductive filter_result :=
  | FilterNone
  | FilterData (socket_id : Z) (buf : buffer) (size : Z)
  | FilterMore
  | FilterError (socket_id : Z) (text : list Z)
  | FilterOpen (socket_id : Z) (text : list Z)
  | FilterClose (socket_id : Z)
  | FilterWarning (socket_id ud : Z).

(** the rest of [filter_data_] once the header of the entry [uc] is known *)
Definition fill_uncomplete (q : option msg_queue) (socket_id : Z) (uc : uncomplete) (buf : list Z)
  : result (filter_result * option msg_queue) :=
  let pack := uc_pack uc in
  let need := np_size pack - uc_read uc in
  if Z.of_nat (length buf) <? need then
    b <- copy_into (np_buf_ptr pack) (uc_read uc) buf;;
    q <- save_uncomplete q (mkUc (mkNp (np_socket_id pack) (np_size pack) b) (uc_read uc + Z.of_nat (length buf)) (uc_header uc));;
    Ok (FilterNone, Some q)
  else
    b <- copy_into (np_buf_ptr pack) (uc_read uc) (take (Z.to_nat need) buf);;
    let buf := drop (Z.to_nat need) buf in
    if Z.of_nat (length buf) =? 0 then Ok (FilterData socket_id b (np_size pack), q)
    else
      q <- push_data q socket_id b (np_size pack);;
      q <- _push_more (length buf) (Some q) socket_id buf;;
      Ok (FilterMore, Some q).

Definition filter_data_ (q : option msg_queue) (socket_id : Z) (buf : list Z) : result (filter_result * option msg_queue) :=
  let* (uc, q) := _find_uncomplete q socket_id in
  match uc with
  | Some uc =>
      if uc_read uc <? 0 then
        massert (uc_read uc =? -1);;;
        match buf with
        | [] => Err OutOfBounds
        | b :: buf =>
            let pack_size := Z.lor b (Z.shiftl (uc_header uc) 8) in
            fill_uncomplete q socket_id
              (mkUc (mkNp (np_socket_id (uc_pack uc)) pack_size (malloc_buffer pack_size)) 0 (uc_header uc)) buf
        end
      else fill_uncomplete q socket_id uc buf
  | None =>
      match buf with
      | [] => Err OutOfBounds
      | [b] => q <- save_uncomplete q (header_pack socket_id b);; Ok (FilterNone, Some q)
      | b0 :: b1 :: buf =>
          let pack_size := _read_size b0 b1 in
          if Z.of_nat (length buf) <? pack_size then
            uc <- partial_pack socket_id pack_size buf;;
            q <- save_uncomplete q uc;;
            Ok (FilterNone, Some q)
          else
            pack <- copy_into (malloc_buffer pack_size) 0 (take (Z.to_nat pack_size) buf);;
            if Z.of_nat (length buf) =? pack_size then Ok (FilterData socket_id pack pack_size, q)
            else
              q <- push_data q socket_id pack pack_size;;
              let buf := drop (Z.to_nat pack_size) buf in
              q <- _push_more (length buf) (Some q) socket_id buf;;
              Ok (FilterMore, Some q)
      end
  end.

(** [_pushstring] of the text after a message; with a [buffer] its length is -1 *)
Definition _pushstring (data : option (list Z)) (text : list Z) : result (list Z) :=
  match data with None => Ok text | Some _ => Err OutOfBounds end.

(** [l_filter]: the message is its fields, the data its [buffer] points to ([None] for
    [nullptr]) and the text after it *)
Definition l_filter (q : option msg_queue) (socket_event socket_id ud : Z) (data : option (list Z)) (text : list Z)
  : result (filter_result * option msg_queue) :=
  if socket_event =? SKYNET_SOCKET_EVENT_DATA then
    match data with
    | None => Err AssertFail
    | Some data =>
        if (ud <? 0) || (Z.of_nat (length data) <? ud) then Err OutOfBounds
        else filter_data_ q socket_id (take (Z.to_nat ud) data)
    end
  else if socket_event =? SKYNET_SOCKET_EVENT_CONNECT then Ok (FilterNone, q)
  else if socket_event =? SKYNET_SOCKET_EVENT_CLOSE then
    q <- _close_uncomplete q socket_id;; Ok (FilterClose socket_id, q)
  else if socket_event =? SKYNET_SOCKET_EVENT_ACCEPT then text <- _pushstring data text;; Ok (FilterOpen ud text, q)
  else if socket_event =? SKYNET_SOCKET_EVENT_ERROR then
    q <- _close_uncomplete q socket_id;; text <- _pushstring data text;; Ok (FilterError socket_id text, q)
  else if socket_event =? SKYNET_SOCKET_EVENT_WARNING then Ok (FilterWarning socket_id ud, q)
  else Ok (FilterNone, q).

(** [l_pop]: [None] when the queue is empty *)
Definition l_pop (q : option msg_queue) : result (option netpack * option msg_queue) :=
  match q with
  | None => Ok (None, None)
  | Some q =>
      if q_head q =? q_tail q then Ok (None, Some q)
      else
        np <- arr_get (q_queue q) (q_head q);;
        let head := q_head q + 1 in
        Ok (Some np, Some (q <| q_head := if q_cap q <=? head then 0 else head |>))
  end.

(** [l_pack]: [None] is the Lua error *)
Definition l_pack (data : list Z) : option (list Z) :=
  let len := Z.of_nat (length data) in
  if 0x10000 <=? len then None
  else Some (Z.land (Z.shiftr len 8) 0xff :: Z.land len 0xff :: data).

(** [l_clear]: every buffer of the lists and of the ring is freed *)
Definition l_clear (q : option msg_queue) : option msg_queue :=
  (λ q, q <| q_hash := map (λ _, []) (q_hash q) |> <| q_head := 0 |> <| q_tail := 0 |>) <$> q.
