(* ===== verification/NetpackStream.v ===== *)
(** * Packages are cut where they were put together

    However the bytes of many connections are cut into chunks and interleaved, the packages
    that [Netpack] delivers for a connection are those of its byte stream. *)
From S2P Require Import Prelude Bytes SocketMessage Netpack.
Open Scope list_scope.
Open Scope Z_scope.

(** ** The specification: complete packages of a byte stream, and what is left *)

Fixpoint frames_fuel (fuel : nat) (l : list Z) : list (list Z) * list Z :=
  match fuel, l with
  | S fuel, b0 :: b1 :: data =>
      let n := Z.to_nat (256 * b0 + b1) in
      if decide (n <= length data)%nat
      then let '(packs, rest) := frames_fuel fuel (drop n data) in (take n data :: packs, rest)
      else ([], l)
  | _, _ => ([], l)
  end.
Definition frames (l : list Z) : list (list Z) * list Z := frames_fuel (length l) l.

Lemma frames_fuel_S fuel b0 b1 data : frames_fuel (S fuel) (b0 :: b1 :: data) =
  let n := Z.to_nat (256 * b0 + b1) in
  if decide (n <= length data)%nat
  then (take n data :: (frames_fuel fuel (drop n data)).1, (frames_fuel fuel (drop n data)).2)
  else ([], b0 :: b1 :: data).
Proof. cbn [frames_fuel]. cbv zeta. case_decide; [|done]. by destruct (frames_fuel fuel _). Qed.

Lemma frames_fuel_enough fuel l : (length l <= fuel)%nat → frames_fuel fuel l = frames l.
Proof.
  unfold frames. revert l. induction fuel as [fuel IH] using lt_wf_ind. intros l Hl.
  destruct l as [|b0 [|b1 data]]; [by destruct fuel|by destruct fuel|]. cbn [length] in *. destruct fuel as [|fuel]; [lia|].
  rewrite !frames_fuel_S. cbv zeta. case_decide; [|done]. set (d := drop _ data).
  assert (Hd : (length d <= length data)%nat) by (unfold d; rewrite length_drop; lia).
  rewrite (IH fuel), (IH (S (length data))) by lia. done.
Qed.

Lemma frames_nil : frames [] = ([], []).
Proof. done. Qed.

Lemma frames_cons b0 b1 data : frames (b0 :: b1 :: data) =
  let n := Z.to_nat (256 * b0 + b1) in
  if decide (n <= length data)%nat then (take n data :: (frames (drop n data)).1, (frames (drop n data)).2)
  else ([], b0 :: b1 :: data).
Proof.
  unfold frames at 1. cbn [length]. rewrite frames_fuel_S. cbv zeta. case_decide; [|done].
  by rewrite frames_fuel_enough by (rewrite length_drop; lia).
Qed.

(** ** The ring *)

Record ring_wf (q : msg_queue) : Prop := {
  r_head : 0 <= q_head q < q_cap q;
  r_tail : 0 <= q_tail q < q_cap q;
  r_len : Z.of_nat (length (q_queue q)) = q_cap q
}.

(** the elements of a ring from index [h] on, and those between its head and its tail *)
Definition rot {A} (h : Z) (l : list A) : list A := drop (Z.to_nat h) l ++ take (Z.to_nat h) l.
Definition items (q : msg_queue) : list netpack :=
  take (Z.to_nat ((q_tail q - q_head q) mod q_cap q)) (rot (q_head q) (q_queue q)).

Lemma get_queue_wf : ring_wf (get_queue None) ∧ items (get_queue None) = [].
Proof. split; [|done]. split; simpl; rewrite ?length_replicate; unfold QUEUE_SIZE; lia. Qed.

Lemma items_length q : ring_wf q → Z.of_nat (length (items q)) = (q_tail q - q_head q) mod q_cap q.
Proof.
  intros [Hh Ht Hl]. unfold items, rot. rewrite length_take, length_app, length_drop, length_take.
  pose proof (Z.mod_pos_bound (q_tail q - q_head q) (q_cap q)). lia.
Qed.

Lemma rot_length {A} h (l : list A) : length (rot h l) = length l.
Proof. unfold rot. rewrite length_app, length_drop, length_take. lia. Qed.

Lemma rotate_lookup {A} (l : list A) h j : 0 <= h < Z.of_nat (length l) → (j < length l)%nat →
  rot h l !! j = l !! Z.to_nat ((h + Z.of_nat j) mod Z.of_nat (length l)).
Proof.
  intros Hh Hj. unfold rot. destruct (decide (j < length l - Z.to_nat h)%nat).
  - rewrite lookup_app_l, lookup_drop by (rewrite length_drop; lia). rewrite Z.mod_small by lia. f_equal. lia.
  - rewrite lookup_app_r, length_drop, lookup_take_lt by (rewrite ?length_drop; lia).
    rewrite <- (Z_mod_plus_full _ (-1)), Z.mod_small by lia. f_equal. lia.
Qed.

Lemma np_expand_spec q : ring_wf q → q_head q = q_tail q → q_cap q + QUEUE_SIZE <= INT_MAX →
  ∃ q', expand_queue q = Ok q' ∧ ring_wf q' ∧ q_hash q' = q_hash q ∧ q_cap q' = q_cap q + QUEUE_SIZE ∧
    items q' = rot (q_head q) (q_queue q).
Proof.
  intros [Hh Ht Hl] Heq Hcap. unfold expand_queue, QUEUE_SIZE in *. rewrite int_chk_Ok, bind_Ok by (unfold INT_MAX in *; lia).
  set (r := rot _ _). set (body := λ i nq, _).
  destruct (for_loop_inv (λ i nq, length nq = Z.to_nat (q_cap q + 1024) ∧ take (Z.to_nat i) nq = take (Z.to_nat i) r)
    (Z.to_nat (q_cap q)) 0 body (replicate (Z.to_nat (q_cap q + 1024)) netpack_default)) as (nq & Hloop & Hlen & Hnq).
  - split; [by rewrite length_replicate|done].
  - intros i nq Hi [Hlen Hnq]. unfold body.
    destruct (arr_get_in_range (q_queue q) ((q_head q + i) mod q_cap q)) as (np & Hl1 & Hg); [rewrite Hl; apply Z.mod_pos_bound; lia|].
    rewrite Hg, bind_Ok, arr_set_Ok by lia. eexists. split; [done|]. rewrite length_insert. split; [done|].
    replace (Z.to_nat (i + 1)) with (Datatypes.S (Z.to_nat i)) by lia.
    rewrite (take_S_r _ _ np) by (rewrite list_lookup_insert_eq; [done|lia]).
    rewrite (take_S_r r _ np); [|]. { rewrite take_insert_ge by lia. by rewrite Hnq. }
    unfold r. rewrite rotate_lookup by lia. rewrite <- Hl1. f_equal. f_equal. rewrite Hl, Z2Nat.id by lia. done.
  - rewrite Z.add_0_l, Z2Nat.id in Hnq by lia. fold body. rewrite Hloop, bind_Ok. eexists. split; [done|].
    split; [split; simpl; lia|]. split; [done|]. split; [done|]. unfold items. simpl.
    unfold rot. rewrite drop_0, app_nil_r, Z.sub_0_r, Z.mod_small, Hnq, take_ge by (unfold r; rewrite ?rot_length; lia). done.
Qed.

(** a write at the tail *)
Lemma rot_insert {A} (l : list A) h t x : 0 <= h < Z.of_nat (length l) → 0 <= t < Z.of_nat (length l) →
  rot h (<[Z.to_nat t := x]> l) = <[Z.to_nat ((t - h) mod Z.of_nat (length l)) := x]> (rot h l).
Proof.
  intros Hh Ht. set (c := Z.of_nat (length l)) in *. pose proof (Z.mod_pos_bound (t - h) c ltac:(lia)).
  apply list_eq. intros j. destruct (decide (j < length l)%nat) as [Hj|Hj].
  2:{ rewrite !lookup_ge_None_2; [done|rewrite length_insert, rot_length; lia|rewrite rot_length, length_insert; lia]. }
  rewrite rotate_lookup by (rewrite length_insert; lia). rewrite length_insert. fold c.
  pose proof (Z.mod_pos_bound (h + Z.of_nat j) c ltac:(lia)).
  destruct (decide (j = Z.to_nat ((t - h) mod c))) as [->|Hne].
  - rewrite list_lookup_insert_eq by (rewrite rot_length; lia). rewrite Z2Nat.id by lia.
    rewrite Zplus_mod_idemp_r. replace (h + (t - h)) with t by lia. rewrite Z.mod_small by lia.
    by rewrite list_lookup_insert_eq by lia.
  - rewrite (list_lookup_insert_ne (rot h l)) by lia. rewrite list_lookup_insert_ne; [by rewrite rotate_lookup by lia|].
    intros E. apply Hne. assert (E' : t = (h + Z.of_nat j) mod c) by lia. rewrite E', Zminus_mod_idemp_l.
    replace (h + Z.of_nat j - h) with (Z.of_nat j) by lia. rewrite Z.mod_small by lia. lia.
Qed.

(** the most packages that wait in the ring; its capacity stays below that and one step *)
Definition RING_MAX : Z := 2 ^ 30.

Lemma mod_down a c : - c <= a < 0 → a mod c = a + c.
Proof. intros. rewrite <- (Z_mod_plus_full _ 1), Z.mod_small; lia. Qed.

Lemma ring_step h t c : 0 <= h < c → 0 <= t < c →
  (if t + 1 =? c then 0 else t + 1) ≠ h →
  ((if t + 1 =? c then 0 else t + 1) - h) mod c = (t - h) mod c + 1.
Proof.
  intros Hh Ht. destruct (Z.eqb_spec (t + 1) c); intros Hne;
    destruct (Z.le_gt_cases h t); rewrite ?(Z.mod_small (t - h)), ?(mod_down (t - h)) by lia; try lia.
  - rewrite mod_down; lia.
  - rewrite Z.mod_small; lia.
  - rewrite mod_down; lia.
Qed.

Lemma ring_full h t c : 0 <= h < c → 0 <= t < c → (if t + 1 =? c then 0 else t + 1) = h → (t - h) mod c = c - 1.
Proof.
  intros Hh Ht <-. destruct (Z.eqb_spec (t + 1) c); [rewrite Z.mod_small; lia|]. rewrite mod_down; lia.
Qed.

Lemma push_data_spec oq id buf size (q := get_queue oq) : ring_wf q → q_cap q <= RING_MAX + QUEUE_SIZE →
  Z.of_nat (length (items q)) < RING_MAX →
  ∃ q', push_data oq id buf size = Ok q' ∧ ring_wf q' ∧ q_hash q' = q_hash q ∧
    q_cap q' <= RING_MAX + QUEUE_SIZE ∧ items q' = items q ++ [mkNp id size buf].
Proof.
  intros Hwf Hcap Hfew. pose proof (items_length q Hwf) as Hlen. destruct Hwf as [Hh Ht Hl].
  unfold push_data. fold q. rewrite arr_set_Ok, bind_Ok by lia.
  set (np := mkNp id size buf). set (t := if _ <=? _ then _ else _).
  assert (Htv : t = if q_tail q + 1 =? q_cap q then 0 else q_tail q + 1) by (unfold t; zbool).
  set (q1 := set_to _ _ _). unfold RING_MAX, QUEUE_SIZE in *.
  assert (Hq1 : ring_wf q1) by (split; simpl; rewrite ?length_insert, ?Htv; zbool).
  assert (Hr : rot (q_head q) (q_queue q1) = <[Z.to_nat ((q_tail q - q_head q) mod q_cap q) := np]> (rot (q_head q) (q_queue q)))
    by (rewrite <- Hl; apply rot_insert; lia).
  set (n := (q_tail q - q_head q) mod q_cap q) in *. assert (Hn : 0 <= n < q_cap q) by (apply Z.mod_pos_bound; lia).
  assert (Htake : take (Z.to_nat (n + 1)) (rot (q_head q) (q_queue q1)) = items q ++ [np]).
  { replace (Z.to_nat (n + 1)) with (Datatypes.S (Z.to_nat n)) by lia.
    rewrite Hr, (take_S_r _ _ np) by (rewrite list_lookup_insert_eq; [done|rewrite rot_length; lia]).
    by rewrite take_insert_ge by lia. }
  change (q_head q1) with (q_head q). destruct (Z.eqb_spec (q_head q) t) as [Heq|Hne].
  - rewrite Htv in Heq. pose proof (ring_full (q_head q) (q_tail q) (q_cap q) Hh Ht (eq_sym Heq)) as Hfull. fold n in Hfull.
    destruct (np_expand_spec q1) as (q' & He & Hwf' & Hhash & Hcap' & Hitems); [done|simpl; congruence|simpl; unfold INT_MAX, QUEUE_SIZE in *; simpl in *; lia|].
    exists q'. split; [done|]. split; [done|]. split; [done|]. split; [rewrite Hcap'; simpl; unfold QUEUE_SIZE; lia|].
    rewrite Hitems, <- Htake, take_ge; [done|]. rewrite rot_length. simpl. rewrite length_insert. lia.
  - exists q1. split; [done|]. split; [done|]. split; [done|]. split; [done|]. unfold items at 1. simpl.
    rewrite Htv, ring_step by (rewrite <- ?Htv; done). exact Htake.
Qed.

Lemma l_pop_spec q : ring_wf q →
  match items q with
  | [] => l_pop (Some q) = Ok (None, Some q)
  | np :: rest => ∃ q', l_pop (Some q) = Ok (Some np, Some q') ∧ ring_wf q' ∧ q_hash q' = q_hash q ∧
      q_cap q' = q_cap q ∧ items q' = rest
  end.
Proof.
  intros Hwf. pose proof (items_length q Hwf) as Hlen. destruct Hwf as [Hh Ht Hl]. unfold l_pop.
  destruct (Z.eqb_spec (q_head q) (q_tail q)) as [Heq|Hne].
  - rewrite Heq, Z.sub_diag, Z.mod_0_l in Hlen by lia. destruct (items q); [done|simpl in Hlen; lia].
  - set (n := (q_tail q - q_head q) mod q_cap q) in *.
    assert (Hn : 0 < n < q_cap q).
    { unfold n. destruct (Z.le_gt_cases (q_head q) (q_tail q)); [rewrite Z.mod_small; lia|rewrite mod_down; lia]. }
    destruct (arr_get_in_range (q_queue q) (q_head q)) as (np & Hnp & Hg); [lia|]. rewrite Hg, bind_Ok.
    set (q' := set_to _ _ _).
    assert (Hrot : rot (q_head q) (q_queue q) = np :: drop (Datatypes.S (Z.to_nat (q_head q))) (q_queue q) ++ take (Z.to_nat (q_head q)) (q_queue q))
      by (unfold rot; by rewrite (drop_S _ np)).
    assert (Hrest : items q = np :: take (Z.to_nat (n - 1)) (drop (Datatypes.S (Z.to_nat (q_head q))) (q_queue q) ++ take (Z.to_nat (q_head q)) (q_queue q))).
    { unfold items. fold n. rewrite Hrot. by replace (Z.to_nat n) with (Datatypes.S (Z.to_nat (n - 1))) by lia. }
    rewrite Hrest. exists q'. split; [done|]. split; [split; simpl; zbool|]. split; [done|]. split; [done|].
    unfold items. simpl. unfold rot. destruct (Z.leb_spec (q_cap q) (q_head q + 1)) as [Hlast|Hmid].
    + rewrite drop_0, app_nil_r, drop_ge by lia. simpl. rewrite Z.sub_0_r, Z.mod_small by lia.
      assert (Hn' : n = q_tail q + 1) by (unfold n; rewrite mod_down; lia). rewrite take_take. f_equal. lia.
    + replace (Z.to_nat (q_head q + 1)) with (Datatypes.S (Z.to_nat (q_head q))) by lia.
      assert (Hn' : (q_tail q - (q_head q + 1)) mod q_cap q = n - 1).
      { unfold n. destruct (Z.le_gt_cases (q_head q) (q_tail q)); [rewrite !Z.mod_small; lia|rewrite !mod_down; lia]. }
      rewrite Hn', (take_S_r _ _ np), app_assoc, take_app_le; [done| |done]. rewrite length_app, length_drop, length_take. lia.
Qed.

(** ** The table of incomplete packages *)

(** the socket ids whose hash is computed without an overflow *)
Definition hashable (id : Z) : Prop := 0 <= id ∧ Z.shiftr id 24 + Z.shiftr id 12 + id <= INT_MAX.

Lemma hash_Ok id : hashable id → ∃ h, hash_socket_id id = Ok h ∧ 0 <= h < HASH_SIZE.
Proof.
  intros [H0 H1]. unfold hash_socket_id. rewrite !Z.shiftr_div_pow2 in * by lia. unfold INT_MAX in *.
  pose proof (Z.div_pos id (2 ^ 24)). pose proof (Z.div_pos id (2 ^ 12)).
  rewrite int_chk_Ok, bind_Ok, int_chk_Ok, bind_Ok by (unfold INT_MAX; lia).
  eexists. split; [done|]. apply Z.mod_pos_bound. done.
Qed.

(** the entry [uc] of a socket stands for the bytes [p] of a package that began to arrive *)
Inductive uc_rep (uc : uncomplete) : list Z → Prop :=
  | rep_header : is_byte (uc_header uc) → uc_read uc = -1 → uc_rep uc [uc_header uc]
  | rep_data b0 b1 data : is_byte b0 → is_byte b1 → np_size (uc_pack uc) = 256 * b0 + b1 →
      uc_read uc = Z.of_nat (length data) → uc_read uc < np_size (uc_pack uc) →
      np_buf_ptr (uc_pack uc) = (Some <$> data) ++ replicate (Z.to_nat (np_size (uc_pack uc) - uc_read uc)) None →
      uc_rep uc (b0 :: b1 :: data).

Definition uc_id (uc : uncomplete) : Z := np_socket_id (uc_pack uc).

Record hash_inv (q : msg_queue) (m : gmap Z (list Z)) : Prop := {
  hi_len : length (q_hash q) = Z.to_nat HASH_SIZE;
  hi_nodup h l : q_hash q !! h = Some l → NoDup (uc_id <$> l);
  hi_rep h l uc : q_hash q !! h = Some l → uc ∈ l →
    hash_socket_id (uc_id uc) = Ok (Z.of_nat h) ∧ ∃ p, m !! uc_id uc = Some p ∧ uc_rep uc p;
  hi_has id p : m !! id = Some p → ∃ h l, hash_socket_id id = Ok (Z.of_nat h) ∧ q_hash q !! h = Some l ∧ id ∈ uc_id <$> l
}.

Lemma new_hash_lookup h l : q_hash (get_queue None) !! h = Some l → l = [].
Proof.
  change (q_hash (get_queue None)) with (replicate (Z.to_nat HASH_SIZE) (@nil uncomplete)).
  by intros [-> _]%lookup_replicate.
Qed.

Lemma hash_inv_empty : hash_inv (get_queue None) ∅.
Proof.
  split.
  - done.
  - intros h l ->%new_hash_lookup. constructor.
  - intros h l uc ->%new_hash_lookup []%not_elem_of_nil.
  - intros id p Hm. by rewrite lookup_empty in Hm.
Qed.

Lemma unlink_entry_None id l : unlink_uncomplete id l = None → id ∉ uc_id <$> l.
Proof.
  induction l as [|uc l IH]; simpl; [set_solver|]. destruct (Z.eqb_spec (np_socket_id (uc_pack uc)) id); [done|].
  destruct (unlink_uncomplete id l) as [[? ?]|]; [done|]. intros _. unfold uc_id at 1. set_solver.
Qed.

Lemma unlink_entry_Some id l uc l' : unlink_uncomplete id l = Some (uc, l') → uc_id uc = id ∧ l ≡ₚ uc :: l'.
Proof.
  revert l'. induction l as [|uc0 l IH]; intros l'; simpl; [done|].
  destruct (Z.eqb_spec (np_socket_id (uc_pack uc0)) id); [by intros [= -> ->]|].
  destruct (unlink_uncomplete id l) as [[uc1 l1]|]; [|done]. intros [= -> <-].
  destruct (IH _ eq_refl) as [? ->]. split; [done|]. constructor.
Qed.

(** the list of a socket changes, and so does what is known of that socket *)
Lemma hash_update q m m' h l l' id : hash_inv q m → hash_socket_id id = Ok (Z.of_nat h) → q_hash q !! h = Some l →
  NoDup (uc_id <$> l') →
  (∀ uc, uc ∈ l' → hash_socket_id (uc_id uc) = Ok (Z.of_nat h) ∧ ∃ p, m' !! uc_id uc = Some p ∧ uc_rep uc p) →
  (∀ id', id' ≠ id → m' !! id' = m !! id') →
  (∀ id', id' ≠ id → id' ∈ uc_id <$> l → id' ∈ uc_id <$> l') → (is_Some (m' !! id) → id ∈ uc_id <$> l') →
  hash_inv (q <| q_hash := <[h := l']> (q_hash q) |>) m'.
Proof.
  intros Hinv Hh Hl Hnd Hrep Hm Hkeep Hnew. pose proof (lookup_lt_Some _ _ _ Hl) as Hlt.
  split; simpl.
  - rewrite length_insert. apply (hi_len _ _ Hinv).
  - intros h' l1 [(-> & -> & _)|[Hne Hl1]]%list_lookup_insert_Some; [done|]. by apply (hi_nodup _ _ Hinv h').
  - intros h' l1 uc [(-> & <- & _)|[Hne Hl1]]%list_lookup_insert_Some Hin; [by apply Hrep|].
    destruct (hi_rep _ _ Hinv _ _ _ Hl1 Hin) as [Hh1 Hp]. split; [done|]. rewrite Hm; [done|]. intros E. rewrite E in Hh1.
    rewrite Hh in Hh1. injection Hh1 as E1. apply Hne. lia.
  - intros id' p Hp. destruct (decide (id' = id)) as [->|Hne].
    + exists h, l'. split; [done|]. rewrite list_lookup_insert_eq by done. split; [done|]. apply Hnew. by eexists.
    + rewrite Hm in Hp by done. destruct (hi_has _ _ Hinv _ _ Hp) as (h1 & l1 & Hh1 & Hl1 & Hin).
      destruct (decide (h1 = h)) as [->|Hneq]; [|exists h1, l1; by rewrite list_lookup_insert_ne by done].
      exists h, l'. rewrite list_lookup_insert_eq by done. simplify_eq. eauto.
Qed.

(** taking the entry of a socket out *)
Lemma find_spec oq m id : hash_inv (get_queue oq) m → hashable id →
  ∃ o oq', _find_uncomplete oq id = Ok (o, oq') ∧ hash_inv (get_queue oq') (delete id m) ∧
    (∃ hash, get_queue oq' = get_queue oq <| q_hash := hash |>) ∧
    match o with
    | None => m !! id = None
    | Some uc => uc_id uc = id ∧ is_Some oq' ∧ ∃ p, m !! id = Some p ∧ uc_rep uc p
    end.
Proof.
  intros Hinv Hid. destruct oq as [q|]; unfold _find_uncomplete.
  2:{ assert (Hm : m !! id = None).
      { destruct (m !! id) eqn:E; [|done]. destruct (hi_has _ _ Hinv _ _ E) as (h & l' & _ & Hl & Hin).
        apply new_hash_lookup in Hl as ->. by apply not_elem_of_nil in Hin. }
      exists None, None. rewrite delete_id by done. split_and!; [done|done|by eexists|done]. }
  change (get_queue (Some q)) with q in *.
  destruct (hash_Ok id Hid) as (h & Hh & Hr). rewrite Hh, bind_Ok. pose proof (hi_len _ _ Hinv) as Hlen.
  destruct (arr_get_in_range (q_hash q) h) as (l & Hl & Hg); [lia|]. rewrite Hg, bind_Ok.
  destruct (unlink_uncomplete id l) as [[uc l']|] eqn:Hu.
  - rewrite arr_set_Ok, bind_Ok by lia. apply unlink_entry_Some in Hu as [Huc Hp].
    pose proof (hi_nodup _ _ Hinv _ _ Hl) as Hnd. rewrite Hp in Hnd. rewrite fmap_cons in Hnd. apply NoDup_cons in Hnd as [Hni Hnd].
    destruct (hi_rep _ _ Hinv _ _ uc Hl) as (_ & p & Hm & Hrep); [rewrite Hp; by left|]. rewrite Huc in *.
    eexists _, _. split; [done|]. split; [|simpl; split_and!; by eauto].
    apply (hash_update q m _ (Z.to_nat h) l l' id); [done|by rewrite Z2Nat.id by lia|done|done| | | |].
    + intros uc' Hin. assert (uc_id uc' ≠ id) by (intros E; apply Hni; rewrite <- E; by apply list_elem_of_fmap_2).
      rewrite lookup_delete_ne by done. apply (hi_rep _ _ Hinv _ l); [done|]. rewrite Hp. by right.
    + intros id' Hne. by rewrite lookup_delete_ne by done.
    + intros id' Hne. rewrite Hp. set_solver.
    + rewrite lookup_delete_eq. by intros [? [=]].
  - apply unlink_entry_None in Hu. assert (Hm : m !! id = None).
    { destruct (m !! id) eqn:E; [|done]. destruct (hi_has _ _ Hinv _ _ E) as (h' & l' & Hh' & Hl' & Hin).
      rewrite Hh in Hh'. injection Hh' as ->. rewrite Nat2Z.id in Hl. naive_solver. }
    exists None, (Some q). rewrite delete_id by done. simpl. split_and!; [done|done|exists (q_hash q); by destruct q|done].
Qed.

(** putting one in *)
Lemma save_spec oq m uc p : hash_inv (get_queue oq) m → hashable (uc_id uc) → m !! uc_id uc = None → uc_rep uc p →
  ∃ hash, save_uncomplete oq uc = Ok (get_queue oq <| q_hash := hash |>) ∧
    hash_inv (get_queue oq <| q_hash := hash |>) (<[uc_id uc := p]> m).
Proof.
  intros Hinv Hid Hm Hrep. unfold save_uncomplete. set (q := get_queue oq) in *. clearbody q.
  destruct (hash_Ok _ Hid) as (h & Hh & Hr). unfold uc_id in Hh. rewrite Hh, bind_Ok. pose proof (hi_len _ _ Hinv) as Hlen.
  destruct (arr_get_in_range (q_hash q) h) as (l & Hl & Hg); [lia|]. rewrite Hg, bind_Ok, arr_set_Ok, bind_Ok by lia.
  assert (Hni : uc_id uc ∉ uc_id <$> l).
  { intros (uc' & E & Hin)%list_elem_of_fmap. destruct (hi_rep _ _ Hinv _ _ _ Hl Hin) as (_ & p' & Hp' & _).
    rewrite <- E, Hm in Hp'. done. }
  eexists. split; [done|].
  apply (hash_update q m _ (Z.to_nat h) l (uc :: l) (uc_id uc)); [done|by rewrite Z2Nat.id by lia|done| | | | |].
  - rewrite fmap_cons. constructor; [done|]. by apply (hi_nodup _ _ Hinv _ _ Hl).
  - intros uc' [->|Hin]%elem_of_cons; [rewrite Z2Nat.id by lia; split; [done|]; exists p; by rewrite lookup_insert_eq|].
    assert (uc_id uc' ≠ uc_id uc) by (intros E; apply Hni; rewrite <- E; by apply list_elem_of_fmap_2).
    rewrite lookup_insert_ne by done. by apply (hi_rep _ _ Hinv _ l).
  - intros id' Hne. by rewrite lookup_insert_ne by done.
  - set_solver.
  - set_solver.
Qed.

(** ** One chunk *)

Lemma read_size_spec b0 b1 : is_byte b0 → is_byte b1 → _read_size b0 b1 = 256 * b0 + b1.
Proof.
  unfold is_byte, _read_size. intros H0 H1. rewrite Z.lor_comm, lor_shiftl by lia. lia.
Qed.

(** a complete package, and the incomplete ones once [rest] is left of the bytes of [id] *)
Definition np_of (id : Z) (p : list Z) : netpack := mkNp id (Z.of_nat (length p)) (Some <$> p).
Definition left_over (id : Z) (rest : list Z) (m : gmap Z (list Z)) : gmap Z (list Z) :=
  match rest with [] => delete id m | _ => <[id := rest]> m end.

Record np_inv (oq : option msg_queue) (its : list netpack) (m : gmap Z (list Z)) : Prop := {
  ni_ring : ring_wf (get_queue oq);
  ni_cap : q_cap (get_queue oq) <= RING_MAX + QUEUE_SIZE;
  ni_items : items (get_queue oq) = its;
  ni_hash : hash_inv (get_queue oq) m
}.

Lemma np_inv_empty : np_inv None [] ∅.
Proof. destruct get_queue_wf as [Hr Hi]. split; [done|by vm_compute|done|apply hash_inv_empty]. Qed.

Lemma np_push oq its m id buf size : np_inv oq its m → Z.of_nat (length its) < RING_MAX →
  ∃ q, push_data oq id buf size = Ok q ∧ np_inv (Some q) (its ++ [mkNp id size buf]) m.
Proof.
  intros [Hr Hc Hi Hh] Hfew. subst its. destruct (push_data_spec oq id buf size Hr Hc Hfew) as (q & Hq & Hr' & Hhash & Hc' & Hi').
  exists q. split; [done|]. split; [done|done|done|]. destruct Hh as [H1 H2 H3 H4].
  split; change (get_queue (Some q)) with q; rewrite Hhash; done.
Qed.

Lemma np_save oq its m uc p : np_inv oq its m → hashable (uc_id uc) → m !! uc_id uc = None → uc_rep uc p → p ≠ [] →
  ∃ q, save_uncomplete oq uc = Ok q ∧ np_inv (Some q) its (left_over (uc_id uc) p m).
Proof.
  intros [Hr Hc Hi Hh] Hid Hm Hrep Hp. destruct (save_spec oq m uc p Hh Hid Hm Hrep) as (hash & Hs & Hh').
  eexists. split; [done|]. destruct p; [done|]. split; [by destruct Hr|done|done|done].
Qed.

Lemma header_rep id b : is_byte b → uc_rep (header_pack id b) [b].
Proof. intros. by apply (rep_header (header_pack id b)). Qed.

Lemma partial_rep id b0 b1 data : is_byte b0 → is_byte b1 → Z.of_nat (length data) < 256 * b0 + b1 →
  ∃ uc, partial_pack id (256 * b0 + b1) data = Ok uc ∧ uc_id uc = id ∧ uc_rep uc (b0 :: b1 :: data).
Proof.
  intros H0 H1 Hlt. unfold partial_pack. rewrite copy_malloc, bind_Ok by lia. eexists. split; [done|]. split; [done|].
  constructor; simpl; try done. do 2 f_equal. lia.
Qed.

Lemma left_over_fresh id m : m !! id = None → left_over id [] m = m.
Proof. apply delete_id. Qed.

Lemma push_more_spec fuel oq its m id buf : (length buf <= fuel)%nat → buf ≠ [] → Forall is_byte buf → hashable id →
  m !! id = None → np_inv oq its m → Z.of_nat (length its + length buf) <= RING_MAX →
  ∃ q, _push_more fuel oq id buf = Ok q ∧
    np_inv (Some q) (its ++ (np_of id <$> (frames buf).1)) (left_over id (frames buf).2 m).
Proof.
  revert oq its buf. induction fuel as [|fuel IH]; intros oq its buf Hf Hne Hb Hid Hm Hinv Hfew; [destruct buf; simpl in *; [done|lia]|].
  destruct buf as [|b0 [|b1 data]]; [done| |].
  - inversion Hb; subst. destruct (np_save oq its m (header_pack id b0) [b0]) as (q & Hq & Hinv'); [done..|by apply header_rep|done|].
    exists q. by rewrite app_nil_r.
  - inversion Hb as [|? ? H0 Hb1]; subst. inversion Hb1 as [|? ? H1 Hdata]; subst. cbn [_push_more].
    rewrite read_size_spec, frames_cons by done. cbv zeta. unfold is_byte in H0, H1.
    set (n := 256 * b0 + b1). cbn [length] in *. destruct (Z.ltb_spec (Z.of_nat (length data)) n) as [Hlt|Hge].
    + rewrite decide_False by lia. destruct (partial_rep id b0 b1 data) as (uc & Huc & Hucid & Hrep); [done..|].
      fold n in Huc. rewrite Huc, bind_Ok. destruct (np_save oq its m uc (b0 :: b1 :: data)) as (q & Hq & Hinv'); [done|congruence..|done|done|].
      exists q. rewrite app_nil_r, <- Hucid. done.
    + rewrite decide_True by lia. assert (Hlt : length (take (Z.to_nat n) data) = Z.to_nat n) by (rewrite length_take; lia).
      rewrite copy_whole, bind_Ok by lia.
      destruct (np_push oq its m id (Some <$> take (Z.to_nat n) data) n Hinv) as (q & Hq & Hinv'); [lia|]. rewrite Hq, bind_Ok.
      replace (mkNp id n _) with (np_of id (take (Z.to_nat n) data)) in Hinv' by (unfold np_of; f_equal; lia).
      destruct (drop (Z.to_nat n) data) as [|b rest] eqn:Hd.
      * exists q. rewrite frames_nil. cbn [fst snd]. by rewrite left_over_fresh by done.
      * cbn [length]. rewrite (proj2 (Z.ltb_lt _ _)) by lia.
        assert (Hlr : (length (b :: rest) = length data - Z.to_nat n)%nat) by (rewrite <- Hd, length_drop; done). cbn [length] in Hlr.
        destruct (IH (Some q) (its ++ [np_of id (take (Z.to_nat n) data)]) (b :: rest)) as (q' & Hq' & Hinv''); try done.
        -- simpl. lia.
        -- rewrite <- Hd. by apply Forall_drop.
        -- rewrite length_app. simpl. lia.
        -- exists q'. split; [done|]. rewrite <- app_assoc in Hinv''. exact Hinv''.
Qed.

(** what a call of [filter] delivers itself *)
Definition handed (r : filter_result) : list netpack :=
  match r with FilterData id buf size => [mkNp id size buf] | _ => [] end.

(** packages go out with the result, or all of them to the ring *)
Definition filter_post (oq : option msg_queue) (its : list netpack) (id : Z) (bytes : list Z) (m : gmap Z (list Z))
  (o : result (filter_result * option msg_queue)) : Prop :=
  ∃ r oq' its', o = Ok (r, oq') ∧ np_inv oq' its' (left_over id (frames bytes).2 m) ∧
    (r ≠ FilterMore ∧ its' = its ∧ handed r = np_of id <$> (frames bytes).1 ∨
     r = FilterMore ∧ its' = its ++ (np_of id <$> (frames bytes).1)).

Lemma fill_spec oq its m id uc b0 b1 data buf : is_byte b0 → is_byte b1 → Forall is_byte buf → hashable id →
  m !! id = None → np_inv oq its m → Z.of_nat (length its + length buf) < RING_MAX →
  uc_id uc = id → np_size (uc_pack uc) = 256 * b0 + b1 → uc_read uc = Z.of_nat (length data) → uc_read uc <= np_size (uc_pack uc) →
  np_buf_ptr (uc_pack uc) = (Some <$> data) ++ replicate (Z.to_nat (np_size (uc_pack uc) - uc_read uc)) None →
  filter_post oq its id (b0 :: b1 :: data ++ buf) m (fill_uncomplete oq id uc buf).
Proof.
  intros H0 H1 Hb Hid Hm Hinv Hfew Huc Hsize Hread Hle Hbuf. unfold fill_uncomplete, filter_post. rewrite Hbuf, frames_cons. cbv zeta.
  rewrite <- Hsize, Hread in *. set (n := np_size (uc_pack uc)) in *. set (k := n - Z.of_nat (length data)) in *.
  rewrite length_app. destruct (Z.ltb_spec (Z.of_nat (length buf)) k) as [Hlt|Hge].
  - rewrite decide_False, copy_spec, bind_Ok by lia. set (uc' := mkUc _ _ _).
    destruct (np_save oq its m uc' (b0 :: b1 :: data ++ buf)) as (q & Hq & Hinv'); [done|by unfold uc_id in *; simpl; rewrite Huc..| |done|].
    { constructor; simpl; rewrite ?length_app; try done; fold n; [lia|lia|]. f_equal. f_equal. lia. }
    rewrite Hq, bind_Ok. exists FilterNone, (Some q), its. split; [done|]. rewrite <- Huc. split; [done|]. by left.
  - rewrite decide_True by lia. assert (Hkl : length (take (Z.to_nat k) buf) = Z.to_nat k) by (rewrite length_take; lia).
    rewrite copy_spec, bind_Ok by lia. rewrite Hkl, Nat.sub_diag, app_nil_r.
    rewrite take_app, drop_app, (take_ge data), (drop_ge data) by lia. replace (Z.to_nat n - length data)%nat with (Z.to_nat k) by lia. rewrite app_nil_l.
    set (p := data ++ take (Z.to_nat k) buf). assert (Hp : Z.of_nat (length p) = n) by (unfold p; rewrite length_app; lia).
    assert (Hnp : mkNp id n (Some <$> p) = np_of id p) by (unfold np_of; by rewrite Hp).
    destruct (drop (Z.to_nat k) buf) as [|b rest] eqn:Hd.
    + rewrite frames_nil. cbn [fst snd]. exists (FilterData id (Some <$> p) n), oq, its. split; [done|]. rewrite left_over_fresh by done. split; [done|].
      left. split; [done|]. split; [done|]. simpl. by rewrite Hnp.
    + rewrite (proj2 (Z.eqb_neq _ _)) by (simpl; lia).
      assert (Hlr : (length (b :: rest) = length buf - Z.to_nat k)%nat) by (rewrite <- Hd, length_drop; done).
      destruct (np_push oq its m id (Some <$> p) n Hinv) as (q & Hq & Hinv'); [lia|]. rewrite Hq, bind_Ok. rewrite Hnp in Hinv'.
      destruct (push_more_spec (length (b :: rest)) (Some q) (its ++ [np_of id p]) m id (b :: rest)) as (q' & Hq' & Hinv''); try done.
      * rewrite <- Hd. by apply Forall_drop.
      * rewrite length_app, Hlr. simpl. lia.
      * rewrite Hq', bind_Ok. eexists FilterMore, (Some q'), _. split; [done|]. split; [exact Hinv''|]. right. split; [done|].
        rewrite <- app_assoc. done.
Qed.

Lemma find_np oq its m id : np_inv oq its m → hashable id →
  ∃ o oq', _find_uncomplete oq id = Ok (o, oq') ∧ np_inv oq' its (delete id m) ∧
    match o with
    | None => m !! id = None
    | Some uc => uc_id uc = id ∧ ∃ p, m !! id = Some p ∧ uc_rep uc p
    end.
Proof.
  intros [Hr Hc Hi Hh] Hid. destruct (find_spec oq m id Hh Hid) as (o & oq' & Hf & Hh' & (hash & Hq) & Ho).
  exists o, oq'. split; [done|]. split; [|destruct o; naive_solver].
  split; [rewrite Hq; by destruct Hr|by rewrite Hq|by rewrite Hq|done].
Qed.

Lemma left_over_delete id rest m : left_over id rest (delete id m) = left_over id rest m.
Proof. destruct rest; simpl; [by rewrite delete_id by apply lookup_delete_eq|apply insert_delete_eq]. Qed.

(** a first chunk is one that fills an entry which holds nothing yet *)
Lemma first_chunk oq id n data : 0 <= n →
  (if Z.of_nat (length data) <? n then
     uc <- partial_pack id n data;; q <- save_uncomplete oq uc;; Ok (FilterNone, Some q)
   else
     pack <- copy_into (malloc_buffer n) 0 (take (Z.to_nat n) data);;
     if Z.of_nat (length data) =? n then Ok (FilterData id pack n, oq)
     else
       q <- push_data oq id pack n;;
       q <- _push_more (length (drop (Z.to_nat n) data)) (Some q) id (drop (Z.to_nat n) data);;
       Ok (FilterMore, Some q)) =
  fill_uncomplete oq id (mkUc (mkNp id n (malloc_buffer n)) 0 0) data.
Proof.
  intros Hn. unfold fill_uncomplete, partial_pack. cbn [uc_pack uc_read uc_header np_size np_socket_id np_buf_ptr].
  rewrite Z.sub_0_r. destruct (Z.ltb_spec (Z.of_nat (length data)) n) as [Hlt|Hge].
  - destruct (copy_into _ _ _); [|done]. rewrite !bind_Ok. done.
  - destruct (copy_into _ _ _); [|done]. rewrite !bind_Ok, length_drop.
    destruct (Z.eqb_spec (Z.of_nat (length data)) n), (Z.eqb_spec (Z.of_nat (length data - Z.to_nat n)) 0); try lia; done.
Qed.

(** ** [filter_data_] continues the byte stream of the socket *)
Lemma filter_data_spec oq its m id chunk : np_inv oq its m → hashable id → chunk ≠ [] → Forall is_byte chunk →
  Z.of_nat (length its + length chunk) < RING_MAX →
  filter_post oq its id (default [] (m !! id) ++ chunk) m (filter_data_ oq id chunk).
Proof.
  intros Hinv Hid Hne Hb Hfew. unfold filter_data_. destruct (find_np oq its m id Hinv Hid) as (o & oq' & -> & Hinv' & Ho).
  rewrite bind_Ok. unfold filter_post. setoid_rewrite <- left_over_delete. fold (filter_post oq' its id (default [] (m !! id) ++ chunk) (delete id m)).
  assert (Hfresh : delete id m !! id = None) by apply lookup_delete_eq.
  destruct o as [uc|].
  - destruct Ho as (Huc & p & -> & Hrep). cbn [from_option]. destruct Hrep as [Hhd Hread|b0 b1 data H0 H1 Hsize Hread Hlt Hbuf].
    + rewrite Hread. change (massert _) with (Ok tt). change (-1 <? 0) with true. cbv iota. rewrite bind_Ok. destruct chunk as [|b chunk]; [done|]. inversion Hb; subst.
      rewrite Z.lor_comm. change (Z.lor _ b) with (_read_size (uc_header uc) b). rewrite read_size_spec by done.
      apply (fill_spec oq' its _ _ _ (uc_header uc) b []); try done; cbn [length uc_pack uc_read np_size np_buf_ptr] in *; unfold is_byte in *; try lia.
      rewrite Z.sub_0_r. done.
    + rewrite (proj2 (Z.ltb_ge _ _)) by lia. apply (fill_spec oq' its _ _ _ b0 b1 data); try done. lia.
  - rewrite Ho. cbn [from_option app]. destruct chunk as [|b0 [|b1 data]]; [done| |].
    + inversion Hb; subst. destruct (np_save oq' its (delete id m) (header_pack id b0) [b0]) as (q & -> & Hq); [done..|by apply header_rep|done|].
      rewrite bind_Ok. exists FilterNone, (Some q), its. split; [done|]. split; [done|]. by left.
    + inversion Hb as [|? ? H0 Hb1]; subst. inversion Hb1 as [|? ? H1 Hdata]; subst. rewrite read_size_spec by done. cbv zeta.
      unfold is_byte in H0, H1. rewrite first_chunk by lia.
      apply (fill_spec oq' its _ _ _ b0 b1 []); try done; cbn [length uc_pack uc_read np_size np_buf_ptr] in *; try lia. by rewrite Z.sub_0_r.
Qed.

(** ** The gate: [MSG.data], [MSG.more] and [MSG.close] of lualib/snax/gateserver.lua *)

(** [for fd, msg, sz in netpack.pop, queue] *)
Fixpoint dispatch_queue (fuel : nat) (q : option msg_queue) : result (list netpack * option msg_queue) :=
  match fuel with
  | O => Err OutOfFuel
  | S fuel =>
      let* (o, q) := l_pop q in
      match o with
      | None => Ok ([], q)
      | Some np => let* (nps, q) := dispatch_queue fuel q in Ok (np :: nps, q)
      end
  end.

Inductive gate_event := GateData (id : Z) (chunk : list Z) | GateClose (id : Z).

(** the messages of one socket event, and the queue after it *)
Definition gate_step (fuel : nat) (q : option msg_queue) (e : gate_event) : result (list netpack * option msg_queue) :=
  match e with
  | GateData id chunk =>
      let* (r, q) := l_filter q SKYNET_SOCKET_EVENT_DATA id (Z.of_nat (length chunk)) (Some chunk) [] in
      match r with
      | FilterMore => dispatch_queue fuel q
      | r => Ok (handed r, q)
      end
  | GateClose id =>
      let* (_, q) := l_filter q SKYNET_SOCKET_EVENT_CLOSE id 0 None [] in Ok ([], q)
  end.

Fixpoint gate_run (fuel : nat) (q : option msg_queue) (evs : list gate_event) : result (list netpack * option msg_queue) :=
  match evs with
  | [] => Ok ([], q)
  | e :: evs =>
      let* (nps, q) := gate_step fuel q e in
      let* (nps', q) := gate_run fuel q evs in
      Ok (nps ++ nps', q)
  end.

(** the byte streams of the connections that had the id, the last one first read as [acc] *)
Fixpoint streams (id : Z) (acc : list Z) (evs : list gate_event) : list (list Z) :=
  match evs with
  | [] => [acc]
  | GateData i c :: evs => streams id (if decide (i = id) then acc ++ c else acc) evs
  | GateClose i :: evs => if decide (i = id) then acc :: streams id [] evs else streams id acc evs
  end.

Definition event_ok (e : gate_event) : Prop :=
  match e with
  | GateData id c => hashable id ∧ c ≠ [] ∧ Forall is_byte c ∧ Z.of_nat (length c) < RING_MAX
  | GateClose id => hashable id
  end.

(** the rest of a stream is where its continuation starts *)
Lemma frames_app x y : frames (x ++ y) =
  ((frames x).1 ++ (frames ((frames x).2 ++ y)).1, (frames ((frames x).2 ++ y)).2).
Proof.
  remember (length x) as n eqn:Hn. revert x Hn. induction n as [n IH] using lt_wf_ind. intros x ->.
  destruct x as [|b0 [|b1 data]]; [apply surjective_pairing..|].
  rewrite (frames_cons b0 b1 data). cbv zeta. case_decide as Hd; [|apply surjective_pairing].
  cbn [fst snd app]. rewrite frames_cons. cbv zeta. rewrite decide_True by (rewrite length_app; lia).
  rewrite drop_app_le, take_app_le by lia.
  by rewrite (IH (length (drop (Z.to_nat (256 * b0 + b1)) data))) by (rewrite ?length_drop; simpl; lia).
Qed.

Lemma frames_pending x : frames (frames x).2 = ([], (frames x).2).
Proof.
  remember (length x) as n eqn:Hn. revert x Hn. induction n as [n IH] using lt_wf_ind. intros x ->.
  destruct x as [|b0 [|b1 data]]; [done|done|]. rewrite frames_cons. cbv zeta. case_decide as Hd.
  - cbn [snd]. apply (IH (length (drop (Z.to_nat (256 * b0 + b1)) data))); [rewrite length_drop; simpl; lia|done].
  - cbn [snd]. rewrite frames_cons. cbv zeta. by rewrite decide_False.
Qed.

Lemma frames_length x : (length (frames x).1 + length (frames x).2 <= length x)%nat.
Proof.
  remember (length x) as n eqn:Hn. revert x Hn. induction n as [n IH] using lt_wf_ind. intros x ->.
  destruct x as [|b0 [|b1 data]]; [simpl; lia..|]. rewrite frames_cons. cbv zeta. case_decide as Hd; [|simpl; lia].
  pose proof (IH (length (drop (Z.to_nat (256 * b0 + b1)) data)) ltac:(rewrite length_drop; simpl; lia) _ eq_refl) as Hr.
  rewrite length_drop in Hr. simpl. lia.
Qed.

Lemma l_pop_np oq its m : np_inv oq its m →
  match its with
  | [] => l_pop oq = Ok (None, oq)
  | np :: rest => ∃ oq', l_pop oq = Ok (Some np, oq') ∧ np_inv oq' rest m
  end.
Proof.
  intros [Hr Hc Hi Hh]. destruct oq as [q|]; [|by destruct get_queue_wf as [_ Hi']; rewrite Hi' in Hi; subst].
  change (get_queue (Some q)) with q in *. pose proof (l_pop_spec q Hr) as Hp. rewrite Hi in Hp.
  destruct its as [|np its]; [done|]. destruct Hp as (q' & -> & Hr' & Hhash & Hcap & Hit).
  exists (Some q'). split; [done|]. split; change (get_queue (Some q')) with q'; [done|lia|done|].
  destruct Hh as [H1 H2 H3 H4]. split; rewrite Hhash; done.
Qed.

Lemma dispatch_queue_spec fuel oq its m : np_inv oq its m → (length its < fuel)%nat →
  ∃ oq', dispatch_queue fuel oq = Ok (its, oq') ∧ np_inv oq' [] m.
Proof.
  revert oq its. induction fuel as [|fuel IH]; intros oq its Hinv Hf; [lia|]. cbn [dispatch_queue].
  pose proof (l_pop_np _ _ _ Hinv) as Hp. destruct its as [|np its]; [rewrite Hp, bind_Ok; by eexists|].
  destruct Hp as (oq1 & -> & Hinv1). rewrite bind_Ok.
  destruct (IH oq1 its Hinv1) as (oq' & -> & Hinv'); [simpl in Hf; lia|rewrite bind_Ok; by eexists].
Qed.

Lemma left_over_lookup id i rest m :
  default [] (left_over id rest m !! i) = if decide (i = id) then rest else default [] (m !! i).
Proof.
  destruct rest as [|b rest]; simpl; case_decide; subst; rewrite ?lookup_delete_eq, ?lookup_insert_eq, ?lookup_delete_ne, ?lookup_insert_ne by done; done.
Qed.

(** what the gate knows of a socket is what its stream leaves *)
Definition pending_of (m : gmap Z (list Z)) (accs : Z → list Z) : Prop := ∀ id, default [] (m !! id) = (frames (accs id)).2.

(** one event adds to one stream, and delivers the packages it completes *)
Lemma gate_step_data fuel oq m accs id chunk : np_inv oq [] m → pending_of m accs → event_ok (GateData id chunk) →
  (length (default [] (m !! id) ++ chunk) < fuel)%nat →
  ∃ oq' m', gate_step fuel oq (GateData id chunk) = Ok (np_of id <$> (frames ((frames (accs id)).2 ++ chunk)).1, oq') ∧
    np_inv oq' [] m' ∧ pending_of m' (λ i, if decide (i = id) then accs i ++ chunk else accs i).
Proof.
  intros Hinv Hpend (Hid & Hne & Hb & Hlen) Hfuel. unfold gate_step, l_filter. change (_ =? _) with true at 1. cbv iota.
  rewrite (proj2 (Z.ltb_ge (Z.of_nat (length chunk)) 0)), Z.ltb_irrefl, take_ge by lia. cbn [orb]. destruct (filter_data_spec oq [] m id chunk Hinv Hid Hne Hb) as (r & oq' & its' & -> & Hinv' & Hr); [simpl; lia|].
  rewrite bind_Ok, Hpend in *. set (bytes := (frames (accs id)).2 ++ chunk) in *.
  assert (Hpend' : pending_of (left_over id (frames bytes).2 m) (λ i, if decide (i = id) then accs i ++ chunk else accs i)).
  { intros i. rewrite left_over_lookup. case_decide; [subst; by rewrite frames_app|apply Hpend]. }
  destruct Hr as [(Hmore & -> & Hh)|(-> & ->)].
  - exists oq', (left_over id (frames bytes).2 m). rewrite <- Hh. by destruct r.
  - destruct (dispatch_queue_spec fuel oq' _ _ Hinv') as (oq2 & Hd & Hinv2).
    { rewrite app_nil_l, length_fmap. pose proof (frames_length bytes). lia. }
    exists oq2, (left_over id (frames bytes).2 m). done.
Qed.

Lemma gate_step_close fuel oq m accs id : np_inv oq [] m → pending_of m accs → hashable id →
  ∃ oq' m', gate_step fuel oq (GateClose id) = Ok ([], oq') ∧ np_inv oq' [] m' ∧
    pending_of m' (λ i, if decide (i = id) then [] else accs i).
Proof.
  intros Hinv Hpend Hid. unfold gate_step, l_filter, _close_uncomplete.
  change (SKYNET_SOCKET_EVENT_CLOSE =? SKYNET_SOCKET_EVENT_DATA) with false.
  change (SKYNET_SOCKET_EVENT_CLOSE =? SKYNET_SOCKET_EVENT_CONNECT) with false.
  change (SKYNET_SOCKET_EVENT_CLOSE =? SKYNET_SOCKET_EVENT_CLOSE) with true. cbv iota.
  destruct (find_np oq [] m id Hinv Hid) as (o & oq' & -> & Hinv' & _). rewrite !bind_Ok. exists oq', (delete id m).
  split; [done|]. split; [done|]. intros i. change (delete id m) with (left_over id [] m). rewrite left_over_lookup.
  case_decide; [done|apply Hpend].
Qed.

Definition chunk_bytes (evs : list gate_event) : nat :=
  sum_list_with (λ e, match e with GateData _ c => length c | GateClose _ => 0%nat end) evs.

Lemma filter_own id (ps : list (list Z)) : filter (λ np, np_socket_id np = id) (np_of id <$> ps) = np_of id <$> ps.
Proof. apply filter_all. by intros np (p & -> & _)%list_elem_of_fmap. Qed.

Lemma filter_other i id (ps : list (list Z)) : i ≠ id → filter (λ np, np_socket_id np = i) (np_of id <$> ps) = [].
Proof. intros Hne. induction ps as [|p ps IH]; [done|]. rewrite fmap_cons, filter_cons_False; [done|]. by simpl. Qed.

(** from any point on: what was completed before, and what is delivered from here *)
Lemma gate_run_spec fuel oq m accs evs : np_inv oq [] m → pending_of m accs → Forall event_ok evs →
  (∀ id, (length (accs id) + chunk_bytes evs < fuel)%nat) →
  ∃ nps oq', gate_run fuel oq evs = Ok (nps, oq') ∧
    ∀ id, (np_of id <$> (frames (accs id)).1) ++ filter (λ np, np_socket_id np = id) nps =
      np_of id <$> concat ((λ s, (frames s).1) <$> streams id (accs id) evs).
Proof.
  intros Hinv Hpend Hok. revert oq m accs Hinv Hpend. induction Hok as [|e evs He Hevs IH]; intros oq m accs Hinv Hpend Hfuel.
  { exists [], oq. split; [done|]. intros id. simpl. by rewrite !app_nil_r. }
  cbn [gate_run]. destruct e as [id chunk|id]; cbn [chunk_bytes sum_list_with] in Hfuel.
  - destruct (gate_step_data fuel oq m accs id chunk) as (oq1 & m1 & -> & Hinv1 & Hpend1); try done.
    { rewrite Hpend, length_app. pose proof (frames_length (accs id)). specialize (Hfuel id). lia. }
    rewrite bind_Ok. destruct (IH oq1 m1 _ Hinv1 Hpend1) as (nps & oq' & -> & Hd).
    { intros i. specialize (Hfuel i). case_decide; rewrite ?length_app; unfold chunk_bytes in *; lia. }
    rewrite bind_Ok. eexists _, _. split; [done|]. intros i. cbn [streams]. specialize (Hd i). rewrite filter_app.
    rewrite (decide_ext (id = i) (i = id)) by (by split). case_decide as E.
    + subst i. rewrite <- Hd, (frames_app (accs id)). cbn [fst]. rewrite fmap_app, <- app_assoc. do 2 f_equal.
      by rewrite filter_own.
    + by rewrite <- Hd, filter_other.
  - destruct (gate_step_close fuel oq m accs id) as (oq1 & m1 & -> & Hinv1 & Hpend1); try done. rewrite bind_Ok.
    destruct (IH oq1 m1 _ Hinv1 Hpend1) as (nps & oq' & -> & Hd).
    { intros i. specialize (Hfuel i). case_decide; unfold chunk_bytes in *; simpl in *; lia. }
    rewrite bind_Ok. eexists _, _. split; [done|]. intros i. cbn [streams]. specialize (Hd i). simpl app.
    rewrite (decide_ext (id = i) (i = id)) by (by split). case_decide as E; [|done].
    rewrite fmap_cons. cbn [concat]. rewrite fmap_app, <- Hd. done.
Qed.

(** C24: However the bytes of many connections are cut into chunks and interleaved, and
    whenever connections are closed and their ids used again, the gate returns for every
    socket id exactly the complete packages of the byte streams that had this id, in order:
    nothing is lost, duplicated or mixed between connections, the ring that holds packages
    which arrive together grows as needed, and no access leaves its bounds. *)
Theorem netpack_reassembles fuel evs : Forall event_ok evs → (chunk_bytes evs < fuel)%nat →
  ∃ nps oq, gate_run fuel None evs = Ok (nps, oq) ∧
    ∀ id, filter (λ np, np_socket_id np = id) nps =
      np_of id <$> concat ((λ s, (frames s).1) <$> streams id [] evs).
Proof.
  intros Hok Hfuel. destruct (gate_run_spec fuel None ∅ (λ _, []) evs) as (nps & oq & Hrun & Hd); [apply np_inv_empty|done..|].
  exists nps, oq. by split.
Qed.

Lemma netpack_reassembles_witness : ∃ nps oq,
  gate_run 100 None [GateData 7 [0]; GateData 8 [0; 1; 65; 0]; GateData 7 [2; 66; 67; 0; 0; 0; 5; 1]; GateClose 7;
    GateData 8 [1; 68]; GateData 7 [0; 1; 69]] = Ok (nps, oq) ∧
  filter (λ np, np_socket_id np = 7) nps = np_of 7 <$> [[66; 67]; []; [69]] ∧
  filter (λ np, np_socket_id np = 8) nps = np_of 8 <$> [[65]; [68]].
Proof.
  edestruct netpack_reassembles as (nps & oq & Hrun & Hd); [| |exists nps, oq; split; [exact Hrun|split; apply Hd]].
  - repeat constructor; done.
  - vm_compute. lia.
Defined.

(** What [l_pack] puts in front of a message is what [filter] reads. *)
Lemma frames_pack msg w rest : l_pack msg = Some w → frames (w ++ rest) = (msg :: (frames rest).1, (frames rest).2).
Proof.
  unfold l_pack. destruct (Z.leb_spec 0x10000 (Z.of_nat (length msg))) as [|Hlt]; [done|]. intros [= <-].
  cbn [app]. rewrite frames_cons. cbv zeta. change 255 with (Z.ones 8). rewrite !Z.land_ones, Z.shiftr_div_pow2 by lia.
  rewrite (Z.mod_small (_ / _)) by (pose proof (Z.div_lt_upper_bound (Z.of_nat (length msg)) (2 ^ 8) 256); pose proof (Z.div_pos (Z.of_nat (length msg)) (2 ^ 8)); lia).
  change 256 with (2 ^ 8). rewrite <- Z.div_mod by lia. rewrite Nat2Z.id, decide_True by (rewrite length_app; lia).
  by rewrite take_app_length, drop_app_length.
Qed.

Lemma frames_packs msgs ws : mapM l_pack msgs = Some ws → frames (concat ws) = (msgs, []).
Proof.
  revert ws. induction msgs as [|msg msgs IH]; intros ws; [by intros [= <-]|].
  simpl. intros (w & Hw & (ws' & Hws & [= <-])%bind_Some)%bind_Some. cbn [concat]. by rewrite (frames_pack _ _ _ Hw), (IH ws').
Qed.

(** C25: A message sent through [l_pack] arrives as it was: when the chunks of a connection
    put together are what [l_pack] made of a list of messages (each shorter than 64 KiB),
    the gate hands out these messages, in order, whatever the chunks are and whatever other
    connections send meanwhile. *)
Theorem netpack_roundtrip fuel evs id msgs ws : Forall event_ok evs → (chunk_bytes evs < fuel)%nat →
  mapM l_pack msgs = Some ws → streams id [] evs = [concat ws] →
  ∃ nps oq, gate_run fuel None evs = Ok (nps, oq) ∧
    filter (λ np, np_socket_id np = id) nps = np_of id <$> msgs.
Proof.
  intros Hok Hfuel Hws Hs. destruct (gate_run_spec fuel None ∅ (λ _, []) evs) as (nps & oq & Hrun & Hd); [apply np_inv_empty|done..|].
  exists nps, oq. split; [done|]. specialize (Hd id). rewrite Hs in Hd. simpl in Hd.
  by rewrite (frames_packs _ _ Hws), app_nil_r in Hd.
Qed.

Lemma netpack_roundtrip_witness : ∃ nps oq,
  gate_run 100 None [GateData 3 [0]; GateData 9 [0; 3; 1]; GateData 3 [3; 72; 105]; GateData 3 [33; 0; 0; 0; 1; 9]] = Ok (nps, oq) ∧
  filter (λ np, np_socket_id np = 3) nps = np_of 3 <$> [[72; 105; 33]; []; [9]].
Proof.
  eapply (netpack_roundtrip 100 _ 3 [[72; 105; 33]; []; [9]]); [| |reflexivity|reflexivity].
  - repeat constructor; done.
  - vm_compute. lia.
Defined.

(** The sum in [hash_socket_id] is one of [int]s, and it does not fit for the ids that
    [alloc_socket] reaches last before it starts again. *)
Lemma hash_overflows : hash_socket_id INT_MAX = Err SignedOverflow ∧ hashable 2146959000 ∧ ¬ hashable 2146960000.
Proof. split; [done|]. unfold hashable. split; [split; by vm_compute|]. intros [_ H]. by vm_compute in H. Qed.
