(* ===== verification/LuaCall.v ===== *)
(** * C functions that Lua calls

    A function of a Lua library returns its results or leaves with [luaL_error]; both are
    values, next to the faults of [Prelude]. The type of the errors is a parameter: each
    library has its own. The functions work on buffers whose bytes are not set at first, and
    count with an [int]. *)
From S2P Require Import Prelude Bytes.
Open Scope list_scope.
Open Scope Z_scope.

(** a call that returns, or leaves with [luaL_error] *)
Definition lua_call (E A : Type) : Type := result (E + A).
Definition lret {E A} (a : A) : lua_call E A := Ok (inr a).
Definition luaL_error {E A} (e : E) : lua_call E A := Ok (inl e).
Definition lift {E A} (m : result A) : lua_call E A := match m with Ok a => Ok (inr a) | Err f => Err f end.
Definition lbind {E A B} (m : lua_call E A) (k : A → lua_call E B) : lua_call E B :=
  match m with
  | Ok (inr a) => k a
  | Ok (inl e) => Ok (inl e)
  | Err f => Err f
  end.
Notation "x <~ m ;; k" := (lbind m (λ x, k)) (at level 100, m at next level, right associativity) : skynet_scope.
Notation "m ;;;~ k" := (lbind m (λ _ : unit, k)) (at level 100, k at level 200, right associativity) : skynet_scope.
Notation "'let~' p := m 'in' k" := (lbind m (λ p, k)) (at level 10, p strict pattern, m at level 200, k at level 200) : skynet_scope.

(** [for (int i = lo; i < hi; i += step) s = body(i, s);], and [i] after it *)
Fixpoint int_loop {E S} (fuel : nat) (lo hi step : Z) (body : Z → S → lua_call E S) (s : S) : lua_call E (Z * S) :=
  if lo <? hi then
    match fuel with
    | O => Err OutOfFuel
    | S fuel =>
        s <~ body lo s;;
        lo <~ lift (int_chk (lo + step));;
        int_loop fuel lo hi step body s
    end
  else lret (lo, s).

(** [b[i] = z], and reading the first [n] bytes, as [lua_pushlstring] does *)
Definition buffer_set (b : buffer) (i z : Z) : result buffer := copy_into b i [z].
Definition buffer_byte (b : buffer) (i : Z) : result Z :=
  o <- arr_get b i;; match o with Some z => Ok z | None => Err UninitRead end.
Definition pushlstring (b : buffer) (n : Z) : result (list Z) :=
  if Z.of_nat (length b) <? n then Err OutOfBounds
  else match mapM id (take (Z.to_nat n) b) with Some l => Ok l | None => Err UninitRead end.

Section monad.
Context {E : Type}.

Lemma lbind_Ok {A B} (a : A) (k : A → lua_call E B) : (x <~ Ok (inr a);; k x) = k a.
Proof. done. Qed.
Lemma lbind_lret {A B} (a : A) (k : A → lua_call E B) : lbind (lret a) k = k a.
Proof. done. Qed.
Lemma lbind_assoc {A B C} (m : lua_call E A) (f : A → lua_call E B) (g : B → lua_call E C) :
  lbind (lbind m f) g = lbind m (λ x, lbind (f x) g).
Proof. by destruct m as [[|]|]. Qed.
Lemma lbind_inv {A B} (m : lua_call E A) (k : A → lua_call E B) b : lbind m k = lret b → ∃ a, m = lret a ∧ k a = lret b.
Proof. destruct m as [[e|a]|err]; cbn; [done| |done]. intros H. by exists a. Qed.
Lemma lift_inv {A} (m : result A) (a : A) : lift (E := E) m = lret a → m = Ok a.
Proof. destruct m; cbn; [|done]. unfold lret. congruence. Qed.
Lemma lift_Ok {A} (a : A) : lift (E := E) (Ok a) = Ok (inr a).
Proof. done. Qed.

(** A loop of [n] rounds: [P k s] holds after [k] of them, and the body leaves with the error
    [stop] in the first round for which [ok] does not hold. *)
Lemma int_loop_run {S} (P : nat → S → Prop) (ok : nat → bool) (stop : option E) (n fuel : nat) lo hi step (body : Z → S → lua_call E S) s :
  0 < step → (∀ k, (k < n)%nat → lo + Z.of_nat k * step < hi) → hi <= lo + Z.of_nat n * step →
  0 <= lo → lo + Z.of_nat n * step <= INT_MAX → (n <= fuel)%nat → P 0%nat s →
  (∀ k s, (k < n)%nat → P k s →
    if ok k then ∃ s', body (lo + Z.of_nat k * step) s = lret s' ∧ P (Datatypes.S k) s'
    else ∃ e, stop = Some e ∧ body (lo + Z.of_nat k * step) s = luaL_error e) →
  if forallb ok (seq 0 n) then ∃ s', int_loop fuel lo hi step body s = lret (lo + Z.of_nat n * step, s') ∧ P n s'
  else ∃ e, stop = Some e ∧ int_loop fuel lo hi step body s = luaL_error e.
Proof.
  intros Hstep Hin Hout Hlo Hmax. revert fuel lo s P ok Hin Hout Hlo Hmax.
  induction n as [|n IH]; intros fuel lo s P ok Hin Hout Hlo Hmax Hf HP Hbody.
  - exists s. split; [|done]. rewrite Z.mul_0_l, Z.add_0_r in *. destruct fuel; cbn [int_loop]; by rewrite (proj2 (Z.ltb_ge _ _)) by lia.
  - destruct fuel as [|fuel]; [lia|]. cbn [int_loop seq forallb].
    pose proof (Hin 0%nat ltac:(lia)) as H0. pose proof (Hbody 0%nat s ltac:(lia) HP) as Hb.
    rewrite Z.mul_0_l, Z.add_0_r in H0, Hb. rewrite (proj2 (Z.ltb_lt _ _)) by lia.
    destruct (ok 0%nat); cbn [andb]; [|destruct Hb as (e & -> & ->); by exists e]. destruct Hb as (s1 & -> & HP1). rewrite lbind_lret.
    rewrite int_chk_Ok by nia. rewrite lift_Ok, lbind_Ok.
    replace (forallb ok (seq 1 n)) with (forallb (λ k, ok (Datatypes.S k)) (seq 0 n)) by (rewrite <- seq_shift; generalize (seq 0 n); intros l; induction l; simpl; congruence).
    replace (lo + Z.of_nat (Datatypes.S n) * step) with (lo + step + Z.of_nat n * step) by lia.
    apply (IH fuel (lo + step) s1 (λ k, P (Datatypes.S k)) (λ k, ok (Datatypes.S k))); [ |lia..|done|].
    + intros k Hk. specialize (Hin (Datatypes.S k) ltac:(lia)). lia.
    + intros k s2 Hk HPk. specialize (Hbody (Datatypes.S k) s2 ltac:(lia) HPk).
      replace (lo + step + Z.of_nat k * step) with (lo + Z.of_nat (Datatypes.S k) * step) by lia. done.
Qed.

(** a loop that does not leave early *)
Lemma int_loop_inv {S} (P : nat → S → Prop) (n fuel : nat) lo hi step (body : Z → S → lua_call E S) s :
  0 < step → (∀ k, (k < n)%nat → lo + Z.of_nat k * step < hi) → hi <= lo + Z.of_nat n * step →
  0 <= lo → lo + Z.of_nat n * step <= INT_MAX → (n <= fuel)%nat → P 0%nat s →
  (∀ k s, (k < n)%nat → P k s → ∃ s', body (lo + Z.of_nat k * step) s = lret s' ∧ P (Datatypes.S k) s') →
  ∃ s', int_loop fuel lo hi step body s = lret (lo + Z.of_nat n * step, s') ∧ P n s'.
Proof.
  intros. pose proof (int_loop_run P (λ _, true) None n fuel lo hi step body s) as Hrun.
  rewrite (proj2 (forallb_forall (λ _ : nat, true) (seq 0 n)) (λ _ _, eq_refl)) in Hrun. auto.
Qed.
End monad.

Lemma mapM_id_Some (l : list Z) : mapM id (Some <$> l) = Some l.
Proof. induction l as [|x l IH]; [done|]. rewrite fmap_cons. cbn [mapM id mbind option_bind]. by rewrite IH. Qed.

(** a buffer that is filled from its start *)
Notation filled data k := ((Some <$> data) ++ replicate k None).

Lemma buffer_set_spec c data k j : j = Z.of_nat (length data) → (1 <= k)%nat →
  buffer_set (filled data k) j c = Ok (filled (data ++ [c]) (k - 1)).
Proof. intros -> Hk. unfold buffer_set. by rewrite copy_spec. Qed.

Lemma buffer_byte_spec l k i c : 0 <= i → l !! Z.to_nat i = Some c → buffer_byte (filled l k) i = Ok c.
Proof.
  intros Hi Hl. unfold buffer_byte. rewrite (arr_get_Ok _ i (Some c)); [done..|].
  rewrite lookup_app_l, list_lookup_fmap, Hl; [done|]. rewrite length_fmap. by apply lookup_lt_Some in Hl.
Qed.

Lemma pushlstring_app l (r : buffer) n : n = Z.of_nat (length l) → pushlstring ((Some <$> l) ++ r) n = Ok l.
Proof.
  intros ->. unfold pushlstring. rewrite length_app, length_fmap, (proj2 (Z.ltb_ge _ _)) by lia.
  rewrite Nat2Z.id, take_app_length' by (by rewrite length_fmap). by rewrite mapM_id_Some.
Qed.
Lemma pushlstring_ok l k n : n = Z.of_nat (length l) → pushlstring (filled l k) n = Ok l.
Proof. apply pushlstring_app. Qed.

(** the loop of the goal makes [n] rounds and keeps [P]: the goal after it is the last one *)
Ltac run_loop P n s Hs :=
  match goal with
  | |- context [int_loop ?fuel ?lo ?hi ?step ?body ?s0] =>
      destruct (int_loop_inv P n fuel lo hi step body s0) as (s & -> & Hs)
  end.
