(* ===== verification/Seri.v ===== *)
(** * Lua values as bytes (luaclib-src/lua-seri.cpp)

    Services written in Lua exchange lists of values: [luaseri_pack] writes them to a chain
    of blocks of 128 bytes that [seri] copies to one buffer, [luaseri_unpack] reads a buffer
    back. Every value is a byte with its type and a small number, and what the type needs.

    A table is the list of its entries in the order [lua_next] gives them, and the pairs that
    its [__pairs] metamethod yields, if it has one. A real number is the 64 bits of the
    [double]. [lua_rawlen] is free to choose among the borders of a table with holes, so that
    it is a parameter. An allocation by Lua succeeds, other than one of a size that no
    memory has. *)
From S2P Require Import Prelude Bytes LuaCall.
Open Scope list_scope.
Open Scope Z_scope.

Definition TYPE_NIL : Z := 0.
Definition TYPE_BOOLEAN : Z := 1.
Definition TYPE_NUMBER : Z := 2.
Definition TYPE_NUMBER_ZERO : Z := 0.
Definition TYPE_NUMBER_BYTE : Z := 1.
Definition TYPE_NUMBER_WORD : Z := 2.
Definition TYPE_NUMBER_DWORD : Z := 4.
Definition TYPE_NUMBER_QWORD : Z := 6.
Definition TYPE_NUMBER_REAL : Z := 8.
Definition TYPE_USERDATA : Z := 3.
Definition TYPE_SHORT_STRING : Z := 4.
Definition TYPE_LONG_STRING : Z := 5.
Definition TYPE_TABLE : Z := 6.
Definition MAX_COOKIE : Z := 32.
Definition BLOCK_SIZE : Z := 128.
Definition MAX_DEPTH : Z := 32.

(** [uint8_t n = COMBINE_TYPE(t, v)] *)
Definition COMBINE_TYPE (t v : Z) : Z := Z.lor t (Z.shiftl v 3) mod 256.

Inductive lua_value :=
  | LNil
  | LBool (b : bool)
  | LInt (z : Z)
  | LReal (bits : Z)
  | LString (s : list Z)
  | LUserdata (p : Z)
  | LTable (entries : list (lua_value * lua_value)) (meta_pairs : option (list (lua_value * lua_value)))
  | LOther (type_name : string).

Inductive lua_error :=
  | TooDeep
  | Unsupported (type_name : string)
  | InvalidStream (len : Z)
  | NullPointer
  | BlockTooBig
  | IndexIsNaN.

Notation lua := (lua_call lua_error).

(** ** Writing *)

(** the blocks before the current one, the current one, and where the next byte goes *)
Record write_block := mkWrite { w_before : list buffer; w_current : buffer; w_len : Z; w_ptr : Z }.

Definition blk_alloc (wb : write_block) : write_block :=
  mkWrite (w_before wb ++ [w_current wb]) (malloc_buffer BLOCK_SIZE) (w_len wb) 0.

(** [again] is the entry at the label [_again] *)
Fixpoint push_loop (fuel : nat) (again : bool) (b : write_block) (bytes : list Z) : result write_block :=
  match fuel with
  | O => Err OutOfFuel
  | S fuel =>
      let b := if again || (w_ptr b =? BLOCK_SIZE) then blk_alloc b else b in
      let sz := Z.of_nat (length bytes) in
      if w_ptr b <=? BLOCK_SIZE - sz then
        cur <- copy_into (w_current b) (w_ptr b) bytes;;
        len <- int_chk (w_len b + sz);;
        Ok (mkWrite (w_before b) cur len (w_ptr b + sz))
      else
        let copy := BLOCK_SIZE - w_ptr b in
        cur <- copy_into (w_current b) (w_ptr b) (take (Z.to_nat copy) bytes);;
        len <- int_chk (w_len b + copy);;
        push_loop fuel true (mkWrite (w_before b) cur len (w_ptr b)) (drop (Z.to_nat copy) bytes)
  end.
Definition wb_push (b : write_block) (bytes : list Z) : result write_block := push_loop (S (length bytes)) false b bytes.

(** the first block is on the stack of the caller *)
Definition wb_init : write_block := mkWrite [] (malloc_buffer BLOCK_SIZE) 0 0.

Definition wb_nil (wb : write_block) : result write_block := wb_push wb [TYPE_NIL].
Definition wb_boolean (wb : write_block) (boolean : bool) : result write_block :=
  wb_push wb [COMBINE_TYPE TYPE_BOOLEAN (if boolean then 1 else 0)].

Definition wb_integer (wb : write_block) (v : Z) : result write_block :=
  let type := TYPE_NUMBER in
  if v =? 0 then wb_push wb [COMBINE_TYPE type TYPE_NUMBER_ZERO]
  else if negb (v =? s32 v) then
    wb <- wb_push wb [COMBINE_TYPE type TYPE_NUMBER_QWORD];; wb_push wb (le_bytes 8 v)
  else if v <? 0 then
    wb <- wb_push wb [COMBINE_TYPE type TYPE_NUMBER_DWORD];; wb_push wb (le_bytes 4 v)
  else if v <? 0x100 then
    wb <- wb_push wb [COMBINE_TYPE type TYPE_NUMBER_BYTE];; wb_push wb (le_bytes 1 v)
  else if v <? 0x10000 then
    wb <- wb_push wb [COMBINE_TYPE type TYPE_NUMBER_WORD];; wb_push wb (le_bytes 2 v)
  else
    wb <- wb_push wb [COMBINE_TYPE type TYPE_NUMBER_DWORD];; wb_push wb (le_bytes 4 v).

Definition wb_real (wb : write_block) (bits : Z) : result write_block :=
  wb <- wb_push wb [COMBINE_TYPE TYPE_NUMBER TYPE_NUMBER_REAL];; wb_push wb (le_bytes 8 bits).
Definition wb_pointer (wb : write_block) (v : Z) : result write_block :=
  wb <- wb_push wb [TYPE_USERDATA];; wb_push wb (le_bytes 8 v).

(** [len] is an [int]; [memcpy] of a negative length runs out of the string *)
Definition wb_string (wb : write_block) (str : list Z) : result write_block :=
  let len := s32 (Z.of_nat (length str)) in
  if len <? MAX_COOKIE then
    wb <- wb_push wb [COMBINE_TYPE TYPE_SHORT_STRING len];;
    if 0 <? len then wb_push wb (take (Z.to_nat len) str) else Ok wb
  else if len <? 0x10000 then
    wb <- wb_push wb [COMBINE_TYPE TYPE_LONG_STRING 2];;
    wb <- wb_push wb (le_bytes 2 len);;
    wb_push wb (take (Z.to_nat len) str)
  else
    wb <- wb_push wb [COMBINE_TYPE TYPE_LONG_STRING 4];;
    wb <- wb_push wb (le_bytes 4 len);;
    wb_push wb (take (Z.to_nat len) str).

(** [lua_rawgeti] *)
Definition is_int_key (i : Z) (k : lua_value) : bool := match k with LInt z => z =? i | _ => false end.
Definition rawgeti (entries : list (lua_value * lua_value)) (i : Z) : lua_value :=
  match find (λ p, is_int_key i p.1) entries with Some p => p.2 | None => LNil end.

Section pack.
Variable rawlen : list (lua_value * lua_value) → Z.

Definition in_array (array_size : Z) (k : lua_value) : bool :=
  match k with LInt x => (0 <? x) && (x <=? array_size) | _ => false end.

Section tables.
(** [pack_one] of the values inside a table *)
Variable pack : write_block → lua_value → lua write_block.

Fixpoint pack_array (n : nat) (i : Z) (entries : list (lua_value * lua_value)) (wb : write_block) : lua write_block :=
  match n with
  | O => lret wb
  | S n => wb <~ pack wb (rawgeti entries i);; pack_array n (i + 1) entries wb
  end.

Definition wb_table_array (wb : write_block) (entries : list (lua_value * lua_value)) : lua (Z * write_block) :=
  let array_size := s32 (rawlen entries) in
  wb <~ lift (if MAX_COOKIE - 1 <=? array_size then
                wb <- wb_push wb [COMBINE_TYPE TYPE_TABLE (MAX_COOKIE - 1)];; wb_integer wb array_size
              else wb_push wb [COMBINE_TYPE TYPE_TABLE array_size]);;
  wb <~ pack_array (Z.to_nat array_size) 1 entries wb;;
  lret (array_size, wb).

Fixpoint pack_pairs (pairs : list (lua_value * lua_value)) (wb : write_block) : lua write_block :=
  match pairs with
  | [] => lift (wb_nil wb)
  | (k, v) :: pairs => wb <~ pack wb k;; wb <~ pack wb v;; pack_pairs pairs wb
  end.

Definition wb_table_hash (wb : write_block) (entries : list (lua_value * lua_value)) (array_size : Z) : lua write_block :=
  pack_pairs (filter (λ p, in_array array_size p.1 = false) entries) wb.

Definition wb_table_metapairs (wb : write_block) (pairs : list (lua_value * lua_value)) : lua write_block :=
  wb <~ lift (wb_push wb [COMBINE_TYPE TYPE_TABLE 0]);; pack_pairs pairs wb.

Definition wb_table (wb : write_block) (entries : list (lua_value * lua_value)) (meta_pairs : option (list (lua_value * lua_value)))
  : lua write_block :=
  match meta_pairs with
  | Some pairs => wb_table_metapairs wb pairs
  | None => let~ (array_size, wb) := wb_table_array wb entries in wb_table_hash wb entries array_size
  end.
End tables.

Fixpoint pack_one (fuel : nat) (depth : Z) (b : write_block) (v : lua_value) : lua write_block :=
  match fuel with
  | O => Err OutOfFuel
  | S fuel =>
      if MAX_DEPTH <? depth then luaL_error TooDeep
      else
        match v with
        | LNil => lift (wb_nil b)
        | LInt x => lift (wb_integer b x)
        | LReal n => lift (wb_real b n)
        | LBool x => lift (wb_boolean b x)
        | LString str => lift (wb_string b str)
        | LUserdata p => lift (wb_pointer b p)
        | LTable entries meta_pairs => wb_table (pack_one fuel (depth + 1)) b entries meta_pairs
        | LOther type_name => luaL_error (Unsupported type_name)
        end
  end.

(** the depth is limited, and so is the recursion *)
Definition PACK_FUEL : nat := 34.

Fixpoint pack_from (b : write_block) (args : list lua_value) : lua write_block :=
  match args with
  | [] => lret b
  | v :: args => b <~ pack_one PACK_FUEL 0 b v;; pack_from b args
  end.

Fixpoint seri (blocks : list buffer) (len : Z) : result buffer :=
  if 0 <? len then
    match blocks with
    | [] => Err NullDeref
    | b :: blocks =>
        if BLOCK_SIZE <=? len then rest <- seri blocks (len - BLOCK_SIZE);; Ok (b ++ rest)
        else Ok (take (Z.to_nat len) b)
    end
  else Ok [].

Definition luaseri_pack (args : list lua_value) : lua buffer :=
  wb <~ pack_from wb_init args;;
  lift (seri (w_before wb ++ [w_current wb]) (w_len wb)).
End pack.

(** ** Reading *)

Record read_block := mkRead { r_buffer : list Z; r_rest : Z; r_ptr : Z }.

(** where the [sz] bytes are; the pointer and what is left are [int]s *)
Definition rb_read (rb : read_block) (sz : Z) : result (option (Z * read_block)) :=
  if r_rest rb <? sz then Ok None
  else
    ptr <- int_chk (r_ptr rb + sz);;
    rest <- int_chk (r_rest rb - sz);;
    Ok (Some (r_ptr rb, mkRead (r_buffer rb) rest ptr)).

(** [memcpy] from the stream *)
Definition rb_bytes (rb : read_block) (off sz : Z) : result (list Z) :=
  if (0 <=? off) && (off + sz <=? Z.of_nat (length (r_buffer rb)))
  then Ok (take (Z.to_nat sz) (drop (Z.to_nat off) (r_buffer rb))) else Err OutOfBounds.

Definition invalid_stream {A} (rb : read_block) : lua A := luaL_error (InvalidStream (r_rest rb)).

(** [sz] bytes, or the error *)
Definition get_bytes (rb : read_block) (sz : Z) : lua (list Z * read_block) :=
  o <~ lift (rb_read rb sz);;
  match o with
  | None => invalid_stream rb
  | Some (off, rb) => bytes <~ lift (rb_bytes rb off sz);; lret (bytes, rb)
  end.

Definition s64 (z : Z) : Z := (z + 2 ^ 63) mod 2 ^ 64 - 2 ^ 63.

Definition get_integer (rb : read_block) (cookie : Z) : lua (Z * read_block) :=
  if cookie =? TYPE_NUMBER_ZERO then lret (0, rb)
  else if cookie =? TYPE_NUMBER_BYTE then let~ (l, rb) := get_bytes rb 1 in lret (le_value l, rb)
  else if cookie =? TYPE_NUMBER_WORD then let~ (l, rb) := get_bytes rb 2 in lret (le_value l, rb)
  else if cookie =? TYPE_NUMBER_DWORD then let~ (l, rb) := get_bytes rb 4 in lret (s32 (le_value l), rb)
  else if cookie =? TYPE_NUMBER_QWORD then let~ (l, rb) := get_bytes rb 8 in lret (s64 (le_value l), rb)
  else invalid_stream rb.

Definition get_real (rb : read_block) : lua (Z * read_block) := let~ (l, rb) := get_bytes rb 8 in lret (le_value l, rb).
Definition get_pointer (rb : read_block) : lua (Z * read_block) := let~ (l, rb) := get_bytes rb 8 in lret (le_value l, rb).

(** [lua_pushlstring] takes the length as a [size_t] *)
Definition get_buffer (rb : read_block) (len : Z) : lua (list Z * read_block) :=
  o <~ lift (rb_read rb len);;
  match o with
  | None => invalid_stream rb
  | Some (off, rb) =>
      if len <? 0 then luaL_error BlockTooBig
      else bytes <~ lift (rb_bytes rb off len);; lret (bytes, rb)
  end.

(** A [double] by its bits: not a number, and the integer it is equal to, if one of 64 bits is. *)
Definition real_exponent (bits : Z) : Z := Z.land (Z.shiftr bits 52) 0x7ff.
Definition real_mantissa (bits : Z) : Z := Z.land bits (Z.ones 52).
Definition real_is_nan (bits : Z) : bool := (real_exponent bits =? 0x7ff) && negb (real_mantissa bits =? 0).
Definition real_to_integer (bits : Z) : option Z :=
  let e := real_exponent bits in
  let m := if e =? 0 then real_mantissa bits else real_mantissa bits + 2 ^ 52 in
  let e := Z.max e 1 - 1075 in
  if real_exponent bits =? 0x7ff then None
  else if (e <? 0) && negb (m mod 2 ^ (- e) =? 0) then None
  else
    let n := Z.shiftl m e in
    let n := if Z.testbit bits 63 then - n else n in
    if (- 2 ^ 63 <=? n) && (n <? 2 ^ 63) then Some n else None.

(** the key [lua_rawset] uses, and when two keys are the same; the tables of a stream are new ones *)
Definition normal_key (k : lua_value) : lua_value :=
  match k with LReal bits => match real_to_integer bits with Some z => LInt z | None => k end | _ => k end.
Definition key_eqb (k k' : lua_value) : bool :=
  match k, k' with
  | LBool b, LBool b' => eqb b b'
  | LInt z, LInt z' => z =? z'
  | LReal r, LReal r' => r =? r'
  | LString s, LString s' => bool_decide (s = s')
  | LUserdata p, LUserdata p' => p =? p'
  | _, _ => false
  end.

Definition rawset (entries : list (lua_value * lua_value)) (k v : lua_value) : lua (list (lua_value * lua_value)) :=
  if match k with LReal bits => real_is_nan bits | _ => false end then luaL_error IndexIsNaN
  else
    let k := normal_key k in
    let others := filter (λ p, key_eqb p.1 k = false) entries in
    lret (match v with LNil => others | _ => others ++ [(k, v)] end).

(** the array size of a table, which follows it when it does not fit beside the type *)
Definition table_size (rb : read_block) (array_size : Z) : lua (Z * read_block) :=
  if array_size =? MAX_COOKIE - 1 then
    let~ (t, rb) := get_bytes rb 1 in
    let type := le_value t in
    let cookie := Z.shiftr type 3 in
    if negb (Z.land type 7 =? TYPE_NUMBER) || (cookie =? TYPE_NUMBER_REAL) then invalid_stream rb
    else let~ (n, rb) := get_integer rb cookie in lret (s32 n, rb)
  else lret (array_size, rb).

(** [unpack_table] and [push_value] over the [unpack_one] they call for the values inside a table *)
Section unpack.
Context (unpack_value : read_block → lua (lua_value * read_block)).

Fixpoint unpack_array (fuel : nat) (rb : read_block) (i array_size : Z) (entries : list (lua_value * lua_value))
  : lua (list (lua_value * lua_value) * read_block) :=
  if array_size <? i then lret (entries, rb)
  else
    match fuel with
    | O => Err OutOfFuel
    | S fuel =>
        let~ (v, rb) := unpack_value rb in
        entries <~ rawset entries (LInt i) v;;
        unpack_array fuel rb (i + 1) array_size entries
    end.

Fixpoint unpack_hash (fuel : nat) (rb : read_block) (entries : list (lua_value * lua_value))
  : lua (list (lua_value * lua_value) * read_block) :=
  match fuel with
  | O => Err OutOfFuel
  | S fuel =>
      let~ (k, rb) := unpack_value rb in
      match k with
      | LNil => lret (entries, rb)
      | _ =>
          let~ (v, rb) := unpack_value rb in
          entries <~ rawset entries k v;;
          unpack_hash fuel rb entries
      end
  end.

Definition unpack_table (fuel : nat) (rb : read_block) (array_size : Z) : lua (lua_value * read_block) :=
  let~ (array_size, rb) := table_size rb array_size in
  let~ (entries, rb) := unpack_array fuel rb 1 array_size [] in
  let~ (entries, rb) := unpack_hash fuel rb entries in
  lret (LTable entries None, rb).

Definition push_value (fuel : nat) (rb : read_block) (type cookie : Z) : lua (lua_value * read_block) :=
  if type =? TYPE_NIL then lret (LNil, rb)
  else if type =? TYPE_BOOLEAN then lret (LBool (negb (cookie =? 0)), rb)
  else if type =? TYPE_NUMBER then
    if cookie =? TYPE_NUMBER_REAL then let~ (n, rb) := get_real rb in lret (LReal n, rb)
    else let~ (n, rb) := get_integer rb cookie in lret (LInt n, rb)
  else if type =? TYPE_USERDATA then let~ (p, rb) := get_pointer rb in lret (LUserdata p, rb)
  else if type =? TYPE_SHORT_STRING then let~ (s, rb) := get_buffer rb cookie in lret (LString s, rb)
  else if type =? TYPE_LONG_STRING then
    if cookie =? 2 then
      let~ (l, rb) := get_bytes rb 2 in
      let~ (s, rb) := get_buffer rb (le_value l) in lret (LString s, rb)
    else if negb (cookie =? 4) then invalid_stream rb
    else
      let~ (l, rb) := get_bytes rb 4 in
      let~ (s, rb) := get_buffer rb (s32 (le_value l)) in lret (LString s, rb)
  else if type =? TYPE_TABLE then unpack_table fuel rb cookie
  else invalid_stream rb.
End unpack.

(** the depth of the nested tables and the length of each loop are under [fuel] *)
Fixpoint unpack_one (fuel : nat) (rb : read_block) : lua (lua_value * read_block) :=
  match fuel with
  | O => Err OutOfFuel
  | S fuel =>
      let~ (t, rb) := get_bytes rb 1 in
      let type := le_value t in
      push_value (unpack_one fuel) fuel rb (Z.land type 7) (Z.shiftr type 3)
  end.

(** the arguments of [luaseri_unpack]: nothing, a string, or a pointer and a length *)
Inductive seri_source := SourceNil | SourceString (s : list Z) | SourcePointer (p : option (list Z)) (len : Z).

(** a value takes a byte at least, so neither the depth nor a loop exceeds the bytes that are left *)
Definition unpack_fuel (len : Z) : nat := 3 * Z.to_nat len + 5.

Fixpoint unpack_all (fuel : nat) (rb : read_block) : lua (list lua_value) :=
  match fuel with
  | O => Err OutOfFuel
  | S fuel' =>
      o <~ lift (rb_read rb 1);;
      match o with
      | None => lret []
      | Some (off, rb) =>
          t <~ lift (rb_bytes rb off 1);;
          let type := le_value t in
          let~ (v, rb) := push_value (unpack_one fuel') fuel' rb (Z.land type 7) (Z.shiftr type 3) in
          vs <~ unpack_all fuel' rb;;
          lret (v :: vs)
      end
  end.

Definition luaseri_unpack (source : seri_source) : lua (list lua_value) :=
  let unpack p len :=
    if len =? 0 then lret []
    else match p with
         | None => luaL_error NullPointer
         | Some bytes => unpack_all (unpack_fuel len) (mkRead bytes len 0)
         end in
  match source with
  | SourceNil => lret []
  | SourceString s => unpack (Some s) (s32 (Z.of_nat (length s)))
  | SourcePointer p len => unpack p len
  end.
