(* ===== verification/SeriProof.v ===== *)
(** * What is unpacked is what was packed

    The chain of blocks holds the bytes that were pushed ([wb_ok]); [pack_one] pushes the
    bytes of a value ([encode]); [unpack_one] reads them back as an equivalent value
    ([lua_equiv]). On any bytes at all, [luaseri_unpack] stays inside its buffer. *)
From S2P Require Import Prelude Bytes LuaCall Seri.
Open Scope list_scope.
Open Scope Z_scope.

Notation entries := (list (lua_value * lua_value)).

(** ** The chain of blocks *)

(** every block but the current one is full, and the current one is filled up to [w_ptr] *)
Record wb_ok (wb : write_block) (out : list Z) : Prop := {
  wo_chain : ∃ (full : list (list Z)) (cur : list Z), w_before wb = map (fmap Some) full ∧ Forall (λ l, length l = Z.to_nat BLOCK_SIZE) full ∧
    w_current wb = (Some <$> cur) ++ replicate (Z.to_nat BLOCK_SIZE - length cur) None ∧
    w_ptr wb = Z.of_nat (length cur) ∧ (length cur <= Z.to_nat BLOCK_SIZE)%nat ∧ out = concat full ++ cur;
  wo_len : w_len wb = Z.of_nat (length out)
}.

Lemma wb_init_ok : wb_ok wb_init [].
Proof. split; [|done]. exists [], []. split_and!; try done. simpl. lia. Qed.

Lemma blk_alloc_ok wb out : wb_ok wb out → w_ptr wb = BLOCK_SIZE → wb_ok (blk_alloc wb) out.
Proof.
  intros [(full & cur & Hb & Hf & Hc & Hp & Hle & Ho) Hl] Hptr. split; [|done].
  assert (Hcl : length cur = Z.to_nat BLOCK_SIZE) by (unfold BLOCK_SIZE in *; lia).
  exists (full ++ [cur]), []. simpl. split_and!; try done.
  - rewrite Hb, Hc, Hcl, Nat.sub_diag, fmap_app, app_nil_r. done.
  - apply Forall_app. auto.
  - lia.
  - rewrite concat_app, app_nil_r. simpl. by rewrite app_nil_r.
Qed.

Lemma push_loop_again fuel b bytes : push_loop (S fuel) true b bytes = push_loop (S fuel) false (blk_alloc b) bytes.
Proof. done. Qed.

(** one [memcpy] into the current block *)
Lemma wb_copy wb out bytes : wb_ok wb out → w_ptr wb + Z.of_nat (length bytes) <= BLOCK_SIZE →
  ∃ cur, copy_into (w_current wb) (w_ptr wb) bytes = Ok cur ∧
    ∀ len, len = w_len wb + Z.of_nat (length bytes) →
    wb_ok (mkWrite (w_before wb) cur len (w_ptr wb + Z.of_nat (length bytes))) (out ++ bytes).
Proof.
  intros [(full & cur & Hb & Hf & Hc & Hp & Hle & Ho) Hl] Hfit. unfold BLOCK_SIZE in *. rewrite Hc, Hp, copy_spec by lia.
  eexists. split; [done|]. intros len Hlen. split; [|simpl; rewrite length_app; lia].
  exists full, (cur ++ bytes). simpl. rewrite length_app. split_and!; try done; try lia.
  - f_equal. f_equal. unfold BLOCK_SIZE. lia.
  - unfold BLOCK_SIZE. lia.
  - by rewrite Ho, app_assoc.
Qed.

Lemma push_loop_spec fuel wb out bytes : (length bytes < fuel)%nat → wb_ok wb out →
  Z.of_nat (length out + length bytes) <= INT_MAX →
  ∃ wb', push_loop fuel false wb bytes = Ok wb' ∧ wb_ok wb' (out ++ bytes).
Proof.
  revert wb out bytes. induction fuel as [|fuel IH]; intros wb out bytes Hf Hok Hmax; [lia|].
  cbn [push_loop orb]. set (b := if w_ptr wb =? BLOCK_SIZE then _ else _).
  assert (Hb : wb_ok b out ∧ w_ptr b < BLOCK_SIZE ∧ 0 <= w_ptr b).
  { unfold b. destruct (Z.eqb_spec (w_ptr wb) BLOCK_SIZE) as [E|E].
    - split; [by apply blk_alloc_ok|]. done.
    - split; [done|]. destruct Hok as [(full & cur & _ & _ & _ & Hp & Hle & _) _]. unfold BLOCK_SIZE in *. lia. }
  destruct Hb as (Hbok & Hlt & H0). clearbody b. clear Hok wb. pose proof (wo_len _ _ Hbok) as Hlen.
  destruct (Z.leb_spec (w_ptr b) (BLOCK_SIZE - Z.of_nat (length bytes))) as [Hfit|Hbig].
  - destruct (wb_copy b out bytes Hbok) as (cur & -> & Hok'); [lia|]. rewrite bind_Ok, int_chk_Ok, bind_Ok by (unfold INT_MAX in *; lia).
    eexists. split; [done|]. by apply Hok'.
  - set (copy := BLOCK_SIZE - w_ptr b) in *.
    assert (Htl : Z.of_nat (length (take (Z.to_nat copy) bytes)) = copy) by (rewrite length_take; lia).
    destruct (wb_copy b out (take (Z.to_nat copy) bytes) Hbok) as (cur & -> & Hok'); [lia|].
    rewrite bind_Ok, int_chk_Ok, bind_Ok by (unfold INT_MAX in *; lia).
    destruct fuel as [|fuel]; [lia|]. rewrite push_loop_again.
    specialize (Hok' (w_len b + copy)). rewrite Htl in Hok'. specialize (Hok' eq_refl).
    replace (w_ptr b + copy) with BLOCK_SIZE in Hok' by lia. apply blk_alloc_ok in Hok'; [|done].
    destruct (IH _ _ (drop (Z.to_nat copy) bytes) ltac:(rewrite length_drop; lia) Hok') as (wb' & Hwb' & Hok'').
    + rewrite length_app, length_drop. lia.
    + exists wb'. split; [exact Hwb'|]. by rewrite <- app_assoc, take_drop in Hok''.
Qed.

(** a push appends *)
Lemma wb_push_ok wb out bytes : wb_ok wb out → Z.of_nat (length out + length bytes) <= INT_MAX →
  ∃ wb', wb_push wb bytes = Ok wb' ∧ wb_ok wb' (out ++ bytes).
Proof. intros. apply push_loop_spec; [lia|done|done]. Qed.

Lemma seri_ok wb out : wb_ok wb out → seri (w_before wb ++ [w_current wb]) (w_len wb) = Ok (Some <$> out).
Proof.
  intros [(full & cur & -> & Hf & -> & _ & Hle & ->) ->]. clear wb. revert Hf. induction full as [|b full IH]; intros Hf.
  - cbn [concat app map seri]. destruct (Z.ltb_spec 0 (Z.of_nat (length cur))) as [H0|H0].
    2:{ destruct cur; [done|simpl in H0; lia]. }
    destruct (Z.leb_spec BLOCK_SIZE (Z.of_nat (length cur))) as [Hb|Hb].
    + assert (E : length cur = Z.to_nat BLOCK_SIZE) by lia. rewrite E, Z2Nat.id, Z.sub_diag, Nat.sub_diag by done. cbn. by rewrite !app_nil_r.
    + rewrite take_app_length' by (rewrite length_fmap; lia). done.
  - inversion Hf as [|? ? Hb Hf']; subst. cbn [concat map app seri]. rewrite !length_app.
    assert (0 < BLOCK_SIZE) by done. rewrite (proj2 (Z.ltb_lt _ _)), (proj2 (Z.leb_le _ _)) by lia.
    replace (_ - BLOCK_SIZE) with (Z.of_nat (length (concat full ++ cur))) by (rewrite length_app; lia).
    rewrite (IH Hf'), bind_Ok, <- app_assoc, !fmap_app. done.
Qed.

(** ** Reading from a buffer *)

Section reading.
Variable buf : list Z.
Hypothesis buf_size : Z.of_nat (length buf) <= INT_MAX.

(** the reader of [buf] in front of its last bytes [l] *)
Definition stream (l : list Z) : read_block := mkRead buf (Z.of_nat (length l)) (Z.of_nat (length buf - length l)).

Lemma rb_read_stream x l : (x ++ l) `suffix_of` buf →
  rb_read (stream (x ++ l)) (Z.of_nat (length x)) = Ok (Some (Z.of_nat (length buf - length (x ++ l)), stream l)) ∧
  rb_bytes (stream l) (Z.of_nat (length buf - length (x ++ l))) (Z.of_nat (length x)) = Ok x.
Proof.
  intros [pre Hpre]. assert (Hl : length buf = (length pre + (length x + length l))%nat) by (by rewrite Hpre, !length_app).
  split.
  - unfold rb_read, stream. cbn [r_rest r_ptr r_buffer]. rewrite length_app. rewrite (proj2 (Z.ltb_ge _ _)) by lia.
    rewrite int_chk_Ok, bind_Ok, int_chk_Ok, bind_Ok by (unfold INT_MAX in *; lia). do 4 f_equal; lia.
  - unfold rb_bytes, stream. cbn [r_buffer]. rewrite length_app. rewrite !(proj2 (Z.leb_le _ _)) by lia. cbn [andb].
    rewrite !Nat2Z.id, Hpre. rewrite drop_app_length' by (rewrite !length_app; lia). by rewrite take_app_length.
Qed.

Lemma get_bytes_stream n x l : (x ++ l) `suffix_of` buf → n = Z.of_nat (length x) →
  get_bytes (stream (x ++ l)) n = lret (x, stream l).
Proof.
  intros Hs ->. destruct (rb_read_stream x l Hs) as [Hr Hb]. unfold get_bytes. by rewrite Hr, lift_Ok, lbind_Ok, Hb, lift_Ok, lbind_Ok.
Qed.

Lemma get_buffer_stream n x l : (x ++ l) `suffix_of` buf → n = Z.of_nat (length x) →
  get_buffer (stream (x ++ l)) n = lret (x, stream l).
Proof.
  intros Hs ->. destruct (rb_read_stream x l Hs) as [Hr Hb]. unfold get_buffer.
  rewrite Hr, lift_Ok, lbind_Ok. rewrite (proj2 (Z.ltb_ge _ _)) by lia. by rewrite Hb, lift_Ok, lbind_Ok.
Qed.

Lemma get_bytes_short n l : Z.of_nat (length l) < n → get_bytes (stream l) n = luaL_error (InvalidStream (Z.of_nat (length l))).
Proof. intros Hn. unfold get_bytes, rb_read. cbn [stream r_rest]. by rewrite (proj2 (Z.ltb_lt _ _)) by done. Qed.
End reading.

(** ** The bytes of a value *)

Definition encode_integer (v : Z) : list Z :=
  if v =? 0 then [COMBINE_TYPE TYPE_NUMBER TYPE_NUMBER_ZERO]
  else if negb (v =? s32 v) then COMBINE_TYPE TYPE_NUMBER TYPE_NUMBER_QWORD :: le_bytes 8 v
  else if v <? 0 then COMBINE_TYPE TYPE_NUMBER TYPE_NUMBER_DWORD :: le_bytes 4 v
  else if v <? 0x100 then COMBINE_TYPE TYPE_NUMBER TYPE_NUMBER_BYTE :: le_bytes 1 v
  else if v <? 0x10000 then COMBINE_TYPE TYPE_NUMBER TYPE_NUMBER_WORD :: le_bytes 2 v
  else COMBINE_TYPE TYPE_NUMBER TYPE_NUMBER_DWORD :: le_bytes 4 v.

Definition encode_string (str : list Z) : list Z :=
  let len := Z.of_nat (length str) in
  if len <? MAX_COOKIE then COMBINE_TYPE TYPE_SHORT_STRING len :: str
  else if len <? 0x10000 then COMBINE_TYPE TYPE_LONG_STRING 2 :: le_bytes 2 len ++ str
  else COMBINE_TYPE TYPE_LONG_STRING 4 :: le_bytes 4 len ++ str.

Section encode.
Variable rawlen : entries → Z.
Hypothesis rawlen_range : ∀ e, 0 <= rawlen e <= INT_MAX.

Definition table_header (n : Z) : list Z :=
  if MAX_COOKIE - 1 <=? n then COMBINE_TYPE TYPE_TABLE (MAX_COOKIE - 1) :: encode_integer n else [COMBINE_TYPE TYPE_TABLE n].

(** the array size, the array and the other entries of a table as they are written *)
Definition table_parts (e : entries) (mp : option entries) : Z * list lua_value * entries :=
  match mp with
  | Some pairs => (0, [], pairs)
  | None => (rawlen e, rawgeti e <$> seqZ 1 (rawlen e), filter (λ p, in_array (rawlen e) p.1 = false) e)
  end.

Fixpoint encode (fuel : nat) (v : lua_value) : option (list Z) :=
  match fuel with
  | O => None
  | S fuel =>
      match v with
      | LNil => Some [TYPE_NIL]
      | LBool b => Some [COMBINE_TYPE TYPE_BOOLEAN (if b then 1 else 0)]
      | LInt z => Some (encode_integer z)
      | LReal bits => Some (COMBINE_TYPE TYPE_NUMBER TYPE_NUMBER_REAL :: le_bytes 8 bits)
      | LString s => Some (encode_string s)
      | LUserdata p => Some (TYPE_USERDATA :: le_bytes 8 p)
      | LTable e mp =>
          let '(n, array, pairs) := table_parts e mp in
          a ← mapM (encode fuel) array;
          h ← mapM (λ p, k ← encode fuel p.1; v ← encode fuel p.2; Some (k ++ v)) pairs;
          Some (table_header n ++ concat a ++ concat h ++ [TYPE_NIL])
      | LOther _ => None
      end
  end.

(** [m] pushes [bytes] *)
Definition writes (out bytes : list Z) (m : lua write_block) : Prop :=
  Z.of_nat (length out + length bytes) <= INT_MAX → ∃ wb, m = Ok (inr wb) ∧ wb_ok wb (out ++ bytes).

Lemma writes_push wb out bytes : wb_ok wb out → writes out bytes (lift (wb_push wb bytes)).
Proof. intros Hok Hmax. destruct (wb_push_ok wb out bytes Hok Hmax) as (wb' & -> & Hok'). by exists wb'. Qed.

Lemma writes_bind out b1 b2 m (k : write_block → lua write_block) : writes out b1 m →
  (∀ wb, wb_ok wb (out ++ b1) → writes (out ++ b1) b2 (k wb)) → writes out (b1 ++ b2) (wb <~ m;; k wb).
Proof.
  intros Hm Hk Hmax. rewrite length_app in Hmax. destruct Hm as (wb & -> & Hok); [lia|]. rewrite lbind_Ok, app_assoc.
  apply Hk; [done|]. rewrite length_app. lia.
Qed.

Lemma writes_lift out b1 b2 m (k : write_block → result write_block) : writes out b1 (lift m) →
  (∀ wb, wb_ok wb (out ++ b1) → writes (out ++ b1) b2 (lift (k wb))) → writes out (b1 ++ b2) (lift (wb <- m;; k wb)).
Proof. intros Hm Hk. pose proof (writes_bind out b1 b2 (lift m) (λ wb, lift (k wb)) Hm Hk) as H. by destruct m. Qed.

Lemma writes_two wb out b bytes : wb_ok wb out → writes out (b :: bytes) (lift (wb <- wb_push wb [b];; wb_push wb bytes)).
Proof. intros Hok. apply (writes_lift out [b] bytes); [by apply writes_push|]. intros wb' Hok'. by apply writes_push. Qed.

Lemma writes_integer wb out v : wb_ok wb out → writes out (encode_integer v) (lift (wb_integer wb v)).
Proof.
  intros Hok. unfold wb_integer, encode_integer.
  repeat (case_match; [by apply writes_push || by apply writes_two|]). by apply writes_two.
Qed.

Lemma encode_string_length s : (length s <= length (encode_string s))%nat.
Proof. unfold encode_string. repeat case_match; simpl; rewrite ?length_app; lia. Qed.

Lemma writes_string wb out s : wb_ok wb out → writes out (encode_string s) (lift (wb_string wb s)).
Proof.
  intros Hok Hmax. assert (Hs : Z.of_nat (length s) <= INT_MAX) by (pose proof (encode_string_length s); lia).
  revert Hmax. fold (writes out (encode_string s) (lift (wb_string wb s))). unfold wb_string, encode_string. rewrite s32_small by (unfold INT_MAX in *; lia). rewrite Nat2Z.id, take_ge by lia.
  destruct (Z.ltb_spec (Z.of_nat (length s)) MAX_COOKIE).
  - apply (writes_lift out [_] s); [by apply writes_push|]. intros wb' Hok'. destruct (Z.ltb_spec 0 (Z.of_nat (length s))); [by apply writes_push|].
    destruct s; [|simpl in *; lia]. intros _. exists wb'. by rewrite app_nil_r.
  - case_match; apply (writes_lift out [_] (_ ++ _)); try (by apply writes_push); intros wb' Hok';
      (apply writes_lift; [by apply writes_push|]; intros wb'' Hok''; by apply writes_push).
Qed.

Lemma pack_pairs_writes pack enc pairs h wb out : wb_ok wb out →
  (∀ wb out v bytes, wb_ok wb out → enc v = Some bytes → writes out bytes (pack wb v)) →
  mapM (λ p, k ← enc p.1; v ← enc p.2; Some (k ++ v)) pairs = Some h →
  writes out (concat h ++ [TYPE_NIL]) (pack_pairs pack pairs wb).
Proof.
  intros Hok Hpack. revert h wb out Hok. induction pairs as [|[k v] pairs IH]; intros h wb out Hok.
  { intros [= <-]. by apply writes_push. }
  intros (x & (bk & Hk & (bv & Hv & [= <-])%bind_Some)%bind_Some & (h' & Hh & [= <-])%bind_Some)%bind_Some.
  cbn [concat pack_pairs]. rewrite <- !app_assoc. apply writes_bind; [by apply Hpack|]. intros wb1 Hok1.
  apply writes_bind; [by apply Hpack|]. intros wb2 Hok2. by apply IH.
Qed.

Lemma pack_array_writes pack enc e n i a wb out : wb_ok wb out →
  (∀ wb out v bytes, wb_ok wb out → enc v = Some bytes → writes out bytes (pack wb v)) →
  mapM enc (rawgeti e <$> seqZ i (Z.of_nat n)) = Some a → writes out (concat a) (pack_array pack n i e wb).
Proof.
  intros Hok Hpack. revert i a wb out Hok. induction n as [|n IH]; intros i a wb out Hok.
  { intros [= <-] _. exists wb. by rewrite app_nil_r. }
  rewrite seqZ_cons, fmap_cons by lia. intros (x & Hx & (a' & Ha & [= <-])%bind_Some)%bind_Some. cbn [concat pack_array].
  apply writes_bind; [by apply Hpack|]. intros wb1 Hok1. apply IH; [done|].
  by replace (Z.of_nat n) with (Z.pred (Z.of_nat (S n))) by lia.
Qed.

Lemma pack_one_S fuel depth b v : pack_one rawlen (S fuel) depth b v =
  if MAX_DEPTH <? depth then luaL_error TooDeep
  else match v with
       | LNil => lift (wb_nil b)
       | LInt x => lift (wb_integer b x)
       | LReal n => lift (wb_real b n)
       | LBool x => lift (wb_boolean b x)
       | LString str => lift (wb_string b str)
       | LUserdata p => lift (wb_pointer b p)
       | LTable entries meta_pairs => wb_table rawlen (pack_one rawlen fuel (depth + 1)) b entries meta_pairs
       | LOther type_name => luaL_error (Unsupported type_name)
       end.
Proof. done. Qed.

Lemma pack_one_writes n depth wb out v bytes : wb_ok wb out → Z.of_nat n = MAX_DEPTH + 1 - depth → 0 <= depth →
  encode n v = Some bytes → writes out bytes (pack_one rawlen (S n) depth wb v).
Proof.
  revert depth wb out v bytes. induction n as [|n IH]; intros depth wb out v bytes Hok Hn Hd; [done|].
  rewrite pack_one_S, (proj2 (Z.ltb_ge _ _)) by lia. assert (Hpack : ∀ wb out v bytes, wb_ok wb out → encode n v = Some bytes →
    writes out bytes (pack_one rawlen (S n) (depth + 1) wb v)) by (intros; apply IH; [done|lia|lia|done]).
  clear IH. destruct v as [|b|z|r|s|p|e mp|tn]; cbn [encode]; [intros [= <-]..| |done].
  - by apply writes_push.
  - by apply writes_push.
  - by apply writes_integer.
  - by apply writes_two.
  - by apply writes_string.
  - by apply writes_two.
  - destruct (table_parts e mp) as [[m array] pairs] eqn:Hparts.
    intros (a & Ha & (h & Hh & [= <-])%bind_Some)%bind_Some. unfold wb_table. destruct mp as [pairs'|].
    + injection Hparts as <- <- ->. injection Ha as <-. apply writes_bind; [by apply writes_push|].
      intros wb1 Hok1. cbn [concat app]. by eapply pack_pairs_writes.
    + injection Hparts as <- <- <-. pose proof (rawlen_range e) as Hr. unfold wb_table_array.
      rewrite s32_small by (unfold INT_MAX in *; lia).
      rewrite lbind_assoc. apply writes_bind.
      { unfold table_header. case_match; [|by apply writes_push].
        apply (writes_lift out [_]); [by apply writes_push|]. intros wb1 Hok1. by apply writes_integer. }
      intros wb1 Hok1. rewrite lbind_assoc. apply writes_bind.
      { eapply pack_array_writes; [done|done|]. by rewrite Z2Nat.id by lia. }
      intros wb2 Hok2. by eapply pack_pairs_writes.
Qed.

(** the arguments one after the other, [fuel] deep *)
Fixpoint encode_list (fuel : nat) (args : list lua_value) : option (list Z) :=
  match args with
  | [] => Some []
  | v :: args => b ← encode fuel v; bs ← encode_list fuel args; Some (b ++ bs)
  end.
Definition encode_all : list lua_value → option (list Z) := encode_list 33.

Lemma encode_list_cons fuel v args bytes : encode_list fuel (v :: args) = Some bytes →
  ∃ b bs, encode fuel v = Some b ∧ encode_list fuel args = Some bs ∧ bytes = b ++ bs.
Proof. cbn [encode_list]. intros (b & Hb & (bs & Hbs & <-%(inj Some))%bind_Some)%bind_Some. eauto. Qed.

Lemma pack_from_writes args bytes wb out : wb_ok wb out → encode_all args = Some bytes → writes out bytes (pack_from rawlen wb args).
Proof.
  unfold encode_all. revert bytes wb out. induction args as [|v args IH]; intros bytes wb out Hok.
  { intros [= <-] _. exists wb. by rewrite app_nil_r. }
  intros (b & bs & Hb & Hbs & ->)%encode_list_cons. cbn [pack_from].
  apply writes_bind; [by apply pack_one_writes|]. intros wb' Hok'. by apply IH.
Qed.

Lemma luaseri_pack_encode args bytes : encode_all args = Some bytes → Z.of_nat (length bytes) <= INT_MAX →
  luaseri_pack rawlen args = Ok (inr (Some <$> bytes)).
Proof.
  intros He Hmax. destruct (pack_from_writes args bytes wb_init [] wb_init_ok He Hmax) as (wb & Hp & Hok).
  unfold luaseri_pack. rewrite Hp, lbind_Ok. by rewrite (seri_ok _ _ Hok).
Qed.

(** only values that have an encoding are packed *)
Lemma lbind_inr {A B} (m : lua A) (k : A → lua B) b : lbind m k = Ok (inr b) → ∃ a, m = Ok (inr a) ∧ k a = Ok (inr b).
Proof. destruct m as [[|]|]; simpl; intros; [done|by eauto|done]. Qed.

Lemma pack_pairs_encodable pack (enc : lua_value → option (list Z)) pairs wb wb' :
  (∀ wb wb' v, pack wb v = Ok (inr wb') → is_Some (enc v)) → pack_pairs pack pairs wb = Ok (inr wb') →
  is_Some (mapM (λ p, k ← enc p.1; v ← enc p.2; Some (k ++ v)) pairs).
Proof.
  intros Hpack Hp. apply mapM_is_Some. revert wb Hp. induction pairs as [|[k v] pairs IH]; intros wb; [constructor|]. cbn [pack_pairs].
  intros (wb1 & [bk Hk]%Hpack & (wb2 & [bv Hv]%Hpack & Hrest)%lbind_inr)%lbind_inr. constructor; [|by eapply IH].
  simpl. rewrite Hk. simpl. rewrite Hv. by eexists.
Qed.

Lemma pack_array_encodable pack (enc : lua_value → option (list Z)) e n i wb wb' :
  (∀ wb wb' v, pack wb v = Ok (inr wb') → is_Some (enc v)) → pack_array pack n i e wb = Ok (inr wb') →
  is_Some (mapM enc (rawgeti e <$> seqZ i (Z.of_nat n))).
Proof.
  intros Hpack Hp. apply mapM_is_Some. revert i wb Hp. induction n as [|n IH]; intros i wb; [constructor|].
  rewrite seqZ_cons, fmap_cons by lia. cbn [pack_array]. intros (wb1 & Hv%Hpack & Hrest)%lbind_inr. constructor; [done|].
  replace (Z.pred (Z.of_nat (S n))) with (Z.of_nat n) by lia. by eapply IH.
Qed.

Lemma pack_one_encodable n depth wb v wb' : Z.of_nat n = MAX_DEPTH + 1 - depth →
  pack_one rawlen (S n) depth wb v = Ok (inr wb') → is_Some (encode n v).
Proof.
  revert depth wb v wb'. induction n as [|n IH]; intros depth wb v wb' Hn; rewrite pack_one_S.
  { by rewrite (proj2 (Z.ltb_lt _ _)) by lia. }
  destruct (MAX_DEPTH <? depth); [done|].
  assert (Hpack : ∀ wb wb' v, pack_one rawlen (S n) (depth + 1) wb v = Ok (inr wb') → is_Some (encode n v)) by (intros; eapply IH; [|done]; lia).
  clear IH. destruct v as [|b|z|r|s|p|e mp|tn]; cbn [encode]; [by eexists..| |done].
  unfold wb_table, table_parts. destruct mp as [pairs|].
  - intros (wb1 & _ & Hp)%lbind_inr. apply (pack_pairs_encodable _ (encode n)) in Hp as [h Hh]; [|done]. cbn [mapM mbind option_bind mret]. rewrite Hh. by eexists.
  - intros ([m wb2] & (wb1 & _ & (wb3 & Ha & [= <- ->])%lbind_inr)%lbind_inr & Hp)%lbind_inr.
    pose proof (rawlen_range e). rewrite s32_small in Ha, Hp by (unfold INT_MAX in *; lia).
    apply (pack_array_encodable _ (encode n)) in Ha as [a Ha]; [|done]. rewrite Z2Nat.id in Ha by lia.
    apply (pack_pairs_encodable _ (encode n)) in Hp as [h Hh]; [|done].
    rewrite Ha. cbn [mbind option_bind]. rewrite Hh. by eexists.
Qed.

Lemma pack_refused args b : encode_all args = None → luaseri_pack rawlen args ≠ Ok (inr b).
Proof.
  unfold encode_all, luaseri_pack. intros He (wb & Hp & _)%lbind_inr. revert He. generalize wb_init Hp. clear Hp.
  induction args as [|v args IH]; intros wb0 Hp; [done|]. cbn [pack_from] in Hp. apply lbind_inr in Hp as (wb1 & Hv & Hrest).
  apply (pack_one_encodable 33) in Hv as [bv Hv]; [|done]. cbn [encode_list]. rewrite Hv. cbn [mbind option_bind].
  destruct (encode_list 33 args) eqn:E; [done|]. intros _. by eapply IH.
Qed.

(** ** Reading a value back *)

(** the same value: a table has the same pairs, in any order *)
Inductive lua_equiv : lua_value → lua_value → Prop :=
  | equiv_nil : lua_equiv LNil LNil
  | equiv_bool b : lua_equiv (LBool b) (LBool b)
  | equiv_int z : lua_equiv (LInt z) (LInt z)
  | equiv_real r : lua_equiv (LReal r) (LReal r)
  | equiv_string s : lua_equiv (LString s) (LString s)
  | equiv_userdata p : lua_equiv (LUserdata p) (LUserdata p)
  | equiv_table e mp l e' : default e mp ≡ₚ l → Forall2 (λ p q, lua_equiv p.1 q.1 ∧ lua_equiv p.2 q.2) l e' →
      lua_equiv (LTable e mp) (LTable e' None).
Definition pair_equiv (p q : lua_value * lua_value) : Prop := lua_equiv p.1 q.1 ∧ lua_equiv p.2 q.2.

(** a key a Lua table can have *)
Definition key_ok (k : lua_value) : Prop :=
  match k with
  | LNil => False
  | LReal bits => real_is_nan bits = false ∧ real_to_integer bits = None
  | _ => True
  end.
Definition distinct (l : entries) : Prop := ForallOrdPairs (λ p q, key_eqb p.1 q.1 = false) l.

(** values of the width of their type, and tables with proper and distinct keys *)
Inductive lua_wf : lua_value → Prop :=
  | wf_nil : lua_wf LNil
  | wf_bool b : lua_wf (LBool b)
  | wf_int z : - 2 ^ 63 <= z < 2 ^ 63 → lua_wf (LInt z)
  | wf_real r : is_u64 r → lua_wf (LReal r)
  | wf_string s : lua_wf (LString s)
  | wf_userdata p : is_u64 p → lua_wf (LUserdata p)
  | wf_table e mp : distinct (default e mp) →
      Forall (λ p, lua_wf p.1 ∧ lua_wf p.2 ∧ key_ok p.1 ∧ p.2 ≠ LNil) (default e mp) → lua_wf (LTable e mp)
  | wf_other tn : lua_wf (LOther tn).

Lemma key_eqb_equiv k1 k2 k1' k2' : lua_equiv k1 k1' → lua_equiv k2 k2' → key_eqb k1' k2' = key_eqb k1 k2.
Proof. by destruct 1, 1. Qed.

Lemma key_eqb_sym k1 k2 : key_eqb k1 k2 = key_eqb k2 k1.
Proof.
  destruct k1, k2; try done; simpl; try apply Z.eqb_sym; [by destruct b, b0|]. apply bool_decide_ext. by split.
Qed.

Lemma normal_key_ok k k' : lua_equiv k k' → key_ok k →
  match k' with LReal bits => real_is_nan bits | _ => false end = false ∧ normal_key k' = k'.
Proof. destruct 1; cbn [key_ok normal_key]; [done..| |done|done|done]. by intros [-> ->]. Qed.

(** a key that is not there yet *)
Lemma rawset_fresh l acc k v k' v' : Forall2 pair_equiv l acc → Forall (λ p, key_eqb p.1 k = false) l → key_ok k →
  lua_equiv k k' → lua_equiv v v' →
  ∃ acc', rawset acc k' v' = lret acc' ∧
    Forall2 pair_equiv (l ++ match v with LNil => [] | _ => [(k, v)] end) acc'.
Proof.
  intros Hacc Hnew Hk Hkk Hvv. unfold rawset. destruct (normal_key_ok k k' Hkk Hk) as [-> ->].
  rewrite (filter_all _ acc).
  - eexists. split; [done|]. destruct Hvv; rewrite ?app_nil_r; try done;
      (apply Forall2_app; [done|]; constructor; [|done]; split; [done|by econstructor]).
  - intros q Hq. destruct (proj1 (list_elem_of_lookup _ _) Hq) as [i Hi].
    destruct (Forall2_lookup_r _ _ _ _ _ Hacc Hi) as (p & Hp & [Hpe _]).
    rewrite (key_eqb_equiv p.1 k q.1 k' Hpe Hkk). rewrite Forall_forall in Hnew. apply Hnew. by eapply list_elem_of_lookup_2.
Qed.

(** *** The entries of a table as they are written *)

Fixpoint array_pairs (i : Z) (vs : list lua_value) : entries :=
  match vs with
  | [] => []
  | v :: vs => match v with LNil => [] | _ => [(LInt i, v)] end ++ array_pairs (i + 1) vs
  end.

Lemma array_pairs_app i vs ws : array_pairs i (vs ++ ws) = array_pairs i vs ++ array_pairs (i + Z.of_nat (length vs)) ws.
Proof.
  revert i. induction vs as [|v vs IH]; intros i; simpl; [by rewrite Z.add_0_r|].
  rewrite IH, app_assoc. do 2 f_equal. lia.
Qed.

Lemma distinct_perm l l' : l ≡ₚ l' → distinct l → distinct l'.
Proof.
  unfold distinct. induction 1 as [|x l l' Hp IH|x y l|l1 l2 l3 _ IH1 _ IH2]; [done| | |auto].
  - inversion 1; subst. constructor; [by rewrite <- Hp|auto].
  - inversion 1 as [|? ? Hy Hl]; subst. inversion Hl as [|? ? Hx Hl']; subst. inversion Hy; subst.
    constructor; [|constructor; done]. constructor; [by rewrite key_eqb_sym|done].
Qed.

Lemma distinct_mid l p l' : distinct (l ++ p :: l') → Forall (λ q, key_eqb q.1 p.1 = false) l.
Proof.
  induction l as [|q l IH]; [constructor|]. inversion 1 as [|? ? Hq Hl]; subst. constructor; [|by apply IH].
  rewrite Forall_forall in Hq. apply Hq. set_solver.
Qed.

Lemma rawgeti_one e j : distinct e → Forall (λ p, p.2 ≠ LNil) e →
  array_pairs j [rawgeti e j] = filter (λ p, is_int_key j p.1 = true) e.
Proof.
  intros Hd Hv. induction e as [|[k v] e IH]; [done|]. inversion Hd as [|? ? Hk Hd']; subst. inversion Hv as [|? ? Hv0 Hv']; subst.
  unfold rawgeti. cbn [find fst]. rewrite filter_cons. cbn [fst]. destruct (is_int_key j k) eqn:E.
  - rewrite decide_True by done. replace (filter _ e) with (@nil (lua_value * lua_value)).
    + destruct k; try done. simpl in E. apply Z.eqb_eq in E as ->. cbn [array_pairs snd]. rewrite app_nil_r. by destruct v.
    + symmetry. clear -Hk E. induction e as [|q e IH]; [done|]. inversion Hk as [|? ? Hq Hk']; subst. rewrite filter_cons_False; [auto|].
      cbn [fst] in Hq. destruct k; try done. simpl in E. apply Z.eqb_eq in E as ->.
      destruct q as [[] ?]; try done. simpl in *. rewrite Z.eqb_sym, Hq. done.
  - rewrite decide_False by done. by apply IH.
Qed.

Lemma in_array_step n (e : entries) : 0 <= n → filter (λ p, in_array (n + 1) p.1 = true) e ≡ₚ
  filter (λ p, in_array n p.1 = true) e ++ filter (λ p, is_int_key (n + 1) p.1 = true) e.
Proof.
  intros Hn. induction e as [|p e IH]; [done|]. rewrite !filter_cons.
  assert (Hp : in_array (n + 1) p.1 = in_array n p.1 || is_int_key (n + 1) p.1 ∧ in_array n p.1 && is_int_key (n + 1) p.1 = false).
  { destruct p as [[] ?]; try done. simpl. lia. }
  destruct Hp as [-> Hp]. destruct (in_array n p.1), (is_int_key (n + 1) p.1); try done; simpl;
    rewrite ?decide_True, ?decide_False by done; rewrite IH; try done. apply Permutation_middle.
Qed.

Lemma array_pairs_filter e n : distinct e → Forall (λ p, p.2 ≠ LNil) e →
  array_pairs 1 (rawgeti e <$> seqZ 1 (Z.of_nat n)) ≡ₚ filter (λ p, in_array (Z.of_nat n) p.1 = true) e.
Proof.
  intros Hd Hv. induction n as [|n IH].
  - cbn [seqZ]. clear. induction e as [|p e IH]; [done|]. rewrite filter_cons_False; [done|].
    destruct p as [[] ?]; try done. cbn [in_array fst]. zbool.
  - replace (Z.of_nat (S n)) with (Z.of_nat n + 1) by lia. rewrite seqZ_app by lia. rewrite fmap_app, array_pairs_app, in_array_step by lia.
    rewrite length_fmap, length_seqZ, Nat2Z.id, IH. f_equiv. rewrite seqZ_cons by lia. cbn.
    rewrite (Z.add_comm (Z.of_nat n) 1). by rewrite <- rawgeti_one.
Qed.

Lemma split_table e n : distinct e → Forall (λ p, p.2 ≠ LNil) e → 0 <= n →
  array_pairs 1 (rawgeti e <$> seqZ 1 n) ++ filter (λ p, in_array n p.1 = false) e ≡ₚ e.
Proof.
  intros Hd Hv Hn. pose proof (array_pairs_filter e (Z.to_nat n) Hd Hv) as Hp. rewrite Z2Nat.id in Hp by done. rewrite Hp. clear.
  induction e as [|p e IH]; [done|]. rewrite !filter_cons. destruct (in_array n p.1); simpl.
  - by rewrite IH.
  - by rewrite <- Permutation_middle, IH.
Qed.

(** *** The type byte and the numbers *)

Lemma combine_split t v : 0 <= t < 8 → 0 <= v < 32 →
  Z.land (COMBINE_TYPE t v) 7 = t ∧ Z.shiftr (COMBINE_TYPE t v) 3 = v.
Proof.
  intros Ht Hv. assert (Hall : forallb (λ t, forallb (λ v,
    (Z.land (COMBINE_TYPE t v) 7 =? t) && (Z.shiftr (COMBINE_TYPE t v) 3 =? v)) (seqZ 0 32)) (seqZ 0 8) = true) by reflexivity.
  rewrite forallb_forall in Hall. specialize (Hall t). rewrite forallb_forall in Hall.
  assert (Hin : ∀ a n, 0 <= a < n → In a (seqZ 0 n)) by (intros a n Ha; apply list_elem_of_In, elem_of_seqZ; lia).
  specialize (Hall (Hin _ _ Ht) v (Hin _ _ Hv)). apply andb_prop in Hall as [H1%Z.eqb_eq H2%Z.eqb_eq]. done.
Qed.

Lemma s64_le_bytes z : - 2 ^ 63 <= z < 2 ^ 63 → s64 (le_value (le_bytes 8 z)) = z.
Proof.
  intros Hz. rewrite le_value_u64. unfold s64, u64. rewrite Zplus_mod_idemp_l, Z.mod_small; lia.
Qed.

Section decode.
Variable buf : list Z.
Hypothesis buf_size : Z.of_nat (length buf) <= INT_MAX.
Notation stream := (stream buf).

Lemma get_integer_stream z : - 2 ^ 63 <= z < 2 ^ 63 → ∃ cookie tail,
  encode_integer z = COMBINE_TYPE TYPE_NUMBER cookie :: tail ∧ 0 <= cookie < 32 ∧ cookie ≠ TYPE_NUMBER_REAL ∧
  ∀ l, (tail ++ l) `suffix_of` buf → get_integer (stream (tail ++ l)) cookie = lret (z, stream l).
Proof.
  intros Hz. unfold encode_integer. destruct (Z.eqb_spec z 0) as [->|Hz0]; [exists TYPE_NUMBER_ZERO, []; done|].
  assert (Hget : ∀ n (f : Z → Z) l, (le_bytes n z ++ l) `suffix_of` buf →
    (let~ (x, rb) := get_bytes (stream (le_bytes n z ++ l)) (Z.of_nat n) in lret (f (le_value x), rb)) = lret (f (le_value (le_bytes n z)), stream l))
    by (intros n f l Hs; rewrite get_bytes_stream; [done|done|done|by rewrite le_bytes_length]).
  destruct (Z.eqb_spec z (s32 z)) as [Hs|Hs]; cbn [negb].
  2:{ exists TYPE_NUMBER_QWORD, (le_bytes 8 z). split_and!; try done. intros l Hl.
      etrans; [exact (Hget 8%nat s64 l Hl)|by rewrite s64_le_bytes]. }
  assert (Hd : ∀ l, (le_bytes 4 z ++ l) `suffix_of` buf → get_integer (stream (le_bytes 4 z ++ l)) TYPE_NUMBER_DWORD = lret (z, stream l)).
  { intros l Hl. etrans; [exact (Hget 4%nat s32 l Hl)|]. by rewrite le_value_u32, s32_u32, <- Hs. }
  destruct (Z.ltb_spec z 0); [by exists TYPE_NUMBER_DWORD, (le_bytes 4 z)|].
  destruct (Z.ltb_spec z 0x100).
  { exists TYPE_NUMBER_BYTE, (le_bytes 1 z). split_and!; try done. intros l Hl.
    etrans; [exact (Hget 1%nat id l Hl)|]. by rewrite le_value_bytes, Z.mod_small by lia. }
  destruct (Z.ltb_spec z 0x10000); [|by exists TYPE_NUMBER_DWORD, (le_bytes 4 z)].
  exists TYPE_NUMBER_WORD, (le_bytes 2 z). split_and!; try done. intros l Hl.
  etrans; [exact (Hget 2%nat id l Hl)|]. by rewrite le_value_bytes, Z.mod_small by lia.
Qed.

(** [m] reads back [bytes] as [v] *)
Definition reads_back (v : lua_value) (bytes l : list Z) : Prop :=
  ∀ fuel, (3 * length (bytes ++ l) + 1 <= fuel)%nat →
  ∃ v', unpack_one fuel (stream (bytes ++ l)) = lret (v', stream l) ∧ lua_equiv v v'.

Lemma unpack_one_cons fuel b l : (b :: l) `suffix_of` buf →
  unpack_one (S fuel) (stream (b :: l)) = push_value (unpack_one fuel) fuel (stream l) (Z.land b 7) (Z.shiftr b 3).
Proof.
  intros Hs. cbn [unpack_one]. pose proof (get_bytes_stream buf buf_size 1 [b] l Hs eq_refl) as Hg. cbn [app] in Hg.
  rewrite Hg. rewrite lbind_lret.
  cbn [le_value]. by rewrite Z.mul_0_r, Z.add_0_r.
Qed.

Lemma unpack_array_back enc vs a l lst acc i depth fuel : mapM enc vs = Some a → (concat a ++ l) `suffix_of` buf →
  (∀ v bytes l, v ∈ vs → enc v = Some bytes → (bytes ++ l) `suffix_of` buf → bytes ≠ [] ∧ reads_back v bytes l) →
  Forall2 pair_equiv lst acc → Forall (λ p, ∃ j, p.1 = LInt j ∧ j < i) lst → (3 * length (concat a ++ l) + 1 <= depth)%nat → (3 * length (concat a ++ l) + 2 <= fuel)%nat →
  ∃ acc', unpack_array (unpack_one depth) fuel (stream (concat a ++ l)) i (i + Z.of_nat (length vs) - 1) acc = lret (acc', stream l) ∧
    Forall2 pair_equiv (lst ++ array_pairs i vs) acc'.
Proof.
  revert a lst acc i fuel. induction vs as [|v vs IH]; intros a lst acc i fuel Ha Hs Hdec Hacc Hlst Hd Hf.
  - injection Ha as <-. exists acc. rewrite app_nil_r. split; [|done]. destruct fuel; [lia|]. cbn [unpack_array].
    rewrite (proj2 (Z.ltb_lt _ _)) by (simpl; lia). done.
  - apply bind_Some in Ha as (x & Hx & (a' & Ha & [= <-])%bind_Some). cbn [concat] in *. rewrite <- app_assoc in *.
    destruct (Hdec v x (concat a' ++ l)) as [Hne Hback]; [by left|done|done|].
    assert (Hlen : (length x ≠ 0)%nat) by (by destruct x). rewrite length_app in Hd, Hf.
    destruct fuel as [|fuel]; [lia|]. cbn [unpack_array]. rewrite (proj2 (Z.ltb_ge _ _)) by (simpl; lia).
    destruct (Hback depth) as (v' & -> & Hv); [rewrite length_app; lia|]. rewrite lbind_lret.
    destruct (rawset_fresh lst acc (LInt i) v (LInt i) v') as (acc1 & -> & Hacc1); [done| |done|constructor|done|].
    { eapply Forall_impl; [exact Hlst|]. intros p (j & -> & Hj). simpl. apply Z.eqb_neq. lia. }
    rewrite lbind_lret.
    assert (Hs' : (concat a' ++ l) `suffix_of` buf) by (by eapply suffix_app_l).
    destruct (IH a' _ acc1 (i + 1) fuel Ha Hs' (λ v b l Hin, Hdec v b l (list_elem_of_further _ _ _ Hin)) Hacc1) as (acc' & Hrest & Hacc').
    + apply Forall_app. split; [eapply Forall_impl; [exact Hlst|]; intros p (j & ? & ?); exists j; split; [done|lia]|].
      destruct v; repeat constructor; exists i; simpl; (split; [done|lia]).
    + lia.
    + lia.
    + exists acc'. cbn [array_pairs]. rewrite app_assoc. split; [|done]. rewrite <- Hrest. f_equal. simpl length. lia.
Qed.

Lemma unpack_hash_back enc pairs h l lst acc depth fuel :
  mapM (λ p, k ← enc p.1; v ← enc p.2; Some (k ++ v)) pairs = Some h → (concat h ++ [TYPE_NIL] ++ l) `suffix_of` buf →
  (∀ p v bytes l, p ∈ pairs → v = p.1 ∨ v = p.2 → enc v = Some bytes → (bytes ++ l) `suffix_of` buf → bytes ≠ [] ∧ reads_back v bytes l) →
  Forall (λ p, key_ok p.1 ∧ p.2 ≠ LNil) pairs → distinct (lst ++ pairs) → Forall2 pair_equiv lst acc →
  (3 * length (concat h ++ [TYPE_NIL] ++ l) + 1 <= depth)%nat → (3 * length (concat h ++ [TYPE_NIL] ++ l) + 2 <= fuel)%nat →
  ∃ acc', unpack_hash (unpack_one depth) fuel (stream (concat h ++ [TYPE_NIL] ++ l)) acc = lret (acc', stream l) ∧
    Forall2 pair_equiv (lst ++ pairs) acc'.
Proof.
  revert h lst acc fuel. induction pairs as [|[k v] pairs IH]; intros h lst acc fuel Hh Hs Hdec Hok Hd Hacc Hdep Hf.
  - injection Hh as <-. exists acc. rewrite app_nil_r. split; [|done]. cbn [concat app] in *. simpl in Hf.
    simpl in Hdep. destruct fuel as [|fuel], depth as [|depth]; [lia..|]. cbn [unpack_hash]. by rewrite unpack_one_cons.
  - apply bind_Some in Hh as (x & (bk & Hk & (bv & Hv & [= <-])%bind_Some)%bind_Some & (h' & Hh & [= <-])%bind_Some).
    cbn [concat] in *. rewrite <- !app_assoc in *. inversion Hok as [|? ? [Hkey Hval] Hok']; subst. cbn [fst snd] in *.
    destruct (Hdec (k, v) k bk (bv ++ concat h' ++ [TYPE_NIL] ++ l)) as [Hnk Hbk]; [by left|by left|done|done|].
    assert (Hs1 : (bv ++ concat h' ++ [TYPE_NIL] ++ l) `suffix_of` buf) by (by eapply suffix_app_l).
    destruct (Hdec (k, v) v bv (concat h' ++ [TYPE_NIL] ++ l)) as [Hnv Hbv]; [by left|by right|done|done|].
    assert (Hlk : (length bk ≠ 0)%nat) by (by destruct bk). rewrite length_app in Hdep, Hf.
    destruct fuel as [|fuel]; [lia|]. cbn [unpack_hash].
    destruct (Hbk depth) as (k' & -> & Hkk); [rewrite length_app; lia|]. rewrite lbind_lret.
    destruct (Hbv depth) as (v' & Hv' & Hvv); [lia|].
    destruct (rawset_fresh lst acc k v k' v') as (acc1 & Hset & Hacc1); [done|by apply (distinct_mid _ (k, v) pairs)|done|done|done|].
    replace (match v with LNil => [] | _ => [(k, v)] end) with [(k, v)] in Hacc1 by (by destruct v).
    destruct (IH h' (lst ++ [(k, v)]) acc1 fuel Hh) as (acc' & Hrest & Hacc'); try done.
    + by eapply suffix_app_l.
    + intros p v0 bytes l0 Hp. apply Hdec. by right.
    + by rewrite <- app_assoc.
    + rewrite length_app in Hdep. lia.
    + rewrite length_app in Hf. lia.
    + exists acc'. rewrite <- app_assoc in Hacc'. split; [|done].
      assert (Hk' : ∀ a b : lua (entries * read_block), match k' with LNil => a | _ => b end = b) by (by destruct Hkk).
      rewrite Hk', Hv'. rewrite lbind_lret, Hset. by rewrite lbind_lret, Hrest.
Qed.

Lemma push_long_string unpack_value fuel rb : push_value unpack_value fuel rb TYPE_LONG_STRING 4 =
  let~ (l, rb) := get_bytes rb 4 in let~ (s, rb) := get_buffer rb (s32 (le_value l)) in lret (LString s, rb).
Proof. done. Qed.

Lemma get_string_back s l : (encode_string s ++ l) `suffix_of` buf → ∃ b tail, encode_string s = b :: tail ∧
  ∀ u fuel, push_value u fuel (stream (tail ++ l)) (Z.land b 7) (Z.shiftr b 3) = lret (LString s, stream l).
Proof.
  intros Hs. assert (Hlen : Z.of_nat (length s) <= INT_MAX).
  { pose proof (encode_string_length s). apply suffix_length in Hs. rewrite length_app in Hs. lia. }
  revert Hs. unfold encode_string. destruct (Z.ltb_spec (Z.of_nat (length s)) MAX_COOKIE) as [Hshort|Hlong].
  - intros Hs. eexists _, _. split; [done|]. intros u fuel. unfold MAX_COOKIE in *.
    destruct (combine_split TYPE_SHORT_STRING (Z.of_nat (length s))) as [-> ->]; [done|lia|].
    rewrite (eq_refl : push_value u fuel _ TYPE_SHORT_STRING _ = let~ (s, rb) := get_buffer _ _ in lret (LString s, rb)).
    apply suffix_cons_l in Hs. by rewrite (get_buffer_stream buf buf_size _ s l Hs eq_refl).
  - destruct (Z.ltb_spec (Z.of_nat (length s)) 0x10000) as [Hw|Hd]; intros Hs; eexists _, _; (split; [done|]); intros u fuel;
      apply suffix_cons_l in Hs; rewrite <- app_assoc in *.
    + change (Z.land _ 7) with TYPE_LONG_STRING. change (Z.shiftr _ 3) with 2.
      rewrite (eq_refl : push_value u fuel _ TYPE_LONG_STRING 2 = let~ (l, rb) := get_bytes _ 2 in let~ (s, rb) := get_buffer rb (le_value l) in lret (LString s, rb)).
      rewrite get_bytes_stream by done. rewrite lbind_lret, le_value_bytes, Z.mod_small by lia.
      apply (suffix_app_l _ _ (le_bytes 2 _)) in Hs. by rewrite (get_buffer_stream buf buf_size _ s l Hs eq_refl).
    + change (Z.land _ 7) with TYPE_LONG_STRING. change (Z.shiftr _ 3) with 4.
      rewrite push_long_string, get_bytes_stream by done. rewrite lbind_lret, le_value_bytes, Z.mod_small by (unfold INT_MAX in *; lia).
      rewrite s32_small by (unfold INT_MAX in *; lia). apply (suffix_app_l _ _ (le_bytes 4 _)) in Hs. by rewrite (get_buffer_stream buf buf_size _ s l Hs eq_refl).
Qed.

Lemma table_size_back n l : 0 <= n <= INT_MAX → (table_header n ++ l) `suffix_of` buf → ∃ b tail, table_header n = b :: tail ∧
  ∀ u fuel, push_value u fuel (stream (tail ++ l)) (Z.land b 7) (Z.shiftr b 3) =
    let~ (e, rb) := unpack_array u fuel (stream l) 1 n [] in
    let~ (e, rb) := unpack_hash u fuel rb e in lret (LTable e None, rb).
Proof.
  intros Hn. unfold INT_MAX in Hn. unfold table_header, MAX_COOKIE. destruct (Z.leb_spec (32 - 1) n) as [Hbig|Hsmall]; intros Hs.
  - eexists _, _. split; [done|]. intros u fuel. change (Z.land _ 7) with TYPE_TABLE. change (Z.shiftr _ 3) with 31.
    destruct (get_integer_stream n) as (cookie & tail & E & Hc & Hreal & Hget); [lia|]. rewrite E in *. cbn [app] in *. apply suffix_cons_l in Hs.
    pose proof (get_bytes_stream buf buf_size 1 [_] (tail ++ l) Hs eq_refl) as Hb. cbn [app] in Hb. apply suffix_cons_l in Hs.
    destruct (combine_split TYPE_NUMBER cookie) as [Ht Hk]; [done|done|].
    unfold push_value, unpack_table. cbn [Z.eqb]. unfold table_size, MAX_COOKIE. change (31 =? 32 - 1) with true. cbv iota. rewrite Hb. rewrite lbind_lret.
    cbn [le_value]. rewrite Z.mul_0_r, Z.add_0_r, Ht, Hk, (proj2 (Z.eqb_neq _ _) Hreal). cbn [orb negb Z.eqb].
    rewrite Hget by done. rewrite lbind_lret, s32_small by lia. done.
  - eexists _, _. split; [done|]. intros u fuel. destruct (combine_split TYPE_TABLE n) as [-> ->]; [done|lia|].
    unfold push_value, unpack_table. cbn [Z.eqb app]. unfold table_size, MAX_COOKIE. rewrite (proj2 (Z.eqb_neq n (32 - 1))) by lia. done.
Qed.

Definition pushes_back (v : lua_value) (bytes l : list Z) : Prop :=
  ∃ b tail, bytes = b :: tail ∧ ∀ fuel, (3 * length (bytes ++ l) <= fuel)%nat →
  ∃ v', push_value (unpack_one fuel) fuel (stream (tail ++ l)) (Z.land b 7) (Z.shiftr b 3) = lret (v', stream l) ∧ lua_equiv v v'.

Lemma pushes_reads v bytes l : (bytes ++ l) `suffix_of` buf → pushes_back v bytes l → bytes ≠ [] ∧ reads_back v bytes l.
Proof.
  intros Hs (b & tail & -> & Hp). split; [done|]. intros fuel Hf. destruct fuel as [|fuel]; [lia|]. cbn [app].
  rewrite unpack_one_cons by done. apply Hp. lia.
Qed.

Lemma number_back t cookie tail l f (c : Z → lua_value) z : (tail ++ l) `suffix_of` buf → 0 <= t < 8 → 0 <= cookie < 32 →
  (∀ u fuel, push_value u fuel (stream (tail ++ l)) t cookie = let~ (n, rb) := f (stream (tail ++ l)) in lret (c n, rb)) →
  f (stream (tail ++ l)) = lret (z, stream l) → lua_equiv (c z) (c z) → pushes_back (c z) (COMBINE_TYPE t cookie :: tail) l.
Proof.
  intros Hs Ht Hc Hpush Hf Heq. eexists _, _. split; [done|]. intros fuel Hfuel.
  destruct (combine_split t cookie) as [-> ->]; [done|done|]. rewrite Hpush, Hf. by exists (c z).
Qed.

(** the values a table writes are among its own *)
Lemma rawgeti_wf e mp i : lua_wf (LTable e mp) → mp = None → lua_wf (rawgeti e i).
Proof.
  intros Hwf ->. inversion Hwf as [| | | | | |? ? _ Hall|]; subst. simpl in Hall. unfold rawgeti.
  destruct (find _ e) as [p|] eqn:E; [|constructor]. apply find_some in E as [Hin _]. apply list_elem_of_In in Hin.
  rewrite Forall_forall in Hall. by destruct (Hall p Hin) as (_ & ? & _).
Qed.

Lemma table_parts_spec e mp m array pairs : lua_wf (LTable e mp) → table_parts e mp = (m, array, pairs) →
  0 <= m <= INT_MAX ∧ Z.of_nat (length array) = m ∧ Forall lua_wf array ∧
  Forall (λ p, lua_wf p.1 ∧ lua_wf p.2 ∧ key_ok p.1 ∧ p.2 ≠ LNil) pairs ∧
  default e mp ≡ₚ array_pairs 1 array ++ pairs ∧ distinct (array_pairs 1 array ++ pairs).
Proof.
  intros Hwf Hparts. inversion Hwf as [| | | | | |? ? Hd Hall|]; subst. destruct mp as [ps|]; simpl in *; simplify_eq.
  { split_and!; try done; unfold INT_MAX; lia. }
  pose proof (rawlen_range e) as Hr.
  assert (Hp : array_pairs 1 (rawgeti e <$> seqZ 1 (rawlen e)) ++ filter (λ p, in_array (rawlen e) p.1 = false) e ≡ₚ e).
  { apply split_table; [done| |lia]. eapply Forall_impl; [exact Hall|]. naive_solver. }
  split_and!; try lia.
  - rewrite length_fmap, length_seqZ. lia.
  - apply Forall_forall. intros v (i & -> & _)%list_elem_of_fmap. by eapply rawgeti_wf.
  - rewrite Forall_forall in *. intros p [_ Hin]%list_elem_of_filter. by apply Hall.
  - by rewrite Hp.
  - by eapply distinct_perm; [symmetry; exact Hp|].
Qed.

Lemma decode_value n v bytes l : encode n v = Some bytes → lua_wf v → (bytes ++ l) `suffix_of` buf → pushes_back v bytes l.
Proof.
  revert v bytes l. induction n as [|n IH]; intros v bytes l; [done|].
  destruct v as [|b|z|r|s|p|e mp|tn]; cbn [encode]; [intros <-%(inj Some) Hwf Hs..| |done].
  - exists TYPE_NIL, []. split; [done|]. intros fuel Hf. exists LNil. split; [done|constructor].
  - exists (COMBINE_TYPE TYPE_BOOLEAN (if b then 1 else 0)), []. split; [done|]. intros fuel Hf.
    exists (LBool b). split; [by destruct b|constructor].
  - inversion Hwf; subst. destruct (get_integer_stream z) as (cookie & tail & E & Hc & Hreal & Hget); [done|]. rewrite E in *. cbn [app] in Hs.
    apply suffix_cons_l in Hs. eapply (number_back _ _ _ _ (λ rb, get_integer rb cookie) LInt); [done|done|done| |by apply Hget|constructor].
    intros u fuel. unfold push_value. cbn [Z.eqb]. by rewrite (proj2 (Z.eqb_neq _ _) Hreal).
  - inversion Hwf; subst. cbn [app] in Hs. apply suffix_cons_l in Hs.
    eapply (number_back _ _ _ _ get_real LReal); [done|done|done|done| |constructor].
    unfold get_real. rewrite (get_bytes_stream buf buf_size 8 (le_bytes 8 r) l Hs eq_refl). rewrite lbind_lret, le_value_u64, u64_small by done. done.
  - destruct (get_string_back s l Hs) as (b & tail & -> & Hp). eexists _, _. split; [done|]. intros fuel Hf.
    exists (LString s). split; [done|constructor].
  - inversion Hwf; subst. cbn [app] in Hs. apply suffix_cons_l in Hs. change TYPE_USERDATA with (COMBINE_TYPE TYPE_USERDATA 0).
    eapply (number_back _ _ _ _ get_pointer LUserdata); [done|done|done|done| |constructor].
    unfold get_pointer. rewrite (get_bytes_stream buf buf_size 8 (le_bytes 8 p) l Hs eq_refl). rewrite lbind_lret, le_value_u64, u64_small by done. done.
  - destruct (table_parts e mp) as [[m array] pairs] eqn:Hparts.
    intros (a & Ha & (h & Hh & <-%(inj Some))%bind_Some)%bind_Some Hwf Hs.
    destruct (table_parts_spec e mp m array pairs Hwf Hparts) as (Hm & Hlen & Harr & Hpairs & Hperm & Hdist).
    rewrite <- !app_assoc in Hs. assert (Hs1 := suffix_app_l _ _ _ Hs). assert (Hs2 := suffix_app_l _ _ _ Hs1).
    destruct (table_size_back m _ Hm Hs) as (b & tail & -> & Hhead). eexists _, _. split; [done|]. intros fuel Hf.
    rewrite <- !app_assoc, Hhead. cbn [app] in Hf. rewrite <- !app_assoc in Hf. cbn [length] in Hf. rewrite length_app in Hf.
    destruct (unpack_array_back (encode n) array a (concat h ++ [TYPE_NIL] ++ l) [] [] 1 fuel fuel Ha Hs1) as (acc & Hacc & Hrep); [|done|done|lia|lia|].
    { intros v bs l' Hin He Hsuf. apply pushes_reads; [done|]. apply IH; [done| |done]. rewrite Forall_forall in Harr. by apply Harr. }
    replace (1 + Z.of_nat (length array) - 1) with m in Hacc by lia. rewrite Hacc, lbind_lret.
    destruct (unpack_hash_back (encode n) pairs h l (array_pairs 1 array) acc fuel fuel Hh Hs2) as (acc' & Hacc' & Hrep');
      [|by eapply Forall_impl; [exact Hpairs|]; naive_solver|done|done|rewrite length_app in Hf; lia|rewrite length_app in Hf; lia|].
    { intros p v bs l' Hin Hv He Hsuf. apply pushes_reads; [done|]. apply IH; [done| |done]. rewrite Forall_forall in Hpairs.
      specialize (Hpairs p Hin). naive_solver. }
    rewrite Hacc', lbind_lret. exists (LTable acc' None). split; [done|]. by econstructor.
Qed.

Lemma unpack_all_back n args bytes fuel : encode_list n args = Some bytes → Forall lua_wf args → bytes `suffix_of` buf →
  (3 * length bytes + 1 <= fuel)%nat →
  ∃ args', unpack_all fuel (stream bytes) = lret args' ∧ Forall2 lua_equiv args args'.
Proof.
  revert bytes fuel. induction args as [|v args IH]; intros bytes fuel He Hwf Hs Hf; (destruct fuel as [|fuel]; [lia|]).
  - injection He as <-. exists []. split; [|done]. cbn [unpack_all]. unfold rb_read. by rewrite (proj2 (Z.ltb_lt _ _)).
  - apply encode_list_cons in He as (x & xs & Hx & Hxs & ->). inversion Hwf as [|? ? Hv Hargs]; subst.
    destruct (decode_value n v x xs Hx Hv Hs) as (b & tail & -> & Hback). cbn [app] in *.
    destruct (rb_read_stream buf buf_size [b] (tail ++ xs) Hs) as [Hr Hb]. cbn [app] in Hr, Hb.
    change (Z.of_nat (length [b])) with 1 in Hr, Hb. cbn [unpack_all]. rewrite Hr, lift_Ok, lbind_Ok, Hb, lift_Ok, lbind_Ok.
    cbn [le_value]. rewrite Z.mul_0_r, Z.add_0_r. destruct (Hback fuel) as (v' & -> & Hvv); [lia|]. rewrite lbind_lret.
    assert (Hs' := suffix_app_l _ _ _ (suffix_cons_l _ _ _ Hs)).
    destruct (IH xs fuel Hxs Hargs Hs') as (args' & -> & Hrest); [simpl in Hf; rewrite length_app in Hf; lia|].
    rewrite lbind_lret. exists (v' :: args'). by split; [|constructor].
Qed.
End decode.
End encode.

(** C26: Packing a list of Lua values and unpacking the bytes gives the values back. A list
    whose values all have a serialised form (none is a function or the like, none nests
    deeper than MAX_DEPTH) is packed into exactly those bytes, in spite of the blocks of 128
    bytes it is written through, and unpacking them gives equal scalars, and tables with
    equal pairs, at every depth; array holes, [__pairs] metamethods and tables used as keys
    are included. Any other list is refused. *)
Theorem seri_roundtrip rawlen args : (∀ e, 0 <= rawlen e <= INT_MAX) → Forall lua_wf args →
  match encode_all rawlen args with
  | Some bytes => Z.of_nat (length bytes) <= INT_MAX →
      luaseri_pack rawlen args = Ok (inr (Some <$> bytes)) ∧
      ∃ args', luaseri_unpack (SourceString bytes) = Ok (inr args') ∧ Forall2 lua_equiv args args'
  | None => ∀ b, luaseri_pack rawlen args ≠ Ok (inr b)
  end.
Proof.
  intros Hr Hwf. destruct (encode_all rawlen args) as [bytes|] eqn:He; [|intros b; by apply pack_refused].
  intros Hmax. split; [by apply luaseri_pack_encode|]. unfold luaseri_unpack. rewrite s32_small by (unfold INT_MAX in *; lia).
  destruct (unpack_all_back rawlen Hr bytes Hmax 33 args bytes (unpack_fuel (Z.of_nat (length bytes))) He Hwf) as (args' & Hu & Heq);
    [done|unfold unpack_fuel; lia|].
  destruct bytes as [|b bytes]; [|exists args'; split; [|done]; etrans; [|exact Hu]; unfold stream; by rewrite Nat.sub_diag].
  exists args'. split; [|done]. change (unpack_fuel _) with 5%nat in Hu. cbn in Hu. by injection Hu as <-.
Qed.

Lemma seri_roundtrip_witness :
  let args := [LInt (-3); LString [72; 105]; LTable [(LInt 1, LBool true); (LString [120], LInt 70000); (LInt 3, LTable [] None)] None] in
  ∃ bytes args', luaseri_pack (λ _, 3) args = Ok (inr (Some <$> bytes)) ∧
    luaseri_unpack (SourceString bytes) = Ok (inr args') ∧ Forall2 lua_equiv args args'.
Proof.
  intros args. assert (Hr : ∀ e : entries, 0 <= 3 <= INT_MAX) by (unfold INT_MAX; lia).
  assert (Hwf : Forall lua_wf args).
  { repeat constructor; try lia; try done. }
  assert (He : encode_all (λ _, 3) args = Some [34; 253; 255; 255; 255; 20; 72; 105; 30; 9; 0; 30; 0; 0; 0; 0; 12; 120; 34; 112; 17; 1; 0; 0])
    by (vm_compute; reflexivity).
  pose proof (seri_roundtrip (λ _, 3) args Hr Hwf) as H. rewrite He in H. destruct H as (Hp & args' & Hu & Heq); [by vm_compute|].
  eexists _, args'. split; [exact Hp|split; [exact Hu|exact Heq]].
Defined.

(** ** Any bytes at all *)

Section any_bytes.
Variable buf : list Z.
Hypothesis buf_size : Z.of_nat (length buf) <= INT_MAX.
Notation stream := (stream buf).

(** [m] gives a value and leaves at least [n] bytes less, or a Lua error; the length of a
    string can overflow an [int] *)
Definition safe {A} (n : nat) (m : lua (A * read_block)) (l : list Z) : Prop :=
  m = Err SignedOverflow ∨ (∃ e, m = Ok (inl e)) ∨
  ∃ a l', m = lret (a, stream l') ∧ l' `suffix_of` buf ∧ (n + length l' <= length l)%nat.

Lemma safe_bind {A B} n n' (m : lua (A * read_block)) (k : A * read_block → lua (B * read_block)) l : safe n m l →
  (∀ a l', l' `suffix_of` buf → (n + length l' <= length l)%nat → safe n' (k (a, stream l')) l') → safe (n + n') (lbind m k) l.
Proof.
  intros [->|[[e ->]|(a & l' & -> & Hs & Hl)]] Hk; [by left|right; left; by eexists|]. rewrite lbind_lret.
  destruct (Hk a l' Hs Hl) as [->|[[e ->]|(b & l'' & -> & Hs' & Hl')]]; [by left|right; left; by eexists|].
  right; right. exists b, l''. split_and!; [done|done|lia].
Qed.

Lemma safe_ret {A} (a : A) l : l `suffix_of` buf → safe 0 (lret (a, stream l)) l.
Proof. intros Hs. right; right. by exists a, l. Qed.
Lemma safe_error {A} n e l : safe n (luaL_error e : lua (A * read_block)) l.
Proof. right; left. by eexists. Qed.
Lemma safe_weaken {A} n (m : lua (A * read_block)) l : safe n m l → safe 0 m l.
Proof.
  intros [?|[?|(a & l' & ? & ? & ?)]]; [by left|by right; left|]. right; right. exists a, l'. split_and!; [done|done|lia].
Qed.

Lemma safe_split (n : Z) l : l `suffix_of` buf → 0 <= n <= Z.of_nat (length l) →
  ∃ x l', l = x ++ l' ∧ n = Z.of_nat (length x) ∧ l' `suffix_of` buf.
Proof.
  intros Hs Hn. exists (take (Z.to_nat n) l), (drop (Z.to_nat n) l). rewrite take_drop. split; [done|].
  split; [rewrite length_take; lia|]. eapply suffix_app_l. by rewrite take_drop.
Qed.

Lemma get_bytes_safe n l : l `suffix_of` buf → 0 <= n → safe (Z.to_nat n) (get_bytes (stream l) n) l.
Proof.
  intros Hs Hn. destruct (Z.lt_ge_cases (Z.of_nat (length l)) n) as [Hlt|Hge]; [rewrite get_bytes_short by done; apply safe_error|].
  destruct (safe_split n l Hs) as (x & l' & -> & -> & Hs'); [lia|]. rewrite (get_bytes_stream buf buf_size _ x l' Hs eq_refl).
  right; right. exists x, l'. rewrite length_app. split_and!; [done|done|lia].
Qed.

Lemma get_buffer_safe n l : l `suffix_of` buf → safe 0 (get_buffer (stream l) n) l.
Proof.
  intros Hs. destruct (Z.lt_ge_cases (Z.of_nat (length l)) n) as [Hlt|Hge].
  { unfold get_buffer, rb_read. change (r_rest (stream l)) with (Z.of_nat (length l)). rewrite (proj2 (Z.ltb_lt _ _)) by done. apply safe_error. }
  destruct (Z.lt_ge_cases n 0) as [Hneg|Hpos].
  - unfold get_buffer, rb_read. change (r_rest (stream l)) with (Z.of_nat (length l)). rewrite (proj2 (Z.ltb_ge _ _)) by done.
    unfold int_chk. case_match; [|by left]. rewrite bind_Ok. case_match; [|by left]. rewrite bind_Ok, lift_Ok, lbind_Ok.
    rewrite (proj2 (Z.ltb_lt _ _)) by done. apply safe_error.
  - destruct (safe_split n l Hs) as (x & l' & -> & -> & Hs'); [lia|]. rewrite (get_buffer_stream buf buf_size _ x l' Hs eq_refl).
    right; right. exists x, l'. rewrite length_app. split_and!; [done|done|lia].
Qed.

(** a number of fixed size, and what is made of it *)
Lemma safe_number {A} n (c : list Z → A) l : l `suffix_of` buf → 0 <= n →
  safe 0 (let~ (x, rb) := get_bytes (stream l) n in lret (c x, rb)) l.
Proof.
  intros Hs Hn. apply (safe_bind 0 0); [by eapply safe_weaken, get_bytes_safe|]. intros x l' Hs' _. by apply safe_ret.
Qed.

Lemma get_integer_safe c l : l `suffix_of` buf → safe 0 (get_integer (stream l) c) l.
Proof.
  intros Hs. unfold get_integer. repeat case_match; [by apply safe_ret|by apply (safe_number _ le_value)..| | |apply safe_error].
  - by apply (safe_number 4 (λ x, s32 (le_value x))).
  - by apply (safe_number 8 (λ x, s64 (le_value x))).
Qed.

Lemma safe_map {A B} (m : lua (A * read_block)) (c : A → B) l : safe 0 m l → safe 0 (let~ (x, rb) := m in lret (c x, rb)) l.
Proof. intros Hm. apply (safe_bind 0 0); [done|]. intros x l' Hs' _. by apply safe_ret. Qed.

Lemma rawset_safe e k v : (∃ err, rawset e k v = Ok (inl err)) ∨ ∃ e', rawset e k v = lret e'.
Proof. unfold rawset. destruct (match k with LReal _ => _ | _ => _ end); [left|right]; by eexists. Qed.

(** the functions over an [unpack_value] that is safe on what is left and takes a byte at least *)
Section over_value.
Context (u : read_block → lua (lua_value * read_block)) (n : nat).
Hypothesis u_safe : ∀ l, l `suffix_of` buf → (length l <= n)%nat → safe 1 (u (stream l)) l.

Lemma unpack_array_safe fuel l i size e : l `suffix_of` buf → (length l <= n)%nat → (length l < fuel)%nat →
  safe 0 (unpack_array u fuel (stream l) i size e) l.
Proof.
  revert l i e. induction fuel as [|fuel IH]; intros l i e Hs Hn Hf; [lia|]. cbn [unpack_array].
  destruct (size <? i); [by apply safe_ret|].
  apply (safe_weaken 1), (safe_bind 1 0); [by apply u_safe|]. intros v l' Hs' Hl.
  destruct (rawset_safe e (LInt i) v) as [[err ->]|[e' ->]]; [apply safe_error|]. rewrite lbind_lret. apply IH; [done|lia..].
Qed.

Lemma unpack_hash_safe fuel l e : l `suffix_of` buf → (length l <= n)%nat → (length l < fuel)%nat →
  safe 0 (unpack_hash u fuel (stream l) e) l.
Proof.
  revert l e. induction fuel as [|fuel IH]; intros l e Hs Hn Hf; [lia|]. cbn [unpack_hash].
  apply (safe_weaken 1), (safe_bind 1 0); [by apply u_safe|]. intros k l' Hs' Hl.
  assert (Hrest : safe 0 (let~ (v, rb) := u (stream l') in e <~ rawset e k v;; unpack_hash u fuel rb e) l').
  { apply (safe_weaken 1), (safe_bind 1 0); [apply u_safe; [done|lia]|]. intros v l'' Hs'' Hl'.
    destruct (rawset_safe e k v) as [[err ->]|[e' ->]]; [apply safe_error|]. rewrite lbind_lret. apply IH; [done|lia..]. }
  destruct k; try exact Hrest. by apply safe_ret.
Qed.

Lemma unpack_table_safe fuel l cookie : l `suffix_of` buf → (length l <= n)%nat → (length l < fuel)%nat →
  safe 0 (unpack_table u fuel (stream l) cookie) l.
Proof.
  intros Hs Hn Hf. apply (safe_bind 0 0).
  - unfold table_size. destruct (cookie =? MAX_COOKIE - 1); [|by apply safe_ret].
    apply (safe_bind 0 0); [by eapply safe_weaken, (get_bytes_safe 1)|]. intros x l' Hs' _. cbv zeta.
    destruct (_ || _); [apply safe_error|]. by apply (safe_map _ s32), get_integer_safe.
  - intros size l' Hs' Hl. apply (safe_bind 0 0); [apply unpack_array_safe; [done|lia..]|]. intros e l'' Hs'' Hl'.
    apply (safe_map _ (λ e, LTable e None)). apply unpack_hash_safe; [done|lia..].
Qed.

Lemma push_value_safe fuel l type cookie : l `suffix_of` buf → (length l <= n)%nat → (length l < fuel)%nat →
  safe 0 (push_value u fuel (stream l) type cookie) l.
Proof.
  intros Hs Hn Hf. unfold push_value.
  destruct (type =? TYPE_NIL); [by apply safe_ret|]. destruct (type =? TYPE_BOOLEAN); [by apply safe_ret|].
  destruct (type =? TYPE_NUMBER).
  { destruct (cookie =? TYPE_NUMBER_REAL); apply safe_map; [by apply (safe_number 8 le_value)|by apply get_integer_safe]. }
  destruct (type =? TYPE_USERDATA); [by apply safe_map, (safe_number 8 le_value)|].
  destruct (type =? TYPE_SHORT_STRING); [by apply safe_map, get_buffer_safe|].
  destruct (type =? TYPE_LONG_STRING).
  { destruct (cookie =? 2); [|destruct (negb (cookie =? 4)); [apply safe_error|]];
      (apply (safe_bind 0 0); [eapply safe_weaken, get_bytes_safe; [done|lia]|]; intros x l' Hs' _; by apply safe_map, get_buffer_safe). }
  destruct (type =? TYPE_TABLE); [by apply unpack_table_safe|apply safe_error].
Qed.
End over_value.

(** the bytes that are left bound the depth *)
Lemma unpack_one_safe fuel l : l `suffix_of` buf → (length l + 1 <= fuel)%nat → safe 1 (unpack_one fuel (stream l)) l.
Proof.
  revert l. induction fuel as [|fuel IH]; intros l Hs Hf; [lia|]. cbn [unpack_one].
  apply (safe_bind 1 0); [by apply (get_bytes_safe 1)|]. intros t l' Hs' Hl. cbv zeta.
  apply (push_value_safe _ (length l')); [|done|lia..]. intros l'' Hs'' Hl''. apply IH; [done|lia].
Qed.

Lemma unpack_all_safe fuel l : l `suffix_of` buf → (3 * length l + 1 <= fuel)%nat →
  unpack_all fuel (stream l) = Err SignedOverflow ∨ ∃ r, unpack_all fuel (stream l) = Ok r.
Proof.
  revert l. induction fuel as [|fuel IH]; intros l Hs Hf; [lia|]. cbn [unpack_all]. destruct l as [|b l].
  { right. unfold rb_read. change (r_rest (stream [])) with 0. by eexists. }
  destruct (rb_read_stream buf buf_size [b] l Hs) as [Hr Hb]. cbn [app] in Hr, Hb.
  change (Z.of_nat (length [b])) with 1 in Hr, Hb. rewrite Hr, lift_Ok, lbind_Ok, Hb, lift_Ok, lbind_Ok. cbv zeta.
  assert (Hs' := suffix_cons_l _ _ _ Hs). cbn [length] in Hf. assert (Hone := λ l' Hs Hl, unpack_one_safe fuel l' Hs Hl).
  destruct (push_value_safe (unpack_one fuel) (length l) (λ l' Hs Hl, Hone l' Hs ltac:(lia)) fuel l (Z.land (le_value [b]) 7) (Z.shiftr (le_value [b]) 3) Hs') as [->|[[e ->]|(v & l' & -> & Hs'' & Hl')]]; [lia|lia|by left|right; by eexists|].
  rewrite lbind_lret. destruct (IH l' Hs'') as [->|[[e|vs] ->]]; [lia|by left|right; by eexists|right; by eexists].
Qed.
End any_bytes.



(** The exception exists: when the length of a long string is at least 2^31 and no more
    than what follows it allows for, it is negative as an [int], passes the test in [rb_read],
    and the count of the bytes that are left overflows. *)
Theorem long_string_overflows n rest : 2 ^ 31 <= n <= 2 ^ 31 + Z.of_nat (length rest) → Z.of_nat (length rest) <= INT_MAX - 5 →
  luaseri_unpack (SourceString (COMBINE_TYPE TYPE_LONG_STRING 4 :: le_bytes 4 n ++ rest)) = Err SignedOverflow.
Proof.
  intros Hn Hr. unfold INT_MAX in Hr. set (bytes := _ :: _).
  assert (Hlen : Z.of_nat (length bytes) = Z.of_nat (length rest) + 5) by (unfold bytes; simpl; rewrite ?length_app, ?le_bytes_length; lia).
  assert (Hmax : Z.of_nat (length bytes) <= INT_MAX) by (unfold INT_MAX; lia).
  unfold luaseri_unpack. rewrite s32_small, (proj2 (Z.eqb_neq _ _)) by lia.
  replace (mkRead _ _ 0) with (stream bytes bytes) by (unfold stream; by rewrite Nat.sub_diag).
  destruct (rb_read_stream bytes Hmax [COMBINE_TYPE TYPE_LONG_STRING 4] (le_bytes 4 n ++ rest)) as [H1 H2]; [done|].
  unfold unpack_fuel. rewrite Hlen. replace (3 * _ + 5)%nat with (S (S (3 * length rest + 18))) by lia.
  cbn [unpack_all]. change (Z.of_nat (length [_])) with 1 in H1, H2. cbn [app] in H1, H2. fold bytes in H1, H2. rewrite H1, lift_Ok, lbind_Ok, H2, lift_Ok, lbind_Ok.
  cbv zeta. change (le_value [_]) with 37. change (Z.land 37 7) with TYPE_LONG_STRING. change (Z.shiftr 37 3) with 4. rewrite push_long_string.
  rewrite (get_bytes_stream bytes Hmax 4 (le_bytes 4 n) rest) by (done || by apply suffix_cons_r). rewrite lbind_lret, le_value_u32, s32_u32.
  assert (Hneg : s32 n = n - 2 ^ 32) by (unfold s32; rewrite <- (Z_mod_plus_full _ (-1)), Z.mod_small; lia).
  unfold get_buffer, rb_read. change (r_rest (stream bytes rest)) with (Z.of_nat (length rest)). rewrite Hneg, (proj2 (Z.ltb_ge _ _)) by lia.
  unfold stream. cbn [r_ptr]. rewrite int_chk_Ok, bind_Ok by (unfold INT_MAX; lia). unfold int_chk at 1.
  rewrite (proj2 (Z.leb_gt (Z.of_nat (length rest) - (n - 2 ^ 32)) INT_MAX)), andb_false_r by (unfold INT_MAX; lia). done.
Qed.

Lemma long_string_overflows_witness : luaseri_unpack (SourceString [37; 1; 0; 0; 128; 65]) = Err SignedOverflow.
Proof. apply (long_string_overflows (2 ^ 31 + 1) [65]); [simpl; lia|by vm_compute]. Defined.
