(* ===== verification/SeriType.v ===== *)
(** * The types of unpacked values

    Bytes that another service sends decide what [luaseri_unpack] pushes; whatever they are,
    every value has a type that Lua knows and the width of that type, and every table has
    proper and distinct keys. The values are therefore ones that can be packed again. *)
From S2P Require Import Prelude Bytes LuaCall Seri SeriProof.
Open Scope list_scope.
Open Scope Z_scope.

(** values that bytes can stand for: strings of bytes, no functions, no metatables *)
Inductive lua_typed : lua_value → Prop :=
  | typed_nil : lua_typed LNil
  | typed_bool b : lua_typed (LBool b)
  | typed_int z : - 2 ^ 63 <= z < 2 ^ 63 → lua_typed (LInt z)
  | typed_real r : is_u64 r → lua_typed (LReal r)
  | typed_string s : Forall is_byte s → lua_typed (LString s)
  | typed_userdata p : is_u64 p → lua_typed (LUserdata p)
  | typed_table e : distinct e → Forall (λ p, lua_typed p.1 ∧ lua_typed p.2 ∧ key_ok p.1 ∧ p.2 ≠ LNil) e → lua_typed (LTable e None).

(** the entries of a table that is being built *)
Definition entries_typed (e : list (lua_value * lua_value)) : Prop :=
  distinct e ∧ Forall (λ p, lua_typed p.1 ∧ lua_typed p.2 ∧ key_ok p.1 ∧ p.2 ≠ LNil) e.

(** what holds of the result when a call returns *)
Definition post {A} (P : A → Prop) (m : lua A) : Prop := ∀ a, m = lret a → P a.

Lemma post_ret {A} (P : A → Prop) a : P a → post P (lret a).
Proof. intros HP b E. unfold lret in E. congruence. Qed.
Lemma post_error {A} (P : A → Prop) e : post P (luaL_error e).
Proof. done. Qed.
Lemma post_fault {A} (P : A → Prop) f : post P (Err f).
Proof. done. Qed.
Lemma post_bind {A B} (P : A → Prop) (Q : B → Prop) (m : lua A) (k : A → lua B) : post P m → (∀ a, P a → post Q (k a)) → post Q (lbind m k).
Proof. intros Hm Hk b (a & E1 & E2)%lbind_inv. by apply (Hk a (Hm a E1)). Qed.
Lemma post_lift {A} (P : A → Prop) (m : result A) : (∀ a, m = Ok a → P a) → post P (lift m).
Proof. intros Hm a E%lift_inv. by apply Hm. Qed.
Lemma post_weaken {A} (P Q : A → Prop) (m : lua A) : post P m → (∀ a, P a → Q a) → post Q m.
Proof. intros Hm HPQ a E. by apply HPQ, Hm. Qed.

(** ** Numbers made of bytes *)

Lemma s64_range z : - 2 ^ 63 <= s64 z < 2 ^ 63.
Proof. unfold s64. pose proof (Z.mod_pos_bound (z + 2 ^ 63) (2 ^ 64)). lia. Qed.

Definition int64 (z : Z) : Prop := - 2 ^ 63 <= z < 2 ^ 63.

(** ** Keys *)

Lemma Forall_filter_sub {A} (P Q : A → Prop) `{∀ x, Decision (Q x)} (l : list A) : Forall P l → Forall P (filter Q l).
Proof. rewrite !Forall_forall. intros Hl x [_ Hx]%list_elem_of_filter. by apply Hl. Qed.

Lemma real_to_integer_range r z : real_to_integer r = Some z → - 2 ^ 63 <= z < 2 ^ 63.
Proof.
  unfold real_to_integer. cbv zeta. destruct (real_exponent r =? 0x7ff); [discriminate|]. destruct (_ && negb _); [discriminate|].
  match goal with |- context [if (_ <=? ?n) && _ then Some _ else _] => generalize n end.
  intros n. destruct (_ && _) eqn:E; [|discriminate]. intros E2. injection E2 as <-.
  apply andb_prop in E as [E1%Z.leb_le E2%Z.ltb_lt]. lia.
Qed.

Lemma normal_key_typed k : lua_typed k → match k with LReal r => real_is_nan r | _ => false end = false → k ≠ LNil →
  lua_typed (normal_key k) ∧ key_ok (normal_key k).
Proof.
  intros Hk Hnan Hnil. destruct k as [|b|z|r|l|p|e mp|tn]; cbn [normal_key key_ok]; [congruence|by split|by split| |by split..].
  destruct (real_to_integer r) as [z|] eqn:E; cbn [key_ok]; split; try assumption.
  - constructor. by eapply real_to_integer_range.
  - exact I.
  - by split.
Qed.

Lemma rawset_typed e k v : entries_typed e → lua_typed k → k ≠ LNil → lua_typed v → post entries_typed (rawset e k v).
Proof.
  intros [Hd He] Hk Hnil Hv. unfold rawset. destruct (match k with LReal r => real_is_nan r | _ => false end) eqn:Hnan; [apply post_error|].
  destruct (normal_key_typed k Hk Hnan Hnil) as [Hk' Hok]. apply post_ret. set (k' := normal_key k) in *.
  set (others := filter _ e).
  assert (Ho : entries_typed others).
  { split; [|by apply Forall_filter_sub]. unfold others, distinct in *. clear -Hd. induction Hd as [|p l Hp Hd IH]; [constructor|].
    rewrite filter_cons. destruct (decide _); [|done]. constructor; [by apply Forall_filter_sub|done]. }
  assert (Hnew : v ≠ LNil → entries_typed (others ++ [(k', v)])).
  { intros Hvn. destruct Ho as [Hod Hof]. split; [|apply Forall_app; split; [done|by constructor]]. clear -Hod.
    assert (Hall : Forall (λ p : lua_value * lua_value, key_eqb p.1 k' = false) others) by (unfold others; apply Forall_forall; intros p [Hp _]%list_elem_of_filter; done).
    unfold distinct in *. induction Hod as [|p l Hp Hod IH]; [by repeat constructor|]. inversion Hall; subst. cbn [app]. constructor; [|by apply IH].
    apply Forall_app. split; [done|]. by constructor. }
  destruct v; try (apply Hnew; done). exact Ho.
Qed.

Section reading.
Variable buf : list Z.
Hypothesis Hbuf : Forall is_byte buf.

(** a result with the block it leaves *)
Notation reads P := (post (λ r : _ * read_block, P r.1 ∧ r_buffer r.2 = buf)).

Lemma rb_read_buffer rb n off rb' : r_buffer rb = buf → rb_read rb n = Ok (Some (off, rb')) → r_buffer rb' = buf.
Proof.
  intros Hb. unfold rb_read. case_match; [done|]. intros (p & _ & (q & _ & E)%bind_Ok_inv)%bind_Ok_inv. by injection E as _ <-.
Qed.

Lemma rb_bytes_typed rb off n l : r_buffer rb = buf → rb_bytes rb off n = Ok l → Forall is_byte l ∧ (0 <= n → Z.of_nat (length l) = n).
Proof.
  intros Hb. unfold rb_bytes. destruct (_ && _) eqn:E; [|done]. intros E2. injection E2 as <-. rewrite Hb in *. apply andb_prop in E as [E1 E2].
  apply Z.leb_le in E1, E2. split; [by apply Forall_take, Forall_drop|]. intros Hn. rewrite length_take, length_drop. lia.
Qed.

Lemma get_bytes_typed rb n : 0 <= n → r_buffer rb = buf → reads (λ l, 0 <= le_value l < 256 ^ n) (get_bytes rb n).
Proof.
  intros Hn Hb. unfold get_bytes. eapply post_bind; [apply post_lift; intros o Ho; exact Ho|]. intros [[off rb']|] Ho; [|apply post_error].
  apply rb_read_buffer in Ho; [|done]. eapply post_bind; [apply post_lift; intros l Hl; exact (rb_bytes_typed rb' off n l Ho Hl)|].
  intros l [Hl Hlen]. apply post_ret. split; [|done]. cbn [fst]. rewrite <- (Hlen Hn). by apply le_value_range.
Qed.

Lemma get_buffer_typed rb n : r_buffer rb = buf → reads (Forall is_byte) (get_buffer rb n).
Proof.
  intros Hb. unfold get_buffer. eapply post_bind; [apply post_lift; intros o Ho; exact Ho|]. intros [[off rb']|] Ho; [|apply post_error].
  apply rb_read_buffer in Ho; [|done]. case_match; [apply post_error|].
  eapply post_bind; [apply post_lift; intros l Hl; exact (rb_bytes_typed rb' off n l Ho Hl)|]. intros l [Hl _]. by apply post_ret.
Qed.

(** a number read from [n] bytes *)
Lemma reads_number {A} (P : A → Prop) rb n (f : Z → A) : 0 <= n → r_buffer rb = buf → (∀ z, 0 <= z < 256 ^ n → P (f z)) →
  reads P (let~ (l, rb) := get_bytes rb n in lret (f (le_value l), rb)).
Proof.
  intros Hn Hb HP. eapply post_bind; [by apply get_bytes_typed|]. intros [l rb'] [Hl Hb']. apply post_ret. split; [by apply HP|done].
Qed.

Lemma get_integer_typed rb cookie : r_buffer rb = buf → reads int64 (get_integer rb cookie).
Proof.
  intros Hb. unfold get_integer.
  destruct (cookie =? TYPE_NUMBER_ZERO); [apply post_ret; split; [unfold int64; cbn [fst]; lia|done]|].
  destruct (cookie =? TYPE_NUMBER_BYTE); [apply (reads_number int64 rb 1 (λ z, z)); [lia|done|intros z Hz; unfold int64; cbv beta; lia]|].
  destruct (cookie =? TYPE_NUMBER_WORD); [apply (reads_number int64 rb 2 (λ z, z)); [lia|done|intros z Hz; unfold int64; cbv beta; lia]|].
  destruct (cookie =? TYPE_NUMBER_DWORD); [apply (reads_number int64 rb 4 s32); [lia|done|]; intros z _; pose proof (s32_range z); unfold int64; lia|].
  destruct (cookie =? TYPE_NUMBER_QWORD); [apply (reads_number int64 rb 8 s64); [lia|done|]; intros z _; apply s64_range|apply post_error].
Qed.

Lemma table_size_typed rb n : 0 <= n < 2 ^ 31 → r_buffer rb = buf → reads (λ n, n < 2 ^ 31) (table_size rb n).
Proof.
  intros Hn Hb. unfold table_size. destruct (n =? MAX_COOKIE - 1); [|apply post_ret; split; [cbn [fst]; lia|done]].
  eapply post_bind; [by apply (get_bytes_typed rb 1)|]. intros [l rb'] [_ Hb']. cbv zeta. case_match; [apply post_error|].
  eapply post_bind; [by apply get_integer_typed|]. intros [z rb''] [_ Hb'']. apply post_ret. split; [|done]. cbn [fst]. pose proof (s32_range z). lia.
Qed.

Section values.
Variable unpack_value : read_block → lua (lua_value * read_block).
Hypothesis Hvalue : ∀ rb, r_buffer rb = buf → reads lua_typed (unpack_value rb).

Lemma unpack_array_typed fuel rb i n e : r_buffer rb = buf → 1 <= i → n < 2 ^ 31 → entries_typed e → reads entries_typed (unpack_array unpack_value fuel rb i n e).
Proof.
  revert rb i e. induction fuel as [|fuel IH]; intros rb i e Hb Hi Hn He; cbn [unpack_array]; destruct (Z.ltb_spec n i).
  1, 3: by apply post_ret. { apply post_fault. }
  eapply post_bind; [by apply Hvalue|]. intros [v rb'] [Hv Hb'].
  eapply post_bind; [apply (rawset_typed e (LInt i) v); [done|constructor; lia|done|exact Hv]|]. intros e' He'. apply IH; [done|lia|done|done].
Qed.

Lemma unpack_hash_typed fuel rb e : r_buffer rb = buf → entries_typed e → reads entries_typed (unpack_hash unpack_value fuel rb e).
Proof.
  revert rb e. induction fuel as [|fuel IH]; intros rb e Hb He; cbn [unpack_hash]; [apply post_fault|].
  eapply post_bind; [by apply Hvalue|]. intros [key rb'] [Hk Hb']. cbn [fst snd] in *.
  assert (Hrest : key ≠ LNil → reads entries_typed (let~ (v, rb) := unpack_value rb' in entries <~ rawset e key v;; unpack_hash unpack_value fuel rb entries)).
  { intros Hnil. eapply post_bind; [by apply Hvalue|]. intros [v rb''] [Hv Hb''].
    eapply post_bind; [by apply (rawset_typed e key v)|]. intros e' He'. by apply IH. }
  destruct key; try (by apply Hrest). by apply post_ret.
Qed.

Lemma push_value_typed fuel rb type cookie : r_buffer rb = buf → 0 <= cookie < 2 ^ 31 → reads lua_typed (push_value unpack_value fuel rb type cookie).
Proof.
  intros Hb Hc. unfold push_value.
  destruct (type =? TYPE_NIL); [apply post_ret; split; [constructor|done]|].
  destruct (type =? TYPE_BOOLEAN); [apply post_ret; split; [constructor|done]|].
  destruct (type =? TYPE_NUMBER).
  { destruct (cookie =? TYPE_NUMBER_REAL).
    - unfold get_real. eapply post_bind; [apply (reads_number is_u64 rb 8 (λ z, z)); [lia|done|intros z Hz; unfold is_u64; cbv beta; lia]|].
      intros [z rb'] [Hz Hb']. apply post_ret. split; [by constructor|done].
    - eapply post_bind; [by apply get_integer_typed|]. intros [z rb'] [Hz Hb']. apply post_ret. split; [by constructor|done]. }
  destruct (type =? TYPE_USERDATA).
  { unfold get_pointer. eapply post_bind; [apply (reads_number is_u64 rb 8 (λ z, z)); [lia|done|intros z Hz; unfold is_u64; cbv beta; lia]|].
    intros [z rb'] [Hz Hb']. apply post_ret. split; [by constructor|done]. }
  assert (Hstring : ∀ rb n, r_buffer rb = buf → reads lua_typed (let~ (s, rb) := get_buffer rb n in lret (LString s, rb))).
  { intros rb0 n Hb0. eapply post_bind; [by apply get_buffer_typed|]. intros [s rb'] [Hs Hb']. apply post_ret. split; [by constructor|done]. }
  destruct (type =? TYPE_SHORT_STRING); [by apply Hstring|].
  destruct (type =? TYPE_LONG_STRING).
  { destruct (cookie =? 2); [|destruct (negb (cookie =? 4)); [apply post_error|]];
      (eapply post_bind; [by apply get_bytes_typed|]); intros [l rb'] [_ Hb']; by apply Hstring. }
  destruct (type =? TYPE_TABLE); [|apply post_error]. unfold unpack_table.
  eapply post_bind; [by apply table_size_typed|]. intros [n rb1] [Hn Hb1].
  eapply post_bind; [apply (unpack_array_typed fuel rb1 1 n []); [done|lia|done|by repeat constructor]|]. intros [e rb2] [He Hb2].
  eapply post_bind; [by apply unpack_hash_typed|]. intros [e' rb3] [[Hd He'] Hb3]. apply post_ret. split; [by constructor|done].
Qed.
End values.

(** the type byte of a value leaves five bits for its cookie *)
Lemma cookie_range l : 0 <= le_value l < 256 ^ 1 → 0 <= Z.shiftr (le_value l) 3 < 2 ^ 31.
Proof. intros Hl. rewrite Z.shiftr_div_pow2 by lia. split; [apply Z.div_pos; lia|apply Z.div_lt_upper_bound; lia]. Qed.

Lemma unpack_one_typed fuel rb : r_buffer rb = buf → reads lua_typed (unpack_one fuel rb).
Proof.
  revert rb. induction fuel as [|fuel IH]; intros rb Hb; cbn [unpack_one]; [apply post_fault|].
  eapply post_bind; [by apply (get_bytes_typed rb 1)|]. intros [l rb'] [Hl Hb']. cbv zeta.
  apply push_value_typed; [exact IH|done|by apply cookie_range].
Qed.

Lemma unpack_all_typed fuel rb : r_buffer rb = buf → post (Forall lua_typed) (unpack_all fuel rb).
Proof.
  revert rb. induction fuel as [|fuel IH]; intros rb Hb; cbn [unpack_all]; [apply post_fault|].
  eapply post_bind; [apply post_lift; intros o Ho; exact Ho|]. intros [[off rb']|] Ho; [|apply post_ret; constructor].
  apply rb_read_buffer in Ho; [|done]. eapply post_bind; [apply post_lift; intros l Hl; exact (rb_bytes_typed rb' off 1 l Ho Hl)|].
  intros l [Hl Hlen]. cbv zeta. eapply post_bind.
  { apply push_value_typed; [apply unpack_one_typed|done|]. apply cookie_range. rewrite <- (Hlen ltac:(lia)). by apply le_value_range. }
  intros [v rb''] [Hv Hb'']. eapply post_bind; [by apply IH|]. intros vs Hvs. apply post_ret. by constructor.
Qed.
End reading.

(** ** Properties *)

Lemma typed_wf v : lua_typed v → lua_wf v.
Proof.
  revert v. fix IH 2. intros v Hv. destruct Hv as [|b|z Hz|r Hr|s Hs|p Hp|e Hd He]; constructor; try done.
  cbn [default]. clear Hd. induction He as [|p e (H1 & H2 & H3 & H4) He IHe]; constructor; [|exact IHe].
  split_and!; [by apply IH|by apply IH|done|done].
Qed.

(** the bytes that the argument of [luaseri_unpack] leads to *)
Definition source_bytes (source : seri_source) : list Z :=
  match source with SourceNil => [] | SourceString s => s | SourcePointer p _ => default [] p end.


