(* ===== verification/CryptBase.v ===== *)
(** * What the functions of skynet.crypt share (luaclib-src/lua-crypt.cpp)

    The errors of the library, its buffer of [SMALL_CHUNK] bytes on the stack, the 32-bit
    operations, and the 64-bit numbers that Lua sees as strings of eight bytes. Strings are
    lists of bytes. *)
From S2P Require Import Prelude Bytes LuaCall.
Open Scope list_scope.
Open Scope Z_scope.

Definition SMALL_CHUNK : Z := 256.

Inductive crypt_error :=
  | InvalidPaddingMode (mode : Z)
  | InvalidPadding
  | InvalidKeySize (size : Z)
  | InvalidDesTextLength (size : Z)
  | InvalidDesText
  | InvalidHexTextSize (size : Z)
  | InvalidHexText
  | InvalidUint64X
  | InvalidUint64Y
  | InvalidUint64Key
  | InvalidDhKey
  | CanNotBeZero
  | InvalidBase64Text
  | CanNotXorEmpty.

Notation crypt := (lua_call crypt_error).

(** [char tmp[SMALL_CHUNK]; char* buffer = tmp; if (big) buffer = lua_newuserdata(L, sz);] *)
Definition chunk_buffer (big : bool) (sz : Z) : buffer := malloc_buffer (if big then sz else SMALL_CHUNK).

(** ** [uint32_t] *)
Definition shl32 (x n : Z) : Z := u32 (Z.shiftl x n).
Definition not32 (x : Z) : Z := Z.lxor x 0xFFFFFFFF.
(** [LEFTROTATE] of lua-crypt.cpp, [rol] of lsha1.c *)
Definition rol32 (x n : Z) : Z := Z.lor (shl32 x n) (Z.shiftr x (32 - n)).

(** the operators of C, with its precedences *)
Declare Scope word_scope.
Delimit Scope word_scope with word.
Notation "x .<< n" := (shl32 x n) (at level 41, left associativity) : word_scope.
Notation "x .>> n" := (Z.shiftr x n) (at level 41, left associativity) : word_scope.
Notation "x .& y" := (Z.land x y) (at level 42, left associativity) : word_scope.
Notation "x .^ y" := (Z.lxor x y) (at level 43, left associativity) : word_scope.
Notation "x .| y" := (Z.lor x y) (at level 44, left associativity) : word_scope.

(** the first [n] words in memory *)
Fixpoint le_words (n : nat) (l : list Z) : list Z :=
  match n with O => [] | S n => le_value (take 4 l) :: le_words n (drop 4 l) end.

(** the eight bytes of one argument; the error is the caller's *)
Definition check_uint64 (x : list Z) (e : crypt_error) : crypt (Z * Z) :=
  if negb (Z.of_nat (length x) =? 8) then luaL_error e else lret (read_le32 x 0, read_le32 x 4).

Definition read64 (x y : list Z) : crypt ((Z * Z) * (Z * Z)) :=
  xx <~ check_uint64 x InvalidUint64X;;
  yy <~ check_uint64 y InvalidUint64Y;;
  lret (xx, yy).

Definition pushqword (result : Z * Z) : list Z :=
  let '(lo, hi) := result in
  [byte_at lo 0; byte_at lo 8; byte_at lo 16; byte_at lo 24; byte_at hi 0; byte_at hi 8; byte_at hi 16; byte_at hi 24].

Definition push64 (r : Z) : list Z :=
  [byte_at r 0; byte_at r 8; byte_at r 16; byte_at r 24; byte_at r 32; byte_at r 40; byte_at r 48; byte_at r 56].

(** ** Lemmas *)

(** operations that stay in the words *)
Lemma lxor_range n x y : 0 <= n → 0 <= x < 2 ^ n → 0 <= y < 2 ^ n → 0 <= Z.lxor x y < 2 ^ n.
Proof.
  intros Hn Hx Hy. assert (E : Z.lxor x y = Z.lxor x y mod 2 ^ n).
  { apply Z.bits_inj'. intros i Hi. destruct (Z.ltb_spec i n); [by rewrite Z.mod_pow2_bits_low|].
    rewrite Z.mod_pow2_bits_high, Z.lxor_spec by lia.
    rewrite <- (Z.mod_small x (2 ^ n)), <- (Z.mod_small y (2 ^ n)), !Z.mod_pow2_bits_high by lia. done. }
  rewrite E. apply Z.mod_pos_bound. lia.
Qed.

Lemma land_range_r n x m : 0 <= m < 2 ^ n → 0 <= Z.land x m < 2 ^ n.
Proof.
  intros Hm. assert (H0 : 0 <= Z.land x m) by (apply Z.land_nonneg; lia). split; [done|].
  destruct (Z.eq_dec m 0) as [->|Hz]; [rewrite Z.land_0_r; lia|]. apply Z.le_lt_trans with m; [|lia].
  apply Z.ldiff_le; [lia|]. apply Z.bits_inj'. intros i Hi. rewrite Z.ldiff_spec, Z.land_spec, Z.testbit_0_l. by destruct (Z.testbit x i), (Z.testbit m i).
Qed.

Lemma lxor_cancel x y : Z.lxor (Z.lxor x y) y = x.
Proof. by rewrite Z.lxor_assoc, Z.lxor_nilpotent, Z.lxor_0_r. Qed.

Lemma chunk_filled big sz n : (big = false → n <= SMALL_CHUNK) → n <= sz → 0 <= n →
  ∃ k, chunk_buffer big sz = filled [] (Z.to_nat n + k).
Proof.
  intros Hsmall Hsz Hn. unfold chunk_buffer, malloc_buffer. destruct big.
  - exists (Z.to_nat (sz - n)). simpl. f_equal. lia.
  - specialize (Hsmall eq_refl). exists (Z.to_nat (SMALL_CHUNK - n)). unfold SMALL_CHUNK in *. rewrite app_nil_l. f_equal. lia.
Qed.

(** bitwise operations byte by byte *)
Section bitwise.
Context (op : Z → Z → Z) (bop : bool → bool → bool).
Hypothesis op_spec : ∀ x y i, Z.testbit (op x y) i = bop (Z.testbit x i) (Z.testbit y i).
Hypothesis bop_false : bop false false = false.

Lemma le_bytes_bitwise n x y : le_bytes n (op x y) = zip_with op (le_bytes n x) (le_bytes n y).
Proof.
  revert x y. induction n as [|n IH]; intros x y; [done|]. cbn [le_bytes zip_with]. change 256 with (2 ^ 8). rewrite <- IH. f_equal.
  - apply Z.bits_inj'. intros i Hi. rewrite op_spec. destruct (Z.ltb_spec i 8).
    + by rewrite !Z.mod_pow2_bits_low, op_spec by lia.
    + by rewrite !Z.mod_pow2_bits_high, bop_false by lia.
  - f_equal. apply Z.bits_inj'. intros i Hi. by rewrite op_spec, !Z.div_pow2_bits, op_spec by lia.
Qed.
End bitwise.

Lemma le_bytes_lxor n x y : le_bytes n (Z.lxor x y) = zip_with Z.lxor (le_bytes n x) (le_bytes n y).
Proof. apply (le_bytes_bitwise Z.lxor xorb); [apply Z.lxor_spec|done]. Qed.
Lemma le_bytes_land n x y : le_bytes n (Z.land x y) = zip_with Z.land (le_bytes n x) (le_bytes n y).
Proof. apply (le_bytes_bitwise Z.land andb); [apply Z.land_spec|done]. Qed.
Lemma le_bytes_lor n x y : le_bytes n (Z.lor x y) = zip_with Z.lor (le_bytes n x) (le_bytes n y).
Proof. apply (le_bytes_bitwise Z.lor orb); [apply Z.lor_spec|done]. Qed.

Lemma lor_range n x y : 0 <= n → 0 <= x < 2 ^ n → 0 <= y < 2 ^ n → 0 <= Z.lor x y < 2 ^ n.
Proof.
  intros Hn Hx Hy. assert (E : Z.lor x y = Z.lor x y mod 2 ^ n).
  { apply Z.bits_inj'. intros i Hi. destruct (Z.ltb_spec i n); [by rewrite Z.mod_pow2_bits_low|].
    rewrite Z.mod_pow2_bits_high, Z.lor_spec by lia.
    rewrite <- (Z.mod_small x (2 ^ n)), <- (Z.mod_small y (2 ^ n)), !Z.mod_pow2_bits_high by lia. done. }
  rewrite E. apply Z.mod_pos_bound. lia.
Qed.

Lemma rol32_u32 x n : is_u32 x → 0 <= n <= 32 → is_u32 (rol32 x n).
Proof.
  intros Hx Hn. apply lor_range; [done|apply u32_range|]. unfold is_u32 in Hx. rewrite Z.shiftr_div_pow2 by lia.
  split; [apply Z.div_pos; lia|]. apply Z.div_lt_upper_bound; [lia|]. assert (1 <= 2 ^ (32 - n)) by (apply (Z.pow_le_mono_r 2 0); lia). nia.
Qed.
