(* ===== verification/Dh.v ===== *)
(** * The Diffie-Hellman exchange of skynet.crypt (luaclib-src/lua-crypt.cpp)

    [mul_mod_p] multiplies modulo the largest 64-bit prime in [uint64_t] arithmetic that would
    overflow if it multiplied directly: it doubles and adds, and subtracts [P] in time. The
    recursion of [pow_mod_p] halves the exponent; it does not end for the exponent 0, which its
    callers refuse. *)
From S2P Require Import Prelude Bytes LuaCall CryptBase.
Open Scope list_scope.
Open Scope Z_scope.

Definition P : Z := 0xffffffffffffffc5.

Fixpoint mul_loop (fuel : nat) (m a b : Z) : result Z :=
  if b =? 0 then Ok m
  else
    match fuel with
    | O => Err OutOfFuel
    | S fuel =>
        let m :=
          if negb (Z.land b 1 =? 0) then
            let t := u64 (P - a) in
            if t <=? m then u64 (m - t) else u64 (m + a)
          else m in
        let a := if u64 (P - a) <=? a then u64 (u64 (a * 2) - P) else u64 (a * 2) in
        mul_loop fuel m a (Z.shiftr b 1)
    end.

(** 64 rounds empty a [uint64_t] *)
Definition mul_mod_p (a b : Z) : result Z := mul_loop 64 0 a b.

Fixpoint pow_mod_p (fuel : nat) (a b : Z) : result Z :=
  match fuel with
  | O => Err OutOfFuel
  | S fuel =>
      if b =? 1 then Ok a
      else
        t <- pow_mod_p fuel a (Z.shiftr b 1);;
        t <- mul_mod_p t t;;
        if negb (b mod 2 =? 0) then mul_mod_p t a else Ok t
  end.

(** 64 calls halve a [uint64_t] down to 1 *)
Definition powmodp (a b : Z) : result Z :=
  let a := if P <? a then a mod P else a in pow_mod_p 64 a b.

Definition G : Z := 5.

(** [(uint64_t)x[0] | (uint64_t)x[1] << 32] *)
Definition qword (x : Z * Z) : Z := Z.lor x.1 (Z.shiftl x.2 32).

Definition l_dh_secret (x y : list Z) : crypt (list Z) :=
  let~ (xx, yy) := read64 x y in
  if (qword xx =? 0) || (qword yy =? 0) then luaL_error CanNotBeZero
  else r <~ lift (powmodp (qword xx) (qword yy));; lret (push64 r).

Definition l_dh_exchange (x : list Z) : crypt (list Z) :=
  xx <~ check_uint64 x InvalidDhKey;;
  let x64 := qword xx in
  if x64 =? 0 then luaL_error CanNotBeZero
  else r <~ lift (powmodp G x64);; lret (push64 r).

(** ** Multiplication and exponentiation *)

Lemma P_range : 0 < P < 2 ^ 64.
Proof. done. Qed.

(** a round of the loop: [m] and [a] move by multiples of [P] and stay in range *)
Lemma mul_round_add m a b : 0 <= a <= P → 0 <= m < P →
  ∃ k m', (if negb (Z.land b 1 =? 0) then if u64 (P - a) <=? m then u64 (m - u64 (P - a)) else u64 (m + a) else m) = m' ∧
    m' = m + (b mod 2) * a + k * P ∧ 0 <= m' < P.
Proof.
  intros Ha Hm. pose proof P_range as HP. rewrite (u64_small (P - a)) by lia. change (Z.land b 1) with (Z.land b (Z.ones 1)).
  rewrite Z.land_ones by lia. change (2 ^ 1) with 2. destruct (Z.eqb_spec (b mod 2) 0) as [Hb|Hb]; cbn [negb].
  { exists 0, m. split_and!; [done|lia..]. }
  assert (b mod 2 = 1) as -> by (pose proof (Z.mod_pos_bound b 2); lia).
  destruct (Z.leb_spec (P - a) m); [exists (-1)|exists 0]; rewrite u64_small by lia; eexists; (split; [done|]); lia.
Qed.

Lemma mul_round_double a : 0 <= a <= P →
  ∃ k a', (if u64 (P - a) <=? a then u64 (u64 (a * 2) - P) else u64 (a * 2)) = a' ∧ a' = 2 * a + k * P ∧ 0 <= a' <= P.
Proof.
  intros Ha. pose proof P_range as HP. rewrite (u64_small (P - a)) by lia. destruct (Z.leb_spec (P - a) a).
  - exists (-1), (2 * a - P). split; [|lia]. unfold u64. rewrite Zminus_mod_idemp_l. rewrite Z.mod_small; lia.
  - exists 0, (2 * a). split; [|lia]. rewrite u64_small; lia.
Qed.

Lemma mul_loop_spec fuel m a b : 0 <= a <= P → 0 <= m < P → 0 <= b < 2 ^ Z.of_nat fuel →
  mul_loop fuel m a b = Ok ((m + a * b) mod P).
Proof.
  revert m a b. induction fuel as [|fuel IH]; intros m a b Ha Hm Hb; cbn [mul_loop]; destruct (Z.eqb_spec b 0) as [->|Hnz];
    try (rewrite Z.mul_0_r, Z.add_0_r, Z.mod_small by lia; done); [simpl in Hb; lia|].
  destruct (mul_round_add m a b) as (k & m' & -> & Hm' & Hr); [done..|]. destruct (mul_round_double a) as (k' & a' & -> & Ha' & Hr'); [done|].
  rewrite Z.shiftr_div_pow2 by lia. change (2 ^ 1) with 2. rewrite IH; [|done|done|].
  - f_equal. rewrite <- (Z.mod_add (m + a * b) (k + k' * (b / 2)) P) by (pose proof P_range; lia). f_equal.
    pose proof (Z.div_mod b 2). nia.
  - rewrite Nat2Z.inj_succ, Z.pow_succ_r in Hb by lia. split; [apply Z.div_pos; lia|apply Z.div_lt_upper_bound; lia].
Qed.

Lemma mul_mod_p_spec a b : 0 <= a <= P → is_u64 b → mul_mod_p a b = Ok ((a * b) mod P).
Proof. intros Ha Hb. unfold mul_mod_p. rewrite mul_loop_spec; [done|done|done|]. exact Hb. Qed.

Lemma pow_mod_p_spec fuel a b : 0 <= a < P → 1 <= b < 2 ^ Z.of_nat fuel → pow_mod_p fuel a b = Ok (a ^ b mod P).
Proof.
  intros Ha. revert b. pose proof P_range as HP. induction fuel as [|fuel IH]; intros b Hb; [simpl in Hb; lia|].
  cbn [pow_mod_p]. destruct (Z.eqb_spec b 1) as [->|Hne]; [by rewrite Z.pow_1_r, Z.mod_small|].
  rewrite Nat2Z.inj_succ, Z.pow_succ_r in Hb by lia.
  rewrite Z.shiftr_div_pow2 by lia. change (2 ^ 1) with 2. pose proof (Z.div_mod b 2). pose proof (Z.mod_pos_bound b 2).
  rewrite IH by (split; [apply Z.div_le_lower_bound|apply Z.div_lt_upper_bound]; lia). rewrite bind_Ok.
  pose proof (Z.mod_pos_bound (a ^ (b / 2)) P). rewrite mul_mod_p_spec by (unfold is_u64; lia). rewrite bind_Ok.
  assert (Hq : 0 <= b / 2) by (apply Z.div_pos; lia). rewrite <- Z.mul_mod, <- Z.pow_add_r by lia.
  destruct (Z.eqb_spec (b mod 2) 0) as [Hm|Hm]; cbn [negb]; [do 3 f_equal; lia|].
  pose proof (Z.mod_pos_bound (a ^ (b / 2 + b / 2)) P). rewrite mul_mod_p_spec by (unfold is_u64; lia).
  rewrite Z.mul_mod_idemp_l by lia. do 2 f_equal. rewrite <- (Z.pow_1_r a) at 2. rewrite <- Z.pow_add_r by lia. f_equal. lia.
Qed.

(** [P] itself is not reduced before the first multiplication *)
Lemma pow_mod_p_P fuel b : 1 <= b < 2 ^ Z.of_nat fuel → pow_mod_p fuel P b = Ok (if b =? 1 then P else 0).
Proof.
  revert b. induction fuel as [|fuel IH]; intros b Hb; [simpl in Hb; lia|].
  cbn [pow_mod_p]. destruct (Z.eqb_spec b 1) as [->|Hne]; [done|]. rewrite Nat2Z.inj_succ, Z.pow_succ_r in Hb by lia.
  rewrite Z.shiftr_div_pow2 by lia. change (2 ^ 1) with 2.
  rewrite IH by (split; [apply Z.div_le_lower_bound|apply Z.div_lt_upper_bound]; lia). rewrite bind_Ok.
  destruct (b / 2 =? 1); rewrite mul_mod_p_spec by done; rewrite bind_Ok; [change (P * P mod P) with 0|change (0 * 0 mod P) with 0];
    by destruct (negb _).
Qed.

Lemma powmodp_spec a b : is_u64 a → a ≠ P → 1 <= b < 2 ^ 64 → powmodp a b = Ok (a ^ b mod P).
Proof.
  intros Ha Hne Hb. unfold powmodp. pose proof P_range as HP. unfold is_u64 in Ha. destruct (Z.ltb_spec P a).
  - rewrite pow_mod_p_spec by (done || apply Z.mod_pos_bound; lia). by rewrite Z.mod_pow_l.
  - by apply pow_mod_p_spec; [lia|].
Qed.

(** ** Numbers and strings *)

Lemma push64_spec r : push64 r = le_bytes 8 r.
Proof.
  unfold push64. rewrite !byte_at_spec by lia. cbn [le_bytes]. rewrite !Z.div_div by lia. by rewrite Z.pow_0_r, Z.div_1_r.
Qed.

Lemma qword_spec x : length x = 8%nat → Forall is_byte x → qword (read_le32 x 0, read_le32 x 4) = le_value x.
Proof.
  intros Hl Hx. unfold qword. cbn [fst snd]. rewrite !read_le32_spec by (done || lia). do 8 (destruct x as [|? x]; [done|]). destruct x; [|done].
  cbn [take drop le_value]. rewrite !Forall_cons in Hx. unfold is_byte in Hx. rewrite lor_shiftl by lia. lia.
Qed.

Lemma check_uint64_ok x e : length x = 8%nat → check_uint64 x e = lret (read_le32 x 0, read_le32 x 4).
Proof. intros Hl. unfold check_uint64. by rewrite Hl. Qed.

Lemma exchange_spec x : length x = 8%nat → Forall is_byte x → le_value x ≠ 0 →
  l_dh_exchange x = lret (le_bytes 8 (G ^ le_value x mod P)).
Proof.
  intros Hl Hx Hnz. unfold l_dh_exchange. rewrite check_uint64_ok by done. rewrite lbind_lret, qword_spec by done.
  pose proof (le_value_range x Hx) as Hr. rewrite Hl in Hr. rewrite (proj2 (Z.eqb_neq _ _)) by done.
  rewrite powmodp_spec by (done || lia). by rewrite lift_Ok, lbind_Ok, push64_spec.
Qed.

Lemma secret_spec x y : length x = 8%nat → Forall is_byte x → le_value x ≠ 0 → le_value x ≠ P →
  length y = 8%nat → Forall is_byte y → le_value y ≠ 0 →
  l_dh_secret x y = lret (le_bytes 8 (le_value x ^ le_value y mod P)).
Proof.
  intros Hlx Hx Hnx HP Hly Hy Hny. unfold l_dh_secret, read64. rewrite !check_uint64_ok by done. rewrite !lbind_lret.
  pose proof (le_value_range x Hx) as Hrx. rewrite Hlx in Hrx. pose proof (le_value_range y Hy) as Hry. rewrite Hly in Hry.
  rewrite !qword_spec, !(proj2 (Z.eqb_neq _ _)) by done. cbn [orb].
  rewrite powmodp_spec by (done || lia). by rewrite lift_Ok, lbind_Ok, push64_spec.
Qed.

(** [P] does not divide a power of the generator *)
Lemma power_not_zero n : 0 <= n → G ^ n mod P ≠ 0.
Proof.
  intros Hn Hz. apply Z.mod_divide in Hz; [|done].
  assert (Hg : Z.gcd P (G ^ n) = 1).
  { clear Hz. revert n Hn. apply natlike_ind; [by rewrite Z.pow_0_r, Z.gcd_1_r|]. intros n Hn IH. rewrite Z.pow_succ_r by done.
    apply Znumtheory.Zgcd_1_rel_prime, Znumtheory.rel_prime_mult; by apply Znumtheory.Zgcd_1_rel_prime. }
  apply Z.divide_gcd_iff in Hz; [|done]. rewrite Hg in Hz. done.
Qed.

(** C34: The two sides of a Diffie-Hellman exchange get the same secret: each sends
    [l_dh_exchange] of its own number, and [l_dh_secret] of what it received and its own number
    is 5^(x*y) modulo the largest 64-bit prime on both sides. No number that
    [l_dh_exchange] returns is refused by [l_dh_secret]. *)
Theorem dh_secrets_agree x y : length x = 8%nat → Forall is_byte x → le_value x ≠ 0 →
  length y = 8%nat → Forall is_byte y → le_value y ≠ 0 →
  ∃ X Y, l_dh_exchange x = lret X ∧ l_dh_exchange y = lret Y ∧
    l_dh_secret Y x = l_dh_secret X y ∧ l_dh_secret X y = lret (le_bytes 8 (5 ^ (le_value x * le_value y) mod P)).
Proof.
  intros Hlx Hx Hnx Hly Hy Hny. eexists _, _. split; [by apply exchange_spec|]. split; [by apply exchange_spec|].
  assert (Hsend : ∀ x y, length x = 8%nat → Forall is_byte x → length y = 8%nat → Forall is_byte y → le_value y ≠ 0 →
    l_dh_secret (le_bytes 8 (G ^ le_value x mod P)) y = lret (le_bytes 8 (5 ^ (le_value x * le_value y) mod P))).
  { clear. intros x y Hlx Hx Hly Hy Hny. pose proof (le_value_range x Hx) as Hr. pose proof (le_value_range y Hy) as Hr'.
    pose proof (Z.mod_pos_bound (G ^ le_value x) P eq_refl) as Hb. pose proof P_range.
    assert (Hv : le_value (le_bytes 8 (G ^ le_value x mod P)) = G ^ le_value x mod P) by (rewrite le_value_u64, u64_small; lia).
    rewrite secret_spec; rewrite ?Hv; try done; [|apply le_bytes_byte|apply power_not_zero; lia|lia].
    rewrite Z.mod_pow_l, <- Z.pow_mul_r by lia. done. }
  rewrite !Hsend by done. split; [|done]. by rewrite Z.mul_comm.
Qed.

Lemma dh_secrets_agree_witness :
  ∃ X Y, l_dh_exchange [3; 0; 0; 0; 0; 0; 0; 0] = lret X ∧ l_dh_exchange [5; 1; 0; 0; 0; 0; 0; 0] = lret Y ∧
    l_dh_secret Y [3; 0; 0; 0; 0; 0; 0; 0] = l_dh_secret X [5; 1; 0; 0; 0; 0; 0; 0] ∧
    l_dh_secret X [5; 1; 0; 0; 0; 0; 0; 0] = lret (le_bytes 8 (5 ^ (3 * 261) mod P)).
Proof. apply (dh_secrets_agree [3; 0; 0; 0; 0; 0; 0; 0] [5; 1; 0; 0; 0; 0; 0; 0]); (done || by repeat constructor). Defined.

(** [powmodp] is a^b modulo P for every [uint64_t] a other than P and every b other than
    0, in 64-bit arithmetic in which no step overflows; for a = P it is 0, except that
    P^1 is P itself. *)
Theorem powmodp_exact a b : is_u64 a → 1 <= b < 2 ^ 64 →
  powmodp a b = Ok (if (a =? P) && (b =? 1) then P else a ^ b mod P).
Proof.
  intros Ha Hb. destruct (Z.eqb_spec a P) as [->|Hne]; cbn [andb]; [|by apply powmodp_spec].
  unfold powmodp. rewrite Z.ltb_irrefl, pow_mod_p_P by done. destruct (Z.eqb_spec b 1); [done|].
  replace b with (Z.succ (b - 1)) by lia. rewrite Z.pow_succ_r, Z.mul_comm, Z.mod_mul by (done || lia). done.
Qed.

Lemma powmodp_exact_witness : powmodp 3 (2 ^ 63 + 7) = Ok 17996460167818554194 ∧
  powmodp 3 (2 ^ 63 + 7) = Ok (if (3 =? P) && (2 ^ 63 + 7 =? 1) then P else 3 ^ (2 ^ 63 + 7) mod P).
Proof. split; [vm_compute; reflexivity|]. apply (powmodp_exact 3 (2 ^ 63 + 7)); [unfold is_u64|]; lia. Defined.
