(* ===== verification/CryptText.v ===== *)
(** * Hexadecimal, base64 and xor (luaclib-src/lua-crypt.cpp)

    The functions of skynet.crypt from strings to strings, with the buffers they fill: on the
    stack for short results, allocated by Lua for the others. A character is its code. *)
From S2P Require Import Prelude Text Bytes LuaCall CryptBase.
Open Scope list_scope.
Open Scope Z_scope.

(** ** Hexadecimal *)

Definition hex : list Z := bytes_of "0123456789abcdef".

Definition l_to_hex (text : list Z) : crypt (list Z) :=
  let sz := Z.of_nat (length text) in
  let buffer := chunk_buffer (SMALL_CHUNK / 2 <? sz) (sz * 2) in
  let~ (_, buffer) := int_loop (length text) 0 sz 1 (λ i buffer, lift (
    c <- arr_get text i;;
    hi <- arr_get hex (Z.shiftr c 4);;
    low <- arr_get hex (Z.land c 0xf);;
    i2 <- int_chk (i * 2);;
    buffer <- buffer_set buffer i2 hi;;
    i2 <- int_chk (i2 + 1);;
    buffer_set buffer i2 low)) buffer in
  lift (pushlstring buffer (sz * 2)).

(** [char tmp = c], a signed [char]; [v] is a [uint8_t] *)
Definition HEX (c : Z) : Z :=
  let tmp := if c <? 128 then c else c - 256 in
  if (48 <=? tmp) && (tmp <=? 57) then tmp - 48 else (tmp - 97 + 10) mod 256.

(** one round of its loop *)
Definition from_hex_byte (text : list Z) (i : Z) (buffer : buffer) : crypt Bytes.buffer :=
  hi <~ lift (arr_get text i);;
  low <~ lift (arr_get text (i + 1));;
  let hi := HEX hi in
  let low := HEX low in
  if (16 <? hi) || (16 <? low) then luaL_error InvalidHexText
  else lift (buffer_set buffer (i / 2) (Z.lor (Z.shiftl hi 4) low mod 256)).

Definition l_from_hex (text : list Z) : crypt (list Z) :=
  let sz := Z.of_nat (length text) in
  if negb (Z.land sz 1 =? 0) then luaL_error (InvalidHexTextSize (s32 sz))
  else
    let buffer := chunk_buffer (SMALL_CHUNK * 2 <? sz) (sz / 2) in
    let~ (i, buffer) := int_loop (length text) 0 sz 2 (from_hex_byte text) buffer in
    lift (pushlstring buffer (i / 2)).

(** ** Base64 *)

Definition encoding : list Z := bytes_of "ABCDEFGHIJKLMNOPQRSTUVWXYZabcdefghijklmnopqrstuvwxyz0123456789+/".
Definition equals_sign : Z := 61.

Fixpoint put_chars (b : buffer) (j : Z) (cs : list Z) : result buffer :=
  match cs with
  | [] => Ok b
  | c :: cs => b <- buffer_set b j c;; put_chars b (j + 1) cs
  end.

(** [encoding[...]] of every six-bit number *)
Definition encode_chars (vs : list Z) : result (list Z) :=
  foldr (λ v m, c <- arr_get encoding v;; cs <- m;; Ok (c :: cs)) (Ok []) vs.

(** three bytes, one round of the loop *)
Definition encode_group (text : list Z) (i : Z) (s : Z * buffer) : result (Z * buffer) :=
  let '(j, buffer) := s in
  a <- arr_get text i;; b <- arr_get text (i + 1);; c <- arr_get text (i + 2);;
  let v := Z.lor (Z.lor (Z.shiftl a 16) (Z.shiftl b 8)) c in
  cs <- encode_chars [Z.shiftr v 18; Z.land (Z.shiftr v 12) 0x3f; Z.land (Z.shiftr v 6) 0x3f; Z.land v 0x3f];;
  buffer <- put_chars buffer j cs;;
  j <- int_chk (j + 4);;
  Ok (j, buffer).

(** [switch (padding)] *)
Definition encode_rest (text : list Z) (i j padding : Z) (buffer : buffer) : result Bytes.buffer :=
  if padding =? 1 then
    v <- arr_get text i;;
    cs <- encode_chars [Z.shiftr v 2; Z.shiftl (Z.land v 3) 4];;
    put_chars buffer j (cs ++ [equals_sign; equals_sign])
  else if padding =? 2 then
    a <- arr_get text i;; b <- arr_get text (i + 1);;
    let v := Z.lor (Z.shiftl a 8) b in
    cs <- encode_chars [Z.shiftr v 10; Z.land (Z.shiftr v 4) 0x3f; Z.shiftl (Z.land v 0xf) 2];;
    put_chars buffer j (cs ++ [equals_sign])
  else Ok buffer.

Definition l_base64_encode (text : list Z) : crypt (list Z) :=
  let sz := Z.of_nat (length text) in
  let encode_sz := s32 ((sz + 2) / 3 * 4) in
  let buffer := chunk_buffer (SMALL_CHUNK <? encode_sz) encode_sz in
  let~ (i, (j, buffer)) := int_loop (length text) 0 (s32 sz - 2) 3 (λ i s, lift (encode_group text i s)) (0, buffer) in
  buffer <~ lift (encode_rest text i j (s32 (sz - i)) buffer);;
  lift (pushlstring buffer encode_sz).

Definition decoding : list Z :=
  [62; -1; -1; -1; 63; 52; 53; 54; 55; 56; 57; 58; 59; 60; 61; -1; -1; -1; -2; -1; -1; -1; 0; 1; 2; 3; 4; 5; 6; 7; 8; 9; 10; 11; 12;
   13; 14; 15; 16; 17; 18; 19; 20; 21; 22; 23; 24; 25; -1; -1; -1; -1; -1; -1; 26; 27; 28; 29; 30; 31; 32; 33; 34; 35; 36; 37; 38;
   39; 40; 41; 42; 43; 44; 45; 46; 47; 48; 49; 50; 51].

Definition b64index (c : Z) : result Z :=
  let decoding_size := Z.of_nat (length decoding) in
  if c <? 43 then Ok (-1)
  else
    let c := c - 43 in
    if decoding_size <=? c then Ok (-1) else arr_get decoding c.

(** [for (j = 0; j < 4;)]: [c] holds the [j] numbers found, others than these are skipped *)
Fixpoint b64_group (fuel : nat) (text : list Z) (i : Z) (c : list Z) (padding : Z) : crypt (Z * list Z * Z) :=
  if Z.of_nat (length c) <? 4 then
    match fuel with
    | O => Err OutOfFuel
    | S fuel =>
        if Z.of_nat (length text) <=? i then luaL_error InvalidBase64Text
        else
          ch <~ lift (arr_get text i);;
          cj <~ lift (b64index ch);;
          i <~ lift (int_chk (i + 1));;
          if cj =? -1 then b64_group fuel text i c padding
          else b64_group fuel text i (c ++ [cj]) (if cj =? -2 then padding + 1 else padding)
    end
  else lret (i, c, padding).

(** the bytes of one group; they are stored in a [char] each *)
Definition b64_bytes (c : list Z) (padding : Z) : crypt (list Z) :=
  match c with
  | [c0; c1; c2; c3] =>
      if padding =? 0 then
        let v := Z.lor (Z.lor (Z.lor (Z.shiftl c0 18) (Z.shiftl c1 12)) (Z.shiftl c2 6)) c3 in
        lret [Z.shiftr v 16 mod 256; Z.land (Z.shiftr v 8) 0xff; Z.land v 0xff]
      else if padding =? 1 then
        if negb (c3 =? -2) || negb (Z.land c2 3 =? 0) then luaL_error InvalidBase64Text
        else
          let v := Z.lor (Z.lor (Z.shiftl c0 10) (Z.shiftl c1 4)) (Z.shiftr c2 2) in
          lret [Z.shiftr v 8 mod 256; Z.land v 0xff]
      else if padding =? 2 then
        if negb (c3 =? -2) || negb (c2 =? -2) || negb (Z.land c1 0xf =? 0) then luaL_error InvalidBase64Text
        else
          let v := Z.lor (Z.shiftl c0 2) (Z.shiftr c1 4) in
          lret [v mod 256]
      else luaL_error InvalidBase64Text
  | _ => Err OutOfBounds
  end.

Fixpoint b64_loop (fuel : nat) (text : list Z) (i output : Z) (buffer : buffer) : crypt (Z * Bytes.buffer) :=
  if i <? Z.of_nat (length text) then
    match fuel with
    | O => Err OutOfFuel
    | S fuel =>
        let~ (i, c, padding) := b64_group (S (length text)) text i [] 0 in
        bytes <~ b64_bytes c padding;;
        buffer <~ lift (put_chars buffer output bytes);;
        output <~ lift (int_chk (output + Z.of_nat (length bytes)));;
        b64_loop fuel text i output buffer
    end
  else lret (output, buffer).

Definition l_base64_decode (text : list Z) : crypt (list Z) :=
  let sz := Z.of_nat (length text) in
  let decode_sz := s32 ((sz + 3) / 4 * 3) in
  let buffer := chunk_buffer (SMALL_CHUNK <? decode_sz) decode_sz in
  let~ (output, buffer) := b64_loop (length text) text 0 0 buffer in
  lift (pushlstring buffer output).

(** ** Xor *)

Definition l_xor_str (s1 s2 : list Z) : crypt (list Z) :=
  let len1 := Z.of_nat (length s1) in
  let len2 := Z.of_nat (length s2) in
  if len2 =? 0 then luaL_error CanNotXorEmpty
  else
    let~ (_, buffer) := int_loop (length s1) 0 len1 1 (λ i buffer, lift (
      a <- arr_get s1 i;; b <- arr_get s2 (i mod len2);; buffer_set buffer i (Z.lxor a b))) (malloc_buffer len1) in
    lift (pushlstring buffer len1).

(** ** Filling a buffer from its start *)

Lemma put_chars_spec cs data k j : j = Z.of_nat (length data) → (length cs <= k)%nat →
  put_chars (filled data k) j cs = Ok (filled (data ++ cs) (k - length cs)).
Proof.
  revert data k j. induction cs as [|c cs IH]; intros data k j -> Hk; cbn [put_chars length].
  - by rewrite app_nil_r, Nat.sub_0_r.
  - cbn [length] in Hk. unfold buffer_set. rewrite copy_spec by (simpl; lia). rewrite bind_Ok. cbn [length].
    rewrite IH by (rewrite ?length_app; simpl; lia). rewrite <- app_assoc. cbn [app]. do 3 f_equal. lia.
Qed.

(** ** Hexadecimal: lemmas *)

Definition hex_pair (c : Z) : list Z := [nth (Z.to_nat (c / 16)) hex 0; nth (Z.to_nat (c mod 16)) hex 0].
Definition to_hex (text : list Z) : list Z := concat (hex_pair <$> text).

Lemma to_hex_length text : length (to_hex text) = (2 * length text)%nat.
Proof. induction text as [|c text IH]; [done|]. unfold to_hex in *. rewrite fmap_cons. cbn [concat]. rewrite length_app, IH. simpl. lia. Qed.

Lemma to_hex_app l l' : to_hex (l ++ l') = to_hex l ++ to_hex l'.
Proof. unfold to_hex. by rewrite fmap_app, concat_app. Qed.

Lemma take_S_nth {A} (l : list A) k d : (k < length l)%nat → take (S k) l = take k l ++ [nth k l d].
Proof. intros Hk. apply take_S_r. by apply lookup_nth. Qed.

Lemma hex_get d : 0 <= d < 16 → arr_get hex d = Ok (nth (Z.to_nat d) hex 0).
Proof. intros Hd. apply arr_get_Ok; [lia|]. apply lookup_nth. change (length hex) with 16%nat. lia. Qed.

Lemma to_hex_spec text : Forall is_byte text → 2 * Z.of_nat (length text) <= INT_MAX → l_to_hex text = lret (to_hex text).
Proof.
  intros Ht Hmax. unfold l_to_hex. set (sz := Z.of_nat (length text)) in *.
  destruct (chunk_filled (SMALL_CHUNK / 2 <? sz) (sz * 2) (sz * 2)) as [k ->]; [|lia..|].
  { intros Hs. change (SMALL_CHUNK / 2) with 128 in Hs. unfold SMALL_CHUNK. lia. }
  run_loop (λ (n : nat) (b : buffer), b = filled (to_hex (take n text)) (Z.to_nat (sz * 2) + k - 2 * n)) (length text) b Hb; try lia.
  - rewrite Nat.sub_0_r. done.
  - intros n b Hn ->. pose proof (Forall_nth_byte text n Ht) as Hb. unfold is_byte in Hb.
    rewrite (arr_get_Ok text _ (nth n text 0)) by (lia || (replace (Z.to_nat _) with n by lia; by apply lookup_nth)).
    rewrite bind_Ok, Z.shiftr_div_pow2 by lia. change (Z.land (nth n text 0) 15) with (Z.land (nth n text 0) (Z.ones 4)). rewrite Z.land_ones by lia.
    change (2 ^ 4) with 16. pose proof (Z.mod_pos_bound (nth n text 0) 16). rewrite hex_get by (split; [apply Z.div_pos|apply Z.div_lt_upper_bound]; lia).
    rewrite bind_Ok, hex_get, bind_Ok, int_chk_Ok, bind_Ok by lia.
    rewrite buffer_set_spec by (rewrite ?to_hex_length, ?length_take; lia). rewrite bind_Ok, int_chk_Ok, bind_Ok by lia.
    rewrite buffer_set_spec by (rewrite ?length_app, ?to_hex_length, ?length_take; simpl; lia). eexists. split; [done|].
    rewrite (take_S_nth text n 0) by done. rewrite to_hex_app. cbn [to_hex fmap list_fmap concat hex_pair app].
    rewrite <- app_assoc. cbn [app]. f_equal. f_equal. lia.
  - subst b. rewrite lbind_lret, firstn_all. rewrite pushlstring_ok; [done|]. rewrite to_hex_length. lia.
Qed.

(** the characters that [l_from_hex] takes for digits *)
Definition hex_accepted (c : Z) : bool := (48 <=? c) && (c <=? 57) || (87 <=? c) && (c <=? 103).

Lemma HEX_accepted c : is_byte c → (HEX c <=? 16) = hex_accepted c.
Proof.
  intros Hc. apply eqb_prop. revert c Hc.
  apply (all_bytes (λ c, eqb (HEX c <=? 16) (hex_accepted c))). vm_compute. reflexivity.
Qed.

Lemma HEX_hex d : 0 <= d < 16 → HEX (nth (Z.to_nat d) hex 0) = d.
Proof.
  intros Hd. apply Z.eqb_eq, (proj1 (forallb_forall (λ d, HEX (nth (Z.to_nat d) hex 0) =? d) (seqZ 0 16)));
    [vm_compute; reflexivity|]. by apply list_elem_of_In, elem_of_seqZ.
Qed.

(** the bytes of pairs of digits *)
Fixpoint hex_bytes (text : list Z) : list Z :=
  match text with
  | c :: d :: text => Z.lor (Z.shiftl (HEX c) 4) (HEX d) mod 256 :: hex_bytes text
  | _ => []
  end.

Lemma hex_bytes_length text n : length text = (2 * n)%nat → length (hex_bytes text) = n.
Proof.
  revert text. induction n as [|n IH]; intros text Ht; [by destruct text|]. destruct text as [|c [|d text]]; [done|simpl in Ht; lia|].
  cbn [hex_bytes length]. rewrite IH; [done|]. simpl in Ht. lia.
Qed.

Lemma hex_bytes_snoc text n : (2 * n + 1 < length text)%nat →
  hex_bytes (take (2 * S n) text) =
    hex_bytes (take (2 * n) text) ++ [Z.lor (Z.shiftl (HEX (nth (2 * n) text 0)) 4) (HEX (nth (2 * n + 1) text 0)) mod 256].
Proof.
  revert text. induction n as [|n IH]; intros text Ht; (destruct text as [|c [|d text]]; [simpl in Ht; lia..|]).
  - done.
  - replace (2 * S (S n))%nat with (S (S (2 * S n))) by lia. replace (2 * S n)%nat with (S (S (2 * n))) by lia. cbn [take hex_bytes app].
    replace (S (S (2 * n))) with (2 * S n)%nat by lia. rewrite IH by (simpl in Ht; lia).
    replace (2 * S n)%nat with (S (S (2 * n))) by lia. done.
Qed.

(** round [n], on what the rounds before it have written *)
Lemma from_hex_byte_spec text n k : Forall is_byte text → (2 * n + 1 < length text)%nat → (n < k)%nat →
  from_hex_byte text (Z.of_nat n * 2) (filled (hex_bytes (take (2 * n) text)) (k - n)) =
    if hex_accepted (nth (2 * n) text 0) && hex_accepted (nth (2 * n + 1) text 0)
    then lret (filled (hex_bytes (take (2 * S n) text)) (k - S n)) else luaL_error InvalidHexText.
Proof.
  intros Ht Hn Hk. unfold from_hex_byte.
  rewrite (arr_get_Ok text (Z.of_nat n * 2) (nth (2 * n) text 0)), lift_Ok, lbind_Ok
    by (lia || (replace (Z.to_nat _) with (2 * n)%nat by lia; apply lookup_nth; lia)).
  rewrite (arr_get_Ok text (Z.of_nat n * 2 + 1) (nth (2 * n + 1) text 0)), lift_Ok, lbind_Ok
    by (lia || (replace (Z.to_nat _) with (2 * n + 1)%nat by lia; apply lookup_nth; lia)).
  cbv zeta. rewrite <- !HEX_accepted, !(Z.ltb_antisym _ 16), <- negb_andb by (by apply Forall_nth_byte).
  destruct (_ && _); cbn [negb]; [|done]. rewrite Z.div_mul by lia.
  rewrite buffer_set_spec by (rewrite ?(hex_bytes_length _ n) by (rewrite length_take; lia); lia).
  rewrite hex_bytes_snoc by done. cbn [lift]. unfold lret. do 4 f_equal. lia.
Qed.

Lemma forallb_pairs (f : Z → bool) text n : length text = (2 * n)%nat →
  forallb (λ k, f (nth (2 * k) text 0) && f (nth (2 * k + 1) text 0)) (seq 0 n) = forallb f text.
Proof.
  revert text. induction n as [|n IH]; intros text Ht; [by destruct text|]. destruct text as [|c [|d text]]; [done|simpl in Ht; lia|].
  cbn [seq forallb]. rewrite <- (IH text) by (simpl in Ht; lia). rewrite <- seq_shift, andb_assoc. f_equal.
  generalize (seq 0 n). intros l. induction l as [|k l IHl]; [done|]. cbn [List.map forallb]. rewrite IHl. f_equal.
  by replace (2 * S k)%nat with (S (S (2 * k))) by lia.
Qed.

Lemma from_hex_spec text n : Forall is_byte text → length text = (2 * n)%nat → Z.of_nat (length text) <= INT_MAX →
  l_from_hex text = if forallb hex_accepted text then lret (hex_bytes text) else luaL_error InvalidHexText.
Proof.
  intros Ht Hl Hmax. unfold l_from_hex. set (sz := Z.of_nat (length text)) in *. assert (Hsz : sz = Z.of_nat n * 2) by lia.
  replace (Z.land sz 1) with 0 by (change (Z.land sz 1) with (Z.land sz (Z.ones 1)); by rewrite Z.land_ones, Hsz, Z.mod_mul).
  cbn [Z.eqb negb]. destruct (chunk_filled (SMALL_CHUNK * 2 <? sz) (sz / 2) (Z.of_nat n)) as [k ->];
    [unfold SMALL_CHUNK; lia|rewrite Hsz, Z.div_mul; lia|lia|]. rewrite Nat2Z.id.
  pose proof (int_loop_run (λ m (b : buffer), b = filled (hex_bytes (take (2 * m) text)) (n + k - m))
    (λ m, hex_accepted (nth (2 * m) text 0) && hex_accepted (nth (2 * m + 1) text 0)) (Some InvalidHexText)
    n (length text) 0 sz 2 (from_hex_byte text) (filled [] (n + k))) as Hrun. cbv beta in Hrun.
  rewrite forallb_pairs in Hrun by done. destruct (forallb hex_accepted text).
  - destruct Hrun as (b & -> & ->); try lia; [by rewrite Nat.sub_0_r| |].
    + intros m b Hm ->. rewrite Z.add_0_l, from_hex_byte_spec by (done || lia). destruct (_ && _); by eexists.
    + rewrite lbind_lret, Z.add_0_l, Z.div_mul, <- Hl, firstn_all by lia. rewrite pushlstring_ok; [done|]. by rewrite (hex_bytes_length _ n).
  - destruct Hrun as (e & [= <-] & ->); try lia; [by rewrite Nat.sub_0_r| |done].
    intros m b Hm ->. rewrite Z.add_0_l, from_hex_byte_spec by (done || lia). destruct (_ && _); by eexists.
Qed.

Lemma hex_byte : Forall is_byte hex.
Proof. unfold is_byte. let h := eval vm_compute in hex in change hex with h. by repeat (constructor; [lia|]). Qed.

Lemma hex_bytes_to_hex text : Forall is_byte text → hex_bytes (to_hex text) = text ∧ forallb hex_accepted (to_hex text) = true ∧ Forall is_byte (to_hex text).
Proof.
  assert (Hd : ∀ d, 0 <= d < 16 → hex_accepted (nth (Z.to_nat d) hex 0) = true ∧ is_byte (nth (Z.to_nat d) hex 0)).
  { intros d Hd. assert (Hb : is_byte (nth (Z.to_nat d) hex 0)) by (apply Forall_nth_byte, hex_byte).
    split; [|done]. rewrite <- HEX_accepted, HEX_hex by done. apply Z.leb_le. lia. }
  induction 1 as [|c text Hc Ht (IH1 & IH2 & IH3)]; [done|]. unfold is_byte in Hc. pose proof (Z.mod_pos_bound c 16 eq_refl) as Hm.
  assert (Hq : 0 <= c / 16 < 16) by (split; [apply Z.div_pos|apply Z.div_lt_upper_bound]; lia).
  destruct (Hd (c / 16) Hq) as [Ha Hb], (Hd (c mod 16) Hm) as [Ha' Hb'].
  change (to_hex (c :: text)) with (hex_pair c ++ to_hex text). unfold hex_pair. cbn [app hex_bytes forallb].
  rewrite IH1, IH2, Ha, Ha', !HEX_hex by done. split_and!; [|done|by apply Forall_cons; split; [done|constructor]].
  f_equal. rewrite Z.lor_comm, lor_shiftl by lia. rewrite Z.mod_small by lia. pose proof (Z.div_mod c 16). lia.
Qed.

(** ** Base64: lemmas *)

Definition b64char (v : Z) : Z := nth (Z.to_nat v) encoding 0.

(** RFC 4648: three bytes are four numbers of six bits *)
Fixpoint base64 (text : list Z) : list Z :=
  match text with
  | a :: b :: c :: text =>
      [b64char (a / 4); b64char (a mod 4 * 16 + b / 16); b64char (b mod 16 * 4 + c / 64); b64char (c mod 64)] ++ base64 text
  | [a; b] => [b64char (a / 4); b64char (a mod 4 * 16 + b / 16); b64char (b mod 16 * 4); equals_sign]
  | [a] => [b64char (a / 4); b64char (a mod 4 * 16); equals_sign; equals_sign]
  | [] => []
  end.

(** induction by groups of three *)
Lemma triple_ind (Q : list Z → Prop) : Q [] → (∀ a, Q [a]) → (∀ a b, Q [a; b]) → (∀ a b c l, Q l → Q (a :: b :: c :: l)) → ∀ l, Q l.
Proof.
  intros H0 H1 H2 H3. assert (H : ∀ n l, (length l <= n)%nat → Q l).
  { induction n as [|n IH]; intros [|a [|b [|c l]]] Hl; auto; [simpl in Hl; lia..|]. apply H3, IH. simpl in Hl. lia. }
  intros l. by apply (H (length l)).
Qed.

Lemma base64_length text : Z.of_nat (length (base64 text)) = (Z.of_nat (length text) + 2) / 3 * 4.
Proof.
  induction text as [|a|a b|a b c text IH] using triple_ind; [done..|]. cbn [base64 app length]. rewrite !Nat2Z.inj_succ, IH.
  replace (Z.succ (Z.succ (Z.succ (Z.of_nat (length text)))) + 2) with (Z.of_nat (length text) + 2 + 1 * 3) by lia.
  rewrite Z.div_add by lia. lia.
Qed.

Lemma base64_app3 l l' n : length l = (3 * n)%nat → base64 (l ++ l') = base64 l ++ base64 l'.
Proof.
  revert l. induction n as [|n IH]; intros l Hl; [by destruct l|]. destruct l as [|a [|b [|c l]]]; [simpl in Hl; lia..|].
  cbn [base64 app]. rewrite IH by (simpl in Hl; lia). done.
Qed.

Lemma encode_chars_spec vs : Forall (λ v, 0 <= v < 64) vs → encode_chars vs = Ok (b64char <$> vs).
Proof.
  induction 1 as [|v vs Hv Hvs IH]; [done|]. unfold encode_chars in *. cbn [foldr].
  rewrite (arr_get_Ok encoding v (b64char v)), bind_Ok, IH by (lia || (apply lookup_nth; change (length encoding) with 64%nat; lia)). done.
Qed.

(** the bytes of a text from the offset [i] *)
Lemma arr_get_drop (text : list Z) i (l : list Z) k c : drop (Z.to_nat i) text = l → 0 <= i → 0 <= k → l !! Z.to_nat k = Some c → arr_get text (i + k) = Ok c.
Proof.
  intros <- Hi Hk. rewrite lookup_drop. intros Hl. apply arr_get_Ok; [lia|]. by replace (Z.to_nat (i + k)) with (Z.to_nat i + Z.to_nat k)%nat by lia.
Qed.

Ltac arr_gets Hl :=
  rewrite ?(arr_get_drop _ _ _ 0 _ Hl), ?(arr_get_drop _ _ _ 1 _ Hl), ?(arr_get_drop _ _ _ 2 _ Hl) by (done || lia); rewrite ?bind_Ok.

(** six bits of a number of bytes *)
Lemma six_bits v n : 0 <= n → Z.land (Z.shiftr v n) 0x3f = v / 2 ^ n mod 64.
Proof. intros Hn. rewrite Z.shiftr_div_pow2 by done. apply (Z.land_ones _ 6). lia. Qed.

Lemma encode_group_spec text i l out k a b c : Forall is_byte text → 0 <= i → drop (Z.to_nat i) text = a :: b :: c :: l → (4 <= k)%nat →
  Z.of_nat (length out) + 4 <= INT_MAX →
  encode_group text i (Z.of_nat (length out), filled out k) =
    Ok (Z.of_nat (length (out ++ base64 [a; b; c])), filled (out ++ base64 [a; b; c]) (k - 4)).
Proof.
  intros Ht Hi Hl Hk Hmax. assert (Hbytes : is_byte a ∧ is_byte b ∧ is_byte c).
  { apply (Forall_drop _ (Z.to_nat i)) in Ht. rewrite Hl, !Forall_cons in Ht. tauto. }
  unfold is_byte in Hbytes. unfold encode_group. rewrite <- (Z.add_0_r i) at 1. arr_gets Hl.
  rewrite (Z.lor_comm (Z.shiftl a 16)), (lor_shiftl _ a 16), Z.lor_comm by (rewrite ?Z.shiftl_mul_pow2 by lia; lia).
  rewrite Z.shiftl_mul_pow2 by lia. replace (b * 2 ^ 8 + a * 2 ^ 16) with (Z.shiftl (b + a * 2 ^ 8) 8) by (rewrite Z.shiftl_mul_pow2; lia).
  rewrite lor_shiftl by lia. set (v := c + (b + a * 2 ^ 8) * 2 ^ 8).
  replace (Z.land v 0x3f) with (Z.land (Z.shiftr v 0) 0x3f) by done. rewrite !six_bits, Z.shiftr_div_pow2 by lia. change (2 ^ 0) with 1. change (2 ^ 6) with 64.
  replace (v / 2 ^ 18) with (a / 4) by (unfold v; Z.to_euclidean_division_equations; lia).
  replace (v / 2 ^ 12 mod 64) with (a mod 4 * 16 + b / 16) by (unfold v; Z.to_euclidean_division_equations; lia).
  replace (v / 64 mod 64) with (b mod 16 * 4 + c / 64) by (unfold v; Z.to_euclidean_division_equations; lia).
  replace (v / 1 mod 64) with (c mod 64) by (unfold v; Z.to_euclidean_division_equations; lia).
  rewrite encode_chars_spec by (repeat constructor; Z.to_euclidean_division_equations; lia).
  rewrite bind_Ok, put_chars_spec, bind_Ok, int_chk_Ok, bind_Ok by (done || simpl; lia). rewrite length_app. simpl length. do 2 f_equal. lia.
Qed.

Lemma encode_rest_spec text i l out k : Forall is_byte text → 0 <= i → drop (Z.to_nat i) text = l → (length l < 3)%nat → (length (base64 l) <= k)%nat →
  encode_rest text i (Z.of_nat (length out)) (Z.of_nat (length l)) (filled out k) = Ok (filled (out ++ base64 l) (k - length (base64 l))).
Proof.
  intros Ht Hi Hl Hlen Hk. assert (Hbytes : Forall is_byte l) by (rewrite <- Hl; by apply Forall_drop). unfold encode_rest.
  destruct l as [|a [|b [|c l]]]; [| | |simpl in Hlen; lia]; rewrite ?Forall_cons in Hbytes; unfold is_byte in Hbytes; cbv iota.
  - by rewrite app_nil_r, Nat.sub_0_r.
  - change (Z.of_nat (length [a]) =? 1) with true. cbv iota.
    rewrite <- (Z.add_0_r i) at 1. arr_gets Hl. change (Z.land a 3) with (Z.land a (Z.ones 2)).
    rewrite Z.land_ones, Z.shiftl_mul_pow2, Z.shiftr_div_pow2 by lia. change (2 ^ 2) with 4. change (2 ^ 4) with 16.
    rewrite encode_chars_spec by (repeat constructor; Z.to_euclidean_division_equations; lia). by rewrite bind_Ok, put_chars_spec.
  - change (Z.of_nat (length [a; b]) =? 1) with false. change (Z.of_nat (length [a; b]) =? 2) with true. cbv iota.
    rewrite <- (Z.add_0_r i) at 1. arr_gets Hl. rewrite Z.lor_comm, lor_shiftl, six_bits by lia. set (v := b + a * 2 ^ 8).
    change (Z.land v 0xf) with (Z.land v (Z.ones 4)). rewrite Z.land_ones, Z.shiftl_mul_pow2, Z.shiftr_div_pow2 by lia.
    replace (v / 2 ^ 10) with (a / 4) by (unfold v; Z.to_euclidean_division_equations; lia).
    replace (v / 2 ^ 4 mod 64) with (a mod 4 * 16 + b / 16) by (unfold v; Z.to_euclidean_division_equations; lia).
    replace (v mod 2 ^ 4 * 2 ^ 2) with (b mod 16 * 4) by (unfold v; Z.to_euclidean_division_equations; lia).
    rewrite encode_chars_spec by (repeat constructor; Z.to_euclidean_division_equations; lia). by rewrite bind_Ok, put_chars_spec.
Qed.

Lemma base64_take text n : (3 * n <= length text)%nat → length (base64 (take (3 * n) text)) = (4 * n)%nat.
Proof.
  intros Hn. apply Nat2Z.inj. rewrite base64_length, length_take, Nat.min_l by done.
  replace (Z.of_nat (3 * n) + 2) with (2 + Z.of_nat n * 3) by lia. rewrite Z.div_add by lia. change (2 / 3) with 0. lia.
Qed.

Lemma base64_step text n a b c l : drop (3 * n) text = a :: b :: c :: l →
  base64 (take (3 * S n) text) = base64 (take (3 * n) text) ++ base64 [a; b; c].
Proof.
  intros Hl. assert (Hlen : (3 * n + 3 <= length text)%nat).
  { pose proof (f_equal length Hl) as Hd. rewrite length_drop in Hd. simpl in Hd. lia. }
  rewrite <- (base64_app3 _ _ n) by (rewrite length_take; lia). f_equal. replace (3 * S n)%nat with (3 * n + 3)%nat by lia.
  rewrite <- (take_take_drop text (3 * n) 3), Hl. done.
Qed.

Lemma base64_encode_spec text : Forall is_byte text → (Z.of_nat (length text) + 2) / 3 * 4 <= INT_MAX →
  l_base64_encode text = lret (base64 text).
Proof.
  intros Ht Hmax. unfold l_base64_encode. set (sz := Z.of_nat (length text)) in *. unfold INT_MAX in Hmax.
  assert (Hsz : 0 <= (sz + 2) / 3 * 4 ∧ sz < 2 ^ 31) by (unfold sz in *; Z.to_euclidean_division_equations; lia).
  rewrite !(s32_small ((sz + 2) / 3 * 4)), (s32_small sz) by lia. set (esz := (sz + 2) / 3 * 4) in *.
  destruct (chunk_filled (SMALL_CHUNK <? esz) esz esz) as [k ->]; [unfold SMALL_CHUNK; lia|lia..|].
  set (n := Z.to_nat (sz / 3)). assert (Hn : (3 * n <= length text < 3 * n + 3)%nat) by (unfold n, sz in *; Z.to_euclidean_division_equations; lia).
  assert (Hcap : 4 * Z.of_nat n <= esz) by (unfold esz, sz; Z.to_euclidean_division_equations; lia).
  run_loop (λ m (s : Z * buffer), s = (Z.of_nat (length (base64 (take (3 * m) text))), filled (base64 (take (3 * m) text)) (Z.to_nat esz + k - 4 * m))) n s Hs.
  1, 4: lia.
  - intros m Hm. lia.
  - lia.
  - unfold INT_MAX. lia.
  - lia.
  - by rewrite Nat.sub_0_r.
  - intros m s Hm ->. rewrite Z.add_0_l. assert (Ha : ∃ a b c l, drop (3 * m) text = a :: b :: c :: l).
    { destruct (drop (3 * m) text) as [|a [|b [|c l]]] eqn:E; try (apply (f_equal length) in E; rewrite length_drop in E; simpl in E; lia). by eexists _, _, _, _. }
    destruct Ha as (a & b & c & l & Hl). rewrite (encode_group_spec _ _ l _ _ a b c); [|done|lia|by replace (Z.to_nat _) with (3 * m)%nat by lia| |].
    + eexists. split; [done|]. rewrite <- (base64_step _ _ _ _ _ l Hl). do 3 f_equal. lia.
    + lia.
    + rewrite base64_take by lia. unfold INT_MAX. lia.
  - subst s. rewrite lbind_lret. cbv iota beta. rewrite Z.add_0_l. set (l := drop (3 * n) text).
    assert (Hl : base64 text = base64 (take (3 * n) text) ++ base64 l).
    { rewrite <- (base64_app3 _ _ n) by (rewrite length_take; lia). unfold l. by rewrite take_drop. }
    assert (Hlen : Z.of_nat (length (base64 text)) = esz) by apply base64_length. rewrite Hl, length_app, base64_take in Hlen by lia.
    assert (Hdl : length l = (length text - 3 * n)%nat) by apply length_drop.
    replace (s32 (sz - Z.of_nat n * 3)) with (Z.of_nat (length l)) by (rewrite s32_small; lia).
    rewrite (encode_rest_spec _ _ l) by (done || lia || (unfold l; f_equal; lia)).
    rewrite lift_Ok, lbind_Ok, <- Hl, pushlstring_ok; [done|]. by rewrite base64_length.
Qed.

(** ** Base64: decoding *)

Definition b64i (c : Z) : Z := match b64index c with Ok v => v | Err _ => -1 end.

Lemma b64index_spec c : b64index c = Ok (b64i c) ∧ -2 <= b64i c < 64.
Proof.
  unfold b64i, b64index. destruct (Z.ltb_spec c 43); [done|]. destruct (Z.leb_spec (Z.of_nat (length decoding)) (c - 43)); [done|].
  destruct (arr_get_in_range decoding (c - 43)) as (v & Hv & ->); [lia|]. split; [done|].
  assert (Hall : Forall (λ v, -2 <= v < 64) decoding) by (unfold decoding; by repeat (constructor; [lia|])).
  rewrite Forall_lookup in Hall. by apply (Hall (Z.to_nat (c - 43))).
Qed.

(** the next [k] numbers of a text and what follows them *)
Fixpoint next_group (l : list Z) (k : nat) : option (list Z * list Z) :=
  match k with
  | O => Some ([], l)
  | S k' =>
      match l with
      | [] => None
      | ch :: l =>
          if b64i ch =? -1 then next_group l k
          else '(c, rest) ← next_group l k'; Some (b64i ch :: c, rest)
      end
  end.

Definition pads (c : list Z) : Z := Z.of_nat (length (filter (λ v, v = -2) c)).

Lemma b64_group_spec text l k : ∀ fuel c p, drop (length text - length l) text = l → (length l <= length text)%nat →
  (length l < fuel)%nat → (length c + k = 4)%nat → Z.of_nat (length text) <= INT_MAX →
  b64_group fuel text (Z.of_nat (length text - length l)) c p =
    match next_group l k with
    | Some (c', rest) => lret (Z.of_nat (length text - length rest), c ++ c', p + pads c')
    | None => luaL_error InvalidBase64Text
    end.
Proof.
  revert k. induction l as [|ch l IH]; intros [|k] fuel c p Hd Hlt Hf Hk Hmax; cbn [next_group].
  1, 3: destruct fuel; cbn [b64_group]; rewrite (proj2 (Z.ltb_ge _ 4)), app_nil_r by lia; cbn [pads filter list_filter length]; by rewrite Z.add_0_r.
  - destruct fuel as [|fuel]; [simpl in Hf; lia|]. cbn [b64_group]. rewrite (proj2 (Z.ltb_lt _ 4)) by lia. rewrite (proj2 (Z.leb_le _ _)) by (simpl; lia). done.
  - destruct fuel as [|fuel]; [simpl in Hf; lia|]. cbn [b64_group]. rewrite (proj2 (Z.ltb_lt _ 4)) by lia.
    cbn [length] in *. rewrite (proj2 (Z.leb_gt _ _)) by lia. rewrite <- (Z.add_0_r (Z.of_nat (length text - S (length l)))) at 1.
    rewrite (arr_get_drop text _ (ch :: l) 0 ch) by (done || lia || by rewrite Nat2Z.id).
    destruct (b64index_spec ch) as [Hidx Hr]. rewrite lift_Ok, lbind_Ok, Hidx, lift_Ok, lbind_Ok, int_chk_Ok, lift_Ok, lbind_Ok by (unfold INT_MAX in *; lia).
    replace (Z.of_nat (length text - S (length l)) + 1) with (Z.of_nat (length text - length l)) by lia.
    assert (Hd' : drop (length text - length l) text = l).
    { replace (length text - length l)%nat with (length text - S (length l) + 1)%nat by lia. rewrite <- drop_drop, Hd. done. }
    destruct (Z.eqb_spec (b64i ch) (-1)) as [Hj|Hj]; [by rewrite (IH (S k)) by (done || lia)|].
    rewrite (IH k) by (done || lia || rewrite length_app; simpl; lia).
    destruct (next_group l k) as [[c' rest]|]; [|done]. cbn [mbind option_bind]. rewrite <- app_assoc. cbn [app]. do 2 f_equal.
    unfold pads. rewrite filter_cons. destruct (Z.eqb_spec (b64i ch) (-2)); case_decide; try done; cbn [length]; lia.
Qed.

Lemma next_group_length l k c rest : next_group l k = Some (c, rest) → length c = k ∧ (length rest + k <= length l)%nat ∧ rest `suffix_of` l.
Proof.
  revert k c rest. induction l as [|ch l IH]; intros [|k] c rest; cbn [next_group]; [intros [= <- <-]; simpl; by auto with lia|done|intros [= <- <-]; split; [done|split; [lia|done]]|].
  destruct (b64i ch =? -1).
  - intros (Hc & Hr & Hs)%IH. split_and!; [done|simpl; lia|by apply suffix_cons_r].
  - intros ([c' r'] & (Hc & Hr & Hs)%IH & [= <- <-])%bind_Some. split_and!; [simpl; lia..|by apply suffix_cons_r].
Qed.

(** what the bytes of a text decode to; [fuel] bounds its groups *)
Fixpoint base64_decoded (fuel : nat) (l : list Z) : option (list Z) :=
  match l, fuel with
  | [], _ => Some []
  | _, O => None
  | _, S fuel =>
      '(c, rest) ← next_group l 4;
      bytes ← match b64_bytes c (pads c) with Ok (inr bytes) => Some bytes | _ => None end;
      out ← base64_decoded fuel rest;
      Some (bytes ++ out)
  end.

Lemma b64_bytes_spec c p : length c = 4%nat →
  b64_bytes c p = luaL_error InvalidBase64Text ∨ ∃ bytes, b64_bytes c p = lret bytes ∧ (length bytes <= 3)%nat.
Proof.
  intros Hc. destruct c as [|c0 [|c1 [|c2 [|c3 [|? ?]]]]]; try done. unfold b64_bytes.
  destruct (p =? 0); [right; eexists; split; [done|simpl; lia]|].
  destruct (p =? 1); [destruct (_ || _); [by left|right; eexists; split; [done|simpl; lia]]|].
  destruct (p =? 2); [destruct (_ || _); [by left|right; eexists; split; [done|simpl; lia]]|by left].
Qed.

Lemma b64_loop_spec fuel text l out k : drop (length text - length l) text = l → (length l <= length text)%nat → (length l <= fuel)%nat →
  Z.of_nat (length text) <= INT_MAX → (4 * length out <= 3 * (length text - length l))%nat → (3 * length text <= 4 * (length out + k))%nat →
  match base64_decoded fuel l with
  | Some bytes => ∃ k', b64_loop fuel text (Z.of_nat (length text - length l)) (Z.of_nat (length out)) (filled out k) =
      lret (Z.of_nat (length (out ++ bytes)), filled (out ++ bytes) k')
  | None => b64_loop fuel text (Z.of_nat (length text - length l)) (Z.of_nat (length out)) (filled out k) = luaL_error InvalidBase64Text
  end.
Proof.
  revert l out k. induction fuel as [|fuel IH]; intros l out k Hd Hlt Hf Hmax Hout Hcap.
  { destruct l; [|simpl in Hf; lia]. cbn [base64_decoded b64_loop]. rewrite (proj2 (Z.ltb_ge _ _)), app_nil_r by (simpl; lia). by exists k. }
  cbn [b64_loop]. destruct l as [|ch l]; [cbn [base64_decoded]; rewrite (proj2 (Z.ltb_ge _ _)), app_nil_r by (simpl; lia); by exists k|].
  set (l0 := ch :: l) in *. assert (0 < length l0)%nat by (unfold l0; simpl; lia). rewrite (proj2 (Z.ltb_lt _ _)) by lia.
  change (base64_decoded (S fuel) l0) with ('(c, rest) ← next_group l0 4;
      bytes ← match b64_bytes c (pads c) with Ok (inr bytes) => Some bytes | _ => None end;
      out ← base64_decoded fuel rest; Some (bytes ++ out)).
  rewrite (b64_group_spec text l0 4) by (done || lia). destruct (next_group l0 4) as [[c rest]|] eqn:E; [|done].
  destruct (next_group_length _ _ _ _ E) as (Hc & Hr & Hs). rewrite lbind_lret, app_nil_l, Z.add_0_l. cbv iota beta. cbn [mbind option_bind].
  destruct (b64_bytes_spec c (pads c) Hc) as [->|(bytes & -> & Hb)]; [done|]. rewrite lbind_lret.
  rewrite put_chars_spec, lift_Ok, lbind_Ok, int_chk_Ok, lift_Ok, lbind_Ok by (done || lia || unfold INT_MAX in *; lia).
  assert (Hrest : drop (length text - length rest) text = rest).
  { rewrite <- Hd in Hs at 1. destruct Hs as [pre Hs]. rewrite <- (take_drop (length text - length l0) text) at 2. rewrite Hs, app_assoc, drop_app_length'; [done|].
    rewrite length_app, length_take. pose proof (f_equal length Hs) as Hlen. rewrite length_drop, length_app in Hlen. lia. }
  specialize (IH rest (out ++ bytes) (k - length bytes)%nat Hrest). rewrite !length_app in IH.
  rewrite <- Nat2Z.inj_add. destruct (base64_decoded fuel rest) as [more|]; [|apply IH; lia].
  destruct IH as [k' ->]; [lia..|]. exists k'. cbn [mbind option_bind]. by rewrite !app_assoc.
Qed.

Lemma base64_decode_spec text : Z.of_nat (length text) <= INT_MAX →
  l_base64_decode text = match base64_decoded (length text) text with Some bytes => lret bytes | None => luaL_error InvalidBase64Text end.
Proof.
  intros Hmax. unfold l_base64_decode. set (sz := Z.of_nat (length text)) in *. unfold INT_MAX in Hmax.
  assert (Hd : 0 <= (sz + 3) / 4 * 3 < 2 ^ 31 ∧ 3 * sz <= 4 * ((sz + 3) / 4 * 3)) by (unfold sz in *; Z.to_euclidean_division_equations; lia).
  rewrite s32_small by lia. set (dsz := (sz + 3) / 4 * 3) in *.
  destruct (chunk_filled (SMALL_CHUNK <? dsz) dsz dsz) as [k ->]; [unfold SMALL_CHUNK; lia|lia..|].
  pose proof (b64_loop_spec (length text) text text [] (Z.to_nat dsz + k)) as Hloop. rewrite Nat.sub_diag in Hloop.
  change (Z.of_nat (length (@nil Z))) with 0 in Hloop. change (Z.of_nat 0) with 0 in Hloop.
  destruct (base64_decoded (length text) text) as [bytes|].
  - destruct Hloop as [k' ->]; try done; [simpl; lia..|]. rewrite lbind_lret. cbv iota beta. by rewrite pushlstring_ok.
  - rewrite Hloop by (done || simpl; lia). done.
Qed.

Lemma b64char_index v : 0 <= v < 64 → b64i (b64char v) = v.
Proof.
  intros Hv. apply Z.eqb_eq, (proj1 (forallb_forall (λ v, b64i (b64char v) =? v) (seqZ 0 64)));
    [vm_compute; reflexivity|]. by apply list_elem_of_In, elem_of_seqZ.
Qed.

(** the characters that are not skipped *)
Notation b64_used c := (b64i c ≠ -1).

Lemma next_group_filter l xs ys : filter (λ c, b64_used c) l = xs ++ ys →
  ∃ rest, next_group l (length xs) = Some (b64i <$> xs, rest) ∧ filter (λ c, b64_used c) rest = ys ∧ rest `suffix_of` l.
Proof.
  revert xs. induction l as [|ch l IH]; intros xs Hf; (destruct xs as [|x xs]; [eexists; by split_and!|]); [done|].
  rewrite filter_cons in Hf. cbn [length next_group]. case_decide as Hu.
  - injection Hf as <- Hf. destruct (IH xs Hf) as (rest & E & Hr & Hs). rewrite (proj2 (Z.eqb_neq _ _) Hu), E.
    exists rest. split_and!; [done..|]. by apply suffix_cons_r.
  - destruct (IH (x :: xs) Hf) as (rest & E & Hr & Hs). rewrite Hu. exists rest. split_and!; [done..|]. by apply suffix_cons_r.
Qed.

Lemma six_bits_byte a b : 0 <= a < 256 → 0 <= b < 256 →
  0 <= a / 4 < 64 ∧ 0 <= a mod 4 * 16 + b / 16 < 64 ∧ 0 <= b mod 16 * 4 + a / 64 < 64 ∧ 0 <= a mod 64 < 64 ∧ 0 <= a mod 4 * 16 < 64 ∧ 0 <= a mod 16 * 4 < 64.
Proof. intros Ha Hb. Z.to_euclidean_division_equations; lia. Qed.

Lemma group_bytes_3 a b c : is_byte a → is_byte b → is_byte c →
  b64_bytes [a / 4; a mod 4 * 16 + b / 16; b mod 16 * 4 + c / 64; c mod 64] 0 = lret [a; b; c].
Proof.
  unfold is_byte. intros Ha Hb Hc. destruct (six_bits_byte a b) as (? & ? & _); [done..|]. destruct (six_bits_byte c b) as (? & ? & ? & ? & _); [done..|].
  unfold b64_bytes. cbn [Z.eqb]. rewrite !Z.shiftl_mul_pow2 by lia.
  rewrite (lor_add (a / 4 * 2 ^ 18) _ 18), (lor_add (_ + _) (_ * 2 ^ 6) 12), (lor_add _ _ 6) by (Z.to_euclidean_division_equations; lia).
  rewrite !land_byte, !Z.shiftr_div_pow2 by lia. unfold lret. do 2 f_equal.
  f_equal; [|f_equal; [|f_equal]]; Z.to_euclidean_division_equations; lia.
Qed.

Lemma group_bytes_2 a b : is_byte a → is_byte b →
  b64_bytes [a / 4; a mod 4 * 16 + b / 16; b mod 16 * 4; -2] 1 = lret [a; b].
Proof.
  unfold is_byte. intros Ha Hb. unfold b64_bytes. cbn [Z.eqb negb orb Pos.eqb].
  replace (Z.land (b mod 16 * 4) 3) with 0 by (change 3 with (Z.ones 2); rewrite Z.land_ones by lia; Z.to_euclidean_division_equations; lia).
  cbn [Z.eqb negb]. rewrite !Z.shiftl_mul_pow2, !Z.shiftr_div_pow2 by lia.
  rewrite (lor_add (a / 4 * 2 ^ 10) _ 10), (lor_add _ _ 4) by (Z.to_euclidean_division_equations; lia).
  rewrite land_byte. unfold lret. do 2 f_equal. f_equal; [|f_equal]; Z.to_euclidean_division_equations; lia.
Qed.

Lemma group_bytes_1 a : is_byte a → b64_bytes [a / 4; a mod 4 * 16; -2; -2] 2 = lret [a].
Proof.
  unfold is_byte. intros Ha. unfold b64_bytes. cbn [Z.eqb negb orb Pos.eqb].
  replace (Z.land (a mod 4 * 16) 0xf) with 0 by (change 0xf with (Z.ones 4); rewrite Z.land_ones by lia; Z.to_euclidean_division_equations; lia).
  cbn [Z.eqb negb]. rewrite !Z.shiftl_mul_pow2, !Z.shiftr_div_pow2 by lia.
  rewrite (lor_add _ _ 2) by (Z.to_euclidean_division_equations; lia).
  unfold lret. do 3 f_equal. Z.to_euclidean_division_equations; lia.
Qed.

(** skipped characters anywhere but at the end *)
Definition no_tail (l : list Z) : Prop := ∀ c, last l = Some c → b64_used c.

Lemma no_tail_suffix l rest : no_tail l → rest `suffix_of` l → no_tail rest.
Proof.
  intros Hl [pre ->] c Hc. apply Hl. rewrite last_app, Hc. done.
Qed.

Lemma no_tail_nil l : no_tail l → filter (λ c, b64_used c) l = [] → l = [].
Proof.
  intros Hl Hf. destruct (last l) as [c|] eqn:E; [|by apply last_None]. exfalso. apply (Hl c E).
  apply last_Some in E as [pre ->]. rewrite filter_app in Hf. apply app_eq_nil in Hf as [_ Hf]. rewrite filter_cons in Hf.
  case_decide as Hd; [done|]. destruct (decide (b64i c = -1)); [done|]. by destruct Hd.
Qed.

Lemma decoded_group fuel l x0 x1 x2 x3 ys bytes out : filter (λ c, b64_used c) l = [x0; x1; x2; x3] ++ ys → no_tail l → (length l <= fuel)%nat →
  b64_bytes (b64i <$> [x0; x1; x2; x3]) (pads (b64i <$> [x0; x1; x2; x3])) = lret bytes →
  (∀ fuel rest, filter (λ c, b64_used c) rest = ys → no_tail rest → (length rest <= fuel)%nat → base64_decoded fuel rest = Some out) →
  base64_decoded fuel l = Some (bytes ++ out).
Proof.
  intros Hf Hl Hfuel Hb Hrest. destruct (next_group_filter l _ _ Hf) as (rest & E & Hr & Hs). cbn [length] in E.
  destruct (next_group_length _ _ _ _ E) as (_ & Hlen & _). destruct l as [|ch l]; [done|]. destruct fuel as [|fuel]; [simpl in Hfuel; lia|].
  cbn [base64_decoded]. rewrite E. cbn [mbind option_bind]. rewrite Hb. cbn [lret mbind option_bind].
  rewrite (Hrest fuel rest) by (done || (by eapply no_tail_suffix) || (simpl in *; lia)). done.
Qed.

Lemma decoded_base64 text : Forall is_byte text → ∀ fuel l, filter (λ c, b64_used c) l = base64 text → no_tail l → (length l <= fuel)%nat →
  base64_decoded fuel l = Some text.
Proof.
  assert (Heq : b64i equals_sign = -2) by done.
  induction text as [|a|a b|a b c text IH] using triple_ind; intros Ht fuel l Hf Hl Hfuel; rewrite ?Forall_cons in Ht.
  - apply no_tail_nil in Hf as ->; [|done]. by destruct fuel.
  - change [a] with ([a] ++ []). apply (decoded_group fuel l _ _ _ _ [] [a] [] Hf Hl Hfuel).
    + cbn [fmap list_fmap]. destruct Ht as [Ha _]. destruct (six_bits_byte a a) as (? & ? & ? & ? & ? & ?); [done..|].
      rewrite !b64char_index, Heq by done. replace (pads _) with 2; [by apply group_bytes_1|].
      unfold pads. rewrite !filter_cons, !(decide_False (P := _ = -2)), !(decide_True (P := -2 = -2)) by (done || lia). done.
    + intros fuel' rest Hr Hn _. apply no_tail_nil in Hr as ->; [|done]. by destruct fuel'.
  - change [a; b] with ([a; b] ++ []). apply (decoded_group fuel l _ _ _ _ [] [a; b] [] Hf Hl Hfuel).
    + cbn [fmap list_fmap]. destruct Ht as (Ha & Hb & _). destruct (six_bits_byte a b) as (? & ? & ? & ? & ? & ?); [done..|].
      destruct (six_bits_byte b b) as (_ & _ & _ & _ & _ & ?); [done..|].
      rewrite !b64char_index, Heq by done. replace (pads _) with 1; [by apply group_bytes_2|].
      unfold pads. rewrite !filter_cons, !(decide_False (P := _ = -2)), !(decide_True (P := -2 = -2)) by (done || lia). done.
    + intros fuel' rest Hr Hn _. apply no_tail_nil in Hr as ->; [|done]. by destruct fuel'.
  - destruct Ht as (Ha & Hb & Hc & Ht). change (a :: b :: c :: text) with ([a; b; c] ++ text).
    apply (decoded_group fuel l _ _ _ _ (base64 text) [a; b; c] text Hf Hl Hfuel).
    + cbn [fmap list_fmap]. destruct (six_bits_byte a b) as (? & ? & _); [done..|]. destruct (six_bits_byte c b) as (_ & _ & ? & ? & _); [done..|].
      rewrite !b64char_index by done. replace (pads _) with 0; [by apply group_bytes_3|].
      unfold pads. rewrite !filter_cons, !(decide_False (P := _ = -2)) by lia. done.
    + intros fuel' rest Hr Hn Hlen. by apply IH.
Qed.

Lemma decoded_length fuel l bytes : base64_decoded fuel l = Some bytes → (4 * length bytes <= 3 * length l)%nat.
Proof.
  revert l bytes. induction fuel as [|fuel IH]; intros [|ch l] bytes; cbn [base64_decoded]; try (intros [= <-]; simpl; lia).
  intros ([c rest] & E & (b & Hb & (out & Hout%IH & [= <-])%bind_Some)%bind_Some)%bind_Some.
  destruct (next_group_length _ _ _ _ E) as (Hc & Hlen & _). rewrite length_app.
  destruct (b64_bytes_spec c (pads c) Hc) as [Hb'|(b' & Hb' & Hl)]; rewrite Hb' in Hb; cbn [lret luaL_error] in Hb; simplify_eq. lia.
Qed.

(** ** Xor: lemmas *)

Lemma xor_str_spec s1 s2 : s2 ≠ [] → Z.of_nat (length s1) <= INT_MAX →
  l_xor_str s1 s2 = lret (imap (λ i a, Z.lxor a (nth (i mod length s2) s2 0)) s1).
Proof.
  intros Hs2 Hmax. unfold l_xor_str. assert (Hl2 : (0 < length s2)%nat) by (destruct s2; [done|simpl; lia]).
  rewrite (proj2 (Z.eqb_neq _ 0)) by lia. set (out := imap _ s1).
  assert (Hlen : length out = length s1) by apply length_imap.
  change (malloc_buffer (Z.of_nat (length s1))) with (filled (@nil Z) (Z.to_nat (Z.of_nat (length s1)))). rewrite Nat2Z.id.
  run_loop (λ n (b : buffer), b = filled (take n out) (length s1 - n)) (length s1) b Hb; try lia.
  - by rewrite Nat.sub_0_r.
  - intros n b Hn ->. rewrite Z.add_0_l, Z.mul_1_r.
    rewrite (arr_get_Ok s1 _ (nth n s1 0)), bind_Ok by (lia || (rewrite Nat2Z.id; by apply lookup_nth)).
    rewrite <- Nat2Z.inj_mod. rewrite (arr_get_Ok s2 _ (nth (n mod length s2) s2 0)), bind_Ok
      by (lia || (rewrite Nat2Z.id; apply lookup_nth, Nat.mod_upper_bound; lia)).
    rewrite buffer_set_spec by (rewrite ?length_take; lia). eexists. split; [done|].
    rewrite (take_S_r out n (Z.lxor (nth n s1 0) (nth (n mod length s2) s2 0))).
    + f_equal. f_equal. lia.
    + unfold out. rewrite list_lookup_imap, (lookup_nth s1 n 0) by done. done.
  - subst b. rewrite lbind_lret, <- Hlen, firstn_all, pushlstring_ok; done.
Qed.

Lemma xor_str_involutive s1 s2 : s2 ≠ [] → Z.of_nat (length s1) <= INT_MAX → ∃ c, l_xor_str s1 s2 = lret c ∧ l_xor_str c s2 = lret s1.
Proof.
  intros Hs2 Hmax. eexists. split; [by apply xor_str_spec|]. rewrite xor_str_spec by (done || by rewrite length_imap). f_equal. f_equal.
  apply list_eq. intros i. rewrite !list_lookup_imap. destruct (s1 !! i) as [a|]; [|done]. simpl.
  by rewrite Z.lxor_assoc, Z.lxor_nilpotent, Z.lxor_0_r.
Qed.

(** ** Theorems *)

(** C35: [l_base64_encode] computes the base64 encoding of RFC 4648, and [l_base64_decode]
    recovers the bytes from it, also when line breaks or any other characters that base64 does
    not use are put in front of or between its characters. *)
Theorem base64_roundtrip text : Forall is_byte text → (Z.of_nat (length text) + 2) / 3 * 4 <= INT_MAX →
  l_base64_encode text = lret (base64 text) ∧
  ∀ l, filter (λ c, b64_used c) l = base64 text → no_tail l → Z.of_nat (length l) <= INT_MAX → l_base64_decode l = lret text.
Proof.
  intros Ht Hmax. split; [by apply base64_encode_spec|]. intros l Hf Hl Hlen.
  rewrite base64_decode_spec by done. by rewrite (decoded_base64 text Ht).
Qed.

Lemma base64_roundtrip_witness :
  l_base64_encode (bytes_of "skynet") = lret (bytes_of "c2t5bmV0") ∧ l_base64_decode (bytes_of "c2t5 bmV0") = lret (bytes_of "skynet").
Proof.
  destruct (base64_roundtrip (bytes_of "skynet")) as [He Hd]; [by repeat (constructor; [by vm_compute|])|by vm_compute|].
  split; [exact He|]. apply Hd; [vm_compute; reflexivity| |by vm_compute]. by intros c [= <-].
Defined.

(** The characters given to [l_base64_decode] can be any: it returns bytes or raises its
    error, it does not write past the end of its buffer, of which it knows only that it holds
    three bytes for four characters, and it returns no more than that. *)
Theorem base64_decode_bounded text : Z.of_nat (length text) <= INT_MAX →
  l_base64_decode text = luaL_error InvalidBase64Text ∨
  ∃ bytes, l_base64_decode text = lret bytes ∧ (4 * length bytes <= 3 * length text)%nat.
Proof.
  intros Hmax. rewrite base64_decode_spec by done. destruct (base64_decoded _ text) as [bytes|] eqn:E; [right|by left].
  exists bytes. split; [done|]. by eapply decoded_length.
Qed.

Lemma base64_decode_bounded_witness : l_base64_decode (bytes_of "c2t5=") = luaL_error InvalidBase64Text ∧
  (l_base64_decode (bytes_of "c2t5=") = luaL_error InvalidBase64Text ∨
   ∃ bytes, l_base64_decode (bytes_of "c2t5=") = lret bytes ∧ (4 * length bytes <= 3 * length (bytes_of "c2t5="))%nat).
Proof. split; [vm_compute; reflexivity|]. apply (base64_decode_bounded (bytes_of "c2t5=")). by vm_compute. Defined.

(** [l_from_hex] is the inverse of [l_to_hex], on every string of bytes whose text can be
    counted with an [int]. *)
Theorem hex_roundtrip text : Forall is_byte text → 2 * Z.of_nat (length text) <= INT_MAX →
  ∃ h, l_to_hex text = lret h ∧ length h = (2 * length text)%nat ∧ l_from_hex h = lret text.
Proof.
  intros Ht Hmax. exists (to_hex text). split; [by apply to_hex_spec|]. split; [apply to_hex_length|].
  destruct (hex_bytes_to_hex text Ht) as (Hb & Ha & Hbytes).
  rewrite (from_hex_spec _ (length text)) by (done || rewrite to_hex_length; lia). by rewrite Ha, Hb.
Qed.

Lemma hex_roundtrip_witness : ∃ h, l_to_hex [0; 15; 171; 255] = lret h ∧ length h = 8%nat ∧ l_from_hex h = lret [0; 15; 171; 255].
Proof. apply (hex_roundtrip [0; 15; 171; 255]); [by repeat (constructor; [by vm_compute|])|by vm_compute]. Defined.

(** The characters that [l_from_hex] takes for hexadecimal digits are 0 to 9, a to f, and
    also W, X, Y, Z, the five characters between Z and a, and g: a text of an even number of
    these is decoded, every other text is refused with an error. *)
Theorem from_hex_domain text : Forall is_byte text → Z.of_nat (length text) <= INT_MAX →
  (∃ r, l_from_hex text = lret r) ↔ Z.Even (Z.of_nat (length text)) ∧ Forall (λ c, 48 <= c <= 57 ∨ 87 <= c <= 103) text.
Proof.
  intros Ht Hmax. destruct (Z.Even_or_Odd (Z.of_nat (length text))) as [[n Hn]|[n Hn]].
  - rewrite (from_hex_spec _ (Z.to_nat n)) by (done || lia). transitivity (forallb hex_accepted text = true).
    { destruct (forallb _ _); [by split; eauto|]. split; [by intros [r ?]|done]. }
    rewrite forallb_forall, Forall_forall. unfold hex_accepted. split.
    + intros Hf. split; [by exists n|]. intros c Hc. apply list_elem_of_In, Hf in Hc. lia.
    + intros [_ Hf] c Hc. apply list_elem_of_In, Hf in Hc. lia.
  - unfold l_from_hex. change (Z.land _ 1) with (Z.land (Z.of_nat (length text)) (Z.ones 1)). rewrite Z.land_ones, Hn by lia.
    replace ((2 * n + 1) mod 2 ^ 1) with 1 by (change (2 ^ 1) with 2; Z.to_euclidean_division_equations; lia). simpl.
    split; [by intros [r ?]|]. intros [[m Hm] _]. lia.
Qed.

Lemma from_hex_domain_witness : l_from_hex (bytes_of "gW") = lret [0] ∧ l_from_hex (bytes_of "A0") = luaL_error InvalidHexText ∧
  ((∃ r, l_from_hex (bytes_of "gW") = lret r) ↔ Z.Even (Z.of_nat (length (bytes_of "gW"))) ∧ Forall (λ c, 48 <= c <= 57 ∨ 87 <= c <= 103) (bytes_of "gW")).
Proof.
  split; [vm_compute; reflexivity|]. split; [vm_compute; reflexivity|].
  apply (from_hex_domain (bytes_of "gW")); [by repeat (constructor; [by vm_compute|])|by vm_compute].
Defined.
