(* ===== verification/Des.v ===== *)
(** * The DES cipher of skynet.crypt (luaclib-src/lua-crypt.cpp)

    The tables, the key schedule, the permutations and the rounds are those of the source; a
    macro that assigns to its arguments returns their new values. [l_des_encode] encrypts a
    text in blocks of eight bytes, the last one padded; [l_des_decode] decrypts it with the
    subkeys in the opposite order and removes the padding. *)
From S2P Require Import Prelude Bytes LuaCall CryptBase.
Open Scope list_scope.
Open Scope Z_scope.
Open Scope word_scope.

Definition SB1 : list Z :=
  [0x01010400; 0x00000000; 0x00010000; 0x01010404; 0x01010004; 0x00010404; 0x00000004; 0x00010000;
   0x00000400; 0x01010400; 0x01010404; 0x00000400; 0x01000404; 0x01010004; 0x01000000; 0x00000004;
   0x00000404; 0x01000400; 0x01000400; 0x00010400; 0x00010400; 0x01010000; 0x01010000; 0x01000404;
   0x00010004; 0x01000004; 0x01000004; 0x00010004; 0x00000000; 0x00000404; 0x00010404; 0x01000000;
   0x00010000; 0x01010404; 0x00000004; 0x01010000; 0x01010400; 0x01000000; 0x01000000; 0x00000400;
   0x01010004; 0x00010000; 0x00010400; 0x01000004; 0x00000400; 0x00000004; 0x01000404; 0x00010404;
   0x01010404; 0x00010004; 0x01010000; 0x01000404; 0x01000004; 0x00000404; 0x00010404; 0x01010400;
   0x00000404; 0x01000400; 0x01000400; 0x00000000; 0x00010004; 0x00010400; 0x00000000; 0x01010004].

Definition SB2 : list Z :=
  [0x80108020; 0x80008000; 0x00008000; 0x00108020; 0x00100000; 0x00000020; 0x80100020; 0x80008020;
   0x80000020; 0x80108020; 0x80108000; 0x80000000; 0x80008000; 0x00100000; 0x00000020; 0x80100020;
   0x00108000; 0x00100020; 0x80008020; 0x00000000; 0x80000000; 0x00008000; 0x00108020; 0x80100000;
   0x00100020; 0x80000020; 0x00000000; 0x00108000; 0x00008020; 0x80108000; 0x80100000; 0x00008020;
   0x00000000; 0x00108020; 0x80100020; 0x00100000; 0x80008020; 0x80100000; 0x80108000; 0x00008000;
   0x80100000; 0x80008000; 0x00000020; 0x80108020; 0x00108020; 0x00000020; 0x00008000; 0x80000000;
   0x00008020; 0x80108000; 0x00100000; 0x80000020; 0x00100020; 0x80008020; 0x80000020; 0x00100020;
   0x00108000; 0x00000000; 0x80008000; 0x00008020; 0x80000000; 0x80100020; 0x80108020; 0x00108000].

Definition SB3 : list Z :=
  [0x00000208; 0x08020200; 0x00000000; 0x08020008; 0x08000200; 0x00000000; 0x00020208; 0x08000200;
   0x00020008; 0x08000008; 0x08000008; 0x00020000; 0x08020208; 0x00020008; 0x08020000; 0x00000208;
   0x08000000; 0x00000008; 0x08020200; 0x00000200; 0x00020200; 0x08020000; 0x08020008; 0x00020208;
   0x08000208; 0x00020200; 0x00020000; 0x08000208; 0x00000008; 0x08020208; 0x00000200; 0x08000000;
   0x08020200; 0x08000000; 0x00020008; 0x00000208; 0x00020000; 0x08020200; 0x08000200; 0x00000000;
   0x00000200; 0x00020008; 0x08020208; 0x08000200; 0x08000008; 0x00000200; 0x00000000; 0x08020008;
   0x08000208; 0x00020000; 0x08000000; 0x08020208; 0x00000008; 0x00020208; 0x00020200; 0x08000008;
   0x08020000; 0x08000208; 0x00000208; 0x08020000; 0x00020208; 0x00000008; 0x08020008; 0x00020200].

Definition SB4 : list Z :=
  [0x00802001; 0x00002081; 0x00002081; 0x00000080; 0x00802080; 0x00800081; 0x00800001; 0x00002001;
   0x00000000; 0x00802000; 0x00802000; 0x00802081; 0x00000081; 0x00000000; 0x00800080; 0x00800001;
   0x00000001; 0x00002000; 0x00800000; 0x00802001; 0x00000080; 0x00800000; 0x00002001; 0x00002080;
   0x00800081; 0x00000001; 0x00002080; 0x00800080; 0x00002000; 0x00802080; 0x00802081; 0x00000081;
   0x00800080; 0x00800001; 0x00802000; 0x00802081; 0x00000081; 0x00000000; 0x00000000; 0x00802000;
   0x00002080; 0x00800080; 0x00800081; 0x00000001; 0x00802001; 0x00002081; 0x00002081; 0x00000080;
   0x00802081; 0x00000081; 0x00000001; 0x00002000; 0x00800001; 0x00002001; 0x00802080; 0x00800081;
   0x00002001; 0x00002080; 0x00800000; 0x00802001; 0x00000080; 0x00800000; 0x00002000; 0x00802080].

Definition SB5 : list Z :=
  [0x00000100; 0x02080100; 0x02080000; 0x42000100; 0x00080000; 0x00000100; 0x40000000; 0x02080000;
   0x40080100; 0x00080000; 0x02000100; 0x40080100; 0x42000100; 0x42080000; 0x00080100; 0x40000000;
   0x02000000; 0x40080000; 0x40080000; 0x00000000; 0x40000100; 0x42080100; 0x42080100; 0x02000100;
   0x42080000; 0x40000100; 0x00000000; 0x42000000; 0x02080100; 0x02000000; 0x42000000; 0x00080100;
   0x00080000; 0x42000100; 0x00000100; 0x02000000; 0x40000000; 0x02080000; 0x42000100; 0x40080100;
   0x02000100; 0x40000000; 0x42080000; 0x02080100; 0x40080100; 0x00000100; 0x02000000; 0x42080000;
   0x42080100; 0x00080100; 0x42000000; 0x42080100; 0x02080000; 0x00000000; 0x40080000; 0x42000000;
   0x00080100; 0x02000100; 0x40000100; 0x00080000; 0x00000000; 0x40080000; 0x02080100; 0x40000100].

Definition SB6 : list Z :=
  [0x20000010; 0x20400000; 0x00004000; 0x20404010; 0x20400000; 0x00000010; 0x20404010; 0x00400000;
   0x20004000; 0x00404010; 0x00400000; 0x20000010; 0x00400010; 0x20004000; 0x20000000; 0x00004010;
   0x00000000; 0x00400010; 0x20004010; 0x00004000; 0x00404000; 0x20004010; 0x00000010; 0x20400010;
   0x20400010; 0x00000000; 0x00404010; 0x20404000; 0x00004010; 0x00404000; 0x20404000; 0x20000000;
   0x20004000; 0x00000010; 0x20400010; 0x00404000; 0x20404010; 0x00400000; 0x00004010; 0x20000010;
   0x00400000; 0x20004000; 0x20000000; 0x00004010; 0x20000010; 0x20404010; 0x00404000; 0x20400000;
   0x00404010; 0x20404000; 0x00000000; 0x20400010; 0x00000010; 0x00004000; 0x20400000; 0x00404010;
   0x00004000; 0x00400010; 0x20004010; 0x00000000; 0x20404000; 0x20000000; 0x00400010; 0x20004010].

Definition SB7 : list Z :=
  [0x00200000; 0x04200002; 0x04000802; 0x00000000; 0x00000800; 0x04000802; 0x00200802; 0x04200800;
   0x04200802; 0x00200000; 0x00000000; 0x04000002; 0x00000002; 0x04000000; 0x04200002; 0x00000802;
   0x04000800; 0x00200802; 0x00200002; 0x04000800; 0x04000002; 0x04200000; 0x04200800; 0x00200002;
   0x04200000; 0x00000800; 0x00000802; 0x04200802; 0x00200800; 0x00000002; 0x04000000; 0x00200800;
   0x04000000; 0x00200800; 0x00200000; 0x04000802; 0x04000802; 0x04200002; 0x04200002; 0x00000002;
   0x00200002; 0x04000000; 0x04000800; 0x00200000; 0x04200800; 0x00000802; 0x00200802; 0x04200800;
   0x00000802; 0x04000002; 0x04200802; 0x04200000; 0x00200800; 0x00000000; 0x00000002; 0x04200802;
   0x00000000; 0x00200802; 0x04200000; 0x00000800; 0x04000002; 0x04000800; 0x00000800; 0x00200002].

Definition SB8 : list Z :=
  [0x10001040; 0x00001000; 0x00040000; 0x10041040; 0x10000000; 0x10001040; 0x00000040; 0x10000000;
   0x00040040; 0x10040000; 0x10041040; 0x00041000; 0x10041000; 0x00041040; 0x00001000; 0x00000040;
   0x10040000; 0x10000040; 0x10001000; 0x00001040; 0x00041000; 0x00040040; 0x10040040; 0x10041000;
   0x00001040; 0x00000000; 0x00000000; 0x10040040; 0x10000040; 0x10001000; 0x00041040; 0x00040000;
   0x00041040; 0x00040000; 0x10041000; 0x00001000; 0x00000040; 0x10040040; 0x00001000; 0x00041040;
   0x10001000; 0x00000040; 0x10000040; 0x10040000; 0x10040040; 0x10000000; 0x00040000; 0x10001040;
   0x00000000; 0x10041040; 0x00040040; 0x10000040; 0x10040000; 0x10001000; 0x10001040; 0x00000000;
   0x10041040; 0x00041000; 0x00041000; 0x00001040; 0x00001040; 0x00040040; 0x10000000; 0x10041000].

Definition LHs : list Z :=
  [0x00000000; 0x00000001; 0x00000100; 0x00000101; 0x00010000; 0x00010001; 0x00010100; 0x00010101;
   0x01000000; 0x01000001; 0x01000100; 0x01000101; 0x01010000; 0x01010001; 0x01010100; 0x01010101].

Definition RHs : list Z :=
  [0x00000000; 0x01000000; 0x00010000; 0x01010000; 0x00000100; 0x01000100; 0x00010100; 0x01010100;
   0x00000001; 0x01000001; 0x00010001; 0x01010001; 0x00000101; 0x01000101; 0x00010101; 0x01010101].

(** [SB[i & 0x3F]] and [LHs[i & 0xF]]: the tables have 64 and 16 entries *)
Definition sbox (SB : list Z) (i : Z) : Z := nth (Z.to_nat (i .& 0x3F)) SB 0.
Definition half (HS : list Z) (i : Z) : Z := nth (Z.to_nat (i .& 0xF)) HS 0.

(** [b] holds eight bytes *)
Definition GET_UINT32 (b : list Z) (i : nat) : Z :=
  nth i b 0 .<< 24 .| nth (i + 1) b 0 .<< 16 .| nth (i + 2) b 0 .<< 8 .| nth (i + 3) b 0.
Definition PUT_UINT32 (n : Z) : list Z := [(n .>> 24) mod 256; (n .>> 16) mod 256; (n .>> 8) mod 256; n mod 256].

(** the lines of the permutations:
    [T = ((X >> n) ^ Y) & M; Y ^= T; X ^= (T << n)], [T = (X ^ Y) & 0xAAAAAAAA; Y ^= T; X ^= T],
    [X = ((X << 1) | (X >> 31)) & 0xFFFFFFFF] and [X = ((X << 31) | (X >> 1)) & 0xFFFFFFFF] *)
Definition exchange (n M X Y : Z) : Z * Z :=
  let T := (X .>> n .^ Y) .& M in (X .^ T .<< n, Y .^ T).
Definition mix (X Y : Z) : Z * Z := let T := (X .^ Y) .& 0xAAAAAAAA in (X .^ T, Y .^ T).
Definition rotl (X : Z) : Z := (X .<< 1 .| X .>> 31) .& 0xFFFFFFFF.
Definition rotr (X : Z) : Z := (X .<< 31 .| X .>> 1) .& 0xFFFFFFFF.

Definition DES_IP (X Y : Z) : Z * Z :=
  let '(X, Y) := exchange 4 0x0F0F0F0F X Y in
  let '(X, Y) := exchange 16 0x0000FFFF X Y in
  let '(Y, X) := exchange 2 0x33333333 Y X in
  let '(Y, X) := exchange 8 0x00FF00FF Y X in
  let Y := rotl Y in
  let '(X, Y) := mix X Y in
  let X := rotl X in
  (X, Y).

Definition DES_FP (X Y : Z) : Z * Z :=
  let X := rotr X in
  let '(X, Y) := mix X Y in
  let Y := rotr Y in
  let '(Y, X) := exchange 8 0x00FF00FF Y X in
  let '(Y, X) := exchange 2 0x33333333 Y X in
  let '(X, Y) := exchange 16 0x0000FFFF X Y in
  let '(X, Y) := exchange 4 0x0F0F0F0F X Y in
  (X, Y).

(** the new [Y], with the two subkeys at [SK] *)
Definition round_value (k0 k1 X : Z) : Z :=
  let T := k0 .^ X in
  let y := sbox SB8 T .^ sbox SB6 (T .>> 8) .^ sbox SB4 (T .>> 16) .^ sbox SB2 (T .>> 24) in
  let T := k1 .^ (X .<< 28 .| X .>> 4) in
  y .^ (sbox SB7 T .^ sbox SB5 (T .>> 8) .^ sbox SB3 (T .>> 16) .^ sbox SB1 (T .>> 24)).

Definition DES_ROUND (SK : list Z) (X Y : Z) : result (list Z * Z) :=
  match SK with
  | k0 :: k1 :: SK => Ok (SK, Y .^ round_value k0 k1 X)
  | _ => Err OutOfBounds
  end.

(** *** Key schedule *)

(** the two subkeys of a round *)
Definition subkeys (X Y : Z) : list Z :=
  [  (X .<< 4 .& 0x24000000) .| (X .<< 28 .& 0x10000000) .| (X .<< 14 .& 0x08000000) .| (X .<< 18 .& 0x02080000) .|
     (X .<< 6 .& 0x01000000) .| (X .<< 9 .& 0x00200000) .| (X .>> 1 .& 0x00100000) .| (X .<< 10 .& 0x00040000) .|
     (X .<< 2 .& 0x00020000) .| (X .>> 10 .& 0x00010000) .| (Y .>> 13 .& 0x00002000) .| (Y .>> 4 .& 0x00001000) .|
     (Y .<< 6 .& 0x00000800) .| (Y .>> 1 .& 0x00000400) .| (Y .>> 14 .& 0x00000200) .| (Y .& 0x00000100) .|
     (Y .>> 5 .& 0x00000020) .| (Y .>> 10 .& 0x00000010) .| (Y .>> 3 .& 0x00000008) .| (Y .>> 18 .& 0x00000004) .|
     (Y .>> 26 .& 0x00000002) .| (Y .>> 24 .& 0x00000001);
     (X .<< 15 .& 0x20000000) .| (X .<< 17 .& 0x10000000) .| (X .<< 10 .& 0x08000000) .| (X .<< 22 .& 0x04000000) .|
     (X .>> 2 .& 0x02000000) .| (X .<< 1 .& 0x01000000) .| (X .<< 16 .& 0x00200000) .| (X .<< 11 .& 0x00100000) .|
     (X .<< 3 .& 0x00080000) .| (X .>> 6 .& 0x00040000) .| (X .<< 15 .& 0x00020000) .| (X .>> 4 .& 0x00010000) .|
     (Y .>> 2 .& 0x00002000) .| (Y .<< 8 .& 0x00001000) .| (Y .>> 14 .& 0x00000808) .| (Y .>> 9 .& 0x00000400) .|
     (Y .& 0x00000200) .| (Y .<< 7 .& 0x00000100) .| (Y .>> 7 .& 0x00000020) .| (Y .>> 3 .& 0x00000011) .|
     (Y .<< 2 .& 0x00000004) .| (Y .>> 21 .& 0x00000002)].

(** the rounds that rotate by one *)
Definition rotate_one (i : Z) : bool := (i <? 2) || (i =? 8) || (i =? 15).

Fixpoint ks_loop (n : nat) (i X Y : Z) : list Z :=
  match n with
  | O => []
  | S n =>
      let s := if rotate_one i then 1 else 2 in
      let X := (X .<< s .| X .>> (28 - s)) .& 0x0FFFFFFF in
      let Y := (Y .<< s .| Y .>> (28 - s)) .& 0x0FFFFFFF in
      subkeys X Y ++ ks_loop n (i + 1) X Y
  end.

Definition des_main_ks (key : list Z) : list Z :=
  let X := GET_UINT32 key 0 in
  let Y := GET_UINT32 key 4 in
  let T := (Y .>> 4 .^ X) .& 0x0F0F0F0F in let X := X .^ T in let Y := Y .^ T .<< 4 in
  let T := (Y .^ X) .& 0x10101010 in let X := X .^ T in let Y := Y .^ T in
  let X := half LHs X .<< 3 .| half LHs (X .>> 8) .<< 2 .| half LHs (X .>> 16) .<< 1 .| half LHs (X .>> 24)
    .| half LHs (X .>> 5) .<< 7 .| half LHs (X .>> 13) .<< 6 .| half LHs (X .>> 21) .<< 5 .| half LHs (X .>> 29) .<< 4 in
  let Y := half RHs (Y .>> 1) .<< 3 .| half RHs (Y .>> 9) .<< 2 .| half RHs (Y .>> 17) .<< 1 .| half RHs (Y .>> 25)
    .| half RHs (Y .>> 4) .<< 7 .| half RHs (Y .>> 12) .<< 6 .| half RHs (Y .>> 20) .<< 5 .| half RHs (Y .>> 28) .<< 4 in
  ks_loop 16 0 (X .& 0x0FFFFFFF) (Y .& 0x0FFFFFFF).

(** *** A block *)

Definition des_crypt (SK : list Z) (input : list Z) : result (list Z) :=
  let X := GET_UINT32 input 0 in
  let Y := GET_UINT32 input 4 in
  let '(X, Y) := DES_IP X Y in
  let* (SK, X) := DES_ROUND SK Y X in
  let* (SK, Y) := DES_ROUND SK X Y in
  let* (SK, X) := DES_ROUND SK Y X in
  let* (SK, Y) := DES_ROUND SK X Y in
  let* (SK, X) := DES_ROUND SK Y X in
  let* (SK, Y) := DES_ROUND SK X Y in
  let* (SK, X) := DES_ROUND SK Y X in
  let* (SK, Y) := DES_ROUND SK X Y in
  let* (SK, X) := DES_ROUND SK Y X in
  let* (SK, Y) := DES_ROUND SK X Y in
  let* (SK, X) := DES_ROUND SK Y X in
  let* (SK, Y) := DES_ROUND SK X Y in
  let* (SK, X) := DES_ROUND SK Y X in
  let* (SK, Y) := DES_ROUND SK X Y in
  let* (SK, X) := DES_ROUND SK Y X in
  let* (SK, Y) := DES_ROUND SK X Y in
  let '(Y, X) := DES_FP Y X in
  Ok (PUT_UINT32 Y ++ PUT_UINT32 X).

(** the key and the plain text of a textbook example *)
Example des_known_answer :
  des_crypt (des_main_ks [0x13; 0x34; 0x57; 0x79; 0x9B; 0xBC; 0xDF; 0xF1]) [0x01; 0x23; 0x45; 0x67; 0x89; 0xAB; 0xCD; 0xEF] =
    Ok [0x85; 0xE8; 0x13; 0x54; 0x0F; 0x0A; 0xB4; 0x05].
Proof. vm_compute. reflexivity. Qed.

(** *** Padding *)

Definition PADDING_MODE_ISO7816_4 : Z := 0.
Definition PADDING_MODE_PKCS7 : Z := 1.
Definition PADDING_MODE_COUNT : Z := 2.

Definition padding_add_iso7816_4 (buf : buffer) (offset : Z) : result buffer :=
  buf <- buffer_set buf offset 0x80;;
  copy_into buf (offset + 1) (replicate (Z.to_nat (7 - offset)) 0).

Definition padding_add_pkcs7 (buf : buffer) (offset : Z) : result buffer :=
  copy_into buf offset (replicate (Z.to_nat (8 - offset)) ((8 - offset) mod 256)).

(** [for (i = 0; i < 8; i++, last--)]; [n] rounds are left *)
Fixpoint iso7816_4_loop (n : nat) (buf : buffer) (last padding : Z) : result Z :=
  match n with
  | O => Ok 0
  | S n =>
      c <- buffer_byte buf last;;
      if c =? 0 then iso7816_4_loop n buf (last - 1) (padding + 1)
      else if c =? 0x80 then Ok padding
      else Ok 0
  end.
Definition padding_remove_iso7816_4 (buf : buffer) (last : Z) : result Z := iso7816_4_loop 8 buf last 1.

(** [for (i = 1; i < padding; i++)] *)
Fixpoint pkcs7_loop (n : nat) (buf : buffer) (last padding : Z) : result Z :=
  match n with
  | O => Ok padding
  | S n =>
      let last := last - 1 in
      c <- buffer_byte buf last;;
      if negb (c =? padding) then Ok 0 else pkcs7_loop n buf last padding
  end.
Definition padding_remove_pkcs7 (buf : buffer) (last : Z) : result Z :=
  padding <- buffer_byte buf last;;
  pkcs7_loop (Z.to_nat (padding - 1)) buf last padding.

Definition check_padding_mode (mode : Z) : crypt unit :=
  if (mode <? 0) || (PADDING_MODE_COUNT <=? mode) then luaL_error (InvalidPaddingMode mode) else lret tt.

(** [buf] is the array [tail]; [src] is what is left of the text, [offset] its length *)
Definition add_padding (buf : buffer) (src : list Z) (offset mode : Z) : crypt buffer :=
  check_padding_mode mode;;;~
  if 8 <=? offset then luaL_error InvalidPadding
  else
    buf <~ lift (copy_into buf 0 (take (Z.to_nat offset) src));;
    lift (if mode =? PADDING_MODE_ISO7816_4 then padding_add_iso7816_4 buf offset else padding_add_pkcs7 buf offset).

Definition remove_padding (buf : buffer) (last mode : Z) : crypt Z :=
  check_padding_mode mode;;;~
  lift (if mode =? PADDING_MODE_ISO7816_4 then padding_remove_iso7816_4 buf last else padding_remove_pkcs7 buf last).

(** *** The functions that Lua calls *)

Definition des_key (key : list Z) : crypt (list Z) :=
  let keysz := Z.of_nat (length key) in
  if negb (keysz =? 8) then luaL_error (InvalidKeySize (s32 keysz)) else lret (des_main_ks key).

(** [des_crypt(SK, text + i, buffer + i)] *)
Definition crypt_block (SK text : list Z) (i : Z) (buffer : buffer) : result Bytes.buffer :=
  match slice text (Z.to_nat i) 8 with
  | None => Err OutOfBounds
  | Some input => output <- des_crypt SK input;; copy_into buffer i output
  end.

(** [padding_mode] is [luaL_optinteger(L, 3, PADDING_MODE_ISO7816_4)] as an [int] *)
Definition l_des_encode (key text : list Z) (padding_mode : Z) : crypt (list Z) :=
  SK <~ des_key key;;
  let textsz := Z.of_nat (length text) in
  let chunksz := (textsz + 8) .& Z.lnot 7 in
  let buffer := chunk_buffer (SMALL_CHUNK <? chunksz) chunksz in
  let~ (i, buffer) := int_loop (length text) 0 (s32 textsz - 7) 8 (λ i buffer, lift (crypt_block SK text i buffer)) buffer in
  tail <~ add_padding (malloc_buffer 8) (drop (Z.to_nat i) text) (s32 (textsz - i)) padding_mode;;
  tail <~ lift (pushlstring tail 8);;
  output <~ lift (des_crypt SK tail);;
  buffer <~ lift (copy_into buffer i output);;
  lift (pushlstring buffer chunksz).

(** [SK[i] = ESK[30 - i]; SK[i + 1] = ESK[31 - i]] for even [i] *)
Definition decode_keys (ESK : list Z) : list Z :=
  concat ((λ i, [nth (30 - 2 * i) ESK 0; nth (31 - 2 * i) ESK 0]) <$> seq 0 16).

Definition l_des_decode (key text : list Z) (padding_mode : Z) : crypt (list Z) :=
  ESK <~ des_key key;;
  let SK := decode_keys ESK in
  let textsz := Z.of_nat (length text) in
  if negb (textsz .& 7 =? 0) || (textsz =? 0) then luaL_error (InvalidDesTextLength (s32 textsz))
  else
    let buffer := chunk_buffer (SMALL_CHUNK <? textsz) textsz in
    let~ (_, buffer) := int_loop (length text) 0 textsz 8 (λ i buffer, lift (crypt_block SK text i buffer)) buffer in
    padding <~ remove_padding buffer (textsz - 1) padding_mode;;
    if (padding <=? 0) || (8 <? padding) then luaL_error InvalidDesText
    else lift (pushlstring buffer (textsz - padding)).
