(* ===== verification/DesProof.v ===== *)
(** * Decryption undoes encryption

    The steps of the initial permutation are involutions and rotations that the final one
    undoes in the opposite order; a round is undone by the same round; so a block that is
    encrypted with the subkeys and then with the subkeys in the opposite order is as it was.
    The padding of the last block tells where the text ends. *)
From S2P Require Import Prelude Bytes LuaCall CryptBase Des.
Open Scope list_scope.
Open Scope Z_scope.
Open Scope word_scope.

(** ** The permutations *)

Lemma shl32_small T n : 0 <= n → 0 <= T < 2 ^ (32 - n) → n <= 32 → T .<< n = Z.shiftl T n.
Proof.
  intros Hn HT H32. unfold shl32. apply u32_small. rewrite Z.shiftl_mul_pow2 by done.
  replace (2 ^ 32) with (2 ^ (32 - n) * 2 ^ n) by (rewrite <- Z.pow_add_r by lia; f_equal; lia). nia.
Qed.

Lemma exchange_involutive n M X Y X' Y' : 0 <= n <= 32 → 0 <= M < 2 ^ (32 - n) → exchange n M X Y = (X', Y') → exchange n M X' Y' = (X, Y).
Proof.
  intros Hn HM. unfold exchange. cbv zeta. set (T := (X .>> n .^ Y) .& M). intros [= <- <-].
  assert (HT : 0 <= T < 2 ^ (32 - n)) by (by apply land_range_r).
  assert (E : ((X .^ T .<< n) .>> n .^ (Y .^ T)) .& M = T).
  { rewrite shl32_small by lia. rewrite Z.shiftr_lxor, Z.shiftr_shiftl_l, Z.sub_diag, Z.shiftl_0_r by lia.
    rewrite (Z.lxor_comm Y T), Z.lxor_assoc, <- (Z.lxor_assoc T T Y), Z.lxor_nilpotent, Z.lxor_0_l. done. }
  rewrite E. by rewrite !lxor_cancel.
Qed.

Lemma exchange_u32 n M X Y : 0 <= n <= 32 → 0 <= M < 2 ^ (32 - n) → is_u32 X → is_u32 Y → is_u32 (exchange n M X Y).1 ∧ is_u32 (exchange n M X Y).2.
Proof.
  intros Hn HM H1 H2. unfold exchange. cbn [fst snd]. set (T := (_ .^ _) .& M). assert (HT : 0 <= T < 2 ^ (32 - n)) by (by apply land_range_r).
  split; apply lxor_range; try done; [apply u32_range|]. assert (2 ^ (32 - n) <= 2 ^ 32) by (apply Z.pow_le_mono_r; lia). lia.
Qed.

Lemma land_mask x : x .& 0xFFFFFFFF = u32 x.
Proof. apply (Z.land_ones _ 32). lia. Qed.

Lemma rotl_spec x : is_u32 x → rotl x = x mod 2 ^ 31 * 2 + x / 2 ^ 31.
Proof.
  unfold is_u32, rotl. intros Hx. rewrite land_mask. unfold shl32. rewrite Z.shiftl_mul_pow2, Z.shiftr_div_pow2 by lia.
  unfold u32. rewrite (lor_add _ _ 1) by (Z.to_euclidean_division_equations; lia). Z.to_euclidean_division_equations; lia.
Qed.

Lemma rotr_spec x : is_u32 x → rotr x = x mod 2 * 2 ^ 31 + x / 2.
Proof.
  unfold is_u32, rotr. intros Hx. rewrite land_mask. unfold shl32. rewrite Z.shiftl_mul_pow2, Z.shiftr_div_pow2 by lia.
  unfold u32. rewrite (lor_add _ _ 31) by (Z.to_euclidean_division_equations; lia). Z.to_euclidean_division_equations; lia.
Qed.

Lemma rotr_rotl x : is_u32 x → rotr (rotl x) = x.
Proof. intros Hx. rewrite rotr_spec, rotl_spec by (done || apply u32_range || (rewrite rotl_spec by done; unfold is_u32 in *; Z.to_euclidean_division_equations; lia)). unfold is_u32 in Hx. Z.to_euclidean_division_equations; lia. Qed.

Lemma rotl_rotr x : is_u32 x → rotl (rotr x) = x.
Proof. intros Hx. rewrite rotl_spec, rotr_spec by (done || (rewrite rotr_spec by done; unfold is_u32 in *; Z.to_euclidean_division_equations; lia)). unfold is_u32 in Hx. Z.to_euclidean_division_equations; lia. Qed.

(** [g] undoes [f] on pairs of words *)
Definition words (p : Z * Z) : Prop := is_u32 p.1 ∧ is_u32 p.2.
Definition undoes (g f : Z * Z → Z * Z) : Prop := ∀ p, words p → words (f p) ∧ g (f p) = p.

Lemma undoes_compose g f g' f' : undoes g f → undoes g' f' → undoes (g ∘ g') (f' ∘ f).
Proof. intros H H' p Hp. destruct (H p Hp) as [Hf E]. destruct (H' (f p) Hf) as [Hf' E']. split; [done|]. simpl. by rewrite E'. Qed.

Definition exchange_x (n M : Z) (p : Z * Z) : Z * Z := let '(X, Y) := p in exchange n M X Y.
Definition exchange_y (n M : Z) (p : Z * Z) : Z * Z := let '(X, Y) := p in let '(Y, X) := exchange n M Y X in (X, Y).
Definition mix_xy (p : Z * Z) : Z * Z := let '(X, Y) := p in mix X Y.

Lemma exchange_x_undoes n M : 0 <= n <= 32 → 0 <= M < 2 ^ (32 - n) → undoes (exchange_x n M) (exchange_x n M).
Proof.
  intros Hn HM [X Y] [H1 H2]. split; [by apply exchange_u32|]. unfold exchange_x.
  destruct (exchange n M X Y) as [X' Y'] eqn:E. by eapply exchange_involutive.
Qed.

Lemma exchange_y_undoes n M : 0 <= n <= 32 → 0 <= M < 2 ^ (32 - n) → undoes (exchange_y n M) (exchange_y n M).
Proof.
  intros Hn HM [X Y] [H1 H2]. unfold exchange_y. destruct (exchange_u32 n M Y X Hn HM H2 H1) as [H1' H2'].
  destruct (exchange n M Y X) as [Y' X'] eqn:E. split; [done|]. by rewrite (exchange_involutive _ _ _ _ _ _ Hn HM E).
Qed.

Lemma mix_undoes : undoes mix_xy mix_xy.
Proof.
  intros [X Y] [H1 H2]. unfold mix_xy, mix. cbv zeta. set (T := (X .^ Y) .& 0xAAAAAAAA).
  assert (HT : 0 <= T < 2 ^ 32) by (by apply land_range_r). split; [by split; apply lxor_range|].
  assert (E : X .^ T .^ (Y .^ T) = X .^ Y) by (rewrite (Z.lxor_comm Y), Z.lxor_assoc, <- (Z.lxor_assoc T), Z.lxor_nilpotent, Z.lxor_0_l; done).
  rewrite E. fold T. by rewrite !lxor_cancel.
Qed.

Lemma rotl_u32 x : is_u32 x → is_u32 (rotl x).
Proof. intros _. unfold rotl. rewrite land_mask. apply u32_range. Qed.
Lemma rotr_u32 x : is_u32 x → is_u32 (rotr x).
Proof. intros _. unfold rotr. rewrite land_mask. apply u32_range. Qed.

Definition on_x (f : Z → Z) (p : Z * Z) : Z * Z := (f p.1, p.2).
Definition on_y (f : Z → Z) (p : Z * Z) : Z * Z := (p.1, f p.2).

Lemma on_x_undoes f g : (∀ x, is_u32 x → is_u32 (f x)) → (∀ x, is_u32 x → g (f x) = x) → undoes (on_x g) (on_x f).
Proof. intros Hf Hg [X Y] [H1 H2]. unfold on_x. cbn [fst snd] in *. split; [by split; [apply Hf|]|by rewrite Hg]. Qed.
Lemma on_y_undoes f g : (∀ x, is_u32 x → is_u32 (f x)) → (∀ x, is_u32 x → g (f x) = x) → undoes (on_y g) (on_y f).
Proof. intros Hf Hg [X Y] [H1 H2]. unfold on_y. cbn [fst snd] in *. split; [by split; [|apply Hf]|by rewrite Hg]. Qed.

(** the permutations as sequences of these steps *)
Definition initial : Z * Z → Z * Z :=
  on_x rotl ∘ (mix_xy ∘ (on_y rotl ∘ (exchange_y 8 0x00FF00FF ∘ (exchange_y 2 0x33333333 ∘ (exchange_x 16 0x0000FFFF ∘ exchange_x 4 0x0F0F0F0F))))).
Definition final : Z * Z → Z * Z :=
  exchange_x 4 0x0F0F0F0F ∘ (exchange_x 16 0x0000FFFF ∘ (exchange_y 2 0x33333333 ∘ (exchange_y 8 0x00FF00FF ∘ (on_y rotr ∘ (mix_xy ∘ on_x rotr))))).

Ltac next_step := cbv zeta; match goal with |- match ?e with _ => _ end = _ => destruct e as [? ?] end.

Lemma DES_IP_initial X Y : DES_IP X Y = initial (X, Y).
Proof. unfold DES_IP, initial, compose, exchange_x, exchange_y, mix_xy, on_x, on_y. do 5 (cbn [fst snd]; next_step). reflexivity. Qed.
Lemma DES_FP_final X Y : DES_FP X Y = final (X, Y).
Proof. unfold DES_FP, final, compose, exchange_x, exchange_y, mix_xy, on_x, on_y. do 5 (cbn [fst snd]; next_step). reflexivity. Qed.

(** composition to the left, as [undoes_compose] gives it *)
Lemma undoes_assoc (f g h k : Z * Z → Z * Z) : undoes ((f ∘ g) ∘ h) k → undoes (f ∘ (g ∘ h)) k.
Proof. done. Qed.

Create HintDb undo discriminated.
#[export] Hint Resolve undoes_compose exchange_x_undoes exchange_y_undoes mix_undoes on_x_undoes on_y_undoes : undo.
#[export] Hint Resolve rotl_u32 rotr_u32 rotr_rotl rotl_rotr : undo.
#[export] Hint Extern 1 (_ ≤ _ ≤ _) => lia : undo.
#[export] Hint Extern 1 (_ ≤ _ < _) => simpl; lia : undo.

Lemma final_initial : undoes final initial.
Proof. unfold final, initial. do 5 apply undoes_assoc. eauto 20 with undo. Qed.

Lemma initial_final : undoes initial final.
Proof. unfold final, initial. do 5 apply undoes_assoc. eauto 20 with undo. Qed.

(** ** The rounds *)

(** a round on the halves, and the halves exchanged *)
Fixpoint feistel (ks : list (Z * Z)) (X Y : Z) : Z * Z :=
  match ks with
  | [] => (X, Y)
  | (k0, k1) :: ks => feistel ks Y (X .^ round_value k0 k1 Y)
  end.

Definition flat_keys (ks : list (Z * Z)) : list Z := concat ((λ k, [k.1; k.2]) <$> ks).

Lemma feistel_app ks k0 k1 X Y X' Y' : feistel ks X Y = (X', Y') → feistel (ks ++ [(k0, k1)]) X Y = (Y', X' .^ round_value k0 k1 Y').
Proof.
  revert X Y. induction ks as [|[c0 c1] ks IH]; intros X Y; cbn [feistel app]; [by intros [= -> ->]|]. apply IH.
Qed.

Lemma feistel_reverse ks X Y X' Y' : feistel ks X Y = (X', Y') → feistel (reverse ks) Y' X' = (Y, X).
Proof.
  revert X' Y'. induction ks as [|[k0 k1] ks IH] using rev_ind; intros X' Y'; [by intros [= -> ->]|].
  destruct (feistel ks X Y) as [A B] eqn:E. rewrite (feistel_app _ _ _ _ _ _ _ E). intros [= <- <-].
  rewrite reverse_app, reverse_singleton. cbn [app feistel]. rewrite lxor_cancel. by apply IH.
Qed.

Definition is_table (SB : list Z) : bool := forallb (λ x, (0 <=? x) && (x <? 2 ^ 32)) SB.

Lemma sbox_u32 SB i : is_table SB = true → is_u32 (sbox SB i).
Proof.
  intros Ht. unfold is_table in Ht. rewrite forallb_forall in Ht. unfold sbox.
  destruct (nth_in_or_default (Z.to_nat (i .& 0x3F)) SB 0) as [Hin| ->]; [|by unfold is_u32]. apply Ht in Hin. unfold is_u32. lia.
Qed.

Lemma round_value_u32 k0 k1 X : is_u32 (round_value k0 k1 X).
Proof. unfold round_value, is_u32. repeat (apply lxor_range; [done| |]); by apply sbox_u32. Qed.

Lemma feistel_words ks X Y : words (X, Y) → words (feistel ks X Y).
Proof.
  revert X Y. induction ks as [|[k0 k1] ks IH]; intros X Y [HX HY]; [done|]. cbn [feistel]. apply IH.
  split; [done|]. apply lxor_range; [done..|]. apply round_value_u32.
Qed.

Lemma des_crypt_spec ks input : length ks = 16%nat →
  des_crypt (flat_keys ks) input =
    let '(X, Y) := DES_IP (GET_UINT32 input 0) (GET_UINT32 input 4) in
    let '(X, Y) := feistel ks X Y in
    let '(Y, X) := DES_FP Y X in Ok (PUT_UINT32 Y ++ PUT_UINT32 X).
Proof.
  intros Hk. unfold des_crypt. destruct (DES_IP _ _) as [X Y]. do 16 (destruct ks as [|[? ?] ks]; [done|]). destruct ks; [|done].
  reflexivity.
Qed.

(** ** Blocks *)

Lemma GET_UINT32_spec b i : Forall is_byte b →
  GET_UINT32 b i = nth i b 0 * 2 ^ 24 + nth (i + 1) b 0 * 2 ^ 16 + nth (i + 2) b 0 * 2 ^ 8 + nth (i + 3) b 0 ∧ is_u32 (GET_UINT32 b i).
Proof.
  intros Hb. assert (H := λ k, Forall_nth_byte b k Hb). pose proof (H i). pose proof (H (i + 1)%nat). pose proof (H (i + 2)%nat). pose proof (H (i + 3)%nat).
  unfold is_byte, is_u32, GET_UINT32 in *. rewrite !shl32_small, !Z.shiftl_mul_pow2 by lia.
  rewrite (lor_add (_ * 2 ^ 24) _ 24), (lor_add _ (_ * 2 ^ 8) 16), (lor_add _ _ 8) by (Z.to_euclidean_division_equations; lia). lia.
Qed.

Lemma PUT_UINT32_bytes n : length (PUT_UINT32 n) = 4%nat ∧ Forall is_byte (PUT_UINT32 n).
Proof. split; [done|]. unfold PUT_UINT32, is_byte. repeat constructor; apply Z.mod_pos_bound; lia. Qed.

Lemma GET_PUT X Y : is_u32 X → is_u32 Y →
  GET_UINT32 (PUT_UINT32 X ++ PUT_UINT32 Y) 0 = X ∧ GET_UINT32 (PUT_UINT32 X ++ PUT_UINT32 Y) 4 = Y.
Proof.
  intros HX HY. assert (Hb : Forall is_byte (PUT_UINT32 X ++ PUT_UINT32 Y)) by (apply Forall_app; split; apply PUT_UINT32_bytes).
  destruct (GET_UINT32_spec _ 0 Hb) as [-> _], (GET_UINT32_spec _ 4 Hb) as [-> _]. unfold PUT_UINT32, is_u32 in *.
  cbn [nth app Nat.add]. rewrite !Z.shiftr_div_pow2 by lia. split; Z.to_euclidean_division_equations; lia.
Qed.

Lemma PUT_value a b c d : is_byte a → is_byte b → is_byte c → is_byte d →
  PUT_UINT32 (a * 2 ^ 24 + b * 2 ^ 16 + c * 2 ^ 8 + d) = [a; b; c; d].
Proof.
  unfold is_byte, PUT_UINT32. intros Ha Hb Hc Hd. rewrite !Z.shiftr_div_pow2 by lia.
  replace (_ / 2 ^ 24) with a by (apply (Z.div_unique _ _ _ (b * 2 ^ 16 + c * 2 ^ 8 + d)); lia).
  replace (_ / 2 ^ 16) with (a * 256 + b) by (apply (Z.div_unique _ _ _ (c * 2 ^ 8 + d)); lia).
  replace (_ / 2 ^ 8) with (a * 2 ^ 16 + b * 256 + c) by (apply (Z.div_unique _ _ _ d); lia).
  f_equal; [rewrite Z.mod_small; lia|]. f_equal; [symmetry; apply (Z.mod_unique _ _ a); lia|].
  f_equal; [symmetry; apply (Z.mod_unique _ _ (a * 256 + b)); lia|].
  f_equal. symmetry. apply (Z.mod_unique _ _ (a * 2 ^ 16 + b * 256 + c)); lia.
Qed.

Lemma PUT_GET b : length b = 8%nat → Forall is_byte b → PUT_UINT32 (GET_UINT32 b 0) ++ PUT_UINT32 (GET_UINT32 b 4) = b.
Proof.
  intros Hl Hb. destruct (GET_UINT32_spec b 0 Hb) as [-> _], (GET_UINT32_spec b 4 Hb) as [-> _].
  rewrite !PUT_value by (by apply Forall_nth_byte). do 8 (destruct b as [|? b]; [done|]). by destruct b.
Qed.

Lemma block_inverse ks input : length ks = 16%nat → length input = 8%nat → Forall is_byte input →
  ∃ output, des_crypt (flat_keys ks) input = Ok output ∧ length output = 8%nat ∧ Forall is_byte output ∧
    des_crypt (flat_keys (reverse ks)) output = Ok input.
Proof.
  intros Hk Hl Hb. rewrite des_crypt_spec by done. rewrite DES_IP_initial.
  set (p := (GET_UINT32 input 0, GET_UINT32 input 4)). assert (Hp : words p) by (split; by apply GET_UINT32_spec).
  destruct (final_initial p Hp) as [Hi Ei]. destruct (initial p) as [X Y] eqn:E.
  destruct (feistel ks X Y) as [X' Y'] eqn:Ef. pose proof (feistel_words ks X Y Hi) as Hw. rewrite Ef in Hw.
  rewrite DES_FP_final. destruct (initial_final (Y', X')) as [Hf Eif]; [by destruct Hw|].
  destruct (final (Y', X')) as [A B] eqn:Efin. eexists. split; [done|]. destruct Hf as [HA HB]. cbn [fst snd] in HA, HB.
  split; [done|]. split; [apply Forall_app; split; apply PUT_UINT32_bytes|].
  rewrite des_crypt_spec by (by rewrite length_reverse). destruct (GET_PUT A B HA HB) as [-> ->].
  rewrite DES_IP_initial, Eif, (feistel_reverse _ _ _ _ _ Ef), DES_FP_final, Ei. unfold p. by rewrite PUT_GET.
Qed.

(** ** Subkeys *)

Lemma subkeys_pair X Y : ∃ k0 k1, subkeys X Y = [k0; k1].
Proof. unfold subkeys. eexists _, _. reflexivity. Qed.

Lemma ks_loop_pairs n i X Y : ∃ ks, ks_loop n i X Y = flat_keys ks ∧ length ks = n.
Proof.
  revert i X Y. induction n as [|n IH]; intros i X Y; [by exists []|]. cbn [ks_loop]. cbv zeta.
  set (X' := _ .& _). set (Y' := _ .& _). destruct (IH (i + 1) X' Y') as (ks & -> & Hl).
  destruct (subkeys_pair X' Y') as (k0 & k1 & ->). exists ((k0, k1) :: ks). split; [done|]. cbn [length]. lia.
Qed.

Lemma decode_keys_reverse ks : length ks = 16%nat → decode_keys (flat_keys ks) = flat_keys (reverse ks).
Proof. intros Hk. do 16 (destruct ks as [|[? ?] ks]; [done|]). destruct ks; [|done]. reflexivity. Qed.

Lemma main_ks_loop key : ∃ X Y, des_main_ks key = ks_loop 16 0 X Y.
Proof. unfold des_main_ks. cbv zeta. eexists _, _. reflexivity. Qed.

Lemma des_key_pairs key : length key = 8%nat → ∃ ks, des_key key = lret (flat_keys ks) ∧ length ks = 16%nat.
Proof.
  intros Hk. unfold des_key. rewrite Hk. change (negb (Z.of_nat 8 =? 8)) with false. cbv zeta iota.
  destruct (main_ks_loop key) as (X & Y & ->). destruct (ks_loop_pairs 16 0 X Y) as (ks & -> & Hl). by exists ks.
Qed.

(** ** Texts *)

Section blocks.
Context (ks : list (Z * Z)) (ks_length : length ks = 16%nat).

Definition enc_block (b : list Z) : list Z := match des_crypt (flat_keys ks) b with Ok o => o | Err _ => [] end.

Lemma enc_block_spec b : length b = 8%nat → Forall is_byte b →
  des_crypt (flat_keys ks) b = Ok (enc_block b) ∧ length (enc_block b) = 8%nat ∧ Forall is_byte (enc_block b) ∧
  des_crypt (flat_keys (reverse ks)) (enc_block b) = Ok b.
Proof. intros Hl Hb. destruct (block_inverse ks b ks_length Hl Hb) as (o & E & Ho & Hob & Hi). unfold enc_block. by rewrite E. Qed.

(** the first [n] blocks of a text *)
Fixpoint enc_blocks (n : nat) (text : list Z) : list Z :=
  match n with O => [] | S n => enc_block (take 8 text) ++ enc_blocks n (drop 8 text) end.

Lemma enc_blocks_length n text : (8 * n <= length text)%nat → Forall is_byte text →
  length (enc_blocks n text) = (8 * n)%nat ∧ Forall is_byte (enc_blocks n text).
Proof.
  revert text. induction n as [|n IH]; intros text Hl Hb; [done|]. cbn [enc_blocks].
  destruct (enc_block_spec (take 8 text)) as (_ & Ho & Hob & _); [rewrite length_take; lia|by apply Forall_take|].
  destruct (IH (drop 8 text)) as [Hr Hrb]; [rewrite length_drop; lia|by apply Forall_drop|].
  rewrite length_app, Ho, Hr. split; [lia|]. by apply Forall_app.
Qed.

Lemma enc_blocks_snoc n text : enc_blocks (S n) text = enc_blocks n text ++ enc_block (take 8 (drop (8 * n) text)).
Proof.
  revert text. induction n as [|n IH]; intros text; [cbn [enc_blocks app]; by rewrite app_nil_r|].
  replace (enc_blocks (S (S n)) text) with (enc_block (take 8 text) ++ enc_blocks (S n) (drop 8 text)) by done.
  rewrite IH. cbn [enc_blocks]. rewrite <- app_assoc, drop_drop. do 5 f_equal. lia.
Qed.

Lemma enc_blocks_take n text : (8 * n <= length text)%nat → enc_blocks n text = enc_blocks n (take (8 * n) text).
Proof.
  revert text. induction n as [|n IH]; intros text Hl; [done|]. cbn [enc_blocks]. rewrite take_take, Nat.min_l by lia. f_equal.
  rewrite IH by (rewrite length_drop; lia). rewrite (IH (drop 8 (take _ _))) by (rewrite length_drop, length_take; lia).
  f_equal. rewrite !skipn_firstn_comm, take_take. f_equal. lia.
Qed.

(** the loop of [l_des_encode] and of [l_des_decode] *)
Lemma blocks_loop text n k hi : Forall is_byte text → (8 * n <= length text)%nat → Z.of_nat (length text) <= INT_MAX →
  8 * (Z.of_nat n - 1) < hi <= 8 * Z.of_nat n → (8 * n <= k)%nat →
  int_loop (E := crypt_error) (length text) 0 hi 8 (λ i buffer, lift (crypt_block (flat_keys ks) text i buffer)) (filled [] k) =
    lret (8 * Z.of_nat n, filled (enc_blocks n text) (k - 8 * n)).
Proof.
  intros Hb Hl Hmax Hhi Hk. run_loop (λ m (b : buffer), b = filled (enc_blocks m text) (k - 8 * m)) n b Hb'; try lia.
  - by rewrite Nat.sub_0_r.
  - intros m b Hm ->. unfold crypt_block, slice. rewrite Z.add_0_l. replace (Z.to_nat (Z.of_nat m * 8)) with (8 * m)%nat by lia.
    rewrite decide_True by lia. destruct (enc_block_spec (take 8 (drop (8 * m) text))) as (-> & Ho & _);
      [rewrite length_take, length_drop; lia|by apply Forall_take, Forall_drop|].
    destruct (enc_blocks_length m text) as [Hlen _]; [lia|done|]. rewrite bind_Ok.
    replace (Z.of_nat m * 8) with (Z.of_nat (length (enc_blocks m text))) by lia. rewrite copy_spec by lia.
    eexists. split; [done|]. rewrite enc_blocks_snoc, Ho. do 2 f_equal. lia.
  - subst b. do 2 f_equal. lia.
Qed.
End blocks.

(** decrypting the blocks that were encrypted *)
Lemma enc_blocks_inverse ks n text : length ks = 16%nat → length text = (8 * n)%nat → Forall is_byte text →
  enc_blocks (reverse ks) n (enc_blocks ks n text) = text.
Proof.
  intros Hk. revert text. induction n as [|n IH]; intros text Hl Hb; [by destruct text|]. cbn [enc_blocks].
  destruct (enc_block_spec ks Hk (take 8 text)) as (_ & Ho & Hob & Hi); [rewrite length_take; lia|by apply Forall_take|].
  rewrite take_app_length', drop_app_length' by lia. unfold enc_block at 1. rewrite Hi.
  rewrite IH by (rewrite ?length_drop; lia || by apply Forall_drop). apply take_drop.
Qed.

(** ** Padding: lemmas *)

(** what is added to the [r] bytes of the last block *)
Definition padding_of (mode : Z) (r : nat) : list Z :=
  if mode =? PADDING_MODE_ISO7816_4 then 0x80 :: replicate (7 - r) 0 else replicate (8 - r) (8 - Z.of_nat r).

Lemma padding_of_bytes mode r : (r < 8)%nat → length (padding_of mode r) = (8 - r)%nat ∧ Forall is_byte (padding_of mode r).
Proof.
  intros Hr. unfold padding_of, is_byte. destruct (mode =? _); cbn [length]; rewrite length_replicate; (split; [lia|]).
  - constructor; [lia|]. apply Forall_replicate. lia.
  - apply Forall_replicate. lia.
Qed.

Lemma check_padding_mode_ok mode : mode = PADDING_MODE_ISO7816_4 ∨ mode = PADDING_MODE_PKCS7 → check_padding_mode mode = lret tt.
Proof. by intros [-> | ->]. Qed.

Lemma add_padding_spec mode src : mode = PADDING_MODE_ISO7816_4 ∨ mode = PADDING_MODE_PKCS7 → (length src < 8)%nat →
  add_padding (malloc_buffer 8) src (Z.of_nat (length src)) mode = lret (filled (src ++ padding_of mode (length src)) 0).
Proof.
  intros Hm Hl. unfold add_padding. rewrite check_padding_mode_ok, lbind_lret by done. rewrite (proj2 (Z.leb_gt _ _)) by lia.
  rewrite Nat2Z.id, firstn_all, copy_malloc, lift_Ok, lbind_Ok by lia. change (Z.to_nat 8) with 8%nat.
  unfold padding_of. destruct Hm as [-> | ->]; cbn [Z.eqb PADDING_MODE_ISO7816_4 PADDING_MODE_PKCS7].
  - unfold padding_add_iso7816_4. rewrite buffer_set_spec, bind_Ok by lia.
    replace (Z.of_nat (length src) + 1) with (Z.of_nat (length (src ++ [0x80]))) by (rewrite length_app; simpl; lia).
    replace (Z.to_nat (7 - Z.of_nat (length src))) with (7 - length src)%nat by lia.
    rewrite copy_spec by (rewrite length_replicate; lia). rewrite length_replicate, <- app_assoc.
    replace (8 - length src - 1 - (7 - length src))%nat with 0%nat by lia. done.
  - unfold padding_add_pkcs7. replace (Z.to_nat (8 - Z.of_nat (length src))) with (8 - length src)%nat by lia.
    rewrite Z.mod_small by lia. rewrite copy_spec by (rewrite length_replicate; lia). rewrite length_replicate, Nat.sub_diag. done.
Qed.

Lemma iso7816_4_loop_spec z l rest k n p : (z < n)%nat →
  iso7816_4_loop n (filled (l ++ 0x80 :: replicate z 0 ++ rest) k) (Z.of_nat (length l + z)) p = Ok (p + Z.of_nat z).
Proof.
  revert rest n p. induction z as [|z IH]; intros rest n p Hz; (destruct n as [|n]; [lia|]); cbn [iso7816_4_loop].
  - rewrite (buffer_byte_spec _ _ _ 0x80), bind_Ok by (lia || (rewrite Nat2Z.id, Nat.add_0_r; by apply list_lookup_middle)).
    cbn [Z.eqb Pos.eqb]. by rewrite Z.add_0_r.
  - replace (l ++ 0x80 :: replicate (S z) 0 ++ rest) with (l ++ 0x80 :: replicate z 0 ++ 0 :: rest).
    2: { rewrite replicate_S_end, <- app_assoc. done. }
    rewrite (buffer_byte_spec _ _ _ 0), bind_Ok.
    + cbn [Z.eqb]. replace (Z.of_nat (length l + S z) - 1) with (Z.of_nat (length l + z)) by lia. rewrite IH by lia. f_equal. lia.
    + lia.
    + rewrite Nat2Z.id, lookup_app_r by lia. replace (length l + S z - length l)%nat with (S z) by lia. cbn [lookup list_lookup].
      apply list_lookup_middle. by rewrite length_replicate.
Qed.

(** the loop reads bytes that are all [p] down to the index [last - n] *)
Lemma pkcs7_loop_spec n buf last p : (∀ j, last - Z.of_nat n <= j < last → buffer_byte buf j = Ok p) → pkcs7_loop n buf last p = Ok p.
Proof.
  revert last. induction n as [|n IH]; intros last Hb; [done|]. cbn [pkcs7_loop]. rewrite (Hb (last - 1)), bind_Ok by lia.
  rewrite Z.eqb_refl. apply IH. intros j Hj. apply Hb. lia.
Qed.

Lemma lookup_replicate_tail (l : list Z) n p i : (length l <= i < length l + n)%nat → (l ++ replicate n p) !! i = Some p.
Proof. intros Hi. rewrite lookup_app_r by lia. apply lookup_replicate_2. lia. Qed.

Lemma remove_padding_spec mode text r k : mode = PADDING_MODE_ISO7816_4 ∨ mode = PADDING_MODE_PKCS7 → (r < 8)%nat →
  remove_padding (filled (text ++ padding_of mode r) k) (Z.of_nat (length text + (8 - r)) - 1) mode = lret (8 - Z.of_nat r).
Proof.
  intros Hm Hr. unfold remove_padding. rewrite check_padding_mode_ok, lbind_lret by done.
  unfold padding_of. destruct Hm as [-> | ->]; cbn [Z.eqb PADDING_MODE_ISO7816_4 PADDING_MODE_PKCS7].
  - unfold padding_remove_iso7816_4. rewrite <- (app_nil_r (replicate (7 - r) 0)).
    replace (Z.of_nat (length text + (8 - r)) - 1) with (Z.of_nat (length text + (7 - r))) by lia.
    rewrite iso7816_4_loop_spec by lia. unfold lret, lift. do 2 f_equal. lia.
  - unfold padding_remove_pkcs7.
    assert (Hb : ∀ j, Z.of_nat (length text) <= j < Z.of_nat (length text + (8 - r)) →
      buffer_byte (filled (text ++ replicate (8 - r) (8 - Z.of_nat r)) k) j = Ok (8 - Z.of_nat r)).
    { intros j Hj. apply buffer_byte_spec; [lia|]. apply lookup_replicate_tail. lia. }
    rewrite Hb, bind_Ok by lia. rewrite pkcs7_loop_spec; [done|]. intros j Hj. apply Hb. lia.
Qed.

(** ** Encoding and decoding *)

Lemma des_encode_spec ks key text mode : des_key key = lret (flat_keys ks) → length ks = 16%nat → Forall is_byte text →
  Z.of_nat (length text) + 8 <= INT_MAX → mode = PADDING_MODE_ISO7816_4 ∨ mode = PADDING_MODE_PKCS7 →
  l_des_encode key text mode =
    lret (enc_blocks ks (S (length text / 8)) (text ++ padding_of mode (length text mod 8))).
Proof.
  intros Hkey Hk Hb Hmax Hm. unfold l_des_encode. rewrite Hkey, lbind_lret. set (n := (length text / 8)%nat). set (r := (length text mod 8)%nat).
  assert (Hl : length text = (8 * n + r)%nat) by (unfold n, r; apply Nat.div_mod_eq). assert (Hr : (r < 8)%nat) by (apply Nat.mod_upper_bound; lia).
  unfold INT_MAX in Hmax. rewrite (s32_small (Z.of_nat (length text))) by lia.
  set (chunksz := Z.land _ _). assert (Hc : chunksz = Z.of_nat (8 * S n)).
  { unfold chunksz. rewrite <- Z.ldiff_land. change 7 with (Z.ones 3). rewrite Z.ldiff_ones_r, Z.shiftr_div_pow2, Z.shiftl_mul_pow2 by lia.
    change (2 ^ 3) with 8. rewrite Hl. Z.to_euclidean_division_equations; lia. }
  destruct (chunk_filled (SMALL_CHUNK <? chunksz) chunksz chunksz) as [k ->]; [unfold SMALL_CHUNK; lia|lia..|]. rewrite Hc, Nat2Z.id.
  rewrite (blocks_loop ks Hk text n) by (done || (unfold INT_MAX; lia) || lia). rewrite lbind_lret. cbv iota beta.
  replace (Z.to_nat (8 * Z.of_nat n)) with (8 * n)%nat by lia. set (rest := drop (8 * n) text).
  assert (Hrest : length rest = r) by (unfold rest; rewrite length_drop; lia).
  replace (s32 (Z.of_nat (length text) - 8 * Z.of_nat n)) with (Z.of_nat (length rest)) by (rewrite s32_small; lia).
  rewrite add_padding_spec, lbind_lret by (done || lia). rewrite Hrest. destruct (padding_of_bytes mode r Hr) as [Hpl Hpb].
  rewrite pushlstring_ok, lift_Ok, lbind_Ok by (rewrite length_app; lia).
  destruct (enc_block_spec ks Hk (rest ++ padding_of mode r)) as (-> & Ho & _);
    [rewrite length_app; lia|apply Forall_app; split; [by apply Forall_drop|done]|]. rewrite lift_Ok, lbind_Ok.
  destruct (enc_blocks_length ks Hk n text) as [Hel _]; [lia|done|].
  replace (8 * Z.of_nat n) with (Z.of_nat (length (enc_blocks ks n text))) by lia. rewrite copy_spec, lift_Ok, lbind_Ok by lia.
  rewrite pushlstring_ok by (rewrite length_app; lia). unfold lret, lift. do 2 f_equal. rewrite enc_blocks_snoc by done. f_equal.
  - rewrite (enc_blocks_take ks Hk n text), (enc_blocks_take ks Hk n (text ++ _)) by (rewrite ?length_app; lia). f_equal. by rewrite take_app_le by lia.
  - f_equal. rewrite drop_app_le by lia. fold rest. symmetry. apply firstn_all2. rewrite length_app. lia.
Qed.

Lemma des_decode_blocks ks key text n mode : des_key key = lret (flat_keys ks) → length ks = 16%nat → Forall is_byte text →
  length text = (8 * S n)%nat → Z.of_nat (length text) <= INT_MAX →
  ∃ k, l_des_decode key (enc_blocks ks (S n) text) mode =
    (padding <~ remove_padding (filled text k) (Z.of_nat (length text) - 1) mode;;
     if (padding <=? 0) || (8 <? padding) then luaL_error InvalidDesText
     else lift (pushlstring (filled text k) (Z.of_nat (length text) - padding))).
Proof.
  intros Hkey Hk Hb Hl Hmax. unfold l_des_decode. rewrite Hkey, lbind_lret, decode_keys_reverse by done.
  destruct (enc_blocks_length ks Hk (S n) text) as [Hel Heb]; [lia|done|]. rewrite Hel, <- Hl. set (sz := Z.of_nat (length text)) in *.
  replace (sz .& 7) with 0 by (change 7 with (Z.ones 3); rewrite Z.land_ones by lia; unfold sz; rewrite Hl, Nat2Z.inj_mul, Z.mul_comm; symmetry; by apply Z.mod_mul).
  rewrite (proj2 (Z.eqb_neq sz 0)) by lia. cbn [Z.eqb negb orb].
  destruct (chunk_filled (SMALL_CHUNK <? sz) sz sz) as [k ->]; [unfold SMALL_CHUNK; lia|lia..|].
  exists (Z.to_nat sz + k - 8 * S n)%nat.
  pose proof (blocks_loop (reverse ks) ltac:(by rewrite length_reverse) (enc_blocks ks (S n) text) (S n) (Z.to_nat sz + k) sz Heb) as Hloop.
  rewrite Hel, <- Hl in Hloop. rewrite Hloop by lia. rewrite lbind_lret. cbv iota beta. by rewrite enc_blocks_inverse, Hl.
Qed.

(** C31: [l_des_decode] recovers every text from what [l_des_encode] made of it, for every key
    of eight bytes and both padding modes; the cipher text is the text rounded up to the next
    multiple of eight bytes, a whole block longer when the text fills its blocks. *)
Theorem des_roundtrip key text mode : length key = 8%nat → Forall is_byte text → Z.of_nat (length text) + 8 <= INT_MAX →
  mode = PADDING_MODE_ISO7816_4 ∨ mode = PADDING_MODE_PKCS7 →
  ∃ c, l_des_encode key text mode = lret c ∧ length c = (8 * (length text / 8 + 1))%nat ∧ l_des_decode key c mode = lret text.
Proof.
  intros Hkl Hb Hmax Hm. destruct (des_key_pairs key Hkl) as (ks & Hkey & Hk).
  eexists. split; [by apply des_encode_spec|]. set (n := (length text / 8)%nat). set (r := (length text mod 8)%nat).
  assert (Hl : length text = (8 * n + r)%nat) by (unfold n, r; apply Nat.div_mod_eq). assert (Hr : (r < 8)%nat) by (apply Nat.mod_upper_bound; lia).
  destruct (padding_of_bytes mode r Hr) as [Hpl Hpb]. assert (Hlen : length (text ++ padding_of mode r) = (8 * S n)%nat) by (rewrite length_app; lia).
  assert (Hbytes : Forall is_byte (text ++ padding_of mode r)) by (by apply Forall_app).
  split; [destruct (enc_blocks_length ks Hk (S n) (text ++ padding_of mode r)); [lia|done|lia]|].
  destruct (des_decode_blocks ks key (text ++ padding_of mode r) n mode Hkey Hk Hbytes Hlen) as [k ->]; [lia|].
  rewrite length_app, Hpl, remove_padding_spec, lbind_lret by done. rewrite (proj2 (Z.leb_gt _ _)), (proj2 (Z.ltb_ge _ _)) by lia. cbn [orb].
  replace (Z.of_nat (length text + (8 - r)) - (8 - Z.of_nat r)) with (Z.of_nat (length text)) by lia.
  unfold pushlstring. rewrite (proj2 (Z.ltb_ge _ _)) by (rewrite !length_app, length_fmap, length_app, length_replicate; lia).
  rewrite Nat2Z.id, fmap_app, <- app_assoc, take_app_length' by (by rewrite length_fmap). by rewrite mapM_id_Some.
Qed.

Lemma des_roundtrip_witness :
  l_des_encode [1; 35; 69; 103; 137; 171; 205; 239] [104; 101; 108; 108; 111] PADDING_MODE_PKCS7 = lret [212; 7; 71; 195; 28; 18; 61; 38] ∧
  ∃ c, l_des_encode [1; 35; 69; 103; 137; 171; 205; 239] [104; 101; 108; 108; 111] PADDING_MODE_PKCS7 = lret c ∧ length c = 8%nat ∧
    l_des_decode [1; 35; 69; 103; 137; 171; 205; 239] c PADDING_MODE_PKCS7 = lret [104; 101; 108; 108; 111].
Proof.
  split; [vm_compute; reflexivity|].
  apply (des_roundtrip [1; 35; 69; 103; 137; 171; 205; 239] [104; 101; 108; 108; 111] PADDING_MODE_PKCS7); [done|by repeat (constructor; [by vm_compute|])|by vm_compute|by right].
Defined.

(** With the padding mode pkcs7, [l_des_decode] can be made to read in front of its buffer:
    for every key there is a text of eight bytes whose decryption is a byte above 8 eight
    times, and [padding_remove_pkcs7] follows that byte past the first one of the buffer. *)
Theorem des_decode_overreads key v : length key = 8%nat → 8 < v < 256 →
  ∃ text, length text = 8%nat ∧ l_des_decode key text PADDING_MODE_PKCS7 = Err OutOfBounds.
Proof.
  intros Hkl Hv. destruct (des_key_pairs key Hkl) as (ks & Hkey & Hk).
  assert (Hb : Forall is_byte (replicate 8 v)) by (apply Forall_replicate; unfold is_byte; lia).
  exists (enc_blocks ks 1 (replicate 8 v)). split; [by apply enc_blocks_length|].
  destruct (des_decode_blocks ks key (replicate 8 v) 0 PADDING_MODE_PKCS7 Hkey Hk Hb) as [k ->]; [done..|].
  unfold remove_padding. rewrite check_padding_mode_ok, lbind_lret by (by right). cbn [Z.eqb PADDING_MODE_ISO7816_4 PADDING_MODE_PKCS7].
  unfold padding_remove_pkcs7. rewrite length_replicate. change (Z.of_nat 8 - 1) with 7.
  assert (Hr : ∀ j, 0 <= j < 8 → buffer_byte (filled (replicate 8 v) k) j = Ok v) by (intros j Hj; apply buffer_byte_spec; [lia|]; apply lookup_replicate_2; lia).
  rewrite Hr, bind_Ok by lia. replace (Z.to_nat (v - 1)) with (8 + Z.to_nat (v - 9))%nat by lia.
  cbn [Nat.add pkcs7_loop]. do 7 (rewrite Hr, bind_Ok, Z.eqb_refl by lia; cbn [negb]). done.
Qed.

Lemma des_decode_overreads_witness :
  ∃ text, length text = 8%nat ∧ l_des_decode [1; 35; 69; 103; 137; 171; 205; 239] text PADDING_MODE_PKCS7 = Err OutOfBounds.
Proof. apply (des_decode_overreads [1; 35; 69; 103; 137; 171; 205; 239] 9); [done|lia]. Defined.
