(* ===== verification/CryptHash.v ===== *)
(** * The hashes of skynet.crypt (luaclib-src/lua-crypt.cpp)

    [Hash] makes eight bytes of a string; [hmac] and [hmac_md5] combine two 64-bit numbers with
    the compression function of MD5. [md5] below is the algorithm of RFC 1321, against which
    [l_hmac64_md5] is checked. *)
From S2P Require Import Prelude Bytes LuaCall CryptBase.
Open Scope list_scope.
Open Scope Z_scope.
Open Scope word_scope.

(** ** The model *)

(** [djb_hash] and [js_hash] after one character *)
Definition hash_char (h : Z * Z) (c : Z) : Z * Z :=
  let '(djb_hash, js_hash) := h in
  (u32 (djb_hash + u32 (djb_hash .<< 5 + c)), js_hash .^ u32 (u32 (js_hash .<< 5 + c) + js_hash .>> 2)).

(** the loop counts to [(int)sz]; the eight bytes of [key] *)
Definition Hash (str : list Z) : list Z :=
  let sz := s32 (Z.of_nat (length str)) in
  pushqword (foldl hash_char (5381, 1315423911) (take (Z.to_nat sz) str)).

Definition l_hash_key (key : list Z) : crypt (list Z) := lret (Hash key).

(** [random] gives the eight numbers of its calls *)
Definition l_random_key (random : list Z) : crypt (list Z) :=
  let tmp := (λ r, r .& 0xff) <$> take 8 random in
  let x := foldl Z.lxor 0 tmp in
  lret (match tmp with
        | t :: rest => if x =? 0 then t .| 1 :: rest else tmp
        | [] => tmp
        end).

Definition k_table : list Z :=
  [0xd76aa478; 0xe8c7b756; 0x242070db; 0xc1bdceee; 0xf57c0faf; 0x4787c62a; 0xa8304613; 0xfd469501;
   0x698098d8; 0x8b44f7af; 0xffff5bb1; 0x895cd7be; 0x6b901122; 0xfd987193; 0xa679438e; 0x49b40821;
   0xf61e2562; 0xc040b340; 0x265e5a51; 0xe9b6c7aa; 0xd62f105d; 0x02441453; 0xd8a1e681; 0xe7d3fbc8;
   0x21e1cde6; 0xc33707d6; 0xf4d50d87; 0x455a14ed; 0xa9e3e905; 0xfcefa3f8; 0x676f02d9; 0x8d2a4c8a;
   0xfffa3942; 0x8771f681; 0x6d9d6122; 0xfde5380c; 0xa4beea44; 0x4bdecfa9; 0xf6bb4b60; 0xbebfbc70;
   0x289b7ec6; 0xeaa127fa; 0xd4ef3085; 0x04881d05; 0xd9d4d039; 0xe6db99e5; 0x1fa27cf8; 0xc4ac5665;
   0xf4292244; 0x432aff97; 0xab9423a7; 0xfc93a039; 0x655b59c3; 0x8f0ccc92; 0xffeff47d; 0x85845dd1;
   0x6fa87e4f; 0xfe2ce6e0; 0xa3014314; 0x4e0811a1; 0xf7537e82; 0xbd3af235; 0x2ad7d2bb; 0xeb86d391].
Definition r_table : list Z :=
  [7; 12; 17; 22; 7; 12; 17; 22; 7; 12; 17; 22; 7; 12; 17; 22;
   5; 9; 14; 20; 5; 9; 14; 20; 5; 9; 14; 20; 5; 9; 14; 20;
   4; 11; 16; 23; 4; 11; 16; 23; 4; 11; 16; 23; 4; 11; 16; 23;
   6; 10; 15; 21; 6; 10; 15; 21; 6; 10; 15; 21; 6; 10; 15; 21].

(** one round of the loop: [f] and [g], then the four words *)
Definition md5_round (w : list Z) (i : nat) (s : Z * Z * Z * Z) : Z * Z * Z * Z :=
  let '(a, b, c, d) := s in
  let '(f, g) :=
    if (i <? 16)%nat then ((b .& c) .| (not32 b .& d), i)
    else if (i <? 32)%nat then ((d .& b) .| (not32 d .& c), ((5 * i + 1) mod 16)%nat)
    else if (i <? 48)%nat then (b .^ c .^ d, ((3 * i + 5) mod 16)%nat)
    else (c .^ (b .| not32 d), ((7 * i) mod 16)%nat) in
  let temp := d in
  let d := c in
  let c := b in
  let b := u32 (b + rol32 (u32 (a + f + nth i k_table 0 + nth g w 0)) (nth i r_table 0)) in
  let a := temp in
  (a, b, c, d).

Definition digest_md5 (w : list Z) : Z * Z * Z * Z :=
  foldl (λ s i, md5_round w i s) (0x67452301, 0xefcdab89, 0x98badcfe, 0x10325476) (seq 0 64).

Definition hmac (x y : Z * Z) : Z * Z :=
  let w := concat (replicate 4 [x.2; x.1; y.2; y.1]) in
  let '(r0, r1, r2, r3) := digest_md5 w in
  (r2 .^ r3, r0 .^ r1).

Definition hmac_md5 (x y : Z * Z) : Z * Z :=
  let w := concat (replicate 3 [x.1; x.2; y.1; y.2]) ++ [0x80; 0; 384; 0] in
  let '(r0, r1, r2, r3) := digest_md5 w in
  (u32 (r0 + 0x67452301) .^ u32 (r2 + 0x98badcfe), u32 (r1 + 0xefcdab89) .^ u32 (r3 + 0x10325476)).

Definition l_hmac64 (x y : list Z) : crypt (list Z) :=
  let~ (x, y) := read64 x y in lret (pushqword (hmac x y)).

Definition l_hmac64_md5 (x y : list Z) : crypt (list Z) :=
  let~ (x, y) := read64 x y in lret (pushqword (hmac_md5 x y)).

Definition l_hmac_hash (x text : list Z) : crypt (list Z) :=
  key <~ check_uint64 x InvalidUint64Key;;
  let h := Hash text in
  let htext := (read_le32 h 0, read_le32 h 4) in
  lret (pushqword (hmac htext key)).

(** ** MD5 as RFC 1321 defines it *)

(** the functions of the four rounds, the words they take and the shifts *)
Definition md5_F (x y z : Z) : Z := (x .& y) .| (not32 x .& z).
Definition md5_G (x y z : Z) : Z := (x .& z) .| (y .& not32 z).
Definition md5_H (x y z : Z) : Z := x .^ y .^ z.
Definition md5_I (x y z : Z) : Z := y .^ (x .| not32 z).
Definition md5_rounds : list ((Z → Z → Z → Z) * list nat * list Z) :=
  [(md5_F, [0; 1; 2; 3; 4; 5; 6; 7; 8; 9; 10; 11; 12; 13; 14; 15]%nat, [7; 12; 17; 22]);
   (md5_G, [1; 6; 11; 0; 5; 10; 15; 4; 9; 14; 3; 8; 13; 2; 7; 12]%nat, [5; 9; 14; 20]);
   (md5_H, [5; 8; 11; 14; 1; 4; 7; 10; 13; 0; 3; 6; 9; 12; 15; 2]%nat, [4; 11; 16; 23]);
   (md5_I, [0; 7; 14; 5; 12; 3; 10; 1; 8; 15; 6; 13; 4; 11; 2; 9]%nat, [6; 10; 15; 21])].

(** the operations [abcd k s i], [dabc k s i], [cdab k s i], ... of a round on its registers *)
Definition md5_step (X : list Z) (f : Z → Z → Z → Z) (k : nat) (s T : Z) (r : Z * Z * Z * Z) : Z * Z * Z * Z :=
  let '(a, b, c, d) := r in (d, u32 (b + rol32 (u32 (a + f b c d + nth k X 0 + T)) s), b, c).

Definition md5_steps : list ((Z → Z → Z → Z) * nat * Z * Z) :=
  concat (imap (λ j '(f, ks, ss), imap (λ n k, (f, k, nth (n mod 4) ss 0, nth (16 * j + n) k_table 0)) ks) md5_rounds).

Definition md5_compress (h : Z * Z * Z * Z) (X : list Z) : Z * Z * Z * Z :=
  let '(a, b, c, d) := h in
  let '(a', b', c', d') := foldl (λ r '(f, k, s, T), md5_step X f k s T r) h md5_steps in
  (u32 (a + a'), u32 (b + b'), u32 (c + c'), u32 (d + d')).

(** the padded message and its blocks *)
Definition md5_pad (text : list Z) : list Z :=
  let len := Z.of_nat (length text) in
  text ++ 0x80 :: replicate (Z.to_nat ((55 - len) mod 64)) 0 ++ le_bytes 8 (8 * len).
Fixpoint md5_blocks (n : nat) (h : Z * Z * Z * Z) (l : list Z) : Z * Z * Z * Z :=
  match n with O => h | S n => md5_blocks n (md5_compress h (le_words 16 (take 64 l))) (drop 64 l) end.
Definition md5 (text : list Z) : list Z :=
  let l := md5_pad text in
  let '(a, b, c, d) := md5_blocks (length l / 64) (0x67452301, 0xefcdab89, 0x98badcfe, 0x10325476) l in
  le_bytes 4 a ++ le_bytes 4 b ++ le_bytes 4 c ++ le_bytes 4 d.

(** the test suite of the RFC: the empty string and "abc" *)
Example md5_empty : md5 [] = [0xd4; 0x1d; 0x8c; 0xd9; 0x8f; 0x00; 0xb2; 0x04; 0xe9; 0x80; 0x09; 0x98; 0xec; 0xf8; 0x42; 0x7e].
Proof. vm_compute. reflexivity. Qed.
Example md5_abc : md5 [97; 98; 99] = [0x90; 0x01; 0x50; 0x98; 0x3c; 0xd2; 0x4f; 0xb0; 0xd6; 0x96; 0x3f; 0x7d; 0x28; 0xe1; 0x7f; 0x72].
Proof. vm_compute. reflexivity. Qed.

(** ** [digest_md5] is the compression function before its final additions *)

(** the parameters of round [i] *)
Definition round_params (i : nat) : (Z → Z → Z → Z) * nat * Z * Z :=
  (if (i <? 16)%nat then md5_F else if (i <? 32)%nat then md5_G else if (i <? 48)%nat then md5_H else md5_I,
   if (i <? 16)%nat then i else if (i <? 32)%nat then ((5 * i + 1) mod 16)%nat else if (i <? 48)%nat then ((3 * i + 5) mod 16)%nat else ((7 * i) mod 16)%nat,
   nth i r_table 0, nth i k_table 0).

Lemma md5_steps_params : md5_steps = round_params <$> seq 0 64.
Proof. vm_compute. reflexivity. Qed.

Lemma md5_round_step w i s : md5_round w i s = let '(f, k, sh, T) := round_params i in md5_step w f k sh T s.
Proof.
  destruct s as [[[a b] c] d]. unfold md5_round, round_params, md5_step, md5_F, md5_G, md5_H, md5_I.
  destruct (i <? 16)%nat; [|destruct (i <? 32)%nat; [rewrite (Z.land_comm d b), (Z.land_comm (not32 d) c)|destruct (i <? 48)%nat]];
    rewrite <- (Z.add_assoc _ (nth i k_table 0)), (Z.add_comm (nth i k_table 0)), Z.add_assoc; reflexivity.
Qed.

Lemma digest_md5_steps w : digest_md5 w = foldl (λ r '(f, k, s, T), md5_step w f k s T r) (0x67452301, 0xefcdab89, 0x98badcfe, 0x10325476) md5_steps.
Proof.
  rewrite md5_steps_params. unfold digest_md5. generalize (0x67452301, 0xefcdab89, 0x98badcfe, 0x10325476). generalize (seq 0 64).
  intros l. induction l as [|i l IH]; intros s; [done|]. cbn [foldl fmap list_fmap]. rewrite IH, md5_round_step. done.
Qed.

(** ** Bytes of words *)

Lemma pushqword_spec x : pushqword x = le_bytes 4 x.1 ++ le_bytes 4 x.2.
Proof.
  destruct x as [lo hi]. unfold pushqword. rewrite !byte_at_spec by lia. cbn [le_bytes app fst snd].
  rewrite !Z.div_div by lia. by rewrite !Z.pow_0_r, !Z.div_1_r.
Qed.

(** the words of [(x .. y):rep(3)] and its padding *)
Lemma rep3_words x y : length x = 8%nat → length y = 8%nat → Forall is_byte x → Forall is_byte y →
  let l := md5_pad (concat (replicate 3 (x ++ y))) in length l = 64%nat ∧
  le_words 16 l = concat (replicate 3 [read_le32 x 0; read_le32 x 4; read_le32 y 0; read_le32 y 4]) ++ [0x80; 0; 384; 0].
Proof.
  intros Hlx Hly Hx Hy. cbv zeta. rewrite !read_le32_spec by (done || lia).
  do 8 (destruct x as [|? x]; [done|]). destruct x; [|done]. do 8 (destruct y as [|? y]; [done|]). destruct y; [|done]. done.
Qed.

(** [l_hmac64_md5(x, y)] is what its comment says: the xor of the two halves of the MD5
    digest of [(x .. y):rep(3)]. *)
Theorem hmac64_md5_is_md5 x y : length x = 8%nat → length y = 8%nat → Forall is_byte x → Forall is_byte y →
  l_hmac64_md5 x y = lret (let m := md5 (concat (replicate 3 (x ++ y))) in zip_with Z.lxor (take 8 m) (drop 8 m)).
Proof.
  intros Hlx Hly Hx Hy. destruct (rep3_words x y Hlx Hly Hx Hy) as [Hlen Hw].
  unfold l_hmac64_md5, read64, check_uint64. rewrite Hlx, Hly. change (negb (Z.of_nat 8 =? 8)) with false. cbv iota. rewrite !lbind_lret.
  unfold lret. do 2 f_equal. rewrite pushqword_spec. unfold md5. rewrite Hlen. change (64 / 64)%nat with 1%nat. cbn [md5_blocks].
  rewrite (take_ge (md5_pad _) 64) by lia. rewrite Hw. unfold hmac_md5, md5_compress. cbn [fst snd]. rewrite digest_md5_steps.
  destruct (foldl _ _ md5_steps) as [[[a b] c] d]. cbn [fst snd].
  rewrite !le_bytes_lxor, (Z.add_comm a), (Z.add_comm b), (Z.add_comm c), (Z.add_comm d). reflexivity.
Qed.

Lemma hmac64_md5_is_md5_witness :
  l_hmac64_md5 [1; 2; 3; 4; 5; 6; 7; 8] [9; 10; 11; 12; 13; 14; 15; 16] = lret [51; 198; 132; 18; 56; 227; 255; 210] ∧
  l_hmac64_md5 [1; 2; 3; 4; 5; 6; 7; 8] [9; 10; 11; 12; 13; 14; 15; 16] =
    lret (let m := md5 (concat (replicate 3 [1; 2; 3; 4; 5; 6; 7; 8; 9; 10; 11; 12; 13; 14; 15; 16])) in zip_with Z.lxor (take 8 m) (drop 8 m)).
Proof.
  split; [vm_compute; reflexivity|].
  apply (hmac64_md5_is_md5 [1; 2; 3; 4; 5; 6; 7; 8] [9; 10; 11; 12; 13; 14; 15; 16]); (done || by repeat (constructor; [by vm_compute|])).
Defined.
