(* ===== verification/Sha1.v ===== *)
(** * SHA-1 and HMAC-SHA-1 (luaclib-src/lsha1.c)

    The context, the rounds over the registers and the sixteen words of a block, and the
    functions that feed a text to it. The machine is little-endian, so that the words of a block
    are swapped as they are read. A [size_t] has 64 bits. *)
From S2P Require Import Prelude Bytes LuaCall CryptBase.
Open Scope list_scope.
Open Scope Z_scope.
Open Scope word_scope.

(** [SHA1_CTX]: [count] is the number of bits, low word first *)
Record SHA1_CTX := mkSHA1 { state : list Z; count0 : Z; count1 : Z; ctx_buffer : buffer }.

Definition SHA1_DIGEST_SIZE : Z := 20.

(** ** Rounds *)

(** the registers [a] to [e], and [block.l] *)
Record sha1_vars := mkVars { regs : list Z; block : list Z }.

Definition blk0 (i : nat) (block : list Z) : Z * list Z :=
  let x := nth i block 0 in
  let x := (rol32 x 24 .& 0xFF00FF00) .| (rol32 x 8 .& 0x00FF00FF) in
  (x, <[i := x]> block).

Definition blk (i : nat) (block : list Z) : Z * list Z :=
  let l j := nth (Nat.land j 15) block 0 in
  let x := rol32 (l (i + 13)%nat .^ l (i + 8)%nat .^ l (i + 2)%nat .^ l i) 1 in
  (x, <[Nat.land i 15 := x]> block).

(** [z += f(w, x, y) + blk(i) + K + rol(v, 5); w = rol(w, 30)] *)
Definition R (f : Z → Z → Z → Z) (load : nat → list Z → Z * list Z) (K : Z) (v w x y z i : nat) (s : sha1_vars) : sha1_vars :=
  let r j := nth j (regs s) 0 in
  let '(l, block) := load i (block s) in
  let regs := <[z := u32 (r z + (f (r w) (r x) (r y) + l + K + rol32 (r v) 5))]> (regs s) in
  mkVars (<[w := rol32 (r w) 30]> regs) block.

Definition R0 := R (λ w x y, (w .& (x .^ y)) .^ y) blk0 0x5A827999.
Definition R1 := R (λ w x y, (w .& (x .^ y)) .^ y) blk 0x5A827999.
Definition R2 := R (λ w x y, w .^ x .^ y) blk 0x6ED9EBA1.
Definition R3 := R (λ w x y, ((w .| x) .& y) .| (w .& x)) blk 0x8F1BBCDC.
Definition R4 := R (λ w x y, w .^ x .^ y) blk 0xCA62C1D6.

(** the eighty calls, in their order *)
Definition transform_calls : list (sha1_vars → sha1_vars) :=
  let a := 0%nat in let b := 1%nat in let c := 2%nat in let d := 3%nat in let e := 4%nat in
    [R0 a b c d e 0; R0 e a b c d 1; R0 d e a b c 2; R0 c d e a b 3; R0 b c d e a 4;
     R0 a b c d e 5; R0 e a b c d 6; R0 d e a b c 7; R0 c d e a b 8; R0 b c d e a 9;
     R0 a b c d e 10; R0 e a b c d 11; R0 d e a b c 12; R0 c d e a b 13; R0 b c d e a 14;
     R0 a b c d e 15; R1 e a b c d 16; R1 d e a b c 17; R1 c d e a b 18; R1 b c d e a 19;
     R2 a b c d e 20; R2 e a b c d 21; R2 d e a b c 22; R2 c d e a b 23; R2 b c d e a 24;
     R2 a b c d e 25; R2 e a b c d 26; R2 d e a b c 27; R2 c d e a b 28; R2 b c d e a 29;
     R2 a b c d e 30; R2 e a b c d 31; R2 d e a b c 32; R2 c d e a b 33; R2 b c d e a 34;
     R2 a b c d e 35; R2 e a b c d 36; R2 d e a b c 37; R2 c d e a b 38; R2 b c d e a 39;
     R3 a b c d e 40; R3 e a b c d 41; R3 d e a b c 42; R3 c d e a b 43; R3 b c d e a 44;
     R3 a b c d e 45; R3 e a b c d 46; R3 d e a b c 47; R3 c d e a b 48; R3 b c d e a 49;
     R3 a b c d e 50; R3 e a b c d 51; R3 d e a b c 52; R3 c d e a b 53; R3 b c d e a 54;
     R3 a b c d e 55; R3 e a b c d 56; R3 d e a b c 57; R3 c d e a b 58; R3 b c d e a 59;
     R4 a b c d e 60; R4 e a b c d 61; R4 d e a b c 62; R4 c d e a b 63; R4 b c d e a 64;
     R4 a b c d e 65; R4 e a b c d 66; R4 d e a b c 67; R4 c d e a b 68; R4 b c d e a 69;
     R4 a b c d e 70; R4 e a b c d 71; R4 d e a b c 72; R4 c d e a b 73; R4 b c d e a 74;
     R4 a b c d e 75; R4 e a b c d 76; R4 d e a b c 77; R4 c d e a b 78; R4 b c d e a 79]%nat.

(** [buffer] is 64 bytes *)
Definition SHA1_Transform (state : list Z) (buffer : list Z) : list Z :=
  let s := foldl (λ s f, f s) (mkVars state (le_words 16 buffer)) transform_calls in
  zip_with (λ h r, u32 (h + r)) state (regs s).

(** ** The context *)

Definition sat_SHA1_Init : SHA1_CTX :=
  mkSHA1 [0x67452301; 0xEFCDAB89; 0x98BADCFE; 0x10325476; 0xC3D2E1F0] 0 0 (malloc_buffer 64).

(** [for (; i + 63 < len; i += 64) SHA1_Transform(state, data + i)], and [i] after it *)
Fixpoint update_loop (fuel : nat) (state : list Z) (data : list Z) (i : nat) : result (list Z * nat) :=
  if (i + 63 <? length data)%nat then
    match fuel with
    | O => Err OutOfFuel
    | S fuel => update_loop fuel (SHA1_Transform state (take 64 (drop i data))) data (i + 64)%nat
    end
  else Ok (state, i).

Definition sat_SHA1_Update (context : SHA1_CTX) (data : list Z) : result SHA1_CTX :=
  let len := Z.of_nat (length data) in
  let j := (count0 context .>> 3) .& 63 in
  let c0 := u32 (count0 context + u64 (Z.shiftl len 3)) in
  let c1 := if c0 <? u64 (Z.shiftl len 3) then u32 (count1 context + 1) else count1 context in
  let c1 := u32 (c1 + len .>> 29) in
  let* (st, i, j, buf) :=
    if 63 <? j + len then
      let i := Z.to_nat (64 - j) in
      buf <- copy_into (ctx_buffer context) j (take i data);;
      bytes <- pushlstring buf 64;;
      let* (st, i) := update_loop (length data) (SHA1_Transform (state context) bytes) data i in
      Ok (st, i, 0, buf)
    else Ok (state context, 0%nat, j, ctx_buffer context) in
  buf <- copy_into buf j (drop i data);;
  Ok (mkSHA1 st c0 c1 buf).

(** [while ((context->count[0] & 504) != 448) sat_SHA1_Update(context, "\0", 1)] *)
Fixpoint final_zeros (fuel : nat) (context : SHA1_CTX) : result SHA1_CTX :=
  if negb (count0 context .& 504 =? 448) then
    match fuel with
    | O => Err OutOfFuel
    | S fuel => context <- sat_SHA1_Update context [0];; final_zeros fuel context
    end
  else Ok context.

(** the bytes of a word, the first one the most significant *)
Definition be_word (x : Z) : list Z := [byte_at x 24; byte_at x 16; byte_at x 8; byte_at x 0].

(** the digest; the context is wiped after it *)
Definition sat_SHA1_Final (context : SHA1_CTX) : result (list Z) :=
  let finalcount := be_word (count1 context) ++ be_word (count0 context) in
  context <- sat_SHA1_Update context [0x80];;
  context <- final_zeros 64 context;;
  context <- sat_SHA1_Update context finalcount;;
  Ok (concat (be_word <$> state context)).

(** ** What Lua calls *)

Definition l_sha1 (buffer : list Z) : result (list Z) :=
  ctx <- sat_SHA1_Update sat_SHA1_Init buffer;;
  sat_SHA1_Final ctx.

Definition BLOCKSIZE : Z := 64.

(** [*k ^= xor] for each of its sixteen words *)
Fixpoint xor_words (n : nat) (key : list Z) (xor : Z) : list Z :=
  match n with O => [] | S n => le_bytes 4 (le_value (take 4 key) .^ xor) ++ xor_words n (drop 4 key) xor end.
Definition xor_key (key : list Z) (xor : Z) : list Z := xor_words 16 key xor.

(** [rkey] is set to 0 and then the key or its digest is copied to it *)
Definition l_hmac_sha1 (key text : list Z) : result (list Z) :=
  let key_sz := Z.of_nat (length key) in
  bytes <- (if BLOCKSIZE <? key_sz then ctx <- sat_SHA1_Update sat_SHA1_Init key;; sat_SHA1_Final ctx else Ok key);;
  let rkey := put_field (replicate 64 0) 0 bytes in
  let rkey := xor_key rkey 0x5c5c5c5c in
  ctx1 <- sat_SHA1_Update sat_SHA1_Init rkey;;
  let rkey := xor_key rkey (0x5c5c5c5c .^ 0x36363636) in
  ctx2 <- sat_SHA1_Update sat_SHA1_Init rkey;;
  ctx2 <- sat_SHA1_Update ctx2 text;;
  digest2 <- sat_SHA1_Final ctx2;;
  ctx1 <- sat_SHA1_Update ctx1 digest2;;
  sat_SHA1_Final ctx1.

(** the first test vector of FIPS 180-1 *)
Example sha1_abc : l_sha1 [97; 98; 99] =
  Ok [0xA9; 0x99; 0x3E; 0x36; 0x47; 0x06; 0x81; 0x6A; 0xBA; 0x3E; 0x25; 0x71; 0x78; 0x50; 0xC2; 0x6C; 0x9C; 0xD0; 0xD8; 0x9D].
Proof. vm_compute. reflexivity. Qed.
