(* ===== verification/Sha1Proof.v ===== *)
(** * lsha1.c computes SHA-1 and HMAC-SHA-1

    [sha1] and [hmac_sha1] are the definitions of FIPS 180 and RFC 2104: a schedule of eighty
    words instead of a circular array of sixteen, five values that move instead of names that
    rotate, a message that is padded as a whole instead of being fed in pieces. *)
From S2P Require Import Prelude Bytes LuaCall CryptBase Sha1.
Open Scope list_scope.
Open Scope Z_scope.
Open Scope word_scope.

(** ** The definitions of the standards *)

Definition sha1_f (t : nat) (x y z : Z) : Z :=
  if (t <? 20)%nat then (x .& y) .^ (not32 x .& z)
  else if (t <? 40)%nat then x .^ y .^ z
  else if (t <? 60)%nat then (x .& y) .^ (x .& z) .^ (y .& z)
  else x .^ y .^ z.
Definition sha1_K (t : nat) : Z :=
  if (t <? 20)%nat then 0x5a827999 else if (t <? 40)%nat then 0x6ed9eba1 else if (t <? 60)%nat then 0x8f1bbcdc else 0xca62c1d6.

Fixpoint be_value (l : list Z) : Z := match l with [] => 0 | b :: l => b * 256 ^ Z.of_nat (length l) + be_value l end.
Fixpoint be_words (n : nat) (l : list Z) : list Z :=
  match n with O => [] | S n => be_value (take 4 l) :: be_words n (drop 4 l) end.

(** the message schedule W *)
Fixpoint schedule (n : nat) (W : list Z) : list Z :=
  match n with
  | O => W
  | S n =>
      let t := length W in
      schedule n (W ++ [rol32 (nth (t - 3) W 0 .^ nth (t - 8) W 0 .^ nth (t - 14) W 0 .^ nth (t - 16) W 0) 1])
  end.

Definition sha1_step (W : list Z) (s : Z * Z * Z * Z * Z) (t : nat) : Z * Z * Z * Z * Z :=
  let '(a, b, c, d, e) := s in
  (u32 (rol32 a 5 + sha1_f t b c d + e + sha1_K t + nth t W 0), a, rol32 b 30, c, d).

Definition sha1_hash : Type := Z * Z * Z * Z * Z.
Definition sha1_compress (h : sha1_hash) (b : list Z) : sha1_hash :=
  let '(h0, h1, h2, h3, h4) := h in
  let '(a, b, c, d, e) := foldl (sha1_step (schedule 64 (be_words 16 b))) h (seq 0 80) in
  (u32 (h0 + a), u32 (h1 + b), u32 (h2 + c), u32 (h3 + d), u32 (h4 + e)).

(** the blocks of 64 bytes of a message *)
Fixpoint sha1_blocks (n : nat) (h : sha1_hash) (l : list Z) : sha1_hash :=
  match n with O => h | S n => sha1_blocks n (sha1_compress h (take 64 l)) (drop 64 l) end.

Definition sha1_init : sha1_hash := (0x67452301, 0xefcdab89, 0x98badcfe, 0x10325476, 0xc3d2e1f0).
Definition hash_words (h : sha1_hash) : list Z := let '(a, b, c, d, e) := h in [a; b; c; d; e].

(** a message is padded to whole blocks, the last eight bytes are a number of bits *)
Definition sha1_pad (text : list Z) (bits : Z) : list Z :=
  text ++ 0x80 :: replicate (Z.to_nat ((55 - Z.of_nat (length text)) mod 64)) 0 ++ reverse (le_bytes 8 bits).
Definition sha1_digest (l : list Z) : list Z :=
  concat ((λ w, reverse (le_bytes 4 w)) <$> hash_words (sha1_blocks (length l / 64) sha1_init l)).

Definition sha1 (text : list Z) : list Z := sha1_digest (sha1_pad text (8 * Z.of_nat (length text))).

Definition hmac_sha1 (key text : list Z) : list Z :=
  let key := if (64 <? length key)%nat then sha1 key else key in
  let key := key ++ replicate (64 - length key) 0 in
  sha1 ((Z.lxor 0x5c <$> key) ++ sha1 ((Z.lxor 0x36 <$> key) ++ text)).

(** ** The schedule *)

Lemma schedule_length n W : length (schedule n W) = (length W + n)%nat.
Proof. revert W. induction n as [|n IH]; intros W; cbn [schedule]; [lia|]. rewrite IH, length_app. simpl. lia. Qed.

Lemma schedule_prefix n W t : (t < length W)%nat → nth t (schedule n W) 0 = nth t W 0.
Proof.
  revert W. induction n as [|n IH]; intros W Ht; cbn [schedule]; [done|]. rewrite IH by (rewrite length_app; lia). by rewrite app_nth1.
Qed.

Lemma schedule_next n W t : (16 <= length W <= t)%nat → (t < length W + n)%nat →
  let S := schedule n W in nth t S 0 = rol32 (nth (t - 3) S 0 .^ nth (t - 8) S 0 .^ nth (t - 14) S 0 .^ nth (t - 16) S 0) 1.
Proof.
  cbv zeta. revert W. induction n as [|n IH]; intros W HW Ht; [lia|]. cbn [schedule]. set (x := rol32 _ 1). destruct (decide (t = length W)) as [->|Hne].
  - rewrite !schedule_prefix by (rewrite length_app; simpl; lia). rewrite (app_nth2 W [x]), Nat.sub_diag by lia. by rewrite !app_nth1 by lia.
  - apply IH; rewrite length_app; simpl; lia.
Qed.

(** ** The words of a block *)

Lemma rol32_value x n : is_u32 x → 0 < n < 32 → rol32 x n = x mod 2 ^ (32 - n) * 2 ^ n + x / 2 ^ (32 - n).
Proof.
  intros Hx Hn. unfold rol32, shl32. rewrite Z.shiftl_mul_pow2, Z.shiftr_div_pow2 by lia. unfold is_u32 in Hx.
  assert (Hp : 2 ^ 32 = 2 ^ (32 - n) * 2 ^ n) by (rewrite <- Z.pow_add_r by lia; f_equal; lia).
  assert (Hu : u32 (x * 2 ^ n) = x mod 2 ^ (32 - n) * 2 ^ n) by (unfold u32; rewrite Hp; by rewrite Z.mul_mod_distr_r by lia).
  rewrite Hu. apply (lor_add _ _ n); [lia|apply Z.mod_mul; lia|]. split; [apply Z.div_pos; lia|]. apply Z.div_lt_upper_bound; lia.
Qed.

Lemma swap_word b0 b1 b2 b3 : is_byte b0 → is_byte b1 → is_byte b2 → is_byte b3 →
  let x := le_value [b0; b1; b2; b3] in (rol32 x 24 .& 0xFF00FF00) .| (rol32 x 8 .& 0x00FF00FF) = be_value [b0; b1; b2; b3].
Proof.
  intros H0 H1 H2 H3. cbv zeta. set (x := le_value _). assert (Hx : is_u32 x) by (unfold x, is_u32, is_byte in *; simpl; lia).
  assert (H24 : rol32 x 24 = le_value [b1; b2; b3; b0]).
  { rewrite rol32_value by (done || lia). unfold x, is_byte in *. cbn [le_value]. change (2 ^ (32 - 24)) with 256. change (2 ^ 24) with 16777216. Z.to_euclidean_division_equations; lia. }
  assert (H8 : rol32 x 8 = le_value [b3; b0; b1; b2]).
  { rewrite rol32_value by (done || lia). unfold x, is_byte in *. cbn [le_value]. change (2 ^ (32 - 8)) with 16777216. change (2 ^ 8) with 256. Z.to_euclidean_division_equations; lia. }
  assert (E : le_bytes 4 ((rol32 x 24 .& 0xFF00FF00) .| (rol32 x 8 .& 0x00FF00FF)) = [b3; b2; b1; b0]).
  { rewrite le_bytes_lor, !le_bytes_land, H24, H8. rewrite (le_bytes_value [b1; b2; b3; b0] ltac:(by rewrite !Forall_cons) : le_bytes 4 _ = _).
    rewrite (le_bytes_value [b3; b0; b1; b2] ltac:(by rewrite !Forall_cons) : le_bytes 4 _ = _).
    change (le_bytes 4 0xFF00FF00) with [0; 255; 0; 255]. change (le_bytes 4 0x00FF00FF) with [255; 0; 255; 0]. cbn [zip_with].
    rewrite !Z.land_0_r, !land_byte, !Z.lor_0_l, !Z.lor_0_r. unfold is_byte in *. by rewrite !Z.mod_small by lia. }
  apply (f_equal le_value) in E. rewrite le_value_u32 in E.
  rewrite u32_small in E by (apply lor_range; [done|apply land_range_r; lia|apply land_range_r; lia]). rewrite E. simpl. lia.
Qed.

(** ** The rounds *)

(** the register that is [k]-th in round [i], and the registers of five values in round [i] *)
Definition reg_at (i k : nat) : nat := ((k + 4 * (i mod 5)) mod 5)%nat.
Definition in_regs (i : nat) (s : sha1_hash) : list Z := let l := hash_words s in drop (i mod 5) l ++ take (i mod 5) l.

Definition code_round (i : nat) : nat → nat → nat → nat → nat → nat → sha1_vars → sha1_vars :=
  if (i <? 16)%nat then R0 else if (i <? 20)%nat then R1 else if (i <? 40)%nat then R2 else if (i <? 60)%nat then R3 else R4.
Definition code_load (i : nat) : nat → list Z → Z * list Z := if (i <? 16)%nat then blk0 else blk.

Lemma transform_calls_spec : transform_calls =
  (λ i, code_round i (reg_at i 0) (reg_at i 1) (reg_at i 2) (reg_at i 3) (reg_at i 4) i) <$> seq 0 80.
Proof. reflexivity. Qed.

Lemma R_step f load K i a b c d e block l block' : load i block = (l, block') →
  R f load K (reg_at i 0) (reg_at i 1) (reg_at i 2) (reg_at i 3) (reg_at i 4) i (mkVars (in_regs i (a, b, c, d, e)) block) =
    mkVars (in_regs (S i) (u32 (e + (f b c d + l + K + rol32 a 5)), a, rol32 b 30, c, d)) block'.
Proof.
  intros Hl. unfold R, reg_at, in_regs. cbn [regs Sha1.block]. rewrite Hl.
  replace (S i mod 5)%nat with ((i mod 5 + 1) mod 5)%nat by (rewrite Nat.Div0.add_mod_idemp_l; f_equal; lia).
  pose proof (Nat.mod_upper_bound i 5 ltac:(lia)). destruct (i mod 5)%nat as [|[|[|[|[|]]]]]; [done..|lia].
Qed.

(** the functions of the rounds agree with those of the standard on words *)
Lemma ch_spec x y z : is_u32 z → (x .& (y .^ z)) .^ z = (x .& y) .^ (not32 x .& z).
Proof.
  intros Hz. apply Z.bits_inj'. intros i Hi. unfold not32. rewrite !Z.lxor_spec, !Z.land_spec, !Z.lxor_spec.
  destruct (Z.ltb_spec i 32).
  - change 0xFFFFFFFF with (Z.ones 32). rewrite Z.ones_spec_low by lia. by destruct (Z.testbit x i), (Z.testbit y i), (Z.testbit z i).
  - assert (Z.testbit z i = false) as -> by (rewrite <- (Z.mod_small z (2 ^ 32)) by done; by rewrite Z.mod_pow2_bits_high by lia).
    by destruct (Z.testbit x i), (Z.testbit y i), (Z.testbit 0xFFFFFFFF i).
Qed.

Lemma maj_spec x y z : ((x .| y) .& z) .| (x .& y) = (x .& y) .^ (x .& z) .^ (y .& z).
Proof.
  apply Z.bits_inj'. intros i Hi. rewrite !Z.lxor_spec, Z.lor_spec, !Z.land_spec, Z.lor_spec.
  by destruct (Z.testbit x i), (Z.testbit y i), (Z.testbit z i).
Qed.

Definition hash_ok (s : sha1_hash) : Prop := Forall is_u32 (hash_words s).

Lemma round_step i a b c d e block l block' W : hash_ok (a, b, c, d, e) → code_load i i block = (l, block') → l = nth i W 0 →
  code_round i (reg_at i 0) (reg_at i 1) (reg_at i 2) (reg_at i 3) (reg_at i 4) i (mkVars (in_regs i (a, b, c, d, e)) block) =
    mkVars (in_regs (S i) (sha1_step W (a, b, c, d, e) i)) block'.
Proof.
  unfold hash_ok, hash_words. rewrite !Forall_cons. intros (Ha & Hb & Hc & Hd & He & _) Hl Hw. unfold code_round, code_load, R0, R1, R2, R3, R4 in *.
  unfold sha1_step, sha1_f, sha1_K. rewrite <- Hw. assert (E : ∀ F K, e + (F + l + K + rol32 a 5) = rol32 a 5 + F + e + K + l) by (intros; lia).
  destruct (Nat.ltb_spec i 16) as [H16|H16]; [rewrite (proj2 (Nat.ltb_lt i 20)) by lia|destruct (Nat.ltb_spec i 20); [|destruct (Nat.ltb_spec i 40); [|destruct (Nat.ltb_spec i 60)]]];
    rewrite (R_step _ _ _ _ _ _ _ _ _ _ _ _ Hl), <- ?ch_spec, <- ?maj_spec by done; by rewrite E.
Qed.

Lemma sha1_step_ok W s i : hash_ok s → hash_ok (sha1_step W s i).
Proof.
  destruct s as [[[[a b] c] d] e]. unfold hash_ok, hash_words, sha1_step. rewrite !Forall_cons. intros (Ha & Hb & Hc & Hd & He & _).
  split_and!; try done; [apply u32_range|by apply rol32_u32].
Qed.

(** ** The circular array *)

(** in round [i], the array has the last sixteen words of the schedule, and the first words
    that are not swapped yet *)
Record window (W raw : list Z) (i : nat) (block : list Z) : Prop := {
  win_length : length block = 16%nat;
  win_raw : ∀ j, (i <= j < 16)%nat → nth j block 0 = nth j raw 0;
  win_done : ∀ j, (j < i <= j + 16)%nat → nth (j mod 16)%nat block 0 = nth j W 0
}.

Lemma land15 n : Nat.land n 15 = (n mod 16)%nat.
Proof. apply (Nat.land_ones n 4). Qed.

Lemma nth_insert (l : list Z) i j x : (i < length l)%nat → nth j (<[i := x]> l) 0 = if decide (j = i) then x else nth j l 0.
Proof.
  intros Hi. rewrite !nth_lookup. case_decide as Hj; [subst; by rewrite list_lookup_insert_eq|by rewrite list_lookup_insert_ne].
Qed.

Lemma window_step W raw i block : window W raw i block → (i < 80)%nat →
  (∀ j, (j < 16)%nat → let x := nth j raw 0 in (rol32 x 24 .& 0xFF00FF00) .| (rol32 x 8 .& 0x00FF00FF) = nth j W 0) →
  (∀ t, (16 <= t < 80)%nat → nth t W 0 = rol32 (nth (t - 3) W 0 .^ nth (t - 8) W 0 .^ nth (t - 14) W 0 .^ nth (t - 16) W 0) 1) →
  ∃ block', code_load i i block = (nth i W 0, block') ∧ window W raw (S i) block'.
Proof.
  intros [Hlen Hraw Hdone] Hi Hswap Hnext.
  assert (Hput : window W raw (S i) (<[(i mod 16)%nat := nth i W 0]> block)).
  { pose proof (Nat.mod_upper_bound i 16 ltac:(lia)) as Hm. split.
    - by rewrite length_insert.
    - intros j Hj. rewrite nth_insert by lia. rewrite Nat.mod_small in * by lia. case_decide; [lia|]. apply Hraw. lia.
    - intros j Hj. rewrite nth_insert by lia. destruct (decide (j = i)) as [->|Hne]; [by rewrite decide_True|].
      rewrite decide_False; [apply Hdone; lia|]. pose proof (Nat.div_mod_eq j 16). pose proof (Nat.div_mod_eq i 16). lia. }
  exists (<[(i mod 16)%nat := nth i W 0]> block). split; [|done]. unfold code_load. destruct (Nat.ltb_spec i 16) as [H16|H16].
  - unfold blk0. rewrite Hraw, Hswap by lia. by rewrite Nat.mod_small by lia.
  - unfold blk. rewrite !land15.
    assert (Hget : ∀ k, (k <= 16)%nat → (0 < k)%nat → nth ((i + (16 - k)) mod 16)%nat block 0 = nth (i - k) W 0).
    { intros k Hk Hk0. rewrite <- (Hdone (i - k)%nat) by lia. f_equal. replace (i + (16 - k))%nat with (i - k + 1 * 16)%nat by lia. apply Nat.Div0.mod_add. }
    pose proof (Hget 3%nat) as H3. pose proof (Hget 8%nat) as H8. pose proof (Hget 14%nat) as H14. cbn [Nat.sub] in H3, H8, H14.
    rewrite H3, H8, H14 by lia.
    replace (nth (i mod 16)%nat block 0) with (nth (i - 16) W 0) by (rewrite <- Hget by lia; f_equal; f_equal; lia). by rewrite <- Hnext by lia.
Qed.

(** ** One block *)

Lemma le_words_nth n l j : (j < n)%nat → nth j (le_words n l) 0 = le_value (take 4 (drop (4 * j) l)).
Proof.
  revert l j. induction n as [|n IH]; intros l [|j] Hj; [lia..|done|]. cbn [le_words nth]. rewrite IH, drop_drop by lia. do 2 f_equal. f_equal. lia.
Qed.
Lemma be_words_nth n l j : (j < n)%nat → nth j (be_words n l) 0 = be_value (take 4 (drop (4 * j) l)).
Proof.
  revert l j. induction n as [|n IH]; intros l [|j] Hj; [lia..|done|]. cbn [be_words nth]. rewrite IH, drop_drop by lia. do 2 f_equal. f_equal. lia.
Qed.
Lemma le_words_length n l : length (le_words n l) = n.
Proof. revert l. induction n as [|n IH]; intros l; [done|]. cbn [le_words length]. by rewrite IH. Qed.
Lemma be_words_length n l : length (be_words n l) = n.
Proof. revert l. induction n as [|n IH]; intros l; [done|]. cbn [be_words length]. by rewrite IH. Qed.

Section block.
Context (h : sha1_hash) (buf : list Z).
Hypothesis (h_ok : hash_ok h) (buf_length : length buf = 64%nat) (buf_bytes : Forall is_byte buf).
Notation W := (schedule 64 (be_words 16 buf)).

Lemma words_swapped j : (j < 16)%nat →
  let x := nth j (le_words 16 buf) 0 in (rol32 x 24 .& 0xFF00FF00) .| (rol32 x 8 .& 0x00FF00FF) = nth j W 0.
Proof.
  intros Hj. cbv zeta. rewrite schedule_prefix, be_words_nth, le_words_nth by (rewrite ?be_words_length; lia).
  assert (Hl : length (take 4 (drop (4 * j) buf)) = 4%nat) by (rewrite length_take, length_drop; lia).
  assert (Hb : Forall is_byte (take 4 (drop (4 * j) buf))) by (by apply Forall_take, Forall_drop).
  destruct (take 4 (drop (4 * j) buf)) as [|b0 [|b1 [|b2 [|b3 [|? ?]]]]]; try done. rewrite !Forall_cons in Hb. destruct Hb as (? & ? & ? & ? & _). by apply swap_word.
Qed.

Lemma rounds_spec n : (n <= 80)%nat → ∃ block,
  foldl (λ s f, f s) (mkVars (hash_words h) (le_words 16 buf)) (take n transform_calls) =
    mkVars (in_regs n (foldl (sha1_step W) h (seq 0 n))) block ∧
  window W (le_words 16 buf) n block ∧ hash_ok (foldl (sha1_step W) h (seq 0 n)).
Proof.
  induction n as [|n IH]; intros Hn.
  - exists (le_words 16 buf). split_and!; [|split; [apply le_words_length|done|intros; lia]|done]. cbn [take foldl seq]. unfold in_regs. simpl. by rewrite app_nil_r.
  - destruct IH as (block & E & Hw & Hok); [lia|].
    set (f := code_round n (reg_at n 0) (reg_at n 1) (reg_at n 2) (reg_at n 3) (reg_at n 4) n).
    assert (Hf : transform_calls !! n = Some f).
    { rewrite transform_calls_spec, list_lookup_fmap, lookup_seq_lt by lia. done. }
    rewrite (take_S_r _ _ _ Hf), foldl_app, E, seq_S, foldl_app. cbn [foldl Nat.add].
    destruct (window_step W (le_words 16 buf) n block Hw) as (block' & Hload & Hw'); [lia|apply words_swapped| |].
    { intros t Ht. apply schedule_next; rewrite be_words_length; lia. }
    set (s := foldl (sha1_step W) h (seq 0 n)) in *. destruct s as [[[[a b] c] d] e].
    exists block'. split; [by apply (round_step n a b c d e block (nth n W 0))|]. split; [done|]. by apply sha1_step_ok.
Qed.

Lemma transform_spec : SHA1_Transform (hash_words h) buf = hash_words (sha1_compress h buf) ∧ hash_ok (sha1_compress h buf).
Proof.
  destruct (rounds_spec 80) as (block & E & _ & _); [lia|]. unfold SHA1_Transform. change (take 80 transform_calls) with transform_calls in E.
  rewrite E. cbn [regs]. unfold sha1_compress. destruct h as [[[[h0 h1] h2] h3] h4].
  destruct (foldl (sha1_step _) _ (seq 0 80)) as [[[[a b] c] d] e]. split; [done|].
  unfold hash_ok, hash_words. rewrite !Forall_cons. split_and!; (apply u32_range || done).
Qed.
End block.

(** ** Blocks of a message *)

Lemma sha1_blocks_add n k h l : sha1_blocks (n + k) h l = sha1_blocks k (sha1_blocks n h l) (drop (64 * n) l).
Proof.
  revert h l. induction n as [|n IH]; intros h l; [done|]. cbn [Nat.add sha1_blocks]. rewrite IH, drop_drop. do 2 f_equal. lia.
Qed.

Lemma sha1_blocks_app n h l l' : (64 * n <= length l)%nat → sha1_blocks n h (l ++ l') = sha1_blocks n h l.
Proof.
  revert h l. induction n as [|n IH]; intros h l Hl; [done|]. cbn [sha1_blocks]. rewrite take_app_le, drop_app_le by lia.
  apply IH. rewrite length_drop. lia.
Qed.

Lemma sha1_blocks_ok n h l : hash_ok h → (64 * n <= length l)%nat → Forall is_byte l → hash_ok (sha1_blocks n h l).
Proof.
  revert h l. induction n as [|n IH]; intros h l Hh Hl Hb; [done|]. cbn [sha1_blocks].
  apply IH; [apply transform_spec; [done|rewrite length_take; lia|by apply Forall_take]|rewrite length_drop; lia|by apply Forall_drop].
Qed.

Lemma update_loop_spec k fuel h data i : hash_ok h → Forall is_byte data → (i + 64 * k <= length data < i + 64 * S k)%nat → (k <= fuel)%nat →
  update_loop fuel (hash_words h) data i = Ok (hash_words (sha1_blocks k h (drop i data)), (i + 64 * k)%nat).
Proof.
  revert fuel h i. induction k as [|k IH]; intros fuel h i Hh Hb Hl Hf.
  - destruct fuel; cbn [update_loop]; rewrite (proj2 (Nat.ltb_ge _ _)) by lia; do 2 f_equal; lia.
  - destruct fuel as [|fuel]; [lia|]. cbn [update_loop]. rewrite (proj2 (Nat.ltb_lt _ _)) by lia.
    assert (H64 : length (take 64 (drop i data)) = 64%nat) by (rewrite length_take, length_drop; lia).
    destruct (transform_spec h (take 64 (drop i data)) Hh H64) as [-> Hok]; [by apply Forall_take, Forall_drop|].
    rewrite IH by (done || lia). cbn [sha1_blocks]. rewrite drop_drop. do 2 f_equal. lia.
Qed.

Lemma sha1_init_ok : hash_ok sha1_init.
Proof. unfold hash_ok. simpl. unfold is_u32. rewrite !Forall_cons. split_and!; (lia || done). Qed.

(** ** The context of a message that was fed so far *)

Record ctx_ok (ctx : SHA1_CTX) (m : list Z) : Prop := {
  cx_state : state ctx = hash_words (sha1_blocks (length m / 64) sha1_init m);
  cx_count : count0 ctx = u32 (8 * Z.of_nat (length m));
  cx_length : length (ctx_buffer ctx) = 64%nat;
  cx_rest : take (length m mod 64) (ctx_buffer ctx) = Some <$> drop (64 * (length m / 64)) m;
  cx_bytes : Forall is_byte m
}.

Lemma init_ok : ctx_ok sat_SHA1_Init [].
Proof. by split. Qed.

Lemma count_offset (m : list Z) : (u32 (8 * Z.of_nat (length m)) .>> 3) .& 63 = Z.of_nat (length m mod 64).
Proof.
  change 63 with (Z.ones 6). rewrite Z.land_ones, Z.shiftr_div_pow2 by lia. unfold u32. rewrite Nat2Z.inj_mod.
  change (2 ^ 3) with 8. change (2 ^ 6) with 64. change (Z.of_nat 64) with 64. Z.to_euclidean_division_equations; lia.
Qed.

Lemma copy_into_Ok (b : buffer) off bytes : (off + length bytes <= length b)%nat →
  copy_into b (Z.of_nat off) bytes = Ok (take off b ++ (Some <$> bytes) ++ drop (off + length bytes) b).
Proof. intros Hl. unfold copy_into. rewrite (proj2 (Z.leb_le 0 _)), (proj2 (Z.leb_le _ _)) by lia. cbn [andb]. by rewrite Nat2Z.id. Qed.

(** the bits that [sat_SHA1_Update] adds to the second word of the count *)
Definition next_count1 (ctx : SHA1_CTX) (len : Z) : Z :=
  let c0 := u32 (count0 ctx + u64 (Z.shiftl len 3)) in
  u32 ((if c0 <? u64 (Z.shiftl len 3) then u32 (count1 ctx + 1) else count1 ctx) + len .>> 29).

Lemma next_count0 (m d : list Z) : u32 (u32 (8 * Z.of_nat (length m)) + u64 (Z.shiftl (Z.of_nat (length d)) 3)) = u32 (8 * Z.of_nat (length (m ++ d))).
Proof.
  rewrite Z.shiftl_mul_pow2, length_app, Nat2Z.inj_add by lia. unfold u32, u64. change (2 ^ 3) with 8. Z.to_euclidean_division_equations; lia.
Qed.

Lemma update_short ctx m d : ctx_ok ctx m → Forall is_byte d → (length m mod 64 + length d <= 63)%nat →
  ∃ ctx', sat_SHA1_Update ctx d = Ok ctx' ∧ ctx_ok ctx' (m ++ d) ∧ count1 ctx' = next_count1 ctx (Z.of_nat (length d)).
Proof.
  intros [Hst Hc Hl Hr Hb] Hd Hlen. unfold sat_SHA1_Update. rewrite Hc, count_offset.
  rewrite (proj2 (Z.ltb_ge _ _)), bind_Ok by lia. cbv iota beta. rewrite drop_0, copy_into_Ok, bind_Ok by lia.
  eexists. split; [done|]. split; [|unfold next_count1; by rewrite Hc].
  assert (Hq : (length (m ++ d) / 64 = length m / 64)%nat) by (rewrite length_app; pose proof (Nat.div_mod_eq (length m) 64); symmetry; apply (Nat.div_unique _ _ _ (length m mod 64 + length d)); lia).
  assert (Hm : (length (m ++ d) mod 64 = length m mod 64 + length d)%nat) by (rewrite length_app; pose proof (Nat.div_mod_eq (length m) 64); symmetry; apply (Nat.mod_unique _ _ (length m / 64)); lia).
  pose proof (Nat.div_mod_eq (length m) 64).
  split; cbn [state count0 ctx_buffer].
  - by rewrite Hst, Hq, sha1_blocks_app by lia.
  - apply next_count0.
  - rewrite !length_app, length_take, length_fmap, length_drop. lia.
  - rewrite Hq, Hm, app_assoc, take_app_length' by (rewrite length_app, length_take, length_fmap; lia).
    rewrite Hr, drop_app_le, fmap_app by lia. done.
  - by apply Forall_app.
Qed.

(** the first block is what was left and the start of [d], the others are in [d] *)
Lemma blocks_of_app m d q j i k : length m = (64 * q + j)%nat → (j + i = 64)%nat → (i + 64 * k <= length d)%nat →
  sha1_blocks (q + (1 + k)) sha1_init (m ++ d) =
    sha1_blocks k (sha1_compress (sha1_blocks q sha1_init m) (drop (64 * q) m ++ take i d)) (drop i d).
Proof.
  intros Hm Hi Hd. rewrite sha1_blocks_add, sha1_blocks_app, drop_app_le by lia. cbn [Nat.add sha1_blocks].
  assert (Hr : length (drop (64 * q) m) = j) by (rewrite length_drop; lia).
  rewrite take_app_ge, drop_app_ge, Hr by lia. by replace (64 - j)%nat with i by lia.
Qed.

Lemma update_long ctx m d : ctx_ok ctx m → Forall is_byte d → (64 <= length m mod 64 + length d)%nat →
  ∃ ctx', sat_SHA1_Update ctx d = Ok ctx' ∧ ctx_ok ctx' (m ++ d) ∧ count1 ctx' = next_count1 ctx (Z.of_nat (length d)).
Proof.
  intros [Hst Hc Hl Hr Hb] Hd Hlen. unfold sat_SHA1_Update. rewrite Hc, count_offset.
  set (q := (length m / 64)%nat) in *. set (j := (length m mod 64)%nat) in *.
  assert (Hm : length m = (64 * q + j)%nat) by apply Nat.div_mod_eq. assert (Hj : (j < 64)%nat) by (apply Nat.mod_upper_bound; lia).
  rewrite (proj2 (Z.ltb_lt _ _)) by lia. replace (Z.to_nat (64 - Z.of_nat j)) with (64 - j)%nat by lia. set (i := (64 - j)%nat).
  assert (Hi : (j + i = 64)%nat) by lia. assert (Hti : length (take i d) = i) by (rewrite length_take; lia).
  set (k := ((length d - i) / 64)%nat). assert (Hk : (i + 64 * k <= length d < i + 64 * S k)%nat).
  { pose proof (Nat.div_mod_eq (length d - i) 64). pose proof (Nat.mod_upper_bound (length d - i) 64 ltac:(lia)). unfold k. lia. }
  rewrite copy_into_Ok, bind_Ok by lia. rewrite Hti, Hi, Hr, (drop_ge (ctx_buffer ctx)), app_nil_r, <- fmap_app by lia.
  set (b0 := drop (64 * q) m ++ take i d). assert (Hb0 : length b0 = 64%nat) by (unfold b0; rewrite length_app, length_drop; lia).
  assert (Hbb : Forall is_byte b0) by (apply Forall_app; split; [by apply Forall_drop|by apply Forall_take]).
  rewrite <- (app_nil_r (Some <$> b0)). change (@nil (option Z)) with (replicate 0 (@None Z)). rewrite pushlstring_ok, bind_Ok by (by rewrite Hb0).
  rewrite Hst. destruct (transform_spec (sha1_blocks q sha1_init m) b0) as [-> Hok]; [apply sha1_blocks_ok; [apply sha1_init_ok|lia|done]|done..|].
  rewrite (update_loop_spec k) by (done || lia). rewrite bind_Ok. cbv iota beta. rewrite bind_Ok. cbv iota beta.
  set (rest := drop (i + 64 * k) d). assert (Hrest : (length rest < 64)%nat) by (unfold rest; rewrite length_drop; lia).
  match goal with |- context [copy_into ?b 0 rest] => pose proof (copy_into_Ok b 0 rest : (_ <= _)%nat → copy_into b 0 rest = _) as Hcopy end.
  rewrite Hcopy, bind_Ok by (rewrite length_app, length_fmap; simpl; lia).
  eexists. split; [done|]. split; [|unfold next_count1; by rewrite Hc].
  assert (Hq : (length (m ++ d) / 64 = q + (1 + k))%nat) by (rewrite length_app; symmetry; apply (Nat.div_unique _ _ _ (length rest)); unfold rest; rewrite ?length_drop; lia).
  assert (Hmod : (length (m ++ d) mod 64 = length rest)%nat) by (rewrite length_app; symmetry; apply (Nat.mod_unique _ _ (q + (1 + k))); unfold rest; rewrite ?length_drop; lia).
  split; cbn [state count0 ctx_buffer].
  - rewrite Hq, (blocks_of_app m d q j i k) by lia. done.
  - apply next_count0.
  - rewrite !length_app, length_take, length_drop, length_app, !length_fmap. simpl. lia.
  - rewrite Hq, Hmod, take_0, app_nil_l, take_app_length' by (by rewrite length_fmap). f_equal.
    rewrite drop_app_ge by lia. unfold rest. f_equal. lia.
  - by apply Forall_app.
Qed.

Lemma update_spec ctx m d : ctx_ok ctx m → Forall is_byte d →
  ∃ ctx', sat_SHA1_Update ctx d = Ok ctx' ∧ ctx_ok ctx' (m ++ d) ∧ count1 ctx' = next_count1 ctx (Z.of_nat (length d)).
Proof. intros Hctx Hd. destruct (decide (length m mod 64 + length d <= 63)%nat); [by apply update_short|apply update_long; [done|done|lia]]. Qed.

(** ** The end of the message *)

Lemma count_at_56 (m : list Z) : (u32 (8 * Z.of_nat (length m)) .& 504 =? 448) = (length m mod 64 =? 56)%nat.
Proof.
  set (len := Z.of_nat (length m)). assert (E : u32 (8 * len) .& 504 = 8 * (len mod 64)).
  { change 504 with (Z.shiftl (Z.ones 6) 3). replace (u32 (8 * len)) with (Z.shiftl (len mod 2 ^ 29) 3).
    - rewrite <- Z.shiftl_land, Z.land_ones, Z.shiftl_mul_pow2 by lia. change (2 ^ 3) with 8. change (2 ^ 6) with 64. change (2 ^ 29) with 536870912. Z.to_euclidean_division_equations; lia.
    - rewrite Z.shiftl_mul_pow2 by lia. unfold u32. Z.to_euclidean_division_equations; lia. }
  rewrite E. unfold len. change 64 with (Z.of_nat 64). rewrite <- Nat2Z.inj_mod.
  destruct (Nat.eqb_spec (length m mod 64) 56) as [->|Hne]; [done|]. apply Z.eqb_neq. lia.
Qed.

Lemma final_zeros_spec z fuel ctx m : ctx_ok ctx m → ((length m + z) mod 64 = 56)%nat → (z < 64)%nat → (z <= fuel)%nat →
  ∃ ctx', final_zeros fuel ctx = Ok ctx' ∧ ctx_ok ctx' (m ++ replicate z 0).
Proof.
  revert fuel ctx m. induction z as [|z IH]; intros fuel ctx m Hctx Hz Hlt Hf.
  - exists ctx. rewrite app_nil_r. split; [|done]. rewrite Nat.add_0_r in Hz.
    destruct fuel; cbn [final_zeros]; rewrite (cx_count _ _ Hctx), count_at_56, Hz; done.
  - destruct fuel as [|fuel]; [lia|]. cbn [final_zeros]. rewrite (cx_count _ _ Hctx), count_at_56.
    assert (Hne : (length m mod 64 ≠ 56)%nat).
    { intros E. pose proof (Nat.div_mod_eq (length m) 64). pose proof (Nat.div_mod_eq (length m + S z) 64). lia. }
    rewrite (proj2 (Nat.eqb_neq _ _) Hne). cbn [negb].
    destruct (update_spec ctx m [0]) as (ctx' & -> & Hctx' & _); [done|by rewrite Forall_cons; unfold is_byte|]. rewrite bind_Ok.
    destruct (IH fuel ctx' (m ++ [0])) as (ctx'' & E & Hok); [done|by rewrite length_app; simpl; rewrite <- Nat.add_assoc|lia..|].
    exists ctx''. split; [done|]. by rewrite <- app_assoc in Hok.
Qed.

Lemma be_word_spec x : be_word x = reverse (le_bytes 4 x).
Proof.
  unfold be_word. rewrite !byte_at_spec by lia. cbn [le_bytes]. rewrite !Z.div_div by lia. rewrite Z.pow_0_r, Z.div_1_r. done.
Qed.

Lemma be_words_8 c1 c0 : is_u32 c0 → be_word c1 ++ be_word c0 = reverse (le_bytes 8 (c1 * 2 ^ 32 + c0)).
Proof.
  intros Hc. rewrite !be_word_spec, <- reverse_app. f_equal. rewrite <- (le_bytes_join 4 4) by exact Hc. f_equal. lia.
Qed.

Lemma final_spec ctx m : ctx_ok ctx m → sat_SHA1_Final ctx = Ok (sha1_digest (sha1_pad m (count1 ctx * 2 ^ 32 + count0 ctx))).
Proof.
  intros Hctx. unfold sat_SHA1_Final. rewrite be_words_8 by (rewrite (cx_count _ _ Hctx); apply u32_range). set (bits := _ * _ + _).
  destruct (update_spec ctx m [0x80]) as (ctx1 & -> & H1 & _); [done|by rewrite Forall_cons; unfold is_byte|]. rewrite bind_Ok.
  set (z := Z.to_nat ((55 - Z.of_nat (length m)) mod 64)).
  assert (Hz : (z < 64)%nat ∧ ((length (m ++ [0x80%Z]) + z) mod 64 = 56)%nat).
  { unfold z. rewrite length_app. cbn [length]. pose proof (Z.mod_pos_bound (55 - Z.of_nat (length m)) 64 ltac:(lia)). split; [lia|].
    apply Nat2Z.inj. rewrite Nat2Z.inj_mod, !Nat2Z.inj_add, Z2Nat.id by lia. change (Z.of_nat 64) with 64. Z.to_euclidean_division_equations; lia. }
  destruct Hz as [Hz Hmod]. destruct (final_zeros_spec z 64 ctx1 (m ++ [0x80])) as (ctx2 & -> & H2); [done|done|lia..|]. rewrite bind_Ok.
  destruct (update_spec ctx2 ((m ++ [0x80]) ++ replicate z 0) (reverse (le_bytes 8 bits))) as (ctx3 & -> & H3 & _);
    [done|apply Forall_reverse, le_bytes_byte|]. rewrite bind_Ok. rewrite <- !app_assoc in H3. cbn [app] in H3.
  unfold sha1_digest, sha1_pad. fold z. rewrite (cx_state _ _ H3). do 2 f_equal. apply list_fmap_ext. intros _ w _. apply be_word_spec.
Qed.

(** ** Messages *)

(** the second word of the count, which is exact as long as the pieces are small *)
Lemma next_count1_small ctx m d : ctx_ok ctx m → count1 ctx = 8 * Z.of_nat (length m) / 2 ^ 32 →
  Z.of_nat (length d) < 2 ^ 29 → Z.of_nat (length (m ++ d)) < 2 ^ 61 →
  next_count1 ctx (Z.of_nat (length d)) = 8 * Z.of_nat (length (m ++ d)) / 2 ^ 32.
Proof.
  intros Hctx H1 Hd Hmax. unfold next_count1. rewrite (cx_count _ _ Hctx), H1. rewrite length_app, Nat2Z.inj_add in *.
  rewrite Z.shiftl_mul_pow2, Z.shiftr_div_pow2 by lia. change (2 ^ 3) with 8. rewrite (u64_small (_ * 8)), (Z.div_small _ (2 ^ 29)), Z.add_0_r by lia.
  set (a := Z.of_nat (length m)) in *. set (b := Z.of_nat (length d)) in *. assert (0 <= a ∧ 0 <= b) by lia. unfold u32.
  destruct (Z.ltb_spec ((8 * a mod 2 ^ 32 + b * 8) mod 2 ^ 32) (b * 8)); Z.to_euclidean_division_equations; lia.
Qed.

(** feeding a context *)
Definition feed (ctx : SHA1_CTX) (chunks : list (list Z)) : result SHA1_CTX :=
  foldl (λ m d, ctx <- m;; sat_SHA1_Update ctx d) (Ok ctx) chunks.

Lemma feed_spec chunks ctx m : ctx_ok ctx m → count1 ctx = 8 * Z.of_nat (length m) / 2 ^ 32 →
  Forall (λ d, Forall is_byte d ∧ Z.of_nat (length d) < 2 ^ 29) chunks → Z.of_nat (length (m ++ concat chunks)) < 2 ^ 61 →
  ∃ ctx', feed ctx chunks = Ok ctx' ∧ ctx_ok ctx' (m ++ concat chunks) ∧ count1 ctx' = 8 * Z.of_nat (length (m ++ concat chunks)) / 2 ^ 32.
Proof.
  revert ctx m. induction chunks as [|d chunks IH]; intros ctx m Hctx H1 Hch Hmax; [exists ctx; by rewrite app_nil_r|].
  rewrite Forall_cons in Hch. destruct Hch as [[Hb Hl] Hch]. unfold feed. cbn [foldl concat] in *. rewrite bind_Ok.
  destruct (update_spec ctx m d Hctx Hb) as (ctx1 & -> & Hok1 & Hc1).
  rewrite (next_count1_small ctx m d) in Hc1 by (done || (rewrite !length_app in *; lia)).
  rewrite app_assoc in *. by apply IH.
Qed.

Lemma feed_digest chunks : Forall (λ d, Forall is_byte d ∧ Z.of_nat (length d) < 2 ^ 29) chunks → Z.of_nat (length (concat chunks)) < 2 ^ 61 →
  (ctx <- feed sat_SHA1_Init chunks;; sat_SHA1_Final ctx) = Ok (sha1 (concat chunks)).
Proof.
  intros Hch Hmax. destruct (feed_spec chunks sat_SHA1_Init [] init_ok eq_refl Hch Hmax) as (ctx & -> & Hok & H1). rewrite bind_Ok.
  rewrite (final_spec _ _ Hok). unfold sha1. cbn [app] in *. do 3 f_equal. rewrite H1, (cx_count _ _ Hok). unfold u32.
  set (n := 8 * Z.of_nat _). pose proof (Z.div_mod n (2 ^ 32)). lia.
Qed.

(** two contexts that are fed in turn *)
Lemma sha1_text text : Forall is_byte text → Z.of_nat (length text) < 2 ^ 29 → l_sha1 text = Ok (sha1 text).
Proof.
  intros Hb Hl. pose proof (feed_digest [text]) as H. cbn [concat] in H. rewrite app_nil_r in H. apply H; [by rewrite Forall_cons|lia].
Qed.

Lemma sha1_length text : length (sha1 text) = 20%nat.
Proof. unfold sha1, sha1_digest. by destruct (sha1_blocks _ _ _) as [[[[a b] c] d] e]. Qed.

Lemma sha1_bytes text : Forall is_byte (sha1 text).
Proof.
  unfold sha1, sha1_digest. destruct (sha1_blocks _ _ _) as [[[[a b] c] d] e]. cbn [hash_words fmap list_fmap concat].
  repeat (apply Forall_app; split; [apply Forall_reverse, le_bytes_byte|]). constructor.
Qed.

(** ** The keys of HMAC *)

Lemma xor_words_spec n key xor c : length key = (4 * n)%nat → Forall is_byte key → le_bytes 4 xor = replicate 4 c →
  xor_words n key xor = Z.lxor c <$> key.
Proof.
  intros Hl Hb Hx. revert key Hl Hb. induction n as [|n IH]; intros key Hl Hb; [by destruct key|]. cbn [xor_words].
  do 4 (destruct key as [|? key]; [simpl in Hl; lia|]). rewrite !Forall_cons in Hb. destruct Hb as (H0 & H1 & H2 & H3 & Hb).
  cbn [take drop]. rewrite take_0, drop_0, IH by (done || (cbn [length] in Hl; lia)). rewrite le_bytes_lxor, Hx.
  match goal with |- context [le_value ?l] => rewrite (le_bytes_value l ltac:(by rewrite !Forall_cons) : le_bytes 4 (le_value l) = l) end.
  cbn [replicate zip_with app fmap list_fmap]. rewrite !(Z.lxor_comm c). done.
Qed.

Lemma xor_key_bytes c key : is_byte c → Forall is_byte key → Forall is_byte (Z.lxor c <$> key).
Proof. intros Hc Hk. apply Forall_fmap. eapply Forall_impl; [exact Hk|]. intros b Hb. apply (lxor_range 8); done. Qed.

(** ** Theorems *)

(** C32: The functions of lsha1.c compute SHA-1 as FIPS 180 defines it: whatever the pieces
    in which a message is given to [sat_SHA1_Update], the digest of [sat_SHA1_Final] is that of
    the whole message, as long as no piece has 512 MiB or more. *)
Theorem sha1_correct chunks : Forall (λ d, Forall is_byte d ∧ Z.of_nat (length d) < 2 ^ 29) chunks → Z.of_nat (length (concat chunks)) < 2 ^ 61 →
  (ctx <- feed sat_SHA1_Init chunks;; sat_SHA1_Final ctx) = Ok (sha1 (concat chunks)) ∧
  ∀ text, chunks = [text] → l_sha1 text = Ok (sha1 text).
Proof.
  intros Hch Hmax. split; [by apply feed_digest|]. intros text ->. rewrite Forall_cons in Hch. destruct Hch as [[? ?] _]. by apply sha1_text.
Qed.

Lemma sha1_correct_witness :
  (ctx <- feed sat_SHA1_Init [[97]; []; [98; 99]];; sat_SHA1_Final ctx) = Ok (sha1 [97; 98; 99]) ∧ l_sha1 [97; 98; 99] = Ok (sha1 [97; 98; 99]).
Proof.
  split.
  - refine (proj1 (sha1_correct [[97]; []; [98; 99]] _ _)); [|by vm_compute]. by repeat (constructor; [split; [by repeat (constructor; [by vm_compute|])|by vm_compute]|]).
  - refine (proj2 (sha1_correct [[97; 98; 99]] _ _) [97; 98; 99] eq_refl); [|by vm_compute]. by repeat (constructor; [split; [by repeat (constructor; [by vm_compute|])|by vm_compute]|]).
Defined.

(** C33: [l_hmac_sha1] computes HMAC as RFC 2104 defines it over SHA-1, for keys of any size
    below 512 MiB, longer than a block or not, and texts below 512 MiB. *)
Theorem hmac_sha1_correct key text : Forall is_byte key → Forall is_byte text → Z.of_nat (length key) < 2 ^ 29 → Z.of_nat (length text) < 2 ^ 29 →
  l_hmac_sha1 key text = Ok (hmac_sha1 key text).
Proof.
  intros Hk Ht Hkl Htl. unfold l_hmac_sha1, hmac_sha1. set (key' := if (64 <? length key)%nat then sha1 key else key).
  assert (E : (if BLOCKSIZE <? Z.of_nat (length key) then ctx <- sat_SHA1_Update sat_SHA1_Init key;; sat_SHA1_Final ctx else Ok key) = Ok key').
  { unfold key', BLOCKSIZE. destruct (Nat.ltb_spec 64 (length key)); [rewrite (proj2 (Z.ltb_lt _ _)) by lia; by apply sha1_text|by rewrite (proj2 (Z.ltb_ge _ _)) by lia]. }
  assert (Hb' : Forall is_byte key') by (unfold key'; destruct (_ <? _)%nat; [apply sha1_bytes|done]).
  assert (Hl' : (length key' <= 64)%nat) by (unfold key'; destruct (Nat.ltb_spec 64 (length key)); [rewrite sha1_length|]; lia).
  rewrite E, bind_Ok. unfold put_field. rewrite take_0, app_nil_l, drop_replicate, Nat.add_0_l. set (rkey := key' ++ replicate (64 - length key') 0).
  assert (Hrl : length rkey = 64%nat) by (unfold rkey; rewrite length_app, length_replicate; lia).
  assert (Hrb : Forall is_byte rkey) by (apply Forall_app; split; [done|by apply Forall_replicate; unfold is_byte]).
  unfold xor_key. rewrite (xor_words_spec 16 rkey _ 0x5c) by (done || lia).
  rewrite (xor_words_spec 16 (_ <$> rkey) _ (Z.lxor 0x5c 0x36)) by (rewrite ?length_fmap; (done || lia || by apply xor_key_bytes)).
  replace (Z.lxor (Z.lxor 0x5c 0x36) <$> (Z.lxor 0x5c <$> rkey)) with (Z.lxor 0x36 <$> rkey).
  2: { rewrite <- list_fmap_compose. apply list_fmap_ext. intros _ b _. simpl. by rewrite (Z.lxor_comm 0x5c 0x36), Z.lxor_assoc, <- (Z.lxor_assoc 0x5c 0x5c), Z.lxor_nilpotent, Z.lxor_0_l. }
  pose proof (feed_digest [Z.lxor 0x36 <$> rkey; text]) as H2. pose proof (feed_digest [Z.lxor 0x5c <$> rkey; sha1 ((Z.lxor 0x36 <$> rkey) ++ text)]) as H1.
  cbn [concat] in H1, H2. rewrite app_nil_r in H1, H2. unfold feed in H1, H2. cbn [foldl rbind] in H1, H2.
  destruct (update_spec sat_SHA1_Init [] (Z.lxor 0x5c <$> rkey)) as (ctx1 & E1 & _ & _); [apply init_ok|by apply xor_key_bytes|].
  destruct (update_spec sat_SHA1_Init [] (Z.lxor 0x36 <$> rkey)) as (ctx2 & E2 & _ & _); [apply init_ok|by apply xor_key_bytes|].
  rewrite E2 in H2. rewrite E1, bind_Ok, E2, bind_Ok. cbn [rbind] in H2.
  assert (Hkb := λ c Hc, xor_key_bytes c rkey Hc Hrb). assert (Hkl' : ∀ c, length (Z.lxor c <$> rkey) = 64%nat) by (intros; by rewrite length_fmap).
  assert (Hinner : (ctx <- sat_SHA1_Update ctx2 text;; sat_SHA1_Final ctx) = Ok (sha1 ((Z.lxor 0x36 <$> rkey) ++ text))).
  { apply H2; [|rewrite length_app, Hkl'; lia]. rewrite !Forall_cons. split_and!; try done; [by apply Hkb|rewrite Hkl'; lia]. }
  apply bind_Ok_inv in Hinner as (ctx2' & -> & Hf). rewrite bind_Ok, Hf, bind_Ok. rewrite E1 in H1. cbn [rbind] in H1.
  apply H1; [|rewrite length_app, Hkl', sha1_length; lia]. rewrite !Forall_cons. split_and!; try done; [by apply Hkb|rewrite Hkl'; lia|apply sha1_bytes|rewrite sha1_length; lia].
Qed.

Lemma hmac_sha1_correct_witness :
  l_hmac_sha1 [74; 101; 102; 101] [119; 104; 97; 116] = Ok (hmac_sha1 [74; 101; 102; 101] [119; 104; 97; 116]).
Proof. apply (hmac_sha1_correct [74; 101; 102; 101] [119; 104; 97; 116]); (by vm_compute) || by repeat (constructor; [by vm_compute|]). Defined.

(** The digest of a text of 512 MiB or more is not its SHA-1: [sat_SHA1_Update] compares the
    32-bit low word of the count with the 64-bit number of bits, always finds it smaller and
    counts a carry, so that the length at the end of the padding is 2^32 bits too large. *)
Theorem sha1_long_text_wrong_length text : Forall is_byte text → 2 ^ 29 <= Z.of_nat (length text) < 2 ^ 60 →
  l_sha1 text = Ok (sha1_digest (sha1_pad text (8 * Z.of_nat (length text) + 2 ^ 32))).
Proof.
  intros Hb Hl. unfold l_sha1. destruct (update_spec sat_SHA1_Init [] text init_ok Hb) as (ctx & -> & Hok & H1). rewrite bind_Ok.
  cbn [app] in Hok. rewrite (final_spec _ _ Hok). do 3 f_equal. rewrite H1, (cx_count _ _ Hok). unfold next_count1. cbn [count0 count1 sat_SHA1_Init].
  rewrite Z.shiftl_mul_pow2, Z.shiftr_div_pow2 by lia. change (2 ^ 3) with 8. rewrite (u64_small (_ * 8)) by lia.
  rewrite (proj2 (Z.ltb_lt _ _)) by (eapply Z.lt_le_trans; [apply u32_range|lia]). unfold u32.
  set (n := Z.of_nat (length text)) in *. Z.to_euclidean_division_equations; lia.
Qed.

Lemma sha1_long_text_wrong_length_witness :
  l_sha1 (replicate (Z.to_nat (2 ^ 29)) 0) = Ok (sha1_digest (sha1_pad (replicate (Z.to_nat (2 ^ 29)) 0) (8 * Z.of_nat (length (replicate (Z.to_nat (2 ^ 29)) 0)) + 2 ^ 32))).
Proof.
  apply (sha1_long_text_wrong_length (replicate (Z.to_nat (2 ^ 29)) 0)); [apply Forall_replicate; by split|].
  rewrite length_replicate, Z2Nat.id; lia.
Defined.
