(* ===== verification/Cluster.v ===== *)
(** * Messages between nodes (luaclib-src/lua-cluster.cpp)

    A request or a response to a service of another node is a package with a 16-bit length, most
    significant byte first; a message of 32 KiB or more is sent as a first package with its size
    and packages with its parts. The packages are built in an array of [TEMP_LENGTH] bytes on
    the stack. A package is taken apart without its length, which the reader of the socket has
    consumed. [uint32_t] numbers are stored least significant byte first. *)
From S2P Require Import Prelude Bytes LuaCall.
Open Scope list_scope.
Open Scope Z_scope.

Definition TEMP_LENGTH : Z := 0x8200.
Definition MULTI_PART : Z := 0x8000.

Inductive cluster_error :=
  | InvalidRequestMessage
  | InvalidSession (session : Z)
  | NameNotString
  | NameTooLong (name : list Z)
  | TraceTagTooLong (size : Z)
  | InvalidClusterMessage (size : Z)
  | InvalidMultiRequest (size : Z)
  | InvalidMultiPart
  | InvalidPackageType (type : Z)
  | NeedLightUserdata.
Notation cluster := (lua_call cluster_error).

(** the first argument: a number, a string, or anything else *)
Inductive address := AddrNumber (n : Z) | AddrName (name : list Z) | AddrOther.

(** ** Building packages *)

Definition fill_uint32 (buf : buffer) (off n : Z) : result buffer :=
  copy_into buf off [byte_at n 0; byte_at n 8; byte_at n 16; byte_at n 24].

Definition fill_header (buf : buffer) (sz : Z) : result buffer :=
  massert (sz <? 0x10000);;;
  copy_into buf 0 [byte_at sz 8; byte_at sz 0].

(** [memcpy(buf + off, msg + from, sz)]; [msg] is a block of memory *)
Definition copy_message (buf : buffer) (off : Z) (msg : list Z) (from : nat) (sz : Z) : result buffer :=
  match slice msg from (Z.to_nat sz) with
  | Some bytes => copy_into buf off bytes
  | None => Err OutOfBounds
  end.

(** the package, and the number of packages that follow it *)
Definition packreq_number (addr session : Z) (msg : list Z) (sz : Z) (is_push : bool) : result (list Z * Z) :=
  let addr := u32 addr in
  let buf := malloc_buffer TEMP_LENGTH in
  if sz <? MULTI_PART then
    buf <- fill_header buf (sz + 9);;
    buf <- buffer_set buf 2 0;;
    buf <- fill_uint32 buf 3 addr;;
    buf <- fill_uint32 buf 7 (if is_push then 0 else u32 session);;
    buf <- copy_message buf 11 msg 0 sz;;
    req <- pushlstring buf (sz + 11);;
    Ok (req, 0)
  else
    let part := (sz - 1) / MULTI_PART + 1 in
    buf <- fill_header buf 13;;
    buf <- buffer_set buf 2 (if is_push then 0x41 else 1);;
    buf <- fill_uint32 buf 3 addr;;
    buf <- fill_uint32 buf 7 (u32 session);;
    buf <- fill_uint32 buf 11 sz;;
    req <- pushlstring buf 15;;
    Ok (req, part).

(** the name is not checked here: [packrequest] does, where the message is released *)
Definition packreq_string (name : list Z) (session : Z) (msg : list Z) (sz : Z) (is_push : bool) : result (list Z * Z) :=
  let namelen := Z.of_nat (length name) in
  let buf := malloc_buffer TEMP_LENGTH in
  if sz <? MULTI_PART then
    buf <- fill_header buf (sz + 6 + namelen);;
    buf <- buffer_set buf 2 0x80;;
    buf <- buffer_set buf 3 (namelen mod 256);;
    buf <- copy_into buf 4 name;;
    buf <- fill_uint32 buf (4 + namelen) (if is_push then 0 else u32 session);;
    buf <- copy_message buf (8 + namelen) msg 0 sz;;
    req <- pushlstring buf (sz + 8 + namelen);;
    Ok (req, 0)
  else
    let part := (sz - 1) / MULTI_PART + 1 in
    buf <- fill_header buf (10 + namelen);;
    buf <- buffer_set buf 2 (if is_push then 0xc1 else 0x81);;
    buf <- buffer_set buf 3 (namelen mod 256);;
    buf <- copy_into buf 4 name;;
    buf <- fill_uint32 buf (4 + namelen) (u32 session);;
    buf <- fill_uint32 buf (8 + namelen) sz;;
    req <- pushlstring buf (12 + namelen);;
    Ok (req, part).

(** one part; its last four steps are those of [l_packresponse] too *)
Definition pack_part (buf : buffer) (type_off type session_off session : Z) (msg : list Z) (from : nat) (s : Z) : result (list Z * buffer) :=
  buf <- buffer_set buf type_off type;;
  buf <- fill_header buf (s + 5);;
  buf <- fill_uint32 buf session_off session;;
  buf <- copy_message buf 7 msg from s;;
  p <- pushlstring buf (s + 7);;
  Ok (p, buf).

(** [for (i = 0; i < part; i++)]: the array is the same one for all parts *)
Fixpoint pack_parts (n : nat) (buf : buffer) (type_off more last session_off session : Z) (msg : list Z) (from : nat) (sz : Z) : result (list (list Z)) :=
  match n with
  | O => Ok []
  | S n =>
      let '(s, type) := if MULTI_PART <? sz then (MULTI_PART, more) else (sz, last) in
      let* (p, buf) := pack_part buf type_off type session_off session msg from s in
      ps <- pack_parts n buf type_off more last session_off session msg (from + Z.to_nat s) (sz - s);;
      Ok (p :: ps)
  end.

Definition packreq_multi (session : Z) (msg : list Z) (sz : Z) : result (list (list Z)) :=
  let part := (sz - 1) / MULTI_PART + 1 in
  pack_parts (Z.to_nat part) (malloc_buffer TEMP_LENGTH) 2 2 3 3 (u32 session) msg 0 sz.

(** Whether the message was released, and the results: the package, the next session, and the
    table of parts if there is one. [sz] and [session] are the integers that Lua gives. *)
Definition packrequest (addr : address) (session : Z) (msg : option (list Z)) (sz : Z) (is_push : bool) : bool * cluster (list Z * Z * option (list (list Z))) :=
  match msg with
  | None => (false, luaL_error InvalidRequestMessage)
  | Some msg =>
      let sz := u32 sz in
      let session := s32 session in
      (true,
       if session <=? 0 then luaL_error (InvalidSession session)
       else
         let~ (req, multipak) :=
           match addr with
           | AddrNumber n => lift (packreq_number n session msg sz is_push)
           | AddrName name =>
               let namelen := Z.of_nat (length name) in
               if (namelen <? 1) || (255 <? namelen) then luaL_error (NameTooLong name)
               else lift (packreq_string name session msg sz is_push)
           | AddrOther => luaL_error NameNotString
           end in
         let new_session := u32 (session + 1) in
         let new_session := if INT_MAX <? new_session then 1 else new_session in
         if multipak =? 0 then lret (req, new_session, None)
         else parts <~ lift (packreq_multi session msg sz);; lret (req, new_session, Some parts))
  end.

Definition l_packrequest (addr : address) (session : Z) (msg : option (list Z)) (sz : Z) := packrequest addr session msg sz false.
Definition l_packpush (addr : address) (session : Z) (msg : option (list Z)) (sz : Z) := packrequest addr session msg sz true.

Definition l_packtrace (tag : list Z) : cluster (list Z) :=
  let sz := Z.of_nat (length tag) in
  if 0x8000 <? sz then luaL_error (TraceTagTooLong (s32 sz))
  else lift (
    buf <- buffer_set (malloc_buffer TEMP_LENGTH) 2 4;;
    buf <- fill_header buf (sz + 1);;
    buf <- copy_into buf 3 tag;;
    pushlstring buf (sz + 3)).

(** ** Taking packages apart *)

Definition unpack_uint32 (buf : list Z) (off : Z) : result Z :=
  match slice buf (Z.to_nat off) 4 with Some l => Ok (read_le32 l 0) | None => Err OutOfBounds end.

(** [new char[sz]] and a copy of the bytes; also [lua_pushlstring(L, buffer, sz)] *)
Definition return_buffer (buf : list Z) (off sz : Z) : result (list Z) :=
  match slice buf (Z.to_nat off) (Z.to_nat sz) with Some l => Ok l | None => Err OutOfBounds end.

(** the results of [l_unpackrequest]: a whole request (with [is_push]), the first package of
    several, a part (with [padding]), a trace tag *)
Inductive request :=
  | Request (addr : address) (session : Z) (msg : list Z) (is_push : bool)
  | MultiRequest (addr : address) (session size : Z) (is_push : bool)
  | RequestPart (session : Z) (msg : list Z) (padding : bool)
  | Trace (tag : list Z).

Definition unpackreq_number (buf : list Z) (sz : Z) : cluster request :=
  if sz <? 9 then luaL_error (InvalidClusterMessage sz)
  else lift (
    address <- unpack_uint32 buf 1;;
    session <- unpack_uint32 buf 5;;
    msg <- return_buffer buf 9 (sz - 9);;
    Ok (Request (AddrNumber address) session msg (session =? 0))).

Definition unpackmreq_number (buf : list Z) (sz : Z) (is_push : bool) : cluster request :=
  if negb (sz =? 13) then luaL_error (InvalidMultiRequest sz)
  else lift (
    address <- unpack_uint32 buf 1;;
    session <- unpack_uint32 buf 5;;
    size <- unpack_uint32 buf 9;;
    Ok (MultiRequest (AddrNumber address) session size is_push)).

Definition unpackmreq_part (buf : list Z) (sz : Z) : cluster request :=
  if sz <? 5 then luaL_error InvalidMultiPart
  else lift (
    type <- arr_get buf 0;;
    session <- unpack_uint32 buf 1;;
    msg <- return_buffer buf 5 (sz - 5);;
    Ok (RequestPart session msg (type =? 2))).

Definition unpacktrace (buf : list Z) (sz : Z) : cluster request :=
  tag <~ lift (return_buffer buf 1 (sz - 1));; lret (Trace tag).

Definition unpackreq_string (buf : list Z) (sz : Z) : cluster request :=
  if sz <? 2 then luaL_error (InvalidClusterMessage sz)
  else
    namesz <~ lift (arr_get buf 1);;
    if sz <? namesz + 6 then luaL_error (InvalidClusterMessage sz)
    else lift (
      name <- return_buffer buf 2 namesz;;
      session <- unpack_uint32 buf (namesz + 2);;
      msg <- return_buffer buf (2 + namesz + 4) (sz - namesz - 6);;
      Ok (Request (AddrName name) session msg (session =? 0))).

Definition unpackmreq_string (buf : list Z) (sz : Z) (is_push : bool) : cluster request :=
  if sz <? 2 then luaL_error (InvalidClusterMessage sz)
  else
    namesz <~ lift (arr_get buf 1);;
    if sz <? namesz + 10 then luaL_error (InvalidClusterMessage sz)
    else lift (
      name <- return_buffer buf 2 namesz;;
      session <- unpack_uint32 buf (namesz + 2);;
      size <- unpack_uint32 buf (namesz + 6);;
      Ok (MultiRequest (AddrName name) session size is_push)).

(** The argument is a string; a pointer and a size are handled in the same way. The string ends
    with a zero byte, which [msg[0]] reads when it is empty. *)
Definition l_unpackrequest (msg : list Z) : cluster request :=
  let sz := s32 (Z.of_nat (length msg)) in
  let type := nth 0 msg 0 in
  if type =? 0 then unpackreq_number msg sz
  else if type =? 1 then unpackmreq_number msg sz false
  else if type =? 0x41 then unpackmreq_number msg sz true
  else if (type =? 2) || (type =? 3) then unpackmreq_part msg sz
  else if type =? 4 then unpacktrace msg sz
  else if type =? 0x80 then unpackreq_string msg sz
  else if type =? 0x81 then unpackmreq_string msg sz false
  else if type =? 0xc1 then unpackmreq_string msg sz true
  else luaL_error (InvalidPackageType (if type <? 128 then type else type - 256)).

(** ** Responses *)

(** one package, or a table of them *)
Definition l_packresponse (session : Z) (ok : bool) (msg : list Z) (sz : Z) : result (list Z + list (list Z)) :=
  let session := u32 session in
  let sz := u64 sz in
  if ok && (MULTI_PART <? sz) then
    let part := (sz - 1) / MULTI_PART + 1 in
    buf <- fill_header (malloc_buffer TEMP_LENGTH) 9;;
    buf <- fill_uint32 buf 2 session;;
    buf <- buffer_set buf 6 2;;
    buf <- fill_uint32 buf 7 (u32 sz);;
    first <- pushlstring buf 11;;
    ps <- pack_parts (Z.to_nat part) buf 6 3 4 2 session msg 0 sz;;
    Ok (inr (first :: ps))
  else
    let sz := if negb ok && (MULTI_PART <? sz) then MULTI_PART else sz in
    buf <- fill_header (malloc_buffer TEMP_LENGTH) (sz + 5);;
    buf <- fill_uint32 buf 2 session;;
    buf <- buffer_set buf 6 (if ok then 1 else 0);;
    buf <- copy_message buf 7 msg 0 sz;;
    p <- pushlstring buf (sz + 7);;
    Ok (inl p).

(** the results of [l_unpackresponse]: an error, a message or the last part, the size of a
    message in parts, a part; [None] when there is no result *)
Inductive response :=
  | Failed (session : Z) (text : list Z)
  | Done (session : Z) (msg : list Z)
  | MultiBegin (session size : Z)
  | MultiPart (session : Z) (msg : list Z).

Definition l_unpackresponse (buf : list Z) : result (option response) :=
  let sz := Z.of_nat (length buf) in
  if sz <? 5 then Ok None
  else
    session <- unpack_uint32 buf 0;;
    type <- arr_get buf 4;;
    let rest := return_buffer buf 5 (sz - 5) in
    if type =? 0 then text <- rest;; Ok (Some (Failed session text))
    else if (type =? 1) || (type =? 4) then msg <- rest;; Ok (Some (Done session msg))
    else if type =? 2 then
      if negb (sz =? 9) then Ok None
      else size <- unpack_uint32 buf 5;; Ok (Some (MultiBegin session size))
    else if type =? 3 then msg <- rest;; Ok (Some (MultiPart session msg))
    else Ok None.

(** ** Putting parts together *)

(** the elements of the table of a message in parts *)
Inductive part_value := PartNumber (n : Z) | PartString (s : list Z).

(** [append(t, nil, value)] and [append(t, pointer, sz)]; the block is released *)
Definition l_append_value (t : list part_value) (v : part_value) : list part_value := t ++ [v].
Definition l_append (t : list part_value) (block : option (list Z)) (sz : Z) : cluster (list part_value) :=
  match block with
  | None => luaL_error NeedLightUserdata
  | Some bytes => s <~ lift (return_buffer bytes 0 sz);; lret (t ++ [PartString s])
  end.

(** [while (lua_geti(L, 1, idx) == LUA_TSTRING)]: what is in the buffer at the end *)
Fixpoint concat_loop (t : list part_value) (buff : buffer) (offset sz : Z) : result (option (Z * buffer)) :=
  match t with
  | PartString str :: t =>
      let s := Z.of_nat (length str) in
      if sz <? s + offset then Ok None
      else
        buff <- copy_into buff offset str;;
        offset <- int_chk (offset + s);;
        concat_loop t buff offset sz
  | _ => Ok (Some (offset, buff))
  end.

(** [None] when there is no result; [sz] is an [int], and [new] throws when it is negative *)
Definition l_concat (t : list part_value) : result (option (list Z)) :=
  match t with
  | PartNumber n :: t =>
      let sz := s32 n in
      if sz <? 0 then Err UncaughtException
      else
        o <- concat_loop t (malloc_buffer sz) 0 sz;;
        match o with
        | Some (offset, buff) => if negb (offset =? sz) then Ok None else l <- pushlstring buff sz;; Ok (Some l)
        | None => Ok None
        end
  | _ => Ok None
  end.

Definition l_is_name (name : option (list Z)) : bool :=
  match name with Some (c :: _) => c =? 64 | _ => false end.

(** ** The receiver of requests (service/cluster_agent.lua)

    [large_request]: the requests whose parts are still on the way, by session. The tags of
    traces do not change what is handed over and are left out. *)
Record large_req := mkLarge { lr_addr : address; lr_is_push : bool; lr_parts : list part_value }.
Definition agent : Type := gmap Z large_req.

(** a request that is handed over; the agent answers "Invalid large req" when the parts do not
    give the message *)
Inductive dispatched :=
  | Deliver (addr : address) (session : Z) (msg : list Z) (is_push : bool)
  | InvalidLargeReq (session : Z).

(** a package with [padding]: [addr] and [is_push] are those of a new request *)
Definition padding_request (large_request : agent) (addr : address) (session : Z) (is_push : bool) : large_req :=
  default (mkLarge addr is_push []) (large_request !! session).

(** a package without [padding], whose message is a block of memory *)
Definition last_request (large_request : agent) (addr : address) (session : Z) (msg : list Z) (is_push : bool) : cluster (agent * option dispatched) :=
  match large_request !! session with
  | None => lret (large_request, Some (Deliver addr session msg is_push))
  | Some req =>
      parts <~ l_append (lr_parts req) (Some msg) (Z.of_nat (length msg));;
      m <~ lift (l_concat parts);;
      lret (delete session large_request,
            Some match m with
                 | Some msg => Deliver (lr_addr req) session msg (lr_is_push req)
                 | None => InvalidLargeReq session
                 end)
  end.

Definition dispatch_request (large_request : agent) (r : request) : cluster (agent * option dispatched) :=
  match r with
  | Trace _ => lret (large_request, None)
  | MultiRequest addr session size is_push =>
      let req := padding_request large_request addr session is_push in
      let parts := l_append_value (lr_parts req) (PartNumber size) in
      lret (<[session := mkLarge (lr_addr req) (lr_is_push req) parts]> large_request, None)
  | RequestPart session msg true =>
      let req := padding_request large_request AddrOther session false in
      parts <~ l_append (lr_parts req) (Some msg) (Z.of_nat (length msg));;
      lret (<[session := mkLarge (lr_addr req) (lr_is_push req) parts]> large_request, None)
  | RequestPart session msg false => last_request large_request AddrOther session msg false
  | Request addr session msg is_push => last_request large_request addr session msg is_push
  end.

(** the packages of a connection, one after the other *)
Fixpoint dispatch_all (large_request : agent) (packages : list (list Z)) : cluster (agent * list (option dispatched)) :=
  match packages with
  | [] => lret (large_request, [])
  | msg :: packages =>
      r <~ l_unpackrequest msg;;
      let~ (large_request, d) := dispatch_request large_request r in
      let~ (large_request, ds) := dispatch_all large_request packages in
      lret (large_request, d :: ds)
  end.

(** ** The receiver of responses (lualib/skynet/socket_channel.lua, service/cluster_sender.lua)

    The responses of the request with this session: a table when it comes in parts, which
    [CMD.req] puts together. *)
Inductive answer := Answer (msg : list Z) | Failure (text : list Z) | NoAnswer.

Fixpoint dispatch_by_session (session : Z) (result_data : option (list part_value)) (packages : list (list Z)) : result answer :=
  match packages with
  | [] => Ok NoAnswer
  | msg :: packages =>
      r <- l_unpackresponse msg;;
      let insert v := dispatch_by_session session (Some (default [] result_data ++ [v])) packages in
      match r with
      | None => Ok NoAnswer
      | Some (MultiBegin s size) => if s =? session then insert (PartNumber size) else Ok NoAnswer
      | Some (MultiPart s data) => if s =? session then insert (PartString data) else Ok NoAnswer
      | Some (Failed s text) => Ok (if s =? session then Failure text else NoAnswer)
      | Some (Done s data) =>
          if s =? session then
            match result_data with
            | None => Ok (Answer data)
            | Some t => m <- l_concat (t ++ [PartString data]);; Ok (match m with Some m => Answer m | None => NoAnswer end)
            end
          else Ok NoAnswer
      end
  end.
