(* ===== verification/ClusterProof.v ===== *)
(** * Requests and responses arrive as they were sent

    What [packrequest] and [l_packresponse] build is what [l_unpackrequest] and
    [l_unpackresponse] take apart; a message in parts is put together again by [l_concat]. The
    receiver of requests is the service cluster_agent, which keeps the messages whose parts are
    still on the way in a table of sessions. *)
From S2P Require Import Prelude Bytes LuaCall Cluster Netpack NetpackStream.
Open Scope list_scope.
Open Scope Z_scope.

(** ** The packages, without their length *)

(** the parts of a message of [n] times [MULTI_PART] bytes at most *)
Fixpoint pieces (n : nat) (msg : list Z) : list (list Z) :=
  match n with
  | O => []
  | S n => take (Z.to_nat MULTI_PART) msg :: pieces n (drop (Z.to_nat MULTI_PART) msg)
  end.
Definition part_count (msg : list Z) : nat := Z.to_nat ((Z.of_nat (length msg) - 1) / MULTI_PART + 1).
Definition small (msg : list Z) : bool := Z.of_nat (length msg) <? MULTI_PART.

(** the type of the [i]-th of [n] parts *)
Fixpoint with_types (more last : Z) (l : list (list Z)) : list (Z * list Z) :=
  match l with
  | [] => []
  | [p] => [(last, p)]
  | p :: l => (more, p) :: with_types more last l
  end.

Definition request_head (addr : address) (session : Z) (msg : list Z) (is_push : bool) : list Z :=
  let sz := Z.of_nat (length msg) in
  let wire := if is_push then 0 else session in
  match addr with
  | AddrNumber n =>
      if small msg then 0 :: le_bytes 4 n ++ le_bytes 4 wire ++ msg
      else (if is_push then 0x41 else 1) :: le_bytes 4 n ++ le_bytes 4 session ++ le_bytes 4 sz
  | AddrName name =>
      if small msg then 0x80 :: Z.of_nat (length name) :: name ++ le_bytes 4 wire ++ msg
      else (if is_push then 0xc1 else 0x81) :: Z.of_nat (length name) :: name ++ le_bytes 4 session ++ le_bytes 4 sz
  | AddrOther => []
  end.
Definition request_part (session : Z) (tp : Z * list Z) : list Z := tp.1 :: le_bytes 4 session ++ tp.2.
Definition request_parts (session : Z) (msg : list Z) : list (list Z) :=
  if small msg then [] else request_part session <$> with_types 2 3 (pieces (part_count msg) msg).

Definition frame (body : list Z) : list Z :=
  byte_at (Z.of_nat (length body)) 8 :: byte_at (Z.of_nat (length body)) 0 :: body.

Definition addr_ok (addr : address) : Prop :=
  match addr with
  | AddrNumber n => 0 <= n < 2 ^ 32
  | AddrName name => (1 <= length name <= 255)%nat
  | AddrOther => False
  end.

(** ** Writing and reading fields *)

Lemma fill_bytes n : 0 <= n < 2 ^ 32 → [byte_at n 0; byte_at n 8; byte_at n 16; byte_at n 24] = le_bytes 4 n.
Proof.
  intros Hn. rewrite !byte_at_spec by lia. cbn [le_bytes]. rewrite !Z.div_div by lia.
  by rewrite Z.pow_0_r, Z.div_1_r.
Qed.

Lemma copy_ok (b : buffer) off (o : nat) bytes : off = Z.of_nat o → (o + length bytes <= length b)%nat →
  copy_into b off bytes = Ok (take o b ++ (Some <$> bytes) ++ drop (o + length bytes) b).
Proof.
  intros -> H. unfold copy_into. rewrite (proj2 (Z.leb_le 0 _)), (proj2 (Z.leb_le _ _)) by lia.
  by rewrite Nat2Z.id.
Qed.

Lemma copy_more data k off bytes : off = Z.of_nat (length data) → (length bytes <= k)%nat →
  copy_into (filled data k) off bytes = Ok (filled (data ++ bytes) (k - length bytes)).
Proof. intros ->. apply copy_spec. Qed.

Lemma slice_at (a b c : list Z) off n : off = length a → n = length b → slice (a ++ b ++ c) off n = Some b.
Proof. intros -> ->. apply slice_app. Qed.

Lemma slice_some (l : list Z) off n : (off + n <= length l)%nat → slice l off n = Some (take n (drop off l)).
Proof. intros H. unfold slice. by rewrite decide_True. Qed.

Lemma return_buffer_at buf a b c off n : buf = a ++ b ++ c → off = Z.of_nat (length a) → n = Z.of_nat (length b) →
  return_buffer buf off n = Ok b.
Proof. intros -> -> ->. unfold return_buffer. by rewrite slice_at by lia. Qed.

Lemma unpack_at buf a n c off : buf = a ++ le_bytes 4 n ++ c → off = Z.of_nat (length a) → 0 <= n < 2 ^ 32 →
  unpack_uint32 buf off = Ok n.
Proof.
  intros -> -> Hn. unfold unpack_uint32. rewrite slice_at by (rewrite ?le_bytes_length; lia).
  rewrite read_le32_spec by (rewrite ?le_bytes_length; auto using le_bytes_byte).
  rewrite drop_0, take_ge, le_value_u32, u32_small by (rewrite ?le_bytes_length; lia). done.
Qed.

#[local] Hint Rewrite @length_app @length_cons @length_take @length_drop @length_fmap @length_replicate le_bytes_length : lens.
Ltac lens := autorewrite with lens in *; cbn [length] in *.
Ltac far := unfold TEMP_LENGTH, MULTI_PART, INT_MAX in *; lens; lia.

Lemma fill_header_spec n : 0 <= n < 0x10000 →
  fill_header (malloc_buffer TEMP_LENGTH) n = Ok (filled [byte_at n 8; byte_at n 0] (Z.to_nat TEMP_LENGTH - 2)).
Proof.
  intros Hn. unfold fill_header. rewrite (proj2 (Z.ltb_lt _ _)) by lia. unfold massert. rewrite bind_Ok.
  exact (copy_more [] (Z.to_nat TEMP_LENGTH) 0 [_; _] eq_refl ltac:(far)).
Qed.

Lemma fill_uint32_spec data k off n : off = Z.of_nat (length data) → (4 <= k)%nat → 0 <= n < 2 ^ 32 →
  fill_uint32 (filled data k) off n = Ok (filled (data ++ le_bytes 4 n) (k - 4)).
Proof. intros ? ? ?. unfold fill_uint32. by rewrite fill_bytes, copy_more, le_bytes_length by (rewrite ?le_bytes_length; lia). Qed.

Lemma copy_message_spec data k off msg sz : off = Z.of_nat (length data) → sz = Z.of_nat (length msg) → (length msg <= k)%nat →
  copy_message (filled data k) off msg 0 sz = Ok (filled (data ++ msg) (k - length msg)).
Proof. intros ? -> ?. unfold copy_message. rewrite slice_some, drop_0, take_ge by lia. by apply copy_more. Qed.

Lemma push_frame data (r : buffer) n body : data = frame body → n = Z.of_nat (length body) + 2 →
  pushlstring ((Some <$> data) ++ r) n = Ok (frame body).
Proof. intros -> ->. apply pushlstring_app. unfold frame. lens. lia. Qed.

Lemma length_pieces n msg : length (pieces n msg) = n.
Proof. revert msg. induction n as [|n IH]; intros msg; [done|]. cbn [pieces length]. by rewrite IH. Qed.
Lemma length_with_types more last l : length (with_types more last l) = length l.
Proof. induction l as [|p [|q l] IH]; [done..|]. cbn [with_types length] in *. by rewrite IH. Qed.

Lemma length_parts session msg : Z.of_nat (length (request_parts session msg)) =
  if small msg then 0 else (Z.of_nat (length msg) - 1) / MULTI_PART + 1.
Proof.
  unfold request_parts. destruct (small msg) eqn:E; [done|]. rewrite length_fmap, length_with_types, length_pieces. unfold part_count.
  unfold small in E. apply Z.ltb_ge in E. apply Z2Nat.id. pose proof (Z.div_pos (Z.of_nat (length msg) - 1) MULTI_PART). unfold MULTI_PART in *. lia.
Qed.

(** the fields of a package, one after the other *)
Ltac fields :=
  rewrite fill_header_spec by far;
  repeat first
    [ rewrite bind_Ok
    | rewrite buffer_set_spec by far
    | rewrite fill_uint32_spec by far
    | rewrite copy_more by far
    | rewrite copy_message_spec by far ].
Lemma frame_eq n body body' : n = Z.of_nat (length body) → body' = body → [byte_at n 8; byte_at n 0] ++ body' = frame body.
Proof. by intros -> ->. Qed.
Ltac to_frame := rewrite <- ?app_assoc; apply frame_eq; [lens; lia|done].
Ltac push_the_frame :=
  match goal with |- context [replicate ?k None] => generalize k; intros k' end;
  match goal with |- context [frame ?b] => rewrite (push_frame _ _ _ b); [done|to_frame|far] end.

Lemma packreq_number_spec n session msg is_push : 0 <= n < 2 ^ 32 → 0 < session <= INT_MAX → Z.of_nat (length msg) < 2 ^ 32 →
  packreq_number n session msg (Z.of_nat (length msg)) is_push =
    Ok (frame (request_head (AddrNumber n) session msg is_push), Z.of_nat (length (request_parts session msg))).
Proof.
  intros Hn Hs Hm. rewrite length_parts. unfold packreq_number, request_head. fold (small msg).
  rewrite !u32_small by (unfold INT_MAX in *; lia). destruct (small msg) eqn:E; unfold small in E; [apply Z.ltb_lt in E|apply Z.ltb_ge in E].
  - destruct is_push; fields; push_the_frame.
  - destruct is_push; fields; push_the_frame.
Qed.

Lemma packreq_string_spec name session msg is_push : (1 <= length name <= 255)%nat → 0 < session <= INT_MAX → Z.of_nat (length msg) < 2 ^ 32 →
  packreq_string name session msg (Z.of_nat (length msg)) is_push =
    Ok (frame (request_head (AddrName name) session msg is_push), Z.of_nat (length (request_parts session msg))).
Proof.
  intros Hn Hs Hm. rewrite length_parts. unfold packreq_string, request_head. fold (small msg).
  rewrite !u32_small, (Z.mod_small _ 256) by (unfold INT_MAX in *; lia). destruct (small msg) eqn:E; unfold small in E; [apply Z.ltb_lt in E|apply Z.ltb_ge in E].
  - destruct is_push; fields; push_the_frame.
  - destruct is_push; fields; push_the_frame.
Qed.

(** ** Parts *)

Ltac put o :=
  rewrite (copy_ok _ _ o) by (lens; lia); rewrite !bind_Ok; cbn [Nat.add take drop app fmap list_fmap length].

Lemma push_part (b : buffer) body r n : b = (Some <$> frame body) ++ r → n = Z.of_nat (length body) + 2 → pushlstring b n = Ok (frame body).
Proof. intros ->. by apply push_frame. Qed.
Ltac push_the_part p buf :=
  change (2 =? 2) with true; change (6 =? 2) with false; cbv iota; cbn [app];
  rewrite !take_0, !drop_0;
  match goal with
  | |- ∃ _, rbind (pushlstring ?b _) _ = Ok (frame ?body, _) ∧ _ =>
      exists b; split; [|lens; lia];
      rewrite (push_part b body (drop (length p) buf)); [done| |lens; lia];
      replace (Z.of_nat (length p) + 5) with (Z.of_nat (length body)) by (lens; lia); reflexivity
  end.

Lemma pack_part_spec buf type_off type session_off session msg from s : 
  (type_off = 2 ∧ session_off = 3 ∨ type_off = 6 ∧ session_off = 2) → 0 <= session < 2 ^ 32 →
  length buf = Z.to_nat TEMP_LENGTH → 0 <= s <= MULTI_PART → (from + Z.to_nat s <= length msg)%nat →
  let p := take (Z.to_nat s) (drop from msg) in
  ∃ buf', pack_part buf type_off type session_off session msg from s =
    Ok (frame (if type_off =? 2 then type :: le_bytes 4 session ++ p else le_bytes 4 session ++ type :: p), buf') ∧ length buf' = length buf.
Proof.
  intros Hoff Hsess Hbuf Hs Hfrom p.
  assert (Hp : Z.of_nat (length p) = s) by (unfold p; rewrite length_take, length_drop; lia).
  unfold pack_part, fill_header, fill_uint32, buffer_set, copy_message. rewrite (proj2 (Z.ltb_lt _ _)) by far. unfold massert.
  rewrite fill_bytes, slice_some by done. fold p. clearbody p.
  do 7 (destruct buf as [|? buf]; [unfold TEMP_LENGTH in Hbuf; cbn [length] in Hbuf; lia|]).
  assert (Hl : (length p <= length buf)%nat) by far. 
  generalize (le_bytes_length 4 session). generalize (le_bytes 4 session). intros d Hd.
  do 5 (destruct d as [|? d]; try discriminate Hd). subst s.
  destruct Hoff as [[-> ->]|[-> ->]].
  - put 2%nat. put 0%nat. put 3%nat. put 7%nat. push_the_part p buf.
  - put 6%nat. put 0%nat. put 2%nat. put 7%nat. push_the_part p buf.
Qed.

Definition part_body (type_off session : Z) (tp : Z * list Z) : list Z :=
  if type_off =? 2 then tp.1 :: le_bytes 4 session ++ tp.2 else le_bytes 4 session ++ tp.1 :: tp.2.

Lemma pack_parts_spec n buf type_off more last session_off session msg from sz :
  (type_off = 2 ∧ session_off = 3 ∨ type_off = 6 ∧ session_off = 2) → 0 <= session < 2 ^ 32 →
  length buf = Z.to_nat TEMP_LENGTH → sz = Z.of_nat (length msg) - Z.of_nat from → (Z.of_nat n - 1) * MULTI_PART < sz <= Z.of_nat n * MULTI_PART → 0 < sz →
  pack_parts n buf type_off more last session_off session msg from sz =
    Ok (frame ∘ part_body type_off session <$> with_types more last (pieces n (drop from msg))).
Proof.
  intros Hoff Hsess. revert buf from sz. induction n as [|n IH]; intros buf from sz Hbuf Hsz Hn Hpos; [lia|].
  cbn [pack_parts pieces]. destruct (Z.ltb_spec MULTI_PART sz) as [Hmore|Hlast].
  - destruct (pack_part_spec buf type_off more session_off session msg from MULTI_PART) as (buf' & -> & Hb'); [done..|unfold MULTI_PART in *; lia|lia|].
    rewrite bind_Ok, IH by (unfold MULTI_PART in *; lia). rewrite bind_Ok, drop_drop.
    destruct n as [|n]; [lia|]. cbn [pieces with_types]. generalize (Z.to_nat MULTI_PART). intros k. rewrite !drop_drop. by rewrite fmap_cons.
  - assert (n = 0%nat) as -> by (unfold MULTI_PART in *; lia).
    destruct (pack_part_spec buf type_off last session_off session msg from sz) as (buf' & -> & Hb'); [done..|lia|lia|].
    rewrite bind_Ok. cbn [pack_parts pieces with_types]. rewrite bind_Ok, !take_ge by (rewrite length_drop; lia). by rewrite fmap_cons.
Qed.

Lemma part_count_spec msg : (0 < length msg)%nat →
  (Z.of_nat (part_count msg) - 1) * MULTI_PART < Z.of_nat (length msg) <= Z.of_nat (part_count msg) * MULTI_PART.
Proof.
  intros Hm. unfold part_count. pose proof (Z.div_mod (Z.of_nat (length msg) - 1) MULTI_PART) as Hd.
  pose proof (Z.mod_pos_bound (Z.of_nat (length msg) - 1) MULTI_PART) as Hr. unfold MULTI_PART in *.
  rewrite Z2Nat.id by (apply Z.add_nonneg_nonneg; [apply Z.div_pos; lia|lia]). lia.
Qed.

Lemma packreq_multi_spec session msg : 0 < session <= INT_MAX → small msg = false → Z.of_nat (length msg) < 2 ^ 32 →
  packreq_multi session msg (Z.of_nat (length msg)) = Ok (frame <$> request_parts session msg).
Proof.
  intros Hs Hsmall Hm. unfold packreq_multi, request_parts. rewrite Hsmall, u32_small by (unfold INT_MAX in *; lia).
  unfold small in Hsmall. apply Z.ltb_ge in Hsmall. fold (part_count msg).
  assert (0 < length msg)%nat by (unfold MULTI_PART in *; lia).
  rewrite pack_parts_spec by (first [by left|unfold INT_MAX in *; lia|apply length_replicate|by apply part_count_spec]).
  by rewrite drop_0, <- list_fmap_compose.
Qed.

(** the next session after [session] *)
Definition following_session (session : Z) : Z := if session =? INT_MAX then 1 else session + 1.

Lemma packrequest_spec addr session msg is_push :
  addr_ok addr → 0 < session <= INT_MAX → Z.of_nat (length msg) < 2 ^ 32 →
  packrequest addr session (Some msg) (Z.of_nat (length msg)) is_push =
    (true, lret (frame (request_head addr session msg is_push), following_session session,
                 if small msg then None else Some (frame <$> request_parts session msg))).
Proof.
  intros Ha Hs Hm. unfold packrequest. rewrite u32_small, s32_small by (unfold INT_MAX in *; lia). f_equal.
  rewrite (proj2 (Z.leb_gt _ _)) by lia.
  assert (Hnext : (let n := u32 (session + 1) in if INT_MAX <? n then 1 else n) = following_session session).
  { unfold following_session. cbv zeta. rewrite u32_small by (unfold INT_MAX in *; lia).
    destruct (Z.eqb_spec session INT_MAX), (Z.ltb_spec INT_MAX (session + 1)); lia. }
  assert (Hpart := length_parts session msg).
  assert (Hmulti : (Z.of_nat (length (request_parts session msg)) =? 0) = small msg).
  { rewrite Hpart. destruct (small msg) eqn:E; [done|]. apply Z.eqb_neq. unfold small in E. apply Z.ltb_ge in E.
    pose proof (Z.div_pos (Z.of_nat (length msg) - 1) MULTI_PART). unfold MULTI_PART in *. lia. }
  cbv zeta in Hnext.
  destruct addr as [n|name|]; [| |done]; cbn [addr_ok] in Ha.
  - rewrite packreq_number_spec, lift_Ok, lbind_Ok by done. cbv zeta. rewrite Hnext, Hmulti.
    destruct (small msg) eqn:E; [done|]. by rewrite packreq_multi_spec.
  - rewrite (proj2 (orb_false_iff _ _)) by (rewrite !Z.ltb_ge; lia).
    rewrite packreq_string_spec, lift_Ok, lbind_Ok by done. cbv zeta. rewrite Hnext, Hmulti.
    destruct (small msg) eqn:E; [done|]. by rewrite packreq_multi_spec.
Qed.

(** ** Taking packages apart *)

Ltac parts_of := cbn [app]; by rewrite ?app_nil_r, <- ?app_assoc.
Ltac read_word a n c := rewrite (unpack_at _ a n c); [rewrite bind_Ok|parts_of|far|done].
Ltac read_block a b c := rewrite (return_buffer_at _ a b c); [rewrite ?bind_Ok|parts_of|far|far].

Lemma unpack_small addr session msg is_push : addr_ok addr → 0 < session <= INT_MAX → small msg = true →
  l_unpackrequest (request_head addr session msg is_push) = lret (Request addr (if is_push then 0 else session) msg is_push).
Proof.
  intros Ha Hs Hsmall. assert (Hm := Hsmall). unfold small in Hm. apply Z.ltb_lt in Hm. unfold request_head. rewrite Hsmall.
  set (wire := if is_push then 0 else session). assert (Hw : 0 <= wire < 2 ^ 32) by (unfold wire, INT_MAX in *; destruct is_push; lia).
  assert (Hz : (wire =? 0) = is_push) by (unfold wire; destruct is_push; [done|apply Z.eqb_neq; lia]). clearbody wire.
  destruct addr as [n|name|]; [| |done]; cbn [addr_ok] in Ha; unfold l_unpackrequest; cbn [nth Z.eqb Pos.eqb orb]; rewrite s32_small by far.
  - unfold unpackreq_number. rewrite (proj2 (Z.ltb_ge _ _)) by far.
    read_word [0] n (le_bytes 4 wire ++ msg). read_word (0 :: le_bytes 4 n) wire msg.
    read_block (0 :: le_bytes 4 n ++ le_bytes 4 wire) msg (@nil Z). by rewrite Hz.
  - unfold unpackreq_string. rewrite (proj2 (Z.ltb_ge _ _)) by far.
    rewrite (arr_get_Ok _ 1 (Z.of_nat (length name))), lift_Ok, lbind_Ok by (done || lia). rewrite (proj2 (Z.ltb_ge _ _)) by far.
    read_block [0x80; Z.of_nat (length name)] name (le_bytes 4 wire ++ msg).
    read_word (0x80 :: Z.of_nat (length name) :: name) wire msg.
    read_block (0x80 :: Z.of_nat (length name) :: name ++ le_bytes 4 wire) msg (@nil Z). by rewrite Hz.
Qed.

Lemma unpack_multi addr session msg is_push : addr_ok addr → 0 < session <= INT_MAX → small msg = false → Z.of_nat (length msg) < 2 ^ 32 →
  l_unpackrequest (request_head addr session msg is_push) = lret (MultiRequest addr session (Z.of_nat (length msg)) is_push).
Proof.
  intros Ha Hs Hsmall Hm. unfold request_head. rewrite Hsmall. set (sz := Z.of_nat (length msg)) in *.
  assert (0 <= sz < 2 ^ 32) by lia. assert (0 <= session < 2 ^ 32) by (unfold INT_MAX in *; lia). clearbody sz.
  destruct addr as [n|name|]; [| |done]; cbn [addr_ok] in Ha; unfold l_unpackrequest.
  - transitivity (unpackmreq_number ((if is_push then 0x41 else 1) :: le_bytes 4 n ++ le_bytes 4 session ++ le_bytes 4 sz) 13 is_push).
    { destruct is_push; done. }
    generalize (if is_push then 0x41 else 1). intros t. unfold unpackmreq_number. cbn [Z.eqb Pos.eqb negb].
    read_word [t] n (le_bytes 4 session ++ le_bytes 4 sz). read_word (t :: le_bytes 4 n) session (le_bytes 4 sz).
    read_word (t :: le_bytes 4 n ++ le_bytes 4 session) sz (@nil Z). done.
  - set (t := if is_push then 0xc1 else 0x81). set (l := Z.of_nat (length name)).
    transitivity (unpackmreq_string (t :: l :: name ++ le_bytes 4 session ++ le_bytes 4 sz) (10 + l) is_push).
    { rewrite s32_small by (unfold l; far). replace (Z.of_nat (length _)) with (10 + l) by (unfold l; far). unfold t. by destruct is_push. }
    clearbody t. unfold unpackmreq_string. rewrite (proj2 (Z.ltb_ge _ _)) by lia.
    rewrite (arr_get_Ok _ 1 l), lift_Ok, lbind_Ok by (done || lia). rewrite (proj2 (Z.ltb_ge _ _)) by lia. unfold l.
    read_block [t; Z.of_nat (length name)] name (le_bytes 4 session ++ le_bytes 4 sz).
    read_word (t :: Z.of_nat (length name) :: name) session (le_bytes 4 sz).
    read_word (t :: Z.of_nat (length name) :: name ++ le_bytes 4 session) sz (@nil Z). done.
Qed.

Lemma unpack_part t session p : t = 2 ∨ t = 3 → 0 <= session < 2 ^ 32 → Z.of_nat (length p) <= MULTI_PART →
  l_unpackrequest (request_part session (t, p)) = lret (RequestPart session p (t =? 2)).
Proof.
  intros Ht Hs Hp. unfold request_part, fst, snd. transitivity (unpackmreq_part (t :: le_bytes 4 session ++ p) (5 + Z.of_nat (length p))).
  { unfold l_unpackrequest. rewrite s32_small by far. replace (Z.of_nat (length _)) with (5 + Z.of_nat (length p)) by far.
    by destruct Ht as [-> | ->]. }
  unfold unpackmreq_part. rewrite (proj2 (Z.ltb_ge _ _)) by lia. rewrite (arr_get_Ok _ 0 t), bind_Ok by (done || lia).
  read_word [t] session p. read_block (t :: le_bytes 4 session) p (@nil Z). done.
Qed.

(** ** Putting the parts together *)

Lemma pieces_concat n msg : Z.of_nat (length msg) <= Z.of_nat n * MULTI_PART → concat (pieces n msg) = msg.
Proof.
  revert msg. induction n as [|n IH]; intros msg Hm; [destruct msg; [done|cbn [length] in Hm; lia]|].
  cbn [pieces concat]. rewrite IH by (rewrite length_drop; unfold MULTI_PART in *; lia). apply take_drop.
Qed.

Lemma pieces_small n msg : Forall (λ p, Z.of_nat (length p) <= MULTI_PART) (pieces n msg).
Proof.
  revert msg. induction n as [|n IH]; intros msg; cbn [pieces]; constructor; [|apply IH].
  rewrite length_take. unfold MULTI_PART. lia.
Qed.

Lemma with_types_lookup more last l i :
  with_types more last l !! i = (λ p, (if decide (S i = length l) then last else more, p)) <$> l !! i.
Proof.
  revert i. induction l as [|p l IH]; intros i; [done|]. destruct l as [|q l].
  - by destruct i as [|[|i]].
  - change (with_types more last (p :: q :: l)) with ((more, p) :: with_types more last (q :: l)). destruct i as [|i]; [done|].
    cbn [lookup list_lookup]. rewrite IH. destruct ((q :: l) !! i); [|done]. cbn [fmap option_fmap option_map].
    do 2 f_equal. cbn [length]. repeat case_decide; lia || done.
Qed.

Lemma concat_loop_spec ps data k sz : (length (concat ps) <= k)%nat → sz = Z.of_nat (length data + length (concat ps)) → sz <= INT_MAX →
  concat_loop (PartString <$> ps) (filled data k) (Z.of_nat (length data)) sz =
    Ok (Some (sz, filled (data ++ concat ps) (k - length (concat ps)))).
Proof.
  revert data k. induction ps as [|p ps IH]; intros data k Hk Hsz Hmax; cbn [concat] in *; rewrite ?fmap_cons; cbn [concat_loop fmap list_fmap].
  - rewrite app_nil_r, Nat.sub_0_r. cbn [length] in Hsz. by replace sz with (Z.of_nat (length data)) by lia.
  - rewrite length_app in *. rewrite (proj2 (Z.ltb_ge _ _)), copy_spec, bind_Ok, int_chk_Ok, bind_Ok by lia.
    replace (Z.of_nat (length data) + Z.of_nat (length p)) with (Z.of_nat (length (data ++ p))) by (rewrite length_app; lia).
    rewrite IH by (rewrite ?length_app; lia). rewrite <- app_assoc. do 4 f_equal. f_equal. lia.
Qed.

Lemma concat_spec ps : Z.of_nat (length (concat ps)) <= INT_MAX →
  l_concat (PartNumber (Z.of_nat (length (concat ps))) :: (PartString <$> ps)) = Ok (Some (concat ps)).
Proof.
  intros Hmax. unfold l_concat. rewrite s32_small by (unfold INT_MAX in *; lia). rewrite (proj2 (Z.ltb_ge _ _)) by lia.
  pose proof (concat_loop_spec ps [] (length (concat ps)) (Z.of_nat (length (concat ps)))) as Hc. cbn [length Nat.add] in Hc.
  unfold malloc_buffer. rewrite Nat2Z.id. change (Z.of_nat 0) with 0 in Hc. cbn [fmap list_fmap app] in Hc. rewrite Hc by lia. rewrite bind_Ok, Z.eqb_refl.
  cbn [negb]. by rewrite pushlstring_app.
Qed.

(** ** The requests of a connection *)

(** a request and the packages it is sent in *)
Record sent := mkSent { s_addr : address; s_msg : list Z; s_is_push : bool }.
Definition request_ok (session : Z) (r : sent) : Prop :=
  addr_ok (s_addr r) ∧ 0 < session <= INT_MAX ∧ Z.of_nat (length (s_msg r)) <= INT_MAX.
Definition packages (session : Z) (r : sent) : list (list Z) :=
  match packrequest (s_addr r) session (Some (s_msg r)) (Z.of_nat (length (s_msg r))) (s_is_push r) with
  | (_, Ok (inr (req, _, parts))) => req :: default [] parts
  | _ => []
  end.
(** what arrives: a push that is not in parts has no session *)
Definition delivered (session : Z) (r : sent) : dispatched :=
  Deliver (s_addr r) (if s_is_push r && small (s_msg r) then 0 else session) (s_msg r) (s_is_push r).

Definition bodies (session : Z) (r : sent) : list (list Z) :=
  request_head (s_addr r) session (s_msg r) (s_is_push r) :: request_parts session (s_msg r).
Lemma packages_spec session r : request_ok session r → packages session r = frame <$> bodies session r.
Proof.
  intros (Ha & Hs & Hm). unfold packages. rewrite packrequest_spec by (unfold INT_MAX in *; first [done|lia]). unfold lret, bodies.
  rewrite fmap_cons. f_equal. unfold request_parts. by destruct (small (s_msg r)).
Qed.

(** the entry of a request of which [i] packages have arrived *)
Definition progress (session : Z) (r : sent) (i : nat) : option large_req :=
  if decide (0 < i < length (bodies session r))%nat then
    Some (mkLarge (s_addr r) (s_is_push r)
            (PartNumber (Z.of_nat (length (s_msg r))) :: (PartString <$> take (i - 1) (pieces (part_count (s_msg r)) (s_msg r)))))
  else None.

(** what one package does *)
Definition receive (large : agent) (b : list Z) : cluster (agent * option dispatched) :=
  r <~ l_unpackrequest b;; dispatch_request large r.

Lemma dispatch_all_cons large b bs : dispatch_all large (b :: bs) =
  (let~ (large, d) := receive large b in let~ (large, ds) := dispatch_all large bs in lret (large, d :: ds)).
Proof. unfold receive. by rewrite lbind_assoc. Qed.

Lemma l_append_spec t p : l_append t (Some p) (Z.of_nat (length p)) = lret (t ++ [PartString p]).
Proof. unfold l_append. by rewrite (return_buffer_at p [] p []) by (rewrite ?app_nil_r; done). Qed.

Lemma receive_small session r large : request_ok session r → small (s_msg r) = true →
  large !! session = None → large !! 0 = None →
  receive large (request_head (s_addr r) session (s_msg r) (s_is_push r)) = lret (large, Some (delivered session r)).
Proof.
  intros (Ha & Hs & Hm) E Hl H0. unfold receive, delivered. rewrite unpack_small, lbind_lret, E, andb_true_r by done.
  unfold dispatch_request, last_request. by destruct (s_is_push r); rewrite ?Hl, ?H0.
Qed.

Lemma receive_head session r large : request_ok session r → small (s_msg r) = false → large !! session = None →
  receive large (request_head (s_addr r) session (s_msg r) (s_is_push r)) =
    lret (<[session := mkLarge (s_addr r) (s_is_push r) [PartNumber (Z.of_nat (length (s_msg r)))]]> large, None).
Proof.
  intros (Ha & Hs & Hm) E Hl. unfold receive. rewrite unpack_multi, lbind_lret by (unfold INT_MAX in *; first [done|lia]).
  unfold dispatch_request, padding_request. by rewrite Hl.
Qed.

Lemma receive_more session p large lr : 0 < session <= INT_MAX → Z.of_nat (length p) <= MULTI_PART → large !! session = Some lr →
  receive large (request_part session (2, p)) =
    lret (<[session := mkLarge (lr_addr lr) (lr_is_push lr) (lr_parts lr ++ [PartString p])]> large, None).
Proof.
  intros Hs Hp Hl. unfold receive. rewrite unpack_part, lbind_lret by (unfold INT_MAX in *; first [by left|lia]).
  unfold dispatch_request, padding_request. by rewrite Hl, l_append_spec.
Qed.

Lemma receive_last session p large lr ps : 0 < session <= INT_MAX → Z.of_nat (length p) <= MULTI_PART → large !! session = Some lr →
  Z.of_nat (length (concat (ps ++ [p]))) <= INT_MAX →
  lr_parts lr = PartNumber (Z.of_nat (length (concat (ps ++ [p])))) :: (PartString <$> ps) →
  receive large (request_part session (3, p)) =
    lret (delete session large, Some (Deliver (lr_addr lr) session (concat (ps ++ [p])) (lr_is_push lr))).
Proof.
  intros Hs Hp Hl Hmax Hps. unfold receive. rewrite unpack_part, lbind_lret by (unfold INT_MAX in *; first [by right|lia]).
  unfold dispatch_request, last_request. cbn [Z.eqb Pos.eqb]. rewrite Hl, l_append_spec, lbind_lret, Hps. cbn [app].
  change [PartString p] with (PartString <$> [p]). rewrite <- fmap_app, concat_spec by done. done.
Qed.

Lemma progress_out session r i : (i = 0 ∨ length (bodies session r) <= i)%nat → progress session r i = None.
Proof. intros Hi. unfold progress. rewrite decide_False; [done|lia]. Qed.

Lemma progress_in session r i : (0 < i < length (bodies session r))%nat → progress session r i =
  Some (mkLarge (s_addr r) (s_is_push r)
          (PartNumber (Z.of_nat (length (s_msg r))) :: (PartString <$> take (i - 1) (pieces (part_count (s_msg r)) (s_msg r))))).
Proof. intros Hi. unfold progress. by rewrite decide_True. Qed.

Lemma length_bodies session r : length (bodies session r) = if small (s_msg r) then 1%nat else S (part_count (s_msg r)).
Proof.
  unfold bodies, request_parts. cbn [length]. destruct (small (s_msg r)); [done|].
  by rewrite length_fmap, length_with_types, length_pieces.
Qed.

Lemma large_parts msg : small msg = false → (1 <= part_count msg)%nat ∧ concat (pieces (part_count msg) msg) = msg.
Proof.
  intros E. unfold small in E. apply Z.ltb_ge in E. pose proof (part_count_spec msg) as Hc. unfold MULTI_PART in *.
  split; [lia|apply pieces_concat; unfold MULTI_PART; lia].
Qed.

Lemma part_lookup session msg j b : small msg = false → request_parts session msg !! j = Some b →
  ∃ p, pieces (part_count msg) msg !! j = Some p ∧ Z.of_nat (length p) <= MULTI_PART ∧
    b = request_part session (if decide (S j = part_count msg) then 3 else 2, p).
Proof.
  intros E. unfold request_parts. rewrite E, list_lookup_fmap, with_types_lookup, length_pieces.
  destruct (pieces (part_count msg) msg !! j) as [p|] eqn:Hp; [|done]. intros [= <-]. exists p. split; [done|]. split; [|done].
  exact (Forall_lookup_1 _ _ _ _ (pieces_small _ _) Hp).
Qed.

Lemma receive_step session r large i b : request_ok session r → bodies session r !! i = Some b →
  large !! session = progress session r i → large !! 0 = None →
  receive large b = lret (partial_alter (λ _, progress session r (S i)) session large,
                          if decide (S i = length (bodies session r)) then Some (delivered session r) else None).
Proof.
  intros Hok Hb Hl H0. assert (Hok' := Hok). destruct Hok' as (Ha & Hs & Hm). pose proof (length_bodies session r) as Hlen.
  pose proof (lookup_lt_Some _ _ _ Hb) as Hi. destruct (small (s_msg r)) eqn:E.
  - assert (i = 0%nat) as -> by lia. injection Hb as <-. rewrite progress_out in Hl by (by left).
    rewrite receive_small, decide_True, progress_out by (done || lia). do 2 f_equal. f_equal. symmetry. exact (delete_id large session Hl).
  - destruct (large_parts _ E) as [H1 Hmsg]. destruct i as [|j].
    + injection Hb as <-. rewrite progress_out in Hl by (by left). by rewrite receive_head, decide_False, progress_in by (done || lia).
    + destruct (part_lookup session (s_msg r) j b E Hb) as (p & Hp & Hsmall & ->).
      rewrite progress_in in Hl by lia. replace (S j - 1)%nat with j in Hl by lia.
      assert (Htake := take_S_r _ _ _ Hp). rewrite Hlen. case_decide as Hlast.
      * rewrite take_ge in Htake by (rewrite length_pieces; lia). rewrite <- Hmsg in Hl at 1. rewrite Htake in Hl at 1.
        rewrite (receive_last session p large _ _ Hs Hsmall Hl) by (cbn [lr_parts]; rewrite <- ?Htake, ?Hmsg; done).
        rewrite <- Htake, Hmsg, decide_True, progress_out by lia. unfold delivered. by rewrite E, andb_false_r.
      * rewrite (receive_more session p large _ Hs Hsmall Hl), decide_False, progress_in by lia. cbn [lr_addr lr_is_push lr_parts app].
        replace (S (S j) - 1)%nat with (S j) by lia. by rewrite Htake, fmap_app.
Qed.

(** the packages, each with the session it belongs to: a request is handed over with the last
    package of its session *)
Fixpoint expected (reqs : gmap Z sent) (tags : list Z) : list (option dispatched) :=
  match tags with
  | [] => []
  | s :: tags => (if decide (s ∈ tags) then None else delivered s <$> reqs !! s) :: expected reqs tags
  end.

Definition of_session {A} (s : Z) (pkgs : list (Z * A)) : list A := (filter (λ p, p.1 = s) pkgs).*2.

Lemma of_session_nil {A} s (pkgs : list (Z * A)) : of_session s pkgs = [] ↔ s ∉ pkgs.*1.
Proof.
  unfold of_session. induction pkgs as [|[t b] pkgs IH]; [split; [intros _; apply not_elem_of_nil|done]|].
  rewrite filter_cons, fmap_cons, not_elem_of_cons. cbn [fst]. case_decide as E; [split; [done|by intros [? _]]|].
  rewrite IH. split; [by split|by intros [_ ?]].
Qed.

Lemma of_session_fmap {A B} (f : A → B) s (pkgs : list (Z * A)) : of_session s ((λ p, (p.1, f p.2)) <$> pkgs) = f <$> of_session s pkgs.
Proof.
  unfold of_session. induction pkgs as [|[t b] pkgs IH]; [done|]. rewrite fmap_cons, !filter_cons. cbn [fst snd].
  case_decide; rewrite ?fmap_cons; cbn [snd]; by rewrite IH.
Qed.

Lemma dispatch_all_spec reqs pkgs large : map_Forall request_ok reqs →
  (∀ s, match reqs !! s with
        | Some r => ∃ i, of_session s pkgs = drop i (bodies s r) ∧ large !! s = progress s r i
        | None => of_session s pkgs = [] ∧ large !! s = None
        end) →
  dispatch_all large pkgs.*2 = lret (∅, expected reqs pkgs.*1).
Proof.
  intros Hok. revert large. induction pkgs as [|[s b] pkgs IH]; intros large Hinv.
  - cbn [fmap list_fmap dispatch_all expected]. do 2 f_equal. f_equal. apply map_empty. intros s. specialize (Hinv s).
    destruct (reqs !! s) as [r|]; [|apply Hinv]. destruct Hinv as (i & Hd & Hl). etrans; [exact Hl|]. apply progress_out. right.
    apply (f_equal length) in Hd. rewrite length_drop in Hd. change (length (of_session s [])) with 0%nat in Hd. lia.
  - rewrite !fmap_cons, dispatch_all_cons. cbn [snd fst expected].
    assert (H0 : large !! 0 = None).
    { specialize (Hinv 0). destruct (reqs !! 0) as [r|] eqn:E; [|apply Hinv]. destruct (Hok _ _ E) as (_ & ? & _). lia. }
    assert (Hs := Hinv s). unfold of_session in Hs. rewrite filter_cons in Hs. cbn [fst] in Hs. rewrite decide_True in Hs by done.
    destruct (reqs !! s) as [r|] eqn:Er; [|by destruct Hs]. destruct Hs as (i & Hd & Hl). rewrite fmap_cons in Hd. cbn [snd] in Hd.
    assert (Hb : drop i (bodies s r) !! 0%nat = Some b) by (by rewrite <- Hd). rewrite lookup_drop, Nat.add_0_r in Hb.
    assert (Hrest : of_session s pkgs = drop 1 (drop i (bodies s r))) by (by rewrite <- Hd). rewrite drop_drop, Nat.add_1_r in Hrest.
    rewrite (receive_step s r large i b (Hok _ _ Er) Hb Hl H0), lbind_lret, (IH _).
    + cbn [lbind lret]. do 4 f_equal. cbn [fmap option_fmap option_map].
      pose proof (of_session_nil s pkgs) as Hnil. rewrite Hrest in Hnil.
      pose proof (lookup_lt_Some _ _ _ Hb) as Hi. pose proof (length_drop (bodies s r) (S i)) as Hlen.
      repeat case_decide; try done.
      * exfalso. rewrite drop_ge in Hnil by lia. by apply Hnil.
      * exfalso. assert (drop (S i) (bodies s r) = []) as E by (by apply Hnil). rewrite E in Hlen. cbn [length] in Hlen. lia.
    + intros t. destruct (decide (t = s)) as [-> |Hne].
      * rewrite Er. exists (S i). split; [done|]. apply lookup_partial_alter_eq.
      * specialize (Hinv t). unfold of_session in *. rewrite filter_cons in Hinv. cbn [fst] in Hinv. rewrite decide_False in Hinv by done.
        destruct (reqs !! t); [destruct Hinv as (k & ? & Hk); exists k|destruct Hinv as (? & Hk)]; (split; [done|]);
          (etrans; [by apply lookup_partial_alter_ne|exact Hk]).
Qed.

(** a package that [packrequest] makes is what [l_pack] makes of its body *)
Lemma bodies_short session r : request_ok session r → Forall (λ b, Z.of_nat (length b) < 0x10000) (bodies session r).
Proof.
  intros (Ha & Hs & Hm). unfold bodies. constructor.
  - unfold request_head. destruct (small (s_msg r)) eqn:E; unfold small in E.
    + apply Z.ltb_lt in E. destruct (s_addr r); cbn [addr_ok] in Ha; far.
    + destruct (s_addr r); cbn [addr_ok] in Ha; far.
  - unfold request_parts. destruct (small (s_msg r)) eqn:E; [constructor|]. apply Forall_lookup. intros j b Hb.
    destruct (part_lookup session (s_msg r) j b E) as (p & _ & Hp & ->); [by unfold request_parts; rewrite E|]. unfold request_part, fst, snd. far.
Qed.

Lemma frame_pack b : Z.of_nat (length b) < 0x10000 → l_pack b = Some (frame b).
Proof. intros Hb. unfold l_pack. rewrite (proj2 (Z.leb_gt _ _)) by done. unfold frame, byte_at. by rewrite Z.shiftr_0_r. Qed.

Lemma frames_concat ws : Forall (λ w, w = frame (drop 2 w) ∧ Z.of_nat (length (drop 2 w)) < 0x10000) ws →
  frames (concat ws) = (drop 2 <$> ws, []).
Proof.
  intros H. apply frames_packs. induction H as [|w ws [E Hw] H IH]; [done|]. rewrite fmap_cons. cbn [mapM].
  rewrite frame_pack, <- E by done. cbn [mbind option_bind]. by rewrite IH.
Qed.

(** C29: Requests arrive as they were sent. A node sends requests and pushes with different
    sessions to another node, each in the packages that [packrequest] makes: one, or a first
    one and its parts. The packages of one request are sent in order; those of different
    requests may be mixed in any way. When the stream is cut into packages again, the agent
    hands over every request once, with its address, session, message and kind, at the last
    package of its session, and nothing else; no package is refused, and no request is left
    in the table. *)
Theorem cluster_requests_delivered (reqs : gmap Z sent) (pkgs : list (Z * list Z)) :
  map_Forall request_ok reqs →
  (∀ s, of_session s pkgs = match reqs !! s with Some r => packages s r | None => [] end) →
  dispatch_all ∅ (frames (concat pkgs.*2)).1 = lret (∅, expected reqs pkgs.*1).
Proof.
  intros Hok Hpk. assert (Hframe : Forall (λ p, p.2 = frame (drop 2 p.2) ∧ Z.of_nat (length (drop 2 p.2)) < 0x10000) pkgs).
  { apply Forall_forall. intros [s w] Hin. assert (Hw : w ∈ of_session s pkgs) by (apply list_elem_of_fmap; exists (s, w); split; [done|by apply list_elem_of_filter]).
    rewrite Hpk in Hw. destruct (reqs !! s) as [r|] eqn:E; [|by apply not_elem_of_nil in Hw]. specialize (Hok _ _ E).
    rewrite packages_spec in Hw by done. apply list_elem_of_fmap in Hw as (b & -> & Hb). cbn [snd frame drop]. split; [done|].
    pose proof (bodies_short _ _ Hok) as Hsh. rewrite Forall_forall in Hsh. by apply Hsh. }
  rewrite frames_concat by (by apply Forall_fmap). cbn [fst].
  pose proof (dispatch_all_spec reqs ((λ p, (p.1, drop 2 p.2)) <$> pkgs) ∅ Hok) as Hd. rewrite <- !list_fmap_compose in *.
  apply Hd. intros s. rewrite (of_session_fmap (drop 2)), Hpk. destruct (reqs !! s) as [r|] eqn:E; [|split; [done|apply lookup_empty]]. exists 0%nat.
  split; [|rewrite progress_out by (by left); apply lookup_empty]. rewrite packages_spec, drop_0 by (by apply Hok).
  rewrite <- list_fmap_compose. apply list_fmap_id.
Qed.

(** a large request (two parts) and a push, mixed *)
Definition large_req_of (msg : list Z) : sent := mkSent (AddrName [64; 97]) msg false.
Definition push_of (msg : list Z) : sent := mkSent (AddrNumber 9) msg true.
Definition mixed_requests (msg : list Z) : gmap Z sent := {[ 5 := large_req_of msg; 6 := push_of [1; 2; 3] ]}.
Definition mixed_packages (msg : list Z) : list (Z * list Z) :=
  let large := packages 5 (large_req_of msg) in
  [(5, nth 0 large []); (6, nth 0 (packages 6 (push_of [1; 2; 3])) []); (5, nth 1 large []); (5, nth 2 large [])].

Lemma mixed_packages_ok msg s : length (packages 5 (large_req_of msg)) = 3%nat →
  of_session s (mixed_packages msg) = match mixed_requests msg !! s with Some r => packages s r | None => [] end.
Proof.
  intros Hl. unfold mixed_packages, mixed_requests, of_session. destruct (decide (s = 5)) as [-> |H].
  { rewrite lookup_insert_eq. by destruct (packages 5 _) as [|? [|? [|? [|]]]]. }
  rewrite lookup_insert_ne by done. destruct (decide (s = 6)) as [-> |H']; [rewrite lookup_singleton_eq; by vm_compute|].
  rewrite lookup_singleton_ne by done. rewrite !filter_cons. cbn [fst]. by rewrite !decide_False by congruence.
Qed.

Lemma mixed_expected msg : expected (mixed_requests msg) (mixed_packages msg).*1 =
  [None; Some (Deliver (AddrNumber 9) 0 [1; 2; 3] true); None; Some (Deliver (AddrName [64; 97]) 5 msg false)].
Proof. reflexivity. Qed.

Lemma cluster_requests_delivered_witness : let msg := replicate (Z.to_nat 40000) 7 in
  dispatch_all ∅ (frames (concat (mixed_packages msg).*2)).1 =
    lret (∅, [None; Some (Deliver (AddrNumber 9) 0 [1; 2; 3] true); None; Some (Deliver (AddrName [64; 97]) 5 msg false)]).
Proof.
  intros msg. assert (Hm : Z.of_nat (length msg) = 40000) by (unfold msg; rewrite length_replicate; lia). clearbody msg.
  assert (H5 : request_ok 5 (large_req_of msg)).
  { unfold request_ok, INT_MAX. cbn [s_msg s_addr large_req_of addr_ok length]. rewrite Hm. repeat split; lia. }
  rewrite <- mixed_expected. apply cluster_requests_delivered.
  - apply map_Forall_insert_2; [done|]. apply map_Forall_singleton. unfold request_ok, INT_MAX. repeat split; simpl; lia.
  - intros s. apply mixed_packages_ok. rewrite packages_spec, length_fmap, length_bodies by done. unfold small, part_count.
    cbn [s_msg large_req_of]. by rewrite Hm.
Defined.

(** ** Responses *)

Definition response_first (session sz : Z) : list Z := le_bytes 4 session ++ 2 :: le_bytes 4 sz.
Definition response_single (session : Z) (ok : bool) (msg : list Z) : list Z :=
  le_bytes 4 session ++ (if ok then 1 else 0) :: msg.
Definition response_bodies (session : Z) (ok : bool) (msg : list Z) : list (list Z) :=
  let sz := Z.of_nat (length msg) in
  if ok && (MULTI_PART <? sz) then
    response_first session sz :: (part_body 6 session <$> with_types 3 4 (pieces (part_count msg) msg))
  else [response_single session ok (take (Z.to_nat MULTI_PART) msg)].

Lemma packresponse_spec session ok msg : 0 <= session < 2 ^ 32 → Z.of_nat (length msg) < 2 ^ 32 →
  ∃ r, l_packresponse session ok msg (Z.of_nat (length msg)) = Ok r ∧
    match r with inl p => [p] | inr ps => ps end = frame <$> response_bodies session ok msg.
Proof.
  intros Hs Hm. unfold l_packresponse, response_bodies. rewrite u64_small by lia. rewrite !u32_small by lia.
  destruct (ok && (MULTI_PART <? Z.of_nat (length msg))) eqn:E.
  - apply andb_true_iff in E as [-> E%Z.ltb_lt]. assert (Hpos : (0 < length msg)%nat) by (unfold MULTI_PART in E; lia).
    fields.
    match goal with |- context [pushlstring ?b 11] => assert (Hf : pushlstring b 11 = Ok (frame (response_first session (Z.of_nat (length msg))))) end.
    { apply push_frame; [|unfold response_first; far]. rewrite <- !app_assoc. apply frame_eq; [unfold response_first; far|done]. }
    rewrite Hf, bind_Ok. clear Hf. fold (part_count msg).
    rewrite pack_parts_spec by (first [by right|lia|far|by apply part_count_spec]).
    rewrite bind_Ok, drop_0. eexists. split; [reflexivity|]. by rewrite fmap_cons, <- list_fmap_compose.
  - set (sz := Z.of_nat (length msg)) in *. set (n := if negb ok && (MULTI_PART <? sz) then MULTI_PART else sz).
    assert (Hn : n = Z.of_nat (length (take (Z.to_nat MULTI_PART) msg))).
    { rewrite length_take. unfold n. destruct ok; cbn [negb andb] in *; [apply Z.ltb_ge in E; unfold MULTI_PART in *; lia|].
      destruct (Z.ltb_spec MULTI_PART sz); unfold MULTI_PART in *; lia. }
    pose proof (length_take msg (Z.to_nat MULTI_PART)) as Hlen. set (p := take (Z.to_nat MULTI_PART) msg) in *.
    assert (Hcopy : ∀ data k off, (length p <= k)%nat → off = Z.of_nat (length data) → copy_message (filled data k) off msg 0 n = Ok (filled (data ++ p) (k - length p))).
    { intros data k off Hk ->. unfold copy_message. rewrite slice_some, drop_0, Hn, Nat2Z.id by lia.
      replace (take (length p) msg) with p by (unfold p; by rewrite length_take, <- take_take, firstn_all). by apply copy_spec. }
    clearbody p n. subst n. exists (inl (frame (response_single session ok p))). split; [|done]. fields. rewrite Hcopy by far.
    rewrite bind_Ok. clear Hcopy. unfold response_single. push_the_frame.
Qed.

Lemma unpackresponse_body session type data : 0 <= session < 2 ^ 32 →
  l_unpackresponse (le_bytes 4 session ++ type :: data) =
    if type =? 0 then Ok (Some (Failed session data))
    else if (type =? 1) || (type =? 4) then Ok (Some (Done session data))
    else if type =? 2 then
      if negb (5 + Z.of_nat (length data) =? 9) then Ok None
      else size <- unpack_uint32 (le_bytes 4 session ++ type :: data) 5;; Ok (Some (MultiBegin session size))
    else if type =? 3 then Ok (Some (MultiPart session data))
    else Ok None.
Proof.
  intros Hs. unfold l_unpackresponse. replace (Z.of_nat (length _)) with (5 + Z.of_nat (length data)) by far.
  rewrite (proj2 (Z.ltb_ge _ _)) by lia. read_word (@nil Z) session (type :: data).
  rewrite (arr_get_Ok _ 4 type), bind_Ok by (done || lia).
  read_block (le_bytes 4 session ++ [type]) data (@nil Z). done.
Qed.

Lemma response_parts_spec ps session t : 0 <= session < 2 ^ 32 → ps ≠ [] →
  dispatch_by_session session (Some t) (part_body 6 session <$> with_types 3 4 ps) =
    (m <- l_concat (t ++ (PartString <$> ps));; Ok (match m with Some m => Answer m | None => NoAnswer end)).
Proof.
  intros Hs. revert t. induction ps as [|p ps IH]; intros t Hne; [done|]. destruct ps as [|q ps].
  - change (with_types 3 4 [p]) with [(4, p)]. rewrite fmap_cons. cbn [dispatch_by_session]. unfold part_body at 1. cbn [Z.eqb Pos.eqb fst snd].
    rewrite unpackresponse_body by done. cbn [Z.eqb Pos.eqb orb]. rewrite bind_Ok. by rewrite Z.eqb_refl.
  - change (with_types 3 4 (p :: q :: ps)) with ((3, p) :: with_types 3 4 (q :: ps)). rewrite fmap_cons. cbn [dispatch_by_session].
    unfold part_body at 1. cbn [Z.eqb Pos.eqb fst snd].
    rewrite unpackresponse_body by done. cbn [Z.eqb Pos.eqb orb]. rewrite bind_Ok, Z.eqb_refl. cbn [default].
    rewrite IH by done. by rewrite <- app_assoc.
Qed.

(** A response arrives as it was sent: the packages that [l_packresponse] makes of an
    answer, one or more, give the requester exactly that answer when they are taken apart and
    put together; of an error message the first 32 KiB arrive. The packages are within the
    length field and the array on the stack, for every message. *)
Theorem cluster_response_roundtrip session ok msg : 0 <= session < 2 ^ 32 → Z.of_nat (length msg) <= INT_MAX →
  ∃ r, l_packresponse session ok msg (Z.of_nat (length msg)) = Ok r ∧
    let stream := concat match r with inl p => [p] | inr ps => ps end in
    dispatch_by_session session None (frames stream).1 =
      Ok (if ok then Answer msg else Failure (take (Z.to_nat MULTI_PART) msg)).
Proof.
  intros Hs Hm. destruct (packresponse_spec session ok msg) as (r & -> & Hr); [done|unfold INT_MAX in *; lia|].
  exists r. split; [done|]. rewrite Hr. cbv zeta.
  assert (Hb : Forall (λ b, Z.of_nat (length b) < 0x10000) (response_bodies session ok msg)).
  { unfold response_bodies. destruct (ok && _).
    - constructor; [unfold response_first; far|]. apply Forall_lookup. intros j b. rewrite list_lookup_fmap, with_types_lookup.
      destruct (pieces _ msg !! j) as [p|] eqn:Hp; [|done]. intros [= <-].
      assert (Hlen := Forall_lookup_1 _ _ _ _ (pieces_small _ _) Hp). cbn beta in Hlen. unfold part_body. cbn [Z.eqb Pos.eqb fst snd]. far.
    - constructor; [|constructor]. unfold response_single. far. }
  rewrite frames_concat; [|apply Forall_fmap; eapply Forall_impl; [exact Hb|]; by intros b ?].
  rewrite <- list_fmap_compose. cbn [fst]. rewrite list_fmap_id. clear Hr Hb. unfold response_bodies.
  destruct (ok && (MULTI_PART <? Z.of_nat (length msg))) eqn:E.
  - apply andb_true_iff in E as [-> E%Z.ltb_lt]. cbn [dispatch_by_session]. unfold response_first.
    rewrite unpackresponse_body by done. cbn [Z.eqb Pos.eqb orb]. rewrite le_bytes_length. change (5 + Z.of_nat 4 =? 9) with true. cbn [negb].
    assert (0 <= Z.of_nat (length msg) < 2 ^ 32) by (unfold INT_MAX in *; lia).
    read_word (le_bytes 4 session ++ [2]) (Z.of_nat (length msg)) (@nil Z). rewrite bind_Ok, Z.eqb_refl. cbn [default app].
    destruct (large_parts msg) as [H1 Hmsg]; [unfold small; apply Z.ltb_ge; lia|].
    rewrite response_parts_spec; [|done|intros Hn; apply (f_equal length) in Hn; rewrite length_pieces in Hn; cbn [length] in Hn; lia].
    cbn [app]. pose proof (concat_spec (pieces (part_count msg) msg)) as Hc. rewrite Hmsg in Hc. by rewrite Hc.
  - cbn [dispatch_by_session]. unfold response_single. rewrite unpackresponse_body by done. destruct ok; cbn [Z.eqb Pos.eqb orb andb] in *.
    + apply Z.ltb_ge in E. rewrite bind_Ok, Z.eqb_refl, take_ge by (unfold MULTI_PART in *; lia). done.
    + by rewrite bind_Ok, Z.eqb_refl.
Qed.

Lemma cluster_response_roundtrip_witness : ∃ r,
  l_packresponse 77 true (replicate (Z.to_nat 40000) 7) (Z.of_nat (length (replicate (Z.to_nat 40000) 7))) = Ok r ∧
    let stream := concat match r with inl p => [p] | inr ps => ps end in
    dispatch_by_session 77 None (frames stream).1 = Ok (Answer (replicate (Z.to_nat 40000) 7)).
Proof.
  apply (cluster_response_roundtrip 77 true); [lia|]. rewrite length_replicate. unfold INT_MAX. lia.
Defined.

(** ** Packages of any bytes *)

Definition no_fault {A} (m : cluster A) : Prop := ∃ r, m = Ok r.
Definition throws_at_most {A} (m : cluster A) : Prop := no_fault m ∨ m = Err UncaughtException.

Lemma unpack_in_range buf off : 0 <= off → (Z.to_nat off + 4 <= length buf)%nat → ∃ n, unpack_uint32 buf off = Ok n.
Proof. intros H1 H2. unfold unpack_uint32. rewrite slice_some by lia. by eexists. Qed.
Lemma return_in_range buf off n : 0 <= off → 0 <= n → (Z.to_nat off + Z.to_nat n <= length buf)%nat → ∃ l, return_buffer buf off n = Ok l.
Proof. intros H1 H2 H3. unfold return_buffer. rewrite slice_some by lia. by eexists. Qed.

Ltac reads :=
  repeat match goal with
  | |- context [unpack_uint32 ?b ?o] => let x := fresh "x" in let H := fresh in destruct (unpack_in_range b o) as [x H]; [lia|lia|rewrite H, bind_Ok; clear H]
  | |- context [return_buffer ?b ?o ?n] => let x := fresh "x" in let H := fresh in destruct (return_in_range b o n) as [x H]; [lia|lia|lia|rewrite H, ?bind_Ok; clear H]
  end.

Lemma unpackrequest_no_fault msg : Forall is_byte msg → Z.of_nat (length msg) <= INT_MAX → no_fault (l_unpackrequest msg).
Proof.
  intros Hb Hm. unfold l_unpackrequest. rewrite s32_small by (unfold INT_MAX in *; lia). set (sz := Z.of_nat (length msg)) in *.
  assert (Hname : (2 <= length msg)%nat → ∃ n, arr_get msg 1 = Ok n ∧ 0 <= n < 256).
  { intros Hl. destruct msg as [|b0 [|b1 msg]]; [cbn in Hl; lia..|]. exists b1. split; [done|]. by apply Forall_cons in Hb as [_ [? _]%Forall_cons]. }
  repeat (case_match; [|try (by eexists)]).
  - unfold unpackreq_number. destruct (Z.ltb_spec sz 9); [by eexists|]. reads. by eexists.
  - unfold unpackmreq_number. destruct (Z.eqb_spec sz 13); cbn [negb]; [|by eexists]. reads. by eexists.
  - unfold unpackmreq_number. destruct (Z.eqb_spec sz 13); cbn [negb]; [|by eexists]. reads. by eexists.
  - unfold unpackmreq_part. destruct (Z.ltb_spec sz 5); [by eexists|].
    destruct msg as [|b0 msg]; [cbn [length] in sz; lia|]. rewrite (arr_get_Ok _ 0 b0), bind_Ok by (done || lia). reads. by eexists.
  - unfold unpacktrace. assert (1 <= sz) by (destruct msg; [done|unfold sz; cbn [length]; lia]). reads. by eexists.
  - unfold unpackreq_string. destruct (Z.ltb_spec sz 2); [by eexists|]. destruct Hname as (n & -> & Hn); [lia|]. rewrite lift_Ok, lbind_Ok.
    destruct (Z.ltb_spec sz (n + 6)); [by eexists|]. reads. by eexists.
  - unfold unpackmreq_string. destruct (Z.ltb_spec sz 2); [by eexists|]. destruct Hname as (n & -> & Hn); [lia|]. rewrite lift_Ok, lbind_Ok.
    destruct (Z.ltb_spec sz (n + 10)); [by eexists|]. reads. by eexists.
  - unfold unpackmreq_string. destruct (Z.ltb_spec sz 2); [by eexists|]. destruct Hname as (n & -> & Hn); [lia|]. rewrite lift_Ok, lbind_Ok.
    destruct (Z.ltb_spec sz (n + 10)); [by eexists|]. reads. by eexists.
Qed.

Lemma concat_loop_safe t data k sz : sz = Z.of_nat (length data + k) → sz <= INT_MAX →
  concat_loop t (filled data k) (Z.of_nat (length data)) sz = Ok None ∨
  ∃ data' k', concat_loop t (filled data k) (Z.of_nat (length data)) sz = Ok (Some (Z.of_nat (length data'), filled data' k')) ∧
    sz = Z.of_nat (length data' + k').
Proof.
  revert data k. induction t as [|v t IH]; intros data k Hsz Hmax; [right; by exists data, k|].
  destruct v as [n|s]; [right; by exists data, k|]. cbn [concat_loop].
  destruct (Z.ltb_spec sz (Z.of_nat (length s) + Z.of_nat (length data))); [by left|].
  rewrite copy_spec, bind_Ok, int_chk_Ok, bind_Ok by lia.
  replace (Z.of_nat (length data) + Z.of_nat (length s)) with (Z.of_nat (length (data ++ s))) by (rewrite length_app; lia).
  apply IH; rewrite ?length_app; lia.
Qed.

Lemma l_concat_safe t : (∃ o, l_concat t = Ok o) ∨ l_concat t = Err UncaughtException.
Proof.
  destruct t as [|[n|s] t]; [left; by eexists| |left; by eexists]. cbn [l_concat]. pose proof (s32_range n) as Hn.
  destruct (Z.ltb_spec (s32 n) 0) as [|Hpos]; [by right|]. left.
  destruct (concat_loop_safe t [] (Z.to_nat (s32 n)) (s32 n)) as [E|(data & k & E & Hk)]; [cbn [length]; lia|unfold INT_MAX; lia| |].
  - cbn [length fmap list_fmap app] in E. unfold malloc_buffer. change (Z.of_nat 0) with 0 in E. rewrite E. by eexists.
  - cbn [length fmap list_fmap app] in E. unfold malloc_buffer. change (Z.of_nat 0) with 0 in E. rewrite E, bind_Ok.
    destruct (Z.eqb_spec (Z.of_nat (length data)) (s32 n)) as [Ez|]; cbn [negb]; [|by eexists].
    rewrite pushlstring_app by done. by eexists.
Qed.



Lemma last_request_throws large addr session p is_push req : large !! session = Some req →
  l_concat (lr_parts req ++ [PartString p]) = Err UncaughtException → last_request large addr session p is_push = Err UncaughtException.
Proof. intros Hl Hc. unfold last_request. by rewrite Hl, l_append_spec, lbind_lret, Hc. Qed.

(** Two packages of another node end the process: the first announces a message of 2 GiB
    or more, the second is its last part. [l_concat] takes the size as an [int], which is
    negative, and the exception of [new] is not caught. *)
Theorem cluster_size_throws addr session size p : 0 <= addr < 2 ^ 32 → 0 <= session < 2 ^ 32 → 2 ^ 31 <= size < 2 ^ 32 →
  Z.of_nat (length p) <= MULTI_PART →
  dispatch_all ∅ [1 :: le_bytes 4 addr ++ le_bytes 4 session ++ le_bytes 4 size; 3 :: le_bytes 4 session ++ p] = Err UncaughtException.
Proof.
  intros Ha Hs Hsize Hp. rewrite dispatch_all_cons. unfold receive, l_unpackrequest. cbn [nth Z.eqb Pos.eqb].
  rewrite s32_small by far. replace (Z.of_nat (length _)) with 13 by far. unfold unpackmreq_number. cbn [Z.eqb Pos.eqb negb].
  read_word [1] addr (le_bytes 4 session ++ le_bytes 4 size). read_word (1 :: le_bytes 4 addr) session (le_bytes 4 size).
  assert (0 <= size < 2 ^ 32) by lia.
  read_word (1 :: le_bytes 4 addr ++ le_bytes 4 session) size (@nil Z). unfold lift. cbn [lbind dispatch_request lret].
  rewrite dispatch_all_cons. unfold receive. change (3 :: le_bytes 4 session ++ p) with (request_part session (3, p)).
  rewrite unpack_part, lbind_lret by (done || by right). cbn [Z.eqb Pos.eqb dispatch_request].
  erewrite last_request_throws; [done|apply lookup_insert_eq|].
  change (padding_request ∅ (AddrNumber addr) session false) with (mkLarge (AddrNumber addr) false []). cbn [lr_parts l_append_value app l_concat].
  rewrite (proj2 (Z.ltb_lt _ _)); [done|]. unfold s32. replace (size + 2 ^ 31) with (size - 2 ^ 31 + 1 * 2 ^ 32) by lia.
  rewrite Z.mod_add, Z.mod_small; lia.
Qed.

Lemma cluster_size_throws_witness :
  dispatch_all ∅ [1 :: le_bytes 4 0 ++ le_bytes 4 1 ++ le_bytes 4 (2 ^ 31); 3 :: le_bytes 4 1 ++ []] = Err UncaughtException.
Proof. apply cluster_size_throws; unfold MULTI_PART; cbn [length]; lia. Defined.
