(* ===== verification/RecvBuffer.v ===== *)
(** * Receive buffers of sockets (luaclib-src/lua-socket.cpp)

    A service keeps what a socket has received in a [socket_recv_buffer], a list of nodes with
    one message each. The nodes come from a pool, a Lua table of chunks that the buffers of the
    service share, and go back to its list of free nodes. A node is named by the index of its
    chunk in the table and its index in the chunk. *)
From S2P Require Import Prelude Bytes LuaCall.
Open Scope list_scope.
Open Scope Z_scope.

Definition LARGE_PAGE_NODE : Z := 12.

Definition node_ptr : Type := Z * Z.
(** [bn_msg]: the block of memory with the message, [None] for [nullptr] *)
Record buffer_node := mkNode { bn_msg : option (list Z); bn_sz : Z; bn_next : option node_ptr }.
Record socket_recv_buffer := mkRecv { sb_size : Z; sb_offset : Z; sb_head : option node_ptr; sb_tail : option node_ptr }.
(** [pool[1]], the sizes of the chunks [pool[2]], [pool[3]], ..., and the nodes in them *)
Record recv_pool := mkPool { free_node : option node_ptr; chunks : list Z; nodes : gmap node_ptr buffer_node }.
#[export] Instance buffer_node_eta : Eta buffer_node := λ r, mkNode (bn_msg r) (bn_sz r) (bn_next r).
#[export] Instance socket_recv_buffer_eta : Eta socket_recv_buffer := λ r, mkRecv (sb_size r) (sb_offset r) (sb_head r) (sb_tail r).
#[export] Instance recv_pool_eta : Eta recv_pool := λ r, mkPool (free_node r) (chunks r) (nodes r).

Inductive recv_error := NeedBufferObject | NeedMessageBlock | InvalidRead (s : list Z).
Notation recv := (lua_call recv_error).

Definition get_node (pool : recv_pool) (p : option node_ptr) : result buffer_node :=
  match p with
  | None => Err NullDeref
  | Some a => match nodes pool !! a with Some nd => Ok nd | None => Err UseAfterFree end
  end.

(** [n] bytes from [node->msg + off]; a negative [n] is a huge [size_t] *)
Definition message_bytes (nd : buffer_node) (off n : Z) : result (list Z) :=
  match bn_msg nd with
  | None => Err NullDeref
  | Some msg =>
      if (off <? 0) || (n <? 0) then Err OutOfBounds
      else match slice msg (Z.to_nat off) (Z.to_nat n) with Some l => Ok l | None => Err OutOfBounds end
  end.

Definition _return_free_node (pool : recv_pool) (sb : socket_recv_buffer) : result (recv_pool * socket_recv_buffer) :=
  match sb_head sb with
  | None => Err NullDeref
  | Some a =>
      nd <- get_node pool (Some a);;
      let head := bn_next nd in
      let sb := sb <| sb_offset := 0 |> <| sb_head := head |>
                   <| sb_tail := match head with None => None | Some _ => sb_tail sb end |> in
      Ok (pool <| nodes := <[a := mkNode None 0 (free_node pool)]> (nodes pool) |> <| free_node := Some a |>, sb)
  end.

(** [for (;;)] of [_pop_lstring]: [acc] is what is in the buffer [b] *)
Fixpoint pop_loop (fuel : nat) (pool : recv_pool) (sb : socket_recv_buffer) (sz skip : Z) (acc : list Z) : result (list Z * recv_pool * socket_recv_buffer) :=
  match fuel with
  | O => Err OutOfFuel
  | S fuel =>
      nd <- get_node pool (sb_head sb);;
      let bytes := bn_sz nd - sb_offset sb in
      if sz <=? bytes then
        piece <- (if skip <? sz then message_bytes nd (sb_offset sb) (sz - skip) else Ok []);;
        let sb := sb <| sb_offset := sb_offset sb + sz |> in
        let* (pool, sb) := (if bytes =? sz then _return_free_node pool sb else Ok (pool, sb)) in
        Ok (acc ++ piece, pool, sb)
      else
        let real_sz := sz - skip in
        piece <- (if 0 <? real_sz then message_bytes nd (sb_offset sb) (if real_sz <? bytes then real_sz else bytes) else Ok []);;
        let* (pool, sb) := _return_free_node pool sb in
        let sz := sz - bytes in
        if sz =? 0 then Ok (acc ++ piece, pool, sb)
        else
          massert (if sb_head sb then true else false);;;
          pop_loop fuel pool sb sz skip (acc ++ piece)
  end.

(** the string, without its last [skip] bytes *)
Definition _pop_lstring (pool : recv_pool) (sb : socket_recv_buffer) (sz skip : Z) : result (list Z * recv_pool * socket_recv_buffer) :=
  nd <- get_node pool (sb_head sb);;
  if sz <? bn_sz nd - sb_offset sb then
    s <- message_bytes nd (sb_offset sb) (sz - skip);;
    Ok (s, pool, sb <| sb_offset := sb_offset sb + sz |>)
  else if sz =? bn_sz nd - sb_offset sb then
    s <- message_bytes nd (sb_offset sb) (sz - skip);;
    let* (pool, sb) := _return_free_node pool sb in
    Ok (s, pool, sb)
  else pop_loop (S (size (nodes pool))) pool sb sz skip [].

(** the finalizer of a chunk: its messages are released *)
Definition _free_pool (pool : recv_pool) (chunk : Z) : recv_pool :=
  pool <| nodes := map_imap (λ a nd, Some (if a.1 =? chunk then nd <| bn_msg := None |> else nd)) (nodes pool) |>.

(** a chunk of [sz] nodes, linked in order *)
Definition chunk_node (chunk sz : Z) (i : nat) : buffer_node :=
  mkNode None 0 (if Z.of_nat i =? sz - 1 then None else Some (chunk, Z.of_nat i + 1)).
Definition _new_recv_buffer_pool (ns : gmap node_ptr buffer_node) (chunk sz : Z) : gmap node_ptr buffer_node :=
  foldr (λ i, <[(chunk, Z.of_nat i) := chunk_node chunk sz i]>) ns (seq 0 (Z.to_nat sz)).

Definition l_new_socket_recv_buffer : socket_recv_buffer := mkRecv 0 0 None None.

(** [lua_rawlen] of the table, and the size of its next chunk *)
Definition pool_rawlen (pool : recv_pool) : Z :=
  match chunks pool with [] => 0 | cs => Z.of_nat (length cs) + 1 end.
Definition chunk_size (tsz : Z) : Z :=
  if tsz <=? LARGE_PAGE_NODE - 3 then Z.shiftl 8 tsz else Z.shiftl 8 (LARGE_PAGE_NODE - 3).

(** the free node, from a new chunk if there is none *)
Definition take_free_node (pool : recv_pool) : recv_pool * node_ptr :=
  match free_node pool with
  | Some a => (pool, a)
  | None =>
      let tsz := pool_rawlen pool in
      let tsz := if tsz =? 0 then tsz + 1 else tsz in
      let size := chunk_size tsz in
      (pool <| nodes := _new_recv_buffer_pool (nodes pool) (tsz + 1) size |> <| chunks := chunks pool ++ [size] |>, (tsz + 1, 0))
  end.

(** [sb] and [msg] are [None] for [nullptr] *)
Definition l_push_socket_recv_buffer (pool : recv_pool) (sb : option socket_recv_buffer) (msg : option (list Z)) (sz : Z) : recv (recv_pool * socket_recv_buffer * Z) :=
  match sb, msg with
  | None, _ => luaL_error NeedBufferObject
  | _, None => luaL_error NeedMessageBlock
  | Some sb, Some msg =>
      let sz := s32 sz in
      let (pool, a) := take_free_node pool in
      lift (
        nd <- get_node pool (Some a);;
        let pool := pool <| free_node := bn_next nd |> <| nodes := <[a := mkNode (Some msg) sz None]> (nodes pool) |> in
        let* (pool, sb) :=
          match sb_head sb with
          | None => massert (if sb_tail sb then false else true);;; Ok (pool, sb <| sb_head := Some a |> <| sb_tail := Some a |>)
          | Some _ =>
              match sb_tail sb with
              | None => Err NullDeref
              | Some t =>
                  tail <- get_node pool (Some t);;
                  Ok (pool <| nodes := <[t := tail <| bn_next := Some a |>]> (nodes pool) |>, sb <| sb_tail := Some a |>)
              end
          end in
        size <- int_chk (sb_size sb + sz);;
        Ok (pool, sb <| sb_size := size |>, size))
  end.

(** the string if there are enough bytes, and how many are left *)
Definition l_pop_socket_recv_buffer (pool : recv_pool) (sb : option socket_recv_buffer) (sz : Z) : recv (option (list Z) * Z * recv_pool * socket_recv_buffer) :=
  match sb with
  | None => luaL_error NeedBufferObject
  | Some sb =>
      let sz := s32 sz in
      if (sb_size sb <? sz) || (sz =? 0) then lret (None, sb_size sb, pool, sb)
      else lift (
        let* (s, pool, sb) := _pop_lstring pool sb sz 0 in
        let sb := sb <| sb_size := sb_size sb - sz |> in
        Ok (Some s, sb_size sb, pool, sb))
  end.

Fixpoint clear_loop (fuel : nat) (pool : recv_pool) (sb : socket_recv_buffer) : result (recv_pool * socket_recv_buffer) :=
  match sb_head sb with
  | None => Ok (pool, sb)
  | Some _ =>
      match fuel with
      | O => Err OutOfFuel
      | S fuel => let* (pool, sb) := _return_free_node pool sb in clear_loop fuel pool sb
      end
  end.

(** [sb] is [None] for [nil]: nothing is done *)
Definition l_clear_socket_recv_buffer (pool : recv_pool) (sb : option socket_recv_buffer) : recv (recv_pool * option socket_recv_buffer) :=
  match sb with
  | None => lret (pool, None)
  | Some sb =>
      lift (let* (pool, sb) := clear_loop (size (nodes pool)) pool sb in
            Ok (pool, Some (sb <| sb_size := 0 |>)))
  end.

Fixpoint read_all_loop (fuel : nat) (pool : recv_pool) (sb : socket_recv_buffer) (acc : list Z) : result (list Z * recv_pool * socket_recv_buffer) :=
  match sb_head sb with
  | None => Ok (acc, pool, sb)
  | Some a =>
      match fuel with
      | O => Err OutOfFuel
      | S fuel =>
          nd <- get_node pool (Some a);;
          piece <- message_bytes nd (sb_offset sb) (bn_sz nd - sb_offset sb);;
          let* (pool, sb) := _return_free_node pool sb in
          read_all_loop fuel pool sb (acc ++ piece)
      end
  end.

Definition l_read_all (pool : recv_pool) (sb : option socket_recv_buffer) : recv (list Z * recv_pool * socket_recv_buffer) :=
  match sb with
  | None => luaL_error NeedBufferObject
  | Some sb =>
      lift (let* (s, pool, sb) := read_all_loop (size (nodes pool)) pool sb [] in
            Ok (s, pool, sb <| sb_size := 0 |>))
  end.

(** a negative [sz] moves [sep] before the start of the string *)
Fixpoint _check_sep (fuel : nat) (pool : recv_pool) (node : option node_ptr) (from : Z) (sep : list Z) : result bool :=
  match fuel with
  | O => Err OutOfFuel
  | S fuel =>
      nd <- get_node pool node;;
      let sz := bn_sz nd - from in
      let sep_len := Z.of_nat (length sep) in
      if sep_len <=? sz then
        bytes <- message_bytes nd from sep_len;;
        Ok (bool_decide (bytes = sep))
      else if 0 <? sz then
        bytes <- message_bytes nd from sz;;
        if bool_decide (bytes = take (Z.to_nat sz) sep) then _check_sep fuel pool (bn_next nd) 0 (drop (Z.to_nat sz) sep)
        else Ok false
      else if sz <? 0 then Err OutOfBounds
      else _check_sep fuel pool (bn_next nd) 0 sep
  end.

(** the position of the separator *)
Fixpoint read_line_loop (fuel : nat) (pool : recv_pool) (sb : socket_recv_buffer) (sep : list Z) (curr : option node_ptr) (from bytes i : Z) : result (option Z) :=
  if i <=? sb_size sb - Z.of_nat (length sep) then
    match fuel with
    | O => Err OutOfFuel
    | S fuel =>
        found <- _check_sep (S (size (nodes pool))) pool curr from sep;;
        if (found : bool) then Ok (Some i)
        else
          let from := from + 1 in
          let bytes := bytes - 1 in
          if bytes =? 0 then
            nd <- get_node pool curr;;
            match bn_next nd with
            | None => Ok None
            | Some next =>
                nd' <- get_node pool (Some next);;
                read_line_loop fuel pool sb sep (Some next) 0 (bn_sz nd') (i + 1)
            end
          else read_line_loop fuel pool sb sep curr from bytes (i + 1)
    end
  else Ok None.

(** no result, [true] when the separator is only looked for, or the line *)
Inductive line := NoLine | HasLine | Line (s : list Z).

Definition l_read_line (pool : recv_pool) (sb : option socket_recv_buffer) (check : bool) (sep : list Z) : recv (line * recv_pool * socket_recv_buffer) :=
  match sb with
  | None => luaL_error NeedBufferObject
  | Some sb =>
      match sb_head sb with
      | None => lret (NoLine, pool, sb)
      | Some head =>
          lift (
            nd <- get_node pool (Some head);;
            let from := sb_offset sb in
            let sep_len := Z.of_nat (length sep) in
            i <- read_line_loop (S (Z.to_nat (sb_size sb))) pool sb sep (Some head) from (bn_sz nd - from) 0;;
            match i with
            | None => Ok (NoLine, pool, sb)
            | Some i =>
                if check then Ok (HasLine, pool, sb)
                else
                  let* (s, pool, sb) := _pop_lstring pool sb (i + sep_len) sep_len in
                  Ok (Line s, pool, sb <| sb_size := sb_size sb - (i + sep_len) |>)
            end)
      end
  end.

(** [for (i = 0; i < len; i++) { sz <<= 8; sz |= s[i]; }] *)
Definition l_header (s : list Z) : recv Z :=
  let len := Z.of_nat (length s) in
  if (4 <? len) || (len <? 1) then luaL_error (InvalidRead s)
  else lret (foldl (λ sz b, Z.lor (u64 (Z.shiftl sz 8)) b) 0 s).
