(* ===== verification/RecvProof.v ===== *)
(** * The receive buffers are queues of bytes

    The nodes of the buffers that share a pool and its free nodes are disjoint lists that cover
    the pool. Every operation does to the bytes of its buffer what it does to a queue of bytes,
    and leaves the other buffers alone. *)
From S2P Require Import Prelude Bytes LuaCall RecvBuffer.
Open Scope list_scope.
Open Scope Z_scope.

Notation heap := (gmap node_ptr buffer_node).
Implicit Types (ns : heap) (fl : list node_ptr) (l : list (node_ptr * list Z)).

(** the nodes of a buffer with their messages, and the free nodes *)
Fixpoint chain ns (p : option node_ptr) l : Prop :=
  match l with
  | [] => p = None
  | e :: l => p = Some e.1 ∧ e.2 ≠ [] ∧
      ∃ next, ns !! e.1 = Some (mkNode (Some e.2) (Z.of_nat (length e.2)) next) ∧ chain ns next l
  end.
Fixpoint free_chain ns (p : option node_ptr) fl : Prop :=
  match fl with
  | [] => p = None
  | a :: fl => p = Some a ∧ ∃ next, ns !! a = Some (mkNode None 0 next) ∧ free_chain ns next fl
  end.

Lemma chain_agree ns ns' p l : (∀ a, a ∈ l.*1 → ns' !! a = ns !! a) → chain ns p l → chain ns' p l.
Proof.
  revert p. induction l as [|e l IH]; intros p Ha; [done|]. rewrite fmap_cons in Ha. intros (Hp & Hne & next & Hn & Hc).
  split; [done|]. split; [done|]. exists next. split; [by rewrite Ha by set_solver|]. apply IH; [set_solver|done].
Qed.
Lemma free_chain_agree ns ns' p fl : (∀ a, a ∈ fl → ns' !! a = ns !! a) → free_chain ns p fl → free_chain ns' p fl.
Proof.
  revert p. induction fl as [|a fl IH]; intros p Ha; [done|]. intros (Hp & next & Hn & Hc).
  split; [done|]. exists next. split; [by rewrite Ha by set_solver|]. apply IH; [set_solver|done].
Qed.
Lemma chain_dom ns p l a : chain ns p l → a ∈ l.*1 → is_Some (ns !! a).
Proof.
  revert p. induction l as [|e l IH]; intros p; [by intros _ ?%not_elem_of_nil|]. intros (_ & _ & next & Hn & Hc).
  rewrite fmap_cons, elem_of_cons. intros [-> |Hin]; [by eexists|by eapply IH].
Qed.
Lemma free_chain_dom ns p fl a : free_chain ns p fl → a ∈ fl → is_Some (ns !! a).
Proof.
  revert p. induction fl as [|b fl IH]; intros p; [by intros _ ?%not_elem_of_nil|]. intros (_ & next & Hn & Hc).
  rewrite elem_of_cons. intros [-> |Hin]; [by eexists|by eapply IH].
Qed.

(** the bytes that a buffer has not handed out *)
Definition queue (off : Z) l : list Z := drop (Z.to_nat off) (concat l.*2).
Definition offset_ok (off : Z) l : Prop :=
  match l with [] => off = 0 | e :: _ => 0 <= off < Z.of_nat (length e.2) end.

(** a buffer, without its size, and the free nodes *)
Record owned (pool : recv_pool) (sb : socket_recv_buffer) fl l : Prop := {
  ow_nodup : NoDup (fl ++ l.*1);
  ow_free : free_chain (nodes pool) (free_node pool) fl;
  ow_chain : chain (nodes pool) (sb_head sb) l;
  ow_tail : sb_tail sb = last l.*1 }.

(** nodes that were in these lists are moved between them, the others stay *)
Record moved (pool pool' : recv_pool) fl l fl' l' : Prop := {
  mv_perm : fl' ++ l'.*1 ≡ₚ fl ++ l.*1;
  mv_others : ∀ a, a ∉ fl ++ l.*1 → nodes pool' !! a = nodes pool !! a;
  mv_dom : ∀ a, is_Some (nodes pool' !! a) ↔ is_Some (nodes pool !! a);
  mv_chunks : chunks pool' = chunks pool }.

Lemma moved_refl pool fl l : moved pool pool fl l fl l.
Proof. by split. Qed.
Lemma moved_trans p1 p2 p3 f1 l1 f2 l2 f3 l3 : moved p1 p2 f1 l1 f2 l2 → moved p2 p3 f2 l2 f3 l3 → moved p1 p3 f1 l1 f3 l3.
Proof.
  intros [H1 H2 H3 H4] [H1' H2' H3' H4']. split; [by rewrite H1'| |intros a; by rewrite H3'|congruence].
  intros a Ha. rewrite H2' by (by rewrite H1). by apply H2.
Qed.

Lemma queue_cons off e l : 0 <= off <= Z.of_nat (length e.2) → queue off (e :: l) = drop (Z.to_nat off) e.2 ++ concat l.*2.
Proof. intros Ho. unfold queue. rewrite fmap_cons. cbn [concat]. by rewrite drop_app_le by lia. Qed.
Lemma queue_nil off : queue off [] = [].
Proof. apply drop_nil. Qed.
Lemma queue_0 l : queue 0 l = concat l.*2.
Proof. done. Qed.
Lemma message_bytes_Ok m sz next off n : 0 <= off → 0 <= n → off + n <= Z.of_nat (length m) →
  message_bytes (mkNode (Some m) sz next) off n = Ok (take (Z.to_nat n) (drop (Z.to_nat off) m)).
Proof.
  intros Ho Hn Hl. unfold message_bytes. cbn [bn_msg]. rewrite (proj2 (orb_false_iff _ _)) by (rewrite !Z.ltb_ge; lia).
  unfold slice. by rewrite decide_True by lia.
Qed.

(** ** A node goes back to the pool *)

Lemma return_spec pool sb fl a m l : owned pool sb fl ((a, m) :: l) →
  ∃ pool' sb', _return_free_node pool sb = Ok (pool', sb') ∧ owned pool' sb' (a :: fl) l ∧
    moved pool pool' fl ((a, m) :: l) (a :: fl) l ∧ sb_size sb' = sb_size sb ∧ sb_offset sb' = 0.
Proof.
  intros [Hnd Hf (Hh & Hm & next & Ha & Hc) Ht]. cbn [fst snd] in *. unfold _return_free_node. rewrite Hh. cbn [get_node]. rewrite Ha, bind_Ok.
  eexists _, _. split; [reflexivity|]. cbn [bn_next]. rewrite fmap_cons in *. cbn [fst] in *.
  assert (Hp : (a :: fl) ++ l.*1 ≡ₚ fl ++ a :: l.*1) by apply Permutation_middle.
  assert (Hnd' : NoDup ((a :: fl) ++ l.*1)) by (by rewrite Hp). assert (Hnd2 := Hnd'). cbn [app] in Hnd2. apply NoDup_cons in Hnd2 as [Hni _].
  split; [|split; [split; [done| | |done]|done]].
  - split; cbn; [done| | |].
    + split; [done|]. eexists. split; [apply lookup_insert_eq|]. eapply free_chain_agree; [|done].
      intros b Hb. apply lookup_insert_ne. intros ->. apply Hni, elem_of_app. by left.
    + eapply chain_agree; [|done]. intros b Hb. apply lookup_insert_ne. intros ->. apply Hni, elem_of_app. by right.
    + destruct l as [|e l]; cbn in Hc; [by subst|]. destruct Hc as (-> & _). cbn. by rewrite Ht.
  - intros b Hb. cbn. apply lookup_insert_ne. intros ->. apply Hb. set_solver.
  - intros b. cbn. destruct (decide (b = a)) as [-> |]; [rewrite lookup_insert_eq, Ha; naive_solver|by rewrite lookup_insert_ne].
Qed.

(** no list of nodes is longer than the pool has nodes *)
Lemma owned_size pool sb fl l : owned pool sb fl l → (length l <= size (nodes pool))%nat.
Proof.
  intros [Hnd _ Hc _]. apply NoDup_app in Hnd as (_ & _ & Hnd). rewrite <- (length_fmap fst l), <- size_dom.
  rewrite <- (size_list_to_set (C := gset node_ptr) l.*1) by done. apply subseteq_size. intros a Ha%elem_of_list_to_set.
  apply elem_of_dom. by eapply chain_dom.
Qed.

(** ** Taking bytes from the front *)

Lemma offset_ok_0 ns p l : chain ns p l → offset_ok 0 l.
Proof. destruct l as [|[a [|z m]] l]; cbn; [done|naive_solver|lia]. Qed.

(** [sz] bytes are gone, and those before the last [skip] of them were added *)
Definition popped (pool : recv_pool) (sb : socket_recv_buffer) fl l (sz skip : Z) (acc : list Z) (r : result (list Z * recv_pool * socket_recv_buffer)) : Prop :=
  ∃ pool' sb' fl' l', r = Ok (acc ++ take (Z.to_nat (sz - skip)) (queue (sb_offset sb) l), pool', sb') ∧
    owned pool' sb' fl' l' ∧ moved pool pool' fl l fl' l' ∧ offset_ok (sb_offset sb') l' ∧
    queue (sb_offset sb') l' = drop (Z.to_nat sz) (queue (sb_offset sb) l) ∧ sb_size sb' = sb_size sb.

Lemma owned_offset pool sb fl l off : owned pool sb fl l → owned pool (sb <| sb_offset := off |>) fl l.
Proof. by intros [? ? ? ?]. Qed.

(** the last node the bytes come from *)
Lemma pop_last pool sb fl a m l sz skip acc : owned pool sb fl ((a, m) :: l) → offset_ok (sb_offset sb) ((a, m) :: l) →
  0 <= skip → 0 <= sz <= Z.of_nat (length m) - sb_offset sb →
  popped pool sb fl ((a, m) :: l) sz skip acc (
    let* (pool, sb') := (if Z.of_nat (length m) - sb_offset sb =? sz then _return_free_node pool (sb <| sb_offset := sb_offset sb + sz |>)
                        else Ok (pool, sb <| sb_offset := sb_offset sb + sz |>)) in
    Ok (acc ++ take (Z.to_nat (sz - skip)) (drop (Z.to_nat (sb_offset sb)) m), pool, sb')).
Proof.
  intros Hown Hoff Hskip Hsz. cbn in Hoff. unfold popped. rewrite queue_cons by (cbn; lia). cbn [snd].
  rewrite (take_app_le (drop _ m)) by (rewrite length_drop; lia). destruct (Z.eqb_spec (Z.of_nat (length m) - sb_offset sb) sz) as [E|E].
  - destruct (return_spec pool _ fl a m l (owned_offset _ _ _ _ (sb_offset sb + sz) Hown)) as (pool' & sb' & -> & Hown' & Hmv & Hsize & Hoff').
    rewrite bind_Ok. exists pool', sb', (a :: fl), l. split; [done|]. split; [done|]. split; [done|]. rewrite Hoff'.
    split; [eapply offset_ok_0, ow_chain, Hown'|]. split; [|done]. by rewrite queue_0, drop_app_length' by (rewrite length_drop; lia).
  - rewrite bind_Ok. eexists _, _, fl, _. split; [reflexivity|]. split; [by apply owned_offset|]. split; [apply moved_refl|].
    cbn [sb_offset set_to sb_size offset_ok snd]. split; [cbn; lia|]. split; [|done].
    rewrite queue_cons by (cbn; lia). cbn [snd]. rewrite drop_app_le, drop_drop by (rewrite length_drop; lia). do 2 f_equal. lia.
Qed.

Lemma pop_loop_spec fuel pool sb fl l sz skip acc : owned pool sb fl l → offset_ok (sb_offset sb) l →
  0 <= skip → 0 < sz <= Z.of_nat (length (queue (sb_offset sb) l)) → (length l <= fuel)%nat →
  popped pool sb fl l sz skip acc (pop_loop fuel pool sb sz skip acc).
Proof.
  revert pool sb fl l sz acc. induction fuel as [|fuel IH]; intros pool sb fl l sz acc Hown Hoff Hskip Hsz Hf.
  { destruct l; [|cbn [length] in Hf; lia]. rewrite queue_nil in Hsz. cbn in Hsz. lia. }
  destruct l as [|[a m] l]; [rewrite queue_nil in Hsz; cbn in Hsz; lia|].
  destruct (ow_chain _ _ _ _ Hown) as (Hh & Hm & next & Ha & Hc). cbn [fst snd] in *. cbn [pop_loop]. rewrite Hh. cbn [get_node]. rewrite Ha, bind_Ok.
  cbn [bn_sz]. assert (Ho := Hoff). cbn in Ho. rewrite queue_cons in Hsz by (cbn; lia). cbn [snd] in Hsz. rewrite length_app, length_drop in Hsz.
  destruct (Z.leb_spec sz (Z.of_nat (length m) - sb_offset sb)).
  - pose proof (pop_last pool sb fl a m l sz skip acc Hown Hoff Hskip ltac:(lia)) as Hp.
    destruct (Z.ltb_spec skip sz); [by rewrite message_bytes_Ok, bind_Ok by lia|].
    replace (Z.to_nat (sz - skip)) with 0%nat in Hp by lia. rewrite take_0 in Hp. by rewrite bind_Ok.
  - set (b := Z.of_nat (length m) - sb_offset sb) in *.
    assert (Hpiece : (if 0 <? sz - skip then message_bytes (mkNode (Some m) (Z.of_nat (length m)) next) (sb_offset sb) (if sz - skip <? b then sz - skip else b) else Ok []) =
      Ok (take (Z.to_nat (sz - skip)) (drop (Z.to_nat (sb_offset sb)) m))).
    { destruct (Z.ltb_spec 0 (sz - skip)); [|replace (Z.to_nat (sz - skip)) with 0%nat by lia; by rewrite take_0].
      destruct (Z.ltb_spec (sz - skip) b); rewrite message_bytes_Ok by lia; [done|]. rewrite !take_ge by (rewrite length_drop; lia). done. }
    rewrite Hpiece, bind_Ok.
    destruct (return_spec pool sb fl a m l Hown) as (pool1 & sb1 & -> & Hown1 & Hmv1 & Hsize1 & Hoff1). rewrite bind_Ok.
    assert (Htake : take (Z.to_nat (sz - skip)) (queue (sb_offset sb) ((a, m) :: l)) =
      take (Z.to_nat (sz - skip)) (drop (Z.to_nat (sb_offset sb)) m) ++ take (Z.to_nat (sz - b - skip)) (concat l.*2)).
    { rewrite queue_cons by (cbn; lia). cbn [snd]. rewrite take_app, length_drop. do 2 f_equal. lia. }
    assert (Hdrop : drop (Z.to_nat sz) (queue (sb_offset sb) ((a, m) :: l)) = drop (Z.to_nat (sz - b)) (concat l.*2)).
    { rewrite queue_cons by (cbn; lia). cbn [snd]. rewrite drop_app_ge, length_drop by (rewrite length_drop; lia). f_equal. lia. }
    rewrite (proj2 (Z.eqb_neq _ _)) by lia.
    assert (Hl : l ≠ []) by (intros ->; cbn in Hsz; lia).
    assert (Hhead : (if sb_head sb1 then true else false) = true) by (destruct l as [|e l]; [done|]; by destruct (ow_chain _ _ _ _ Hown1) as (-> & _)).
    rewrite Hhead. unfold massert. rewrite bind_Ok.
    destruct (IH pool1 sb1 (a :: fl) l (sz - b) (acc ++ take (Z.to_nat (sz - skip)) (drop (Z.to_nat (sb_offset sb)) m)) Hown1) as (pool2 & sb2 & fl2 & l2 & -> & Hown2 & Hmv2 & Hoff2 & Hq2 & Hsize2);
      [rewrite Hoff1; eapply offset_ok_0, ow_chain, Hown1|done|rewrite Hoff1, queue_0; lia|cbn [length] in Hf; lia|].
    exists pool2, sb2, fl2, l2. rewrite Hoff1, queue_0 in *. split; [by rewrite Htake, app_assoc|]. split; [done|].
    split; [by eapply moved_trans|]. split; [done|]. split; [by rewrite Hdrop|congruence].
Qed.

Lemma pop_lstring_spec pool sb fl l sz skip : owned pool sb fl l → offset_ok (sb_offset sb) l → l ≠ [] →
  0 <= skip <= sz → sz <= Z.of_nat (length (queue (sb_offset sb) l)) →
  popped pool sb fl l sz skip [] (_pop_lstring pool sb sz skip).
Proof.
  intros Hown Hoff Hl Hskip Hsz. destruct l as [|[a m] l]; [done|].
  destruct (ow_chain _ _ _ _ Hown) as (Hh & Hm & next & Ha & Hc). cbn [fst snd] in *. unfold _pop_lstring. rewrite Hh. cbn [get_node]. rewrite Ha, bind_Ok.
  cbn [bn_sz]. assert (Ho := Hoff). cbn in Ho.
  destruct (Z.ltb_spec sz (Z.of_nat (length m) - sb_offset sb)); [|destruct (Z.eqb_spec sz (Z.of_nat (length m) - sb_offset sb)) as [E|]].
  - pose proof (pop_last pool sb fl a m l sz skip [] Hown Hoff ltac:(lia) ltac:(lia)) as Hp.
    rewrite (proj2 (Z.eqb_neq _ _)), bind_Ok in Hp by lia. by rewrite message_bytes_Ok, bind_Ok by lia.
  - rewrite message_bytes_Ok, bind_Ok by lia.
    destruct (return_spec pool sb fl a m l Hown) as (pool1 & sb1 & -> & Hown1 & Hmv1 & Hsize1 & Hoff1). rewrite bind_Ok.
    exists pool1, sb1, (a :: fl), l. rewrite queue_cons by (cbn; lia). cbn [snd].
    rewrite take_app_le by (rewrite length_drop; lia). split; [done|]. split; [done|]. split; [done|]. rewrite Hoff1.
    split; [eapply offset_ok_0, ow_chain, Hown1|]. split; [|done]. by rewrite queue_0, drop_app_length' by (rewrite length_drop; lia).
  - apply pop_loop_spec; [done..|lia|lia|]. pose proof (owned_size _ _ _ _ Hown). lia.
Qed.

(** ** All bytes *)

Lemma clear_loop_spec fuel pool sb fl l : owned pool sb fl l → offset_ok (sb_offset sb) l → (length l <= fuel)%nat →
  ∃ pool' sb' fl', clear_loop fuel pool sb = Ok (pool', sb') ∧ owned pool' sb' fl' [] ∧ moved pool pool' fl l fl' [] ∧ sb_offset sb' = 0.
Proof.
  revert pool sb fl l. induction fuel as [|fuel IH]; intros pool sb fl l Hown Hoff Hf; destruct l as [|[a m] l]; cbn [length] in Hf; try lia.
  1, 2: pose proof (ow_chain _ _ _ _ Hown) as Hh; cbn in Hh; cbn [clear_loop]; rewrite Hh; exists pool, sb, fl; auto using moved_refl.
  destruct (ow_chain _ _ _ _ Hown) as (Hh & _). cbn [clear_loop]. rewrite Hh.
  destruct (return_spec pool sb fl a m l Hown) as (pool1 & sb1 & -> & Hown1 & Hmv1 & _ & Hoff1). rewrite bind_Ok.
  destruct (IH pool1 sb1 (a :: fl) l Hown1) as (pool2 & sb2 & fl2 & -> & Hown2 & Hmv2 & Hoff2); [rewrite Hoff1; eapply offset_ok_0, ow_chain, Hown1|lia|].
  exists pool2, sb2, fl2. eauto using moved_trans.
Qed.

Lemma read_all_loop_spec fuel pool sb fl l acc : owned pool sb fl l → offset_ok (sb_offset sb) l → (length l <= fuel)%nat →
  ∃ pool' sb' fl', read_all_loop fuel pool sb acc = Ok (acc ++ queue (sb_offset sb) l, pool', sb') ∧ owned pool' sb' fl' [] ∧
    moved pool pool' fl l fl' [] ∧ sb_offset sb' = 0.
Proof.
  revert pool sb fl l acc. induction fuel as [|fuel IH]; intros pool sb fl l acc Hown Hoff Hf; destruct l as [|[a m] l]; cbn [length] in Hf; try lia.
  1, 2: pose proof (ow_chain _ _ _ _ Hown) as Hh; cbn in Hh; cbn [read_all_loop]; rewrite Hh; exists pool, sb, fl; rewrite queue_nil, app_nil_r; auto using moved_refl.
  destruct (ow_chain _ _ _ _ Hown) as (Hh & Hm & next & Ha & Hc). cbn [fst snd] in *. cbn [read_all_loop]. rewrite Hh. cbn [get_node]. rewrite Ha, bind_Ok.
  cbn [bn_sz]. assert (Ho := Hoff). cbn in Ho. rewrite message_bytes_Ok, bind_Ok by lia.
  destruct (return_spec pool sb fl a m l Hown) as (pool1 & sb1 & -> & Hown1 & Hmv1 & _ & Hoff1). rewrite bind_Ok.
  edestruct (IH pool1 sb1 (a :: fl) l) as (pool2 & sb2 & fl2 & -> & Hown2 & Hmv2 & Hoff2); [done|rewrite Hoff1; eapply offset_ok_0, ow_chain, Hown1|lia|].
  exists pool2, sb2, fl2. rewrite Hoff1, queue_0, queue_cons by (cbn; lia). cbn [snd]. rewrite <- app_assoc, take_ge by (rewrite length_drop; lia).
  eauto using moved_trans.
Qed.

(** ** Lines *)

(** the position of the first separator *)
Fixpoint find_sep (sep q : list Z) : option nat :=
  if bool_decide (take (length sep) q = sep) then Some 0%nat
  else match q with [] => None | _ :: q => S <$> find_sep sep q end.

Lemma find_sep_short sep q : (length q < length sep)%nat → find_sep sep q = None.
Proof.
  induction q as [|b q IH]; intros Hl; cbn [find_sep]; rewrite bool_decide_false by (intros E; apply (f_equal length) in E; rewrite length_take in E; lia); [done|].
  rewrite IH; [done|cbn [length] in Hl; lia].
Qed.

Lemma find_sep_length sep q k : find_sep sep q = Some k → (k + length sep <= length q)%nat.
Proof.
  revert k. induction q as [|b q IH]; intros k; cbn [find_sep]; case_bool_decide as E; [|done| |].
  - intros [= <-]. apply (f_equal length) in E. rewrite length_take in E. cbn [length] in *. lia.
  - intros [= <-]. apply (f_equal length) in E. rewrite length_take in E. lia.
  - intros (j & Hj & ->)%fmap_Some. specialize (IH j Hj). cbn [length]. lia.
Qed.

Lemma check_sep_spec fuel pool node a m l from sep : chain (nodes pool) node ((a, m) :: l) → 0 <= from < Z.of_nat (length m) →
  (length sep <= length (drop (Z.to_nat from) m ++ concat l.*2))%nat → (S (length l) <= fuel)%nat →
  _check_sep fuel pool node from sep = Ok (bool_decide (take (length sep) (drop (Z.to_nat from) m ++ concat l.*2) = sep)).
Proof.
  revert node a m l from sep. induction fuel as [|fuel IH]; intros node a m l from sep Hc Hfrom Hsep Hf; [lia|].
  destruct Hc as (-> & Hm & next & Ha & Hc). cbn [fst snd] in *. cbn [_check_sep get_node]. rewrite Ha, bind_Ok. cbn [bn_sz bn_next].
  rewrite length_app, length_drop in Hsep. destruct (Z.leb_spec (Z.of_nat (length sep)) (Z.of_nat (length m) - from)).
  - rewrite message_bytes_Ok, bind_Ok, Nat2Z.id by lia. by rewrite take_app_le by (rewrite length_drop; lia).
  - rewrite (proj2 (Z.ltb_lt _ _)), message_bytes_Ok, bind_Ok by lia. set (x := drop (Z.to_nat from) m).
    assert (Hx : length x = Z.to_nat (Z.of_nat (length m) - from)) by (unfold x; rewrite length_drop; lia). rewrite <- Hx, firstn_all.
    rewrite take_app_ge by lia. destruct (decide (x = take (length x) sep)) as [E|E].
    + rewrite bool_decide_true by done. destruct l as [|[b m'] l]; [cbn in Hsep; lia|].
      assert (Hne : m' ≠ []) by (by destruct Hc as (_ & ? & _)).
      rewrite (IH next b m' l 0 _ Hc); [|destruct m'; [done|cbn [length]; lia]|rewrite length_drop, drop_0; cbn in Hsep |- *; lia|cbn [length] in Hf; lia].
      rewrite drop_0, length_drop. f_equal. apply bool_decide_ext. rewrite fmap_cons. cbn [concat snd].
      rewrite <- (take_drop (length x) sep) at 4. rewrite <- E. split; [by intros ->|]. by intros ?%app_inv_head.
    + rewrite !bool_decide_false; [done| |done]. intros E'. apply E. rewrite <- E'. rewrite take_app_length. done.
Qed.

Lemma queue_chain_0 ns p l : chain ns p l → l ≠ [] → concat l.*2 ≠ [].
Proof. destruct l as [|[a m] l]; [done|]. intros (_ & Hm & _) _. cbn in *. by destruct m. Qed.

Lemma read_line_loop_spec fuel pool sb fl l0 sep node a m l from i : owned pool sb fl l0 →
  chain (nodes pool) node ((a, m) :: l) → (length l < length l0)%nat → 0 <= from < Z.of_nat (length m) → 
  let rest := drop (Z.to_nat from) m ++ concat l.*2 in
  sb_size sb = i + Z.of_nat (length rest) → (length rest < fuel)%nat →
  read_line_loop fuel pool sb sep node from (Z.of_nat (length m) - from) i = Ok ((λ k, i + Z.of_nat k) <$> find_sep sep rest).
Proof.
  intros Hown. revert node a m l from i. induction fuel as [|fuel IH]; intros node a m l from i Hc Hl Hfrom rest Hsize Hf; [lia|].
  cbn [read_line_loop]. destruct (Z.leb_spec i (sb_size sb - Z.of_nat (length sep))).
  2: { rewrite find_sep_short by lia. done. }
  rewrite (check_sep_spec _ pool node a m l from sep Hc Hfrom); [|fold rest; lia|pose proof (owned_size _ _ _ _ Hown); lia].
  fold rest. rewrite bind_Ok. destruct (drop (Z.to_nat from) m) as [|b x] eqn:Ex; [apply (f_equal length) in Ex; rewrite length_drop in Ex; cbn [length] in Ex; lia|].
  assert (Ex' : drop (Z.to_nat (from + 1)) m = x) by (replace (Z.to_nat (from + 1)) with (Z.to_nat from + 1)%nat by lia; by rewrite <- drop_drop, Ex).
  assert (Hlx : Z.of_nat (length x) = Z.of_nat (length m) - from - 1) by (apply (f_equal length) in Ex; rewrite length_drop in Ex; cbn [length] in Ex; lia).
  unfold rest in *. cbn [app find_sep length] in *. case_bool_decide; [cbn; by rewrite Z.add_0_r|].
  destruct (Z.eqb_spec (Z.of_nat (length m) - from - 1) 0) as [E|E].
  - destruct x; [|cbn [length] in Hlx; lia]. cbn [app length] in *. destruct Hc as (-> & Hm & next & Ha & Hc). cbn [fst snd get_node] in *. rewrite Ha, bind_Ok. cbn [bn_next].
    destruct l as [|[a' m'] l]; [cbn in Hc; subst; cbn [fmap list_fmap concat]|].
    { destruct sep; [done|]. rewrite find_sep_short by (cbn; lia). done. }
    assert (Hc' := Hc). destruct Hc' as (-> & Hm' & next' & Ha' & _). cbn [fst snd] in *. rewrite Ha', bind_Ok. cbn [bn_sz].
    assert (0 < length m')%nat by (destruct m'; [done|cbn [length]; lia]).
    rewrite <- (Z.sub_0_r (Z.of_nat (length m'))).
    rewrite (IH (Some a') a' m' l 0 (i + 1)); [|done|cbn [length] in Hl; lia|lia|rewrite drop_0; cbn in Hsize |- *; lia|rewrite drop_0; cbn in Hf |- *; lia].
    rewrite drop_0. cbn [fmap list_fmap concat snd]. destruct (find_sep _ _); cbn; [|done]. do 2 f_equal. lia.
  - replace (Z.of_nat (length m) - from - 1) with (Z.of_nat (length m) - (from + 1)) by lia.
    rewrite (IH node a m l (from + 1) (i + 1) Hc Hl); [|lia|rewrite Ex'; lia|rewrite Ex'; lia].
    rewrite Ex'. destruct (find_sep _ _); cbn; [|done]. do 2 f_equal. lia.
Qed.

(** ** Adding a message *)

Definition chunks_ok (pool : recv_pool) : Prop :=
  ∀ a, is_Some (nodes pool !! a) → a.1 < Z.of_nat (length (chunks pool)) + 2.

Lemma new_chunk_lookup ns c sz k a : (k <= Z.to_nat sz)%nat →
  foldr (λ i, <[(c, Z.of_nat i) := chunk_node c sz i]>) ns (seq (Z.to_nat sz - k) k) !! a =
    if decide (a.1 = c ∧ sz - Z.of_nat k <= a.2 < sz) then Some (chunk_node c sz (Z.to_nat a.2)) else ns !! a.
Proof.
  induction k as [|k IH]; intros Hk; cbn [seq foldr].
  - rewrite decide_False by lia. done.
  - destruct (decide (a = (c, Z.of_nat (Z.to_nat sz - S k)))) as [-> |Hne].
    + rewrite lookup_insert_eq. cbn [fst snd]. rewrite decide_True, Nat2Z.id by lia. done.
    + rewrite lookup_insert_ne by done. replace (S (Z.to_nat sz - S k)) with (Z.to_nat sz - k)%nat by lia. rewrite IH by lia.
      destruct a as [c' i]. cbn [fst snd]. repeat case_decide; try done; exfalso; (lia || (apply Hne; f_equal; lia)).
Qed.

Lemma new_pool_lookup ns c sz a : 0 <= sz →
  _new_recv_buffer_pool ns c sz !! a = if decide (a.1 = c ∧ 0 <= a.2 < sz) then Some (chunk_node c sz (Z.to_nat a.2)) else ns !! a.
Proof.
  intros Hsz. pose proof (new_chunk_lookup ns c sz (Z.to_nat sz) a ltac:(lia)) as H. rewrite Nat.sub_diag in H.
  replace (sz - Z.of_nat (Z.to_nat sz)) with 0 in H by lia. exact H.
Qed.

Lemma new_chunk_chain ns c sz k : (k < Z.to_nat sz)%nat → (∀ i, (i < Z.to_nat sz)%nat → ns !! (c, Z.of_nat i) = Some (chunk_node c sz i)) →
  free_chain ns (bn_next (chunk_node c sz (Z.to_nat sz - S k))) ((λ i, (c, Z.of_nat i)) <$> seq (Z.to_nat sz - k) k).
Proof.
  intros Hk Hns. induction k as [|k IH].
  - cbn. by rewrite (proj2 (Z.eqb_eq _ _)) by lia.
  - cbn [seq fmap list_fmap free_chain]. unfold chunk_node at 1. cbn [bn_next]. rewrite (proj2 (Z.eqb_neq _ _)) by lia. split; [do 2 f_equal; lia|].
    eexists. rewrite Hns by lia. split; [reflexivity|]. replace (S (Z.to_nat sz - S k)) with (Z.to_nat sz - k)%nat by lia. apply IH. lia.
Qed.

Lemma chunk_size_pos t : 1 <= t → 0 < chunk_size t.
Proof. intros Ht. unfold chunk_size, LARGE_PAGE_NODE. destruct (_ <=? _); rewrite Z.shiftl_mul_pow2 by lia; [|lia]. pose proof (Z.pow_pos_nonneg 2 t). lia. Qed.

(** the node that is taken, and the list of free nodes after it *)
Lemma take_free_spec pool fl : free_chain (nodes pool) (free_node pool) fl → chunks_ok pool → NoDup fl →
  ∃ pool' a next fl' new, take_free_node pool = (pool', a) ∧ nodes pool' !! a = Some (mkNode None 0 next) ∧
    free_chain (nodes pool') next fl' ∧ a :: fl' = fl ++ new ∧ NoDup (fl ++ new) ∧ (∀ b, b ∈ new → nodes pool !! b = None) ∧
    (∀ b, b ∉ new → nodes pool' !! b = nodes pool !! b) ∧ (∀ b, b ∈ new → is_Some (nodes pool' !! b)) ∧ chunks_ok pool'.
Proof.
  intros Hf Hck Hnd. unfold take_free_node. destruct fl as [|a fl].
  - cbn in Hf. rewrite Hf. set (tsz := if pool_rawlen pool =? 0 then pool_rawlen pool + 1 else pool_rawlen pool).
    assert (Ht : tsz = Z.of_nat (length (chunks pool)) + 1).
    { unfold tsz, pool_rawlen. destruct (chunks pool); [done|]. rewrite (proj2 (Z.eqb_neq _ _)) by (cbn [length]; lia). done. }
    clearbody tsz. pose proof (chunk_size_pos tsz ltac:(lia)) as Hpos. set (sz := chunk_size tsz) in *. clearbody sz.
    assert (Hlk := λ b, new_pool_lookup (nodes pool) (tsz + 1) sz b ltac:(lia)).
    eexists _, _, _, ((λ i, (tsz + 1, Z.of_nat i)) <$> seq 1 (Z.to_nat sz - 1)), ((λ i, (tsz + 1, Z.of_nat i)) <$> seq 0 (Z.to_nat sz)).
    split; [reflexivity|]. cbn [set_to nodes chunks].
    assert (Hin : ∀ b, b ∈ (λ i, (tsz + 1, Z.of_nat i)) <$> seq 0 (Z.to_nat sz) ↔ b.1 = tsz + 1 ∧ 0 <= b.2 < sz).
    { intros [c i]. rewrite list_elem_of_fmap. cbn [fst snd]. split; [intros (j & [= -> ->] & Hj%elem_of_seq); lia|].
      intros [-> Hi]. exists (Z.to_nat i). rewrite elem_of_seq. split; [f_equal; lia|lia]. }
    split; [rewrite Hlk; cbn [fst snd]; rewrite decide_True by lia; reflexivity|]. split; [|split; [|split; [|split; [|split; [|split]]]]].
    + pose proof (new_chunk_chain (_new_recv_buffer_pool (nodes pool) (tsz + 1) sz) (tsz + 1) sz (Z.to_nat sz - 1) ltac:(lia)) as Hc.
      replace (Z.to_nat sz - (Z.to_nat sz - 1))%nat with 1%nat in Hc by lia. replace (Z.to_nat sz - S (Z.to_nat sz - 1))%nat with 0%nat in Hc by lia.
      apply Hc. intros i Hi. rewrite Hlk. cbn [fst snd]. by rewrite decide_True, Nat2Z.id by lia.
    + cbn [app]. destruct (Z.to_nat sz) as [|n] eqn:En; [lia|]. cbn [seq]. rewrite fmap_cons. by replace (S n - 1)%nat with n by lia.
    + cbn [app]. apply NoDup_fmap_2; [intros ? ? [= ?]; lia|apply NoDup_seq].
    + intros b [Hb _]%Hin. destruct (nodes pool !! b) as [nd|] eqn:E; [|done]. specialize (Hck b (ex_intro _ nd E)). lia.
    + intros b Hb. rewrite Hlk, decide_False; [done|]. intros [? ?]. by apply Hb, Hin.
    + intros b Hb%Hin. rewrite Hlk, decide_True by done. by eexists.
    + intros b Hb. cbn [set_to nodes chunks] in *. rewrite Hlk in Hb. rewrite length_app. cbn [length].
      case_decide as Hd; [lia|]. specialize (Hck b Hb). lia.
  - destruct Hf as (-> & next & Ha & Hf). exists pool, a, next, fl, []. rewrite app_nil_r. split; [done|]. split; [done|]. split; [done|]. split; [done|]. split; [done|].
    split; [by intros b ?%not_elem_of_nil|]. split; [done|]. split; [by intros b ?%not_elem_of_nil|done].
Qed.

(** as [moved], with nodes of a new chunk *)
Definition grown (pool pool' : recv_pool) fl l fl' l' : Prop :=
  ∃ new, fl' ++ l'.*1 ≡ₚ (fl ++ l.*1) ++ new ∧ (∀ b, b ∈ new → nodes pool !! b = None) ∧
    (∀ b, b ∉ fl ++ l.*1 → b ∉ new → nodes pool' !! b = nodes pool !! b) ∧
    (∀ b, is_Some (nodes pool' !! b) ↔ is_Some (nodes pool !! b) ∨ b ∈ new) ∧ chunks_ok pool'.

Lemma moved_grown pool pool' fl l fl' l' : chunks_ok pool → moved pool pool' fl l fl' l' → grown pool pool' fl l fl' l'.
Proof.
  intros Hck [H1 H2 H3 H4]. exists []. rewrite app_nil_r. split; [done|]. split; [by intros b ?%not_elem_of_nil|]. split; [auto|].
  split; [intros b; rewrite H3, elem_of_nil; naive_solver|]. intros b Hb. rewrite H4. by apply Hck, H3.
Qed.

Lemma recv_chain_snoc ns p l t nd a msg : chain ns p l → last l.*1 = Some t → NoDup (a :: l.*1) → ns !! t = Some nd → msg ≠ [] →
  chain (<[t := nd <| bn_next := Some a |>]> (<[a := mkNode (Some msg) (Z.of_nat (length msg)) None]> ns)) p (l ++ [(a, msg)]).
Proof.
  intros Hc Hlast Hnd Ht Hmsg. apply NoDup_cons in Hnd as [Ha Hnd]. revert p Hc Hlast Ha Hnd. induction l as [|e l IH]; intros p Hc Hlast Ha Hnd; [done|].
  destruct Hc as (-> & Hm & next & He & Hc). rewrite fmap_cons in *. apply NoDup_cons in Hnd as [Hne Hnd]. apply not_elem_of_cons in Ha as [Hae Ha].
  cbn [app chain]. split; [done|]. split; [done|]. destruct l as [|e' l].
  - cbn in Hlast. injection Hlast as <-. rewrite He in Ht. injection Ht as <-. exists (Some a). split; [by rewrite lookup_insert_eq|].
    cbn [app chain fst snd]. split; [done|]. split; [done|]. exists None. split; [|done]. rewrite lookup_insert_ne by done. by rewrite lookup_insert_eq.
  - assert (Ht' : t ∈ (e' :: l).*1) by (apply last_Some_elem_of; by rewrite fmap_cons in *).
    exists next. split; [|apply IH; [done| |done|done]; by rewrite fmap_cons in *]. rewrite !lookup_insert_ne; [done|congruence|]. intros ->. by apply Hne.
Qed.

(** a free node [a] is taken; [fl1] are the free nodes after it *)
Record taken (pool pool1 : recv_pool) fl l (a : node_ptr) fl1 (new : list node_ptr) : Prop := {
  tk_nodup : NoDup (a :: fl1 ++ l.*1);
  tk_perm : a :: fl1 ≡ₚ fl ++ new;
  tk_new : ∀ b, b ∈ new → nodes pool !! b = None;
  tk_same : ∀ b, b ∉ new → nodes pool1 !! b = nodes pool !! b;
  tk_dom : ∀ b, is_Some (nodes pool1 !! b) ↔ is_Some (nodes pool !! b) ∨ b ∈ new;
  tk_chunks : chunks_ok pool1 }.

Lemma take_owned pool sb fl l : owned pool sb fl l → chunks_ok pool →
  ∃ pool1 a next fl1 new, take_free_node pool = (pool1, a) ∧ nodes pool1 !! a = Some (mkNode None 0 next) ∧
    free_chain (nodes pool1) next fl1 ∧ chain (nodes pool1) (sb_head sb) l ∧ taken pool pool1 fl l a fl1 new.
Proof.
  intros [Hnd Hf Hc Ht] Hck. assert (Hnd' := Hnd). apply NoDup_app in Hnd' as (Hndf & Hdisj & Hndl).
  destruct (take_free_spec pool fl Hf Hck Hndf) as (pool1 & a & next & fl1 & new & Htake & Ha & Hf1 & Hperm & Hndn & Hnew & Hsame & Hdom & Hck1).
  assert (Hnl : ∀ b, b ∈ l.*1 → b ∉ new).
  { intros b Hb Hb'. destruct (chain_dom _ _ _ _ Hc Hb) as [nd Hnd']. by rewrite (Hnew b Hb') in Hnd'. }
  exists pool1, a, next, fl1, new. split; [done|]. split; [done|]. split; [done|]. split; [eapply chain_agree; [|done]; auto|].
  split; [|by rewrite Hperm|done|done| |done].
  - rewrite app_comm_cons, Hperm. apply NoDup_app. split; [done|]. split; [|done]. intros b Hb Hb'. apply elem_of_app in Hb as [Hb|Hb]; [by eapply Hdisj|by eapply Hnl].
  - intros b. destruct (decide (b ∈ new)) as [Hb|Hb]; [naive_solver|]. rewrite (Hsame b Hb). naive_solver.
Qed.

(** what the nodes are when the message is in its buffer *)
Lemma taken_grown pool pool1 fl l a fl1 new msg next ns : taken pool pool1 fl l a fl1 new →
  (∀ b, b ≠ a → b ∉ l.*1 → ns !! b = nodes pool1 !! b) → (∀ b, is_Some (ns !! b) ↔ is_Some (nodes pool1 !! b)) →
  NoDup (fl1 ++ (l ++ [(a, msg)]).*1) ∧ grown pool (mkPool next (chunks pool1) ns) fl l fl1 (l ++ [(a, msg)]).
Proof.
  intros [Hnd Hp Hnew Hsame Hdom Hck] Hns Hd. rewrite fmap_app. cbn [fmap list_fmap fst].
  assert (Hperm : fl1 ++ l.*1 ++ [a] ≡ₚ a :: fl1 ++ l.*1) by (by rewrite app_assoc, Permutation_app_comm). split; [by rewrite Hperm|].
  exists new. cbn [nodes]. split; [|split; [done|split; [|split]]].
  - rewrite fmap_app. cbn [fmap list_fmap fst]. rewrite Hperm, app_comm_cons, Hp, <- !app_assoc. by rewrite (Permutation_app_comm new).
  - intros b Hb Hb'. assert (Hba : b ≠ a) by (intros ->; assert (a ∈ fl ++ new) by (rewrite <- Hp; set_solver); set_solver).
    rewrite Hns by set_solver. by apply Hsame.
  - intros b. by rewrite Hd, Hdom.
  - intros b Hb. by apply Hck, Hd.
Qed.

Lemma insert_dom ns a x b : is_Some (ns !! a) → is_Some (<[a := x]> ns !! b) ↔ is_Some (ns !! b).
Proof. intros Ha. destruct (decide (b = a)) as [-> |]; [rewrite lookup_insert_eq; naive_solver|by rewrite lookup_insert_ne]. Qed.

Lemma push_spec pool sb fl l msg : owned pool sb fl l → chunks_ok pool → msg ≠ [] → Z.of_nat (length msg) <= INT_MAX →
  ∃ pool' sb' fl' a, l_push_socket_recv_buffer pool (Some sb) (Some msg) (Z.of_nat (length msg)) =
      lift (n <- int_chk (sb_size sb + Z.of_nat (length msg));; Ok (pool', sb' <| sb_size := n |>, n)) ∧
    owned pool' sb' fl' (l ++ [(a, msg)]) ∧ grown pool pool' fl l fl' (l ++ [(a, msg)]) ∧ sb_offset sb' = sb_offset sb.
Proof.
  intros Hown Hck Hmsg Hlen. destruct (take_owned pool sb fl l Hown Hck) as (pool1 & a & next & fl1 & new & Htake & Ha & Hf1 & Hc1 & Htk).
  unfold l_push_socket_recv_buffer. rewrite s32_small by (unfold INT_MAX in *; lia). rewrite Htake. cbn [get_node]. rewrite Ha, bind_Ok. cbn [bn_next].
  assert (Hnd := tk_nodup _ _ _ _ _ _ _ Htk). apply NoDup_cons in Hnd as [Ha' Hnd]. apply not_elem_of_app in Ha' as [Hafl Hal]. apply NoDup_app in Hnd as (_ & Hdisj & Hndl).
  assert (Hsome : is_Some (nodes pool1 !! a)) by (by rewrite Ha).
  set (n1 := <[a := mkNode (Some msg) (Z.of_nat (length msg)) None]> (nodes pool1)).
  assert (Hfree : free_chain n1 next fl1) by (eapply free_chain_agree; [|done]; intros b Hb; apply lookup_insert_ne; congruence).
  destruct l as [|e l].
  - pose proof (ow_tail _ _ _ _ Hown) as Ht. cbn in Hc1, Ht. rewrite Hc1, Ht. unfold massert. rewrite !bind_Ok. cbn [sb_size set_to].
    destruct (taken_grown pool pool1 fl [] a fl1 new msg next n1 Htk) as [Hnd Hg]; [intros b Hb _; by apply lookup_insert_ne|intros b; by apply insert_dom|].
    exists (mkPool next (chunks pool1) n1), (mkRecv (sb_size sb) (sb_offset sb) (Some a) (Some a)), fl1, a.
    split; [by destruct (int_chk _)|]. split; [|done]. split; cbn [nodes free_node sb_head sb_tail]; [done|done| |done].
    cbn. split; [done|]. split; [done|]. eexists. split; [apply lookup_insert_eq|done].
  - assert (Hh : sb_head sb = Some e.1) by apply Hc1. rewrite Hh.
    assert (Hlast : ∃ t, last (e :: l).*1 = Some t ∧ t ∈ (e :: l).*1).
    { destruct (last (e :: l).*1) as [t|] eqn:E; [exists t; split; [done|by apply last_Some_elem_of]|]. by apply last_None in E. }
    destruct Hlast as (t & Hlast & Hin). rewrite (ow_tail _ _ _ _ Hown), Hlast. destruct (chain_dom _ _ _ _ Hc1 Hin) as [nd Hnd'].
    assert (Hta : t ≠ a) by congruence. cbn [get_node nodes set_to]. fold n1.
    assert (Hn1 : n1 !! t = Some nd) by (unfold n1; by rewrite lookup_insert_ne). rewrite Hn1, !bind_Ok. cbn [sb_size].
    set (n2 := <[t := nd <| bn_next := Some a |>]> n1).
    destruct (taken_grown pool pool1 fl (e :: l) a fl1 new msg next n2 Htk) as [Hnd Hg].
    { intros b Hb Hb'. unfold n2, n1. by rewrite !lookup_insert_ne by congruence. }
    { intros b. unfold n2. rewrite insert_dom by (by rewrite Hn1). unfold n1. by apply insert_dom. }
    exists (mkPool next (chunks pool1) n2), (mkRecv (sb_size sb) (sb_offset sb) (sb_head sb) (Some a)), fl1, a.
    split; [by rewrite Hh; destruct (int_chk _)|]. split; [|done]. split; cbn [nodes free_node sb_head sb_tail]; [done| | |].
    + eapply free_chain_agree; [|done]. intros b Hb. apply lookup_insert_ne. intros ->. by apply (Hdisj b).
    + apply recv_chain_snoc; [done..|by apply NoDup_cons|done|done].
    + rewrite fmap_app. cbn [fmap list_fmap fst]. by rewrite last_snoc.
Qed.

(** ** The buffers of a service *)

(** the calls of a service; a buffer is named by its socket *)
Inductive recv_op :=
  | OpNew (id : Z)
  | OpPush (id : Z) (msg : option (list Z))
  | OpPop (id sz : Z)
  | OpReadLine (id : Z) (check : bool) (sep : list Z)
  | OpReadAll (id : Z)
  | OpClear (id : Z).
Inductive recv_answer :=
  | ANone
  | ASize (n : Z)
  | APopped (s : option (list Z)) (n : Z)
  | ALine (l : line)
  | AAll (s : list Z)
  | AError (e : recv_error).

Record recv_world := mkWorld { rw_pool : recv_pool; rw_sbs : gmap Z socket_recv_buffer }.

Definition store {A} (w : recv_world) (id : Z) (r : recv (A * recv_pool * socket_recv_buffer)) (answer : A → recv_answer) : result (recv_world * recv_answer) :=
  o <- r;;
  Ok match o with
     | inl e => (w, AError e)
     | inr (a, pool, sb) => (mkWorld pool (<[id := sb]> (rw_sbs w)), answer a)
     end.
Definition recv_step (w : recv_world) (op : recv_op) : result (recv_world * recv_answer) :=
  let pool := rw_pool w in
  let sb id := rw_sbs w !! id in
  match op with
  | OpNew id => Ok (match sb id with None => mkWorld pool (<[id := l_new_socket_recv_buffer]> (rw_sbs w)) | Some _ => w end, ANone)
  | OpPush id msg =>
      store w id (let~ (pool, sb, n) := l_push_socket_recv_buffer pool (sb id) msg (Z.of_nat (length (default [] msg))) in lret (n, pool, sb)) ASize
  | OpPop id sz => store w id (l_pop_socket_recv_buffer pool (sb id) sz) (λ '(s, n), APopped s n)
  | OpReadLine id check sep => store w id (l_read_line pool (sb id) check sep) ALine
  | OpReadAll id => store w id (l_read_all pool (sb id)) AAll
  | OpClear id =>
      o <- l_clear_socket_recv_buffer pool (sb id);;
      Ok match o with
         | inr (pool, Some sb) => (mkWorld pool (<[id := sb]> (rw_sbs w)), ANone)
         | inr (_, None) => (w, ANone)
         | inl e => (w, AError e)
         end
  end.

(** the queues: the same calls on lists of bytes *)
Definition queue_step (Q : gmap Z (list Z)) (op : recv_op) : result (gmap Z (list Z) * recv_answer) :=
  let with_queue id (k : list Z → result (gmap Z (list Z) * recv_answer)) :=
    match Q !! id with Some q => k q | None => Ok (Q, AError NeedBufferObject) end in
  match op with
  | OpNew id => Ok (match Q !! id with None => <[id := []]> Q | Some _ => Q end, ANone)
  | OpPush id None => with_queue id (λ _, Ok (Q, AError NeedMessageBlock))
  | OpPush id (Some msg) => with_queue id (λ q,
      n <- int_chk (Z.of_nat (length q) + Z.of_nat (length msg));;
      Ok (<[id := q ++ msg]> Q, ASize n))
  | OpPop id sz => with_queue id (λ q,
      if (Z.of_nat (length q) <? sz) || (sz =? 0) then Ok (Q, APopped None (Z.of_nat (length q)))
      else Ok (<[id := drop (Z.to_nat sz) q]> Q, APopped (Some (take (Z.to_nat sz) q)) (Z.of_nat (length q) - sz)))
  | OpReadLine id check sep => with_queue id (λ q,
      match q, find_sep sep q with
      | _ :: _, Some k =>
          if check then Ok (Q, ALine HasLine)
          else Ok (<[id := drop (k + length sep) q]> Q, ALine (Line (take k q)))
      | _, _ => Ok (Q, ALine NoLine)
      end)
  | OpReadAll id => with_queue id (λ q, Ok (<[id := []]> Q, AAll q))
  | OpClear id => Ok (match Q !! id with Some _ => <[id := []]> Q | None => Q end, ANone)
  end.

Section run.
Context {W : Type} (step : W → recv_op → result (W * recv_answer)).
Fixpoint run_ops (w : W) (ops : list recv_op) : result (W * list recv_answer) :=
  match ops with
  | [] => Ok (w, [])
  | op :: ops => let* (w, a) := step w op in let* (w, l) := run_ops w ops in Ok (w, a :: l)
  end.
End run.

(** messages are not empty; sizes are within [int] *)
Definition op_ok (op : recv_op) : Prop :=
  match op with
  | OpPush _ (Some msg) => msg ≠ [] ∧ Z.of_nat (length msg) <= INT_MAX
  | OpPop _ sz => 0 <= sz <= INT_MAX
  | _ => True
  end.

(** ** The nodes of a pool and its buffers *)

Definition all_nodes (L : gmap Z (list (node_ptr * list Z))) : list node_ptr := map_to_list L ≫= λ p, p.2.*1.

Record recv_inv (w : recv_world) (fl : list node_ptr) (L : gmap Z (list (node_ptr * list Z))) (Q : gmap Z (list Z)) : Prop := {
  ri_free : free_chain (nodes (rw_pool w)) (free_node (rw_pool w)) fl;
  ri_nodup : NoDup (fl ++ all_nodes L);
  ri_cover : ∀ a, is_Some (nodes (rw_pool w) !! a) → a ∈ fl ++ all_nodes L;
  ri_chunks : chunks_ok (rw_pool w);
  ri_buffers : ∀ id, match rw_sbs w !! id, L !! id with
    | Some sb, Some l => chain (nodes (rw_pool w)) (sb_head sb) l ∧ sb_tail sb = last l.*1 ∧ offset_ok (sb_offset sb) l ∧
        Q !! id = Some (queue (sb_offset sb) l) ∧ sb_size sb = Z.of_nat (length (queue (sb_offset sb) l))
    | None, None => Q !! id = None
    | _, _ => False
    end }.

Lemma all_nodes_insert L id l : all_nodes (<[id := l]> L) ≡ₚ l.*1 ++ all_nodes (delete id L).
Proof.
  pose proof (map_to_list_insert (delete id L) id l (lookup_delete_eq L id)) as E. rewrite insert_delete_eq in E.
  exact (bind_Permutation _ _ _ E).
Qed.
Lemma all_nodes_lookup L id l : L !! id = Some l → all_nodes L ≡ₚ l.*1 ++ all_nodes (delete id L).
Proof. intros Hl. pose proof (all_nodes_insert L id l) as E. by rewrite insert_id in E. Qed.
Lemma all_nodes_elem L id l a : L !! id = Some l → a ∈ l.*1 → a ∈ all_nodes L.
Proof. intros Hl Ha. rewrite (all_nodes_lookup _ _ _ Hl). apply elem_of_app. by left. Qed.

(** one buffer is changed *)
Lemma inv_update w fl L Q id sb l pool' sb' fl' l' : recv_inv w fl L Q → rw_sbs w !! id = Some sb → L !! id = Some l →
  owned pool' sb' fl' l' → grown (rw_pool w) pool' fl l fl' l' → offset_ok (sb_offset sb') l' →
  sb_size sb' = Z.of_nat (length (queue (sb_offset sb') l')) →
  recv_inv (mkWorld pool' (<[id := sb']> (rw_sbs w))) fl' (<[id := l']> L) (<[id := queue (sb_offset sb') l']> Q).
Proof.
  intros [Hf Hnd Hcov Hck Hbuf] Hsb Hl [Hnd' Hf' Hc' Ht'] (new & Hp & Hnew & Hsame & Hdom & Hck') Hoff Hsize.
  rewrite (all_nodes_lookup L id l Hl) in Hnd. setoid_rewrite (all_nodes_lookup L id l Hl) in Hcov. set (rest := all_nodes (delete id L)) in *.
  assert (Hrest : ∀ b, b ∈ rest → b ∉ fl ++ l.*1 ∧ is_Some (nodes (rw_pool w) !! b)).
  { intros b Hb. rewrite app_assoc in Hnd. apply NoDup_app in Hnd as (_ & Hd & _). split; [intros Hb'; by eapply Hd|].
    unfold rest, all_nodes in Hb. apply list_elem_of_bind in Hb as ([i li] & Hb & Hi%elem_of_map_to_list).
    apply lookup_delete_Some in Hi as [_ Hi]. specialize (Hbuf i). rewrite Hi in Hbuf. destruct (rw_sbs w !! i); [|done]. destruct Hbuf as [Hci _].
    by eapply chain_dom. }
  split; cbn [rw_pool rw_sbs]; [done| | |done|].
  - rewrite all_nodes_insert, app_assoc. fold rest. apply NoDup_app. split; [done|]. split; [|rewrite app_assoc in Hnd; by apply NoDup_app in Hnd as (_ & _ & ?)].
    intros b Hb Hr. destruct (Hrest b Hr) as [Hni [nd Hs]]. rewrite Hp in Hb. apply elem_of_app in Hb as [Hb|Hb]; [done|]. by rewrite (Hnew b Hb) in Hs.
  - intros b Hb. rewrite all_nodes_insert, app_assoc, Hp, <- app_assoc. fold rest. apply Hdom in Hb as [Hb|Hb]; [|set_solver].
    specialize (Hcov b Hb). set_solver.
  - intros i. destruct (decide (i = id)) as [-> |Hne]; [by rewrite !lookup_insert_eq|]. rewrite !lookup_insert_ne by done.
    specialize (Hbuf i). destruct (rw_sbs w !! i) as [sbi|] eqn:Esb, (L !! i) as [li|] eqn:El; try done. destruct Hbuf as (Hci & Hbuf). split; [|done].
    eapply chain_agree; [|done]. intros b Hb. destruct (Hrest b) as [Hni [nd Hs]].
    { apply (all_nodes_elem _ i li); [by rewrite lookup_delete_ne|done]. }
    apply Hsame; [done|]. intros Hn. by rewrite (Hnew b Hn) in Hs.
Qed.

Lemma inv_owned w fl L Q id sb : recv_inv w fl L Q → rw_sbs w !! id = Some sb →
  ∃ l, L !! id = Some l ∧ owned (rw_pool w) sb fl l ∧ offset_ok (sb_offset sb) l ∧
    Q !! id = Some (queue (sb_offset sb) l) ∧ sb_size sb = Z.of_nat (length (queue (sb_offset sb) l)).
Proof.
  intros Hinv Hsb. pose proof (ri_buffers _ _ _ _ Hinv id) as Hb. rewrite Hsb in Hb. destruct (L !! id) as [l|] eqn:Hl; [|done].
  destruct Hb as (Hc & Ht & Hoff & HQ & Hsize). exists l. split; [done|]. split; [|done]. split; [|apply Hinv|done|done].
  pose proof (ri_nodup _ _ _ _ Hinv) as Hnd. rewrite (all_nodes_lookup L id l Hl), app_assoc in Hnd. by apply NoDup_app in Hnd as (? & _).
Qed.
Lemma inv_none w fl L Q id : recv_inv w fl L Q → rw_sbs w !! id = None → Q !! id = None ∧ L !! id = None.
Proof. intros Hinv Hsb. pose proof (ri_buffers _ _ _ _ Hinv id) as Hb. rewrite Hsb in Hb. by destruct (L !! id). Qed.

Lemma owned_set_size pool sb fl l n : owned pool sb fl l → owned pool (sb <| sb_size := n |>) fl l.
Proof. by intros [? ? ? ?]. Qed.
Lemma same_world w id sb : rw_sbs w !! id = Some sb → mkWorld (rw_pool w) (<[id := sb]> (rw_sbs w)) = w.
Proof. intros Hsb. rewrite insert_id by done. by destruct w. Qed.

(** a buffer that holds nothing has no node *)
Lemma queue_empty ns p off l : chain ns p l → offset_ok off l → queue off l = [] → l = [].
Proof.
  destruct l as [|[a m] l]; [done|]. intros _ Ho Hq. cbn in Ho. rewrite queue_cons in Hq by (cbn; lia). cbn [snd] in Hq.
  apply app_eq_nil in Hq as [Hq _]. apply (f_equal length) in Hq. rewrite length_drop in Hq. cbn in Hq. lia.
Qed.

Definition simulates (w : recv_world) (Q : gmap Z (list Z)) (op : recv_op) : Prop :=
  match queue_step Q op with
  | Err f => recv_step w op = Err f
  | Ok (Q', a) => ∃ w' fl' L', recv_step w op = Ok (w', a) ∧ recv_inv w' fl' L' Q'
  end.

Lemma push_simulates w fl L Q id msg : recv_inv w fl L Q → op_ok (OpPush id msg) → simulates w Q (OpPush id msg).
Proof.
  intros Hinv Hok. unfold simulates. cbn [queue_step recv_step]. destruct (rw_sbs w !! id) as [sb|] eqn:Esb.
  2: { destruct (inv_none _ _ _ _ _ Hinv Esb) as [HQ _]. rewrite HQ. destruct msg; exists w, fl, L; done. }
  destruct (inv_owned _ _ _ _ _ _ Hinv Esb) as (l & Hl & Hown & Hoff & HQ & Hsize). rewrite HQ.
  destruct msg as [msg|]; [|by exists w, fl, L]. destruct Hok as [Hne Hlen].
  destruct (push_spec (rw_pool w) sb fl l msg Hown (ri_chunks _ _ _ _ Hinv) Hne Hlen) as (pool' & sb' & fl' & a & E & Hown' & Hg & Hoff').
  cbn [default Datatypes.id]. rewrite E, <- Hsize. destruct (int_chk (sb_size sb + Z.of_nat (length msg))) as [n|f] eqn:En; cbn [rbind lift lbind store lret]; [|done].
  apply int_chk_inv in En as [-> _].
  assert (Hq : queue (sb_offset sb') (l ++ [(a, msg)]) = queue (sb_offset sb) l ++ msg).
  { rewrite Hoff'. unfold queue. rewrite fmap_app, concat_app. cbn. rewrite app_nil_r, drop_app_le; [done|].
    destruct l as [|e l]; cbn in Hoff |- *; [lia|]. rewrite length_app. lia. }
  eexists _, fl', (<[id := l ++ [(a, msg)]]> L). split; [reflexivity|]. rewrite <- Hq.
  pose proof (inv_update w fl L Q id sb l pool' (sb' <| sb_size := sb_size sb + Z.of_nat (length msg) |>) fl' (l ++ [(a, msg)])) as Hu.
  cbn [sb_offset sb_size set_to] in Hu. apply Hu; [done..|by apply owned_set_size|done| |].
  - cbn [sb_offset set_to]. rewrite Hoff'. destruct l; [|done]. cbn in Hoff |- *. destruct msg; [done|cbn [length]; lia].
  - cbn [sb_offset sb_size set_to]. rewrite Hq, length_app, Hsize. lia.
Qed.

(** the bytes that [_pop_lstring] takes *)
Lemma popped_update w fl L Q id sb l sz skip : recv_inv w fl L Q → rw_sbs w !! id = Some sb → L !! id = Some l → owned (rw_pool w) sb fl l →
  offset_ok (sb_offset sb) l → sb_size sb = Z.of_nat (length (queue (sb_offset sb) l)) → l ≠ [] → 0 <= skip <= sz → sz <= sb_size sb →
  ∃ pool' sb' fl' L', _pop_lstring (rw_pool w) sb sz skip = Ok (take (Z.to_nat (sz - skip)) (queue (sb_offset sb) l), pool', sb') ∧
    recv_inv (mkWorld pool' (<[id := sb' <| sb_size := sb_size sb' - sz |>]> (rw_sbs w))) fl' L'
      (<[id := drop (Z.to_nat sz) (queue (sb_offset sb) l)]> Q) ∧ sb_size sb' = sb_size sb.
Proof.
  intros Hinv Esb Hl Hown Hoff Hsize Hne Hskip Hsz.
  destruct (pop_lstring_spec (rw_pool w) sb fl l sz skip Hown Hoff Hne Hskip) as (pool' & sb' & fl' & l' & E & Hown' & Hmv & Hoff' & Hq & Hs); [lia|].
  exists pool', sb', fl', (<[id := l']> L). split; [done|]. split; [|done]. rewrite <- Hq.
  pose proof (inv_update w fl L Q id sb l pool' (sb' <| sb_size := sb_size sb' - sz |>) fl' l') as Hu.
  cbn [sb_offset sb_size set_to] in Hu. apply Hu; [done..|by apply owned_set_size|by apply moved_grown; [apply Hinv|]|done|].
  cbn [sb_offset sb_size set_to]. rewrite Hq, length_drop. lia.
Qed.

Lemma pop_simulates w fl L Q id sz : recv_inv w fl L Q → op_ok (OpPop id sz) → simulates w Q (OpPop id sz).
Proof.
  intros Hinv Hok. unfold simulates. cbn [queue_step recv_step]. destruct (rw_sbs w !! id) as [sb|] eqn:Esb.
  2: { destruct (inv_none _ _ _ _ _ Hinv Esb) as [HQ _]. rewrite HQ. exists w, fl, L. done. }
  destruct (inv_owned _ _ _ _ _ _ Hinv Esb) as (l & Hl & Hown & Hoff & HQ & Hsize). rewrite HQ, <- Hsize. cbn [op_ok] in Hok.
  unfold l_pop_socket_recv_buffer. rewrite s32_small by (unfold INT_MAX in *; lia).
  destruct (Z.ltb_spec (sb_size sb) sz); [by exists w, fl, L; cbn [orb store lret rbind]; rewrite same_world|].
  destruct (Z.eqb_spec sz 0); [by exists w, fl, L; cbn [orb store lret rbind]; rewrite same_world|]. cbn [orb].
  destruct (popped_update w fl L Q id sb l sz 0 Hinv Esb Hl Hown Hoff Hsize) as (pool' & sb' & fl' & L' & E & Hinv' & Hs); [|lia|lia|].
  { intros ->. rewrite queue_nil in Hsize. cbn in Hsize. lia. }
  rewrite E, Z.sub_0_r. cbn [rbind lift store sb_size set_to]. rewrite Hs in *. exists (mkWorld pool' (<[id := sb' <| sb_size := sb_size sb - sz |>]> (rw_sbs w))), fl', L'. done.
Qed.

Lemma read_line_simulates w fl L Q id check sep : recv_inv w fl L Q → simulates w Q (OpReadLine id check sep).
Proof.
  intros Hinv. unfold simulates. cbn [queue_step recv_step]. destruct (rw_sbs w !! id) as [sb|] eqn:Esb.
  2: { destruct (inv_none _ _ _ _ _ Hinv Esb) as [HQ _]. rewrite HQ. exists w, fl, L. done. }
  destruct (inv_owned _ _ _ _ _ _ Hinv Esb) as (l & Hl & Hown & Hoff & HQ & Hsize). rewrite HQ. unfold l_read_line.
  assert (Hc := ow_chain _ _ _ _ Hown). destruct l as [|[a m] l].
  { cbn in Hc. rewrite Hc, queue_nil. cbn [store lret rbind]. rewrite same_world by done. by exists w, fl, L. }
  assert (Hc' := Hc). destruct Hc' as (Hh & _ & next & Ha & _). cbn [fst snd] in *. rewrite Hh. cbn [get_node]. rewrite Ha, bind_Ok. cbn [bn_sz].
  assert (Ho := Hoff). cbn in Ho. assert (Hq := queue_cons (sb_offset sb) (a, m) l ltac:(cbn; lia)). cbn [snd] in Hq.
  rewrite Hh in Hc.
  rewrite (read_line_loop_spec _ (rw_pool w) sb fl ((a, m) :: l) sep (Some a) a m l (sb_offset sb) 0 Hown Hc); [|cbn [length]; lia|done|rewrite <- Hq; lia|rewrite <- Hq; lia].
  rewrite <- Hq, bind_Ok. destruct (queue (sb_offset sb) ((a, m) :: l)) as [|b q] eqn:Eq; [by apply (queue_empty _ _ _ _ (ow_chain _ _ _ _ Hown)) in Eq|].
  destruct (find_sep sep (b :: q)) as [k|] eqn:Ek; cbn [fmap option_fmap option_map].
  2: { cbn [lift store rbind]. rewrite same_world by done. by exists w, fl, L. }
  destruct check; [cbn [lift store rbind]; rewrite same_world by done; by exists w, fl, L|].
  pose proof (find_sep_length _ _ _ Ek) as Hk.
  destruct (popped_update w fl L Q id sb ((a, m) :: l) (0 + Z.of_nat k + Z.of_nat (length sep)) (Z.of_nat (length sep)) Hinv Esb Hl Hown Hoff)
    as (pool' & sb' & fl' & L' & E & Hinv' & Hs); [by rewrite Eq|done|lia|lia|].
  rewrite E, Eq in *. cbn [rbind lift store]. eexists _, fl', L'. split.
  - do 5 f_equal. f_equal. f_equal. lia.
  - replace (k + length sep)%nat with (Z.to_nat (0 + Z.of_nat k + Z.of_nat (length sep))) by lia. exact Hinv'.
Qed.

Lemma new_simulates w fl L Q id : recv_inv w fl L Q → simulates w Q (OpNew id).
Proof.
  intros Hinv. unfold simulates. cbn [queue_step recv_step]. destruct (rw_sbs w !! id) as [sb|] eqn:Esb.
  { destruct (inv_owned _ _ _ _ _ _ Hinv Esb) as (l & Hl & Hown & Hoff & HQ & Hsize). rewrite HQ. by exists w, fl, L. }
  destruct (inv_none _ _ _ _ _ Hinv Esb) as [HQ HL]. rewrite HQ. eexists _, fl, (<[id := []]> L). split; [reflexivity|].
  assert (Hall : all_nodes (<[id := []]> L) ≡ₚ all_nodes L) by (by rewrite all_nodes_insert, delete_id).
  destruct Hinv as [Hf Hnd Hcov Hck Hbuf]. split; cbn [rw_pool rw_sbs]; [done|by rewrite Hall|intros a Ha; rewrite Hall; auto|done|].
  intros i. destruct (decide (i = id)) as [-> |]; [rewrite !lookup_insert_eq; repeat split; reflexivity|].
  rewrite !lookup_insert_ne by done. apply Hbuf.
Qed.

Lemma emptied w fl L Q id sb l pool' sb' fl' : recv_inv w fl L Q → rw_sbs w !! id = Some sb → L !! id = Some l →
  owned pool' sb' fl' [] → moved (rw_pool w) pool' fl l fl' [] → sb_offset sb' = 0 →
  recv_inv (mkWorld pool' (<[id := sb' <| sb_size := 0 |>]> (rw_sbs w))) fl' (<[id := []]> L) (<[id := []]> Q).
Proof.
  intros Hinv Esb Hl Hown' Hmv Hoff'. pose proof (inv_update w fl L Q id sb l pool' (sb' <| sb_size := 0 |>) fl' []) as Hu.
  rewrite queue_nil in Hu. apply Hu; [done..|by apply owned_set_size| |by cbn|by cbn].
  apply moved_grown; [apply Hinv|done].
Qed.

Lemma read_all_simulates w fl L Q id : recv_inv w fl L Q → simulates w Q (OpReadAll id).
Proof.
  intros Hinv. unfold simulates. cbn [queue_step recv_step]. destruct (rw_sbs w !! id) as [sb|] eqn:Esb.
  2: { destruct (inv_none _ _ _ _ _ Hinv Esb) as [HQ _]. rewrite HQ. exists w, fl, L. done. }
  destruct (inv_owned _ _ _ _ _ _ Hinv Esb) as (l & Hl & Hown & Hoff & HQ & Hsize). rewrite HQ. unfold l_read_all.
  destruct (read_all_loop_spec (size (nodes (rw_pool w))) _ _ _ _ [] Hown Hoff (owned_size _ _ _ _ Hown)) as (pool' & sb' & fl' & -> & Hown' & Hmv & Hoff').
  rewrite bind_Ok. cbn [lift store rbind app]. eexists _, fl', _. split; [reflexivity|]. by eapply emptied.
Qed.

Lemma clear_simulates w fl L Q id : recv_inv w fl L Q → simulates w Q (OpClear id).
Proof.
  intros Hinv. unfold simulates. cbn [queue_step recv_step]. destruct (rw_sbs w !! id) as [sb|] eqn:Esb.
  2: { destruct (inv_none _ _ _ _ _ Hinv Esb) as [HQ _]. rewrite HQ. exists w, fl, L. done. }
  destruct (inv_owned _ _ _ _ _ _ Hinv Esb) as (l & Hl & Hown & Hoff & HQ & Hsize). rewrite HQ. unfold l_clear_socket_recv_buffer.
  destruct (clear_loop_spec (size (nodes (rw_pool w))) _ _ _ _ Hown Hoff (owned_size _ _ _ _ Hown)) as (pool' & sb' & fl' & -> & Hown' & Hmv & Hoff').
  rewrite bind_Ok. cbn [lift rbind]. eexists _, fl', _. split; [reflexivity|]. by eapply emptied.
Qed.

(** ** Refinement *)

Lemma step_simulates w fl L Q op : recv_inv w fl L Q → op_ok op → simulates w Q op.
Proof.
  intros Hinv Hok. destruct op.
  - by eapply new_simulates.
  - by eapply push_simulates.
  - by eapply pop_simulates.
  - by eapply read_line_simulates.
  - by eapply read_all_simulates.
  - by eapply clear_simulates.
Qed.

Definition no_buffers : recv_world := mkWorld (mkPool None [] ∅) ∅.

Lemma no_buffers_inv : recv_inv no_buffers [] ∅ ∅.
Proof.
  split; cbn; [done| | | |].
  - unfold all_nodes. rewrite map_to_list_empty. apply NoDup_nil_2.
  - intros a. rewrite lookup_empty. by intros [? ?].
  - intros a. cbn. rewrite lookup_empty. by intros [? ?].
  - intros id. by rewrite !lookup_empty.
Qed.

Lemma run_simulates w fl L Q ops : recv_inv w fl L Q → Forall op_ok ops →
  match run_ops queue_step Q ops with
  | Err f => run_ops recv_step w ops = Err f
  | Ok (Q', answers) => ∃ w' fl' L', run_ops recv_step w ops = Ok (w', answers) ∧ recv_inv w' fl' L' Q'
  end.
Proof.
  intros Hinv Hok. revert w fl L Q Hinv. induction Hok as [|op ops Hop Hok IH]; intros w fl L Q Hinv; cbn [run_ops]; [by exists w, fl, L|].
  pose proof (step_simulates w fl L Q op Hinv Hop) as Hs. unfold simulates in Hs.
  destruct (queue_step Q op) as [[Q1 a]|f]; [|by rewrite Hs]. destruct Hs as (w1 & fl1 & L1 & -> & Hinv1). rewrite !bind_Ok.
  specialize (IH w1 fl1 L1 Q1 Hinv1). destruct (run_ops queue_step Q1 ops) as [[Q2 l]|f]; cbn [rbind]; [|by rewrite IH].
  destruct IH as (w2 & fl2 & L2 & -> & Hinv2). by exists w2, fl2, L2.
Qed.




(** A message without bytes would break the search for a line: its count goes past zero, and
    the separator is compared from before its start. The socket server sends no such message. *)
Example empty_message_breaks_lines :
  run_ops recv_step no_buffers [OpNew 3; OpPush 3 (Some []); OpPush 3 (Some [1; 2; 3]); OpReadLine 3 false [10]] = Err OutOfBounds.
Proof. by vm_compute. Qed.

(** A negative size, which only the caller can give, is a huge one. *)
Example negative_pop_overreads :
  run_ops recv_step no_buffers [OpNew 3; OpPush 3 (Some [1; 2; 3]); OpPop 3 (-1)] = Err OutOfBounds.
Proof. by vm_compute. Qed.

(** ** The length in front of a message *)

Lemma header_fold bs acc : Forall is_byte bs → 0 <= acc → acc * 256 ^ Z.of_nat (length bs) + 256 ^ Z.of_nat (length bs) <= 2 ^ 32 →
  foldl (λ sz b, Z.lor (u64 (Z.shiftl sz 8)) b) acc bs = acc * 256 ^ Z.of_nat (length bs) + le_value (rev bs) ∧
  0 <= le_value (rev bs) < 256 ^ Z.of_nat (length bs).
Proof.
  intros Hbs. revert acc. induction Hbs as [|b bs Hb Hbs IH]; intros acc Ha Hmax; [cbn; lia|]. unfold is_byte in Hb.
  cbn [length foldl rev] in *. rewrite Nat2Z.inj_succ, Z.pow_succ_r in * by lia. set (p := 256 ^ Z.of_nat (length bs)) in *.
  assert (Hp : 0 < p) by (unfold p; lia). assert (Hacc : acc * 256 + 256 <= 2 ^ 32) by nia.
  rewrite Z.shiftl_mul_pow2 by lia. change (2 ^ 8) with 256. rewrite u64_small by lia.
  rewrite (lor_add (acc * 256) b 8) by (try change (2 ^ 8) with 256; rewrite ?Z.mod_mul; lia).
  assert (Hsum : ∀ x y, le_value (x ++ [y]) = le_value x + 256 ^ Z.of_nat (length x) * y).
  { intros x y. induction x as [|c x IHx]; cbn [app le_value length]; [lia|]. rewrite IHx, Nat2Z.inj_succ, Z.pow_succ_r by lia. lia. }
  rewrite Hsum, length_rev. fold p. destruct (IH (acc * 256 + b)) as [-> Hv]; [lia|nia|]. nia.
Qed.

(** the value of one to four bytes, most significant first *)
Lemma header_value s : Forall is_byte s → (1 <= length s <= 4)%nat → l_header s = lret (le_value (rev s)).
Proof.
  intros Hs Hl. unfold l_header. rewrite (proj2 (orb_false_iff _ _)) by (rewrite !Z.ltb_ge; lia). f_equal.
  destruct (header_fold s 0 Hs) as [-> _]; [lia| |lia].
  assert (256 ^ Z.of_nat (length s) <= 256 ^ 4) by (apply Z.pow_le_mono_r; lia). lia.
Qed.
