(* ===== verification/LuaSocket.v ===== *)
(** * Sockets for Lua (luaclib-src/lua-socket.cpp)

    The functions by which a Lua service uses the socket facade of its node: they check the
    values Lua passes, take addresses apart, make the data of a send and turn the messages of
    the socket thread and the information about sockets into Lua values. The buffers of the
    same library are in [RecvBuffer].

    An argument that is absent is [LNil], as no function tells it from [nil]; the service is
    the one of the upvalue. A pointer that Lua holds is a block of the [world], which a send
    gives to the socket server; memory of Lua (a string, a full userdata) is a block of the
    server while the call lasts. Tables have no [__index]. A pointer to no block is a fault
    when it is given away, where the program would go on until it uses it. *)
From Stdlib Require Import String.
From S2P Require Import Prelude Bytes LuaCall SocketMessage Service Text SocketObject SocketEndpoint SocketState SocketServer SocketStream NodeSocket Seri.
Open Scope string_scope.
Open Scope Z_scope.

Definition DEFAULT_BACKLOG : Z := 32.

(** how Lua writes a real number as text, and reads an integer from one *)
Class LuaNumbers := { lua_real_text : Z → list Z; lua_text_integer : list Z → option Z }.

(** an argument that may be a full userdata: its memory *)
Inductive lua_arg := Plain (v : lua_value) | FullUserdata (bytes : list Z).

(** [ArgumentError i]: the value at the index [i] has the wrong type *)
Inductive sock_error :=
  | ArgumentError (i : Z)
  | InvalidAddress (addr : list Z)
  | InvalidPort
  | ListenError
  | InvalidStringsTable
  | UdpInitFailed
  | UdpConnectFailed
  | InvalidUdpAddress
  | StringTooBig.
Notation sock := (lua_call sock_error).

(** ** The values Lua passes *)

Section values.
Context `{LuaNumbers}.

(** [lua_tolstring], [lua_tointegerx], [lua_isinteger], [lua_touserdata] *)
Definition tolstring (v : lua_value) : option (list Z) :=
  match v with
  | LString s => Some s
  | LInt z => Some (bytes_of (dec_str z))
  | LReal r => Some (lua_real_text r)
  | _ => None
  end.
Definition tointeger (v : lua_value) : option Z :=
  match v with
  | LInt z => Some z
  | LReal r => real_to_integer r
  | LString s => lua_text_integer s
  | _ => None
  end.
Definition isinteger (v : lua_value) : option Z := match v with LInt z => Some z | _ => None end.
Definition touserdata (v : lua_value) : Z := match v with LUserdata p => p | _ => 0 end.

Definition checklstring (i : Z) (v : lua_value) : sock (list Z) :=
  match tolstring v with Some s => lret s | None => luaL_error (ArgumentError i) end.
(** [int x = luaL_checkinteger(L, i)] and [luaL_optinteger(L, i, d)] *)
Definition checkint (i : Z) (v : lua_value) : sock Z :=
  match tointeger v with Some z => lret (s32 z) | None => luaL_error (ArgumentError i) end.
Definition optint (i : Z) (v : lua_value) (d : Z) : sock Z :=
  match v with LNil => lret d | _ => checkint i v end.

(** ** Addresses *)

(** [strchr] in the characters before the terminator *)
Definition strchr (l : list Z) (c : Z) : option nat := fst <$> list_find (λ b, b = c) l.

(** [strtoul(p, nullptr, 10)] as an [int] *)
Definition parse_port (l : list Z) : Z := s32 (strtoul 10 (string_of_bytes l)).

(** the host, which is [addr] itself or in [tmp], and the port; a host that ends before it
    begins is a copy of nearly 2^64 bytes *)
Definition _address_port (addr : list Z) (port_index : Z) (port_arg : lua_value) : sock (list Z * Z) :=
  let addr := c_str addr in
  match port_arg with
  | LNil =>
      match strchr addr 91 with
      | Some host =>
          let host := (host + 1)%nat in
          match strchr addr 93 with
          | None => luaL_error (InvalidAddress addr)
          | Some sep =>
              if (sep <? host)%nat then Err OutOfBounds
              else
                let ip := take (sep - host) (drop host addr) in
                let rest := drop (sep + 1) addr in
                match strchr rest 58 with
                | None => luaL_error (InvalidAddress addr)
                | Some sep => lret (ip, parse_port (drop (sep + 1) rest))
                end
          end
      | None =>
          match strchr addr 58 with
          | None => luaL_error (InvalidAddress addr)
          | Some sep => lret (take sep addr, parse_port (drop (sep + 1) addr))
          end
      end
  | _ => port <~ optint port_index port_arg 0;; lret (addr, port)
  end.

(** ** The data of a send *)

(** the value -1 stands for the value on the top of the stack *)
Fixpoint _count_size (fuel : nat) (entries : list (lua_value * lua_value)) (i tlen : Z) : sock Z :=
  match rawgeti entries i with
  | LNil => lret tlen
  | v =>
      match fuel with
      | O => Err OutOfFuel
      | S fuel =>
          s <~ checklstring (-1) v;;
          i <~ LuaCall.lift (int_chk (i + 1));;
          _count_size fuel entries i (u64 (tlen + Z.of_nat (length s)))
      end
  end.

(** the loop: the bytes that are in the buffer and the room that is left *)
Fixpoint concat_pieces (fuel : nat) (entries : list (lua_value * lua_value)) (i : Z) (buf : list Z) (buf_size : Z) : sock (list Z * Z) :=
  match rawgeti entries i with
  | LNil => lret (buf, buf_size)
  | v =>
      match fuel with
      | O => Err OutOfFuel
      | S fuel =>
          match tolstring v with
          | None => lret (buf, buf_size)
          | Some s =>
              let len := Z.of_nat (length s) in
              if buf_size <? len then lret (buf, buf_size)
              else
                i <~ LuaCall.lift (int_chk (i + 1));;
                concat_pieces fuel entries i (buf ++ s)%list (buf_size - len)
          end
      end
  end.
(** the buffer is freed before the error *)
Definition _concat_table (fuel : nat) (entries : list (lua_value * lua_value)) (buf_size : Z) : sock (list Z) :=
  let~ (buf, rest) := concat_pieces fuel entries 1 [] buf_size in
  if negb (rest =? 0) then luaL_error InvalidStringsTable else lret buf.

(** whose memory [send_data::data_ptr] is: a block that Lua gives away, a new one, Lua's own *)
Inductive data_memory := Given (p : Z) | New (bytes : list Z) | OfLua (bytes : list Z).

(** [send_data] but for the socket *)
Record lua_message := mkLm { lm_type : Z; lm_memory : data_memory; lm_size : Z }.

Definition _get_message (msg_index : Z) (msg : lua_arg) (next : lua_value) : sock lua_message :=
  match msg with
  | FullUserdata bytes =>
      lret (mkLm SEND_DATA_TYPE_USER_DATA (OfLua bytes) (u64 (default (Z.of_nat (length bytes)) (isinteger next))))
  | Plain (LUserdata p) =>
      let data_sz := s32 (default (-1) (isinteger next)) in
      lret (mkLm (if data_sz <? 0 then SEND_DATA_TYPE_USER_OBJECT else SEND_DATA_TYPE_MEMORY) (Given p) (u64 data_sz))
  | Plain (LTable entries _) =>
      let fuel := S (length entries) in
      data_sz <~ _count_size fuel entries 1 0;;
      data <~ _concat_table fuel entries data_sz;;
      lret (mkLm SEND_DATA_TYPE_MEMORY (New data) data_sz)
  | Plain v =>
      s <~ checklstring msg_index v;;
      lret (mkLm SEND_DATA_TYPE_USER_DATA (OfLua s) (Z.of_nat (length s)))
  end.
End values.

(** ** Calls of the node *)

(** a function of the library: it may leave with an error *)
Definition LN (K A : Type) : Type := N K (sock_error + A).
#[export] Instance LN_ret K : MRet (LN K) := λ A a s, Ok (inr a, s).
#[export] Instance LN_bind K : MBind (LN K) := λ A B k m s,
  let* (r, s) := m s in match r with inl e => Ok (inl e, s) | inr a => k a s end.

Section calls.
Context {K : Type} `{Kernel K} `{LuaNumbers}.
Variable release_func : Z → Z → world → result world.
Notation N := (N K).
Notation LN := (LN K).

Definition node {A} (m : N A) : LN A := λ ns, let* (a, ns) := m ns in Ok (inr a, ns).
Definition call {A} (m : sock A) : LN A := λ ns, r <- m;; Ok (r, ns).
Definition raise {A} (e : sock_error) : LN A := λ ns, Ok (inl e, ns).

Notation on_server := (on_server release_func).

(** [n] bytes at a pointer into the memory of the services *)
Definition read_memory (p n : Z) : N (list Z) := λ ns, l <- Service.read_block (ns_world ns) p n;; Ok (l, ns).

(** a block that Lua gives away becomes one of the socket server *)
Definition give_away (p : Z) : N Z := λ ns,
  if p =? 0 then Ok (0, ns)
  else
    match ns_server ns with
    | None => Err NullDeref
    | Some sv =>
        match w_blocks (ns_world ns) !! p with
        | None => Err UseAfterFree
        | Some bytes =>
            let* (q, sv) := new_block bytes sv in
            Ok (q, mkNs (w_with_blocks (ns_world ns) (delete p (w_blocks (ns_world ns)))) (Some sv) (ns_kernel ns))
        end
    end.

(** a call [op(&sd)] *)
Definition with_send_data (socket_id : Z) (m : lua_message) (op : send_data → N Z) : N Z :=
  match lm_memory m with
  | Given p =>
      p ← give_away p;
      op (mkSd socket_id (lm_type m) p (lm_size m))
  | New bytes =>
      p ← on_server (new_block bytes);
      op (mkSd socket_id (lm_type m) p (lm_size m))
  | OfLua bytes =>
      p ← on_server (new_block bytes);
      err ← op (mkSd socket_id (lm_type m) p (lm_size m));
      on_server (delete_block p);;
      mret err
  end.

(** ** Messages of the socket thread *)

Definition l_str2p (str : lua_value) : LN (list lua_value) :=
  str ← call (checklstring 1 str);
  node (λ ns, let '(p, w) := alloc_block (ns_world ns) str in
              Ok ([LUserdata p; LInt (s32 (Z.of_nat (length str)))], mkNs w (ns_server ns) (ns_kernel ns))).

(** a size below that of the message is one of nearly 2^64, which Lua refuses *)
Definition l_unpack (msg size : lua_value) : LN (list lua_value) :=
  let msg := touserdata msg in
  size ← call (checkint 2 size);
  bytes ← node (read_memory msg SOCKET_MESSAGE_SIZE);
  let m := ssm_of_bytes bytes in
  data ← (if ssm_buffer m =? 0 then
            if size <? SOCKET_MESSAGE_SIZE then raise StringTooBig
            else text ← node (read_memory msg size); mret (LString (drop (Z.to_nat SOCKET_MESSAGE_SIZE) text))
          else mret (LUserdata (ssm_buffer m)));
  addr ← (if ssm_socket_event m =? SKYNET_SOCKET_EVENT_UDP then
            addr ← node (ns_udp_address m);
            mret (match addr with Some (addr_sz, addr) => [LString (take (Z.to_nat addr_sz) addr)] | None => [] end)
          else mret []);
  mret ([LInt (ssm_socket_event m); LInt (ssm_socket_id m); LInt (ssm_ud m); data] ++ addr)%list.

(** ** Information about the sockets *)

Notation field name v := (LString (bytes_of name), v).
Definition lstr (s : string) : lua_value := LString (c_str (bytes_of s)).

Definition _get_socket_info (si : socket_info) : lua_value :=
  let io := si_statistics si in
  let ep name := match c_str (bytes_of (si_endpoint si)) with [] => [] | _ => [field name (lstr (si_endpoint si))] end in
  let base := [field "id" (LInt (si_socket_id si)); field "address" (LInt (si_svc_handle si))] in
  let other name :=
    LTable (base ++ [field "type" (lstr name); field "read" (LInt (s64 (recv_bytes io))); field "write" (LInt (s64 (send_bytes io)));
                     field "wbuffer" (LInt (si_write_buffer_size si)); field "rtime" (LInt (s64 (recv_time_ticks io)));
                     field "wtime" (LInt (s64 (send_time_ticks io))); field "reading" (LBool (si_reading si));
                     field "writing" (LBool (si_writing si))] ++ ep "peer")%list None in
  match si_type si with
  | SOCKET_INFO_TYPE_LISTEN =>
      LTable (base ++ [field "type" (lstr "LISTEN"); field "accept" (LInt (s64 (recv_bytes io)));
                       field "rtime" (LInt (s64 (recv_time_ticks io)))] ++ ep "sock")%list None
  | SOCKET_INFO_TYPE_TCP => other "TCP"
  | SOCKET_INFO_TYPE_UDP => other "UDP"
  | SOCKET_INFO_TYPE_BIND => other "BIND"
  | SOCKET_INFO_TYPE_CLOSING => other "CLOSING"
  | SOCKET_INFO_TYPE_UNKNOWN => LTable (base ++ [field "type" (lstr "UNKNOWN")])%list None
  end.

Definition l_query_socket_info : LN (list lua_value) :=
  si_list ← node (ns_get_socket_info release_func);
  mret [LTable (zip (LInt ∘ Z.of_nat <$> seq 1 (length si_list)) (_get_socket_info <$> si_list)) None].

(** ** Operations on sockets *)

Section service.
Variable svc_handle : Z.

Definition l_connect (addr port : lua_value) : LN (list lua_value) :=
  addr ← call (checklstring 1 addr);
  '(remote_addr, remote_port) ← call (_address_port addr 2 port);
  if remote_port =? 0 then raise InvalidPort
  else
    socket_id ← node (ns_connect release_func svc_handle (string_of_bytes remote_addr) remote_port);
    mret [LInt socket_id].

Definition l_close (id : lua_value) : LN (list lua_value) :=
  socket_id ← call (checkint 1 id); node (ns_close release_func svc_handle socket_id);; mret [].
Definition l_shutdown (id : lua_value) : LN (list lua_value) :=
  socket_id ← call (checkint 1 id); node (ns_shutdown release_func svc_handle socket_id);; mret [].
Definition l_start (id : lua_value) : LN (list lua_value) :=
  socket_id ← call (checkint 1 id); node (ns_start release_func svc_handle socket_id);; mret [].
Definition l_pause (id : lua_value) : LN (list lua_value) :=
  socket_id ← call (checkint 1 id); node (ns_pause release_func svc_handle socket_id);; mret [].
Definition l_nodelay (id : lua_value) : LN (list lua_value) :=
  socket_id ← call (checkint 1 id); node (ns_nodelay release_func svc_handle socket_id);; mret [].

Definition l_listen (ip port backlog : lua_value) : LN (list lua_value) :=
  local_ip ← call (checklstring 1 ip);
  local_port ← call (checkint 2 port);
  backlog ← call (optint 3 backlog DEFAULT_BACKLOG);
  listen_socket_id ← node (ns_listen release_func svc_handle (string_of_bytes (c_str local_ip)) local_port backlog);
  if listen_socket_id <? 0 then raise ListenError else mret [LInt listen_socket_id].

Definition l_send (id : lua_value) (msg : lua_arg) (sz : lua_value) : LN (list lua_value) :=
  socket_id ← call (checkint 1 id);
  sd ← call (_get_message 2 msg sz);
  err ← node (with_send_data socket_id sd (ns_send release_func svc_handle));
  mret [LBool (err =? 0)].

Definition l_send_low (id : lua_value) (msg : lua_arg) (sz : lua_value) : LN (list lua_value) :=
  socket_id ← call (checkint 1 id);
  sd ← call (_get_message 2 msg sz);
  err ← node (with_send_data socket_id sd (ns_send_low_priority release_func svc_handle));
  mret [LBool (err =? 0)].

Definition l_bind_os_fd (fd : lua_value) : LN (list lua_value) :=
  fd ← call (checkint 1 fd);
  socket_id ← node (ns_bind_os_fd release_func svc_handle fd);
  mret [LInt socket_id].

(** without an address the host is a null pointer, from which the server makes a [std::string] *)
Definition l_udp_socket (addr port : lua_value) : LN (list lua_value) :=
  match tolstring addr with
  | None => node (λ _, Err NullDeref)
  | Some addr =>
      '(local_ip, local_port) ← call (_address_port addr 2 port);
      socket_id ← node (ns_udp_socket release_func svc_handle (string_of_bytes local_ip) local_port);
      if socket_id <? 0 then raise UdpInitFailed else mret [LInt socket_id]
  end.

Definition l_udp_connect (id addr port : lua_value) : LN (list lua_value) :=
  id ← call (checkint 1 id);
  addr ← call (checklstring 2 addr);
  '(host, port) ← call (_address_port addr 3 port);
  err ← node (ns_udp_connect release_func svc_handle id (string_of_bytes host) port);
  if negb (err =? 0) then raise UdpConnectFailed else mret [].

(** how many bytes of the address [udp_send] reads *)
Definition udp_send_reads (sv : server K) (socket_id : Z) (address : list Z) : Z :=
  let s := socket_at (sv_pool sv) (socket_array_index socket_id) in
  let type := nth 0 address 0 in
  let other_type := negb (type =? so_socket_type s) in
  if is_invalid s socket_id then 0
  else if can_direct_send s socket_id && negb (so_mutex s) && other_type then 1
  else if type =? SOCKET_TYPE_UDP then 7 else if type =? SOCKET_TYPE_UDPv6 then 19 else 1.
Definition udp_address_readable (socket_id : Z) (address : list Z) : N unit := λ ns,
  match ns_server ns with
  | None => Err NullDeref
  | Some sv => if Z.of_nat (length address) <? udp_send_reads sv socket_id address then Err OutOfBounds else Ok (tt, ns)
  end.

(** the characters of the address with their terminator are all that can be read *)
Definition l_udp_send (id address : lua_value) (msg : lua_arg) (sz : lua_value) : LN (list lua_value) :=
  socket_id ← call (checkint 1 id);
  address ← call (checklstring 2 address);
  sd ← call (_get_message 3 msg sz);
  let address := (address ++ [0])%list in
  node (udp_address_readable socket_id address);;
  err ← node (with_send_data socket_id sd (ns_udp_sendbuffer release_func svc_handle address));
  mret [LBool (err =? 0)].
End service.

(** the port is read before the size is looked at; the terminator is readable *)
Definition l_udp_address (addr : lua_value) : sock (list lua_value) :=
  s <~ checklstring 1 addr;;
  match slice (s ++ [0])%list 1 2 with
  | None => Err OutOfBounds
  | Some port =>
      let port := ntohs port in
      let convert family n :=
        match inet_ntop family (take n (drop 3 s)) with
        | None => luaL_error InvalidUdpAddress
        | Some tmp => lret [lstr tmp; LInt port]
        end in
      if (length s =? 7)%nat then convert AF_INET 4%nat
      else if (length s =? 19)%nat then convert AF_INET6 16%nat
      else luaL_error InvalidUdpAddress
  end.
End calls.
