(* ===== verification/LuaSocketProof.v ===== *)
(** * What Lua services do with sockets

    The functions of [LuaSocket] composed with the parts they call: an address may be given in
    one string or in two arguments; a string that is sent is the send of [SocketStream], the
    pieces of a table are not; what the socket thread queues for a service is what the service
    unpacks, and the address of a datagram can be read and answered. *)
From Stdlib Require Import String.
From S2P Require Import Prelude Bytes LuaCall SocketMessage Service Text SocketObject SocketEndpoint SocketState SocketServer SocketStream SocketOrder SocketEdge Message MqPrivate MqGlobal HandleSlot Scheduler Manager NodeSocket Seri LuaSocket.
Open Scope list_scope.
Open Scope Z_scope.

(** ** Addresses *)

Lemma strchr_app l c r : c ∉ l → strchr (l ++ c :: r) c = Some (length l).
Proof.
  unfold strchr. induction l as [|b l IH]; intros Hc; cbn [app list_find length].
  - by rewrite decide_True.
  - apply not_elem_of_cons in Hc as [Hb Hc]. rewrite decide_False by congruence.
    specialize (IH Hc). destruct (list_find _ (l ++ c :: r)) as [[n x]|]; [|done]. cbn in *. congruence.
Qed.

Lemma strchr_none l c : c ∉ l → strchr l c = None.
Proof.
  intros Hc. unfold strchr. destruct (list_find _ l) as [[n x]|] eqn:E; [|done].
  apply list_find_Some in E as (Hl & -> & _). by apply list_elem_of_lookup_2 in Hl.
Qed.

Lemma c_str_id l : 0 ∉ l → c_str l = l.
Proof.
  induction l as [|b l IH]; intros Hl; [done|]. apply not_elem_of_cons in Hl as [Hb Hl]. cbn [c_str].
  rewrite (proj2 (Z.eqb_neq b 0)) by done. by rewrite IH.
Qed.

Lemma drop_S_app (l : list Z) c r : drop (S (length l)) (l ++ c :: r) = r.
Proof. by induction l. Qed.

Lemma parse_port_dec port : 0 <= port < 2 ^ 31 → parse_port (bytes_of (dec_str port)) = port.
Proof. intros Hp. unfold parse_port. rewrite string_of_bytes_of, strtoul_dec_str, s32_small by lia. done. Qed.

(** [host:port], or [[host]:port] for a host with colons *)
Definition in_one_string (host : list Z) (port : Z) (s : list Z) : Prop :=
  (58 ∉ host ∧ 91 ∉ host ∧ s = host ++ 58 :: bytes_of (dec_str port)) ∨
  (93 ∉ host ∧ s = 91 :: host ++ 93 :: 58 :: bytes_of (dec_str port)).

Lemma digits_no port c : 0 <= port → c < 48 ∨ 57 < c → c ∉ bytes_of (dec_str port).
Proof. intros Hp Hc Hin. pose proof (dec_str_digits port Hp) as Hd. rewrite Forall_forall in Hd. specialize (Hd c Hin). lia. Qed.

Lemma address_port_one `{LuaNumbers} host port s i j : 0 ∉ host → 0 <= port < 2 ^ 31 → in_one_string host port s →
  _address_port s i LNil = lret (host, port) ∧ _address_port host j (LInt port) = lret (host, port).
Proof.
  intros H0 Hp Hs. pose proof (digits_no port) as Hd.
  split; [|unfold _address_port; rewrite c_str_id by done; cbn; rewrite s32_small by lia; done].
  unfold _address_port. destruct Hs as [(Hc & Hb & ->)|(Hb & ->)].
  - rewrite c_str_id by (rewrite not_elem_of_app, not_elem_of_cons; split_and!; [done|lia|apply Hd; lia]).
    rewrite (strchr_none _ 91) by (rewrite not_elem_of_app, not_elem_of_cons; split_and!; [done|lia|apply Hd; lia]).
    rewrite strchr_app by done. rewrite take_app_length, Nat.add_1_r, drop_S_app. by rewrite parse_port_dec.
  - rewrite c_str_id by (rewrite not_elem_of_cons, not_elem_of_app, !not_elem_of_cons; split_and!; try lia; [done|apply Hd; lia]).
    change (strchr (91 :: ?l) 91) with (Some 0%nat). cbv iota beta zeta.
    change (91 :: host ++ 93 :: 58 :: bytes_of (dec_str port)) with ((91 :: host) ++ 93 :: 58 :: bytes_of (dec_str port)).
    rewrite strchr_app by (apply not_elem_of_cons; split; [lia|done]). rewrite !Nat.add_1_r, drop_S_app.
    cbn [length app drop Nat.sub Nat.leb Nat.ltb]. rewrite Nat.sub_0_r, drop_0, take_app_length.
    change (strchr (58 :: ?l) 58) with (Some 0%nat). cbv iota beta zeta. cbn [Nat.add drop]. rewrite drop_0. by rewrite parse_port_dec.
Qed.

(** ** Strings and tables to send *)

(** the pieces of a table from an index on, as text *)
Definition pieces_from `{LuaNumbers} (entries : list (lua_value * lua_value)) (i : Z) (ss : list (list Z)) : Prop :=
  (∀ k s, ss !! k = Some s → tolstring (rawgeti entries (i + Z.of_nat k)) = Some s) ∧
  rawgeti entries (i + Z.of_nat (length ss)) = LNil.

Section pieces.
Context `{LuaNumbers}.
Implicit Types (entries : list (lua_value * lua_value)) (ss : list (list Z)).

Lemma pieces_cons entries i s ss : pieces_from entries i (s :: ss) → tolstring (rawgeti entries i) = Some s ∧ pieces_from entries (i + 1) ss.
Proof.
  intros [Hp Hn]. split; [|split].
  - rewrite <- (Z.add_0_r i). by apply (Hp 0%nat).
  - intros k t Hk. replace (i + 1 + Z.of_nat k) with (i + Z.of_nat (S k)) by lia. by apply Hp.
  - rewrite <- Hn. f_equal. cbn [length]. lia.
Qed.

(** no table has more pieces than entries *)
Lemma pieces_length entries i ss : pieces_from entries i ss → (length ss <= length entries)%nat.
Proof.
  intros [Hp _]. set (keys := (λ k, LInt (i + Z.of_nat k)) <$> seq 0 (length ss)).
  assert (Hd : NoDup keys) by (apply NoDup_fmap_2; [intros k k' Hk; injection Hk; lia|apply NoDup_seq]).
  assert (Hin : keys ⊆ entries.*1).
  { intros v (k & -> & Hk)%list_elem_of_fmap. apply elem_of_seq in Hk. destruct (lookup_lt_is_Some_2 ss k) as [s Hs]; [lia|].
    specialize (Hp k s Hs). unfold rawgeti in Hp. destruct (find _ entries) as [p|] eqn:E; [|done].
    apply find_some in E as [E1 E2]. apply list_elem_of_fmap. exists p. split; [|by apply list_elem_of_In].
    destruct (p.1); try done. cbn in E2. apply Z.eqb_eq in E2. congruence. }
  apply (NoDup_submseteq _ _ Hd) in Hin. apply submseteq_length in Hin. unfold keys in Hin. by rewrite !length_fmap, length_seq in Hin.
Qed.

Lemma count_size_pieces ss fuel entries i tlen : pieces_from entries i ss → (length ss <= fuel)%nat → - INT_MAX <= i → i + Z.of_nat (length ss) <= INT_MAX →
  0 <= tlen → tlen + Z.of_nat (length (concat ss)) < 2 ^ 64 → _count_size fuel entries i tlen = lret (tlen + Z.of_nat (length (concat ss))).
Proof.
  revert fuel i tlen. induction ss as [|s ss IH]; intros fuel i tlen Hp Hf H0 Hi Ht Hlen.
  - destruct Hp as [_ Hn]. cbn [length] in Hn. rewrite Z.add_0_r in *. destruct fuel; cbn [_count_size]; rewrite Hn; done.
  - apply pieces_cons in Hp as [Hs Hp]. destruct fuel as [|fuel]; [cbn in Hf; lia|]. cbn [length concat] in *. rewrite length_app in *.
    assert (Hstep : _count_size (S fuel) entries i tlen = _count_size fuel entries (i + 1) (tlen + Z.of_nat (length s))).
    { clear IH Hp. cbn [_count_size]. revert Hs. destruct (rawgeti entries i); intros Hs; try done; unfold checklstring;
        rewrite Hs, lbind_lret, int_chk_Ok, LuaCall.lift_Ok, lbind_Ok, u64_small by lia; done. }
    rewrite Hstep, IH by (done || lia). f_equal. lia.
Qed.

Lemma concat_pieces_pieces ss fuel entries i buf : pieces_from entries i ss → (length ss <= fuel)%nat → - INT_MAX <= i → i + Z.of_nat (length ss) <= INT_MAX →
  concat_pieces fuel entries i buf (Z.of_nat (length (concat ss))) = lret (buf ++ concat ss, 0).
Proof.
  revert fuel i buf. induction ss as [|s ss IH]; intros fuel i buf Hp Hf H0 Hi.
  - destruct Hp as [_ Hn]. cbn [length] in Hn. rewrite Z.add_0_r in *. rewrite app_nil_r.
    destruct fuel; cbn [concat_pieces]; rewrite Hn; done.
  - apply pieces_cons in Hp as [Hs Hp]. destruct fuel as [|fuel]; [cbn in Hf; lia|]. cbn [length concat] in *. rewrite length_app in *.
    assert (Hstep : concat_pieces (S fuel) entries i buf (Z.of_nat (length s + length (concat ss))) =
                    concat_pieces fuel entries (i + 1) (buf ++ s) (Z.of_nat (length (concat ss)))).
    { clear IH Hp. cbn [concat_pieces]. revert Hs. destruct (rawgeti entries i); intros Hs; try done;
        rewrite Hs, (proj2 (Z.ltb_ge _ _)), int_chk_Ok, LuaCall.lift_Ok, lbind_Ok by lia; do 2 f_equal; lia. }
    rewrite Hstep, IH by (done || lia). by rewrite <- app_assoc.
Qed.

(** the message made of a table: its pieces put together, in memory that is given away *)
Lemma get_message_table msg_index entries mp next ss : pieces_from entries 1 ss → Z.of_nat (length ss) < INT_MAX → Z.of_nat (length (concat ss)) < 2 ^ 64 →
  _get_message msg_index (Plain (LTable entries mp)) next = lret (mkLm SEND_DATA_TYPE_MEMORY (New (concat ss)) (Z.of_nat (length (concat ss)))).
Proof.
  intros Hp Hn Hlen. pose proof (pieces_length entries 1 ss Hp). unfold INT_MAX in *. cbn [_get_message].
  rewrite (count_size_pieces ss) by (done || unfold INT_MAX; lia). rewrite lbind_lret, Z.add_0_l. unfold _concat_table.
  rewrite (concat_pieces_pieces ss) by (done || unfold INT_MAX; lia). done.
Qed.
End pieces.

(** ** Sends that write nothing to the log *)

Section quiet.
Context {K : Type} `{Kernel K}.

Definition quiet {A} (m : M K A) : Prop := ∀ st a st', m st = Ok (a, st') → sv_log st' = sv_log st.

Lemma M_bind_inv {A B} (m : M K A) (k : A → M K B) st b st' : (m ≫= k) st = Ok (b, st') → ∃ a st1, m st = Ok (a, st1) ∧ k a st1 = Ok (b, st').
Proof. unfold mbind, M_bind. destruct (m st) as [[a st1]|]; [|done]. intros Hk. by exists a, st1. Qed.

Lemma quiet_ret {A} (a : A) : quiet (mret a).
Proof. intros st b st' E. injection E as <- <-. done. Qed.
Lemma quiet_bind {A B} (m : M K A) (k : A → M K B) : quiet m → (∀ a, quiet (k a)) → quiet (m ≫= k).
Proof. intros Hm Hk st b st' (a & st1 & E1 & E2)%M_bind_inv. rewrite (Hk _ _ _ _ E2). by apply (Hm _ _ _ E1). Qed.
Lemma quiet_gets {A} (f : server K → A) : quiet (gets f).
Proof. intros st b st' E. injection E as <- <-. done. Qed.
Lemma quiet_modify (f : server K → server K) : (∀ st, sv_log (f st) = sv_log st) → quiet (modify f).
Proof. intros Hf st b st' E. injection E as <- <-. apply Hf. Qed.
Lemma quiet_fail {A} f : quiet (mfail f : M K A).
Proof. intros st b st' E. done. Qed.
Lemma quiet_sys c : quiet (sys c).
Proof. intros st b st'. unfold sys. destruct (kernel c (sv_os st)). intros E. by injection E as <- <-. Qed.
Lemma quiet_load p n : quiet (load p n).
Proof. intros st b st'. unfold load. repeat case_match; intros E; try done; by injection E as <- <-. Qed.
Lemma quiet_new_block l : quiet (new_block l).
Proof. intros st b st' E. by injection E as <- <-. Qed.
Lemma quiet_delete_block p : quiet (delete_block p).
Proof. intros st b st'. unfold delete_block. repeat case_match; intros E; try done; by injection E as <- <-. Qed.
End quiet.
Create HintDb quiet discriminated.
#[export] Hint Resolve quiet_ret quiet_gets quiet_fail quiet_sys quiet_load quiet_new_block quiet_delete_block : quiet.
Ltac quiet :=
  repeat first [solve [eauto with quiet] | apply quiet_bind; [|intros ?] | apply quiet_modify; intros; reflexivity | case_match];
  eauto with quiet.

Section sends.
Context {K : Type} `{Kernel K}.

Lemma quiet_upd_sock i f : quiet (upd_sock i f : M K unit).
Proof. apply quiet_modify. done. Qed.
Lemma quiet_send_ctrl_cmd cmd : quiet (_send_ctrl_cmd cmd : M K unit).
Proof. apply quiet_modify. done. Qed.
#[local] Hint Resolve quiet_upd_sock quiet_send_ctrl_cmd : quiet.
Lemma quiet_call_free f : quiet (call_free f : M K unit).
Proof. unfold call_free. quiet. Qed.
Lemma quiet_inc_sending i id : quiet (inc_sending i id : M K unit).
Proof. unfold inc_sending, SocketState.sock. quiet. Qed.
Lemma quiet_clone_send_data sd : quiet (clone_send_data sd : M K (Z * Z)).
Proof. unfold clone_send_data. quiet. Qed.
Lemma quiet_free_send_data sd : quiet (free_send_data sd : M K unit).
Proof. unfold free_send_data. quiet. Qed.
Lemma quiet_init_send_user_object sd : quiet (init_send_user_object sd : M K send_user_object).
Proof. unfold init_send_user_object, init_send_user_object_raw. quiet. Qed.
#[local] Hint Resolve quiet_call_free quiet_inc_sending quiet_clone_send_data quiet_free_send_data quiet_init_send_user_object : quiet.
Lemma quiet_send_cmd id sd high : quiet (send_cmd id sd high : M K unit).
Proof. unfold send_cmd. quiet. Qed.
#[local] Hint Resolve quiet_send_cmd : quiet.

(** only a send to an address of UDP that is not set writes to the log *)
Lemma direct_send_quiet i sd (st : server K) r st' : so_socket_type (socket_at (sv_pool st) i) = SOCKET_TYPE_TCP →
  direct_send i sd st = Ok (r, st') → sv_log st' = sv_log st.
Proof.
  intros Ht. unfold direct_send. cbv zeta. intros (s & st1 & Es & E)%M_bind_inv. injection Es as <- <-.
  rewrite Ht, Z.eqb_refl in E. apply M_bind_inv in E as (so & st2 & Eso & E).
  apply M_bind_inv in E as (n & st3 & En & E). apply quiet_init_send_user_object in Eso.
  apply M_bind_inv in En as (data & st4 & Ed & En). apply quiet_load in Ed.
  apply M_bind_inv in En as (ret & st5 & Er & En). apply quiet_sys in Er. injection En as <- <-.
  transitivity (sv_log st5); [|congruence]. clear -E. revert st' r st5 E.
  enough (quiet _) as Hq by (intros st' r st5 E; exact (Hq _ _ _ E)). quiet.
Qed.

Lemma server_send_quiet sd (st : server K) r st' : so_socket_type (socket_at (sv_pool st) (socket_array_index (sd_socket_id sd))) = SOCKET_TYPE_TCP →
  server_send sd st = Ok (r, st') → sv_log st' = sv_log st.
Proof.
  intros Ht. unfold server_send. cbv zeta. intros (s & st1 & Es & E)%M_bind_inv. injection Es as <- <-. revert E.
  case_match; [intros E; by eapply (quiet_bind _ _ (quiet_free_send_data sd) (λ _, quiet_ret (-1))); exact E|].
  case_match; [|intros E; match type of E with ?m _ = _ => enough (quiet m) as Hq by exact (Hq _ _ _ E) end; quiet].
  intros (u & st1 & E1 & E)%M_bind_inv. injection E1 as <- <-. apply direct_send_quiet in E; [done|]. cbn [sv_pool]. by rewrite socket_at_same.
Qed.
End sends.

(** ** Calls through the facade *)

Section facade.
Context {K : Type} `{Kernel K} `{LuaNumbers}.
Variable release_func : Z → Z → world → result world.

Lemma on_server_silent {A} (m : M K A) w (sv sv' : server K) k a : m sv = Ok (a, sv') → sv_log sv' = [] →
  on_server release_func m (mkNs w (Some sv) k) = Ok (a, mkNs w (Some sv') k).
Proof.
  intros Hm Hl. unfold on_server. cbn [ns_server ns_world ns_kernel]. rewrite Hm, bind_Ok. cbv iota beta. rewrite Hl. cbn [log_texts].
  rewrite bind_Ok. destruct sv'. cbn in Hl. by subst.
Qed.

Lemma on_server_err {A} (m : M K A) w (sv : server K) k f : m sv = Err f → on_server release_func m (mkNs w (Some sv) k) = Err f.
Proof. intros Hm. unfold on_server. cbn [ns_server]. by rewrite Hm. Qed.

Lemma LN_bind_Ok {A B} (m : LN K A) (f : A → LN K B) ns a ns' : m ns = Ok (inr a, ns') → (m ≫= f) ns = f a ns'.
Proof. intros Hm. unfold mbind, LN_bind. by rewrite Hm. Qed.
Lemma LN_bind_ext {A B} (m : LN K A) (f g : A → LN K B) ns : (∀ a ns', f a ns' = g a ns') → (m ≫= f) ns = (m ≫= g) ns.
Proof. intros Hf. unfold mbind, LN_bind. destruct (m ns) as [[[e|a] ns']|]; [done|apply Hf|done]. Qed.
Lemma LN_bind_Err {A B} (m : LN K A) (f : A → LN K B) ns e : m ns = Err e → (m ≫= f) ns = Err e.
Proof. intros Hm. unfold mbind, LN_bind. by rewrite Hm. Qed.
Lemma N_bind_Ok {A B} (m : N K A) (f : A → N K B) ns a ns' : m ns = Ok (a, ns') → (m ≫= f) ns = f a ns'.
Proof. intros Hm. unfold mbind, N_bind. by rewrite Hm. Qed.
Lemma node_Ok {A} (m : N K A) ns a ns' : m ns = Ok (a, ns') → node m ns = Ok (inr a, ns').
Proof. intros Hm. unfold node. by rewrite Hm. Qed.
Lemma node_Err {A} (m : N K A) ns e : m ns = Err e → node m ns = Err e.
Proof. intros Hm. unfold node. by rewrite Hm. Qed.
Lemma call_Ok {A} (m : lua_call sock_error A) (ns : node_socket K) a : m = lret a → call m ns = Ok (inr a, ns).
Proof. by intros ->. Qed.

Lemma get_message_text i v next data : tolstring v = Some data →
  _get_message i (Plain v) next = lret (mkLm SEND_DATA_TYPE_USER_DATA (OfLua data) (Z.of_nat (length data))).
Proof. intros Hv. destruct v; try done; cbn [_get_message]; unfold checklstring; by rewrite Hv. Qed.
End facade.

(** ** Messages of the socket thread *)

Section messages.
Context {K : Type} `{Kernel K} `{LuaNumbers}.

Lemma LN_bind_call {A B} (m : lua_call sock_error A) (f : A → LN K B) ns a : m = lret a → (call m ≫= f) ns = f a ns.
Proof. by intros ->. Qed.

(** the header of a message, which its bytes start with *)
Lemma unpack_header m text w (sv : option (server K)) k q size : 0 < q → w_blocks w !! q = Some (ssm_bytes m ++ text) →
  is_s32 (ssm_socket_event m) → is_s32 (ssm_socket_id m) → is_s32 (ssm_ud m) → is_u64 (ssm_buffer m) →
  is_s32 size → size = 24 + Z.of_nat (length text) →
  let ns := mkNs w sv k in
  read_memory q SOCKET_MESSAGE_SIZE ns = Ok (ssm_bytes m, ns) ∧ read_memory q size ns = Ok (ssm_bytes m ++ text, ns) ∧
  ssm_of_bytes (ssm_bytes m) = m.
Proof.
  intros Hq Hb He Hi Hu Hp Hs Hsz ns. unfold read_memory, Service.read_block, ns. cbn [ns_world].
  rewrite (proj2 (Z.eqb_neq q 0)) by lia. rewrite Hb, length_app, ssm_bytes_length.
  rewrite !(proj2 (Z.leb_le _ _)) by (unfold SOCKET_MESSAGE_SIZE; lia). rewrite !bind_Ok. split_and!.
  - by rewrite take_app_length' by (by rewrite ssm_bytes_length).
  - by rewrite take_ge by (rewrite length_app, ssm_bytes_length; lia).
  - rewrite <- (app_nil_r (ssm_bytes m)) at 1. by apply ssm_roundtrip.
Qed.

(** a message with a text behind it, and one with a block of data *)
Lemma unpack_text m text w (sv : option (server K)) k q size : 0 < q → w_blocks w !! q = Some (ssm_bytes m ++ text) →
  is_s32 (ssm_socket_event m) → is_s32 (ssm_socket_id m) → is_s32 (ssm_ud m) → ssm_buffer m = 0 → ssm_socket_event m ≠ SKYNET_SOCKET_EVENT_UDP →
  is_s32 size → size = 24 + Z.of_nat (length text) →
  l_unpack (LUserdata q) (LInt size) (mkNs w sv k) =
    Ok (inr [LInt (ssm_socket_event m); LInt (ssm_socket_id m); LInt (ssm_ud m); LString text], mkNs w sv k).
Proof.
  intros Hq Hb He Hi Hu Hp Hev Hs Hsz.
  destruct (unpack_header m text w sv k q size) as (H1 & H2 & H3); try done; [by rewrite Hp|].
  unfold l_unpack. cbn [touserdata]. erewrite LN_bind_call by (cbn; by rewrite s32_small).
  erewrite LN_bind_Ok by (by apply node_Ok). cbv zeta. rewrite H3, Hp, (proj2 (Z.eqb_neq _ _) Hev), (proj2 (Z.ltb_ge _ _)) by (unfold SOCKET_MESSAGE_SIZE; lia).
  cbn [Z.eqb]. rewrite (LN_bind_Ok _ _ _ (LString text) (mkNs w sv k)).
  - done.
  - erewrite LN_bind_Ok by (by apply node_Ok). by rewrite drop_app_length' by (by rewrite ssm_bytes_length).
Qed.

Lemma unpack_data m w (sv : option (server K)) k q : 0 < q → w_blocks w !! q = Some (ssm_bytes m) →
  is_s32 (ssm_socket_event m) → is_s32 (ssm_socket_id m) → is_s32 (ssm_ud m) → is_u64 (ssm_buffer m) → ssm_buffer m ≠ 0 →
  ∀ addr, (if ssm_socket_event m =? SKYNET_SOCKET_EVENT_UDP then
             ∃ a, ns_udp_address m (mkNs w sv k) = Ok (Some a, mkNs w sv k) ∧ addr = [LString (take (Z.to_nat a.1) a.2)]
           else addr = []) →
  l_unpack (LUserdata q) (LInt 24) (mkNs w sv k) =
    Ok (inr ([LInt (ssm_socket_event m); LInt (ssm_socket_id m); LInt (ssm_ud m); LUserdata (ssm_buffer m)] ++ addr), mkNs w sv k).
Proof.
  intros Hq Hb He Hi Hu Hp Hz addr Ha.
  destruct (unpack_header m [] w sv k q 24) as (H1 & _ & H3); [done..|].
  unfold l_unpack. cbn [touserdata]. erewrite LN_bind_call by done.
  erewrite LN_bind_Ok by (by apply node_Ok). cbv zeta. rewrite H3, (proj2 (Z.eqb_neq _ 0)) by done.
  erewrite LN_bind_Ok by done. destruct (ssm_socket_event m =? SKYNET_SOCKET_EVENT_UDP); [|by rewrite Ha].
  destruct Ha as ([n a] & Ha & ->). rewrite (LN_bind_Ok _ _ _ [LString (take (Z.to_nat n) a)] (mkNs w sv k)); [done|].
  erewrite LN_bind_Ok by (by apply node_Ok). done.
Qed.
End messages.

Section delivery.
Context {K : Type} `{Kernel K} `{LuaNumbers}.
Variable release_func : Z → Z → world → result world.
Hypothesis Hrelease : ∀ f s w, release_func f s w = Ok w.

(** what the socket thread has for the service that owns a socket *)
Record deliverable (g : gstate) (msg : socket_message) (ev : Z) : Prop := {
  d_inv : sched_inv g;
  d_below : blocks_below (g_w g);
  d_next : w_next (g_w g) < 2 ^ 63;
  d_event : is_s32 ev;
  d_id : is_s32 (sm_socket_id msg);
  d_ud : is_s32 (sm_ud msg);
  d_service : svc_find (g_w g) (sm_svc_handle msg) ≠ 0;
  d_room : has_room (g_w g) (sm_svc_handle msg)
}.
(** one message more in the queue of the service *)
Definition queued (g : gstate) (svc_handle : Z) (w : world) (m : service_message) : Prop :=
  ∃ ms, contents_map (w_mq (g_w g)) !! queue_of (g_w g) (svc_find (g_w g) svc_handle) = Some ms ∧
    contents_map (w_mq w) = <[queue_of (g_w g) (svc_find (g_w g) svc_handle) := ms ++ [m]]> (contents_map (w_mq (g_w g))) ∧
    sched_inv (at_world g w).
(** a call of [l_unpack] with what the callback of a service is given *)
Definition unpack_message (m : service_message) : LN K (list lua_value) := l_unpack (LUserdata (data_ptr m)) (LInt (unpack_size (data_size m))).

Lemma data_reaches_lua g (sv : server K) k ev p data addr : deliverable g (sv_result sv) ev →
  sm_data_ptr (sv_result sv) = DBlock p → sv_blocks sv !! p = Some data →
  let msg := sv_result sv in let sv' := sv <| sv_blocks := delete p (sv_blocks sv) |> in
  (∀ w b, 0 < b → w_blocks w !! b = Some data →
     if ev =? SKYNET_SOCKET_EVENT_UDP then
       ∃ a, ns_udp_address (mkSsm ev (sm_socket_id msg) (sm_ud msg) b) (mkNs w (Some sv') k) = Ok (Some a, mkNs w (Some sv') k) ∧
            addr = [LString (take (Z.to_nat a.1) a.2)]
     else addr = []) →
  ∃ w m b, forward_message release_func ev false (mkNs (g_w g) (Some sv) k) = Ok (tt, mkNs w (Some sv') k) ∧
    queued g (sm_svc_handle msg) w m ∧ w_blocks w !! b = Some data ∧
    unpack_message m (mkNs w (Some sv') k) =
      Ok (inr ([LInt ev; LInt (sm_socket_id msg); LInt (sm_ud msg); LUserdata b] ++ addr), mkNs w (Some sv') k).
Proof.
  intros [Hinv Hbelow Hn Hev Hid Hud Hf Hroom] Hd Hl msg sv' Ha. pose proof Hinv as [l Hl0]. pose proof (si_next _ _ Hl0) as Hpos.
  pose proof (forward_data release_func Hrelease g sv k ev p data Hinv Hbelow Hd Hl Hroom) as Hfwd. cbv zeta in Hfwd.
  rewrite (proj2 (Z.eqb_neq _ 0) Hf) in Hfwd. destruct Hfwd as (w & ms & b & Hfw & Hms & Hcm & Hb & _ & _ & Hinv' & ->).
  assert (Hdata : w_blocks w !! w_next (g_w g) = Some data) by (by rewrite Hb, lookup_insert_ne, lookup_insert_eq by lia).
  eexists w, _, _. split; [exact Hfw|]. split; [by exists ms|]. split; [exact Hdata|]. unfold unpack_message. cbn [data_ptr data_size].
  rewrite unpack_size_pack by (cbn; lia).
  apply (unpack_data (mkSsm ev (sm_socket_id msg) (sm_ud msg) (w_next (g_w g)))); cbn [ssm_socket_event ssm_socket_id ssm_ud ssm_buffer]; try done; try lia.
  - by rewrite Hb, lookup_insert_eq.
  - unfold is_u64. lia.
  - by apply Ha.
Qed.

Lemma text_reaches_lua g (sv : server K) k ev : deliverable g (sv_result sv) ev → ev ≠ SKYNET_SOCKET_EVENT_UDP →
  let msg := sv_result sv in
  ∃ w m, forward_message release_func ev true (mkNs (g_w g) (Some sv) k) = Ok (tt, mkNs w (Some sv) k) ∧
    queued g (sm_svc_handle msg) w m ∧
    unpack_message m (mkNs w (Some sv) k) =
      Ok (inr [LInt ev; LInt (sm_socket_id msg); LInt (sm_ud msg); LString (take 128 (message_text sv (sm_data_ptr msg)))], mkNs w (Some sv) k).
Proof.
  intros [Hinv Hbelow Hn Hev Hid Hud Hf Hroom] Hudp msg. pose proof Hinv as [l Hl0]. pose proof (si_next _ _ Hl0) as Hpos.
  destruct (forward_text release_func Hrelease g sv k ev Hinv Hf Hroom) as (w & ms & Hfw & Hms & Hcm & Hb & Hinv').
  set (text := take 128 _) in *. assert (Ht : (length text <= 128)%nat) by (unfold text; rewrite length_take; lia).
  eexists w, _. split; [exact Hfw|]. split; [by exists ms|]. unfold unpack_message. cbn [data_ptr data_size].
  rewrite unpack_size_pack by (cbn; lia).
  apply (unpack_text (mkSsm ev (sm_socket_id msg) (sm_ud msg) 0)); cbn [ssm_socket_event ssm_socket_id ssm_ud ssm_buffer]; try done.
  unfold is_s32. lia.
Qed.
End delivery.

(** ** Addresses of datagrams *)

(** the bytes that [forward_message_udp] puts behind a datagram *)
Definition sender (t : Z) (ep : socket_endpoint) : list Z := (to_udp_address ep t (replicate (udp_address_len t) 0)).2.

(** the text of an endpoint's host and its port, as [l_udp_address] gives them *)
Definition endpoint_values {K} `{Kernel K} (t : Z) (ep : socket_endpoint) : lua_call sock_error (list lua_value) :=
  match (if t =? SOCKET_TYPE_UDP then inet_ntop AF_INET (sin_addr ep) else inet_ntop AF_INET6 (sin6_addr ep)) with
  | None => luaL_error InvalidUdpAddress
  | Some tmp => lret [lstr tmp; LInt (ntohs (sin_port ep))]
  end.

Lemma sender_read {K} `{Kernel K} `{LuaNumbers} t ep : udp_protocol t → length ep = 28%nat →
  length (sender t ep) = udp_address_len t ∧ nth 0 (sender t ep) 0 = t ∧ l_udp_address (LString (sender t ep)) = endpoint_values t ep ∧
  let '(n, ep') := from_udp_address endpoint_zero t (sender t ep ++ [0]) in
  n ≠ 0 ∧ sin_port ep' = sin_port ep ∧ host_addr ep' = (if t =? SOCKET_TYPE_UDP then sin_addr ep else sin6_addr ep).
Proof. intros Ht Hl. split_bytes ep. by destruct Ht as [-> | ->]. Qed.

Lemma load_at {K} p (st : server K) l1 l2 n : 0 < p → sv_blocks st !! p = Some (l1 ++ l2) → 0 < n <= Z.of_nat (length l2) →
  load (mkPtr p (Z.of_nat (length l1))) n st = Ok (take (Z.to_nat n) l2, st).
Proof.
  intros Hp Hb Hn. unfold load. cbn [p_block p_off]. rewrite (proj2 (Z.leb_gt n 0)) by lia.
  unfold is_null. rewrite (proj2 (Z.eqb_neq p 0)), Hb, length_app, !(proj2 (Z.leb_le _ _)) by lia. cbn [andb].
  by rewrite Nat2Z.id, drop_app_length.
Qed.

(** the address behind the data of a UDP message *)
Lemma ns_udp_address_at {K} `{Kernel K} t ep payload id b w (sv : server K) k : udp_protocol t → length ep = 28%nat → 0 < b →
  w_blocks w !! b = Some (payload ++ sender t ep) →
  ns_udp_address (mkSsm SKYNET_SOCKET_EVENT_UDP id (Z.of_nat (length payload)) b) (mkNs w (Some sv) k) =
    Ok (Some (Z.of_nat (udp_address_len t), sender t ep), mkNs w (Some sv) k).
Proof.
  intros Ht Hl Hb Hw. assert (Hs : length (sender t ep) = udp_address_len t ∧ take 1 (sender t ep) = [t]) by (split_bytes ep; by destruct Ht as [-> | ->]).
  destruct Hs as [Hlen Hone]. unfold ns_udp_address. cbn [ssm_socket_event ssm_socket_id ssm_ud ssm_buffer ns_server ns_world].
  change (negb (_ =? _)) with false. cbv iota. unfold server_udp_address. cbn [sm_data_ptr sm_ud].
  set (sv0 := sv <| sv_blocks := w_blocks w |>). assert (Hb0 : sv_blocks sv0 !! b = Some (payload ++ sender t ep)) by done.
  assert (Hpos : (7 <= udp_address_len t)%nat) by (destruct Ht as [-> | ->]; by vm_compute; lia).
  erewrite M_bind_Ok by (apply (load_at b sv0 payload (sender t ep)); [done|exact Hb0|lia]).
  change (Z.to_nat 1) with 1%nat. rewrite Hone. cbv zeta. cbn [nth].
  destruct Ht as [-> | ->]; unfold udp_address_len in *;
    change (SOCKET_TYPE_UDP =? SOCKET_TYPE_UDP) with true in *; change (SOCKET_TYPE_UDPv6 =? SOCKET_TYPE_UDP) with false in *;
    change (SOCKET_TYPE_UDPv6 =? SOCKET_TYPE_UDPv6) with true; cbv iota in *.
  - erewrite M_bind_Ok by (apply (load_at b sv0 payload (sender SOCKET_TYPE_UDP ep)); [done|exact Hb0|lia]).
    rewrite take_ge by lia. done.
  - erewrite M_bind_Ok by (apply (load_at b sv0 payload (sender SOCKET_TYPE_UDPv6 ep)); [done|exact Hb0|lia]).
    rewrite take_ge by lia. done.
Qed.

(** ** Properties *)

(** C22: a Lua service may give an address in one string or the host and the port apart:
    [connect], [udp_socket] and [udp_connect] do the same for "host:port" as for the host and
    the port, and for "[host]:port" as for a host that contains colons; the host that is copied
    leaves room for its terminator in an array of the length of the string; and a port that is
    not 0 reaches the node as it was written. *)
Theorem address_in_one_string {K} `{Kernel K} `{LuaNumbers} release_func svc_handle host port s (ns : node_socket K) :
  0 ∉ host → 0 <= port < 2 ^ 31 → in_one_string host port s →
  l_connect release_func svc_handle (LString s) LNil ns = l_connect release_func svc_handle (LString host) (LInt port) ns ∧
  l_udp_socket release_func svc_handle (LString s) LNil ns = l_udp_socket release_func svc_handle (LString host) (LInt port) ns ∧
  (∀ id, l_udp_connect release_func svc_handle id (LString s) LNil ns = l_udp_connect release_func svc_handle id (LString host) (LInt port) ns) ∧
  (length host < length s)%nat ∧
  l_connect release_func svc_handle (LString s) LNil ns =
    (if port =? 0 then Ok (inl InvalidPort, ns)
     else let* (id, ns) := ns_connect release_func svc_handle (string_of_bytes host) port ns in Ok (inr [LInt id], ns)).
Proof.
  intros Hz Hp Hs. assert (Hone := λ i j, address_port_one host port s i j Hz Hp Hs).
  assert (Hl : (length host < length s)%nat) by (destruct Hs as [(_ & _ & ->)|(_ & ->)]; simpl; rewrite length_app; simpl; lia).
  assert (Hc : ∀ v w, _address_port v 2 w = lret (host, port) → l_connect release_func svc_handle (LString v) w ns =
    (if port =? 0 then Ok (inl InvalidPort, ns)
     else let* (id, ns) := ns_connect release_func svc_handle (string_of_bytes host) port ns in Ok (inr [LInt id], ns))).
  { intros v w Hv. unfold l_connect. erewrite LN_bind_Ok by done. erewrite LN_bind_Ok by (by apply call_Ok). cbv beta iota.
    destruct (port =? 0); [done|]. unfold node, mbind, LN_bind. by destruct (ns_connect _ _ _ _ _) as [[]|]. }
  split; [|split; [|split; [|split; [done|apply Hc, (proj1 (Hone 2 0))]]]].
  - by rewrite !Hc by apply (Hone 2 2).
  - unfold l_udp_socket. cbn [tolstring]. destruct (Hone 2 2) as [-> ->]. done.
  - intros id. unfold l_udp_connect. apply LN_bind_ext. intros z ns'.
    erewrite (LN_bind_Ok (call (checklstring 2 (LString s)))), (LN_bind_Ok (call (checklstring 2 (LString host)))) by done. cbv beta.
    destruct (Hone 3 3) as [-> ->]. done.
Qed.

(** a node with the connection 1 on the descriptor 7 *)
#[local] Instance no_numbers : LuaNumbers := { lua_real_text := λ _, []; lua_text_integer := λ _, None }.
Definition sim_node (k : sim) : node_socket sim := mkNs (g_w example_g) (Some (sim_connected k)) k.

Lemma address_in_one_string_witness :
  l_connect release_nothing 5 (LString (bytes_of "[::1]:80")) LNil (sim_node (mkSim [] [])) =
  l_connect release_nothing 5 (LString (bytes_of "::1")) (LInt 80) (sim_node (mkSim [] [])).
Proof.
  refine (proj1 (address_in_one_string release_nothing 5 (bytes_of "::1") 80 (bytes_of "[::1]:80") _ _ _ _)).
  - by apply (bool_decide_unpack _).
  - lia.
  - right. split; [by apply (bool_decide_unpack _)|reflexivity].
Defined.



(** C39: strings in a table are not sent as the same strings put together are: a table becomes
    memory that the server has to free, and on a connection that has nothing to send, when the
    kernel takes all bytes at once, [l_send] calls a function pointer that was never set.
    The table is concatenated without fault or error before, whatever its size. *)
Theorem lua_send_table_faults {K} `{Kernel K} `{LuaNumbers} release_func svc_handle id fd w (sv : server K) k entries mp next ss :
  is_s32 id → idle id fd sv → so_udp_connecting_count (socket_at (sv_pool sv) (socket_array_index id)) = 0 → sv_log sv = [] →
  pieces_from entries 1 ss → Z.of_nat (length ss) < INT_MAX → Z.of_nat (length (concat ss)) < USER_OBJECT_TAG →
  sr_ret (kernel (SysWrite fd (concat ss)) (sv_os sv)).1 = Z.of_nat (length (concat ss)) →
  _get_message 2 (Plain (LTable entries mp)) next =
    lret (mkLm SEND_DATA_TYPE_MEMORY (New (concat ss)) (Z.of_nat (length (concat ss)))) ∧
  l_send release_func svc_handle (LInt id) (Plain (LTable entries mp)) next (mkNs w (Some sv) k) = Err UninitRead.
Proof.
  intros Hid Hidle Hu Hlog Hp Hn Hlen Hk. assert (Hm := get_message_table 2 entries mp next ss Hp Hn ltac:(unfold USER_OBJECT_TAG in *; lia)).
  split; [exact Hm|]. unfold l_send. erewrite LN_bind_Ok by (apply call_Ok; cbn; by rewrite s32_small).
  erewrite LN_bind_Ok by (by apply call_Ok). apply LN_bind_Err, node_Err. unfold with_send_data. cbn [lm_memory lm_type lm_size].
  erewrite N_bind_Ok by (apply on_server_silent; [reflexivity|done]). apply on_server_err.
  apply (memory_send_uninitialised _ id fd); psimpl; try done.
  - destruct Hidle as [I1 I2 I3 I4 I5 I6 I7]. constructor; psimpl; try done. lia.
  - by apply (idle_next _ _ _ Hidle).
  - by rewrite lookup_insert_eq.
Qed.

Lemma lua_send_table_faults_witness :
  let pieces := LTable [(LInt 1, LString [1; 2]); (LInt 2, LInt 7); (LInt 3, LString [])] None in
  l_send release_nothing 5 (LInt 1) (Plain pieces) LNil (sim_node (mkSim [10] [])) = Err UninitRead.
Proof.
  refine (proj2 (lua_send_table_faults release_nothing 5 1 7 _ _ _ _ _ _ [[1; 2]; bytes_of "7"; []] _ (sim_idle _) _ _ _ _ _ _)).
  1-3: by vm_compute.
  - split; [|reflexivity]. intros i s Hi. do 3 (destruct i as [|i]; [by injection Hi as <-|]). discriminate Hi.
  - by vm_compute.
  - by vm_compute.
  - by vm_compute.
Defined.


Lemma example_deliverable ud d : is_s32 ud → deliverable example_g (mkSm 3 1 ud d) SKYNET_SOCKET_EVENT_DATA ∧
  deliverable example_g (mkSm 3 1 ud d) SKYNET_SOCKET_EVENT_UDP.
Proof.
  intros Hud. split; (split; [exact (reachable_inv release_nothing mods_one example_g (λ _ _ _, eq_refl) example_reachable)|
    by intros q [b Hq]|done|done|done|done|by vm_compute|vm_compute; congruence]).
Qed.



(** a kernel that has one datagram, and a UDP socket of the service 1 *)
Definition dgram_sender : socket_endpoint := put_field endpoint_zero 0 [2; 0; 31; 144; 127; 0; 0; 1].
#[local] Instance dgram_kernel : Kernel unit := {
  kernel c k := (mkRet 2 0 [104; 105] SIZEOF_SOCKADDR_IN dgram_sender [] [], k);
  strerror _ := "error"%string;
  gai_strerror _ := "error"%string;
  inet_ntop _ _ := Some "127.0.0.1"%string
}.
Definition dgram_server : server unit :=
  let sv := server_new tt in
  sv <| sv_pool := put_at (sv_pool sv) 3 (socket_at (sv_pool sv) 3 <| so_socket_id := 3 |> <| so_socket_fd := 7 |> <| so_svc_handle := 1 |> <| so_socket_type := SOCKET_TYPE_UDP |>) |>.


(** ** Where the library does not check *)

(** a closing bracket before the opening one is a copy of nearly 2^64 bytes *)
Example address_brackets : _address_port (bytes_of "]1[:5") 2 LNil = Err OutOfBounds.
Proof. done. Qed.

(** the port is tested before the node keeps 16 bits of it *)
Example address_large_port : _address_port (bytes_of "h:65536") 2 LNil = lret (bytes_of "h", 65536).
Proof. done. Qed.

(** a UDP socket without an address makes a string of a null pointer *)
Example udp_socket_without_address :
  l_udp_socket release_nothing 5 LNil LNil (sim_node (mkSim [] [])) = Err NullDeref.
Proof. done. Qed.

(** the address of a datagram is read before its size is tested *)
Example udp_address_short : l_udp_address (LString [1]) = Err OutOfBounds.
Proof. done. Qed.
