(* ===== verification/Stm.v ===== *)
(** * Shared messages (luaclib-src/lua-stm.cpp)

    One service, the writer, publishes a message and replaces it by a newer one; services
    that got a reader ask whether there is a newer message than the one they have. The
    message lives in a [stm_copy], which counts who uses it; the [stm_object] points to the
    current copy under a readers-writer lock and counts the writer and the readers. The last
    one to leave deletes.

    The userdata of the writer and of each reader belong to one service each, so that each is
    used by one thread at a time; the threads interleave. A step is one access to what they
    share: the lock, a counter, the pointer to the current copy, a deletion. An address is a
    number; [new] may return any address that is free at that moment, so that addresses are
    used again. What a step does to memory that is gone is a fault, with one exception: the
    guards of [stm_release] and [stm_releasereader] unlock the mutex of an object that may
    just have been deleted. That unlock is counted in [late_unlocks], and the step goes on. A
    counter has fewer than 2^31 users.

    [sc_version], [published] and the list of results of a reader are not in the code: they
    say which message of the writer a copy holds, what the writer has published, and what the
    calls of a reader returned. *)
From S2P Require Import Prelude.
Open Scope list_scope.
Open Scope Z_scope.

Record stm_copy := mkCopy { sc_reference : Z; sc_msg : list Z; sc_version : nat }.
#[export] Instance eta_stm_copy : Eta stm_copy := λ r, mkCopy (sc_reference r) (sc_msg r) (sc_version r).

(** [rw_mutex]: held by one writer, or by a number of readers *)
Record stm_object := mkObject { rw_writer : bool; rw_readers : Z; so_reference : Z; so_copy : option Z }.
#[export] Instance eta_stm_object : Eta stm_object := λ r, mkObject (rw_writer r) (rw_readers r) (so_reference r) (so_copy r).

(** where the service with the writer is *)
Inductive writer_pc :=
  | WIdle
  | WGLock | WGInc | WGUnlock                         (* l_copy: stm_grab *)
  | WULock (c : Z) | WUSwap (c : Z) | WURel (old : option Z) | WUDel (c : Z) | WUUnlock   (* l_update: stm_update *)
  | WRAssert | WRLock | WRRel | WRDel (c : Z) | WRNull | WRDec | WRDelObj | WRUnlock      (* l_delete_writer: stm_release *)
  | WGone.

(** where a service with a reader is *)
Inductive reader_pc :=
  | RToken                                            (* the pointer of l_copy is on its way *)
  | RIdle
  | CLock | CLoad | CInc (c : Z) | CUnlock (ret : option Z)                  (* l_read: stm_copy *)
  | RTest (copy : option Z)                           (* copy == box->lastcopy *)
  | RSame (copy : option Z) | RSameDel (c : Z)        (* stm_releasecopy(copy) *)
  | ROld (copy : option Z) | ROldDel (c : Z) (copy : option Z)              (* stm_releasecopy(box->lastcopy) *)
  | RTake (copy : option Z)                           (* box->lastcopy = copy, and the call of the function *)
  | DLock | DDec | DDelObj | DUnlock | DRel | DDel (c : Z)                   (* l_delete_reader *)
  | RGone.

(** [boxreader], and what its calls of [l_read] returned: [false], or the message given to the function *)
Record reader := mkReader { r_pc : reader_pc; lastcopy : option Z; r_out : list (option (list Z)) }.

Record stm := mkStm {
  st_obj : option stm_object;
  st_copies : gmap Z stm_copy;
  st_writer : writer_pc;
  st_readers : list reader;
  published : list (list Z);
  late_unlocks : Z
}.
#[export] Instance eta_stm : Eta stm := λ r,
  mkStm (st_obj r) (st_copies r) (st_writer r) (st_readers r) (published r) (late_unlocks r).

(** ** Memory and the lock *)

Definition stm_newcopy (msg : list Z) (version : nat) : stm_copy := mkCopy 1 msg version.

(** [stm_new], with the address [a] of the copy *)
Definition stm_new (msg : list Z) (a : Z) : stm :=
  mkStm (Some (mkObject false 0 1 (Some a))) {[ a := stm_newcopy msg 0 ]} WIdle [] [msg] 0.

Definition get_obj (s : stm) : result stm_object := match st_obj s with Some o => Ok o | None => Err UseAfterFree end.
Definition set_obj (s : stm) (o : stm_object) : stm := s <| st_obj := Some o |>.

Definition lock_shared (s : stm) : result stm :=
  o <- get_obj s;;
  if rw_writer o then Err Blocked else Ok (set_obj s (o <| rw_readers := rw_readers o + 1 |>)).
Definition unlock_shared (s : stm) : stm :=
  match st_obj s with
  | Some o => set_obj s (o <| rw_readers := rw_readers o - 1 |>)
  | None => s <| late_unlocks := late_unlocks s + 1 |>
  end.
Definition lock_unique (s : stm) : result stm :=
  o <- get_obj s;;
  if rw_writer o || (0 <? rw_readers o) then Err Blocked else Ok (set_obj s (o <| rw_writer := true |>)).
Definition unlock_unique (s : stm) : stm :=
  match st_obj s with
  | Some o => set_obj s (o <| rw_writer := false |>)
  | None => s <| late_unlocks := late_unlocks s + 1 |>
  end.

(** [obj->reference += d], with the value before *)
Definition obj_add (s : stm) (d : Z) : result (Z * stm) :=
  o <- get_obj s;;
  Ok (so_reference o, set_obj s (o <| so_reference := so_reference o + d |>)).
Definition delete_obj (s : stm) : result stm := o <- get_obj s;; Ok (s <| st_obj := None |>).

(** [copy->reference += d], with the value before *)
Definition copy_add (s : stm) (c d : Z) : result (Z * stm) :=
  match st_copies s !! c with
  | Some k => Ok (sc_reference k, s <| st_copies := <[c := k <| sc_reference := sc_reference k + d |>]> (st_copies s) |>)
  | None => Err UseAfterFree
  end.
Definition delete_copy (s : stm) (c : Z) : result stm :=
  match st_copies s !! c with
  | Some _ => Ok (s <| st_copies := delete c (st_copies s) |>)
  | None => Err DoubleFree
  end.

(** [stm_releasecopy] up to the test: the copy to delete, if this was its last user *)
Definition stm_releasecopy (s : stm) (copy : option Z) : result (option Z * stm) :=
  match copy with
  | None => Ok (None, s)
  | Some c => let* (old, s) := copy_add s c (-1) in Ok (if old <=? 1 then Some c else None, s)
  end.

(** ** The writer *)

(** a message comes with the address that [new] returns for its copy *)
Inductive writer_call := Grab | Update (msg : list Z) (a : Z) | Release.

Definition set_wpc (s : stm) (pc : writer_pc) : stm := s <| st_writer := pc |>.

Definition stm_grab (s : stm) : result stm :=
  match st_writer s with
  | WGLock => s <- lock_shared s;; Ok (set_wpc s WGInc)
  | WGInc =>
      let* (ref, s) := obj_add s 1 in
      massert (0 <? ref);;;
      Ok (set_wpc (s <| st_readers := st_readers s ++ [mkReader RToken None []] |>) WGUnlock)
  | WGUnlock => Ok (set_wpc (unlock_shared s) WIdle)
  | _ => Err Blocked
  end.

Definition stm_update (s : stm) : result stm :=
  match st_writer s with
  | WULock c => s <- lock_unique s;; Ok (set_wpc s (WUSwap c))
  | WUSwap c =>
      o <- get_obj s;;
      match st_copies s !! c with
      | Some k => Ok (set_wpc (set_obj s (o <| so_copy := Some c |>) <| published := published s ++ [sc_msg k] |>) (WURel (so_copy o)))
      | None => Err UseAfterFree
      end
  | WURel old =>
      let* (del, s) := stm_releasecopy s old in
      Ok (set_wpc s (match del with Some c => WUDel c | None => WUUnlock end))
  | WUDel c => s <- delete_copy s c;; Ok (set_wpc s WUUnlock)
  | WUUnlock => Ok (set_wpc (unlock_unique s) WIdle)
  | _ => Err Blocked
  end.

Definition stm_release (s : stm) : result stm :=
  match st_writer s with
  | WRAssert => o <- get_obj s;; massert (bool_decide (so_copy o ≠ None));;; Ok (set_wpc s WRLock)
  | WRLock => s <- lock_unique s;; Ok (set_wpc s WRRel)
  | WRRel =>
      o <- get_obj s;;
      let* (del, s) := stm_releasecopy s (so_copy o) in
      Ok (set_wpc s (match del with Some c => WRDel c | None => WRNull end))
  | WRDel c => s <- delete_copy s c;; Ok (set_wpc s WRNull)
  | WRNull => o <- get_obj s;; Ok (set_wpc (set_obj s (o <| so_copy := None |>)) WRDec)
  | WRDec =>
      let* (old, s) := obj_add s (-1) in
      Ok (set_wpc s (if 1 <? old then WRUnlock else WRDelObj))
  | WRDelObj => s <- delete_obj s;; Ok (set_wpc s WRUnlock)
  | WRUnlock => Ok (set_wpc (unlock_unique s) WGone)
  | _ => Err Blocked
  end.

(** [l_copy], [l_update], [l_delete_writer]: a message is a string of Lua or a block that the
    caller hands over *)
Definition writer_start (s : stm) (call : writer_call) : result stm :=
  match call with
  | Grab => Ok (set_wpc s WGLock)
  | Update msg a =>
      match st_copies s !! a with
      | Some _ => Err Blocked
      | None => Ok (set_wpc (s <| st_copies := <[a := stm_newcopy msg (length (published s))]> (st_copies s) |>) (WULock a))
      end
  | Release => Ok (set_wpc s WRAssert)
  end.

Definition writer_step (s : stm) (call : writer_call) : result stm :=
  match st_writer s with
  | WIdle => writer_start s call
  | WGLock | WGInc | WGUnlock => stm_grab s
  | WULock _ | WUSwap _ | WURel _ | WUDel _ | WUUnlock => stm_update s
  | WRAssert | WRLock | WRRel | WRDel _ | WRNull | WRDec | WRDelObj | WRUnlock => stm_release s
  | WGone => Err Blocked
  end.

(** ** The readers *)

Inductive reader_call := Read | Close.

Definition set_reader (s : stm) (i : nat) (r : reader) : stm := s <| st_readers := <[i := r]> (st_readers s) |>.

(** [stm_copy(obj)], with the copy that it returns *)
Definition stm_copy_call (s : stm) (i : nat) (r : reader) : result stm :=
  let '(mkReader pc last out) := r in
  match pc with
  | CLock => s <- lock_shared s;; Ok (set_reader s i (mkReader CLoad last out))
  | CLoad =>
      o <- get_obj s;;
      Ok (set_reader s i (mkReader (match so_copy o with Some c => CInc c | None => CUnlock None end) last out))
  | CInc c =>
      let* (ref, s) := copy_add s c 1 in
      massert (0 <? ref);;;
      Ok (set_reader s i (mkReader (CUnlock (Some c)) last out))
  | CUnlock ret => Ok (set_reader (unlock_shared s) i (mkReader (RTest ret) last out))
  | _ => Err Blocked
  end.

(** [l_read] after the call of [stm_copy] *)
Definition l_read (s : stm) (i : nat) (r : reader) : result stm :=
  let '(mkReader pc last out) := r in
  match pc with
  | RTest copy => Ok (set_reader s i (mkReader (if decide (copy = last) then RSame copy else ROld copy) last out))
  | RSame copy =>
      let* (del, s) := stm_releasecopy s copy in
      Ok (set_reader s i (match del with
                          | Some c => mkReader (RSameDel c) last out
                          | None => mkReader RIdle last (out ++ [None])
                          end))
  | RSameDel c => s <- delete_copy s c;; Ok (set_reader s i (mkReader RIdle last (out ++ [None])))
  | ROld copy =>
      let* (del, s) := stm_releasecopy s last in
      Ok (set_reader s i (mkReader (match del with Some c => ROldDel c copy | None => RTake copy end) last out))
  | ROldDel c copy => s <- delete_copy s c;; Ok (set_reader s i (mkReader (RTake copy) last out))
  | RTake copy =>
      match copy with
      | None => Ok (set_reader s i (mkReader RIdle None (out ++ [None])))
      | Some c =>
          match st_copies s !! c with
          | Some k => Ok (set_reader s i (mkReader RIdle (Some c) (out ++ [Some (sc_msg k)])))
          | None => Err UseAfterFree
          end
      end
  | _ => Err Blocked
  end.

Definition stm_releasereader (s : stm) (i : nat) (r : reader) : result stm :=
  let '(mkReader pc last out) := r in
  match pc with
  | DLock => s <- lock_shared s;; Ok (set_reader s i (mkReader DDec last out))
  | DDec =>
      o <- get_obj s;;
      let* (old, s) := obj_add s (-1) in
      if old =? 1 then
        massert (bool_decide (so_copy o = None));;;
        Ok (set_reader s i (mkReader DDelObj last out))
      else Ok (set_reader s i (mkReader DUnlock last out))
  | DDelObj => s <- delete_obj s;; Ok (set_reader s i (mkReader DUnlock last out))
  | DUnlock => Ok (set_reader (unlock_shared s) i (mkReader DRel last out))
  | _ => Err Blocked
  end.

(** [l_delete_reader] after the call of [stm_releasereader] *)
Definition l_delete_reader (s : stm) (i : nat) (r : reader) : result stm :=
  let '(mkReader pc last out) := r in
  match pc with
  | DRel =>
      let* (del, s) := stm_releasecopy s last in
      Ok (set_reader s i (mkReader (match del with Some c => DDel c | None => RGone end) None out))
  | DDel c => s <- delete_copy s c;; Ok (set_reader s i (mkReader RGone None out))
  | _ => Err Blocked
  end.

Definition l_new_reader (s : stm) (i : nat) (r : reader) : result stm := Ok (set_reader s i (mkReader RIdle None (r_out r))).

Definition reader_step (s : stm) (i : nat) (call : reader_call) : result stm :=
  match st_readers s !! i with
  | None => Err Blocked
  | Some r =>
      match r_pc r with
      | RToken => l_new_reader s i r
      | RIdle => Ok (set_reader s i (mkReader (match call with Read => CLock | Close => DLock end) (lastcopy r) (r_out r)))
      | CLock | CLoad | CInc _ | CUnlock _ => stm_copy_call s i r
      | RTest _ | RSame _ | RSameDel _ | ROld _ | ROldDel _ _ | RTake _ => l_read s i r
      | DLock | DDec | DDelObj | DUnlock => stm_releasereader s i r
      | DRel | DDel _ => l_delete_reader s i r
      | RGone => Err Blocked
      end
  end.

Inductive stm_action := AWriter (call : writer_call) | AReader (i : nat) (call : reader_call).

Definition stm_step (s : stm) (a : stm_action) : result stm :=
  match a with AWriter call => writer_step s call | AReader i call => reader_step s i call end.

Fixpoint stm_run (s : stm) (acts : list stm_action) : result stm :=
  match acts with
  | [] => Ok s
  | a :: acts => s <- stm_step s a;; stm_run s acts
  end.
