(* ===== verification/StmProof.v ===== *)
(** * Shared messages: counting, deletion and what the readers get

    The counters of copies and of the object are exact in every interleaving; nothing is used
    or deleted after it is gone; and the whole is an atomic register whose readers see each
    new message once. *)
From S2P Require Import Prelude Stm.
Open Scope list_scope.
Open Scope Z_scope.

(** ** Who uses what *)

(** the address [o] points to [c] *)
Definition points (o : option Z) (c : Z) : Z := match o with Some d => b2z (d =? c) | None => 0 end.

(** the references to the copy [c] that a reader has to give back, and whether it deletes [c] *)
Definition pc_holds (pc : reader_pc) (c : Z) : Z :=
  match pc with
  | CUnlock o | RTest o | RSame o | ROld o | ROldDel _ o | RTake o => points o c
  | _ => 0
  end.
Definition last_live (pc : reader_pc) : bool := match pc with RToken | ROldDel _ _ | RTake _ | DDel _ | RGone => false | _ => true end.
Definition r_holds (c : Z) (r : reader) : Z :=
  pc_holds (r_pc r) c + (if last_live (r_pc r) then points (lastcopy r) c else 0).
Definition r_dels (c : Z) (r : reader) : Z :=
  match r_pc r with RSameDel d | ROldDel d _ | DDel d => b2z (d =? c) | _ => 0 end.

(** the references to the object, the deletion of the object and the shared lock *)
Definition r_obj (r : reader) : Z := match r_pc r with DDelObj | DUnlock | DRel | DDel _ | RGone => 0 | _ => 1 end.
Definition r_objdel (r : reader) : Z := match r_pc r with DDelObj => 1 | _ => 0 end.
Definition r_shared (r : reader) : Z :=
  match r_pc r with CLoad | CInc _ | CUnlock _ | DDec | DDelObj | DUnlock => 1 | _ => 0 end.

Definition w_holds (c : Z) (pc : writer_pc) : Z :=
  match pc with WULock d | WUSwap d => b2z (d =? c) | WURel o => points o c | _ => 0 end.
Definition w_dels (c : Z) (pc : writer_pc) : Z := match pc with WUDel d | WRDel d => b2z (d =? c) | _ => 0 end.
(** the object's own reference to its copy; it is given back before the pointer is cleared *)
Definition w_owns (pc : writer_pc) : bool := match pc with WRDel _ | WRNull => false | _ => true end.
Definition w_obj (pc : writer_pc) : Z := match pc with WRDelObj | WRUnlock | WGone => 0 | _ => 1 end.
Definition w_objdel (pc : writer_pc) : Z := match pc with WRDelObj => 1 | _ => 0 end.
Definition w_shared (pc : writer_pc) : Z := match pc with WGInc | WGUnlock => 1 | _ => 0 end.
Definition w_unique (pc : writer_pc) : bool :=
  match pc with WUSwap _ | WURel _ | WUDel _ | WUUnlock | WRRel | WRDel _ | WRNull | WRDec | WRDelObj | WRUnlock => true | _ => false end.
(** the object still points to a copy *)
Definition w_open (pc : writer_pc) : bool := match pc with WRDec | WRDelObj | WRUnlock | WGone => false | _ => true end.

Fixpoint total (f : reader → Z) (rs : list reader) : Z := match rs with [] => 0 | r :: rs => f r + total f rs end.

Definition obj_holds (s : stm) (c : Z) : Z :=
  match st_obj s with Some o => if w_owns (st_writer s) then points (so_copy o) c else 0 | None => 0 end.
Definition refs (s : stm) (c : Z) : Z := obj_holds s c + w_holds c (st_writer s) + total (r_holds c) (st_readers s).
Definition dels (s : stm) (c : Z) : Z := w_dels c (st_writer s) + total (r_dels c) (st_readers s).
Definition obj_refs (s : stm) : Z := w_obj (st_writer s) + total r_obj (st_readers s).
Definition obj_dels (s : stm) : Z := w_objdel (st_writer s) + total r_objdel (st_readers s).
Definition shared (s : stm) : Z := w_shared (st_writer s) + total r_shared (st_readers s).

(** the copy the writer has made and not yet published *)
Definition unpublished (pc : writer_pc) (c : Z) : bool := match pc with WULock d | WUSwap d => d =? c | _ => false end.

Record stm_inv (s : stm) : Prop := {
  (** a copy in memory has exactly its users, and somebody deletes it when there are none *)
  i_copies c : match st_copies s !! c with
               | Some k => sc_reference k = refs s c ∧ dels s c = b2z (refs s c =? 0)
               | None => refs s c = 0 ∧ dels s c = 0
               end;
  i_obj : match st_obj s with
          | Some o => so_reference o = obj_refs s ∧ obj_dels s = b2z (obj_refs s =? 0) ∧
                      rw_readers o = shared s ∧ rw_writer o = w_unique (st_writer s) ∧
                      (w_unique (st_writer s) = true → shared s = 0) ∧
                      (so_copy o = None ↔ w_open (st_writer s) = false)
          | None => obj_refs s = 0 ∧ obj_dels s = 0
          end;
  i_load i r c o : st_readers s !! i = Some r → r_pc r = CInc c → st_obj s = Some o → so_copy o = Some c;
  (** copies hold different messages, and the current one holds the last *)
  i_version c k : st_copies s !! c = Some k →
    if unpublished (st_writer s) c then sc_version k = length (published s)
    else published s !! sc_version k = Some (sc_msg k);
  i_distinct c d k l : st_copies s !! c = Some k → st_copies s !! d = Some l → sc_version k = sc_version l → c = d;
  i_current o c k : st_obj s = Some o → so_copy o = Some c → w_owns (st_writer s) = true → st_copies s !! c = Some k →
    S (sc_version k) = length (published s)
}.

Section totals.
Context (f : reader → Z).
Lemma total_insert rs i r r' : rs !! i = Some r → total f (<[i := r']> rs) = total f rs - f r + f r'.
Proof.
  revert i. induction rs as [|x rs IH]; intros [|i]; [done|done| |]; simpl; [intros [= ->]; lia|].
  intros Hi. rewrite (IH _ Hi). lia.
Qed.
Lemma total_app rs rs' : total f (rs ++ rs') = total f rs + total f rs'.
Proof. induction rs; simpl; lia. Qed.
Lemma total_nonneg rs : (∀ r, 0 <= f r) → 0 <= total f rs.
Proof. intros Hf. induction rs as [|r rs IH]; simpl; [done|]. specialize (Hf r). lia. Qed.
Lemma total_ge rs i r : (∀ r, 0 <= f r) → rs !! i = Some r → f r <= total f rs.
Proof.
  intros Hf. revert i. induction rs as [|x rs IH]; intros [|i]; [done|done| |]; simpl.
  - intros [= ->]. pose proof (total_nonneg rs Hf). lia.
  - intros Hi. specialize (IH i Hi). specialize (Hf x). lia.
Qed.
End totals.

Lemma points_nonneg o c : 0 <= points o c.
Proof. destruct o as [d|]; simpl; [destruct (d =? c); simpl; lia|done]. Qed.
Lemma points_self c : points (Some c) c = 1.
Proof. simpl. by rewrite Z.eqb_refl. Qed.
Lemma pc_holds_nonneg pc c : 0 <= pc_holds pc c.
Proof. destruct pc; simpl; try done; apply points_nonneg. Qed.
Lemma r_holds_nonneg c r : 0 <= r_holds c r.
Proof.
  unfold r_holds. pose proof (points_nonneg (lastcopy r) c). pose proof (pc_holds_nonneg (r_pc r) c). destruct (last_live _); lia.
Qed.
Lemma r_dels_nonneg c r : 0 <= r_dels c r.
Proof. unfold r_dels. destruct (r_pc r); try done; destruct (_ =? c); done. Qed.
Lemma r_obj_nonneg r : 0 <= r_obj r.
Proof. unfold r_obj. by destruct (r_pc r). Qed.
Lemma r_objdel_nonneg r : 0 <= r_objdel r.
Proof. unfold r_objdel. by destruct (r_pc r). Qed.
Lemma r_shared_nonneg r : 0 <= r_shared r.
Proof. unfold r_shared. by destruct (r_pc r). Qed.
#[export] Hint Resolve points_nonneg r_holds_nonneg r_dels_nonneg r_obj_nonneg r_objdel_nonneg r_shared_nonneg : skynet.

Lemma obj_holds_nonneg s c : 0 <= obj_holds s c.
Proof. unfold obj_holds. destruct (st_obj s); [|done]. destruct (w_owns _); [apply points_nonneg|done]. Qed.
Lemma w_holds_nonneg c pc : 0 <= w_holds c pc.
Proof. destruct pc as [| | | |d|d|o|d| | | | |d| | | | |]; simpl; try done; [by destruct (d =? c)..|apply points_nonneg]. Qed.
Lemma w_dels_nonneg c pc : 0 <= w_dels c pc.
Proof. destruct pc as [| | | |d|d|o|d| | | | |d| | | | |]; simpl; try done; by destruct (d =? c). Qed.
#[export] Hint Resolve obj_holds_nonneg w_holds_nonneg w_dels_nonneg : skynet.

Section facts.
Context (s : stm) (Hinv : stm_inv s).

Lemma reader_refs i r c : st_readers s !! i = Some r → r_holds c r <= refs s c.
Proof.
  intros Hr. pose proof (total_ge (r_holds c) _ i r ltac:(auto with skynet) Hr).
  pose proof (obj_holds_nonneg s c). pose proof (w_holds_nonneg c (st_writer s)). unfold refs. lia.
Qed.
Lemma reader_dels i r c : st_readers s !! i = Some r → r_dels c r <= dels s c.
Proof.
  intros Hr. pose proof (total_ge (r_dels c) _ i r ltac:(auto with skynet) Hr). pose proof (w_dels_nonneg c (st_writer s)). unfold dels. lia.
Qed.
Lemma writer_refs c : obj_holds s c + w_holds c (st_writer s) <= refs s c.
Proof. pose proof (total_nonneg (r_holds c) (st_readers s) ltac:(auto with skynet)). unfold refs. lia. Qed.
Lemma writer_dels c : w_dels c (st_writer s) <= dels s c.
Proof. pose proof (total_nonneg (r_dels c) (st_readers s) ltac:(auto with skynet)). unfold dels. lia. Qed.

(** what is held is in memory, and so is what is about to be deleted *)
Lemma held_live c : 0 < refs s c → ∃ k, st_copies s !! c = Some k ∧ sc_reference k = refs s c ∧ dels s c = 0.
Proof.
  intros Hc. pose proof (i_copies s Hinv c) as H. destruct (st_copies s !! c) as [k|]; [|lia].
  exists k. destruct H as [? Hd]. rewrite Hd, (proj2 (Z.eqb_neq _ _)) by lia. done.
Qed.
Lemma deleted_live c : 0 < dels s c → ∃ k, st_copies s !! c = Some k ∧ sc_reference k = 0 ∧ refs s c = 0 ∧ dels s c = 1.
Proof.
  intros Hc. pose proof (i_copies s Hinv c) as H. destruct (st_copies s !! c) as [k|]; [|lia].
  exists k. destruct H as [? Hd]. destruct (Z.eqb_spec (refs s c) 0); simpl in Hd; [|lia]. split_and!; [done|lia|lia|lia].
Qed.
Lemma object_live : 0 < obj_refs s + obj_dels s → ∃ o, st_obj s = Some o.
Proof. intros Ho. pose proof (i_obj s Hinv) as H. destruct (st_obj s) as [o|]; [by exists o|lia]. Qed.
Lemma reader_object i r : st_readers s !! i = Some r → 0 < r_obj r + r_objdel r → ∃ o, st_obj s = Some o.
Proof.
  intros Hr Ho. apply object_live. unfold obj_refs, obj_dels.
  pose proof (total_ge r_obj _ i r ltac:(auto with skynet) Hr). pose proof (total_ge r_objdel _ i r ltac:(auto with skynet) Hr).
  destruct (st_writer s); simpl; lia.
Qed.
Lemma writer_object : 0 < w_obj (st_writer s) + w_objdel (st_writer s) → ∃ o, st_obj s = Some o.
Proof.
  intros Ho. apply object_live. unfold obj_refs, obj_dels.
  pose proof (total_nonneg r_obj (st_readers s) ltac:(auto with skynet)). pose proof (total_nonneg r_objdel (st_readers s) ltac:(auto with skynet)). lia.
Qed.
End facts.

(** ** One reader goes on *)

(** what happens to a copy, and to the object, when a reader goes from [r] to [r'] *)
Definition copy_change (c : Z) (r r' : reader) (k k' : option stm_copy) : Prop :=
  match k, k' with
  | Some k, Some k' => sc_reference k' = sc_reference k - r_holds c r + r_holds c r' ∧
      sc_version k' = sc_version k ∧ sc_msg k' = sc_msg k ∧
      r_dels c r' - r_dels c r = b2z (sc_reference k' =? 0) - b2z (sc_reference k =? 0)
  | Some k, None => sc_reference k = 0 ∧ r_holds c r' = r_holds c r ∧ r_dels c r = 1 ∧ r_dels c r' = 0
  | None, None => r_holds c r' = r_holds c r ∧ r_dels c r' = r_dels c r
  | None, Some _ => False
  end.
Definition object_change (r r' : reader) (o o' : option stm_object) : Prop :=
  match o, o' with
  | Some o, Some o' => so_copy o' = so_copy o ∧ rw_writer o' = rw_writer o ∧
      rw_readers o' = rw_readers o - r_shared r + r_shared r' ∧
      so_reference o' = so_reference o - r_obj r + r_obj r' ∧
      r_objdel r' - r_objdel r = b2z (so_reference o' =? 0) - b2z (so_reference o =? 0) ∧
      (rw_writer o = true → r_shared r' <= r_shared r)
  | Some o, None => so_reference o = 0 ∧ r_obj r' = r_obj r ∧ r_objdel r = 1 ∧ r_objdel r' = 0
  | None, None => r_obj r' = r_obj r ∧ r_objdel r' = r_objdel r
  | None, Some _ => False
  end.

Lemma reader_move s s' i r r' : stm_inv s → st_readers s !! i = Some r →
  st_writer s' = st_writer s → st_readers s' = <[i := r']> (st_readers s) → published s' = published s →
  (∀ c, copy_change c r r' (st_copies s !! c) (st_copies s' !! c)) → object_change r r' (st_obj s) (st_obj s') →
  (∀ c, r_pc r' = CInc c → ∃ o, st_obj s = Some o ∧ so_copy o = Some c) →
  stm_inv s'.
Proof.
  intros Hinv Hr Hw Hrs Hp Hc Ho Hl. unfold copy_change in Hc. unfold object_change in Ho.
  assert (Hcopy : ∀ o o', st_obj s = Some o → st_obj s' = Some o' → so_copy o' = so_copy o) by (intros o o' E E'; rewrite E, E' in Ho; tauto).
  assert (Hgone : st_obj s = None → st_obj s' = None) by (intros E; rewrite E in Ho; by destruct (st_obj s')).
  assert (Hshare : ∀ f, total f (st_readers s') = total f (st_readers s) - f r + f r') by (intros f; by rewrite Hrs, (total_insert _ _ i r)).
  assert (Hclosed : st_obj s' = None → ∀ c, obj_holds s c = 0).
  { intros E' c. unfold obj_holds. rewrite E' in Ho. destruct (st_obj s) as [o|] eqn:E; [|done].
    pose proof (i_obj s Hinv) as H. rewrite E in H. destruct H as (Href & _ & _ & _ & _ & Hopen).
    assert (obj_refs s = 0) by lia. assert (w_open (st_writer s) = false).
    { unfold obj_refs in *. pose proof (total_nonneg r_obj (st_readers s) ltac:(auto with skynet)). destruct (st_writer s); simpl in *; try done; lia. }
    rewrite (proj2 Hopen) by done. by destruct (w_owns _). }
  assert (Hobj : ∀ c, obj_holds s' c = obj_holds s c).
  { intros c. destruct (st_obj s') as [o'|] eqn:E'; [|unfold obj_holds at 1; rewrite E'; by rewrite Hclosed].
    unfold obj_holds. rewrite E', Hw. destruct (st_obj s) as [o|] eqn:E; [by rewrite (Hcopy o o')|done]. }
  assert (Hback : ∀ c k', st_copies s' !! c = Some k' → ∃ k, st_copies s !! c = Some k ∧ sc_version k' = sc_version k ∧ sc_msg k' = sc_msg k).
  { intros c k' E'. specialize (Hc c). rewrite E' in Hc. destruct (st_copies s !! c) as [k|]; [exists k; tauto|done]. }
  split.
  - intros c. specialize (Hc c). pose proof (i_copies s Hinv c) as H. unfold refs, dels in *. rewrite Hobj, Hw, !Hshare.
    destruct (st_copies s !! c) as [k|], (st_copies s' !! c) as [k'|]; [| |done|lia].
    2:{ destruct Hc as (Hc & ? & ? & ?), H as [H Hd]. rewrite <- H, Hc in Hd. simpl in Hd. lia. }
    split; [lia|]. destruct Hc as (Hc & _ & _ & Hd), H as (H & Hd').
    replace (obj_holds s c + w_holds c (st_writer s) + (total (r_holds c) (st_readers s) - r_holds c r + r_holds c r')) with (sc_reference k') by lia.
    rewrite <- H in Hd'. lia.
  - pose proof (i_obj s Hinv) as H. unfold obj_refs, obj_dels, shared in *. rewrite Hw, !Hshare.
    destruct (st_obj s) as [o|], (st_obj s') as [o'|]; [| |done|lia].
    2:{ destruct Ho as (Ho & ? & ? & ?), H as (H & Hd & _). rewrite <- H, Ho in Hd. simpl in Hd. lia. }
    destruct Ho as (Hco & Hwr & Hsh & Href & Hdel & Hex), H as (Hr1 & Hd1 & Hs1 & Hw1 & He1 & Hop1). rewrite Hco, Hwr.
    split_and!; [lia| |lia|done| |done].
    + replace (w_obj (st_writer s) + (total r_obj (st_readers s) - r_obj r + r_obj r')) with (so_reference o') by lia. rewrite <- Hr1 in Hd1. lia.
    + intros Hu. specialize (He1 Hu). rewrite Hw1 in Hex. specialize (Hex Hu).
      pose proof (total_nonneg r_shared (st_readers s') ltac:(auto with skynet)) as Hn. rewrite Hshare in Hn. destruct (st_writer s); simpl in *; lia.
  - intros j rj c o' Hj Hpc Ho'. destruct (st_obj s) as [o|] eqn:E; [|by rewrite (Hgone eq_refl) in Ho'].
    rewrite (Hcopy o o') by done. rewrite Hrs in Hj. destruct (decide (i = j)) as [->|Hne].
    + rewrite list_lookup_insert_eq in Hj by (by eapply lookup_lt_Some). injection Hj as <-. destruct (Hl c Hpc) as (o1 & [= ->] & H1). done.
    + rewrite list_lookup_insert_ne in Hj by done. by eapply (i_load s Hinv).
  - intros c k' (k & Hk & -> & ->)%Hback. rewrite Hw, Hp. by apply (i_version s Hinv).
  - intros c d k l (k0 & Hk & -> & _)%Hback (l0 & Hl0 & -> & _)%Hback. by apply (i_distinct s Hinv).
  - intros o' c k' Ho' Hco' Hown (k & Hk & -> & _)%Hback. rewrite Hp, Hw in *. destruct (st_obj s) as [o|] eqn:E; [|by rewrite (Hgone eq_refl) in Ho'].
    eapply (i_current s Hinv); [done| |done|done]. by rewrite <- (Hcopy o o').
Qed.

(** what does not change when a reader only moves on: its part in the object *)
Definition same_object (r r' : reader) : Prop :=
  r_obj r' = r_obj r ∧ r_objdel r' = r_objdel r ∧ r_shared r' = r_shared r ∧ ∀ c, r_pc r' ≠ CInc c.
Definition same_copies (r r' : reader) : Prop := ∀ c, r_holds c r' = r_holds c r ∧ r_dels c r' = r_dels c r.

Lemma object_unchanged r r' o : same_object r r' → object_change r r' o o.
Proof. intros (? & ? & ? & _). destruct o; cbn; [|lia]. split_and!; try done; lia. Qed.
Lemma copy_unchanged c r r' k : r_holds c r' = r_holds c r → r_dels c r' = r_dels c r → copy_change c r r' k k.
Proof. intros. destruct k; cbn; [|lia]. split_and!; try done; lia. Qed.
Lemma copies_unchanged r r' (cs : gmap Z stm_copy) : same_copies r r' → ∀ c, copy_change c r r' (cs !! c) (cs !! c).
Proof. intros Hs c. destruct (Hs c). by apply copy_unchanged. Qed.

Section reader.
Context (s : stm) (Hinv : stm_inv s) (i : nat) (r : reader) (Hr : st_readers s !! i = Some r).

Lemma reader_plain r' : same_object r r' → same_copies r r' → stm_inv (set_reader s i r').
Proof.
  intros Ho Hc. eapply (reader_move s _ i r r'); try done; [by apply copies_unchanged|by apply object_unchanged|].
  intros c Hpc. by destruct (proj2 (proj2 (proj2 Ho)) c).
Qed.

Lemma reader_lock r' : 0 < r_obj r → r_shared r = 0 → r_shared r' = 1 → r_obj r' = r_obj r → r_objdel r' = r_objdel r →
  (∀ c, r_pc r' ≠ CInc c) → same_copies r r' →
  match lock_shared s with Ok s1 => stm_inv (set_reader s1 i r') | Err f => f = Blocked end.
Proof.
  intros Hob Hsh Hsh' Ho Hd Hpc Hc. destruct (reader_object s Hinv i r Hr) as [o Hso]; [pose proof (r_objdel_nonneg r); lia|].
  unfold lock_shared, get_obj. rewrite Hso. cbn [rbind]. destruct (rw_writer o) eqn:Hw; [done|].
  eapply (reader_move s _ i r r'); try done; [by apply copies_unchanged| |].
  - cbn. rewrite Hso. cbn. rewrite Hw. split_and!; try done; lia.
  - intros c Hcc. by destruct (Hpc c).
Qed.

Lemma reader_unlock r' : r_shared r = 1 → r_shared r' = 0 → r_obj r' = r_obj r → r_objdel r' = r_objdel r →
  (∀ c, r_pc r' ≠ CInc c) → same_copies r r' → stm_inv (set_reader (unlock_shared s) i r').
Proof.
  intros Hsh Hsh' Ho Hd Hpc Hc. unfold unlock_shared. destruct (st_obj s) as [o|] eqn:Hso.
  all: eapply (reader_move s _ i r r'); try done; [by apply copies_unchanged| |intros c Hcc; by destruct (Hpc c)].
  - cbn. rewrite Hso. cbn. split_and!; try done; lia.
  - cbn. rewrite Hso. cbn. lia.
Qed.

(** the last user of a copy is the one who deletes it *)
Lemma reader_release o (r' : option Z → reader) :
  (∀ del c, r_holds c (r' del) = r_holds c r - points o c) → (∀ c, r_dels c r = 0) → (∀ del c, r_dels c (r' del) = points del c) →
  (∀ del, same_object r (r' del)) →
  ∃ del s1, stm_releasecopy s o = Ok (del, s1) ∧ stm_inv (set_reader s1 i (r' del)).
Proof.
  intros Hh Hd Hd' Ho. destruct o as [a|]; cbn [stm_releasecopy].
  - assert (Ha : 0 < refs s a).
    { pose proof (reader_refs s i r a Hr). pose proof (r_holds_nonneg a (r' None)) as Hn. rewrite Hh in Hn. rewrite points_self in Hn. lia. }
    destruct (held_live s Hinv a Ha) as (k & Hk & Href & _). unfold copy_add. rewrite Hk. cbn.
    eexists _, _. split; [done|]. set (del := if sc_reference k <=? 1 then Some a else None).
    eapply (reader_move s _ i r (r' del)); try done; [|by apply object_unchanged|intros c Hcc; by destruct (proj2 (proj2 (proj2 (Ho del))) c)].
    intros c. cbn [set_reader set_to st_copies]. destruct (decide (a = c)) as [<-|Hne].
    + rewrite Hk, lookup_insert_eq. cbn. rewrite Hh, Hd, Hd'. cbn. rewrite Z.eqb_refl. cbn. split_and!; try done; [lia|]. subst del.
      destruct (Z.leb_spec (sc_reference k) 1); cbn [points]; rewrite ?Z.eqb_refl; zbool.
    + rewrite lookup_insert_ne by done. assert (Hp : points (Some a) c = 0) by (cbn; by rewrite (proj2 (Z.eqb_neq a c))).
      apply copy_unchanged; rewrite ?Hh, ?Hd', ?Hd, ?Hp; [lia|]. subst del. by destruct (_ <=? _).
  - exists None, s. split; [done|]. apply reader_plain; [done|]. intros c. rewrite Hh, Hd, Hd'. cbn. lia.
Qed.

Lemma reader_delete a r' : (∀ c, r_dels c r = points (Some a) c) → (∀ c, r_dels c r' = 0) → (∀ c, r_holds c r' = r_holds c r) →
  same_object r r' → ∃ s1, delete_copy s a = Ok s1 ∧ stm_inv (set_reader s1 i r').
Proof.
  intros Hd Hd' Hh Ho. pose proof (reader_dels s i r a Hr) as Hle. rewrite Hd, points_self in Hle.
  destruct (deleted_live s Hinv a) as (k & Hk & Href & Hz & _); [lia|]. unfold delete_copy. rewrite Hk. eexists. split; [done|].
  eapply (reader_move s _ i r r'); try done; [|by apply object_unchanged|intros c Hcc; by destruct (proj2 (proj2 (proj2 Ho)) c)].
  intros c. cbn [set_reader set_to st_copies]. destruct (decide (a = c)) as [<-|Hne].
  - rewrite Hk, lookup_delete_eq. cbn. by rewrite Hh, Hd', Hd, points_self.
  - rewrite lookup_delete_ne by done. apply copy_unchanged; rewrite ?Hh, ?Hd', ?Hd; [done|]. cbn. by rewrite (proj2 (Z.eqb_neq a c)).
Qed.
End reader.

(** a copy that was read under the lock is still the current one *)
Lemma loaded_live s (Hinv : stm_inv s) i r (Hr : st_readers s !! i = Some r) c : r_pc r = CInc c →
  ∃ k, st_copies s !! c = Some k ∧ 0 < sc_reference k.
Proof.
  intros Hpc. destruct (reader_object s Hinv i r Hr) as [o Hso]; [unfold r_obj, r_objdel; by rewrite Hpc|].
  pose proof (i_load s Hinv i r c o Hr Hpc Hso) as Hco. pose proof (i_obj s Hinv) as H. rewrite Hso in H. destruct H as (_ & _ & _ & _ & Hex & _).
  assert (Hown : w_owns (st_writer s) = true).
  { assert (Hs : 0 < shared s).
    { unfold shared. pose proof (total_ge r_shared _ i r ltac:(auto with skynet) Hr) as Hge. unfold r_shared at 1 in Hge. rewrite Hpc in Hge.
      destruct (st_writer s); simpl; lia. }
    destruct (st_writer s); try done; simpl in Hex; specialize (Hex eq_refl); lia. }
  destruct (held_live s Hinv c) as (k & Hk & Href & _).
  - pose proof (writer_refs s c) as Hle. unfold obj_holds in Hle. rewrite Hso, Hown, Hco, points_self in Hle. pose proof (w_holds_nonneg c (st_writer s)). lia.
  - exists k. split; [done|]. rewrite Href. pose proof (writer_refs s c) as Hle. unfold obj_holds in Hle. rewrite Hso, Hown, Hco, points_self in Hle.
    pose proof (w_holds_nonneg c (st_writer s)). lia.
Qed.

(** the other obligations are computed from the places of the reader *)
Ltac reader_side :=
  repeat match goal with
  | |- same_object _ _ => unfold same_object
  | |- same_copies _ _ => unfold same_copies
  | |- _ ∧ _ => split
  | |- ∀ _, _ => intros ?
  end;
  unfold r_holds, r_dels, r_obj, r_objdel, r_shared in *; cbn -[points] in *;
  repeat match goal with |- context [match ?x with Some _ => _ | None => _ end] => destruct x end; cbn -[points] in *; try done; try lia.

Lemma reader_inc s (Hinv : stm_inv s) i c last out (Hr : st_readers s !! i = Some (mkReader (CInc c) last out)) :
  match (let* (ref, s) := copy_add s c 1 in massert (0 <? ref);;; Ok (set_reader s i (mkReader (CUnlock (Some c)) last out))) with
  | Ok s' => stm_inv s' | Err f => f = Blocked end.
Proof.
  destruct (loaded_live s Hinv i _ Hr c eq_refl) as (k & Hk & Hpos). unfold copy_add. rewrite Hk. cbn [rbind].
  unfold massert. rewrite (proj2 (Z.ltb_lt _ _)) by done. cbn [rbind].
  eapply (reader_move s _ i _ _ Hinv Hr); try done; [|apply object_unchanged; reader_side].
  intros c'. cbn [set_reader set_to st_copies]. destruct (decide (c = c')) as [<-|Hne].
  + rewrite Hk, lookup_insert_eq. cbn. split_and!; try done; [unfold r_holds; cbn; rewrite Z.eqb_refl; cbn; lia|].
    rewrite !(proj2 (Z.eqb_neq _ _)) by lia. done.
  + rewrite lookup_insert_ne by done. apply copy_unchanged; [|done]. unfold r_holds. cbn. by rewrite (proj2 (Z.eqb_neq c c')).
Qed.

Lemma reader_leave s (Hinv : stm_inv s) i last out (Hr : st_readers s !! i = Some (mkReader DDec last out)) :
  match (o <- get_obj s;;
         let* (old, s) := obj_add s (-1) in
         if old =? 1 then massert (bool_decide (so_copy o = None));;; Ok (set_reader s i (mkReader DDelObj last out))
         else Ok (set_reader s i (mkReader DUnlock last out))) with
  | Ok s' => stm_inv s' | Err f => f = Blocked end.
Proof.
  destruct (reader_object s Hinv i _ Hr) as [o Hso]; [done|]. unfold obj_add, get_obj. rewrite Hso. cbn [rbind].
  pose proof (i_obj s Hinv) as H. rewrite Hso in H. destruct H as (Href & _ & _ & _ & _ & Hopen).
  assert (Hpos : 1 + w_obj (st_writer s) <= so_reference o).
  { rewrite Href. unfold obj_refs. pose proof (total_ge r_obj _ i _ ltac:(auto with skynet) Hr) as Hge. unfold r_obj at 1 in Hge. cbn in Hge. lia. }
  destruct (Z.eqb_spec (so_reference o) 1) as [H1|H1].
  + assert (w_open (st_writer s) = false) as Hno%Hopen by (destruct (st_writer s); cbn in *; try done; lia).
    unfold massert. rewrite bool_decide_eq_true_2 by done. cbn [rbind].
    eapply (reader_move s _ i _ _ Hinv Hr); try done; [by intros c'; apply copy_unchanged|].
    cbn. rewrite Hso. cbn. rewrite !H1. unfold r_obj, r_shared; cbn. split_and!; try done; lia.
  + eapply (reader_move s _ i _ _ Hinv Hr); try done; [by intros c'; apply copy_unchanged|].
    cbn. rewrite Hso. cbn. unfold r_obj, r_shared; cbn.
    assert (0 <= w_obj (st_writer s)) by (by destruct (st_writer s)).
    rewrite !(proj2 (Z.eqb_neq _ _)) by lia. split_and!; try done; lia.
Qed.

Lemma reader_delete_object s (Hinv : stm_inv s) i last out (Hr : st_readers s !! i = Some (mkReader DDelObj last out)) :
  match (s <- delete_obj s;; Ok (set_reader s i (mkReader DUnlock last out))) with Ok s' => stm_inv s' | Err f => f = Blocked end.
Proof.
  destruct (reader_object s Hinv i _ Hr) as [o Hso]; [done|]. unfold delete_obj, get_obj. rewrite Hso. cbn [rbind].
  eapply (reader_move s _ i _ _ Hinv Hr); try done; [by intros c'; apply copy_unchanged|].
  cbn. rewrite Hso. cbn. split_and!; try done. pose proof (i_obj s Hinv) as H. rewrite Hso in H. destruct H as (Href & Hdel & _).
  pose proof (total_ge r_objdel _ i _ ltac:(auto with skynet) Hr) as Hge. unfold r_objdel at 1 in Hge. cbn in Hge. unfold obj_dels in Hdel.
  assert (0 <= w_objdel (st_writer s)) by (by destruct (st_writer s)). destruct (Z.eqb_spec (obj_refs s) 0); simpl in Hdel; lia.
Qed.

Lemma reader_step_ok s i call : stm_inv s →
  match reader_step s i call with Ok s' => stm_inv s' | Err f => f = Blocked end.
Proof.
  intros Hinv. unfold reader_step, l_new_reader, stm_copy_call, l_read, stm_releasereader, l_delete_reader. destruct (st_readers s !! i) as [r|] eqn:Hr; [|done]. destruct r as [pc last out].
  destruct pc as [| | | |c|ret|copy|copy|c|copy|c copy|copy| | | | | |c|].
  - apply (reader_plain s Hinv i _ Hr); reader_side.
  - destruct call; apply (reader_plain s Hinv i _ Hr); reader_side.
  - pose proof (reader_lock s Hinv i _ Hr (mkReader CLoad last out)) as H. destruct (lock_shared s); apply H; reader_side.
  - destruct (reader_object s Hinv i _ Hr) as [o Hso]; [done|]. unfold get_obj. rewrite Hso. cbn [rbind].
    destruct (so_copy o) as [c|] eqn:Hc; [|apply (reader_plain s Hinv i _ Hr); reader_side].
    eapply (reader_move s _ i _ _ Hinv Hr); try done; [by intros c'; apply copy_unchanged| |].
    + cbn. rewrite Hso. cbn. split_and!; try done; lia.
    + cbn. intros c' [= <-]. by exists o.
  - by apply (reader_inc s Hinv i c last out Hr).
  - apply (reader_unlock s Hinv i _ Hr); reader_side.
  - apply (reader_plain s Hinv i _ Hr); destruct (decide (copy = last)); reader_side.
  - edestruct (reader_release s Hinv i _ Hr copy (λ del, match del with
      | Some c => mkReader (RSameDel c) last out | None => mkReader RIdle last (out ++ [None]) end)) as (del & s1 & -> & H); [..|exact H]; reader_side.
  - edestruct (reader_delete s Hinv i _ Hr c) as (s1 & -> & H); [..|exact H]; reader_side.
  - edestruct (reader_release s Hinv i _ Hr last (λ del, mkReader (match del with
      | Some c => ROldDel c copy | None => RTake copy end) last out)) as (del & s1 & -> & H); [..|exact H]; reader_side.
  - edestruct (reader_delete s Hinv i _ Hr c) as (s1 & -> & H); [..|exact H]; reader_side.
  - destruct copy as [c|]; [|apply (reader_plain s Hinv i _ Hr); reader_side].
    destruct (held_live s Hinv c) as (k & -> & _).
    { pose proof (reader_refs s i _ c Hr) as H. unfold r_holds in H. cbn -[points] in H. rewrite points_self in H. lia. }
    apply (reader_plain s Hinv i _ Hr); reader_side.
  - pose proof (reader_lock s Hinv i _ Hr (mkReader DDec last out)) as H. destruct (lock_shared s); apply H; reader_side.
  - by apply (reader_leave s Hinv i last out Hr).
  - by apply (reader_delete_object s Hinv i last out Hr).
  - apply (reader_unlock s Hinv i _ Hr); reader_side.
  - edestruct (reader_release s Hinv i _ Hr last (λ del, mkReader (match del with
      | Some c => DDel c | None => RGone end) None out)) as (del & s1 & -> & H); [..|exact H]; reader_side.
  - edestruct (reader_delete s Hinv i _ Hr c) as (s1 & -> & H); [..|exact H]; reader_side.
  - done.
Qed.

(** ** The writer goes on *)

Definition w_copy_change (c h h' d d' : Z) (k k' : option stm_copy) : Prop :=
  match k, k' with
  | Some k, Some k' => sc_reference k' = sc_reference k - h + h' ∧ sc_version k' = sc_version k ∧ sc_msg k' = sc_msg k ∧
      d' - d = b2z (sc_reference k' =? 0) - b2z (sc_reference k =? 0)
  | Some k, None => sc_reference k = 0 ∧ h' = h ∧ d = 1 ∧ d' = 0
  | None, None => h' = h ∧ d' = d
  | None, Some _ => False
  end.
Definition w_object_change (w w' : writer_pc) (new : Z) (o o' : option stm_object) : Prop :=
  match o, o' with
  | Some o, Some o' => rw_readers o' = rw_readers o - w_shared w + w_shared w' ∧
      so_reference o' = so_reference o - w_obj w + w_obj w' + new ∧
      w_objdel w' - w_objdel w = b2z (so_reference o' =? 0) - b2z (so_reference o =? 0) ∧
      rw_writer o' = w_unique w' ∧ (w_unique w' = true → rw_readers o' = 0) ∧
      (so_copy o' = None ↔ w_open w' = false) ∧ (so_copy o' = so_copy o ∨ w_unique w = true)
  | Some o, None => so_reference o = 0 ∧ w_obj w' = w_obj w ∧ new = 0 ∧ w_objdel w = 1 ∧ w_objdel w' = 0
  | None, None => w_obj w' = w_obj w ∧ new = 0 ∧ w_objdel w' = w_objdel w
  | None, Some _ => False
  end.

(** the counts, when the writer goes on and creates [new] readers *)
Section writer.
Context (s s' : stm) (new : nat) (Hinv : stm_inv s).
Hypothesis Hrs : st_readers s' = st_readers s ++ replicate new (mkReader RToken None []).

Lemma total_tokens f : total f (st_readers s') = total f (st_readers s) + Z.of_nat new * f (mkReader RToken None []).
Proof.
  rewrite Hrs, total_app. f_equal. clear. induction new as [|n IH]; [done|]. rewrite replicate_S. cbn [total]. rewrite IH. lia.
Qed.

Lemma writer_copies : 
  (∀ c, w_copy_change c (obj_holds s c + w_holds c (st_writer s)) (obj_holds s' c + w_holds c (st_writer s'))
          (w_dels c (st_writer s)) (w_dels c (st_writer s')) (st_copies s !! c) (st_copies s' !! c)) →
  ∀ c, match st_copies s' !! c with
       | Some k => sc_reference k = refs s' c ∧ dels s' c = b2z (refs s' c =? 0)
       | None => refs s' c = 0 ∧ dels s' c = 0
       end.
Proof.
  intros Hc c. specialize (Hc c). pose proof (i_copies s Hinv c) as H. unfold w_copy_change in Hc. unfold refs, dels in *.
  rewrite !total_tokens. replace (r_holds c (mkReader RToken None [])) with 0 by done. replace (r_dels c (mkReader RToken None [])) with 0 by done.
  rewrite Z.mul_0_r, !Z.add_0_r. destruct (st_copies s !! c) as [k|], (st_copies s' !! c) as [k'|]; [| |done|lia].
  2:{ destruct Hc as (Hc & ? & ? & ?), H as [H Hd]. rewrite <- H, Hc in Hd. simpl in Hd. lia. }
  destruct Hc as (Hc & _ & _ & Hd), H as (H & Hd').
  replace (obj_holds s' c + w_holds c (st_writer s') + total (r_holds c) (st_readers s)) with (sc_reference k') by lia.
  rewrite <- H in Hd'. split; lia.
Qed.

Lemma writer_object_counts : w_object_change (st_writer s) (st_writer s') (Z.of_nat new) (st_obj s) (st_obj s') →
  match st_obj s' with
  | Some o => so_reference o = obj_refs s' ∧ obj_dels s' = b2z (obj_refs s' =? 0) ∧
              rw_readers o = shared s' ∧ rw_writer o = w_unique (st_writer s') ∧
              (w_unique (st_writer s') = true → shared s' = 0) ∧ (so_copy o = None ↔ w_open (st_writer s') = false)
  | None => obj_refs s' = 0 ∧ obj_dels s' = 0
  end.
Proof.
  intros Ho. pose proof (i_obj s Hinv) as H. unfold w_object_change in Ho. unfold obj_refs, obj_dels, shared in *.
  rewrite !total_tokens. replace (r_obj (mkReader RToken None [])) with 1 by done.
  replace (r_objdel (mkReader RToken None [])) with 0 by done. replace (r_shared (mkReader RToken None [])) with 0 by done.
  rewrite Z.mul_1_r, Z.mul_0_r, !Z.add_0_r. destruct (st_obj s) as [o|], (st_obj s') as [o'|]; [| |done|lia].
  2:{ destruct Ho as (Ho & ? & ? & ? & ?), H as (H & Hd & _). rewrite <- H, Ho in Hd. simpl in Hd. lia. }
  destruct Ho as (Hsh & Href & Hdel & Hu & Hex & Hop & _), H as (Hr1 & Hd1 & Hs1 & Hw1 & He1 & Hop1).
  replace (w_obj (st_writer s') + (total r_obj (st_readers s) + Z.of_nat new)) with (so_reference o') by lia.
  rewrite <- Hr1 in Hd1. split_and!; try done; [lia|lia|]. intros Hun. specialize (Hex Hun). lia.
Qed.

Lemma writer_loads : w_object_change (st_writer s) (st_writer s') (Z.of_nat new) (st_obj s) (st_obj s') →
  ∀ i r c o, st_readers s' !! i = Some r → r_pc r = CInc c → st_obj s' = Some o → so_copy o = Some c.
Proof.
  intros Ho i r c o' Hr Hpc Ho'. rewrite Hrs in Hr. apply lookup_app_Some in Hr as [Hr|[_ [-> _]%lookup_replicate]]; [|done].
  rewrite Ho' in Ho. destruct (st_obj s) as [o|] eqn:E; [|done]. pose proof (i_load s Hinv i r c o Hr Hpc E) as Hl.
  destruct Ho as (_ & _ & _ & _ & _ & _ & [->|Hu]); [done|]. pose proof (i_obj s Hinv) as H. rewrite E in H.
  destruct H as (_ & _ & _ & _ & Hex & _). specialize (Hex Hu). unfold shared in Hex.
  pose proof (total_ge r_shared _ i r ltac:(auto with skynet) Hr) as Hge. unfold r_shared at 1 in Hge. rewrite Hpc in Hge.
  destruct (st_writer s); simpl in *; lia.
Qed.

(** nothing is created or published *)
Lemma writer_move : published s' = published s →
  (∀ c, w_copy_change c (obj_holds s c + w_holds c (st_writer s)) (obj_holds s' c + w_holds c (st_writer s'))
          (w_dels c (st_writer s)) (w_dels c (st_writer s')) (st_copies s !! c) (st_copies s' !! c)) →
  w_object_change (st_writer s) (st_writer s') (Z.of_nat new) (st_obj s) (st_obj s') →
  (∀ c, unpublished (st_writer s') c = unpublished (st_writer s) c) →
  (∀ o' c, st_obj s' = Some o' → so_copy o' = Some c → w_owns (st_writer s') = true →
    ∃ o, st_obj s = Some o ∧ so_copy o = Some c ∧ w_owns (st_writer s) = true) → stm_inv s'.
Proof.
  intros Hp Hc Ho Hu Hcur.
  assert (Hback : ∀ c k', st_copies s' !! c = Some k' → ∃ k, st_copies s !! c = Some k ∧ sc_version k' = sc_version k ∧ sc_msg k' = sc_msg k).
  { intros c k' E'. specialize (Hc c). rewrite E' in Hc. destruct (st_copies s !! c) as [k|]; [exists k; split; [done|by destruct Hc as (_ & ? & ? & _)]|done]. }
  split; [by apply writer_copies|by apply writer_object_counts|by apply writer_loads|..].
  - intros c k' (k & Hk & -> & ->)%Hback. rewrite Hu, Hp. by apply (i_version s Hinv).
  - intros c d k l (k0 & Hk & -> & _)%Hback (l0 & Hl0 & -> & _)%Hback. by apply (i_distinct s Hinv).
  - intros o' c k' Ho' Hco' Hown (k & Hk & -> & _)%Hback. rewrite Hp. destruct (Hcur o' c Ho' Hco' Hown) as (o & E & Eo & Ew). by apply (i_current s Hinv o c k).
Qed.
End writer.

Lemma w_copy_unchanged c h h' d d' k : h' = h → d' = d → w_copy_change c h h' d d' k k.
Proof. intros -> ->. destruct k; cbn; [|lia]. split_and!; try done; lia. Qed.

(** what the lock and the counter of the object are where the writer is *)
Lemma object_at s o w : stm_inv s → st_obj s = Some o → st_writer s = w →
  so_reference o = obj_refs s ∧ obj_dels s = b2z (obj_refs s =? 0) ∧ w_obj w <= so_reference o ∧
  rw_writer o = w_unique w ∧ (w_unique w = true → rw_readers o = 0) ∧ (so_copy o = None ↔ w_open w = false) ∧ 0 <= w_objdel w <= obj_dels s.
Proof.
  intros Hinv Ho <-. pose proof (i_obj s Hinv) as H. rewrite Ho in H. destruct H as (Href & Hdel & Hsh & Hw & Hex & Hop).
  pose proof (total_nonneg r_obj (st_readers s) ltac:(auto with skynet)). pose proof (total_nonneg r_objdel (st_readers s) ltac:(auto with skynet)).
  split_and!; try done; [unfold obj_refs in Href; lia|intros Hu; specialize (Hex Hu); lia|by destruct (st_writer s)|unfold obj_dels; lia].
Qed.

Lemma readers_nonneg s o : stm_inv s → st_obj s = Some o → 0 <= rw_readers o.
Proof.
  intros Hinv Ho. pose proof (i_obj s Hinv) as H. rewrite Ho in H. destruct H as (_ & _ & -> & _).
  pose proof (total_nonneg r_shared (st_readers s) ltac:(auto with skynet)). unfold shared. destruct (st_writer s); cbn; lia.
Qed.

(** the writer only moves on, or changes only the lock and the counter of the object *)
Lemma writer_object_move s s' o o' w w' new : stm_inv s → st_writer s = w → st_writer s' = w' →
  st_obj s = Some o → st_obj s' = Some o' → st_copies s' = st_copies s → published s' = published s →
  st_readers s' = st_readers s ++ replicate new (mkReader RToken None []) →
  so_copy o' = so_copy o → (∀ c, w_holds c w' = w_holds c w) → (∀ c, w_dels c w' = w_dels c w) → w_owns w' = w_owns w →
  (∀ c, unpublished w' c = unpublished w c) → w_object_change w w' (Z.of_nat new) (Some o) (Some o') → stm_inv s'.
Proof.
  intros Hinv Hw Hw' Ho Ho' Hc Hp Hrs Hco Hh Hd Hown Hu Hch.
  apply (writer_move s s' new Hinv Hrs Hp); [|by rewrite Hw, Hw', Ho, Ho'|intros c; by rewrite Hw, Hw'|].
  - intros c. rewrite Hc. apply w_copy_unchanged; rewrite Hw, Hw'; [|done]. unfold obj_holds. by rewrite Ho, Ho', Hw, Hw', Hco, Hown, Hh.
  - intros o1 c Ho1. rewrite Ho' in Ho1. injection Ho1 as <-. rewrite Hco, Hw, Hw', Hown. intros. by exists o.
Qed.

(** the copy that the writer gives back, and the step after it *)
Lemma writer_release s o (f : option Z → writer_pc) : stm_inv s →
  (∀ del c, obj_holds (set_wpc s (f del)) c + w_holds c (f del) = obj_holds s c + w_holds c (st_writer s) - points o c) →
  (∀ c, w_dels c (st_writer s) = 0) → (∀ del c, w_dels c (f del) = points del c) →
  (∀ del, w_object_change (st_writer s) (f del) 0 (st_obj s) (st_obj s)) →
  (∀ del c, unpublished (f del) c = unpublished (st_writer s) c) → (∀ del, w_owns (f del) = true → w_owns (st_writer s) = true) →
  ∃ del s1, stm_releasecopy s o = Ok (del, s1) ∧ stm_inv (set_wpc s1 (f del)).
Proof.
  intros Hinv Hh Hd Hd' Ho Hu Hown.
  assert (Hmove : ∀ del cs, (∀ c, w_copy_change c (obj_holds s c + w_holds c (st_writer s)) (obj_holds s c + w_holds c (st_writer s) - points o c) 0 (points del c) (st_copies s !! c) (cs !! c)) →
    stm_inv (set_wpc (s <| st_copies := cs |>) (f del))).
  { intros del cs Hc. apply (writer_move s _ 0 Hinv); cbn; [by rewrite app_nil_r|done| |done|done|].
    - intros c. specialize (Hc c). rewrite <- (Hh del) in Hc. by rewrite Hd, Hd'.
    - intros o' c E1 E2 E3. exists o'. split_and!; [done|done|by eapply Hown]. }
  destruct o as [a|]; cbn [stm_releasecopy].
  - assert (Ha : 0 < refs s a).
    { pose proof (writer_refs s a) as Hw. specialize (Hh None a). rewrite points_self in Hh.
      pose proof (obj_holds_nonneg (set_wpc s (f None)) a). pose proof (w_holds_nonneg a (f None)). lia. }
    destruct (held_live s Hinv a Ha) as (k & Hk & Href & _). unfold copy_add. rewrite Hk. cbn [rbind].
    eexists _, _. split; [done|]. apply Hmove. intros c. destruct (decide (a = c)) as [<-|Hne].
    + rewrite Hk, lookup_insert_eq, points_self. cbn. split_and!; try done; [lia|].
      destruct (Z.leb_spec (sc_reference k) 1); cbn; rewrite ?Z.eqb_refl; zbool.
    + rewrite lookup_insert_ne by done. assert (Hp : points (Some a) c = 0) by (cbn; by rewrite (proj2 (Z.eqb_neq a c))).
      apply w_copy_unchanged; rewrite ?Hp; [lia|]. by destruct (_ <=? _).
  - exists None, s. split; [done|]. pose proof (Hmove None (st_copies s)) as H. destruct s; apply H. intros c. apply w_copy_unchanged; cbn; [lia|done].
Qed.

Lemma writer_delete s a w' : stm_inv s → (∀ c, w_dels c (st_writer s) = points (Some a) c) → (∀ c, w_dels c w' = 0) →
  (∀ c, w_holds c w' = w_holds c (st_writer s)) → w_owns w' = w_owns (st_writer s) →
  (∀ c, unpublished w' c = unpublished (st_writer s) c) → w_object_change (st_writer s) w' 0 (st_obj s) (st_obj s) →
  ∃ s1, delete_copy s a = Ok s1 ∧ stm_inv (set_wpc s1 w').
Proof.
  intros Hinv Hd Hd' Hh Hown Hu Ho. pose proof (writer_dels s a) as Hle. rewrite Hd, points_self in Hle.
  destruct (deleted_live s Hinv a) as (k & Hk & Href & Hz & _); [lia|]. unfold delete_copy. rewrite Hk. eexists. split; [done|].
  assert (Hob : ∀ c cs, obj_holds (set_wpc (s <| st_copies := cs |>) w') c = obj_holds s c) by (intros c cs; unfold obj_holds; cbn; by rewrite Hown).
  apply (writer_move s _ 0 Hinv); [cbn; by rewrite app_nil_r|done| |done|done|].
  - intros c. rewrite Hob. cbn [set_wpc set_to st_writer st_copies]. rewrite Hh, Hd, Hd'. destruct (decide (a = c)) as [<-|Hne].
    + rewrite Hk, lookup_delete_eq, points_self. done.
    + rewrite lookup_delete_ne by done. apply w_copy_unchanged; [done|]. cbn. by rewrite (proj2 (Z.eqb_neq a c)).
  - cbn. rewrite Hown. intros o' c ? ? ?. by exists o'.
Qed.

(** a new copy, not published yet *)
Lemma writer_newcopy s msg a : stm_inv s → st_writer s = WIdle → st_copies s !! a = None →
  stm_inv (set_wpc (s <| st_copies := <[a := stm_newcopy msg (length (published s))]> (st_copies s) |>) (WULock a)).
Proof.
  intros Hinv Hw Ha. pose proof (i_copies s Hinv a) as Ha0. rewrite Ha in Ha0.
  set (s' := set_wpc _ _).
  assert (Hrefs : ∀ c, refs s' c = refs s c + b2z (a =? c)) by (intros c; unfold refs, obj_holds, s'; cbn; rewrite Hw; cbn; lia).
  assert (Hdels : ∀ c, dels s' c = dels s c) by (intros c; unfold dels, s'; cbn; by rewrite Hw).
  assert (Hver : ∀ c k, st_copies s !! c = Some k → (sc_version k < length (published s))%nat).
  { intros c k Hk. pose proof (i_version s Hinv c k Hk) as Hv. rewrite Hw in Hv. cbn in Hv. by eapply lookup_lt_Some. }
  split.
  - intros c. rewrite Hrefs, Hdels. cbn. destruct (decide (a = c)) as [<-|Hne].
    + rewrite lookup_insert_eq, Z.eqb_refl. cbn. destruct Ha0 as [-> ->]. done.
    + rewrite lookup_insert_ne, (proj2 (Z.eqb_neq a c)) by done. cbn. rewrite Z.add_0_r. by apply (i_copies s Hinv).
  - pose proof (i_obj s Hinv) as H. unfold obj_refs, obj_dels, shared in *. cbn. by rewrite Hw in H.
  - apply (i_load s Hinv).
  - cbn. intros c k. destruct (decide (a = c)) as [<-|Hne].
    + rewrite lookup_insert_eq, Z.eqb_refl. by intros [= <-].
    + rewrite lookup_insert_ne, (proj2 (Z.eqb_neq a c)) by done. intros Hk. pose proof (i_version s Hinv c k Hk) as Hv. by rewrite Hw in Hv.
  - cbn. intros c d k l. destruct (decide (a = c)) as [<-|Hne], (decide (a = d)) as [<-|Hne']; rewrite ?lookup_insert_eq, ?lookup_insert_ne by done.
    + done.
    + intros [= <-] Hl. specialize (Hver d l Hl). cbn. lia.
    + intros Hk [= <-]. specialize (Hver c k Hk). cbn. lia.
    + by apply (i_distinct s Hinv).
  - cbn. intros o c k Ho Hco _. rewrite lookup_insert_ne; [intros Hk; apply (i_current s Hinv o c k); try done; by rewrite Hw|].
    intros ->. destruct Ha0 as [Ha0 _]. pose proof (writer_refs s c) as Hle. unfold obj_holds in Hle. rewrite Ho, Hw, Hco, points_self in Hle. cbn in Hle. lia.
Qed.

(** the copy is published: it is the current one *)
Lemma writer_publish s c o k : stm_inv s → st_writer s = WUSwap c → st_obj s = Some o → st_copies s !! c = Some k →
  stm_inv (set_wpc (set_obj s (o <| so_copy := Some c |>) <| published := published s ++ [sc_msg k] |>) (WURel (so_copy o))).
Proof.
  intros Hinv Hw Ho Hk. set (s' := set_wpc _ _).
  destruct (object_at s o _ Hinv Ho Hw) as (Href & Hdel & _ & Hwr & Hex & Hop & _). cbn in Hwr, Hex, Hop.
  pose proof (i_version s Hinv c k Hk) as Hv. rewrite Hw in Hv. cbn in Hv. rewrite Z.eqb_refl in Hv.
  assert (Hrs : st_readers s' = st_readers s ++ replicate 0 (mkReader RToken None [])) by (cbn; by rewrite app_nil_r).
  assert (Hch : w_object_change (st_writer s) (st_writer s') (Z.of_nat 0) (st_obj s) (st_obj s')).
  { cbn. rewrite Ho, Hw. cbn. split_and!; try done; try lia; by right. }
  split; [|by apply (writer_object_counts s s' 0)|by apply (writer_loads s s' 0)|..].
  - apply (writer_copies s s' 0 Hinv Hrs). intros d. cbn. rewrite Hw. cbn. apply w_copy_unchanged; [|done].
    unfold obj_holds. cbn. rewrite Ho, Hw. cbn. lia.
  - cbn. intros d l Hl. pose proof (i_version s Hinv d l Hl) as Hvd. rewrite Hw in Hvd. cbn in Hvd. destruct (Z.eqb_spec c d) as [<-|Hne].
    + rewrite Hk in Hl. injection Hl as <-. rewrite Hv, lookup_app_r, Nat.sub_diag by done. done.
    + by apply lookup_app_l_Some.
  - apply (i_distinct s Hinv).
  - cbn. intros o1 d l [= <-]. cbn. intros [= <-] _ Hl. rewrite Hk in Hl. injection Hl as <-. rewrite Hv, length_app. cbn. lia.
Qed.

(** the obligations that are computed from the places of the writer *)
Ltac writer_side Hw Ho :=
  cbn -[points] in *; try done; rewrite ?Hw, ?Ho; cbn -[points]; split_and!; try done; try lia; try (by left).

Ltac writer_release_side Hw Ho :=
  repeat match goal with |- ∀ _, _ => intros ? end; unfold obj_holds; cbn -[points]; rewrite ?Hw, ?Ho; cbn -[points];
  repeat match goal with |- context [match ?x with Some _ => _ | None => _ end] => destruct x end;
  cbn -[points]; try done; try split_and!; try done; try lia; try (by left).

Ltac object_move s Hinv o o' w w' new Hw Ho :=
  eapply (writer_object_move s _ o o' w w' new Hinv Hw); [done|exact Ho|cbn; first [done|exact Ho]|done|done|cbn; rewrite ?app_nil_r; done|done|done|done|done|done|];
  writer_side Hw Ho.

Lemma writer_clear s o : stm_inv s → st_writer s = WRNull → st_obj s = Some o → stm_inv (set_wpc (set_obj s (o <| so_copy := None |>)) WRDec).
Proof.
  intros Hinv Hw Ho. destruct (object_at s o _ Hinv Ho Hw) as (Href & Hdel & Hge & Hwr & Hex & Hop & Hod); cbn in Hge, Hwr, Hex, Hop, Hod.
  apply (writer_move s _ 0 Hinv); cbn; rewrite ?Hw, ?Ho; [by rewrite app_nil_r|done| | |done|by intros o' c [= <-]].
  - intros c. apply w_copy_unchanged; [|done]. unfold obj_holds. cbn. by rewrite Ho, Hw.
  - cbn. split_and!; try done; try lia; by right.
Qed.

Lemma writer_delete_object s o : stm_inv s → st_writer s = WRDelObj → st_obj s = Some o → stm_inv (set_wpc (s <| st_obj := None |>) WRUnlock).
Proof.
  intros Hinv Hw Ho. destruct (object_at s o _ Hinv Ho Hw) as (Href & Hdel & Hge & Hwr & Hex & Hop & Hod); cbn in Hge, Hwr, Hex, Hop, Hod.
  apply (writer_move s _ 0 Hinv); cbn; rewrite ?Hw, ?Ho; [by rewrite app_nil_r|done| | |done|done].
  - intros c. apply w_copy_unchanged; [|done]. unfold obj_holds. cbn. rewrite Ho, Hw. cbn. by rewrite (proj2 Hop).
  - cbn. split_and!; try done. destruct (Z.eqb_spec (obj_refs s) 0); cbn in Hdel; lia.
Qed.

Lemma writer_leave s : stm_inv s → st_writer s = WRUnlock → stm_inv (set_wpc (unlock_unique s) WGone).
Proof.
  intros Hinv Hw. unfold unlock_unique. destruct (st_obj s) as [o|] eqn:Ho.
  - destruct (object_at s o _ Hinv Ho Hw) as (Href & Hdel & Hge & Hwr & Hex & Hop & Hod); cbn in Hge, Hwr, Hex, Hop, Hod.
    object_move s Hinv o (o <| rw_writer := false |>) WRUnlock WGone 0%nat Hw Ho.
  - apply (writer_move s _ 0 Hinv); cbn; rewrite ?Hw, ?Ho; [by rewrite app_nil_r|done| |done|done|done].
    intros c. apply w_copy_unchanged; [|done]. unfold obj_holds. cbn. by rewrite Ho.
Qed.

Lemma writer_step_ok s call : stm_inv s → match writer_step s call with Ok s' => stm_inv s' | Err f => f = Blocked end.
Proof.
  intros Hinv. unfold writer_step, writer_start, stm_grab, stm_update, stm_release. pose proof (writer_object s Hinv) as Hobj. destruct (st_writer s) as [| | | |c|c|old|c| | | | |c| | | | |] eqn:Hw; cbn in Hobj.
  all: try (destruct Hobj as [o Ho]; [done|]; destruct (object_at s o _ Hinv Ho Hw) as (Href & Hdel & Hge & Hwr & Hex & Hop & Hod); cbn in Hge, Hwr, Hex, Hop, Hod).
  - destruct call as [|msg a|].
    + object_move s Hinv o o WIdle WGLock 0%nat Hw Ho.
    + destruct (st_copies s !! a) eqn:Ha; [done|by apply writer_newcopy].
    + object_move s Hinv o o WIdle WRAssert 0%nat Hw Ho.
  - unfold lock_shared, get_obj. rewrite Ho. cbn [rbind]. rewrite Hwr.
    object_move s Hinv o (o <| rw_readers := rw_readers o + 1 |>) WGLock WGInc 0%nat Hw Ho.
  - unfold obj_add, get_obj. rewrite Ho. cbn [rbind]. unfold massert. rewrite (proj2 (Z.ltb_lt _ _)) by lia. cbn [rbind].
    object_move s Hinv o (o <| so_reference := so_reference o + 1 |>) WGInc WGUnlock 1%nat Hw Ho.
    rewrite !(proj2 (Z.eqb_neq _ _)) by lia. done.
  - unfold unlock_shared. rewrite Ho. object_move s Hinv o (o <| rw_readers := rw_readers o - 1 |>) WGUnlock WIdle 0%nat Hw Ho.
  - unfold lock_unique, get_obj. rewrite Ho. cbn [rbind]. destruct (rw_writer o || (0 <? rw_readers o)) eqn:Hl; [done|].
    assert (rw_readers o = 0) by (pose proof (readers_nonneg s o Hinv Ho); lia).
    object_move s Hinv o (o <| rw_writer := true |>) (WULock c) (WUSwap c) 0%nat Hw Ho.
  - unfold get_obj. rewrite Ho. cbn [rbind]. destruct (held_live s Hinv c) as (k & Hk & _).
    { pose proof (writer_refs s c) as Hle. pose proof (obj_holds_nonneg s c). rewrite Hw in Hle. cbn in Hle. rewrite Z.eqb_refl in Hle. cbn in Hle. lia. }
    rewrite Hk. by apply writer_publish.
  - edestruct (writer_release s old (λ del, match del with Some c => WUDel c | None => WUUnlock end) Hinv) as (del & s1 & -> & H); [..|exact H]; writer_release_side Hw Ho.
  - edestruct (writer_delete s c WUUnlock Hinv) as (s1 & -> & H); [..|exact H]; writer_release_side Hw Ho.
  - unfold unlock_unique. rewrite Ho. object_move s Hinv o (o <| rw_writer := false |>) WUUnlock WIdle 0%nat Hw Ho.
  - unfold get_obj. rewrite Ho. cbn [rbind]. unfold massert. rewrite bool_decide_eq_true_2 by (intros ?%Hop; done). cbn [rbind].
    object_move s Hinv o o WRAssert WRLock 0%nat Hw Ho.
  - unfold lock_unique, get_obj. rewrite Ho. cbn [rbind]. destruct (rw_writer o || (0 <? rw_readers o)) eqn:Hl; [done|].
    assert (rw_readers o = 0) by (pose proof (readers_nonneg s o Hinv Ho); lia).
    object_move s Hinv o (o <| rw_writer := true |>) WRLock WRRel 0%nat Hw Ho.
  - unfold get_obj. rewrite Ho. cbn [rbind].
    edestruct (writer_release s (so_copy o) (λ del, match del with Some c => WRDel c | None => WRNull end) Hinv) as (del & s1 & -> & H); [..|exact H]; writer_release_side Hw Ho.
  - edestruct (writer_delete s c WRNull Hinv) as (s1 & -> & H); [..|exact H]; writer_release_side Hw Ho.
  - unfold get_obj. rewrite Ho. by apply writer_clear.
  - unfold obj_add, get_obj. rewrite Ho. cbn [rbind]. destruct (Z.ltb_spec 1 (so_reference o)).
    + object_move s Hinv o (o <| so_reference := so_reference o + -1 |>) WRDec WRUnlock 0%nat Hw Ho. rewrite !(proj2 (Z.eqb_neq _ _)) by lia. done.
    + assert (so_reference o = 1) as H1 by lia.
      object_move s Hinv o (o <| so_reference := so_reference o + -1 |>) WRDec WRDelObj 0%nat Hw Ho. by rewrite H1.
  - unfold delete_obj, get_obj. rewrite Ho. by apply (writer_delete_object s o).
  - by apply writer_leave.
  - done.
Qed.

Lemma stm_new_inv msg a : stm_inv (stm_new msg a).
Proof.
  split; cbn.
  - intros c. unfold refs, dels, obj_holds. cbn. destruct (Z.eqb_spec a c) as [<-|Hne]; cbn; [by rewrite lookup_singleton_eq|by rewrite lookup_singleton_ne].
  - by split_and!.
  - done.
  - intros c k [<- <-]%lookup_singleton_Some. done.
  - by intros c d k l [<- _]%lookup_singleton_Some [<- _]%lookup_singleton_Some.
  - intros o c k [= <-] [= <-] _ [_ <-]%lookup_singleton_Some. done.
Qed.

Lemma stm_step_ok s a : stm_inv s → match stm_step s a with Ok s' => stm_inv s' | Err f => f = Blocked end.
Proof. intros Hinv. destruct a; [by apply writer_step_ok|by apply reader_step_ok]. Qed.

Lemma stm_run_inv s acts : stm_inv s → match stm_run s acts with Ok s' => stm_inv s' | Err f => f = Blocked end.
Proof.
  revert s. induction acts as [|a acts IH]; intros s Hinv; [done|]. cbn [stm_run]. pose proof (stm_step_ok s a Hinv) as H.
  destruct (stm_step s a) as [s1|f]; [by apply IH|done].
Qed.

(** ** The mutex of a deleted object *)

Definition w_unlocks (pc : writer_pc) : Z := match pc with WRUnlock => 1 | _ => 0 end.
Definition r_unlocks (r : reader) : Z := match r_pc r with DUnlock => 1 | _ => 0 end.

(** the one who deletes the object still has to unlock its mutex *)
Definition late_inv (s : stm) : Prop :=
  0 <= late_unlocks s ∧ (st_obj s = None → 1 <= late_unlocks s + w_unlocks (st_writer s) + total r_unlocks (st_readers s)).

Ltac late_case :=
  repeat match goal with
  | H : rbind ?m _ = Ok _ |- _ => let a := fresh "a" in let Ha := fresh "Ha" in apply bind_Ok_inv in H; destruct H as (a & Ha & H)
  | H : (let '(_, _) := ?x in _) = Ok _ |- _ => destruct x
  | H : massert _ = Ok _ |- _ => clear H
  | H : context [match ?x with _ => _ end] |- _ => lazymatch type of H with _ = Ok _ => destruct x eqn:? end
  | H : Ok _ = Ok _ |- _ => inversion H; clear H; subst
  | H : Err _ = Ok _ |- _ => discriminate H
  end.

Lemma unlocks_nonneg s : 0 <= w_unlocks (st_writer s) ∧ 0 <= total r_unlocks (st_readers s).
Proof. split; [by destruct (st_writer s)|]. apply total_nonneg. intros r. unfold r_unlocks. by destruct (r_pc r). Qed.

Ltac late_end Hl := split; try lia; intros ?; first [congruence|lia|specialize (Hl ltac:(congruence)); lia].

Lemma reader_step_late s i call s' : late_inv s → reader_step s i call = Ok s' → late_inv s'.
Proof.
  intros [Hn Hl] Hstep. unfold reader_step, l_new_reader, stm_copy_call, l_read, stm_releasereader, l_delete_reader in Hstep. destruct (st_readers s !! i) as [[pc last out]|] eqn:Hr; [|done].
  pose proof (total_ge r_unlocks _ i _ ltac:(intros r; unfold r_unlocks; by destruct (r_pc r)) Hr) as Hge. destruct (unlocks_nonneg s) as [Hu1 Hu2].
  unfold stm_releasecopy, delete_copy, copy_add, lock_shared, obj_add, delete_obj, get_obj in Hstep.
  destruct pc; late_case; unfold late_inv, unlock_shared; try (destruct (st_obj s) eqn:?);
    cbn; rewrite ?(total_insert _ _ i _ _ Hr); unfold r_unlocks in Hge at 1; unfold r_unlocks at 2 3; cbn in *; late_end Hl.
Qed.

Lemma writer_step_late s call s' : late_inv s → writer_step s call = Ok s' → late_inv s'.
Proof.
  intros [Hn Hl] Hstep. unfold writer_step, writer_start, stm_grab, stm_update, stm_release in Hstep. destruct (unlocks_nonneg s) as [Hu1 Hu2].
  unfold stm_releasecopy, delete_copy, copy_add, lock_shared, lock_unique, obj_add, delete_obj, get_obj in Hstep.
  destruct (st_writer s) eqn:Hw; late_case; unfold late_inv, unlock_shared, unlock_unique; try (destruct (st_obj s) eqn:?);
    cbn; rewrite ?Hw, ?total_app; cbn in *; late_end Hl.
Qed.

Lemma run_late s acts s' : late_inv s → stm_run s acts = Ok s' → late_inv s'.
Proof.
  revert s. induction acts as [|a acts IH]; intros s Hl; cbn [stm_run]; [by intros [= <-]|].
  intros (s1 & Hs1 & Hrun)%bind_Ok_inv. eapply IH; [|done]. destruct a; [by eapply writer_step_late|by eapply reader_step_late].
Qed.

(** ** What holds in every interleaving *)

Definition everyone_left (s : stm) : Prop := st_writer s = WGone ∧ Forall (λ r, r_pc r = RGone ∧ lastcopy r = None) (st_readers s).

Lemma total_zero f rs : Forall (λ r, f r = 0) rs → total f rs = 0.
Proof. induction 1; simpl; lia. Qed.

Lemma all_freed s : stm_inv s → everyone_left s → st_copies s = ∅ ∧ st_obj s = None.
Proof.
  intros Hinv [Hw Hrs]. assert (Hz : ∀ f, (∀ out, f (mkReader RGone None out) = 0) → total f (st_readers s) = 0).
  { intros f Hf. apply total_zero. eapply Forall_impl; [done|]. intros [pc last out] [Hp Hl]. cbn in Hp, Hl. subst. apply Hf. }
  assert (Ho : st_obj s = None).
  { pose proof (i_obj s Hinv) as H. destruct (st_obj s) as [o|]; [|done]. destruct H as (_ & Hd & _). unfold obj_dels, obj_refs in Hd.
    by rewrite Hw, !Hz in Hd. }
  split; [|done]. apply map_empty. intros c. pose proof (i_copies s Hinv c) as H. destruct (st_copies s !! c) as [k|]; [|done].
  destruct H as [_ Hd]. unfold dels, refs, obj_holds in Hd. by rewrite Ho, Hw, !Hz in Hd.
Qed.

(** C11: In every interleaving of the writer and its readers, also when addresses are used
    again, no step uses or deletes memory that is gone, the unlocking of the mutex of a deleted
    object apart, and no assertion fails; every copy counts exactly its users; and when
    everybody has left, all memory is free. *)
Theorem stm_memory_safe msg a acts :
  match stm_run (stm_new msg a) acts with
  | Err f => f = Blocked
  | Ok s => (∀ c k, st_copies s !! c = Some k → sc_reference k = refs s c) ∧
            (∀ c, 0 < refs s c → is_Some (st_copies s !! c)) ∧
            (everyone_left s → st_copies s = ∅ ∧ st_obj s = None)
  end.
Proof.
  pose proof (stm_run_inv _ acts (stm_new_inv msg a)) as H. destruct (stm_run _ acts) as [s|f]; [|done].
  split_and!; [| |by apply all_freed].
  - intros c k Hk. pose proof (i_copies s H c) as Hc. rewrite Hk in Hc. tauto.
  - intros c Hc. destruct (held_live s H c Hc) as (k & -> & _). by eexists.
Qed.

(** Whenever the writer and all readers have left, a mutex was unlocked after the object
    that contains it was deleted: the lock guards of [stm_release] and [stm_releasereader]
    are still in scope at [delete obj]. *)
Theorem stm_unlocks_deleted_mutex msg a acts s : stm_run (stm_new msg a) acts = Ok s → everyone_left s → 0 < late_unlocks s.
Proof.
  intros Hrun Hleft. pose proof (stm_run_inv _ acts (stm_new_inv msg a)) as Hinv. rewrite Hrun in Hinv.
  destruct (all_freed s Hinv Hleft) as [_ Ho]. destruct Hleft as [Hw Hrs].
  assert (H0 : late_inv (stm_new msg a)) by (by split). destruct (run_late _ acts s H0 Hrun) as [_ Hl]. specialize (Hl Ho). rewrite Hw in Hl.
  rewrite total_zero in Hl; [cbn in Hl; lia|]. eapply Forall_impl; [done|]. intros r [Hp _]. unfold r_unlocks. by rewrite Hp.
Qed.

Lemma stm_unlocks_deleted_mutex_witness : ∃ s, stm_run (stm_new [1] 7) (replicate 9 (AWriter Release)) = Ok s ∧ 0 < late_unlocks s.
Proof.
  destruct (stm_run (stm_new [1] 7) (replicate 9 (AWriter Release))) as [s|f] eqn:E; [|by vm_compute in E].
  exists s. split; [done|]. apply (stm_unlocks_deleted_mutex [1] 7 _ s E).
  vm_compute in E. injection E as <-. by split; [|constructor].
Defined.
