(* ===== verification/StmRegister.v ===== *)
(** * Shared messages as an atomic register

    What the writer and the readers of [Stm] see is a register with a list of published
    messages: an update appends to it, and a read gives a reader the last message unless it
    has it already. Each operation of the register happens in one step of the code: the swap
    of the pointers, its reset, its load under the lock, the increment by [stm_grab]. *)
From S2P Require Import Prelude Stm StmProof.
Open Scope list_scope.
Open Scope Z_scope.

(** ** The register *)

(** of a reader: the number of the message it has, and the results of its reads *)
Record register := mkRegister { g_published : list (list Z); g_closed : bool; g_readers : list (option nat * list (option (list Z))) }.
#[export] Instance eta_register : Eta register := λ r, mkRegister (g_published r) (g_closed r) (g_readers r).

Inductive register_op := GGrab | GUpdate (msg : list Z) | GClose | GRead (i : nat).

Definition register_new (msg : list Z) : register := mkRegister [msg] false [].

Definition register_read (g : register) (x : option nat * list (option (list Z))) : option nat * list (option (list Z)) :=
  let '(seen, out) := x in
  let v := pred (length (g_published g)) in
  if g_closed g then (None, out ++ [None])
  else if decide (seen = Some v) then (seen, out ++ [None])
  else (Some v, out ++ [g_published g !! v]).

Definition register_step (g : register) (op : register_op) : register :=
  match op with
  | GGrab => g <| g_readers := g_readers g ++ [(None, [])] |>
  | GUpdate msg => g <| g_published := g_published g ++ [msg] |>
  | GClose => g <| g_closed := true |>
  | GRead i => g <| g_readers := alter (register_read g) i (g_readers g) |>
  end.
Definition register_run (g : register) (ops : list register_op) : register := foldl register_step g ops.

(** ** Which operation a step is *)

Definition step_op (s : stm) (a : stm_action) : list register_op :=
  match a with
  | AWriter _ =>
      match st_writer s with
      | WGInc => [GGrab]
      | WUSwap c => match st_copies s !! c with Some k => [GUpdate (sc_msg k)] | None => [] end
      | WRNull => [GClose]
      | _ => []
      end
  | AReader i _ => match st_readers s !! i with Some r => match r_pc r with CLoad => [GRead i] | _ => [] end | None => [] end
  end.

Fixpoint run_ops (s : stm) (acts : list stm_action) : list register_op :=
  match acts with
  | [] => []
  | a :: acts => step_op s a ++ match stm_step s a with Ok s' => run_ops s' acts | Err _ => [] end
  end.

(** ** The simulation *)

Definition version (cs : gmap Z stm_copy) (o : option Z) : option nat := c ← o; sc_version <$> cs !! c.
Definition message (cs : gmap Z stm_copy) (o : option Z) : option (list Z) := c ← o; sc_msg <$> cs !! c.
(** what [l_read] will return, after the load of [o] *)
Definition outcome (cs : gmap Z stm_copy) (o last : option Z) : option (list Z) := if decide (o = last) then None else message cs o.

(** the read that is under way, and the message that the reader has after it *)
Definition pending (cs : gmap Z stm_copy) (r : reader) : list (option (list Z)) :=
  match r_pc r with
  | CInc c => [outcome cs (Some c) (lastcopy r)]
  | CUnlock o | RTest o => [outcome cs o (lastcopy r)]
  | RSame _ | RSameDel _ => [None]
  | ROld o | ROldDel _ o | RTake o => [message cs o]
  | _ => []
  end.
Definition seen_by (cs : gmap Z stm_copy) (r : reader) : option nat :=
  match r_pc r with
  | RToken => None
  | CInc c => version cs (Some c)
  | CUnlock o | RTest o | ROld o | ROldDel _ o | RTake o => version cs o
  | _ => version cs (lastcopy r)
  end.
Definition closing (r : reader) : bool := match r_pc r with DLock | DDec | DDelObj | DUnlock | DRel | DDel _ | RGone => true | _ => false end.

Definition reader_sim (cs : gmap Z stm_copy) (r : reader) (x : option nat * list (option (list Z))) : Prop :=
  x.2 = r_out r ++ pending cs r ∧ (closing r = false → x.1 = seen_by cs r).

Record register_sim (s : stm) (g : register) : Prop := {
  g_pub : g_published g = published s;
  g_clo : g_closed g = negb (w_open (st_writer s));
  g_rds : Forall2 (reader_sim (st_copies s)) (st_readers s) (g_readers g)
}.

(** the copies that the simulation of a reader looks at *)
Definition watched (r : reader) (c : Z) : Prop := r_pc r = CInc c ∨ 0 < r_holds c r.

Definition same_content (cs cs' : gmap Z stm_copy) (c : Z) : Prop :=
  version cs' (Some c) = version cs (Some c) ∧ message cs' (Some c) = message cs (Some c).

Lemma reader_sim_ext cs cs' r x : (∀ c, watched r c → same_content cs cs' c) → reader_sim cs r x → reader_sim cs' r x.
Proof.
  intros Hw. destruct r as [pc last out]. unfold watched, r_holds in Hw. cbn [r_pc lastcopy] in Hw.
  assert (Hl : last_live pc = true → version cs' last = version cs last).
  { intros E. destruct last as [c|]; [|done]. apply Hw. right. rewrite E, points_self. pose proof (pc_holds_nonneg pc c). lia. }
  assert (Ho : ∀ o, (∀ c, pc_holds pc c = points o c) → version cs' o = version cs o ∧ message cs' o = message cs o).
  { intros [c|] E; [|done]. apply Hw. right. rewrite E, points_self. destruct (last_live pc); [pose proof (points_nonneg last c)|]; lia. }
  unfold reader_sim, pending, seen_by, closing, outcome. cbn [r_pc lastcopy r_out].
  destruct pc as [| | | |c|o|o|o|d|o|d o|o| | | | | | |]; cbn -[points] in *;
    try (by rewrite (Hl eq_refl)); try (by destruct (Ho o) as [-> ->]); try done; try (intros [? _]; by split).
  destruct (Hw c) as [Hv Hm]; [by left|]. cbn in Hv, Hm. by rewrite Hv, Hm.
Qed.

(** ** One step *)

(** The parts of a step make no copy, keep the messages of those that stay, and leave the
    rest to the step. *)
Definition quiet (s s1 : stm) : Prop :=
  st_writer s1 = st_writer s ∧ st_readers s1 = st_readers s ∧ published s1 = published s ∧
  ∀ c, is_Some (st_copies s1 !! c) → same_content (st_copies s) (st_copies s1) c.

Lemma quiet_refl s : quiet s s.
Proof. by split_and!. Qed.

Lemma copy_add_quiet s c d z s1 : copy_add s c d = Ok (z, s1) → quiet s s1.
Proof.
  unfold copy_add. destruct (st_copies s !! c) as [k|] eqn:Hk; [|done]. intros [= <- <-]. split_and!; try done.
  cbn. intros e _. unfold same_content. cbn. destruct (decide (c = e)) as [<-|Hne]; [by rewrite lookup_insert_eq, Hk|by rewrite lookup_insert_ne].
Qed.
Lemma release_quiet s o del s1 : stm_releasecopy s o = Ok (del, s1) → quiet s s1.
Proof.
  destruct o as [a|]; cbn; [|intros [= <- <-]; apply quiet_refl].
  destruct (copy_add s a (-1)) as [[z s2]|] eqn:E; cbn; [|done]. intros [= <- <-]. by eapply copy_add_quiet.
Qed.
Lemma delete_copy_quiet s a s1 : delete_copy s a = Ok s1 → quiet s s1.
Proof.
  unfold delete_copy. destruct (st_copies s !! a); [|done]. intros [= <-]. split_and!; try done.
  cbn. intros c [k Hk]. apply lookup_delete_Some in Hk as [Hne Hk]. unfold same_content. cbn. by rewrite lookup_delete_ne, Hk.
Qed.
Lemma unlock_shared_quiet s : quiet s (unlock_shared s).
Proof. unfold unlock_shared. by destruct (st_obj s). Qed.
Lemma unlock_unique_quiet s : quiet s (unlock_unique s).
Proof. unfold unlock_unique. by destruct (st_obj s). Qed.
Lemma lock_shared_quiet s s1 : lock_shared s = Ok s1 → quiet s s1.
Proof. unfold lock_shared, get_obj. destruct (st_obj s); [|done]. cbn. destruct (rw_writer _); [done|]. by intros [= <-]. Qed.
Lemma lock_unique_quiet s s1 : lock_unique s = Ok s1 → quiet s s1.
Proof. unfold lock_unique, get_obj. destruct (st_obj s); [|done]. cbn. destruct (_ || _); [done|]. by intros [= <-]. Qed.
Lemma obj_add_quiet s d z s1 : obj_add s d = Ok (z, s1) → quiet s s1.
Proof. unfold obj_add, get_obj. destruct (st_obj s); [|done]. by intros [= <- <-]. Qed.
Lemma delete_obj_quiet s s1 : delete_obj s = Ok s1 → quiet s s1.
Proof. unfold delete_obj, get_obj. destruct (st_obj s); [|done]. by intros [= <-]. Qed.
#[local] Hint Resolve quiet_refl copy_add_quiet release_quiet delete_copy_quiet unlock_shared_quiet unlock_unique_quiet
  lock_shared_quiet lock_unique_quiet obj_add_quiet delete_obj_quiet : core.

(** what a reader watches is in memory *)
Lemma watched_live s i r c : stm_inv s → st_readers s !! i = Some r → watched r c → is_Some (st_copies s !! c).
Proof.
  intros Hinv Hr [Hpc|Hh].
  - destruct (loaded_live s Hinv i r Hr c Hpc) as (k & -> & _). by eexists.
  - pose proof (reader_refs s i r c Hr). destruct (held_live s Hinv c) as (k & -> & _); [lia|by eexists].
Qed.

(** the readers that do not move *)
Lemma others_sim s s' i : stm_inv s' → (∀ c, is_Some (st_copies s' !! c) → is_Some (st_copies s !! c) → same_content (st_copies s) (st_copies s') c) →
  stm_inv s → ∀ r x, st_readers s !! i = Some r → st_readers s' !! i = Some r → reader_sim (st_copies s) r x → reader_sim (st_copies s') r x.
Proof.
  intros Hinv' Hc Hinv r x Hr Hr'. apply reader_sim_ext. intros c Hw. apply Hc; by eapply watched_live.
Qed.

(** [s1]: after the parts of the step, before reader [i] is at its new place *)
Lemma reader_sim_step s s1 i r r' g x' : stm_inv s → stm_inv (set_reader s1 i r') → register_sim s g → quiet s s1 → st_readers s !! i = Some r →
  (∀ x, g_readers g !! i = Some x → reader_sim (st_copies s) r x → reader_sim (st_copies s) r' (x' x)) →
  register_sim (set_reader s1 i r') (g <| g_readers := alter x' i (g_readers g) |>).
Proof.
  intros Hinv Hinv' [Hp Hcl Hrs] (Hw & Hr1 & Hp1 & Hc) Hr Hx. split; cbn; [congruence|by rewrite Hw|].
  apply Forall2_same_length_lookup_2; [rewrite length_insert, length_alter, Hr1; by eapply Forall2_length|].
  intros j rj xj Hj Hxj. rewrite Hr1 in Hj. assert (Hlt : (i < length (st_readers s))%nat) by (by eapply lookup_lt_Some).
  destruct (decide (i = j)) as [<-|Hne].
  - rewrite list_lookup_insert_eq in Hj by done. injection Hj as <-. rewrite list_lookup_alter_eq in Hxj.
    destruct (g_readers g !! i) as [x|] eqn:Hgx; [|done]. injection Hxj as <-.
    eapply (reader_sim_ext (st_copies s)); [|apply Hx; [done|by eapply Forall2_lookup_lr]].
    intros c Hwt. apply Hc. eapply (watched_live _ i r' c Hinv'); [|done]. cbn. rewrite Hr1. by apply list_lookup_insert_eq.
  - rewrite list_lookup_insert_ne in Hj by done. rewrite list_lookup_alter_ne in Hxj by done.
    eapply (others_sim s _ j Hinv'); [|done|done| |by eapply Forall2_lookup_lr].
    + cbn. intros c Hc1 _. by apply Hc.
    + cbn. rewrite Hr1. by rewrite list_lookup_insert_ne.
Qed.

(** a step that is no operation of the register *)
Lemma reader_sim_quiet s s1 i r r' g : stm_inv s → stm_inv (set_reader s1 i r') → register_sim s g → quiet s s1 → st_readers s !! i = Some r →
  (∀ x, reader_sim (st_copies s) r x → reader_sim (st_copies s) r' x) → register_sim (set_reader s1 i r') g.
Proof.
  intros Hinv Hinv' Hsim Hq Hr Hx. pose proof (reader_sim_step s s1 i r r' g id Hinv Hinv' Hsim Hq Hr ltac:(auto)) as H.
  rewrite list_alter_id in H by done. by destruct g.
Qed.

(** the load under the lock is the read of the register *)
Lemma load_is_read s i last out o g x : stm_inv s → register_sim s g → st_readers s !! i = Some (mkReader CLoad last out) → st_obj s = Some o →
  reader_sim (st_copies s) (mkReader CLoad last out) x →
  reader_sim (st_copies s) (mkReader (match so_copy o with Some c => CInc c | None => CUnlock None end) last out) (register_read g x).
Proof.
  intros Hinv [Hp Hcl _] Hr Ho [Hout Hseen]. destruct x as [seen xout]. cbn -[version] in Hout, Hseen. specialize (Hseen eq_refl).
  rewrite app_nil_r in Hout. subst xout seen. pose proof (i_obj s Hinv) as H. rewrite Ho in H. destruct H as (_ & _ & _ & _ & Hex & Hop).
  unfold register_read. rewrite Hp, Hcl. destruct (so_copy o) as [c|] eqn:Hc.
  2:{ rewrite (proj1 Hop eq_refl). unfold reader_sim, pending, seen_by, outcome. cbn -[decide]. by destruct (decide (None = last)). }
  assert (Hopen : w_open (st_writer s) = true) by (destruct (w_open _); [done|by pose proof (proj2 Hop eq_refl)]). rewrite Hopen. cbn [negb].
  assert (Hfree : w_unique (st_writer s) = false).
  { destruct (w_unique _) eqn:E; [|done]. specialize (Hex eq_refl). unfold shared in Hex.
    pose proof (total_ge r_shared _ i _ ltac:(auto with skynet) Hr) as Hge. unfold r_shared at 1 in Hge. cbn in Hge. destruct (st_writer s); cbn in *; lia. }
  assert (Hown : w_owns (st_writer s) = true) by (by destruct (st_writer s)).
  destruct (held_live s Hinv c) as (k & Hk & _).
  { pose proof (writer_refs s c) as Hle. unfold obj_holds in Hle. rewrite Ho, Hown, Hc, points_self in Hle. pose proof (w_holds_nonneg c (st_writer s)). lia. }
  pose proof (i_current s Hinv o c k Ho Hc Hown Hk) as Hcur.
  pose proof (i_version s Hinv c k Hk) as Hver. destruct (unpublished _ c); [lia|].
  replace (pred (length (published s))) with (sc_version k) by lia. rewrite Hver.
  assert (Hiff : version (st_copies s) last = Some (sc_version k) ↔ Some c = last).
  { split; [|intros <-; cbn; by rewrite Hk]. destruct last as [d|]; [|done]. cbn. intros (l & Hl & Heq)%fmap_Some. f_equal. by apply (i_distinct s Hinv c d k l). }
  assert (Hv : version (st_copies s) (Some c) = Some (sc_version k)) by (cbn; by rewrite Hk).
  assert (Hm : message (st_copies s) (Some c) = Some (sc_msg k)) by (cbn; by rewrite Hk).
  unfold reader_sim, pending, seen_by, outcome. cbn -[decide version message]. rewrite Hv, Hm.
  destruct (decide (version (st_copies s) last = Some (sc_version k))) as [E|E]; cbn -[decide version].
  - rewrite decide_True by exact (proj1 Hiff E). by split.
  - rewrite decide_False by (intros E2; exact (E (proj2 Hiff E2))). by split.
Qed.

Lemma reader_refines s i call s' g : stm_inv s → register_sim s g → reader_step s i call = Ok s' →
  register_sim s' (register_run g (step_op s (AReader i call))).
Proof.
  intros Hinv Hsim Hstep. pose proof (reader_step_ok s i call Hinv) as Hinv'. rewrite Hstep in Hinv'.
  unfold reader_step, l_new_reader, stm_copy_call, l_read, stm_releasereader, l_delete_reader in Hstep. cbn [step_op]. destruct (st_readers s !! i) as [[pc last out]|] eqn:Hr; [|done].
  assert (Hq : ∀ s1 r', quiet s s1 → s' = set_reader s1 i r' →
    (∀ x, reader_sim (st_copies s) (mkReader pc last out) x → reader_sim (st_copies s) r' x) → register_sim s' g).
  { intros s1 r' Hs1 -> Hx. exact (reader_sim_quiet s s1 i _ r' g Hinv Hinv' Hsim Hs1 Hr Hx). }
  destruct pc as [| | | |c|ret|copy|copy|c|copy|c copy|copy| | | | | |c|]; cbn [r_pc lastcopy r_out register_run foldl] in Hstep |- *.
  4:{ unfold get_obj in Hstep. destruct (st_obj s) as [o|] eqn:Ho; [|done]. injection Hstep as <-.
      eapply (reader_sim_step s s i _ _ g (register_read g)); try done. intros x _ Hx. by eapply load_is_read. }
  all: try (destruct copy as [c|]; [destruct (st_copies s !! c) as [k|] eqn:Hk|]).
  all: inv_ok; try (match goal with x : (_ * stm)%type |- _ => destruct x as [? ?] end); inv_ok.
  all: try (case_match; inv_ok).
  all: try done.
  all: eapply Hq; [|reflexivity|]; [by eauto|].
  all: unfold reader_sim, pending, seen_by, outcome, closing; cbn -[version message decide]; intros x [H1 H2];
    try (rewrite H1, ?app_nil_r, <- ?app_assoc; split; [done|intros; first [done|by apply H2]]).
  all: try (match goal with H : decide _ = _ |- _ => rewrite H in H1 end; split; [done|intros E; rewrite (H2 E); congruence]).
  rewrite H1, app_nil_r. split; [|by apply H2]. cbn. by rewrite Hk.
Qed.

(** ** The writer *)

(** a step of the writer that is no operation of the register *)
Lemma writer_sim_quiet s s1 w' g : stm_inv s → stm_inv (set_wpc s1 w') → register_sim s g → quiet s s1 → w_open w' = w_open (st_writer s) →
  register_sim (set_wpc s1 w') g.
Proof.
  intros Hinv Hinv' [Hp Hcl Hrs] (Hw & Hr1 & Hp1 & Hc) Ho. split; cbn; [congruence|by rewrite Ho|]. rewrite Hr1.
  apply Forall2_same_length_lookup_2; [by eapply Forall2_length|]. intros j rj xj Hj Hxj.
  eapply (others_sim s _ j Hinv'); [|done|done| |by eapply Forall2_lookup_lr].
  - cbn. intros c Hc1 _. by apply Hc.
  - cbn. by rewrite Hr1.
Qed.

(** a new copy is watched by nobody *)
Lemma newcopy_sim s msg a n g : stm_inv s → register_sim s g → st_writer s = WIdle → st_copies s !! a = None →
  register_sim (set_wpc (s <| st_copies := <[a := stm_newcopy msg n]> (st_copies s) |>) (WULock a)) g.
Proof.
  intros Hinv [Hp Hcl Hrs] Hw Ha. split; cbn; [done|by rewrite Hw in Hcl|].
  apply Forall2_same_length_lookup_2; [by eapply Forall2_length|]. intros j rj xj Hj Hxj.
  eapply (reader_sim_ext (st_copies s)); [|by eapply Forall2_lookup_lr]. intros c Hwt.
  destruct (watched_live s j rj c Hinv Hj Hwt) as [k Hk]. unfold same_content. cbn. rewrite lookup_insert_ne by congruence. done.
Qed.

Lemma writer_refines s call s' g : stm_inv s → register_sim s g → writer_step s call = Ok s' →
  register_sim s' (register_run g (step_op s (AWriter call))).
Proof.
  intros Hinv Hsim Hstep. pose proof (writer_step_ok s call Hinv) as Hinv'. rewrite Hstep in Hinv'.
  unfold writer_step, writer_start, stm_grab, stm_update, stm_release in Hstep. cbn [step_op].
  assert (Hq : ∀ s1 w', quiet s s1 → s' = set_wpc s1 w' → w_open w' = w_open (st_writer s) → register_sim s' g).
  { intros s1 w' Hs1 -> Hx. exact (writer_sim_quiet s s1 w' g Hinv Hinv' Hsim Hs1 Hx). }
  destruct (st_writer s) as [| | | |c|c|old|c| | | | |c| | | | |] eqn:Hw; cbn [register_run foldl].
  1:{ destruct call as [|msg a|]; [injection Hstep as <-; by apply (Hq s WGLock)| |injection Hstep as <-; by apply (Hq s WRAssert)].
      destruct (st_copies s !! a) eqn:Ha; [done|]. injection Hstep as <-. by apply newcopy_sim. }
  2:{ inv_ok. destruct a as [z s1]. inv_ok. apply obj_add_quiet in Ha as (Hw1 & Hr1 & Hp1 & Hc). destruct Hsim as [Hp Hcl Hrs].
      split; cbn; [congruence|by rewrite Hw in Hcl|]. rewrite Hr1. apply Forall2_app.
      - apply Forall2_same_length_lookup_2; [by eapply Forall2_length|]. intros j rj xj Hj Hxj.
        eapply (others_sim s _ j Hinv'); [cbn; intros; by apply Hc|done|done|cbn; rewrite Hr1; by apply lookup_app_l_Some|by eapply Forall2_lookup_lr].
      - by repeat constructor. }
  4:{ inv_ok. destruct (st_copies s !! c) as [k|] eqn:Hk; [|done]. inv_ok. destruct Hsim as [Hp Hcl Hrs]. rewrite Hw in Hcl. by split; cbn; rewrite ?Hp. }
  11:{ inv_ok. destruct Hsim as [Hp Hcl Hrs]. by split. }
  all: inv_ok; try (match goal with x : (_ * stm)%type |- _ => destruct x as [? ?] end); inv_ok; try done.
  all: eapply Hq; [|reflexivity|]; [by eauto|done || by case_match].
Qed.

Lemma register_new_sim msg a : register_sim (stm_new msg a) (register_new msg).
Proof. by split. Qed.

Lemma run_refines s acts s' g : stm_inv s → register_sim s g → stm_run s acts = Ok s' → register_sim s' (register_run g (run_ops s acts)).
Proof.
  revert s g. induction acts as [|a acts IH]; intros s g Hinv Hsim; cbn [stm_run run_ops]; [by intros [= <-]|].
  pose proof (stm_step_ok s a Hinv) as Hok. destruct (stm_step s a) as [s1|f] eqn:Hstep; [|done]. cbn [rbind]. intros Hrun.
  unfold register_run. rewrite foldl_app. apply IH; [done| |done]. destruct a; [by apply writer_refines|by apply reader_refines].
Qed.

(** ** What the readers get *)

(** the messages of a reader come from the published ones, in their order, each once *)
Definition in_order (g : register) (x : option nat * list (option (list Z))) : Prop :=
  match x.1 with
  | Some v => (v < length (g_published g))%nat ∧ omap id x.2 `sublist_of` take (S v) (g_published g)
  | None => if g_closed g then omap id x.2 `sublist_of` g_published g else omap id x.2 = []
  end.

Lemma in_order_sublist g x : in_order g x → omap id x.2 `sublist_of` g_published g.
Proof.
  unfold in_order. destruct x.1 as [v|].
  - intros [_ Hs]. etrans; [exact Hs|]. apply sublist_take.
  - destruct (g_closed g); [done|]. intros ->. apply sublist_nil_l.
Qed.

Lemma read_in_order g x : g_published g ≠ [] → in_order g x → in_order g (register_read g x).
Proof.
  intros Hne Hx. pose proof (in_order_sublist g x Hx) as Hsub. destruct x as [seen out]. unfold register_read. cbn [fst snd] in *.
  destruct (g_closed g) eqn:Hc; [unfold in_order; cbn; by rewrite Hc, omap_app, app_nil_r|].
  case_decide as Hv; [unfold in_order in *; cbn [fst snd] in *; subst seen; by rewrite omap_app, app_nil_r|].
  set (v := pred (length (g_published g))) in *. assert (Hlt : (v < length (g_published g))%nat) by (destruct (g_published g); [done|subst v; simpl; lia]).
  destruct (lookup_lt_is_Some_2 _ _ Hlt) as [m Hm]. unfold in_order; cbn [fst snd]. split; [done|]. rewrite omap_app, Hm, (take_S_r _ _ m Hm).
  apply sublist_app; [|done]. unfold in_order in Hx. cbn [fst snd] in Hx. destruct seen as [u|].
  - destruct Hx as [Hu Hx]. etrans; [exact Hx|]. assert (u < v)%nat by (assert (u ≠ v) by congruence; subst v; lia).
    assert (E : take (S u) (g_published g) = take (S u) (take v (g_published g))) by (rewrite take_take; f_equal; lia).
    rewrite E. apply sublist_take.
  - rewrite Hc in Hx. rewrite Hx. apply sublist_nil_l.
Qed.

Lemma register_in_order msg ops : let g := register_run (register_new msg) ops in
  g_published g ≠ [] ∧ Forall (in_order g) (g_readers g).
Proof.
  cbn zeta. induction ops as [|op ops IH] using rev_ind; [by split; [|constructor]|]. destruct IH as [Hne Hall].
  unfold register_run in *. rewrite foldl_app. cbn [foldl]. set (g := foldl register_step (register_new msg) ops) in *.
  destruct op as [|m| |i]; cbn [register_step set_to g_published g_readers].
  - split; [done|]. cbn. apply Forall_app. split; [done|]. constructor; [|constructor]. unfold in_order. cbn. destruct (g_closed g); [apply sublist_nil_l|done].
  - split; [by destruct (g_published g)|]. eapply Forall_impl; [done|]. intros [[v|] out]; unfold in_order; cbn.
    + intros [Hv Hs]. rewrite length_app, take_app_le by lia. split; [lia|done].
    + destruct (g_closed g); [|done]. intros Hs. etrans; [exact Hs|]. by apply sublist_inserts_r.
  - split; [done|]. eapply Forall_impl; [done|]. intros x Hx. pose proof (in_order_sublist g x Hx). unfold in_order in *. by destruct x.1.
  - split; [done|]. cbn. apply Forall_lookup. intros j x Hx.
    assert (Hin : ∀ y, in_order g y → in_order (g <| g_readers := alter (register_read g) i (g_readers g) |>) y) by done.
    destruct (decide (i = j)) as [<-|Hij].
    + rewrite list_lookup_alter_eq in Hx. destruct (g_readers g !! i) as [y|] eqn:Hy; [|done]. injection Hx as <-.
      apply (read_in_order g y Hne). by eapply Forall_lookup_1.
    + rewrite list_lookup_alter_ne in Hx by done. by eapply Forall_lookup_1.
Qed.

(** C12: The writer and its readers are an atomic register, in every interleaving: the
    operations that the steps of a run stand for, done one after the other, publish the same
    messages and give each reader the same results, apart from the one of a call that has not
    returned. A read takes the last message at the moment it loads the pointer, and finds out
    by comparing addresses whether the reader has it already. *)
Theorem stm_refines_register msg a acts s : stm_run (stm_new msg a) acts = Ok s →
  let g := register_run (register_new msg) (run_ops (stm_new msg a) acts) in
  g_published g = published s ∧
  Forall2 (λ r x, ∃ underway, x.2 = r_out r ++ underway ∧ (length underway <= 1)%nat ∧ (r_pc r = RIdle → underway = []))
    (st_readers s) (g_readers g).
Proof.
  intros Hrun. cbn zeta. destruct (run_refines _ acts s _ (stm_new_inv msg a) (register_new_sim msg a) Hrun) as [Hp _ Hrs].
  split; [done|]. eapply Forall2_impl; [done|]. intros r x [Hx _]. exists (pending (st_copies s) r). split; [done|].
  unfold pending. destruct (r_pc r); cbn; split; done || lia.
Qed.

(** A reader gets each message of the writer at most once and in the order in which they
    were published, whatever it misses in between. *)
Theorem stm_readers_in_order msg a acts s i r : stm_run (stm_new msg a) acts = Ok s → st_readers s !! i = Some r →
  omap id (r_out r) `sublist_of` published s.
Proof.
  intros Hrun Hr. destruct (run_refines _ acts s _ (stm_new_inv msg a) (register_new_sim msg a) Hrun) as [Hp _ Hrs].
  destruct (register_in_order msg (run_ops (stm_new msg a) acts)) as [_ Hall]. rewrite <- Hp.
  destruct (Forall2_lookup_l _ _ _ _ _ Hrs Hr) as (x & Hx & [Hout _]). etrans; [|apply in_order_sublist; by eapply Forall_lookup_1].
  rewrite Hout, omap_app. apply sublist_inserts_r. done.
Qed.

(** a reader that reads, misses a message, reads again and asks once more *)
Definition stm_example : list stm_action :=
  replicate 4 (AWriter Grab) ++ [AReader 0 Read] ++ replicate 8 (AReader 0 Read) ++
  AWriter (Update [2] 8) :: replicate 4 (AWriter Grab) ++ AWriter (Update [3] 9) :: replicate 5 (AWriter Grab) ++
  replicate 16 (AReader 0 Read).

Lemma stm_refines_register_witness : ∃ s, stm_run (stm_new [1] 7) stm_example = Ok s ∧ published s = [[1]; [2]; [3]] ∧
  g_published (register_run (register_new [1]) (run_ops (stm_new [1] 7) stm_example)) = published s.
Proof.
  destruct (stm_run (stm_new [1] 7) stm_example) as [s|f] eqn:E; [|by vm_compute in E].
  exists s. split_and!; [done|vm_compute in E; by injection E as <-|]. by destruct (stm_refines_register [1] 7 stm_example s E) as [H _].
Defined.

Lemma stm_readers_in_order_witness : ∃ s r, stm_run (stm_new [1] 7) stm_example = Ok s ∧ st_readers s !! 0%nat = Some r ∧
  r_out r = [Some [1]; Some [3]; None] ∧ omap id (r_out r) `sublist_of` published s.
Proof.
  destruct (stm_run (stm_new [1] 7) stm_example) as [s|f] eqn:E; [|by vm_compute in E].
  destruct (st_readers s !! 0%nat) as [r|] eqn:Er; [|exfalso; vm_compute in E; injection E as <-; by vm_compute in Er].
  exists s, r. split_and!; [done|done| |by apply (stm_readers_in_order [1] 7 stm_example s 0 r)].
  vm_compute in E. injection E as <-. vm_compute in Er. by injection Er as <-.
Defined.
