(* ===== verification/ShareData.v ===== *)
(** * Shared configuration tables (luaclib-src/lua-sharedata.cpp)

    A service turns a Lua table into a structure in C that other services read without
    copying: [lnewconf] writes every table as an array and a hash table with chains, all
    strings go to the stack of a Lua state of their own. [lindexconf] looks up a key,
    [lnextkey] enumerates the keys, [ldeleteconf] frees everything.

    A Lua table is the list of its entries in the order of [lua_next], as in [Seri]. The
    tables in C have addresses, which [malloc] gives out in order. A slot of a hash table has
    no key until it is filled. [lua_rawlen] is a parameter, and so are the number of nested
    C calls that Lua allows (a table that contains itself exceeds it) and the room on the Lua
    stack. What the conversion of a table leaves behind when it fails is not tracked. *)
From S2P Require Import Prelude LuaCall Seri.
Open Scope list_scope.
Open Scope Z_scope.

Notation entries := (list (lua_value * lua_value)) (only parsing).

Definition KEYTYPE_INTEGER : Z := 0.
Definition KEYTYPE_STRING : Z := 1.

(** [union value] with its [valuetype]; a string is an index of the string table *)
Inductive value := VNil | VReal (bits : Z) | VString (index : Z) | VBoolean (b : bool) | VTable (tbl : Z) | VInteger (d : Z).
#[export] Instance value_eq_dec : EqDecision value.
Proof. solve_decision. Defined.

(** the fields of a slot that are set when a key is stored *)
Record node_key := mkKey { nk_key : Z; nk_type : Z; nk_hash : Z; nk_next : Z }.
#[export] Instance eta_node_key : Eta node_key := λ r, mkKey (nk_key r) (nk_type r) (nk_hash r) (nk_next r).
Record node := mkNode { n_value : value; n_key : option node_key; n_nocolliding : bool }.
#[export] Instance eta_node : Eta node := λ r, mkNode (n_value r) (n_key r) (n_nocolliding r).

(** [arraytype] and [array], and [hash] *)
Record table := mkTable { t_array : list value; t_hash : list node }.
Definition sizearray (t : table) : Z := Z.of_nat (length (t_array t)).
Definition sizehash (t : table) : Z := Z.of_nat (length (t_hash t)).

(** [struct context]: the tables so far, the next address, and the map of strings *)
Record context := mkContext { x_tables : gmap Z table; x_next : Z; x_strings : gmap (list Z) Z; string_index : Z }.
#[export] Instance eta_context : Eta context := λ r, mkContext (x_tables r) (x_next r) (x_strings r) (string_index r).

Inductive sd_error :=
  | InvalidKey | InvalidKeyType | UnsupportValue | StringExpected | NeedTable | NeedConf | CStackOverflow | StackOverflow | UpdateSameObject.
Notation sdlua := (lua_call sd_error).

(** ** Conversion *)

Definition countsize_key (n sizearray : Z) (k : lua_value) : sdlua Z :=
  match k with
  | LReal _ => luaL_error InvalidKey
  | LInt nkey => lret (if (0 <? nkey) && (nkey <=? sizearray) then n else n + 1)
  | LString _ | LTable _ _ => lret (n + 1)
  | _ => luaL_error InvalidKeyType
  end.
Fixpoint countsize_loop (es : entries) (sizearray n : Z) : sdlua Z :=
  match es with
  | [] => lret n
  | (k, _) :: es => n <~ countsize_key n sizearray k;; countsize_loop es sizearray n
  end.
Definition countsize (es : entries) (sizearray : Z) : sdlua Z := countsize_loop es sizearray 0.

(** the loop of [calchash], from [l1] down *)
Fixpoint calchash_loop (fuel : nat) (str : list Z) (h l1 step : Z) : Z :=
  match fuel with
  | O => h
  | S fuel =>
      if l1 <? step then h
      else calchash_loop fuel str (Z.lxor h (u32 (u32 (Z.shiftl h 5) + Z.shiftr h 2 + nth (Z.to_nat (l1 - 1)) str 0))) (l1 - step) step
  end.
Definition calchash (str : list Z) : Z :=
  let l := Z.of_nat (length str) in
  calchash_loop (length str) str (u32 l) l (Z.shiftr l 5 + 1).

Definition stringindex (ctx : context) (str : list Z) : context * Z :=
  match x_strings ctx !! str with
  | Some index => (ctx, index)
  | None =>
      let index := string_index ctx + 1 in
      (ctx <| string_index := index |> <| x_strings := <[str := index]> (x_strings ctx) |>, index)
  end.

(** [lua_tolstring] of a key; it gives a null pointer and length 0 for a table *)
Definition key_string (k : lua_value) : list Z := match k with LString s => s | _ => [] end.

(** [ishashkey]: the position in the array, or the key, its hash and its type *)
Inductive key_place := InArray (key : Z) | InHash (key keyhash keytype : Z).

Definition ishashkey (ctx : context) (sizearray : Z) (k : lua_value) : context * key_place :=
  match k with
  | LInt z =>
      let key := s32 z in
      (ctx, if (0 <? key) && (key <=? sizearray) then InArray key else InHash key (u32 key) KEYTYPE_INTEGER)
  | _ =>
      let s := key_string k in
      let '(ctx, key) := stringindex ctx s in
      (ctx, InHash key (calchash s) KEYTYPE_STRING)
  end.

(** a slot as [convtable] leaves it before the table is filled *)
Definition empty_node : node := mkNode VNil None false.
Definition is_nil (v : value) : bool := match v with VNil => true | _ => false end.

Section convert.
Variable rawlen : entries → Z.

Section tables.
(** [convtable] for the tables inside *)
Variable convtable : context → entries → sdlua (context * Z).

Definition setvalue (ctx : context) (v : lua_value) : sdlua (context * value) :=
  match v with
  | LNil => lret (ctx, VNil)
  | LInt z => lret (ctx, VInteger z)
  | LReal bits => lret (ctx, VReal bits)
  | LString s => let '(ctx, index) := stringindex ctx s in lret (ctx, VString index)
  | LBool b => lret (ctx, VBoolean b)
  | LTable es _ => let~ (ctx, p) := convtable ctx es in lret (ctx, VTable p)
  | LUserdata _ | LOther _ => luaL_error UnsupportValue
  end.

Definition setarray (ctx : context) (arr : list value) (v : lua_value) (key : Z) : sdlua (context * list value) :=
  let~ (ctx, n) := setvalue ctx v in
  arr <~ lift (arr_set arr (key - 1) n);;
  lret (ctx, arr).

Fixpoint fillnocolliding (es : entries) (ctx : context) (arr : list value) (hash : list node) : sdlua (context * list value * list node) :=
  match es with
  | [] => lret (ctx, arr, hash)
  | (k, v) :: es =>
      let '(ctx, place) := ishashkey ctx (Z.of_nat (length arr)) k in
      match place with
      | InArray key =>
          let~ (ctx, arr) := setarray ctx arr v key in
          fillnocolliding es ctx arr hash
      | InHash key keyhash keytype =>
          let slot := keyhash mod Z.of_nat (length hash) in
          n <~ lift (arr_get hash slot);;
          if is_nil (n_value n) then
            let~ (ctx, val) := setvalue ctx v in
            hash <~ lift (arr_set hash slot (mkNode val (Some (mkKey key keytype keyhash (-1))) true));;
            fillnocolliding es ctx arr hash
          else fillnocolliding es ctx arr hash
      end
  end.

(** the search for an empty slot from [i] on; [assert(n)] when there is none *)
Fixpoint find_empty (fuel : nat) (hash : list node) (i : Z) : result Z :=
  match fuel with
  | O => Err AssertFail
  | S fuel =>
      n <- arr_get hash i;;
      if is_nil (n_value n) then Ok i else find_empty fuel hash (i + 1)
  end.

Definition get_key (n : node) : result node_key := match n_key n with Some k => Ok k | None => Err UninitRead end.

Fixpoint fillcolliding (es : entries) (ctx : context) (sizearray : Z) (hash : list node) (emptyslot : Z) : sdlua (context * list node) :=
  match es with
  | [] => lret (ctx, hash)
  | (k, v) :: es =>
      let '(ctx, place) := ishashkey ctx sizearray k in
      match place with
      | InArray _ => fillcolliding es ctx sizearray hash emptyslot
      | InHash key keyhash keytype =>
          let slot := keyhash mod Z.of_nat (length hash) in
          mainpos <~ lift (arr_get hash slot);;
          mk <~ lift (get_key mainpos);;
          if (nk_type mk =? keytype) && (nk_key mk =? key) then fillcolliding es ctx sizearray hash emptyslot
          else
            i <~ lift (find_empty (Z.to_nat (Z.of_nat (length hash) - emptyslot)) hash emptyslot);;
            let~ (ctx, val) := setvalue ctx v in
            hash <~ lift (arr_set hash slot (mkNode (n_value mainpos) (Some (mk <| nk_next := i |>)) false));;
            hash <~ lift (arr_set hash i (mkNode val (Some (mkKey key keytype keyhash (nk_next mk))) false));;
            fillcolliding es ctx sizearray hash (i + 1)
      end
  end.

(** the array of a table that has nothing else *)
Fixpoint fill_array (n : nat) (i : Z) (es : entries) (ctx : context) (arr : list value) : sdlua (context * list value) :=
  match n with
  | O => lret (ctx, arr)
  | S n => let~ (ctx, arr) := setarray ctx arr (rawgeti es i) i in fill_array n (i + 1) es ctx arr
  end.

Definition convtable_body (ctx : context) (es : entries) : sdlua (context * table) :=
  let size := s32 (rawlen es) in
  let arr := replicate (Z.to_nat size) VNil in
  n <~ countsize es size;;
  if n =? 0 then
    let~ (ctx, arr) := fill_array (Z.to_nat size) 1 es ctx arr in
    lret (ctx, mkTable arr [])
  else
    let~ (ctx, arr, hash) := fillnocolliding es ctx arr (replicate (Z.to_nat n) empty_node) in
    let~ (ctx, hash) := fillcolliding es ctx (Z.of_nat (length arr)) hash 0 in
    lret (ctx, mkTable arr hash).
End tables.

(** The table is allocated before the ones inside it, by [setvalue] or [lnewconf]. [calls] is
    how many nested calls Lua still allows. *)
Fixpoint convtable (calls : nat) (ctx : context) (es : entries) : sdlua (context * Z) :=
  match calls with
  | O => luaL_error CStackOverflow
  | S calls =>
      let p := x_next ctx in
      let~ (ctx, t) := convtable_body (convtable calls) (ctx <| x_next := p + 1 |>) es in
      lret (ctx <| x_tables := <[p := t]> (x_tables ctx) |>, p)
  end.

(** ** A converted table *)

(** [struct state] is slot 1 of the stack, the strings are above it; [ref] is not set *)
Record conf := mkConf { cf_tables : gmap Z table; cf_stack : gmap Z (list Z); cf_dirty : Z; cf_ref : option Z }.

Definition convert_stringmap (ctx : context) : gmap Z (list Z) :=
  map_fold (λ str idx stack, <[idx := str]> stack) ∅ (x_strings ctx).

(** [pconv] reserves the stack for the strings *)
Definition lnewconf (calls : nat) (stack_room : Z) (v : lua_value) : sdlua (conf * Z) :=
  match v with
  | LTable es _ =>
      let~ (ctx, p) := convtable calls (mkContext ∅ 1 ∅ 1) es in
      if stack_room <? string_index ctx + 3 then luaL_error StackOverflow
      else lret (mkConf (x_tables ctx) (convert_stringmap ctx) 0 None, p)
  | _ => luaL_error NeedTable
  end.
End convert.
#[export] Instance eta_conf : Eta conf := λ r, mkConf (cf_tables r) (cf_stack r) (cf_dirty r) (cf_ref r).

(** [lua_touserdata] gives 0, the null pointer, for what is not userdata; a table that was deleted must not be used *)
Definition get_table (c : conf) (p : Z) : sdlua table :=
  if p =? 0 then luaL_error NeedConf
  else match cf_tables c !! p with Some t => lret t | None => Err UseAfterFree end.

(** [lua_tolstring] from the state with the strings *)
Definition stack_string (c : conf) (idx : Z) : result (list Z) :=
  match cf_stack c !! idx with Some s => Ok s | None => Err NullDeref end.

(** a table is given to Lua by its address *)
Definition pushvalue (c : conf) (v : value) : result lua_value :=
  match v with
  | VReal bits => Ok (LReal bits)
  | VInteger d => Ok (LInt d)
  | VString idx => s <- stack_string c idx;; Ok (LString s)
  | VBoolean b => Ok (LBool b)
  | VTable p => Ok (LUserdata p)
  | VNil => Ok LNil
  end.

(** [key] or [str], as [keytype] says; the slot is given by its index *)
Fixpoint lookup_loop (fuel : nat) (c : conf) (hash : list node) (i keyhash key keytype : Z) (str : list Z) : result (option Z) :=
  match fuel with
  | O => Err OutOfFuel
  | S fuel =>
      n <- arr_get hash i;;
      k <- get_key n;;
      hit <- (if keyhash =? nk_hash k then
                if nk_type k =? KEYTYPE_INTEGER then Ok ((keytype =? KEYTYPE_INTEGER) && (nk_key k =? key))
                else if keytype =? KEYTYPE_STRING then s <- stack_string c (nk_key k);; Ok (bool_decide (str = s))
                else Ok false
              else Ok false);;
      if (hit : bool) then Ok (Some i)
      else if nk_next k <? 0 then Ok None
      else lookup_loop fuel c hash (nk_next k) keyhash key keytype str
  end.

Definition lookup_key (c : conf) (t : table) (keyhash key keytype : Z) (str : list Z) : result (option Z) :=
  if sizehash t =? 0 then Ok None
  else
    let slot := keyhash mod sizehash t in
    n <- arr_get (t_hash t) slot;;
    k <- get_key n;;
    if negb (keyhash =? nk_hash k) && n_nocolliding n then Ok None
    else lookup_loop (length (t_hash t)) c (t_hash t) slot keyhash key keytype str.

(** the results: none, or a value *)
Definition lindexconf (c : conf) (p : Z) (k : lua_value) : sdlua (option lua_value) :=
  t <~ get_table c p;;
  let lookup keyhash key keytype str :=
    o <~ lift (lookup_key c t keyhash key keytype str);;
    match o with
    | Some i => n <~ lift (arr_get (t_hash t) i);; v <~ lift (pushvalue c (n_value n));; lret (Some v)
    | None => lret None
    end in
  match k with
  | LReal _ => luaL_error InvalidKey
  | LInt z =>
      let key := s32 z in
      if (0 <? key) && (key <=? sizearray t)
      then a <~ lift (arr_get (t_array t) (key - 1));; v <~ lift (pushvalue c a);; lret (Some v)
      else lookup (u32 key) key KEYTYPE_INTEGER []
  | LString s => lookup (calchash s) 0 KEYTYPE_STRING s
  | _ => luaL_error StringExpected
  end.

Definition pushkey (c : conf) (n : node) : result lua_value :=
  k <- get_key n;;
  if nk_type k =? KEYTYPE_INTEGER then Ok (LInt (nk_key k)) else s <- stack_string c (nk_key k);; Ok (LString s).

Definition pushfirsthash (c : conf) (t : table) : result (option lua_value) :=
  if negb (sizehash t =? 0) then n <- arr_get (t_hash t) 0;; k <- pushkey c n;; Ok (Some k) else Ok None.

(** the first index from [i] on whose value is not nil *)
Fixpoint next_in_array (fuel : nat) (arr : list value) (i : Z) : result (option Z) :=
  match fuel with
  | O => Ok None
  | S fuel => v <- arr_get arr i;; if is_nil v then next_in_array fuel arr (i + 1) else Ok (Some i)
  end.
Definition next_array (c : conf) (t : table) (i : Z) : result (option lua_value) :=
  o <- next_in_array (Z.to_nat (sizearray t - i)) (t_array t) i;;
  match o with Some i => Ok (Some (LInt (i + 1))) | None => pushfirsthash c t end.

Definition lnextkey (c : conf) (p : Z) (k : lua_value) : sdlua (option lua_value) :=
  t <~ get_table c p;;
  let next keyhash key keytype str :=
    o <~ lift (lookup_key c t keyhash key keytype str);;
    match o with
    | Some i =>
        if i + 1 =? sizehash t then lret None
        else n <~ lift (arr_get (t_hash t) (i + 1));; k <~ lift (pushkey c n);; lret (Some k)
    | None => lret None
    end in
  match k with
  | LNil => lift (next_array c t 0)
  | LReal _ => lret None
  | LInt z =>
      let key := s32 z in
      if (0 <? key) && (key <=? sizearray t) then lift (next_array c t key)
      else next (u32 key) key KEYTYPE_INTEGER []
  | LString s => next (calchash s) 0 KEYTYPE_STRING s
  | _ => luaL_error StringExpected
  end.

Definition llen (c : conf) (p : Z) : sdlua Z := t <~ get_table c p;; lret (sizearray t).
Definition lhashlen (c : conf) (p : Z) : sdlua Z := t <~ get_table c p;; lret (sizehash t).

(** ** Deletion and the owners *)

(** the nested tables of the array, then those of the hash table, then the table itself *)
Fixpoint delete_tbl (fuel : nat) (p : Z) (tables : gmap Z table) : result (gmap Z table) :=
  match fuel with
  | O => Err OutOfFuel
  | S fuel =>
      match tables !! p with
      | None => Err DoubleFree
      | Some t =>
          tables <- foldl (λ m v, tables <- m;; match v with VTable q => delete_tbl fuel q tables | _ => Ok tables end)
                      (Ok tables) (t_array t ++ map n_value (t_hash t));;
          match tables !! p with Some _ => Ok (delete p tables) | None => Err DoubleFree end
      end
  end.

(** [lua_close] drops the strings; a table is nested at most as deep as there are tables *)
Definition ldeleteconf (c : conf) (p : Z) : sdlua (gmap Z table) :=
  t <~ get_table c p;; lift (delete_tbl (S (size (cf_tables c))) p (cf_tables c)).

(** [s->ref += d] with the value after; [s] is reached through the stack of any of its tables *)
Definition ref_add (c : conf) (p d : Z) : sdlua (conf * Z) :=
  t <~ get_table c p;;
  match cf_ref c with
  | Some ref => lret (c <| cf_ref := Some (s32 (ref + d)) |>, s32 (ref + d))
  | None => Err UninitRead
  end.
Definition lincref (c : conf) (p : Z) : sdlua (conf * Z) := ref_add c p 1.
Definition ldecref (c : conf) (p : Z) : sdlua (conf * Z) := ref_add c p (-1).
Definition lgetref (c : conf) (p : Z) : sdlua Z :=
  t <~ get_table c p;; match cf_ref c with Some ref => lret ref | None => Err UninitRead end.
Definition lmarkdirty (c : conf) (p : Z) : sdlua conf := t <~ get_table c p;; lret (c <| cf_dirty := 1 |>).
Definition lisdirty (c : conf) (p : Z) : sdlua bool := t <~ get_table c p;; lret (negb (cf_dirty c =? 0)).

(** [struct ctrl] of a client; the Lua table kept beside the update is not modelled *)
Record ctrl := mkCtrl { c_root : option Z; c_update : option Z }.
Definition lboxconf (c : conf) (p : Z) : sdlua (conf * ctrl) := let~ (c, _) := ref_add c p 1 in lret (c, mkCtrl (Some p) None).
Definition releaseobj (c : conf) (x : ctrl) : sdlua (conf * ctrl) :=
  match c_root x with
  | Some p => let~ (c, _) := ref_add c p (-1) in lret (c, mkCtrl None None)
  | None => Err NullDeref
  end.
Definition lneedupdate (x : ctrl) : option Z := c_update x.
Definition lupdate (x : ctrl) (n : Z) : sdlua ctrl :=
  if bool_decide (c_root x = Some n) then luaL_error UpdateSameObject else lret (mkCtrl (c_root x) (Some n)).

(** [find_node] of lualib/skynet/sharedata/corelib.lua; a nil key ends the path *)
Fixpoint find_node (c : conf) (cobj : Z) (keys : list lua_value) : sdlua lua_value :=
  match keys with
  | [] | LNil :: _ => lret (LUserdata cobj)
  | key :: keys =>
      o <~ lindexconf c cobj key;;
      match o with
      | Some (LUserdata p) => find_node c p keys
      | Some v => lret v
      | None => lret LNil
      end
  end.

(** [obj[key] = v] *)
Definition table_set (obj : entries) (k v : lua_value) : entries :=
  let others := filter (λ p, key_eqb p.1 k = false) obj in
  match v with LNil => others | _ => others ++ [(k, v)] end.

(** [clone_table] of corelib.lua, with the [clone_table] for the tables inside *)
Fixpoint clone_loop (clone : Z → sdlua lua_value) (fuel : nat) (c : conf) (cobj : Z) (key : lua_value) (obj : entries) : sdlua entries :=
  match fuel with
  | O => Err OutOfFuel
  | S fuel =>
      o <~ lnextkey c cobj key;;
      match o with
      | None => lret obj
      | Some key =>
          o <~ lindexconf c cobj key;;
          v <~ (match o with
                | Some (LUserdata p) => clone p
                | Some v => lret v
                | None => lret LNil
                end);;
          clone_loop clone fuel c cobj key (table_set obj key v)
      end
  end.

(** [calls]: how deep Lua functions may call each other *)
Fixpoint clone_table (calls : nat) (c : conf) (cobj : Z) : sdlua lua_value :=
  match calls with
  | O => luaL_error CStackOverflow
  | S calls =>
      t <~ get_table c cobj;;
      es <~ clone_loop (clone_table calls c) (S (length (t_array t) + length (t_hash t))) c cobj LNil [];;
      lret (LTable es None)
  end.
