(* ===== verification/ShareHash.v ===== *)
(** * Shared configuration tables: what a converted table holds

    Well-formed Lua tables, the relation between a Lua value and its form in C, and the hash
    table with its chains: how it is filled in two passes. *)
From S2P Require Import Prelude LuaCall Seri ShareData.
Open Scope list_scope.
Open Scope Z_scope.

(** ** Keys and Lua tables *)

(** the keys that the code supports: strings, and integers that fit an [int] *)
Inductive skey := KInt (z : Z) | KStr (s : list Z).
#[export] Instance skey_eq_dec : EqDecision skey.
Proof. solve_decision. Defined.

Definition key_lua (k : skey) : lua_value := match k with KInt z => LInt z | KStr s => LString s end.
Definition hash_of (k : skey) : Z := match k with KInt z => u32 z | KStr s => calchash s end.
Definition type_of (k : skey) : Z := match k with KInt _ => KEYTYPE_INTEGER | KStr _ => KEYTYPE_STRING end.
Definition array_key (size : Z) (k : skey) : bool := match k with KInt z => (0 <? z) && (z <=? size) | KStr _ => false end.

Lemma key_lua_inj k k' : key_lua k = key_lua k' → k = k'.
Proof. destruct k, k'; simpl; congruence. Qed.

Definition key_ok (kl : lua_value) : Prop := match kl with LInt z => is_s32 z | LString _ => True | _ => False end.

(** keys are different, values are there and can be shared *)
Fixpoint wf_value (v : lua_value) : Prop :=
  match v with
  | LTable es _ => NoDup es.*1 ∧ foldr (λ p P, (key_ok p.1 ∧ p.2 ≠ LNil ∧ wf_value p.2) ∧ P) True es
  | LUserdata _ | LOther _ => False
  | _ => True
  end.
(** how deep tables are nested *)
Fixpoint depth (v : lua_value) : nat :=
  match v with LTable es _ => S (foldr (λ p d, max (depth p.2) d) 0%nat es) | _ => 0%nat end.

Definition wf_entries (es : entries) : Prop := NoDup es.*1 ∧ ∀ kl lv, (kl, lv) ∈ es → key_ok kl ∧ lv ≠ LNil ∧ wf_value lv.

Lemma wf_table es m : wf_value (LTable es m) ↔ wf_entries es.
Proof.
  unfold wf_entries. cbn. f_equiv. induction es as [|[kl lv] es IH]; cbn; [split; [by intros _ ? ? ?%elem_of_nil|done]|].
  rewrite IH. setoid_rewrite elem_of_cons. split.
  - intros [H1 H2] kl' lv' [[= -> ->]|Hin]; [done|by eapply H2].
  - intros H. split; [apply H; by left|]. intros kl' lv' Hin. apply H. by right.
Qed.

Lemma depth_entry es m kl lv : (kl, lv) ∈ es → (depth lv < depth (LTable es m))%nat.
Proof.
  cbn. induction es as [|[kl' lv'] es IH]; [by intros ?%elem_of_nil|]. cbn. intros [[= -> ->]|Hin]%elem_of_cons; [lia|]. specialize (IH Hin). lia.
Qed.

Lemma key_ok_inv kl : key_ok kl → ∃ k, kl = key_lua k ∧ match k with KInt z => is_s32 z | KStr _ => True end.
Proof. destruct kl; try done; [by exists (KInt z)|by exists (KStr s)]. Qed.

Lemma entry_unique (es : entries) kl lv lv' : NoDup es.*1 → (kl, lv) ∈ es → (kl, lv') ∈ es → lv = lv'.
Proof.
  intros Hnd H1 H2. induction es as [|[k v] es IH]; [by apply elem_of_nil in H1|]. cbn in Hnd. apply NoDup_cons in Hnd as [Hn Hnd].
  assert (Hno : ∀ v', (k, v') ∉ es) by (intros v' Hin; destruct Hn; apply list_elem_of_fmap; by exists (k, v')).
  apply elem_of_cons in H1, H2. destruct H1 as [H1|H1], H2 as [H2|H2]; [congruence| | |by apply IH].
  - injection H1 as <- <-. by destruct (Hno lv').
  - injection H2 as <- <-. by destruct (Hno lv).
Qed.

(** ** The state of a conversion *)

Record ctx_ok (X : context) : Prop := {
  x_fresh q t : x_tables X !! q = Some t → 0 < q < x_next X;
  x_addr : 0 < x_next X;
  x_idx s i : x_strings X !! s = Some i → 1 < i <= string_index X;
  x_pos : 1 <= string_index X;
  x_inj s s' i : x_strings X !! s = Some i → x_strings X !! s' = Some i → s = s';
  x_small q t : x_tables X !! q = Some t → Z.of_nat (length (t_array t)) <= INT_MAX;
  x_count : string_index X = 1 + Z.of_nat (size (x_strings X))
}.

Record ext (X X' : context) : Prop := {
  e_next : x_next X <= x_next X';
  e_tables q t : x_tables X !! q = Some t → x_tables X' !! q = Some t;
  e_old q t : x_tables X' !! q = Some t → q < x_next X → x_tables X !! q = Some t;
  e_strings s i : x_strings X !! s = Some i → x_strings X' !! s = Some i
}.

#[export] Instance ext_preorder : PreOrder ext.
Proof.
  split; [by intros X; split|]. intros X Y Z [n1 t1 o1 s1] [n2 t2 o2 s2]. split; [lia|eauto| |eauto].
  intros q t Hq Hlt. apply o1; [|done]. apply o2; [done|lia].
Qed.

Lemma stringindex_spec X s : ctx_ok X → ∃ X' i, stringindex X s = (X', i) ∧ ext X X' ∧ ctx_ok X' ∧ x_strings X' !! s = Some i.
Proof.
  intros HX. unfold stringindex. destruct (x_strings X !! s) as [i|] eqn:Hs; [by exists X, i|].
  eexists _, _. split; [done|]. split_and!.
  - split; try done. cbn. intros s' i Hi. rewrite lookup_insert_ne; [done|]. intros <-. congruence.
  - destruct HX as [Hf Ha Hi Hp Hj Hm Hc]. split; cbn; [done|done| |lia| |done|rewrite map_size_insert_None by done; lia].
    + intros s' i. rewrite lookup_insert_Some. intros [[<- <-]|[_ H]]; [lia|specialize (Hi _ _ H); lia].
    + intros s1 s2 i. rewrite !lookup_insert_Some. intros [[<- <-]|[_ H1]] [[<- H2]|[_ H2]]; [done| | |by eapply Hj].
      * specialize (Hi _ _ H2). lia.
      * subst i. specialize (Hi _ _ H1). lia.
  - cbn. apply lookup_insert_eq.
Qed.

(** the number that stands for a key *)
Definition raw_key (X : context) (k : skey) (key : Z) : Prop := match k with KInt z => key = z | KStr s => x_strings X !! s = Some key end.

Lemma raw_key_ext X X' k key : ext X X' → raw_key X k key → raw_key X' k key.
Proof. intros [_ _ _ Hs]. destruct k; cbn; [done|apply Hs]. Qed.
Lemma raw_key_inj X k k' key : ctx_ok X → type_of k = type_of k' → raw_key X k key → raw_key X k' key → k = k'.
Proof. intros HX. destruct k, k'; cbn; try done; intros _; [congruence|]. intros H1 H2. f_equal. by eapply (x_inj X HX). Qed.

(** where a key goes *)
Lemma ishashkey_spec X size k : ctx_ok X → key_ok (key_lua k) →
  ∃ X', ext X X' ∧ ctx_ok X' ∧
    if array_key size k then ∃ z, k = KInt z ∧ ishashkey X size (key_lua k) = (X', InArray z)
    else ∃ key, raw_key X' k key ∧ ishashkey X size (key_lua k) = (X', InHash key (hash_of k) (type_of k)).
Proof.
  intros HX Hk. destruct k as [z|s]; cbn.
  - exists X. split; [done|]. split; [done|]. cbn in Hk. rewrite s32_small by done.
    destruct ((0 <? z) && (z <=? size)); [by exists z|by exists z].
  - destruct (stringindex_spec X s HX) as (X' & i & E & Hext & HX' & Hs). exists X'. split; [done|]. split; [done|].
    exists i. split; [done|]. unfold ishashkey. cbn. by rewrite E.
Qed.

(** ** Lua values in C *)

(** the slot [n] holds the key [k] *)
Definition node_for (X : context) (k : skey) (n : node) : Prop :=
  ∃ nk, n_key n = Some nk ∧ raw_key X k (nk_key nk) ∧ nk_type nk = type_of k ∧ nk_hash nk = hash_of k.

(** the table [t] has the value [v] for the key [k] *)
Definition t_get (X : context) (t : table) (k : skey) (v : value) : Prop :=
  if array_key (sizearray t) k then match k with KInt z => t_array t !! Z.to_nat (z - 1) = Some v | KStr _ => False end
  else ∃ i n, t_hash t !! i = Some n ∧ node_for X k n ∧ n_value n = v.

(** the slots of a chain follow each other, the last one ends it *)
Fixpoint linked (hash : list node) (l : list nat) : Prop :=
  match l with
  | [] => True
  | a :: l => (∃ n nk, hash !! a = Some n ∧ n_key n = Some nk ∧ nk_next nk = match l with [] => -1 | b :: _ => Z.of_nat b end) ∧ linked hash l
  end.

Definition slot_of (hash : list node) (k : skey) : nat := Z.to_nat (hash_of k mod Z.of_nat (length hash)).

(** all keys with the same main slot are in one chain, which starts there *)
Record chains_ok (X : context) (hash : list node) (C : nat → list nat) : Prop := {
  c_linked j : linked hash (C j);
  c_head j a l : C j = a :: l → a = j;
  c_nodup j : NoDup (C j);
  c_same j i : i ∈ C j → ∃ n k, hash !! i = Some n ∧ node_for X k n ∧ slot_of hash k = j;
  c_in i n k : hash !! i = Some n → node_for X k n → i ∈ C (slot_of hash k);
  c_single i n nk : hash !! i = Some n → n_key n = Some nk → n_nocolliding n = true → nk_next nk = -1
}.

Definition keys_distinct (X : context) (hash : list node) : Prop :=
  ∀ i j k n n', hash !! i = Some n → hash !! j = Some n' → node_for X k n → node_for X k n' → i = j.

(** every slot is in use *)
Definition hash_ok (X : context) (hash : list node) : Prop :=
  keys_distinct X hash ∧ (∀ i n, hash !! i = Some n → ∃ k, node_for X k n) ∧ ∃ C, chains_ok X hash C.

(** the keys of the array are not in the hash table, and the slots have values *)
Definition no_array_keys (X : context) (t : table) : Prop :=
  ∀ i n k, t_hash t !! i = Some n → node_for X k n → array_key (sizearray t) k = false ∧ n_value n ≠ VNil.

(** [n] bounds how deep the tables are nested *)
Fixpoint rep (n : nat) (X : context) (v : value) (lv : lua_value) : Prop :=
  match lv with
  | LInt z => v = VInteger z
  | LReal bits => v = VReal bits
  | LBool b => v = VBoolean b
  | LString s => ∃ i, v = VString i ∧ x_strings X !! s = Some i
  | LTable es _ =>
      match n with
      | O => False
      | S n => ∃ p t, v = VTable p ∧ x_tables X !! p = Some t ∧ hash_ok X (t_hash t) ∧
               no_array_keys X t ∧
               (∀ k lv, (key_lua k, lv) ∈ es → ∃ v, t_get X t k v ∧ v ≠ VNil ∧ rep n X v lv) ∧
               (∀ k v, t_get X t k v → v = VNil ∨ ∃ lv, (key_lua k, lv) ∈ es)
      end
  | _ => False
  end.

(** nothing of [X] is lost in [X'] *)
Section growth.
Context (X X' : context) (HX' : ctx_ok X').
Context (Htables : ∀ q t, x_tables X !! q = Some t → x_tables X' !! q = Some t) (Hstrings : ∀ s i, x_strings X !! s = Some i → x_strings X' !! s = Some i).

Lemma raw_key_grow k key : raw_key X k key → raw_key X' k key.
Proof. destruct k; cbn; [done|apply Hstrings]. Qed.

Lemma node_for_grow k n : node_for X k n → node_for X' k n.
Proof. intros (nk & E & Hr & Ht & Hh). exists nk. split_and!; try done. by apply raw_key_grow. Qed.
Lemma node_for_gback k k' n : node_for X k n → node_for X' k' n → k' = k.
Proof.
  intros (nk & E & Hr & Ht & Hh)%node_for_grow (nk' & E' & Hr' & Ht' & Hh'). rewrite E in E'. injection E' as <-.
  eapply raw_key_inj; [done| |done|done]. congruence.
Qed.

Lemma hash_ok_grow hash : hash_ok X hash → hash_ok X' hash.
Proof.
  intros (Hd & Hf & C & HC). split_and!.
  - intros i j k n n' Hi Hj Hk Hk'. destruct (Hf i n Hi) as [k0 Hk0], (Hf j n' Hj) as [k1 Hk1].
    assert (k = k0) as -> by (by eapply node_for_gback). assert (k0 = k1) as -> by (by eapply node_for_gback). by eapply Hd.
  - intros i n Hi. destruct (Hf i n Hi) as [k Hk]. exists k. by apply node_for_grow.
  - exists C. destruct HC as [Hl Hh Hn Hs Hin H1]. split; try done.
    + intros j i Hi. destruct (Hs j i Hi) as (n & k & Hn1 & Hk & Hj). exists n, k. split_and!; [done|by apply node_for_grow|done].
    + intros i n k Hi Hk. destruct (Hf i n Hi) as [k0 Hk0]. assert (k = k0) as -> by (by eapply node_for_gback). by eapply Hin.
Qed.

Lemma t_get_grow t k v : t_get X t k v → t_get X' t k v.
Proof.
  unfold t_get. destruct (array_key _ k); [done|]. intros (i & n & Hi & Hn & Hv). exists i, n. split_and!; [done|by apply node_for_grow|done].
Qed.
Lemma t_get_gback t k v : hash_ok X (t_hash t) → t_get X' t k v → t_get X t k v.
Proof.
  intros (_ & Hf & _). unfold t_get. destruct (array_key _ k); [done|]. intros (i & n & Hi & Hn & Hv). destruct (Hf i n Hi) as [k0 Hk0].
  assert (k = k0) as -> by (by eapply node_for_gback). by exists i, n.
Qed.

Lemma no_array_keys_grow t : hash_ok X (t_hash t) → no_array_keys X t → no_array_keys X' t.
Proof.
  intros (_ & Hf & _) Hno i n k Hi Hk. destruct (Hf i n Hi) as [k0 Hk0]. assert (k = k0) as -> by (by eapply node_for_gback). by eapply Hno.
Qed.

Lemma rep_grow n v lv : rep n X v lv → rep n X' v lv.
Proof.
  revert v lv. induction n as [|n IH]; intros v [| | | |s| |es m|]; cbn; try done;
    try (intros (i & -> & Hs); exists i; split; [done|by apply Hstrings]).
  intros (p & t & -> & Ht & Hok & Hno & Hin & Hout). exists p, t. split; [done|]. split; [by apply Htables|]. split; [by apply hash_ok_grow|].
  split; [by apply no_array_keys_grow|]. split.
  - intros k lv Hk. destruct (Hin k lv Hk) as (v & Hv & Hnil & Hr). exists v. split_and!; [by apply t_get_grow|done|by apply IH].
  - intros k v Hv. eapply Hout. by apply t_get_gback.
Qed.
End growth.

Section extension.
Context (X X' : context) (HX' : ctx_ok X') (Hext : ext X X').
Lemma node_for_ext k n : node_for X k n → node_for X' k n.
Proof. apply node_for_grow, Hext. Qed.
Lemma node_for_back k k' n : node_for X k n → node_for X' k' n → k' = k.
Proof. apply node_for_gback; [done|apply Hext]. Qed.
Lemma rep_ext n v lv : rep n X v lv → rep n X' v lv.
Proof. apply rep_grow; [done|apply Hext..]. Qed.
End extension.

(** ** The first pass: arrays and main slots *)

Definition conv_spec (n : nat) (conv : context → entries → sdlua (context * Z)) : Prop :=
  ∀ X es m, ctx_ok X → wf_entries es → (depth (LTable es m) <= n)%nat →
  ∃ X' p, conv X es = lret (X', p) ∧ ext X X' ∧ ctx_ok X' ∧ rep n X' (VTable p) (LTable es m).

(** a slot is empty, or holds an entry of the table *)
Definition slot_ok (n : nat) (X : context) (size : Z) (es : entries) (nd : node) : Prop :=
  nd = empty_node ∨
  ∃ k lv, (key_lua k, lv) ∈ es ∧ array_key size k = false ∧ node_for X k nd ∧ n_value nd ≠ VNil ∧ rep n X (n_value nd) lv.
Definition cell_ok (n : nat) (X : context) (es : entries) (i : nat) (v : value) : Prop :=
  v = VNil ∨ ∃ lv, (LInt (Z.of_nat i + 1), lv) ∈ es ∧ v ≠ VNil ∧ rep n X v lv.

Definition full (hash : list node) (i : nat) : Prop := ∃ nd, hash !! i = Some nd ∧ n_value nd ≠ VNil.
Definition set_cell (arr : list value) (z : Z) : Prop := ∃ v, arr !! Z.to_nat (z - 1) = Some v ∧ v ≠ VNil.

(** an entry has its cell, or its main slot is taken *)
Definition placed (arr : list value) (hash : list node) (k : skey) : Prop :=
  if array_key (Z.of_nat (length arr)) k then match k with KInt z => set_cell arr z | KStr _ => False end else full hash (slot_of hash k).

Record first_inv (n : nat) (X : context) (es : entries) (arr : list value) (hash : list node) : Prop := {
  f_ctx : ctx_ok X;
  f_slots i nd : hash !! i = Some nd → slot_ok n X (Z.of_nat (length arr)) es nd;
  f_cells i v : arr !! i = Some v → cell_ok n X es i v;
  f_main i nd k : hash !! i = Some nd → node_for X k nd →
    slot_of hash k = i ∧ n_nocolliding nd = true ∧ ∃ nk, n_key nd = Some nk ∧ nk_next nk = -1
}.

Lemma not_nil v : is_nil v = false ↔ v ≠ VNil.
Proof. by destruct v. Qed.

Lemma slot_ok_ext n X X' size es nd : ctx_ok X' → ext X X' → slot_ok n X size es nd → slot_ok n X' size es nd.
Proof.
  intros HX' He [->|(k & lv & Hin & Ha & Hn & Hv & Hr)]; [by left|]. right. exists k, lv.
  split_and!; [done|done|by eapply node_for_ext|done|by eapply rep_ext].
Qed.
Lemma cell_ok_ext n X X' es i v : ctx_ok X' → ext X X' → cell_ok n X es i v → cell_ok n X' es i v.
Proof. intros HX' He [->|(lv & Hin & Hv & Hr)]; [by left|]. right. exists lv. split_and!; [done|done|by eapply rep_ext]. Qed.

(** a key that a slot has after more has been converted, it had before *)
Lemma slot_back n X X' size es nd k : ctx_ok X' → ext X X' → slot_ok n X size es nd → node_for X' k nd → node_for X k nd.
Proof.
  intros HX' He [->|(k0 & lv & _ & _ & Hn & _)] Hk; [by destruct Hk as (nk & [=] & _)|].
  by assert (k = k0) as -> by (by eapply node_for_back).
Qed.

Lemma first_inv_ext n X X' es arr hash : ctx_ok X' → ext X X' → first_inv n X es arr hash → first_inv n X' es arr hash.
Proof.
  intros HX' He [_ Hs Hc Hm]. split; [done| | |].
  - intros i nd Hi. eapply slot_ok_ext; [done|done|by eapply Hs].
  - intros i v Hi. eapply cell_ok_ext; [done|done|by eapply Hc].
  - intros i nd k Hi Hk. eapply Hm; [done|]. by eapply slot_back; [done|done|eapply Hs|].
Qed.

Section passes.
Context (n : nat) (conv : context → entries → sdlua (context * Z)) (Hconv : conv_spec n conv).

Lemma setvalue_spec X lv : ctx_ok X → wf_value lv → lv ≠ LNil → (depth lv <= n)%nat →
  ∃ X' v, setvalue conv X lv = lret (X', v) ∧ ext X X' ∧ ctx_ok X' ∧ v ≠ VNil ∧ rep n X' v lv.
Proof.
  intros HX Hwf Hnil Hd. destruct lv as [|b|z|bits|s|u|es m|nm]; try done.
  - exists X, (VBoolean b). split_and!; try done. by destruct n.
  - exists X, (VInteger z). split_and!; try done. by destruct n.
  - exists X, (VReal bits). split_and!; try done. by destruct n.
  - destruct (stringindex_spec X s HX) as (X' & i & E & He & HX' & Hi). exists X', (VString i). cbn. rewrite E. split_and!; try done.
    destruct n; by exists i.
  - apply wf_table in Hwf. destruct (Hconv X es m HX Hwf Hd) as (X' & p & E & He & HX' & Hr).
    exists X', (VTable p). cbn [setvalue]. rewrite E. split_and!; try done.
Qed.

(** an entry goes to its cell *)
Lemma first_cell X es arr hash z lv : first_inv n X es arr hash → wf_entries es → (LInt z, lv) ∈ es → (depth lv <= n)%nat →
  array_key (Z.of_nat (length arr)) (KInt z) = true →
  ∃ X' arr', setarray conv X arr lv z = lret (X', arr') ∧ ext X X' ∧ first_inv n X' es arr' hash ∧ length arr' = length arr ∧
    set_cell arr' z ∧ (∀ z', set_cell arr z' → set_cell arr' z').
Proof.
  intros Hinv [_ Hwf] Hin Hd Ha. destruct (Hwf _ _ Hin) as (Hk & Hnil & Hwv). destruct (setvalue_spec X lv (f_ctx _ _ _ _ _ Hinv) Hwv Hnil Hd) as (X' & v & E & He & HX' & Hv & Hr).
  cbn in Ha. assert (Hz : 0 <= z - 1 < Z.of_nat (length arr)) by lia.
  unfold setarray. rewrite E, lbind_lret, arr_set_Ok by done. eexists _, _. split; [done|].
  pose proof (first_inv_ext _ _ _ _ _ _ HX' He Hinv) as [_ Hs Hc Hm]. split_and!; [done| |by rewrite length_insert| |].
  - split; [done|by rewrite length_insert| |done]. intros i w Hi. apply list_lookup_insert_Some in Hi as [(<- & <- & _)|[_ Hi]]; [|by apply Hc].
    right. exists lv. replace (Z.of_nat (Z.to_nat (z - 1)) + 1) with z by lia. done.
  - exists v. split; [apply list_lookup_insert_eq; lia|done].
  - intros z' (w & Hw & Hwn). destruct (decide (Z.to_nat (z - 1) = Z.to_nat (z' - 1))) as [Eq|Hne].
    + exists v. rewrite <- Eq. split; [apply list_lookup_insert_eq; lia|done].
    + exists w. by rewrite list_lookup_insert_ne.
Qed.

Lemma slot_lt hash k : (0 < length hash)%nat → (slot_of hash k < length hash)%nat ∧ Z.of_nat (slot_of hash k) = hash_of k mod Z.of_nat (length hash).
Proof. intros Hl. unfold slot_of. pose proof (Z.mod_pos_bound (hash_of k) (Z.of_nat (length hash)) ltac:(lia)). lia. Qed.

(** an entry goes to its main slot, which is empty *)
Lemma first_slot X es arr hash k lv key nd : first_inv n X es arr hash → wf_entries es → (key_lua k, lv) ∈ es → (depth lv <= n)%nat →
  array_key (Z.of_nat (length arr)) k = false → raw_key X k key → hash !! slot_of hash k = Some nd → n_value nd = VNil →
  ∃ X' v, setvalue conv X lv = lret (X', v) ∧ ext X X' ∧ v ≠ VNil ∧
    first_inv n X' es arr (<[slot_of hash k := mkNode v (Some (mkKey key (type_of k) (hash_of k) (-1))) true]> hash).
Proof.
  intros Hinv [_ Hwf] Hin Hd Ha Hraw Hnd Hempty. destruct (Hwf _ _ Hin) as (Hk & Hnil & Hwv).
  destruct (setvalue_spec X lv (f_ctx _ _ _ _ _ Hinv) Hwv Hnil Hd) as (X' & v & E & He & HX' & Hv & Hr). exists X', v. split; [done|]. split; [done|]. split; [done|].
  pose proof (first_inv_ext _ _ _ _ _ _ HX' He Hinv) as [_ Hs Hc Hm]. set (nw := mkNode v _ true).
  assert (Hnf : node_for X' k nw) by (eexists; split_and!; [done|by eapply raw_key_ext|done|done]).
  assert (Hslot : ∀ k', slot_of (<[slot_of hash k := nw]> hash) k' = slot_of hash k') by (intros k'; unfold slot_of; by rewrite length_insert).
  split; [done| |done|].
  - intros i nd' Hi. apply list_lookup_insert_Some in Hi as [(<- & <- & _)|[_ Hi]]; [|by eapply Hs]. right. by exists k, lv.
  - intros i nd' k' Hi Hk'. rewrite Hslot. apply list_lookup_insert_Some in Hi as [(<- & <- & _)|[_ Hi]]; [|by eapply Hm].
    assert (k' = k) as -> by (eapply (node_for_back X' X'); done). split_and!; [done|done|by eexists].
Qed.

Lemma fillnocolliding_spec es es' X arr hash : (∀ x, x ∈ es' → x ∈ es) → wf_entries es → (∀ kl lv, (kl, lv) ∈ es → (depth lv <= n)%nat) →
  (0 < length hash)%nat → first_inv n X es arr hash →
  ∃ X' arr' hash', fillnocolliding conv es' X arr hash = lret (X', arr', hash') ∧ ext X X' ∧ first_inv n X' es arr' hash' ∧
    length arr' = length arr ∧ length hash' = length hash ∧
    (∀ k, placed arr hash k → placed arr' hash' k) ∧ (∀ k lv, (key_lua k, lv) ∈ es' → placed arr' hash' k).
Proof.
  intros Hsub Hwf Hd. revert X arr hash. induction es' as [|[kl lv] es' IH]; intros X arr hash Hl Hinv.
  { exists X, arr, hash. split_and!; try done. by intros k lv ?%elem_of_nil. }
  assert (Hin : (kl, lv) ∈ es) by (apply Hsub; by left).
  assert (Hnext : ∀ X1 arr1 hash1 k, kl = key_lua k → ext X X1 → first_inv n X1 es arr1 hash1 → length arr1 = length arr → length hash1 = length hash →
    (∀ k, placed arr hash k → placed arr1 hash1 k) → placed arr1 hash1 k →
    ∃ X' arr' hash', fillnocolliding conv es' X1 arr1 hash1 = lret (X', arr', hash') ∧ ext X X' ∧ first_inv n X' es arr' hash' ∧
      length arr' = length arr ∧ length hash' = length hash ∧
      (∀ k, placed arr hash k → placed arr' hash' k) ∧ (∀ k' lv', (key_lua k', lv') ∈ (kl, lv) :: es' → placed arr' hash' k')).
  { intros X1 arr1 hash1 k -> He1 Hinv1 Ha1 Hh1 Hp1 Hk1. destruct (IH ltac:(intros; apply Hsub; by right) X1 arr1 hash1) as (X' & arr' & hash' & E & He & Hinv' & Ha & Hh & Hp & Hall); [lia|done|].
    exists X', arr', hash'. split_and!; [done|by etrans|done|lia|lia|auto|]. intros k' lv' [[= Hk' _]|Hk']%elem_of_cons; [|by eapply Hall].
    apply key_lua_inj in Hk' as ->. auto. }
  destruct (proj2 Hwf _ _ Hin) as (Hkey & Hnil & Hwv). destruct (key_ok_inv kl Hkey) as (k & -> & _).
  destruct (ishashkey_spec X (Z.of_nat (length arr)) k (f_ctx _ _ _ _ _ Hinv) Hkey) as (X1 & He1 & HX1 & Hplace).
  pose proof (first_inv_ext _ _ _ _ _ _ HX1 He1 Hinv) as Hinv1. cbn [fillnocolliding].
  destruct (array_key (Z.of_nat (length arr)) k) eqn:Hak.
  - destruct Hplace as (z & -> & ->). cbv iota beta.
    destruct (first_cell X1 es arr hash z lv Hinv1 Hwf Hin (Hd _ _ Hin) Hak) as (X2 & arr2 & E & He2 & Hinv2 & Hl2 & Hset & Hmono).
    rewrite E, lbind_lret. apply (Hnext X2 arr2 hash (KInt z)); [done|by etrans|done|done|done| |].
    + intros k'. unfold placed. rewrite Hl2. destruct (array_key _ k'); [destruct k'; [apply Hmono|done]|done].
    + unfold placed. by rewrite Hl2, Hak.
  - destruct Hplace as (key & Hraw & ->). cbv iota beta. destruct (slot_lt hash k Hl) as [Hlt Hz]. rewrite <- Hz.
    destruct (lookup_lt_is_Some_2 _ _ Hlt) as [nd Hnd].
    rewrite (arr_get_Ok _ _ nd) by (rewrite ?Nat2Z.id; lia || done). rewrite lift_Ok, lbind_Ok. destruct (is_nil (n_value nd)) eqn:Hn.
    + destruct (n_value nd) eqn:Hv; try done.
      destruct (first_slot X1 es arr hash k lv key nd Hinv1 Hwf Hin (Hd _ _ Hin) Hak Hraw Hnd Hv) as (X2 & v & E & He2 & Hvn & Hinv2).
      rewrite E, lbind_lret. rewrite arr_set_Ok, Nat2Z.id by lia. rewrite lift_Ok, lbind_Ok.
      apply (Hnext X2 arr _ k); [done|by etrans|done|done|by rewrite length_insert| |].
      * intros k'. unfold placed, slot_of. rewrite length_insert. destruct (array_key _ k'); [done|]. intros (nd' & Hnd' & Hv').
        destruct (decide (slot_of hash k = slot_of hash k')) as [Eq|Hne].
        -- eexists. fold (slot_of hash k'). rewrite <- Eq, list_lookup_insert_eq by done. split; [done|]. done.
        -- exists nd'. fold (slot_of hash k'). by rewrite list_lookup_insert_ne.
      * unfold placed, slot_of. rewrite Hak, length_insert. eexists. fold (slot_of hash k). rewrite list_lookup_insert_eq by done. done.
    + apply (Hnext X1 arr hash k); [done|done|done|done|done|done|]. unfold placed. rewrite Hak. exists nd. split; [done|]. by apply not_nil.
Qed.
End passes.
