(* ===== verification/ShareChain.v ===== *)
(** * Shared configuration tables: the chains

    The second pass of [convtable] puts the keys whose main slot was taken into the empty
    slots and links them behind their main slot. There is always an empty slot, and at the
    end every slot is in use. *)
From S2P Require Import Prelude LuaCall Seri ShareData ShareHash.
Open Scope list_scope.
Open Scope Z_scope.

(** ** Counting keys *)

(** the keys that go to the hash table *)
Definition hash_keys (size : Z) (es : entries) : list lua_value := filter (λ kl, in_array size kl = false) es.*1.

Lemma in_array_key size k : in_array size (key_lua k) = array_key size k.
Proof. by destruct k. Qed.

Lemma hash_keys_in size es k : key_lua k ∈ hash_keys size es ↔ array_key size k = false ∧ ∃ lv, (key_lua k, lv) ∈ es.
Proof.
  unfold hash_keys. rewrite list_elem_of_filter, in_array_key, list_elem_of_fmap. f_equiv. split.
  - intros ([kl lv] & -> & Hin). by exists lv.
  - intros [lv Hin]. by exists (key_lua k, lv).
Qed.

Lemma countsize_spec size es : (∀ kl lv, (kl, lv) ∈ es → key_ok kl) → countsize es size = lret (Z.of_nat (length (hash_keys size es))).
Proof.
  intros Hok. unfold countsize. assert (H : ∀ n, countsize_loop es size n = lret (n + Z.of_nat (length (hash_keys size es)))); [|by rewrite H].
  unfold hash_keys. induction es as [|[kl lv] es IH]; intros n; cbn [countsize_loop fmap list_fmap]; [by rewrite Z.add_0_r|].
  assert (IH' := IH ltac:(intros kl' lv' Hin; eapply Hok; by right)). specialize (Hok kl lv ltac:(by left)). rewrite filter_cons. cbn [fst].
  destruct kl as [| |z| |s| | |]; try done; cbn [countsize_key in_array]; rewrite lbind_lret, IH'.
  - destruct ((0 <? z) && (z <=? size)); case_decide; try done; cbn [length]; f_equal; lia.
  - rewrite decide_True by done. cbn [length]. f_equal. lia.
Qed.

(** ** Lists of slots *)

Lemma linked_insert hash l a n : a ∉ l → linked (<[a := n]> hash) l ↔ linked hash l.
Proof.
  induction l as [|b l IH]; [done|]. intros Ha. cbn. rewrite IH by (intros H; apply Ha; by right).
  rewrite list_lookup_insert_ne; [done|]. intros ->. apply Ha. by left.
Qed.

Record second_inv (n : nat) (X : context) (es : entries) (size : Z) (hash : list node) (C : nat → list nat) (seen : list lua_value) (emptyslot : nat) : Prop := {
  g_ctx : ctx_ok X;
  g_slots i nd : hash !! i = Some nd → slot_ok n X size es nd;
  g_distinct : keys_distinct X hash;
  g_chains : chains_ok X hash C;
  g_origin i nd k : hash !! i = Some nd → node_for X k nd → slot_of hash k = i ∨ key_lua k ∈ seen;
  g_mains k lv : (key_lua k, lv) ∈ es → array_key size k = false →
    ∃ nd k0, hash !! slot_of hash k = Some nd ∧ node_for X k0 nd ∧ slot_of hash k0 = slot_of hash k;
  g_front i : (i < emptyslot)%nat → full hash i
}.

Lemma slot_full n X size es nd k : slot_ok n X size es nd → node_for X k nd → n_value nd ≠ VNil.
Proof. intros [->|(k0 & lv & _ & _ & _ & Hv & _)] (nk & E & _); [done|done]. Qed.

(** from the first pass to the second *)
Lemma first_to_second n X es arr hash : first_inv n X es arr hash → (∀ k lv, (key_lua k, lv) ∈ es → placed arr hash k) →
  second_inv n X es (Z.of_nat (length arr)) hash (λ j, match hash !! j with Some nd => if is_nil (n_value nd) then [] else [j] | None => [] end) [] 0.
Proof.
  intros [HX Hs Hc Hm] Hp. set (C := λ j : nat, _ : list nat).
  assert (Hkey : ∀ i nd, hash !! i = Some nd → n_value nd ≠ VNil → ∃ k, node_for X k nd).
  { intros i nd Hi Hv. destruct (Hs i nd Hi) as [->|(k & lv & _ & _ & Hk & _)]; [done|by exists k]. }
  assert (HC : ∀ j a, a ∈ C j → a = j ∧ ∃ nd, hash !! j = Some nd ∧ n_value nd ≠ VNil).
  { intros j a. unfold C. destruct (hash !! j) as [nd|]; [|by intros ?%elem_of_nil]. destruct (is_nil (n_value nd)) eqn:E; [by intros ?%elem_of_nil|].
    intros ->%list_elem_of_singleton. split; [done|]. exists nd. split; [done|]. by apply not_nil. }
  split; [done|done| | | | |lia].
  - intros i j k nd nd' Hi Hj Hk Hk'. destruct (Hm i nd k Hi Hk) as [<- _]. by destruct (Hm j nd' k Hj Hk') as [<- _].
  - split.
    + intros j. unfold C. destruct (hash !! j) as [nd|] eqn:Hj; [|done]. destruct (is_nil (n_value nd)) eqn:E; [done|]. apply not_nil in E.
      destruct (Hkey j nd Hj E) as [k Hk]. destruct (Hm j nd k Hj Hk) as (_ & _ & nk & Hnk & Hnext). cbn. split; [by exists nd, nk|done].
    + intros j a l E. destruct (HC j a) as [-> _]; [rewrite E; by left|done].
    + intros j. unfold C. destruct (hash !! j) as [nd|]; [|constructor]. destruct (is_nil _); [constructor|apply NoDup_singleton].
    + intros j i Hi. destruct (HC j i Hi) as (-> & nd & Hj & Hv). destruct (Hkey j nd Hj Hv) as [k Hk].
      exists nd, k. split_and!; [done|done|]. by destruct (Hm j nd k Hj Hk) as [-> _].
    + intros i nd k Hi Hk. destruct (Hm i nd k Hi Hk) as [-> _]. unfold C. rewrite Hi. pose proof (slot_full _ _ _ _ _ _ (Hs i nd Hi) Hk) as Hv.
      rewrite (proj2 (not_nil _) Hv). by left.
    + intros i nd nk Hi Hnk Hno. destruct (Hs i nd Hi) as [->|(k & lv & _ & _ & Hk & _)]; [done|].
      destruct (Hm i nd k Hi Hk) as (_ & _ & nk' & Hnk' & Hnext). congruence.
  - intros i nd k Hi Hk. left. by destruct (Hm i nd k Hi Hk) as [-> _].
  - intros k lv Hin Ha. specialize (Hp k lv Hin). unfold placed in Hp. rewrite Ha in Hp. destruct Hp as (nd & Hnd & Hv).
    destruct (Hkey _ nd Hnd Hv) as [k0 Hk0]. exists nd, k0. split_and!; [done|done|]. by destruct (Hm _ nd k0 Hnd Hk0) as [-> _].
Qed.

Lemma second_inv_ext n X X' es size hash C seen e : ctx_ok X' → ext X X' → second_inv n X es size hash C seen e → second_inv n X' es size hash C seen e.
Proof.
  intros HX' He [HX Hs Hd HC Ho Hm Hf].
  assert (Hback : ∀ i nd k, hash !! i = Some nd → node_for X' k nd → node_for X k nd) by (intros i nd k Hi Hk; exact (slot_back n X X' size es nd k HX' He (Hs i nd Hi) Hk)).
  assert (Hto : ∀ k nd, node_for X k nd → node_for X' k nd) by (intros; by eapply node_for_ext).
  split; [done| | | | | |done].
  - intros i nd Hi. eapply slot_ok_ext; [done|done|by eapply Hs].
  - intros i j k nd nd' Hi Hj Hk Hk'. eapply (Hd i j k nd nd' Hi Hj); by eapply Hback.
  - destruct HC as [c1 c2 c3 c4 c5 c6]. split; try done.
    + intros j i Hi. destruct (c4 j i Hi) as (nd & k & ? & ? & ?). exists nd, k. auto.
    + intros i nd k Hi Hk. eapply c5; [done|by eapply Hback].
  - intros i nd k Hi Hk. eapply Ho; [done|by eapply Hback].
  - intros k lv Hin Ha. destruct (Hm k lv Hin Ha) as (nd & k0 & ? & ? & ?). exists nd, k0. auto.
Qed.

(** ** Linking a key behind its main slot *)

Section link.
Context (n : nat) (X : context) (es : entries) (size : Z) (hash : list node) (C : nat → list nat) (seen : list lua_value) (e : nat).
Context (Hinv : second_inv n X es size hash C seen e).
Context (k : skey) (lv : lua_value) (key : Z) (val : value) (i : nat) (nd : node) (mk : node_key) (k0 : skey).
Context (Hin : (key_lua k, lv) ∈ es) (Hak : array_key size k = false) (Hraw : raw_key X k key) (Hv : val ≠ VNil) (Hrep : rep n X val lv).
Context (Hnd : hash !! slot_of hash k = Some nd) (Hmk : n_key nd = Some mk) (Hk0 : node_for X k0 nd) (Hs0 : slot_of hash k0 = slot_of hash k).
Context (Hnew : k0 ≠ k) (Hseen : key_lua k ∉ seen) (Hi : hash !! i = Some empty_node) (Hfront : ∀ j, (j < i)%nat → full hash j).

Let j : nat := slot_of hash k.
Let main' : node := mkNode (n_value nd) (Some (mk <| nk_next := Z.of_nat i |>)) false.
Let node' : node := mkNode val (Some (mkKey key (type_of k) (hash_of k) (nk_next mk))) false.
Let hash' : list node := <[i := node']> (<[j := main']> hash).
Let C' : nat → list nat := λ j', if decide (j' = j) then j :: i :: tail (C j) else C j'.

Lemma same_key nd1 k1 k2 : node_for X k1 nd1 → node_for X k2 nd1 → k1 = k2.
Proof. intros H1 H2. by apply (node_for_back X X (g_ctx _ _ _ _ _ _ _ _ Hinv) ltac:(done) k2 k1 nd1). Qed.

Lemma link_ne : i ≠ j.
Proof. intros E. unfold j in E. rewrite <- E, Hi in Hnd. injection Hnd as <-. by destruct Hk0 as (? & [=] & _). Qed.

Lemma link_lookup a nd' : hash' !! a = Some nd' ↔ a = i ∧ nd' = node' ∨ a = j ∧ nd' = main' ∨ a ≠ i ∧ a ≠ j ∧ hash !! a = Some nd'.
Proof.
  pose proof link_ne as Hne. unfold hash'. assert (Hli : (i < length hash)%nat) by (by eapply lookup_lt_Some). assert (Hlj : (j < length hash)%nat) by (by eapply lookup_lt_Some).
  destruct (decide (a = i)) as [->|Hai].
  - rewrite list_lookup_insert_eq by (by rewrite length_insert). naive_solver.
  - rewrite list_lookup_insert_ne by done. destruct (decide (a = j)) as [->|Haj]; [rewrite list_lookup_insert_eq by done; naive_solver|].
    rewrite list_lookup_insert_ne by done. naive_solver.
Qed.

Lemma link_slot k' : slot_of hash' k' = slot_of hash k'.
Proof. unfold slot_of, hash'. by rewrite !length_insert. Qed.

Lemma link_node_for : node_for X k node' ∧ node_for X k0 main'.
Proof.
  split; [by eexists|]. destruct Hk0 as (nk & E & ? & ? & ?). rewrite Hmk in E. injection E as <-. by eexists.
Qed.

(** a key is where it was, or it is the new one *)
Lemma link_inv a nd' k' : hash' !! a = Some nd' → node_for X k' nd' → a = i ∧ k' = k ∨ a ≠ i ∧ ∃ nd'', hash !! a = Some nd'' ∧ node_for X k' nd'' ∧ n_value nd'' = n_value nd'.
Proof.
  pose proof link_ne as Hne. pose proof (g_ctx _ _ _ _ _ _ _ _ Hinv) as HX. intros [[-> ->]|[[-> ->]|(Hai & Haj & Ha)]]%link_lookup Hk'.
  - left. split; [done|]. by apply (node_for_back X X HX ltac:(done) k k' node' (proj1 link_node_for)).
  - right. split; [done|]. exists nd. split; [done|]. split; [|done]. by rewrite (node_for_back X X HX ltac:(done) k0 k' main' (proj2 link_node_for) Hk').
  - right. split; [done|]. by exists nd'.
Qed.

Lemma link_chain : ∃ l, C j = j :: l ∧ linked hash l ∧ nk_next mk = match l with [] => -1 | b :: _ => Z.of_nat b end ∧ j ∉ l ∧ i ∉ l ∧ NoDup l.
Proof.
  destruct (g_chains _ _ _ _ _ _ _ _ Hinv) as [c1 c2 c3 c4 c5 c6].
  assert (Hj : j ∈ C j) by (unfold j at 2; rewrite <- Hs0; by eapply c5). destruct (C j) as [|a l] eqn:E; [by apply elem_of_nil in Hj|].
  pose proof (c2 j a l E) as ->. exists l. pose proof (c1 j) as Hl. rewrite E in Hl. cbn in Hl. destruct Hl as [(nd' & nk & Hnd' & Hnk & Hnext) Hl].
  unfold j in Hnd'. rewrite Hnd in Hnd'. injection Hnd' as <-. rewrite Hmk in Hnk. injection Hnk as <-.
  pose proof (c3 j) as Hn. rewrite E in Hn. apply NoDup_cons in Hn as [Hn1 Hn2]. split_and!; try done.
  intros Hil. destruct (c4 j i) as (nd' & k' & Hnd' & Hk' & _); [rewrite E; by right|]. rewrite Hi in Hnd'. injection Hnd' as <-. by destruct Hk' as (? & [=] & _).
Qed.

Lemma link_chains_ok : chains_ok X hash' C'.
Proof.
  pose proof link_ne as Hne. destruct link_chain as (l & El & Hll & Hnext & Hjl & Hil & Hnd').
  destruct (g_chains _ _ _ _ _ _ _ _ Hinv) as [c1 c2 c3 c4 c5 c6]. destruct link_node_for as [Hfk Hfk0].
  assert (HC : ∀ j' a, a ∈ C' j' → a = i ∧ j' = j ∨ a ∈ C j').
  { intros j' a. unfold C'. case_decide as E; [subst j'|by right]. rewrite El. cbn. intros [->|[->|Ha]%elem_of_cons]%elem_of_cons; [right; by left|by left|right; by right]. }
  assert (HCsub : ∀ j' a, a ∈ C j' → a ∈ C' j').
  { intros j' a. unfold C'. case_decide as E; [subst j'|done]. rewrite El. cbn. intros [->|Ha]%elem_of_cons; [by left|right; by right]. }
  assert (Hnot : ∀ j', j' ≠ j → i ∉ C j' ∧ j ∉ C j').
  { intros j' Hj'. split; intros Hx; destruct (c4 j' _ Hx) as (nd1 & k1 & H1 & H2 & H3).
    - rewrite Hi in H1. injection H1 as <-. by destruct H2 as (? & [=] & _).
    - unfold j in H1. rewrite Hnd in H1. injection H1 as <-. assert (k1 = k0) as -> by exact (same_key nd k1 k0 H2 Hk0). unfold j in Hj'. congruence. }
  split.
  - intros j'. unfold C'. case_decide as E.
    + rewrite El. cbn [tail]. unfold hash'. cbn. split; [|split].
      * exists main', (mk <| nk_next := Z.of_nat i |>). split_and!; [|done|done]. apply link_lookup. right. by left.
      * exists node', (mkKey key (type_of k) (hash_of k) (nk_next mk)). split_and!; [|done|done]. apply link_lookup. by left.
      * by rewrite !linked_insert.
    + destruct (Hnot j' E). unfold hash'. by rewrite !linked_insert.
  - intros j' a l'. unfold C'. case_decide as E; [by intros [= <- _]|apply c2].
  - intros j'. unfold C'. case_decide as E; [|apply c3]. rewrite El. cbn. apply NoDup_cons. split; [intros [E2|?]%elem_of_cons; [by destruct Hne|done]|]. by apply NoDup_cons.
  - intros j' a [[-> ->]|Ha]%HC; [exists node', k; split_and!; [apply link_lookup; by left|done|by rewrite link_slot]|].
    destruct (c4 j' a Ha) as (nd1 & k1 & H1 & H2 & H3). assert (a ≠ i) by (intros ->; rewrite Hi in H1; injection H1 as <-; by destruct H2 as (? & [=] & _)).
    destruct (decide (a = j)) as [->|Haj]; [|exists nd1, k1; rewrite link_slot; split_and!; [apply link_lookup; naive_solver|done|done]].
    exists main', k0. rewrite link_slot. unfold j in H1. rewrite Hnd in H1. injection H1 as <-.
    assert (k1 = k0) as -> by exact (same_key nd k1 k0 H2 Hk0). split_and!; [apply link_lookup; naive_solver|done|done].
  - intros a nd1 k1 Ha Hk1. rewrite link_slot. destruct (link_inv a nd1 k1 Ha Hk1) as [[-> ->]|(Hai & nd2 & H1 & H2 & _)].
    + unfold C'. fold j. rewrite decide_True by done. right. by left.
    + apply HCsub. by eapply c5.
  - intros a nd1 nk1 [[-> ->]|[[-> ->]|(_ & _ & Ha)]]%link_lookup; [done|done|exact (c6 a nd1 nk1 Ha)].
Qed.

Lemma link_second_inv : second_inv n X es size hash' C' (key_lua k :: seen) (S i).
Proof.
  pose proof link_ne as Hne. destruct link_node_for as [Hfk Hfk0]. pose proof Hinv as [HX Hs Hd HC Ho Hm Hf]. split.
  - done.
  - intros a nd1 [[-> ->]|[[-> ->]|(_ & _ & Ha)]]%link_lookup; [right; by exists k, lv| |by eapply Hs].
    destruct (Hs _ nd Hnd) as [->|(k1 & lv1 & H1 & H2 & H3 & H4 & H5)]; [done|]. right. exists k1, lv1. split_and!; try done.
    by rewrite (same_key nd k1 k0 H3 Hk0).
  - intros a b k1 na nb Ha Hb Hka Hkb.
    assert (Hno : ∀ c nd2, hash !! c = Some nd2 → node_for X k nd2 → False).
    { intros c nd2 Hc Hk2. destruct (Ho c nd2 k Hc Hk2) as [<-|]; [|done]. rewrite Hnd in Hc. injection Hc as <-. destruct Hnew. exact (same_key nd k0 k Hk0 Hk2). }
    destruct (link_inv a na k1 Ha Hka) as [[-> ->]|(Hai & na' & Ha' & Hka' & _)], (link_inv b nb _ Hb Hkb) as [[-> Hkk]|(Hbi & nb' & Hb' & Hkb' & _)]; [done| | |by eapply Hd].
    + by destruct (Hno b nb').
    + subst k1. by destruct (Hno a na').
  - apply link_chains_ok.
  - intros a nd1 k1 Ha Hk1. rewrite link_slot. destruct (link_inv a nd1 k1 Ha Hk1) as [[-> ->]|(Hai & nd2 & H1 & H2 & _)]; [right; by left|].
    destruct (Ho a nd2 k1 H1 H2); [by left|right; by right].
  - intros k1 lv1 Hin1 Hak1. rewrite link_slot. destruct (Hm k1 lv1 Hin1 Hak1) as (nd1 & k2 & H1 & H2 & H3).
    assert (slot_of hash k1 ≠ i) by (intros E; rewrite E, Hi in H1; injection H1 as <-; by destruct H2 as (? & [=] & _)).
    destruct (decide (slot_of hash k1 = j)) as [Ej|Ej].
    + exists main', k0. rewrite link_slot. split_and!; [apply link_lookup; naive_solver|done|rewrite Ej; exact Hs0].
    + exists nd1, k2. rewrite link_slot. split_and!; [apply link_lookup; naive_solver|done|done].
  - intros a Ha. destruct (decide (a = i)) as [->|Hai]; [exists node'; split; [apply link_lookup; by left|done]|].
    destruct (Hfront a ltac:(lia)) as (nd1 & H1 & H2). destruct (decide (a = j)) as [->|Haj].
    + exists main'. split; [apply link_lookup; naive_solver|]. cbn. unfold j in H1. congruence.
    + exists nd1. split; [apply link_lookup; naive_solver|done].
Qed.

(** what was stored stays *)
Lemma link_keeps a nd1 k1 : hash !! a = Some nd1 → node_for X k1 nd1 → ∃ nd2, hash' !! a = Some nd2 ∧ node_for X k1 nd2.
Proof.
  intros Ha Hk1. assert (a ≠ i) by (intros ->; rewrite Hi in Ha; injection Ha as <-; by destruct Hk1 as (? & [=] & _)).
  destruct (decide (a = j)) as [->|Haj]; [|exists nd1; split; [apply link_lookup; naive_solver|done]].
  exists main'. split; [apply link_lookup; naive_solver|]. unfold j in Ha. rewrite Hnd in Ha. injection Ha as <-.
  assert (k1 = k0) as -> by exact (same_key nd k1 k0 Hk1 Hk0). apply link_node_for.
Qed.
End link.

(** ** There is an empty slot as long as a key is missing *)

Definition stored (X : context) (hash : list node) (k : skey) : Prop := ∃ i nd, hash !! i = Some nd ∧ node_for X k nd.

(** the keys of full slots are different ones *)
Lemma slot_keys X hash : keys_distinct X hash → (∀ i nd, hash !! i = Some nd → ∃ k, node_for X k nd) →
  ∃ ks, Forall2 (λ nd k, node_for X k nd) hash ks ∧ NoDup ks ∧ ∀ k, k ∈ ks → stored X hash k.
Proof.
  intros Hd Hf. assert (H : ∃ ks, Forall2 (λ nd k, node_for X k nd) hash ks).
  { clear Hd. induction hash as [|nd hash IH]; [by exists []|]. destruct (Hf 0%nat nd eq_refl) as [k Hk].
    destruct IH as [ks Hks]; [intros i nd' Hi; by apply (Hf (S i))|]. exists (k :: ks). by constructor. }
  destruct H as [ks Hks]. exists ks. split; [done|]. split.
  - apply NoDup_alt. intros i j k Hi Hj. destruct (Forall2_lookup_r _ _ _ _ _ Hks Hi) as (nd & H1 & H2), (Forall2_lookup_r _ _ _ _ _ Hks Hj) as (nd' & H1' & H2').
    by eapply Hd.
  - intros k (i & Hi)%list_elem_of_lookup. destruct (Forall2_lookup_r _ _ _ _ _ Hks Hi) as (nd & H1 & H2). by exists i, nd.
Qed.

Lemma some_empty n X es size hash C seen e k lv : second_inv n X es size hash C seen e → length hash = length (hash_keys size es) →
  (key_lua k, lv) ∈ es → array_key size k = false → ¬ stored X hash k → ∃ i, hash !! i = Some empty_node.
Proof.
  intros [HX Hs Hd _ _ _ _] Hl Hin Ha Hno.
  assert (Hdec : Exists (λ nd, is_nil (n_value nd) = true) hash ∨ Forall (λ nd, is_nil (n_value nd) = false) hash).
  { clear. induction hash as [|nd hash IH]; [right; constructor|]. destruct (is_nil (n_value nd)) eqn:E; [left; by constructor|].
    destruct IH; [left; by constructor 2|right; by constructor]. }
  destruct Hdec as [(nd & (i & Hi)%list_elem_of_lookup & Hnil)%Exists_exists|Hall].
  - exists i. destruct (Hs i nd Hi) as [->|(k' & lv' & _ & _ & _ & Hv & _)]; [done|]. by destruct (n_value nd).
  - exfalso. rewrite Forall_lookup in Hall. destruct (slot_keys X hash Hd) as (ks & Hlk%Forall2_length & Hnd & Hst).
    { intros i nd Hi. specialize (Hall i nd Hi). apply not_nil in Hall. destruct (Hs i nd Hi) as [->|(k' & ? & _ & _ & Hk' & _)]; [done|by exists k']. }
    assert (Hsub : map key_lua (k :: ks) ⊆+ hash_keys size es).
    { apply NoDup_submseteq.
      - apply (NoDup_fmap_2_strong key_lua); [intros; by apply key_lua_inj|]. apply NoDup_cons. split; [|done]. intros Hk. by apply Hno, Hst.
      - intros kl (k' & -> & Hk')%list_elem_of_fmap. apply hash_keys_in. apply elem_of_cons in Hk' as [->|Hk']; [split; [done|by exists lv]|].
        destruct (Hst k' Hk') as (i & nd & Hi & Hnf). destruct (Hs i nd Hi) as [->|(k2 & lv2 & Hin2 & Ha2 & Hk2 & _)]; [by destruct Hnf as (? & [=] & _)|].
        assert (k' = k2) as -> by (by apply (node_for_back X X HX ltac:(done) k2 k' nd)). split; [done|by exists lv2]. }
    apply submseteq_length in Hsub. rewrite length_map in Hsub. cbn in Hsub. lia.
Qed.

Lemma find_empty_spec hash i0 : (i0 <= length hash)%nat → (∀ i, (i < i0)%nat → full hash i) → (∃ i, hash !! i = Some empty_node) →
  (∀ i nd, hash !! i = Some nd → n_value nd = VNil → nd = empty_node) →
  ∃ i, find_empty (length hash - i0) hash (Z.of_nat i0) = Ok (Z.of_nat i) ∧ hash !! i = Some empty_node ∧ ∀ i', (i' < i)%nat → full hash i'.
Proof.
  intros Hle Hf [e He] Hnil. remember (length hash - i0)%nat as fuel eqn:Hfuel. revert i0 Hle Hf Hfuel. induction fuel as [|fuel IH]; intros i0 Hle Hf Hfuel.
  - destruct (Hf e) as (nd & H1 & H2); [apply lookup_lt_Some in He; lia|]. rewrite He in H1. by injection H1 as <-.
  - destruct (lookup_lt_is_Some_2 hash i0 ltac:(lia)) as [nd Hnd]. cbn [find_empty].
    rewrite (arr_get_Ok _ _ nd) by (rewrite ?Nat2Z.id; lia || done). cbn [rbind]. destruct (is_nil (n_value nd)) eqn:E.
    + exists i0. split; [done|]. split; [|done]. rewrite Hnd. f_equal. apply (Hnil i0); [done|]. by destruct (n_value nd).
    + replace (Z.of_nat i0 + 1) with (Z.of_nat (S i0)) by lia. apply IH; [lia| |lia]. intros i Hi. destruct (decide (i = i0)) as [->|]; [|apply Hf; lia].
      exists nd. split; [done|]. by apply not_nil.
Qed.

(** ** The second pass *)

Lemma slot_empty n X size es nd : slot_ok n X size es nd → n_value nd = VNil → nd = empty_node.
Proof. intros [->|(k & lv & _ & _ & _ & Hv & _)]; [done|]. by intros. Qed.

Section second.
Context (n : nat) (conv : context → entries → sdlua (context * Z)) (Hconv : conv_spec n conv).
Context (es : entries) (size : Z) (Hwf : wf_entries es) (Hdep : ∀ kl lv, (kl, lv) ∈ es → (depth lv <= n)%nat).

Lemma fillcolliding_spec es' seen X hash C e : (∀ x, x ∈ es' → x ∈ es) → NoDup es'.*1 → (∀ kl, kl ∈ es'.*1 → kl ∉ seen) →
  length hash = length (hash_keys size es) → (0 < length hash)%nat → (e <= length hash)%nat → second_inv n X es size hash C seen e →
  ∃ X' hash' C' seen' e', fillcolliding conv es' X size hash (Z.of_nat e) = lret (X', hash') ∧ ext X X' ∧ second_inv n X' es size hash' C' seen' e' ∧
    length hash' = length hash ∧ (∀ k, stored X hash k → stored X' hash' k) ∧
    (∀ k lv, (key_lua k, lv) ∈ es' → array_key size k = false → stored X' hash' k).
Proof.
  revert seen X hash C e. induction es' as [|[kl lv] es' IH]; intros seen X hash C e Hsub Hnd Hseen Hlen Hpos He Hinv.
  { exists X, hash, C, seen, e. split_and!; try done. by intros k lv ?%elem_of_nil. }
  assert (Hin : (kl, lv) ∈ es) by (apply Hsub; by left). cbn in Hnd. apply NoDup_cons in Hnd as [Hnk Hnd].
  destruct (proj2 Hwf _ _ Hin) as (Hkey & Hnil & Hwv). destruct (key_ok_inv kl Hkey) as (k & -> & _).
  assert (Hnext : ∀ X1 hash1 C1 seen1 e1, ext X X1 → second_inv n X1 es size hash1 C1 seen1 e1 → length hash1 = length hash → (e1 <= length hash)%nat →
    (∀ kl, kl ∈ es'.*1 → kl ∉ seen1) → (∀ k, stored X hash k → stored X1 hash1 k) → (array_key size k = false → stored X1 hash1 k) →
    ∃ X' hash' C' seen' e', fillcolliding conv es' X1 size hash1 (Z.of_nat e1) = lret (X', hash') ∧ ext X X' ∧ second_inv n X' es size hash' C' seen' e' ∧
      length hash' = length hash ∧ (∀ k, stored X hash k → stored X' hash' k) ∧
      (∀ k' lv', (key_lua k', lv') ∈ (key_lua k, lv) :: es' → array_key size k' = false → stored X' hash' k')).
  { intros X1 hash1 C1 seen1 e1 He1 Hinv1 Hl1 Hle1 Hs1 Hst1 Hk1.
    destruct (IH seen1 X1 hash1 C1 e1) as (X' & hash' & C' & seen' & e' & E & He' & Hinv' & Hl' & Hst' & Hall); try done; [intros; apply Hsub; by right|lia|lia|lia|].
    exists X', hash', C', seen', e'. split_and!; [done|by etrans|done|lia|auto|]. intros k' lv' [[= Hk' _]|Hk']%elem_of_cons; [|by eapply Hall].
    apply key_lua_inj in Hk' as ->. auto. }
  destruct (ishashkey_spec X size k (g_ctx _ _ _ _ _ _ _ _ Hinv) Hkey) as (X1 & He1 & HX1 & Hplace).
  pose proof (second_inv_ext _ _ _ _ _ _ _ _ _ HX1 He1 Hinv) as Hinv1.
  assert (Hmono1 : ∀ k, stored X hash k → stored X1 hash k) by (intros k' (i & nd & H1 & H2); exists i, nd; split; [done|by eapply node_for_ext]).
  assert (Hseen' : ∀ kl, kl ∈ es'.*1 → kl ∉ seen) by (intros kl Hkl; apply Hseen; by right).
  cbn [fillcolliding]. destruct (array_key size k) eqn:Hak.
  { destruct Hplace as (z & -> & ->). cbv iota beta. by apply (Hnext X1 hash C seen e). }
  destruct Hplace as (key & Hraw & ->). cbv iota beta. destruct (g_mains _ _ _ _ _ _ _ _ Hinv1 k lv Hin Hak) as (nd & k0 & Hmain & Hk0 & Hs0).
  destruct (slot_lt hash k Hpos) as [Hlt Hz]. rewrite <- Hz. rewrite (arr_get_Ok _ _ nd) by (rewrite ?Nat2Z.id; lia || done). rewrite lift_Ok, lbind_Ok.
  pose proof Hk0 as (mk & Hmk & Hraw0 & Ht0 & Hh0). unfold get_key. rewrite Hmk, lift_Ok, lbind_Ok.
  destruct (decide (k0 = k)) as [->|Hne].
  { assert (nk_key mk = key) as -> by (destruct k; cbn in Hraw, Hraw0; congruence). rewrite Ht0, !Z.eqb_refl. cbn [andb].
    apply (Hnext X1 hash C seen e); try done. intros _. by exists (slot_of hash k), nd. }
  assert ((nk_type mk =? type_of k) && (nk_key mk =? key) = false) as ->.
  { destruct (Z.eqb_spec (nk_type mk) (type_of k)) as [Et|]; [|done]. destruct (Z.eqb_spec (nk_key mk) key) as [Ek|]; [|done]. destruct Hne.
    eapply (raw_key_inj X1); [done|congruence|by rewrite Ek in Hraw0|done]. }
  assert (Hnst : ¬ stored X1 hash k).
  { intros (i & nd' & Hi & Hk'). destruct (g_origin _ _ _ _ _ _ _ _ Hinv1 i nd' k Hi Hk') as [<-|Hs]; [|by destruct (Hseen (key_lua k)); [left|]].
    rewrite Hmain in Hi. injection Hi as <-. destruct Hne. by apply (node_for_back X1 X1 HX1 ltac:(done) k k0 nd). }
  destruct (find_empty_spec hash e He (g_front _ _ _ _ _ _ _ _ Hinv1)) as (i & Hfind & Hempty & Hfront).
  { by eapply (some_empty n X1 es size hash C seen e k lv). }
  { intros i nd' Hi. eapply slot_empty. by eapply (g_slots _ _ _ _ _ _ _ _ Hinv1). }
  replace (Z.to_nat (Z.of_nat (length hash) - Z.of_nat e)) with (length hash - e)%nat by lia. rewrite Hfind, lift_Ok, lbind_Ok.
  destruct (setvalue_spec n conv Hconv X1 lv HX1 Hwv Hnil (Hdep _ _ Hin)) as (X2 & val & E & He2 & HX2 & Hval & Hrep). rewrite E, lbind_lret.
  pose proof (second_inv_ext _ _ _ _ _ _ _ _ _ HX2 He2 Hinv1) as Hinv2. assert (Hli : (i < length hash)%nat) by (by eapply lookup_lt_Some).
  rewrite arr_set_Ok, Nat2Z.id, lift_Ok, lbind_Ok by lia. rewrite arr_set_Ok, Nat2Z.id, lift_Ok, lbind_Ok by (rewrite length_insert; lia).
  replace (Z.of_nat i + 1) with (Z.of_nat (S i)) by lia.
  pose proof (raw_key_ext X1 X2 k key He2 Hraw) as Hraw2. pose proof (node_for_ext X1 X2 He2 k0 nd Hk0) as Hk02.
  assert (Hks : key_lua k ∉ seen) by (apply Hseen; by left).
  eapply Hnext; [by etrans; [|exact He2]|by apply (link_second_inv n X2 es size hash C seen e Hinv2 k lv key val i nd mk k0)|by rewrite !length_insert|lia| | |].
  - intros kl Hkl [->|Hs]%elem_of_cons; [done|by destruct (Hseen' kl)].
  - intros k' (i' & nd' & Hi' & Hk')%Hmono1. destruct (link_keeps n X2 es size hash C seen e Hinv2 k key val i nd mk k0) with (a := i') (nd1 := nd') (k1 := k') as (nd2 & H1 & H2); try done.
    + by eapply node_for_ext.
    + by exists i', nd2.
  - intros _. exists i. eexists. rewrite list_lookup_insert_eq by (by rewrite length_insert). split; [done|]. by eexists.
Qed.
End second.
