(* ===== verification/ShareProof.v ===== *)
(** * Shared configuration tables: a converted table reads like the Lua table

    [convtable] succeeds on every well-formed table; every key leads to its value, at any
    depth, and no other key does; the enumeration of the keys gives each once. *)
From S2P Require Import Prelude LuaCall Seri ShareData ShareHash ShareChain.
Open Scope list_scope.
Open Scope Z_scope.

(** ** The conversion of a table *)

(** when all keys are stored, every slot is in use *)
Lemma all_slots_used n X es size hash C seen e : second_inv n X es size hash C seen e → wf_entries es → length hash = length (hash_keys size es) →
  (∀ k lv, (key_lua k, lv) ∈ es → array_key size k = false → stored X hash k) → ∀ i nd, hash !! i = Some nd → ∃ k, node_for X k nd.
Proof.
  intros [HX Hs Hd _ _ _ _] [Hnd Hwf] Hl Hst.
  assert (Hall : ∀ kl, kl ∈ hash_keys size es → ∃ i k nd, kl = key_lua k ∧ hash !! i = Some nd ∧ node_for X k nd).
  { intros kl Hkl. assert (Hk : ∃ k, kl = key_lua k).
    { apply list_elem_of_filter in Hkl as [_ ([kl' lv] & -> & Hin)%list_elem_of_fmap]. destruct (Hwf _ _ Hin) as [Hok _]. destruct (key_ok_inv _ Hok) as (k & -> & _). by exists k. }
    destruct Hk as [k ->]. apply hash_keys_in in Hkl as [Ha [lv Hin]]. destruct (Hst k lv Hin Ha) as (i & nd & Hi & Hk). by exists i, k, nd. }
  assert (Hnk : NoDup (hash_keys size es)) by (by apply NoDup_filter).
  assert (H : ∃ slots, Forall2 (λ kl i, ∃ k nd, kl = key_lua k ∧ hash !! i = Some nd ∧ node_for X k nd) (hash_keys size es) slots).
  { clear -Hall. induction (hash_keys size es) as [|kl kls IH]; [by exists []|]. destruct (Hall kl ltac:(by left)) as (i & Hi).
    destruct IH as [slots His]; [intros; apply Hall; by right|]. exists (i :: slots). by constructor. }
  destruct H as [slots His].
  assert (Hperm : slots ≡ₚ seq 0 (length hash)).
  { apply submseteq_length_Permutation.
    - apply NoDup_submseteq.
      + apply NoDup_alt. intros a b i Ha Hb. destruct (Forall2_lookup_r _ _ _ _ _ His Ha) as (kl & Hkl & k & nd & -> & Hi & Hk), (Forall2_lookup_r _ _ _ _ _ His Hb) as (kl' & Hkl' & k' & nd' & -> & Hi' & Hk').
        rewrite Hi in Hi'. injection Hi' as <-. assert (k = k') as -> by (by apply (node_for_back X X HX ltac:(done) k' k nd)). by eapply NoDup_lookup.
      + intros i (a & Ha)%list_elem_of_lookup. destruct (Forall2_lookup_r _ _ _ _ _ His Ha) as (kl & _ & k & nd & _ & Hi & _). apply elem_of_seq. apply lookup_lt_Some in Hi. lia.
    - rewrite length_seq, <- (Forall2_length _ _ _ His). lia. }
  intros i nd Hi. assert (Hin : i ∈ slots) by (rewrite Hperm; apply elem_of_seq; apply lookup_lt_Some in Hi; lia).
  apply list_elem_of_lookup in Hin as (a & Ha). destruct (Forall2_lookup_r _ _ _ _ _ His Ha) as (kl & _ & k & nd' & _ & Hi' & Hk). rewrite Hi in Hi'. injection Hi' as <-. by exists k.
Qed.

Lemma rawgeti_entry es z lv : NoDup es.*1 → (LInt z, lv) ∈ es → rawgeti es z = lv.
Proof.
  unfold rawgeti. intros Hnd Hin. destruct (find (λ p, is_int_key z p.1) es) as [[kl lv']|] eqn:E.
  - apply find_some in E as [Hin' Hk]. cbn in Hk. destruct kl; try done. cbn in Hk. apply Z.eqb_eq in Hk as ->.
    eapply entry_unique; [done| |done]. by apply list_elem_of_In.
  - apply list_elem_of_In in Hin. pose proof (find_none _ _ E _ Hin) as H. cbn in H. lia.
Qed.
Lemma rawgeti_none es z : (∀ lv, (LInt z, lv) ∉ es) → rawgeti es z = LNil.
Proof.
  unfold rawgeti. intros Hno. destruct (find (λ p, is_int_key z p.1) es) as [[kl lv']|] eqn:E; [|done].
  apply find_some in E as [Hin' Hk]. cbn in Hk. destruct kl; try done. cbn in Hk. apply Z.eqb_eq in Hk as ->. destruct (Hno lv'). by apply list_elem_of_In.
Qed.
Lemma entry_dec (es : entries) z : (∃ lv, (LInt z, lv) ∈ es) ∨ ∀ lv, (LInt z, lv) ∉ es.
Proof.
  induction es as [|[kl lv] es [[lv' IH]|IH]]; [right; by intros lv ?%elem_of_nil|left; exists lv'; by right|].
  destruct (is_int_key z kl) eqn:E.
  - left. exists lv. destruct kl; try done. cbn in E. apply Z.eqb_eq in E as ->. by left.
  - right. intros lv' [[= <- _]|Hin]%elem_of_cons; [cbn in E; lia|by apply (IH lv')].
Qed.

Section convert.
Context (n : nat) (conv : context → entries → sdlua (context * Z)) (Hconv : conv_spec n conv).
Context (es : entries) (Hwf : wf_entries es) (Hdep : ∀ kl lv, (kl, lv) ∈ es → (depth lv <= n)%nat).

(** a table that is only an array *)
Lemma fill_array_spec m i X arr : first_inv n X es arr [] → 1 <= i → i - 1 + Z.of_nat m <= Z.of_nat (length arr) →
  ∃ X' arr', fill_array conv m i es X arr = lret (X', arr') ∧ ext X X' ∧ first_inv n X' es arr' [] ∧ length arr' = length arr ∧
    (∀ z, 1 <= z < i → set_cell arr z → set_cell arr' z) ∧ (∀ z lv, i <= z < i + Z.of_nat m → (LInt z, lv) ∈ es → set_cell arr' z).
Proof.
  revert i X arr. induction m as [|m IH]; intros i X arr Hinv Hi Hm; cbn [fill_array].
  { exists X, arr. split_and!; try done. intros; lia. }
  assert (Hstep : ∃ X1 arr1, setarray conv X arr (rawgeti es i) i = lret (X1, arr1) ∧ ext X X1 ∧ first_inv n X1 es arr1 [] ∧ length arr1 = length arr ∧
    (∀ z, 1 <= z < i → set_cell arr z → set_cell arr1 z) ∧ (∀ lv, (LInt i, lv) ∈ es → set_cell arr1 i)).
  { destruct (entry_dec es i) as [[lv Hin]|Hno].
    - rewrite (rawgeti_entry es i lv (proj1 Hwf) Hin).
      destruct (first_cell n conv Hconv X es arr [] i lv Hinv Hwf Hin (Hdep _ _ Hin)) as (X1 & arr1 & E & He & Hi1 & Hl & Hset & Hmono); [cbn; lia|].
      exists X1, arr1. split_and!; auto.
    - rewrite (rawgeti_none es i Hno). unfold setarray. cbn [setvalue]. rewrite lbind_lret, arr_set_Ok, lift_Ok, lbind_Ok by lia.
      eexists X, _. split; [done|]. split; [done|]. destruct Hinv as [HX Hs Hc Hmn]. split_and!; [|by rewrite length_insert| |by intros lv ?%Hno].
      + split; [done|done| |done]. intros a v Ha. apply list_lookup_insert_Some in Ha as [(_ & <- & _)|[_ Ha]]; [by left|by apply Hc].
      + intros z Hz (v & Hv & Hn). exists v. rewrite list_lookup_insert_ne; [done|]. lia. }
  destruct Hstep as (X1 & arr1 & -> & He1 & Hinv1 & Hl1 & Hmono1 & Hset1). rewrite lbind_lret.
  destruct (IH (i + 1) X1 arr1 Hinv1) as (X' & arr' & E & He & Hinv' & Hl & Hmono & Hset); [lia|lia|].
  exists X', arr'. split_and!; [done|by etrans|done|lia| |].
  - intros z Hz Hc. apply Hmono; [lia|]. by apply Hmono1.
  - intros z lv Hz Hin. destruct (decide (z = i)) as [->|]; [|eapply Hset; [lia|done]]. apply Hmono; [lia|]. by eapply Hset1.
Qed.

(** the table that the passes leave is the Lua table *)
Lemma table_rep X arr hash : ctx_ok X → hash_ok X hash →
  (∀ i nd, hash !! i = Some nd → slot_ok n X (Z.of_nat (length arr)) es nd) → (∀ i v, arr !! i = Some v → cell_ok n X es i v) →
  (∀ k lv, (key_lua k, lv) ∈ es → if array_key (Z.of_nat (length arr)) k then match k with KInt z => set_cell arr z | KStr _ => False end else stored X hash k) →
  no_array_keys X (mkTable arr hash) ∧
  (∀ k lv, (key_lua k, lv) ∈ es → ∃ v, t_get X (mkTable arr hash) k v ∧ v ≠ VNil ∧ rep n X v lv) ∧
  (∀ k v, t_get X (mkTable arr hash) k v → v = VNil ∨ ∃ lv, (key_lua k, lv) ∈ es).
Proof.
  intros HX Hok Hs Hc Hall. split.
  { intros i nd k Hi Hk. destruct (Hs i nd Hi) as [->|(k' & lv' & _ & Ha & Hk' & Hv & _)]; [by destruct Hk as (? & [=] & _)|].
    by assert (k' = k) as -> by (by apply (node_for_back X X HX ltac:(done) k k' nd)). }
  unfold t_get, sizearray. cbn [t_array t_hash]. split.
  - intros k lv Hin. specialize (Hall k lv Hin). destruct (array_key _ k) eqn:Ha.
    + destruct k as [z|]; [|done]. destruct Hall as (v & Hv & Hn). exists v. split; [done|]. split; [done|].
      destruct (Hc _ v Hv) as [->|(lv' & Hin' & _ & Hr)]; [done|]. cbn in Ha. replace (Z.of_nat (Z.to_nat (z - 1)) + 1) with z in Hin' by lia.
      by rewrite (entry_unique es (LInt z) lv lv' (proj1 Hwf) Hin Hin').
    + destruct Hall as (i & nd & Hi & Hk). destruct (Hs i nd Hi) as [->|(k' & lv' & Hin' & _ & Hk' & Hv & Hr)]; [by destruct Hk as (? & [=] & _)|].
      assert (k' = k) as -> by (by apply (node_for_back X X HX ltac:(done) k k' nd)). exists (n_value nd). split; [by exists i, nd|]. split; [done|].
      by rewrite (entry_unique es _ lv lv' (proj1 Hwf) Hin Hin').
  - intros k v. destruct (array_key _ k) eqn:Ha.
    + destruct k as [z|]; [|done]. intros Hv. destruct (Hc _ v Hv) as [->|(lv & Hin & _)]; [by left|right]. exists lv. cbn in Ha.
      by replace (Z.of_nat (Z.to_nat (z - 1)) + 1) with z in Hin by lia.
    + intros (i & nd & Hi & Hk & <-). destruct (Hs i nd Hi) as [->|(k' & lv' & Hin' & _ & Hk' & _)]; [by left|right].
      assert (k' = k) as -> by (by apply (node_for_back X X HX ltac:(done) k k' nd)). by exists lv'.
Qed.

Lemma first_inv_start X m N : ctx_ok X → first_inv n X es (replicate m VNil) (replicate N empty_node).
Proof.
  intros HX. split; [done| | |].
  - intros i nd [-> _]%lookup_replicate. by left.
  - intros i v [-> _]%lookup_replicate. by left.
  - intros i nd k [-> _]%lookup_replicate (nk & [=] & _).
Qed.

Lemma convtable_body_spec rawlen X : 0 <= rawlen es <= INT_MAX → ctx_ok X →
  ∃ X' t, convtable_body rawlen conv X es = lret (X', t) ∧ ext X X' ∧ ctx_ok X' ∧ Z.of_nat (length (t_array t)) <= INT_MAX ∧ hash_ok X' (t_hash t) ∧ no_array_keys X' t ∧
    (∀ k lv, (key_lua k, lv) ∈ es → ∃ v, t_get X' t k v ∧ v ≠ VNil ∧ rep n X' v lv) ∧
    (∀ k v, t_get X' t k v → v = VNil ∨ ∃ lv, (key_lua k, lv) ∈ es).
Proof.
  intros Hraw HX. unfold convtable_body. rewrite s32_small by (unfold INT_MAX in Hraw; lia). set (size := rawlen es) in *.
  rewrite countsize_spec by (intros kl lv Hin; apply (proj2 Hwf _ _ Hin)). rewrite lbind_lret.
  set (N := length (hash_keys size es)). assert (Hsize : Z.of_nat (Z.to_nat size) = size) by lia. destruct (Z.eqb_spec (Z.of_nat N) 0) as [H0|H0].
  - assert (Hnil : hash_keys size es = []) by (apply nil_length_inv; lia).
    destruct (fill_array_spec (Z.to_nat size) 1 X (replicate (Z.to_nat size) VNil) (first_inv_start X _ 0 HX)) as (X' & arr & E & He & Hinv & Hl & _ & Hset); [lia|rewrite length_replicate; lia|].
    rewrite E, lbind_lret. exists X', (mkTable arr []). split; [done|]. destruct Hinv as [HX' Hs Hc _]. split; [done|]. split; [done|]. split; [cbn; rewrite Hl, length_replicate; lia|].
    assert (Hok : hash_ok X' []).
    { split_and!; [by intros ? ? ? ? ? ?|by intros|]. exists (λ _, []). split; try done; try (by intros ? ? ?%elem_of_nil). intros; constructor. }
    split; [done|]. apply table_rep; try done. intros k lv Hin. rewrite Hl, length_replicate, Hsize.
    assert (Ha : array_key size k = true).
    { destruct (array_key size k) eqn:Ha; [done|]. assert (Hk : key_lua k ∈ hash_keys size es) by (apply hash_keys_in; split; [done|by exists lv]).
      rewrite Hnil in Hk. by apply elem_of_nil in Hk. }
    rewrite Ha. destruct k as [z|]; [|done]. apply (Hset z lv); [cbn in Ha; lia|done].
  - rewrite Nat2Z.id. pose proof (first_inv_start X (Z.to_nat size) N HX) as Hst.
    destruct (fillnocolliding_spec n conv Hconv es es X (replicate (Z.to_nat size) VNil) (replicate N empty_node) ltac:(done) Hwf Hdep ltac:(rewrite length_replicate; lia) Hst) as (X1 & arr & hash & E & He1 & Hinv1 & Hla & Hlh & _ & Hpl).
    rewrite E, lbind_lret. cbv iota beta. rewrite length_replicate in Hla. rewrite length_replicate in Hlh.
    pose proof (first_to_second n X1 es arr hash Hinv1 Hpl) as Hinv2. rewrite Hla, Hsize in Hinv2. rewrite Hla, Hsize.
    destruct (fillcolliding_spec n conv Hconv es size Hwf Hdep es [] X1 hash _ 0 ltac:(done) (proj1 Hwf) ltac:(intros kl _ ?%elem_of_nil; done) ltac:(lia) ltac:(lia) ltac:(lia) Hinv2)
      as (X2 & hash2 & C & seen & e & E2 & He2 & Hinv3 & Hl2 & _ & Hstored).
    change (Z.of_nat 0) with 0 in E2. rewrite E2, lbind_lret. exists X2, (mkTable arr hash2). split; [done|]. split; [by etrans|]. pose proof Hinv3 as [HX2 Hs3 Hd3 HC3 _ _ _]. split; [done|]. split; [cbn; lia|].
    assert (Hok : hash_ok X2 hash2).
    { split_and!; [done|eapply (all_slots_used n X2 es size hash2 C seen e); [done|done|lia|done]|by exists C]. }
    split; [done|]. apply table_rep; [done|done|by rewrite Hla, Hsize| |].
    + intros i v Hi. eapply cell_ok_ext; [done|exact He2|by apply (f_cells _ _ _ _ _ Hinv1)].
    + intros k lv Hin. rewrite Hla, Hsize. specialize (Hpl k lv Hin). unfold placed in Hpl. rewrite Hla, Hsize in Hpl.
      destruct (array_key size k) eqn:Ha; [done|by eapply Hstored].
Qed.
End convert.

Section conversion.
Context (rawlen : entries → Z) (Hrawlen : ∀ es, 0 <= rawlen es <= INT_MAX).

Lemma convtable_spec calls : conv_spec calls (convtable rawlen calls).
Proof.
  induction calls as [|calls IH]; intros X es m HX Hwf Hd; [cbn in Hd; lia|]. cbn [convtable].
  set (X0 := X <| x_next := x_next X + 1 |>).
  assert (HX0 : ctx_ok X0) by (destruct HX as [Hf Ha Hi Hp Hj Hm Hc]; split; cbn; try done; [|lia]; intros q t Hq; specialize (Hf q t Hq); lia).
  assert (Hdep : ∀ kl lv, (kl, lv) ∈ es → (depth lv <= calls)%nat) by (intros kl lv Hin; pose proof (depth_entry es m kl lv Hin); lia).
  destruct (convtable_body_spec calls (convtable rawlen calls) IH es Hwf Hdep rawlen X0 (Hrawlen es) HX0) as (X1 & t & E & He & HX1 & Hsm & Hok & Hno & Hin & Hout).
  rewrite E, lbind_lret. eexists _, _. split; [done|].
  assert (Hfresh : x_tables X1 !! x_next X = None).
  { destruct (x_tables X1 !! x_next X) as [t'|] eqn:Et; [|done]. pose proof (e_old _ _ He _ _ Et ltac:(cbn; lia)) as Ho. cbn in Ho. pose proof (x_fresh X HX _ _ Ho). lia. }
  set (X2 := X1 <| x_tables := <[x_next X := t]> (x_tables X1) |>). pose proof (e_next _ _ He) as Hnx. cbn in Hnx.
  assert (Hgrow : ∀ q t', x_tables X1 !! q = Some t' → x_tables X2 !! q = Some t') by (intros q t' Hq; cbn; rewrite lookup_insert_ne; [done|]; intros <-; congruence).
  assert (HX2 : ctx_ok X2).
  { destruct HX1 as [Hf Ha Hi Hp Hj Hm Hc]. pose proof (x_addr X HX). split; cbn; try done; intros q t' Hq; apply lookup_insert_Some in Hq as [[<- <-]|[_ Hq]]; [lia|by eapply Hf|done|by eapply Hm]. }
  split_and!; [|done|].
  - split; cbn; [lia| | |].
    + intros q t' Hq. apply Hgrow. by apply (e_tables _ _ He).
    + intros q t' Hq Hlt. rewrite lookup_insert_ne in Hq by lia. apply (e_old _ _ He) in Hq; [done|cbn; lia].
    + apply (e_strings _ _ He).
  - exists (x_next X), t. split; [done|]. split; [cbn; apply lookup_insert_eq|].
    split; [by eapply (hash_ok_grow X1 X2)|]. split; [by eapply (no_array_keys_grow X1 X2)|]. split.
    + intros k lv Hk. destruct (Hin k lv Hk) as (v & Hv & Hnil & Hr). exists v. split_and!; [by eapply (t_get_grow X1 X2)|done|by eapply (rep_grow X1 X2)].
    + intros k v Hv. eapply Hout. by eapply (t_get_gback X1 X2).
Qed.
End conversion.
