(* ===== verification/ShareRead.v ===== *)
(** * Shared configuration tables: reading

    What the clients of a converted table see: every path of keys leads to the value of the
    Lua table, and the copy of a shared table is the table. *)
From S2P Require Import Prelude LuaCall Seri ShareData ShareHash ShareChain ShareProof.
Open Scope list_scope.
Open Scope Z_scope.

(** ** The strings *)

Lemma stringmap_spec (strings : gmap (list Z) Z) : (∀ s s' i, strings !! s = Some i → strings !! s' = Some i → s = s') →
  let stack := map_fold (λ str idx (stack : gmap Z (list Z)), <[idx := str]> stack) ∅ strings in
  (∀ i s, stack !! i = Some s ↔ strings !! s = Some i) ∧ size stack = size strings.
Proof.
  apply (map_fold_weak_ind (λ stack strings, (∀ s s' i, strings !! s = Some i → strings !! s' = Some i → s = s') →
    (∀ i s, stack !! i = Some s ↔ strings !! s = Some i) ∧ size stack = size strings)).
  - intros _. split; [|by rewrite !map_size_empty]. intros i s. by rewrite !lookup_empty.
  - intros str idx m stack Hnew IH Hinj.
    assert (Hm : ∀ s0 i0, m !! s0 = Some i0 → i0 ≠ idx).
    { intros s0 i0 Hs0 ->. assert (s0 = str) as ->; [|congruence]. apply (Hinj s0 str idx); [|apply lookup_insert_eq].
      rewrite lookup_insert_ne; [done|]. intros ->. congruence. }
    assert (Hinj' : ∀ s s' i, m !! s = Some i → m !! s' = Some i → s = s').
    { intros s1 s2 i1 H1 H2. apply (Hinj s1 s2 i1); rewrite lookup_insert_ne; try done; intros ->; congruence. }
    destruct (IH Hinj') as [IHl IHs]. split.
    + intros i s. rewrite !lookup_insert_Some, IHl. split.
      * intros [[<- <-]|[Hne Hs]]; [by left|]. right. split; [|done]. intros ->. congruence.
      * intros [[<- <-]|[Hne Hs]]; [by left|]. right. split; [|done]. intros <-. by eapply Hm.
    + rewrite !map_size_insert_None; [by rewrite IHs|done|].
      destruct (stack !! idx) as [s0|] eqn:E; [|done]. apply IHl in E. by destruct (Hm s0 idx E).
Qed.

(** ** Looking up a key *)

Definition query_key (k : skey) : Z := match k with KInt z => z | KStr _ => 0 end.
Definition query_str (k : skey) : list Z := match k with KInt _ => [] | KStr s => s end.

Section reading.
Context (X : context) (HX : ctx_ok X) (c : conf).
Context (Hstack : ∀ i s, cf_stack c !! i = Some s ↔ x_strings X !! s = Some i) (Htables : cf_tables c = x_tables X).

Lemma get_table_ok p t : x_tables X !! p = Some t → get_table c p = lret t.
Proof. intros Ht. unfold get_table. pose proof (x_fresh X HX p t Ht). rewrite (proj2 (Z.eqb_neq p 0)) by lia. by rewrite Htables, Ht. Qed.

(** the test of a slot tells whether it has the key *)
Lemma hit_spec nd nk k k' : n_key nd = Some nk → node_for X k' nd →
  (if hash_of k =? nk_hash nk then
     if nk_type nk =? KEYTYPE_INTEGER then Ok ((type_of k =? KEYTYPE_INTEGER) && (nk_key nk =? query_key k))
     else if type_of k =? KEYTYPE_STRING then s <- stack_string c (nk_key nk);; Ok (bool_decide (query_str k = s)) else Ok false
   else Ok false) = Ok (bool_decide (k' = k)).
Proof.
  intros Hnk (nk' & E & Hraw & Ht & Hh). rewrite Hnk in E. injection E as <-. rewrite Ht, Hh.
  destruct (Z.eqb_spec (hash_of k) (hash_of k')) as [Eh|Eh]; [|rewrite bool_decide_eq_false_2; [done|congruence]].
  destruct k' as [z'|s'], k as [z|s]; cbn.
  - f_equal. cbn in Hraw. rewrite Hraw. destruct (Z.eqb_spec z' z) as [->|]; [by rewrite bool_decide_eq_true_2|by rewrite bool_decide_eq_false_2 by congruence].
  - by rewrite bool_decide_eq_false_2.
  - by rewrite bool_decide_eq_false_2.
  - cbn in Hraw. unfold stack_string. rewrite (proj2 (Hstack _ _) Hraw). cbn. f_equal. apply bool_decide_ext. naive_solver.
Qed.

Lemma lookup_walk hash k l fuel a : linked hash (a :: l) → (length l < fuel)%nat →
  (∀ i, i ∈ a :: l → ∃ nd k', hash !! i = Some nd ∧ node_for X k' nd) →
  (∃ i nd, lookup_loop fuel c hash (Z.of_nat a) (hash_of k) (query_key k) (type_of k) (query_str k) = Ok (Some (Z.of_nat i)) ∧ hash !! i = Some nd ∧ node_for X k nd) ∨
  (lookup_loop fuel c hash (Z.of_nat a) (hash_of k) (query_key k) (type_of k) (query_str k) = Ok None ∧ ∀ i nd, i ∈ a :: l → hash !! i = Some nd → ¬ node_for X k nd).
Proof.
  revert a fuel. induction l as [|b l IH]; intros a fuel Hl Hf Hall; (destruct fuel as [|fuel]; [lia|]); cbn [lookup_loop].
  all: destruct Hl as [(nd & nk & Hnd & Hnk & Hnext) Hl]; destruct (Hall a ltac:(by left)) as (nd' & k' & Hnd' & Hk'); rewrite Hnd in Hnd'; injection Hnd' as <-.
  all: rewrite (arr_get_Ok _ _ nd) by (rewrite ?Nat2Z.id; lia || done); cbn [rbind]; unfold get_key; rewrite Hnk; cbn [rbind].
  all: rewrite (hit_spec nd nk k k' Hnk Hk'); cbn [rbind]; case_bool_decide as Ek; [subst k'; left; by exists a, nd|].
  all: assert (Hno : ¬ node_for X k nd) by (intros Hk; destruct Ek; by apply (node_for_back X X HX ltac:(done) k k' nd)); rewrite Hnext.
  - right. split; [done|]. intros i nd' [->|?%elem_of_nil]%elem_of_cons Hi; [|done]. congruence.
  - rewrite (proj2 (Z.ltb_ge (Z.of_nat b) 0)) by lia.
    destruct (IH b fuel Hl ltac:(cbn in Hf; lia) ltac:(intros; apply Hall; by right)) as [(i & nd' & -> & Hi & Hk)|[-> Hn]]; [left; by exists i, nd'|].
    right. split; [done|]. intros i nd' [->|Hi]%elem_of_cons Hnd'; [congruence|by eapply Hn].
Qed.

Lemma linked_app hash l1 l2 : linked hash (l1 ++ l2) → linked hash l2.
Proof. induction l1 as [|a l1 IH]; [done|]. intros [_ H]. by apply IH. Qed.

(** a stored key is in the chain that starts at its main slot *)
Lemma main_chain hash C k : chains_ok X hash C → stored X hash k → ∃ l, C (slot_of hash k) = slot_of hash k :: l ∧ ∃ i nd, i ∈ slot_of hash k :: l ∧ hash !! i = Some nd ∧ node_for X k nd.
Proof.
  intros [c1 c2 c3 c4 c5 c6] (i & nd & Hi & Hk). pose proof (c5 i nd k Hi Hk) as Hin. destruct (C (slot_of hash k)) as [|a l] eqn:E; [by apply elem_of_nil in Hin|].
  pose proof (c2 _ _ _ E) as ->. exists l. split; [done|]. by exists i, nd.
Qed.

Lemma lookup_key_spec t k : hash_ok X (t_hash t) →
  (∃ i nd, lookup_key c t (hash_of k) (query_key k) (type_of k) (query_str k) = Ok (Some (Z.of_nat i)) ∧ t_hash t !! i = Some nd ∧ node_for X k nd) ∨
  (lookup_key c t (hash_of k) (query_key k) (type_of k) (query_str k) = Ok None ∧ ¬ stored X (t_hash t) k).
Proof.
  intros (Hd & Hf & C & HC). unfold lookup_key, sizehash. set (hash := t_hash t) in *.
  destruct (Z.eqb_spec (Z.of_nat (length hash)) 0) as [H0|H0].
  { right. split; [done|]. intros (i & nd & Hi & _). apply lookup_lt_Some in Hi. lia. }
  destruct (slot_lt hash k ltac:(lia)) as [Hlt Hz]. rewrite <- Hz. destruct (lookup_lt_is_Some_2 _ _ Hlt) as [nd Hnd].
  rewrite (arr_get_Ok _ _ nd) by (rewrite ?Nat2Z.id; lia || done). cbn [rbind]. destruct (Hf _ nd Hnd) as [k1 Hk1]. pose proof Hk1 as (nk & Hnk & _ & _ & Hh1).
  unfold get_key. rewrite Hnk. cbn [rbind]. pose proof HC as [c1 c2 c3 c4 c5 c6]. pose proof (c5 _ nd k1 Hnd Hk1) as Hin.
  apply list_elem_of_split in Hin as (l1 & l2 & El). set (j := slot_of hash k) in *.
  assert (Hchain : linked hash (j :: l2)) by (apply (linked_app hash l1); rewrite <- El; apply c1).
  assert (Hall : ∀ i, i ∈ j :: l2 → ∃ nd k', hash !! i = Some nd ∧ node_for X k' nd).
  { intros i Hi. destruct (c4 (slot_of hash k1) i) as (nd' & k' & ? & ? & _); [rewrite El; apply elem_of_app; by right|]. by exists nd', k'. }
  (** if the key is stored, its chain starts at [j] and is the one we are in *)
  assert (Hst : stored X hash k → ∃ i nd, i ∈ j :: l2 ∧ hash !! i = Some nd ∧ node_for X k nd).
  { intros Hs. destruct (main_chain hash C k HC Hs) as (l & E & i & ndi & Hi & Hndi & Hki). fold j in E, Hi.
    destruct (c4 j j) as (nd' & k' & H1 & H2 & H3); [rewrite E; by left|]. rewrite Hnd in H1. injection H1 as <-.
    assert (k' = k1) as -> by (by apply (node_for_back X X HX ltac:(done) k1 k' nd)). rewrite H3, E in El.
    pose proof (c3 j) as Hn. rewrite E in Hn. destruct l1 as [|x l1]; [injection El as ->; by exists i, ndi|].
    injection El as <- El. apply NoDup_cons in Hn as [Hn _]. destruct Hn. rewrite El. apply elem_of_app. right. by left. }
  destruct (negb (hash_of k =? nk_hash nk) && n_nocolliding nd) eqn:Enc.
  { right. split; [done|]. intros Hs. destruct (Hst Hs) as (i & ndi & Hi & Hndi & Hki). apply andb_prop in Enc as [Eh Enc]. apply negb_true_iff, Z.eqb_neq in Eh.
    pose proof (c6 j nd nk Hnd Hnk Enc) as Hend. destruct Hchain as [(nd' & nk' & H1 & H2 & H3) _]. rewrite Hnd in H1. injection H1 as <-. rewrite Hnk in H2. injection H2 as <-.
    rewrite Hend in H3. destruct l2 as [|b l2]; [|lia]. apply elem_of_cons in Hi as [->|Hi]; [|by apply elem_of_nil in Hi].
    rewrite Hnd in Hndi. injection Hndi as <-. destruct Hki as (nk' & H4 & _ & _ & H5). rewrite Hnk in H4. injection H4 as <-. lia. }
  assert (Hlen : (length l2 < length hash)%nat).
  { pose proof (c3 (slot_of hash k1)) as Hn. rewrite El in Hn. apply NoDup_app in Hn as (_ & _ & Hn).
    assert (Hsub : j :: l2 ⊆+ seq 0 (length hash)).
    { apply NoDup_submseteq; [done|]. intros i Hi. destruct (Hall i Hi) as (nd' & _ & Hi' & _). apply elem_of_seq. apply lookup_lt_Some in Hi'. lia. }
    apply submseteq_length in Hsub. rewrite length_seq in Hsub. cbn in Hsub. lia. }
  destruct (lookup_walk hash k l2 (length hash) j Hchain Hlen Hall) as [Hfound|[-> Hno]]; [by left|right].
  split; [done|]. intros Hs. destruct (Hst Hs) as (i & ndi & Hi & Hndi & Hki). by eapply Hno.
Qed.

(** a value as it is given to Lua *)
Definition shown (v : value) (lv : lua_value) : lua_value := match v with VTable p => LUserdata p | _ => lv end.

Lemma pushvalue_rep n v lv : rep n X v lv → pushvalue c v = Ok (shown v lv).
Proof.
  destruct lv as [|b|z|bits|s|u|es m|nm]; destruct n; cbn; try done; try (by intros ->).
  - intros (i & -> & Hs). cbn. unfold stack_string. by rewrite (proj2 (Hstack _ _) Hs).
  - intros (i & -> & Hs). cbn. unfold stack_string. by rewrite (proj2 (Hstack _ _) Hs).
  - by intros (p & t & -> & _).
Qed.

Definition query_ok (k : skey) : Prop := match k with KInt z => is_s32 z | KStr _ => True end.

(** the table [p] is the Lua table [es] *)
Definition conf_table (n : nat) (p : Z) (es : entries) : Prop := rep (S n) X (VTable p) (LTable es None).

(** a key of the table gives its value, another one gives nil or nothing *)
Lemma lindexconf_spec n p es k : conf_table n p es → query_ok k →
  (∃ lv v, (key_lua k, lv) ∈ es ∧ v ≠ VNil ∧ rep n X v lv ∧ lindexconf c p (key_lua k) = lret (Some (shown v lv))) ∨
  ((∀ lv, (key_lua k, lv) ∉ es) ∧ (lindexconf c p (key_lua k) = lret None ∨ lindexconf c p (key_lua k) = lret (Some LNil))).
Proof.
  intros (p' & t & [= <-] & Ht & Hok & Hno & Hin & Hout) Hk. unfold lindexconf. rewrite (get_table_ok p t Ht), lbind_lret.
  assert (Hget : ∀ v, t_get X t k v → v = VNil ∨ ∃ lv, (key_lua k, lv) ∈ es ∧ v ≠ VNil ∧ rep n X v lv).
  { intros v Hv. destruct (Hout k v Hv) as [->|[lv Hlv]]; [by left|]. destruct (Hin k lv Hlv) as (v' & Hv' & Hn & Hr).
    assert (v' = v) as ->; [|right; by exists lv]. unfold t_get in Hv, Hv'. destruct (array_key _ k); [destruct k; [congruence|done]|].
    destruct Hv as (i & nd & Hi & Hk1 & <-), Hv' as (i' & nd' & Hi' & Hk1' & <-). destruct Hok as (Hd & _). assert (i = i') as -> by (by eapply Hd). congruence. }
  assert (Hmiss : (∀ v, t_get X t k v → v = VNil) → ∀ lv, (key_lua k, lv) ∉ es) by (intros Hm lv Hlv; destruct (Hin k lv Hlv) as (v & Hv & Hn & _); by apply Hn, Hm).
  assert (Hhash : array_key (sizearray t) k = false → let r := (o <~ lift (lookup_key c t (hash_of k) (query_key k) (type_of k) (query_str k));;
      match o with Some i => nd <~ lift (arr_get (t_hash t) i);; v <~ lift (pushvalue c (n_value nd));; lret (Some v) | None => lret None end) : sdlua (option lua_value) in
    (∃ lv v, (key_lua k, lv) ∈ es ∧ v ≠ VNil ∧ rep n X v lv ∧ r = lret (Some (shown v lv))) ∨ ((∀ lv, (key_lua k, lv) ∉ es) ∧ (r = lret None ∨ r = lret (Some LNil)))).
  { intros Ha. cbn zeta. destruct (lookup_key_spec t k Hok) as [(i & nd & -> & Hi & Hnd)|[-> Hns]]; rewrite lift_Ok, lbind_Ok.
    - rewrite (arr_get_Ok _ _ nd) by (rewrite ?Nat2Z.id; lia || done). rewrite lift_Ok, lbind_Ok.
      assert (Hg : t_get X t k (n_value nd)) by (unfold t_get; rewrite Ha; by exists i, nd). destruct (Hget _ Hg) as [Hv|(lv & Hlv & Hn & Hr)].
      + right. split; [|right; by rewrite Hv]. apply Hmiss. intros v Hv'. destruct (Hget v Hv') as [|(lv & Hlv & Hn & _)]; [done|].
        destruct (Hin k lv Hlv) as (w & Hw & Hwn & _). unfold t_get in Hw. rewrite Ha in Hw. destruct Hw as (i' & nd' & Hi' & Hk' & <-). destruct Hok as (Hd & _).
        assert (i = i') as -> by (by eapply Hd). congruence.
      + left. exists lv, (n_value nd). split_and!; try done. by rewrite (pushvalue_rep n _ lv Hr).
    - right. split; [|by left]. apply Hmiss. intros v Hv. unfold t_get in Hv. rewrite Ha in Hv. destruct Hv as (i & nd & Hi & Hnd & _). destruct Hns. by exists i, nd. }
  destruct k as [z|s]; cbn [key_lua]; [|by apply Hhash]. rewrite s32_small by exact Hk. destruct ((0 <? z) && (z <=? sizearray t)) eqn:Ha; [|by apply Hhash].
  assert (Hz : (Z.to_nat (z - 1) < length (t_array t))%nat) by (unfold sizearray in Ha; lia). destruct (lookup_lt_is_Some_2 _ _ Hz) as [v Hv].
  rewrite (arr_get_Ok _ _ v) by (lia || done). rewrite lift_Ok, lbind_Ok. assert (Hg : t_get X t (KInt z) v) by (unfold t_get; cbn [array_key]; by rewrite Ha).
  destruct (Hget v Hg) as [->|(lv & Hlv & Hn & Hr)].
  - right. split; [|by right]. apply Hmiss. intros v' Hv'. unfold t_get in Hv'. cbn [array_key] in Hv'. rewrite Ha in Hv'. congruence.
  - left. exists lv, v. split_and!; try done. by rewrite (pushvalue_rep n v lv Hr).
Qed.

(** ** Paths *)

(** the value at a path of the Lua table; what is not a table ends the path, as in [find_node] *)
Fixpoint lua_find (v : lua_value) (keys : list skey) : lua_value :=
  match keys with
  | [] => v
  | k :: keys =>
      match v with
      | LTable es _ => match find (λ p, key_eqb p.1 (key_lua k)) es with Some p => lua_find p.2 keys | None => LNil end
      | _ => v
      end
  end.

(** [w] is the value [v], or the address of a table that is [v] *)
Definition same_or_table (n : nat) (w v : lua_value) : Prop :=
  match v with LTable es _ => ∃ p m, w = LUserdata p ∧ (m <= n)%nat ∧ rep m X (VTable p) v | _ => w = v end.

Lemma key_eqb_lua kl k : key_ok kl → key_eqb kl (key_lua k) = true ↔ kl = key_lua k.
Proof.
  intros (k' & -> & _)%key_ok_inv. destruct k' as [z'|s'], k as [z|s]; cbn; try done.
  - rewrite Z.eqb_eq. split; congruence.
  - rewrite bool_decide_eq_true. split; congruence.
Qed.

Lemma find_entry es k lv : wf_entries es → (key_lua k, lv) ∈ es → ∃ p, find (λ p, key_eqb p.1 (key_lua k)) es = Some p ∧ p.2 = lv.
Proof.
  intros [Hnd Hwf] Hin. destruct (find _ es) as [[kl lv']|] eqn:E.
  - apply find_some in E as [Hin' Hk]. cbn in Hk. apply list_elem_of_In in Hin'. destruct (Hwf _ _ Hin') as [Hok _]. apply (key_eqb_lua kl k Hok) in Hk as ->.
    exists (key_lua k, lv'). split; [done|]. by eapply entry_unique.
  - apply list_elem_of_In in Hin. pose proof (find_none _ _ E _ Hin) as H. cbn in H. assert (key_ok (key_lua k)) as Hok by (eapply Hwf; by apply list_elem_of_In).
    by rewrite (proj2 (key_eqb_lua (key_lua k) k Hok)) in H.
Qed.
Lemma find_no_entry es k : wf_entries es → (∀ lv, (key_lua k, lv) ∉ es) → find (λ p, key_eqb p.1 (key_lua k)) es = None.
Proof.
  intros [Hnd Hwf] Hno. destruct (find _ es) as [[kl lv']|] eqn:E; [|done]. apply find_some in E as [Hin' Hk]. cbn in Hk. apply list_elem_of_In in Hin'.
  destruct (Hwf _ _ Hin') as [Hok _]. apply (key_eqb_lua kl k Hok) in Hk as ->. by destruct (Hno lv').
Qed.

Lemma scalar_or_table n v lv keys : rep n X v lv →
  (shown v lv = lv ∧ lua_find lv keys = lv ∧ match lv with LTable _ _ | LUserdata _ => False | _ => True end) ∨ ∃ es m, lv = LTable es m.
Proof.
  destruct lv as [|b|z|bits|s|u|es m|nm]; intros Hr; [..|right; by exists es, m|]; left; destruct n; cbn in Hr; try done.
  all: first [subst v|destruct Hr as (i & -> & _)]; by destruct keys.
Qed.

Lemma find_node_cons p k keys : find_node c p (key_lua k :: keys) =
  (o <~ lindexconf c p (key_lua k);; match o with Some (LUserdata p) => find_node c p keys | Some v => lret v | None => lret LNil end).
Proof. by destruct k. Qed.

Lemma find_node_spec n p es m keys : rep n X (VTable p) (LTable es m) → wf_entries es → Forall query_ok keys →
  ∃ w, find_node c p (map key_lua keys) = lret w ∧ same_or_table n w (lua_find (LTable es m) keys).
Proof.
  revert n p es m. induction keys as [|k keys IH]; intros n p es m Hrep Hwf Hkeys; cbn [map]; [|rewrite find_node_cons].
  { exists (LUserdata p). split; [done|]. by exists p, n. }
  apply Forall_cons in Hkeys as [Hk Hkeys]. destruct n as [|n]; [destruct Hrep|]. cbn [lua_find].
  destruct (lindexconf_spec n p es k Hrep Hk) as [(lv & v & Hin & Hn & Hr & ->)|[Hno Hi]].
  - rewrite lbind_lret. destruct (find_entry es k lv Hwf Hin) as (q & -> & ->). destruct (proj2 Hwf _ _ Hin) as (_ & Hnil & Hwv).
    destruct (scalar_or_table n v lv keys Hr) as [(Hs & Hf & Hsc)|(es' & m' & ->)].
    { rewrite Hs, Hf. exists lv. by destruct lv. }
    destruct n as [|n]; [destruct Hr|]. pose proof Hr as (q' & t & -> & _). cbn [shown]. apply wf_table in Hwv.
    destruct (IH (S n) q' es' m' Hr Hwv Hkeys) as (w & E & Hw). exists w. split; [done|]. unfold same_or_table in *. destruct (lua_find _ keys); try done.
    destruct Hw as (p0 & m0 & -> & Hm0 & Hr0). exists p0, m0. split_and!; [done|lia|done].
  - rewrite (find_no_entry es k Hwf Hno). destruct Hi as [-> | ->]; rewrite lbind_lret; by exists LNil.
Qed.
End reading.
