(* ===== verification/ShareCopy.v ===== *)
(** * Shared configuration tables: the keys, and copies

    [lnextkey] enumerates the keys of a table, each once, so that the copy that [clone_table]
    makes of a converted table is the Lua table again. *)
From S2P Require Import Prelude LuaCall Seri ShareData ShareHash ShareChain ShareProof ShareRead.
Open Scope list_scope.
Open Scope Z_scope.

(** the calls of [lnextkey] from [key] on give [rest] *)
Fixpoint enumerates (c : conf) (p : Z) (key : lua_value) (rest : list lua_value) : Prop :=
  match rest with
  | [] => lnextkey c p key = lret None
  | k :: rest => lnextkey c p key = lret (Some k) ∧ enumerates c p k rest
  end.

(** the keys of an array that starts at index [i] *)
Fixpoint cells_from (arr : list value) (i : Z) : list lua_value :=
  match arr with
  | [] => []
  | v :: arr => if is_nil v then cells_from arr (i + 1) else LInt (i + 1) :: cells_from arr (i + 1)
  end.

Lemma cells_in arr i kl : kl ∈ cells_from arr i ↔ ∃ j v, arr !! j = Some v ∧ v ≠ VNil ∧ kl = LInt (i + Z.of_nat j + 1).
Proof.
  revert i. induction arr as [|v arr IH]; intros i; cbn [cells_from].
  { split; [by intros ?%elem_of_nil|by intros (j & v & ? & _)]. }
  assert (H : kl ∈ (if is_nil v then cells_from arr (i + 1) else LInt (i + 1) :: cells_from arr (i + 1)) ↔ v ≠ VNil ∧ kl = LInt (i + 1) ∨ kl ∈ cells_from arr (i + 1)).
  { destruct (is_nil v) eqn:E; [destruct v; try done; naive_solver|]. apply not_nil in E. rewrite elem_of_cons. naive_solver. }
  rewrite H, IH. split.
  - intros [[Hv ->]|(j & w & Hj & Hw & ->)]; [exists 0%nat, v; split_and!; [done|done|f_equal; lia]|exists (S j), w; split_and!; [done|done|f_equal; lia]].
  - intros ([|j] & w & Hj & Hw & ->); cbn in Hj; [left; injection Hj as <-; split; [done|f_equal; lia]|right; exists j, w; split_and!; [done|done|f_equal; lia]].
Qed.

Lemma cells_nodup arr i : NoDup (cells_from arr i).
Proof.
  revert i. induction arr as [|v arr IH]; intros i; cbn [cells_from]; [constructor|]. destruct (is_nil v); [done|]. apply NoDup_cons. split; [|done].
  intros (j & w & _ & _ & [= H])%cells_in. lia.
Qed.

Lemma cells_length arr i : (length (cells_from arr i) <= length arr)%nat.
Proof. revert i. induction arr as [|v arr IH]; intros i; cbn; [done|]. specialize (IH (i + 1)). destruct (is_nil v); cbn; lia. Qed.

Section enumeration.
Context (X : context) (HX : ctx_ok X) (c : conf).
Context (Hstack : ∀ i s, cf_stack c !! i = Some s ↔ x_strings X !! s = Some i) (Htables : cf_tables c = x_tables X).
Context (p : Z) (t : table) (Ht : x_tables X !! p = Some t) (Hok : hash_ok X (t_hash t)) (Hno : no_array_keys X t).
Context (ks : list skey) (Hks : Forall2 (λ nd k, node_for X k nd) (t_hash t) ks) (Hq : Forall query_ok ks).

Lemma pushkey_spec nd k : node_for X k nd → pushkey c nd = Ok (key_lua k).
Proof.
  intros (nk & E & Hraw & Hty & _). unfold pushkey, get_key. rewrite E. cbn [rbind]. rewrite Hty. destruct k as [z|s]; cbn in *; [by rewrite Hraw|].
  unfold stack_string. by rewrite (proj2 (Hstack _ _) Hraw).
Qed.

Lemma slot_key i nd : t_hash t !! i = Some nd → ∃ k, ks !! i = Some k ∧ node_for X k nd.
Proof. intros Hi. destruct (Forall2_lookup_l _ _ _ _ _ Hks Hi) as (k & ? & ?). by exists k. Qed.
Lemma keys_length : length ks = length (t_hash t).
Proof. symmetry. by eapply Forall2_length. Qed.

(** after the key of slot [i] comes the one of slot [i + 1] *)
Lemma next_of_slot i k : ks !! i = Some k → lnextkey c p (key_lua k) = lret (key_lua <$> ks !! S i).
Proof.
  intros Hi. destruct (Forall2_lookup_r _ _ _ _ _ Hks Hi) as (nd & Hnd & Hk). pose proof (proj1 (Forall_lookup _ _) Hq i k Hi) as Hqk.
  destruct (Hno i nd k Hnd Hk) as [Ha _]. unfold lnextkey. rewrite (get_table_ok X HX c Htables p t Ht), lbind_lret.
  assert (H : (o <~ lift (lookup_key c t (hash_of k) (query_key k) (type_of k) (query_str k));;
      match o with
      | Some i => if i + 1 =? sizehash t then lret None else nd <~ lift (arr_get (t_hash t) (i + 1));; k <~ lift (pushkey c nd);; lret (Some k)
      | None => lret None
      end : sdlua (option lua_value)) = lret (key_lua <$> ks !! S i)).
  { destruct (lookup_key_spec X HX c Hstack t k Hok) as [(i' & nd' & -> & Hi' & Hk')|[_ Hns]]; [|destruct Hns; by exists i, nd].
    rewrite lift_Ok, lbind_Ok. assert (i' = i) as -> by (destruct Hok as (Hd & _); by eapply Hd). unfold sizehash.
    destruct (Z.eqb_spec (Z.of_nat i + 1) (Z.of_nat (length (t_hash t)))) as [E|E].
    - rewrite (proj2 (lookup_ge_None ks (S i))); [done|]. rewrite keys_length. lia.
    - apply lookup_lt_Some in Hi'. destruct (lookup_lt_is_Some_2 (t_hash t) (S i) ltac:(lia)) as [nd2 Hnd2].
      rewrite (arr_get_Ok _ _ nd2) by (try lia; replace (Z.to_nat (Z.of_nat i + 1)) with (S i) by lia; done). rewrite lift_Ok, lbind_Ok.
      destruct (slot_key (S i) nd2 Hnd2) as (k2 & -> & Hk2). rewrite (pushkey_spec nd2 k2 Hk2), lift_Ok, lbind_Ok. done. }
  destruct k as [z|s]; cbn [key_lua]; [|exact H]. rewrite s32_small by exact Hqk. unfold array_key in Ha. rewrite Ha. exact H.
Qed.

Lemma hash_enumerates i k : ks !! i = Some k → enumerates c p (key_lua k) (map key_lua (drop (S i) ks)).
Proof.
  intros Hi. remember (length ks - i)%nat as m eqn:Hm. revert i k Hi Hm. induction m as [|m IH]; intros i k Hi Hm; [apply lookup_lt_Some in Hi; lia|].
  pose proof (next_of_slot i k Hi) as Hnext. destruct (ks !! S i) as [k'|] eqn:E.
  - rewrite (drop_S _ k') by done. cbn [map enumerates]. split; [done|]. apply (IH (S i)); [done|lia].
  - apply lookup_ge_None in E. rewrite drop_ge by done. done.
Qed.

Lemma first_hash : pushfirsthash c t = Ok (key_lua <$> head ks).
Proof.
  unfold pushfirsthash, sizehash. destruct (t_hash t) as [|nd hash] eqn:E.
  - inversion Hks; subst. done.
  - cbn [negb]. rewrite (proj2 (Z.eqb_neq _ 0)) by (cbn [length]; lia). cbn [negb].
    rewrite (arr_get_Ok _ _ nd) by done. cbn [rbind]. inversion Hks as [|x y l l' Hnd Hr]; subst. by rewrite (pushkey_spec nd y Hnd).
Qed.

(** [next_array] from index [i] on *)
Lemma next_array_spec i : (i <= length (t_array t))%nat →
  next_array c t (Z.of_nat i) = Ok (head (cells_from (drop i (t_array t)) (Z.of_nat i) ++ map key_lua ks)).
Proof.
  intros Hi. unfold next_array, sizearray. replace (Z.to_nat (Z.of_nat (length (t_array t)) - Z.of_nat i)) with (length (t_array t) - i)%nat by lia.
  remember (length (t_array t) - i)%nat as m eqn:Hm. revert i Hi Hm. induction m as [|m IH]; intros i Hi Hm; cbn [next_in_array].
  - rewrite drop_ge by lia. cbn. rewrite first_hash. by destruct ks.
  - destruct (lookup_lt_is_Some_2 (t_array t) i ltac:(lia)) as [v Hv]. rewrite (arr_get_Ok _ _ v) by (rewrite ?Nat2Z.id; lia || done). cbn [rbind].
    rewrite (drop_S _ v) by done. cbn [cells_from]. destruct (is_nil v); [|done].
    replace (Z.of_nat i + 1) with (Z.of_nat (S i)) by lia. apply IH; lia.
Qed.

Definition keys_from (i : nat) : list lua_value := cells_from (drop i (t_array t)) (Z.of_nat i) ++ map key_lua ks.

Lemma next_from i : (i <= length (t_array t))%nat → Z.of_nat (length (t_array t)) <= INT_MAX →
  lnextkey c p (if decide (i = 0%nat) then LNil else LInt (Z.of_nat i)) = lret (head (keys_from i)).
Proof.
  intros Hi Hmax. unfold lnextkey. rewrite (get_table_ok X HX c Htables p t Ht), lbind_lret. case_decide as E.
  - subst i. change 0 with (Z.of_nat 0). by rewrite (next_array_spec 0 Hi).
  - rewrite s32_small by (unfold INT_MAX in Hmax; lia). unfold sizearray. rewrite (proj2 (Z.ltb_lt _ _)), (proj2 (Z.leb_le _ _)) by lia.
    cbn [andb]. by rewrite (next_array_spec i Hi).
Qed.

Lemma array_enumerates i key : (i <= length (t_array t))%nat → Z.of_nat (length (t_array t)) <= INT_MAX →
  lnextkey c p key = lret (head (keys_from i)) → enumerates c p key (keys_from i).
Proof.
  intros Hi Hmax. remember (length (t_array t) - i)%nat as m eqn:Hm. revert i key Hi Hm. induction m as [|m IH]; intros i key Hi Hm Hnext.
  - pose proof (hash_enumerates 0) as H. unfold keys_from in *. rewrite drop_ge in * by lia. cbn [cells_from app] in *. destruct ks as [|k ks']; [done|].
    cbn [map enumerates] in *. split; [done|]. by apply (H k).
  - destruct (lookup_lt_is_Some_2 (t_array t) i ltac:(lia)) as [v Hv].
    assert (Hstep : keys_from i = if is_nil v then keys_from (S i) else LInt (Z.of_nat (S i)) :: keys_from (S i)).
    { unfold keys_from. rewrite (drop_S _ v) by done. cbn [cells_from]. replace (Z.of_nat i + 1) with (Z.of_nat (S i)) by lia. by destruct (is_nil v). }
    rewrite Hstep in *. destruct (is_nil v); [apply IH; [lia|lia|done]|]. split; [done|]. apply IH; [lia|lia|].
    pose proof (next_from (S i) ltac:(lia) Hmax) as Hn. by rewrite decide_False in Hn.
Qed.
End enumeration.

(** ** The copy *)

(** the same value, tables up to the order of their entries; [n] bounds the depth *)
Fixpoint same_value (n : nat) (v w : lua_value) : Prop :=
  match v, w with
  | LTable es _, LTable es' _ =>
      match n with
      | O => False
      | S n => es'.*1 ≡ₚ es.*1 ∧ ∀ kl a b, (kl, a) ∈ es → (kl, b) ∈ es' → same_value n a b
      end
  | _, _ => v = w
  end.

Section copy.
Context (X : context) (HX : ctx_ok X) (c : conf).
Context (Hstack : ∀ i s, cf_stack c !! i = Some s ↔ x_strings X !! s = Some i) (Htables : cf_tables c = x_tables X).

(** every key of the table comes once *)
Lemma conf_keys n p es t : rep (S n) X (VTable p) (LTable es None) → wf_entries es → cf_tables c !! p = Some t →
  ∃ keys, enumerates c p LNil keys ∧ keys ≡ₚ es.*1 ∧ (length keys <= length (t_array t) + length (t_hash t))%nat.
Proof.
  intros (p' & t' & [= <-] & Ht & Hok & Hno & Hin & Hout) [Hnd Hwf] Hct. rewrite Htables, Ht in Hct. injection Hct as ->.
  pose proof Hok as (Hd & Hf & _). destruct (slot_keys X (t_hash t) Hd Hf) as (ks & Hks & Hnk & Hst).
  assert (Hent : ∀ k v, t_get X t k v → v ≠ VNil → ∃ lv, (key_lua k, lv) ∈ es) by (intros k v Hv Hn; by destruct (Hout k v Hv)).
  assert (Hkey : ∀ k, k ∈ ks → array_key (sizearray t) k = false ∧ ∃ lv, (key_lua k, lv) ∈ es).
  { intros k Hk. destruct (Hst k Hk) as (i & nd & Hi & Hnf). destruct (Hno i nd k Hi Hnf) as [Ha Hv]. split; [done|]. eapply Hent; [|done]. unfold t_get. rewrite Ha. by exists i, nd. }
  assert (Hcell : ∀ j v, t_array t !! j = Some v → array_key (sizearray t) (KInt (0 + Z.of_nat j + 1)) = true ∧ t_get X t (KInt (0 + Z.of_nat j + 1)) v).
  { intros j v Hj. assert (Ha : array_key (sizearray t) (KInt (0 + Z.of_nat j + 1)) = true) by (cbn; unfold sizearray; apply lookup_lt_Some in Hj; lia).
    split; [done|]. unfold t_get. rewrite Ha. by replace (Z.to_nat (0 + Z.of_nat j + 1 - 1)) with j by lia. }
  assert (Hq : Forall query_ok ks).
  { apply Forall_forall. intros k Hk. destruct (Hkey k Hk) as (_ & lv & Hlv). destruct (Hwf _ _ Hlv) as [Hkok _]. by destruct k. }
  exists (keys_from t ks 0). split_and!.
  - apply (array_enumerates X HX c Hstack Htables p t Ht Hok Hno ks Hks Hq 0); [lia|by apply (x_small X HX p)|].
    eapply (next_from X) with (i := 0%nat); try done; [lia|by apply (x_small X HX p)].
  - unfold keys_from. rewrite drop_0. change (Z.of_nat 0) with 0. apply NoDup_Permutation; [|done|].
    + apply NoDup_app. split_and!; [apply cells_nodup| |apply (NoDup_fmap_2_strong key_lua); [intros; by apply key_lua_inj|done]].
      intros kl (j & v & Hj & Hv & ->)%cells_in ([z|] & [= E] & Hk)%list_elem_of_fmap. destruct (Hcell j v Hj) as [Ha _]. destruct (Hkey _ Hk) as [Ha' _]. rewrite <- E in Ha'. congruence.
    + intros kl. rewrite elem_of_app, cells_in, list_elem_of_fmap, list_elem_of_fmap. split.
      * intros [(j & v & Hj & Hv & ->)|(k & -> & Hk)].
        -- destruct (Hcell j v Hj) as [_ Hg]. destruct (Hent _ v Hg Hv) as [lv Hlv]. by exists (LInt (0 + Z.of_nat j + 1), lv).
        -- destruct (Hkey k Hk) as (_ & lv & Hlv). by exists (key_lua k, lv).
      * intros ([kl' lv] & -> & Hlv). destruct (Hwf _ _ Hlv) as [Hkok _]. destruct (key_ok_inv _ Hkok) as (k & -> & _). cbn [fst].
        destruct (Hin k lv Hlv) as (v & Hg & Hv & _). unfold t_get in Hg. destruct (array_key (sizearray t) k) eqn:Ha.
        -- left. destruct k as [z|]; [|done]. exists (Z.to_nat (z - 1)), v. split_and!; [done|done|]. cbn in Ha |- *. f_equal. lia.
        -- right. exists k. split; [done|]. destruct Hg as (i & nd & Hi & Hnf & _). destruct (Forall2_lookup_l _ _ _ _ _ Hks Hi) as (k' & Hk' & Hnf').
           assert (k = k') as -> by (by apply (node_for_back X X HX ltac:(done) k' k nd)). by eapply list_elem_of_lookup_2.
  - unfold keys_from. rewrite length_app, length_map, <- (Forall2_length _ _ _ Hks), drop_0. pose proof (cells_length (t_array t) (Z.of_nat 0)). lia.
Qed.

(** [clone_loop] stores the values of the keys that are left *)
Lemma clone_loop_spec n p es clone : rep (S n) X (VTable p) (LTable es None) → wf_entries es →
  (∀ q es' m, rep n X (VTable q) (LTable es' m) → wf_entries es' → ∃ w, clone q = lret w ∧ w ≠ LNil ∧ same_value n (LTable es' m) w) →
  ∀ rest fuel key obj, enumerates c p key rest → (∀ kl, kl ∈ rest → kl ∈ es.*1) → NoDup (obj.*1 ++ rest) → (∀ kl, kl ∈ obj.*1 → key_ok kl) → (length rest < fuel)%nat →
  ∃ es', clone_loop clone fuel c p key obj = lret (obj ++ es') ∧ es'.*1 = rest ∧ ∀ kl a b, (kl, a) ∈ es → (kl, b) ∈ es' → same_value n a b.
Proof.
  intros Hrep Hwf Hclone. induction rest as [|kl rest IH]; intros fuel key obj He Hin Hnd Hobj Hf; (destruct fuel as [|fuel]; [cbn in Hf; lia|]); cbn [clone_loop].
  { cbn in He. rewrite He, lbind_lret. exists []. rewrite app_nil_r. split_and!; try done. by intros kl a b _ ?%elem_of_nil. }
  destruct He as [Hnext He]. rewrite Hnext, lbind_lret. destruct (proj1 (list_elem_of_fmap _ _ _) (Hin kl ltac:(by left))) as ([kl' lv] & -> & Hlv). cbn [fst] in *.
  destruct (proj2 Hwf _ _ Hlv) as (Hkok & Hnil & Hwv). destruct (key_ok_inv _ Hkok) as (k & -> & _).
  assert (Hqk : query_ok k) by (by destruct k).
  destruct (lindexconf_spec X HX c Hstack Htables n p es k Hrep Hqk) as [(lv' & v & Hlv' & Hvn & Hr & ->)|[Hno _]]; [|by destruct (Hno lv)].
  rewrite lbind_lret. assert (lv' = lv) as -> by (eapply entry_unique; [apply Hwf|done|done]).
  assert (Hval : ∃ w, (match Some (shown v lv) with Some (LUserdata p) => clone p | Some v => lret v | None => lret LNil end) = lret w ∧ w ≠ LNil ∧ same_value n lv w).
  { destruct (scalar_or_table X n v lv [] Hr) as [(Hs & _ & Hsc)|(es' & m' & ->)].
    - rewrite Hs. exists lv. destruct lv; try done; by destruct n.
    - destruct n as [|n']; [destruct Hr|]. pose proof Hr as (q & t & -> & _). cbn [shown]. apply Hclone; [done|by eapply wf_table]. }
  destruct Hval as (w & -> & Hwn & Hsame). rewrite lbind_lret.
  assert (Hset : table_set obj (key_lua k) w = obj ++ [(key_lua k, w)]).
  { unfold table_set. rewrite filter_all; [by destruct w|]. intros [kl b] Hb. cbn [fst]. destruct (key_eqb kl (key_lua k)) eqn:E; [|done].
    assert (Hkl : kl ∈ obj.*1) by (apply list_elem_of_fmap; by exists (kl, b)). apply (key_eqb_lua kl k (Hobj kl Hkl)) in E as ->.
    apply NoDup_app in Hnd as (_ & Hd & _). destruct (Hd _ Hkl). by left. }
  rewrite Hset. destruct (IH fuel (key_lua k) (obj ++ [(key_lua k, w)])) as (es' & E & Hk' & Hall); [done|intros; apply Hin; by right| | |cbn in Hf; lia|].
  { rewrite fmap_app. cbn. by rewrite <- app_assoc. }
  { intros kl. rewrite fmap_app, elem_of_app. intros [?|Hkl]; [by apply Hobj|]. apply list_elem_of_singleton in Hkl as ->. done. }
  exists ((key_lua k, w) :: es'). rewrite E, <- app_assoc. split; [done|]. split; [cbn; by rewrite Hk'|].
  intros kl a b Ha [[= -> ->]|Hb]%elem_of_cons; [|by eapply Hall]. by rewrite (entry_unique es (key_lua k) a lv (proj1 Hwf) Ha Hlv).
Qed.

Lemma clone_table_spec n p es m : rep n X (VTable p) (LTable es m) → wf_entries es →
  ∃ w, clone_table n c p = lret w ∧ w ≠ LNil ∧ same_value n (LTable es m) w.
Proof.
  revert p es m. induction n as [|n IH]; intros p es m Hrep Hwf; [destruct Hrep|]. pose proof Hrep as (p' & t & [= <-] & Ht & _).
  assert (Hct : cf_tables c !! p = Some t) by (by rewrite Htables). cbn [clone_table]. rewrite (get_table_ok X HX c Htables p t Ht), lbind_lret.
  destruct (conf_keys n p es t Hrep Hwf Hct) as (keys & He & Hperm & Hlen).
  destruct (clone_loop_spec n p es (clone_table n c) Hrep Hwf IH keys (S (length (t_array t) + length (t_hash t))) LNil [] He) as (es' & E & Hk & Hall); try done.
  - intros kl. by rewrite Hperm.
  - cbn. rewrite Hperm. apply Hwf.
  - by intros kl ?%elem_of_nil.
  - lia.
  - rewrite E, lbind_lret. exists (LTable es' None). split; [done|]. split; [done|]. cbn. by rewrite Hk.
Qed.
End copy.
