(* ===== verification/ShareDelete.v ===== *)
(** * Shared configuration tables: deletion

    The tables that a conversion allocates form a tree: every one of them is in one cell or
    slot of one other table. So [delete_tbl] frees each of them once, and none is left. *)
From S2P Require Import Prelude LuaCall Seri ShareData ShareHash.
Open Scope list_scope.
Open Scope Z_scope.

(** the values of a table, in the order in which [delete_tbl] visits them *)
Definition values (t : table) : list value := t_array t ++ map n_value (t_hash t).

(** the tables below the values of a list: each occurs once, they are the set [D] *)
Inductive owned (T : gmap Z table) : list value → gset Z → Prop :=
  | owned_nil : owned T [] ∅
  | owned_skip v vs D : (∀ p, v ≠ VTable p) → owned T vs D → owned T (v :: vs) D
  | owned_tree p t vs D1 D2 : T !! p = Some t → owned T (values t) D1 → owned T vs D2 →
      p ∉ D1 → p ∉ D2 → D1 ## D2 → owned T (VTable p :: vs) ({[p]} ∪ D1 ∪ D2).

Lemma owned_eq T vs D D' : owned T vs D → D = D' → owned T vs D'.
Proof. by intros ? <-. Qed.

Lemma owned_mono T T' vs D : owned T vs D → (∀ q t, q ∈ D → T !! q = Some t → T' !! q = Some t) → owned T' vs D.
Proof.
  induction 1 as [|v vs D Hv H IH|p t vs D1 D2 Hp H1 IH1 H2 IH2 Hd1 Hd2 Hd]; intros Hsub; [constructor|constructor; auto|].
  eapply owned_tree; [apply Hsub; [set_solver|done]|apply IH1; intros; apply Hsub; [set_solver|done]|apply IH2; intros; apply Hsub; [set_solver|done]|done..].
Qed.

Lemma owned_none T vs : (∀ p, VTable p ∉ vs) → owned T vs ∅.
Proof.
  induction vs as [|v vs IH]; intros Hno; [constructor|]. constructor; [|apply IH; intros p Hp; by apply (Hno p); right].
  intros p ->. apply (Hno p). by left.
Qed.

(** a value takes the place of nil *)
Lemma owned_insert T vs i v D D' : owned T vs D → vs !! i = Some VNil → owned T [v] D' → D ## D' → owned T (<[i := v]> vs) (D ∪ D').
Proof.
  intros H. revert i. induction H as [|w vs D Hw H IH|p t vs D1 D2 Hp H1 _ H2 IH Hd1 Hd2 Hd]; intros i Hi Hv Hdd; [done|destruct i as [|i]; cbn in *..].
  - injection Hi as ->. inversion Hv as [|? ? ? Hnv Hnil|q t' ? E1 E2 Hq Ht' Hnil Hq1 Hq2 Hqd]; subst.
    + inversion Hnil; subst. rewrite (right_id_L ∅ (∪)). by constructor.
    + inversion Hnil; subst. eapply owned_eq; [eapply owned_tree; [done|done|exact H|done|set_solver|set_solver]|set_solver].
  - constructor; [done|]. by apply IH.
  - done.
  - eapply owned_eq; [eapply owned_tree; [done|done|apply IH; [done|done|set_solver]|done|set_solver|set_solver]|set_solver].
Qed.

(** ** Allocation *)

Definition fresh (X : context) : Prop := ∀ q t, x_tables X !! q = Some t → q < x_next X.

(** nothing is lost, and the new tables have new addresses *)
Record moved (X X' : context) : Prop := {
  m_next : x_next X <= x_next X';
  m_keep q t : x_tables X !! q = Some t → x_tables X' !! q = Some t;
  m_new q t : x_tables X' !! q = Some t → x_tables X !! q = Some t ∨ x_next X <= q < x_next X'
}.
#[export] Instance moved_preorder : PreOrder moved.
Proof.
  split; [intros X; split; auto; lia|]. intros X Y Z [n1 k1 w1] [n2 k2 w2]. split; [lia|auto|].
  intros q t Hq. destruct (w2 q t Hq) as [H|H]; [destruct (w1 q t H); [by left|right; lia]|right; lia].
Qed.
Lemma moved_fresh X X' : fresh X → moved X X' → fresh X'.
Proof. intros Hf [n k w] q t Hq. destruct (w q t Hq) as [H|H]; [specialize (Hf q t H); lia|lia]. Qed.

Lemma stringindex_moved X s X' i : stringindex X s = (X', i) → moved X X' ∧ x_tables X' = x_tables X.
Proof. unfold stringindex. destruct (_ !! _); intros [= <- <-]; (split; [|done]); split; cbn; auto; lia. Qed.
Lemma ishashkey_moved X size kl X' place : ishashkey X size kl = (X', place) → moved X X' ∧ x_tables X' = x_tables X.
Proof. destruct kl; cbn; [..|intros [= <- <-]; done| | | | |]; destruct (stringindex _ _) as [Y i] eqn:E; intros [= <- <-]; by eapply stringindex_moved. Qed.

(** the tables that [X'] has and [X] has not *)
Definition added (X X' : context) : gset Z := dom (x_tables X') ∖ dom (x_tables X).

Lemma added_same X X' : x_tables X' = x_tables X → added X X' = ∅.
Proof. unfold added. intros ->. set_solver. Qed.
Lemma moved_dom X X' : moved X X' → dom (x_tables X) ⊆ dom (x_tables X').
Proof. intros [n k w] q. rewrite !elem_of_dom. intros [t Ht]. exists t. auto. Qed.
Lemma added_split X0 X X' : moved X0 X → moved X X' → added X0 X' = added X0 X ∪ added X X' ∧ added X0 X ## added X X'.
Proof.
  intros H1%moved_dom H2%moved_dom. unfold added. split; [|set_solver]. apply set_eq. intros q. rewrite !elem_of_union, !elem_of_difference.
  destruct (decide (q ∈ dom (x_tables X))); set_solver.
Qed.

(** the values [vs] own what was allocated since [X0] *)
Definition owns (X0 X : context) (vs : list value) : Prop := moved X0 X ∧ owned (x_tables X) vs (added X0 X).

Lemma owns_put X0 X X' vs i v : owns X0 X vs → vs !! i = Some VNil → owns X X' [v] → owns X0 X' (<[i := v]> vs).
Proof.
  intros [Hm Ho] Hi [Hm' Hv]. split; [by etrans|]. destruct (added_split X0 X X' Hm Hm') as [-> Hd].
  apply owned_insert; [|done|done|done]. eapply owned_mono; [done|]. intros q t _. apply (m_keep _ _ Hm').
Qed.
Lemma owns_strings X0 X X' vs : owns X0 X vs → moved X X' → x_tables X' = x_tables X → owns X0 X' vs.
Proof. intros [Hm Ho] Hm' E. split; [by etrans|]. unfold added in *. by rewrite E. Qed.
Lemma owns_start X vs : (∀ p, VTable p ∉ vs) → owns X X vs.
Proof. intros H. split; [done|]. rewrite added_same by done. by apply owned_none. Qed.

Lemma map_insert_value i nd (hash : list node) : map n_value (<[i := nd]> hash) = <[i := n_value nd]> (map n_value hash).
Proof. apply list_fmap_insert. Qed.

Lemma slot_value arr (hash : list node) i nd : hash !! i = Some nd → (arr ++ map n_value hash) !! (length arr + i)%nat = Some (n_value nd).
Proof. intros H. rewrite lookup_app_r by lia. replace (length arr + i - length arr)%nat with i by lia. by rewrite list_lookup_fmap, H. Qed.

(** [conv] gives a tree *)
Definition conv_owns (conv : context → entries → sdlua (context * Z)) : Prop :=
  ∀ X es X' p, fresh X → wf_entries es → conv X es = lret (X', p) → owns X X' [VTable p].

Section passes.
Context (conv : context → entries → sdlua (context * Z)) (Hconv : conv_owns conv).

Lemma setvalue_owns X lv X' v : fresh X → wf_value lv → setvalue conv X lv = lret (X', v) → owns X X' [v].
Proof.
  intros Hf Hwf. assert (Hs : ∀ w, (∀ p, w ≠ VTable p) → owns X X [w]) by (intros w Hw; apply owns_start; intros p Hp%list_elem_of_singleton; by apply (Hw p)).
  destruct lv as [|b|z|bits|s|u|es m|nm]; cbn; try (intros [= <- <-]; by apply Hs); try done.
  - destruct (stringindex X s) as [Y i] eqn:E. intros [= <- <-]. destruct (stringindex_moved _ _ _ _ E) as [Hm Et]. by eapply owns_strings; [apply Hs|..].
  - intros ([Y q] & E & [= <- <-])%lbind_inv. eapply (Hconv X es); [done|by apply (wf_table es m)|done].
Qed.

Lemma setarray_owns X0 X arr rest lv key X' arr' : fresh X0 → owns X0 X (arr ++ rest) → wf_value lv →
  arr !! Z.to_nat (key - 1) = Some VNil → setarray conv X arr lv key = lret (X', arr') →
  owns X0 X' (arr' ++ rest) ∧ length arr' = length arr ∧ ∀ j, j ≠ Z.to_nat (key - 1) → arr' !! j = arr !! j.
Proof.
  intros Hf Ho Hwf Hi. unfold setarray. intros ([Y v] & Ev & (arr2 & Ea%lift_inv & [= <- <-])%lbind_inv)%lbind_inv.
  apply arr_set_inv in Ea as [Hr ->]. pose proof (setvalue_owns X lv Y v (moved_fresh _ _ Hf (proj1 Ho)) Hwf Ev) as Hv.
  split_and!; [|by rewrite length_insert|intros j Hj; by rewrite list_lookup_insert_ne].
  rewrite <- insert_app_l by (by eapply lookup_lt_Some). eapply owns_put; [done| |done]. by apply lookup_app_l_Some.
Qed.

(** the cells of the keys to come are still nil *)
Definition cells_free (es : entries) (arr : list value) : Prop :=
  ∀ z, LInt z ∈ es.*1 → array_key (Z.of_nat (length arr)) (KInt z) = true → arr !! Z.to_nat (z - 1) = Some VNil.

Lemma fillnocolliding_owns X0 es X arr hash X' arr' hash' : fresh X0 → wf_entries es → owns X0 X (arr ++ map n_value hash) → cells_free es arr →
  fillnocolliding conv es X arr hash = lret (X', arr', hash') → owns X0 X' (arr' ++ map n_value hash').
Proof.
  intros Hf. revert X arr hash. induction es as [|[kl lv] es IH]; intros X arr hash [Hnd Hwf] Ho Hfree; cbn [fillnocolliding].
  { intros [= <- <- <-]. done. }
  cbn in Hnd. apply NoDup_cons in Hnd as [Hnew Hnd]. destruct (Hwf kl lv ltac:(by left)) as (Hk & Hnil & Hwv).
  assert (Hwf' : wf_entries es) by (split; [done|intros; apply Hwf; by right]).
  assert (Hfree' : cells_free es arr) by (intros z Hz; apply Hfree; by right).
  destruct (ishashkey X _ kl) as [Y place] eqn:Ek. destruct (ishashkey_moved _ _ _ _ _ Ek) as [Hm Et].
  pose proof (owns_strings _ _ _ _ Ho Hm Et) as HoY. destruct place as [key|key keyhash keytype].
  - assert (kl = LInt key ∧ array_key (Z.of_nat (length arr)) (KInt key) = true) as [-> Ha].
    { destruct kl as [| |z| |s| | |]; cbn in Ek; try done; [|by destruct (stringindex X s)]. rewrite s32_small in Ek by exact Hk.
      destruct ((0 <? z) && (z <=? Z.of_nat (length arr))) eqn:Ha; [|done]. injection Ek as -> ->. done. }
    intros ([Z arr2] & Ea & E)%lbind_inv. destruct (setarray_owns X0 Y arr _ lv key Z arr2 Hf HoY Hwv (Hfree key ltac:(by left) Ha) Ea) as (Ho2 & Hl & Hother).
    eapply IH; [done|exact Ho2| |exact E]. intros z Hz Hza. rewrite Hl in Hza. rewrite Hother; [by apply Hfree'|].
    assert (z ≠ key) by (intros ->; done). cbn in Ha, Hza. lia.
  - intros (nd & Eg%lift_inv & E)%lbind_inv. apply arr_get_inv in Eg as [Hs Hg]. destruct (is_nil (n_value nd)) eqn:En; [|by eapply IH].
    apply lbind_inv in E as ([Z val] & Ev & E). apply lbind_inv in E as (hash2 & Es%lift_inv & E). apply arr_set_inv in Es as [Hr ->].
    eapply IH; [done| |done|exact E]. pose proof (setvalue_owns Y lv Z val (moved_fresh _ _ Hf (proj1 HoY)) Hwv Ev) as Hv.
    rewrite map_insert_value. cbn [n_value]. rewrite <- (insert_app_r arr). eapply owns_put; [exact HoY| |done].
    rewrite (slot_value arr hash _ nd Hg). by destruct (n_value nd).
Qed.

Lemma find_empty_nil fuel hash i j : find_empty fuel hash i = Ok j → 0 <= j ∧ ∃ nd, hash !! Z.to_nat j = Some nd ∧ n_value nd = VNil.
Proof.
  revert i. induction fuel as [|fuel IH]; intros i; cbn [find_empty]; [done|]. destruct (arr_get hash i) as [nd|] eqn:E; cbn [rbind]; [|done].
  destruct (is_nil (n_value nd)) eqn:En; [|apply IH]. intros [= <-]. apply arr_get_inv in E as [Hi Hg]. split; [done|]. exists nd. split; [done|]. by destruct (n_value nd).
Qed.

Lemma fillcolliding_owns X0 arr size es X hash e X' hash' : fresh X0 → wf_entries es → owns X0 X (arr ++ map n_value hash) →
  fillcolliding conv es X size hash e = lret (X', hash') → owns X0 X' (arr ++ map n_value hash').
Proof.
  intros Hf. revert X hash e. induction es as [|[kl lv] es IH]; intros X hash e [Hnd Hwf] Ho; cbn [fillcolliding].
  { intros [= <- <-]. done. }
  cbn in Hnd. apply NoDup_cons in Hnd as [_ Hnd]. destruct (Hwf kl lv ltac:(by left)) as (_ & _ & Hwv).
  assert (Hwf' : wf_entries es) by (split; [done|intros; apply Hwf; by right]).
  destruct (ishashkey X _ kl) as [Y place] eqn:Ek. destruct (ishashkey_moved _ _ _ _ _ Ek) as [Hm Et].
  pose proof (owns_strings _ _ _ _ Ho Hm Et) as HoY. destruct place as [key|key keyhash keytype]; [by eapply IH|].
  intros (nd & Eg%lift_inv & (mk & _ & E)%lbind_inv)%lbind_inv. apply arr_get_inv in Eg as [Hs Hg]. destruct (_ && _); [by eapply IH|].
  apply lbind_inv in E as (i & Ei%lift_inv & E). apply lbind_inv in E as ([Z val] & Ev & E). apply lbind_inv in E as (hash1 & E1%lift_inv & E). apply lbind_inv in E as (hash2 & E2%lift_inv & E).
  apply arr_set_inv in E1 as [Hr1 ->]. apply arr_set_inv in E2 as [Hr2 ->]. destruct (find_empty_nil _ _ _ _ Ei) as (Hi & nd0 & Hnd0 & Hnil).
  eapply IH; [done| |exact E]. pose proof (setvalue_owns Y lv Z val (moved_fresh _ _ Hf (proj1 HoY)) Hwv Ev) as Hv.
  rewrite !map_insert_value. cbn [n_value]. rewrite (list_insert_id (map n_value hash)) by (by rewrite list_lookup_fmap, Hg).
  rewrite <- (insert_app_r arr). eapply owns_put; [exact HoY| |done]. by rewrite (slot_value arr hash _ nd0 Hnd0), Hnil.
Qed.

Lemma rawgeti_wf_value es i : wf_entries es → wf_value (rawgeti es i).
Proof.
  intros [_ Hwf]. unfold rawgeti. destruct (find _ es) as [[kl lv]|] eqn:E; [|done]. apply find_some in E as [Hin _]. apply list_elem_of_In in Hin.
  by apply (Hwf kl lv).
Qed.

Lemma fill_array_owns X0 m i es X arr X' arr' : fresh X0 → wf_entries es → 1 <= i → owns X0 X arr → i - 1 + Z.of_nat m <= Z.of_nat (length arr) →
  (∀ j, i - 1 <= Z.of_nat j → (j < length arr)%nat → arr !! j = Some VNil) → fill_array conv m i es X arr = lret (X', arr') → owns X0 X' arr'.
Proof.
  intros Hf Hwf. revert i X arr. induction m as [|m IH]; intros i X arr Hi Ho Hl Hnil; cbn [fill_array]; [intros [= <- <-]; done|].
  intros ([Y arr2] & Ea & E)%lbind_inv.
  assert (Hwv : wf_value (rawgeti es i)) by (by apply rawgeti_wf_value).
  destruct (setarray_owns X0 X arr [] (rawgeti es i) i Y arr2 Hf) as (Ho2 & Hl2 & Hother); [by rewrite app_nil_r|done|apply Hnil; lia|done|].
  rewrite app_nil_r in Ho2. eapply IH; [|exact Ho2| | |exact E]; [lia|lia|]. intros j Hj Hjl. rewrite Hother by lia. apply Hnil; lia.
Qed.

Lemma convtable_body_owns rawlen X es X' t : 0 <= rawlen es <= INT_MAX → fresh X → wf_entries es →
  convtable_body rawlen conv X es = lret (X', t) → owns X X' (values t).
Proof.
  intros Hraw Hf Hwf. unfold convtable_body. rewrite s32_small by (unfold INT_MAX in Hraw; lia). intros (n & _ & E)%lbind_inv. destruct (n =? 0).
  - apply lbind_inv in E as ([Y arr] & E & [= <- <-]). unfold values. cbn [t_array t_hash map]. rewrite app_nil_r.
    eapply (fill_array_owns X); [done|done| |apply owns_start| | |exact E]; [lia| |rewrite length_replicate; lia|].
    + by intros p [? _]%elem_of_replicate.
    + intros j _ Hj. rewrite length_replicate in Hj. by apply lookup_replicate_2.
  - apply lbind_inv in E as ([[Y arr] hash] & E1 & E). apply lbind_inv in E as ([Y2 hash2] & E2 & [= <- <-]).
    eapply fillcolliding_owns; [done|done| |exact E2]. eapply fillnocolliding_owns; [done|done|apply owns_start| |exact E1].
    + intros p [[? _]%elem_of_replicate|Hp]%elem_of_app; [done|]. change (VTable p ∈ n_value <$> replicate (Z.to_nat n) empty_node) in Hp. rewrite fmap_replicate in Hp. by apply elem_of_replicate in Hp as [? _].
    + intros z _ Hz. apply lookup_replicate_2. cbn [array_key] in Hz. rewrite length_replicate in Hz. apply andb_prop in Hz as [?%Z.ltb_lt ?%Z.leb_le]. lia.
Qed.
End passes.

Section conversion.
Context (rawlen : entries → Z) (Hrawlen : ∀ es, 0 <= rawlen es <= INT_MAX).

Lemma convtable_owns calls : conv_owns (convtable rawlen calls).
Proof.
  induction calls as [|calls IH]; intros X es X' p Hf Hwf; cbn [convtable]; [done|]. intros ([Y t] & E & [= <- <-])%lbind_inv.
  set (X0 := X <| x_next := x_next X + 1 |>) in *. assert (Hf0 : fresh X0) by (intros q t' Hq; specialize (Hf q t' Hq); cbn; lia).
  destruct (convtable_body_owns _ IH rawlen X0 es Y t (Hrawlen es) Hf0 Hwf E) as [[Hn Hk Hw] Ho]. cbn in Hn.
  assert (Hfresh : x_tables Y !! x_next X = None).
  { destruct (x_tables Y !! x_next X) as [t'|] eqn:Et; [|done]. destruct (Hw _ _ Et) as [H|H]; cbn in H; [specialize (Hf _ _ H)|]; lia. }
  split.
  - split; cbn; [lia| |].
    + intros q t' Hq. specialize (Hf q t' Hq). rewrite lookup_insert_ne by lia. by apply Hk.
    + intros q t'. rewrite lookup_insert_Some. intros [[<- _]|[Hne Hq]]; [right; lia|]. destruct (Hw q t' Hq) as [H|H]; [by left|right; cbn in H; lia].
  - assert (Hp : x_next X ∉ dom (x_tables Y)) by (by apply not_elem_of_dom). assert (HpX : x_next X ∉ dom (x_tables X)).
    { apply not_elem_of_dom. destruct (x_tables X !! x_next X) eqn:Et; [|done]. specialize (Hf _ _ Et). lia. }
    eapply owned_eq; [eapply (owned_tree _ _ t [] (added X0 Y) ∅)|].
    + cbn. apply lookup_insert_eq.
    + eapply owned_mono; [exact Ho|]. intros q t' _ Hq. cbn. rewrite lookup_insert_ne; [done|]. intros <-. congruence.
    + constructor.
    + unfold added. set_solver.
    + set_solver.
    + set_solver.
    + unfold added. cbn. rewrite dom_insert_L. set_solver.
Qed.
End conversion.

(** ** [delete_tbl] *)

Definition without (D : gset Z) (T : gmap Z table) : gmap Z table := filter (λ kt, kt.1 ∉ D) T.

Lemma without_lookup D T q : without D T !! q = if decide (q ∈ D) then None else T !! q.
Proof.
  unfold without. destruct (decide (q ∈ D)) as [H|H].
  - apply map_lookup_filter_None. right. intros t _. cbn. auto.
  - destruct (T !! q) as [t|] eqn:E; [by apply map_lookup_filter_Some|]. apply map_lookup_filter_None. by left.
Qed.

Lemma without_none T : without ∅ T = T.
Proof. apply map_eq. intros q. by rewrite without_lookup, decide_False by set_solver. Qed.

Notation delete_all fuel vs T :=
  (foldl (λ m v, tables <- m;; match v with VTable q => delete_tbl fuel q tables | _ => Ok tables end) (Ok T) vs) (only parsing).

(** one table: its values, then itself *)
Lemma delete_tbl_step fuel p T t D : T !! p = Some t → p ∉ D → delete_all fuel (values t) T = Ok (without D T) →
  delete_tbl (S fuel) p T = Ok (without ({[p]} ∪ D) T).
Proof.
  intros Ht Hp E. cbn [delete_tbl]. rewrite Ht. unfold values in E. rewrite E. cbn [rbind]. rewrite without_lookup, decide_False, Ht by done.
  f_equal. apply map_eq. intros q. rewrite without_lookup. destruct (decide (q = p)) as [->|Hne].
  - by rewrite lookup_delete_eq, decide_True by set_solver.
  - rewrite lookup_delete_ne, without_lookup by done. by destruct (decide (q ∈ D)), (decide (q ∈ {[p]} ∪ D)); set_solver.
Qed.

Lemma delete_values fuel vs T D : owned T vs D → (size D <= fuel)%nat → delete_all fuel vs T = Ok (without D T).
Proof.
  revert vs T D. induction fuel as [fuel IHf] using lt_wf_ind. induction vs as [|v vs IH]; intros T D H Hs.
  { inversion H; subst. cbn. by rewrite without_none. }
  inversion H as [|? ? ? Hv Ho|p t ? D1 D2 Ht H1 H2 Hp1 Hp2 Hd]; subst; cbn [foldl rbind].
  { destruct v as [| | | |p|]; try by apply IH. by destruct (Hv p). }
  assert (Hsz : (1 + size D1 + size D2 <= fuel)%nat).
  { rewrite !size_union, size_singleton in Hs by set_solver. done. }
  destruct fuel as [|fuel]; [lia|]. rewrite (delete_tbl_step fuel p T t D1 Ht Hp1) by (apply IHf; [lia|done|lia]).
  rewrite (IH (without ({[p]} ∪ D1) T) D2); [|eapply owned_mono; [done|]|lia].
  - f_equal. apply map_eq. intros q. rewrite !without_lookup. by destruct (decide (q ∈ D2)), (decide (q ∈ {[p]} ∪ D1)), (decide (q ∈ {[p]} ∪ D1 ∪ D2)); set_solver.
  - intros q t' Hq Hqt. by rewrite without_lookup, decide_False by set_solver.
Qed.

(** ** A converted table is freed as a whole *)

Lemma delete_tree T p : owned T [VTable p] (dom T) → delete_tbl (S (size T)) p T = Ok ∅.
Proof.
  intros H. assert (Hs : (size (dom T) <= S (size T))%nat) by (rewrite size_dom; lia).
  pose proof (delete_values (S (size T)) [VTable p] T (dom T) H Hs) as E. cbn [foldl rbind] in E. rewrite E. f_equal.
  apply map_eq. intros q. rewrite without_lookup, lookup_empty. destruct (decide _) as [|Hq]; [done|]. by apply not_elem_of_dom.
Qed.
