(* ===== verification/ShareClaims.v ===== *)
(** * Shared configuration tables: what the services rely on

    A table that [lnewconf] accepts can be read, copied and deleted; and what the code does
    with the counter of references and with keys that do not fit an [int]. *)
From S2P Require Import Prelude LuaCall Seri ShareData ShareHash ShareChain ShareProof ShareRead ShareCopy ShareDelete.
Open Scope list_scope.
Open Scope Z_scope.

Lemma start_ok : ctx_ok (mkContext ∅ 1 ∅ 1).
Proof. by split. Qed.

Lemma start_fresh : fresh (mkContext ∅ 1 ∅ 1).
Proof. intros q t Hq. cbn [x_tables] in Hq. by rewrite lookup_empty in Hq. Qed.

(** the root of a new shared table *)
Lemma lnewconf_root rawlen calls room v c p : lnewconf rawlen calls room v = lret (c, p) → ∃ t, get_table c p = lret t ∧ cf_ref c = None.
Proof.
  destruct v as [| | | | | |es m|]; try done. intros ([X q] & E & H)%lbind_inv. destruct (room <? _); [done|]. injection H as <- <-.
  destruct calls as [|calls]; [done|]. apply lbind_inv in E as ([Y t] & _ & [= <- <-]). exists t. split; [|done].
  unfold get_table. cbn [x_next cf_tables x_tables]. by rewrite lookup_insert_eq.
Qed.

(** the conversion succeeds if there is room for the strings *)
Lemma lnewconf_spec rawlen calls es m : (∀ es, 0 <= rawlen es <= INT_MAX) → wf_value (LTable es m) → (depth (LTable es m) <= calls)%nat →
  ∃ X c p, ctx_ok X ∧ (∀ i s, cf_stack c !! i = Some s ↔ x_strings X !! s = Some i) ∧ cf_tables c = x_tables X ∧ rep calls X (VTable p) (LTable es m) ∧
    ∀ room, lnewconf rawlen calls room (LTable es m) = if room <? Z.of_nat (size (cf_stack c)) + 4 then luaL_error StackOverflow else lret (c, p).
Proof.
  intros Hraw Hwf%wf_table Hd. destruct (convtable_spec rawlen Hraw calls _ es m start_ok Hwf Hd) as (X & p & E & _ & HX & Hr).
  destruct (stringmap_spec (x_strings X) (x_inj X HX)) as [Hst Hsz]. exists X, (mkConf (x_tables X) (convert_stringmap X) 0 None), p. split_and!; try done.
  intros room. unfold lnewconf. rewrite E, lbind_lret. cbn [cf_stack]. unfold convert_stringmap. rewrite Hsz, (x_count X HX).
  by replace (1 + Z.of_nat (size (x_strings X)) + 3) with (Z.of_nat (size (x_strings X)) + 4) by lia.
Qed.

(** ** A table for the examples: [{ 10, "x", a = { [5] = true }, b = "x", [-7] = "y" }] *)

Definition conf_example : lua_value :=
  LTable [(LInt 1, LInt 10); (LInt 2, LString [120]); (LString [97], LTable [(LInt 5, LBool true)] None); (LString [98], LString [120]); (LInt (-7), LString [121])] None.

(** the first border of a table, one of the values that [lua_rawlen] may give *)
Fixpoint border_from (fuel : nat) (es : entries) (i : Z) : Z :=
  match fuel with
  | O => 0
  | S fuel => match rawgeti es i with LNil => 0 | _ => 1 + border_from fuel es (i + 1) end
  end.
Definition border (es : entries) : Z := Z.min INT_MAX (border_from (length es) es 1).

Lemma border_range es : 0 <= border es <= INT_MAX.
Proof.
  assert (H : ∀ fuel i, 0 <= border_from fuel es i).
  { induction fuel as [|fuel IH]; intros i; cbn [border_from]; [done|]. specialize (IH (i + 1)). destruct (rawgeti es i); lia. }
  unfold border. specialize (H (length es) 1). unfold INT_MAX. lia.
Qed.

Lemma conf_example_wf : wf_value conf_example.
Proof.
  cbn. split_and!; try done; try (unfold is_s32; lia).
  all: repeat (apply NoDup_cons; split; [rewrite ?elem_of_cons, elem_of_nil; by intuition discriminate|]); apply NoDup_nil_2.
Qed.

(** C13: A Lua table with string keys and integer keys that fit an [int], nested no deeper than Lua allows calls, is
    converted whenever the Lua stack has room for its distinct strings; and then every path of keys, present or not,
    leads to the same value in the shared table as in the Lua table, or to a shared table where the Lua table has a
    table. No slot is read before it is set, no chain of a hash table is endless. *)
Theorem sharedata_find rawlen calls es m : (∀ es, 0 <= rawlen es <= INT_MAX) → wf_value (LTable es m) → (depth (LTable es m) <= calls)%nat →
  ∃ c p, (∀ room, lnewconf rawlen calls room (LTable es m) = if room <? Z.of_nat (size (cf_stack c)) + 4 then luaL_error StackOverflow else lret (c, p)) ∧
    ∀ keys, Forall query_ok keys → ∃ w, find_node c p (map key_lua keys) = lret w ∧
      match lua_find (LTable es m) keys with LTable _ _ => ∃ q, w = LUserdata q | v => w = v end.
Proof.
  intros Hraw Hwf Hd. destruct (lnewconf_spec rawlen calls es m Hraw Hwf Hd) as (X & c & p & HX & Hst & Ht & Hr & E). exists c, p. split; [done|].
  intros keys Hk. apply wf_table in Hwf. destruct (find_node_spec X HX c Hst Ht calls p es m keys Hr Hwf Hk) as (w & Ew & Hw). exists w. split; [done|].
  destruct (lua_find _ keys); try done. destruct Hw as (q & _ & -> & _). by exists q.
Qed.
Lemma sharedata_find_witness : ∃ c p, (∀ room, lnewconf border 2 room conf_example = if room <? Z.of_nat (size (cf_stack c)) + 4 then luaL_error StackOverflow else lret (c, p)) ∧
  ∀ keys, Forall query_ok keys → ∃ w, find_node c p (map key_lua keys) = lret w ∧
    match lua_find conf_example keys with LTable _ _ => ∃ q, w = LUserdata q | v => w = v end.
Proof. apply (sharedata_find border 2 _ None border_range conf_example_wf). cbn. lia. Defined.


Definition example_conf : conf * Z := match lnewconf border 2 100 conf_example with Ok (inr r) => r | _ => (mkConf ∅ ∅ 0 None, 0) end.

(** A new shared table has no count of references: [convert_stringmap] sets [dirty] and [root] of its state but
    not [ref]. Whatever table is converted, reading the count, adding to it, taking from it, or putting the table in
    a box reads memory that was never written. *)
Lemma sharedata_ref_uninitialised rawlen calls room v c p : lnewconf rawlen calls room v = lret (c, p) →
  lgetref c p = Err UninitRead ∧ lincref c p = Err UninitRead ∧ ldecref c p = Err UninitRead ∧ lboxconf c p = Err UninitRead.
Proof.
  intros (t & Et & Er)%lnewconf_root. unfold lgetref, lincref, ldecref, lboxconf, ref_add. rewrite Et, !lbind_lret, Er. done.
Qed.

(** ** Keys that do not fit *)

(** an integer key is cut to 32 bits: the first element answers for the key [2^32 + 1] *)
Example sharedata_key_cut : lindexconf example_conf.1 example_conf.2 (LInt (2 ^ 32 + 1)) = lret (Some (LInt 10)).
Proof. vm_compute. reflexivity. Qed.

(** The two passes count a key by its 64 bits and place it by 32: [{ [1] = "a", [2^32 + 1] = "b" }] becomes an array
    with "b" in its cell and a slot that is never filled, which every lookup of a string reads. *)
Example sharedata_key_collision :
  match lnewconf border 2 100 (LTable [(LInt 1, LString [97]); (LInt (2 ^ 32 + 1), LString [98])] None) with
  | Ok (inr (c, p)) => lindexconf c p (LInt 1) = lret (Some (LString [98])) ∧ lindexconf c p (LString [97]) = Err UninitRead
  | _ => False
  end.
Proof. vm_compute. split; reflexivity. Qed.

(** A table is accepted as a key, and stored under the empty string. *)
Example sharedata_table_key :
  match lnewconf border 2 100 (LTable [(LTable [] None, LInt 1)] None) with
  | Ok (inr (c, p)) => lindexconf c p (LString []) = lret (Some (LInt 1))
  | _ => False
  end.
Proof. vm_compute. reflexivity. Qed.
