(* ===== verification/Threads.v ===== *)
(** * The threads of a node (node/node_thread.cpp)

    Workers dispatch messages and sleep on a condition variable when there are none; the
    timer thread wakes one of them at every tick, and when the last service is gone it tells
    everyone to stop; the socket thread wakes a worker when all sleep; the monitor thread
    checks the workers.

    A thread is the place in its function where it goes on. One step is what happens between
    two accesses to what the threads share: the mutex, the condition variable, the number of
    sleeping workers and the flag that ends them. What a call to another component returned
    comes with the step: the queue of [dispatch_message] (Dispatch.v), the result of
    [poll_socket_event] (NodeSocket.v), whether [svc_count] was zero. *)
From S2P Require Import Prelude.
Open Scope list_scope.
Open Scope Z_scope.

Inductive thread_id := Worker (i : nat) | Timer_thread.
#[export] Instance thread_id_eq_dec : EqDecision thread_id.
Proof. solve_decision. Defined.

(** [svc_monitors] are Node.v's; the waiting set of [cond] is the workers at [WWaiting] *)
Record monitor_data := mkMd {
  work_thread_num : Z;
  work_thread_sleep_count : Z;
  is_work_thread_quit : bool;
  md_mutex : option thread_id
}.
#[export] Instance eta_monitor_data : Eta monitor_data := λ r,
  mkMd (work_thread_num r) (work_thread_sleep_count r) (is_work_thread_quit r) (md_mutex r).

(** [thread_worker] *)
Inductive worker_pc :=
  | WTest       (* while (!is_work_thread_quit) *)
  | WDispatch   (* dispatch_message *)
  | WLock       (* unique_lock lock(mutex) *)
  | WCount      (* ++work_thread_sleep_count *)
  | WCheck      (* if (!is_work_thread_quit) cond.wait(lock) *)
  | WWaiting    (* inside cond.wait, the mutex is released *)
  | WRelock     (* notified, before cond.wait has the mutex again *)
  | WUncount    (* --work_thread_sleep_count, and the end of the scope of the lock *)
  | WExited.
#[export] Instance worker_pc_eq_dec : EqDecision worker_pc.
Proof. solve_decision. Defined.

(** [thread_timer] *)
Inductive timer_pc := TUpdate | TNotify | TSleep | TSocketExit | TLock | TSetQuit | TNotifyAll | TUnlock | TExited.
(** [thread_socket] *)
Inductive socket_pc := SPoll | SAbort | SNotify | SExited.
(** [thread_monitor]: the check of monitor [i], the [j]-th second of the interval *)
Inductive monitor_pc := MAbort | MCheck (i : Z) | MSecond (j : Z) | MExited.

Record threads := mkThreads { td : monitor_data; workers : list worker_pc; tpc : timer_pc; spc : socket_pc; mpc : monitor_pc }.
#[export] Instance eta_threads : Eta threads := λ r, mkThreads (td r) (workers r) (tpc r) (spc r) (mpc r).

(** [node_thread::start] with [n] workers, before the threads run *)
Definition threads_start (n : nat) : threads :=
  mkThreads (mkMd (Z.of_nat n) 0 false None) (replicate n WTest) TUpdate SPoll MAbort.

Definition set_worker (s : threads) (i : nat) (pc : worker_pc) : threads := s <| workers := <[i := pc]> (workers s) |>.
Definition set_md (s : threads) (f : monitor_data → monitor_data) : threads := s <| td := f (td s) |>.

(** a lock is taken when it is free; the step is not possible otherwise *)
Definition lock (s : threads) (t : thread_id) : option threads :=
  match md_mutex (td s) with
  | None => Some (set_md s (λ d, d <| md_mutex := Some t |>))
  | Some _ => None
  end.
Definition unlock (s : threads) : threads := set_md s (λ d, d <| md_mutex := None |>).

Definition is_waiting (pc : worker_pc) : bool := match pc with WWaiting => true | _ => false end.

(** [cond.notify_one]: one of the waiting workers, [wake], or none when nobody waits *)
Definition notify_one (s : threads) (wake : nat) : option threads :=
  match workers s !! wake with
  | Some WWaiting => Some (set_worker s wake WRelock)
  | _ => if existsb is_waiting (workers s) then None else Some s
  end.
(** [cond.notify_all] *)
Definition notify_all (s : threads) : threads :=
  s <| workers := map (λ pc, match pc with WWaiting => WRelock | _ => pc end) (workers s) |>.

(** [q_null]: the queue [dispatch_message] returned is [nullptr] *)
Definition worker_step (s : threads) (i : nat) (q_null : bool) : option threads :=
  match workers s !! i with
  | None => None
  | Some pc =>
      match pc with
      | WTest => Some (set_worker s i (if is_work_thread_quit (td s) then WExited else WDispatch))
      | WDispatch => Some (set_worker s i (if q_null then WLock else WTest))
      | WLock => s ← lock s (Worker i); Some (set_worker s i WCount)
      | WCount => Some (set_worker (set_md s (λ d, d <| work_thread_sleep_count := work_thread_sleep_count d + 1 |>)) i WCheck)
      | WCheck => if is_work_thread_quit (td s) then Some (set_worker s i WUncount) else Some (set_worker (unlock s) i WWaiting)
      | WWaiting => None
      | WRelock => s ← lock s (Worker i); Some (set_worker s i WUncount)
      | WUncount =>
          Some (set_worker (unlock (set_md s (λ d, d <| work_thread_sleep_count := work_thread_sleep_count d - 1 |>))) i WTest)
      | WExited => None
      end
  end.

(** [cond.wait] may return without a notification *)
Definition spurious_step (s : threads) (i : nat) : option threads :=
  match workers s !! i with
  | Some WWaiting => Some (set_worker s i WRelock)
  | _ => None
  end.

(** [no_service]: [svc_count() == 0] *)
Definition timer_step (s : threads) (no_service : bool) (wake : nat) : option threads :=
  match tpc s with
  | TUpdate => Some (s <| tpc := if no_service then TSocketExit else TNotify |>)
  | TNotify =>
      s ← (if 1 <=? work_thread_sleep_count (td s) then notify_one s wake else Some s);
      Some (s <| tpc := TSleep |>)
  | TSleep => Some (s <| tpc := TUpdate |>)
  | TSocketExit => Some (s <| tpc := TLock |>)
  | TLock => s ← lock s Timer_thread; Some (s <| tpc := TSetQuit |>)
  | TSetQuit => Some (set_md s (λ d, d <| is_work_thread_quit := true |>) <| tpc := TNotifyAll |>)
  | TNotifyAll => Some (notify_all s <| tpc := TUnlock |>)
  | TUnlock => Some (unlock s <| tpc := TExited |>)
  | TExited => None
  end.

(** [ret]: the result of [poll_socket_event] *)
Definition socket_step (s : threads) (ret : Z) (no_service : bool) (wake : nat) : option threads :=
  match spc s with
  | SPoll => Some (s <| spc := if ret =? 0 then SExited else if ret <? 0 then SAbort else SNotify |>)
  | SAbort => Some (s <| spc := if no_service then SExited else SPoll |>)
  | SNotify =>
      s ← (if work_thread_num (td s) <=? work_thread_sleep_count (td s) then notify_one s wake else Some s);
      Some (s <| spc := SPoll |>)
  | SExited => None
  end.

Definition monitor_step (s : threads) (no_service : bool) : option threads :=
  match mpc s with
  | MAbort => Some (s <| mpc := if no_service then MExited else MCheck 0 |>)
  | MCheck i => Some (s <| mpc := if i <? work_thread_num (td s) then MCheck (i + 1) else MSecond 0 |>)
  | MSecond j => Some (s <| mpc := if (5 <=? j) || no_service then MAbort else MSecond (j + 1) |>)
  | MExited => None
  end.

Inductive action :=
  | AWorker (i : nat) (q_null : bool)
  | ASpurious (i : nat)
  | ATimer (no_service : bool) (wake : nat)
  | ASocket (ret : Z) (no_service : bool) (wake : nat)
  | AMonitor (no_service : bool).

Definition step (s : threads) (a : action) : option threads :=
  match a with
  | AWorker i q_null => worker_step s i q_null
  | ASpurious i => spurious_step s i
  | ATimer no_service wake => timer_step s no_service wake
  | ASocket ret no_service wake => socket_step s ret no_service wake
  | AMonitor no_service => monitor_step s no_service
  end.

Fixpoint run_threads (s : threads) (acts : list action) : option threads :=
  match acts with
  | [] => Some s
  | a :: acts => s ← step s a; run_threads s acts
  end.

(** ** The invariant *)

Definition holds (pc : worker_pc) : bool := match pc with WCount | WCheck | WUncount => true | _ => false end.
Definition counted (pc : worker_pc) : bool := match pc with WCheck | WWaiting | WRelock | WUncount => true | _ => false end.
Definition timer_holds (t : timer_pc) : bool := match t with TSetQuit | TNotifyAll | TUnlock => true | _ => false end.
Definition quit_set (t : timer_pc) : bool := match t with TNotifyAll | TUnlock | TExited => true | _ => false end.
Definition all_woken (t : timer_pc) : bool := match t with TUnlock | TExited => true | _ => false end.

Definition sleepers (ws : list worker_pc) : Z := Z.of_nat (length (filter (λ pc, counted pc = true) ws)).

Record threads_inv (s : threads) : Prop := {
  t_owner : match md_mutex (td s) with
            | Some (Worker i) => ∃ pc, workers s !! i = Some pc ∧ holds pc = true
            | Some Timer_thread => timer_holds (tpc s) = true
            | None => True
            end;
  t_worker i pc : workers s !! i = Some pc → holds pc = true → md_mutex (td s) = Some (Worker i);
  t_timer : timer_holds (tpc s) = true → md_mutex (td s) = Some Timer_thread;
  t_count : work_thread_sleep_count (td s) = sleepers (workers s);
  t_quit : is_work_thread_quit (td s) = quit_set (tpc s);
  t_calm i : all_woken (tpc s) = true → workers s !! i ≠ Some WWaiting
}.

Lemma threads_start_inv n : threads_inv (threads_start n).
Proof.
  split; simpl; try done.
  - by intros i pc [-> _]%lookup_replicate.
  - unfold sleepers. induction n as [|n IH]; [done|]. by rewrite replicate_S, filter_cons_False.
Qed.

Lemma sleepers_insert ws i pc pc' : ws !! i = Some pc →
  sleepers (<[i := pc']> ws) = sleepers ws - b2z (counted pc) + b2z (counted pc').
Proof.
  unfold sleepers. revert i. induction ws as [|w ws IH]; intros [|i]; [done|done| |].
  - intros [= ->]. simpl. rewrite !filter_cons. destruct (counted pc), (counted pc'); simpl; lia.
  - intros Hi. specialize (IH i Hi). simpl. rewrite !filter_cons. case_decide; simpl; lia.
Qed.

(** one worker goes on: what becomes of the mutex and of the count *)
Lemma move_inv s s' i pc pc' : threads_inv s → workers s !! i = Some pc →
  workers s' = <[i := pc']> (workers s) → tpc s' = tpc s →
  is_work_thread_quit (td s') = is_work_thread_quit (td s) →
  work_thread_sleep_count (td s') = work_thread_sleep_count (td s) - b2z (counted pc) + b2z (counted pc') →
  (md_mutex (td s') = md_mutex (td s) ∧ holds pc' = holds pc ∨
   md_mutex (td s) = None ∧ md_mutex (td s') = Some (Worker i) ∧ holds pc' = true ∨
   md_mutex (td s') = None ∧ holds pc = true ∧ holds pc' = false) →
  (pc' = WWaiting → is_work_thread_quit (td s) = false) → threads_inv s'.
Proof.
  intros [Howner Hworker Htimer Hcount Hquit Hcalm] Hi Hws Htpc Hq Hc Hlock Hwait.
  assert (Hlt : (i < length (workers s))%nat) by (by eapply lookup_lt_Some).
  assert (Hother : ∀ j pc, i ≠ j → <[i := pc']> (workers s) !! j = Some pc → workers s !! j = Some pc)
    by (intros j pc0 Hne Hj; by rewrite list_lookup_insert_ne in Hj).
  split; rewrite ?Hws, ?Htpc.
  - destruct Hlock as [[-> Hh]|[(_ & -> & Hh)|(-> & _)]]; [| |done].
    + destruct (md_mutex (td s)) as [[j|]|]; [|done|done]. destruct Howner as (pcj & Hj & Hhj).
      destruct (decide (i = j)) as [->|Hne]; [exists pc'; rewrite list_lookup_insert_eq by done; split; [done|congruence]|].
      exists pcj. by rewrite list_lookup_insert_ne.
    + exists pc'. by rewrite list_lookup_insert_eq.
  - intros j pcj Hj Hhj. destruct (decide (i = j)) as [->|Hne].
    + rewrite list_lookup_insert_eq in Hj by done. injection Hj as <-.
      destruct Hlock as [[-> Hh]|[(_ & -> & Hh)|(_ & _ & Hh)]]; [|done|congruence]. apply (Hworker _ pc); [done|congruence].
    + assert (Hm : md_mutex (td s) = Some (Worker j)) by (eapply Hworker; [by eapply Hother|done]).
      destruct Hlock as [[-> _]|[(Hn & _)|(_ & Hh & _)]]; [done|congruence|].
      rewrite (Hworker i pc Hi Hh) in Hm. injection Hm as <-. done.
  - intros Ht. specialize (Htimer Ht). destruct Hlock as [[-> _]|[(Hn & _)|(_ & Hh & _)]]; [done|congruence|].
    rewrite (Hworker i pc Hi Hh) in Htimer. done.
  - by rewrite (sleepers_insert _ _ pc), Hc, Hcount.
  - by rewrite Hq.
  - intros j Hw Hj. destruct (decide (i = j)) as [->|Hne]; [|by eapply Hcalm; [done|eapply Hother]].
    rewrite list_lookup_insert_eq in Hj by done. injection Hj as ->. rewrite Hquit in Hwait. specialize (Hwait eq_refl).
    destruct (tpc s); done.
Qed.

Lemma lock_inv s t s' : lock s t = Some s' → md_mutex (td s) = None ∧ s' = set_md s (λ d, d <| md_mutex := Some t |>).
Proof. unfold lock. destruct (md_mutex (td s)); [done|]. by intros [= <-]. Qed.

Lemma worker_step_inv s i q_null s' : threads_inv s → worker_step s i q_null = Some s' → threads_inv s'.
Proof.
  intros Hinv. unfold worker_step. destruct (workers s !! i) as [pc|] eqn:Hi; [|done].
  destruct pc; [| |intros (s1 & (Hm & ->)%lock_inv & H)%bind_Some; revert H| | |done|intros (s1 & (Hm & ->)%lock_inv & H)%bind_Some; revert H| |done].
  - intros [= <-]. eapply move_inv; [done|done|done|done|done|simpl; by destruct (is_work_thread_quit _); simpl; lia|left; by destruct (is_work_thread_quit _)|by destruct (is_work_thread_quit _)].
  - intros [= <-]. eapply move_inv; [done|done|done|done|done|simpl; destruct q_null; simpl; lia|left; by destruct q_null|by destruct q_null].
  - intros [= <-]. eapply (move_inv s _ i WLock WCount); try done; [simpl; lia|right; left; by split_and!].
  - intros [= <-]. eapply (move_inv s _ i WCount WCheck); try done; [simpl; lia|by left].
  - destruct (is_work_thread_quit (td s)) eqn:Hq; intros [= <-].
    + eapply (move_inv s _ i WCheck WUncount); try done; [simpl; lia|by left].
    + eapply (move_inv s _ i WCheck WWaiting); try done; [simpl; lia|right; right; by split_and!].
  - intros [= <-]. eapply (move_inv s _ i WRelock WUncount); try done; [simpl; lia|right; left; by split_and!].
  - intros [= <-]. eapply (move_inv s _ i WUncount WTest); try done; [simpl; lia|right; right; by split_and!].
Qed.

Lemma wake_inv s i : threads_inv s → workers s !! i = Some WWaiting → threads_inv (set_worker s i WRelock).
Proof. intros Hinv Hi. eapply (move_inv s _ i WWaiting WRelock); try done; [simpl; lia|by left]. Qed.

Lemma notify_one_inv s wake s' : threads_inv s → notify_one s wake = Some s' → threads_inv s' ∧ tpc s' = tpc s ∧ spc s' = spc s.
Proof.
  intros Hinv. unfold notify_one. destruct (workers s !! wake) as [[]|] eqn:Hw; try (case_match; [done|by intros [= <-]]).
  intros [= <-]. split; [by apply wake_inv|done].
Qed.

(** the timer thread goes on without the mutex and the flag *)
Lemma tpc_inv s t : threads_inv s → timer_holds t = timer_holds (tpc s) → quit_set t = quit_set (tpc s) →
  all_woken t = false → threads_inv (s <| tpc := t |>).
Proof.
  intros [Howner Hworker Htimer Hcount Hquit Hcalm] Ht Hq Hw. split; simpl; try done; rewrite ?Ht, ?Hq; try done.
  intros i. by rewrite Hw.
Qed.

Lemma waiting_count ws : sleepers (map (λ pc, match pc with WWaiting => WRelock | _ => pc end) ws) = sleepers ws.
Proof.
  unfold sleepers. induction ws as [|w ws IH]; [done|]. cbn [map]. rewrite !filter_cons. destruct w; simpl; lia.
Qed.

Lemma timer_step_inv s no_service wake s' : threads_inv s → timer_step s no_service wake = Some s' → threads_inv s'.
Proof.
  intros Hinv. unfold timer_step. destruct (tpc s) eqn:Ht.
  - intros [= <-]. apply tpc_inv; [done|..]; by destruct no_service; rewrite ?Ht.
  - intros (s1 & Hs1 & [= <-])%bind_Some.
    assert (H1 : threads_inv s1 ∧ tpc s1 = tpc s ∧ spc s1 = spc s) by (case_match; [by eapply notify_one_inv|by injection Hs1 as <-]).
    destruct H1 as (Hinv1 & Ht1 & _). apply tpc_inv; [done|..]; by rewrite ?Ht1, ?Ht.
  - intros [= <-]. apply tpc_inv; [done|..]; by rewrite ?Ht.
  - intros [= <-]. apply tpc_inv; [done|..]; by rewrite ?Ht.
  - intros (s1 & (Hm & ->)%lock_inv & [= <-])%bind_Some. destruct Hinv as [Howner Hworker Htimer Hcount Hquit Hcalm].
    split; simpl; try done; [|by rewrite Hquit, Ht]. intros i pc Hi Hh. specialize (Hworker i pc Hi Hh). congruence.
  - intros [= <-]. destruct Hinv as [Howner Hworker Htimer Hcount Hquit Hcalm]. rewrite Ht in *. by split.
  - intros [= <-]. destruct Hinv as [Howner Hworker Htimer Hcount Hquit Hcalm]. rewrite Ht in *. specialize (Htimer eq_refl).
    split; simpl; try done.
    + by rewrite Htimer.
    + intros i pc Hi Hh. rewrite list_lookup_fmap in Hi. destruct (workers s !! i) as [pci|] eqn:E; [|done].
      injection Hi as <-. rewrite (Hworker i pci E) in Htimer; [done|]. by destruct pci.
    + by rewrite waiting_count.
    + intros i _ Hi. rewrite list_lookup_fmap in Hi. destruct (workers s !! i) as [[]|]; done.
  - intros [= <-]. destruct Hinv as [Howner Hworker Htimer Hcount Hquit Hcalm]. rewrite Ht in *. specialize (Htimer eq_refl).
    split; simpl; try done. intros i pc Hi Hh. rewrite (Hworker i pc Hi Hh) in Htimer. done.
  - done.
Qed.

Lemma other_pc_inv s sp mp : threads_inv s → threads_inv (s <| spc := sp |> <| mpc := mp |>).
Proof. by intros []; split. Qed.

Lemma step_inv s a s' : threads_inv s → step s a = Some s' → threads_inv s'.
Proof.
  intros Hinv. destruct a as [i q_null|i|no_service wake|ret no_service wake|no_service]; cbn [step].
  - by apply worker_step_inv.
  - unfold spurious_step. destruct (workers s !! i) as [[]|] eqn:Hi; try done. intros [= <-]. by apply wake_inv.
  - by apply timer_step_inv.
  - unfold socket_step. destruct (spc s); [intros [= <-]; by apply (other_pc_inv s _ (mpc s))..| |done].
    intros (s1 & Hs1 & [= <-])%bind_Some. apply (other_pc_inv s1 SPoll (mpc s1)).
    case_match; [by eapply notify_one_inv|by injection Hs1 as <-].
  - unfold monitor_step. destruct (mpc s); [intros [= <-]; by apply (other_pc_inv s (spc s))..|done].
Qed.

Lemma run_inv s acts s' : threads_inv s → run_threads s acts = Some s' → threads_inv s'.
Proof.
  revert s. induction acts as [|a acts IH]; intros s Hinv; [by intros [= <-]|]. cbn [run_threads].
  intros (s1 & Hs1 & Hrun)%bind_Some. eapply IH; [|done]. by eapply step_inv.
Qed.

(** ** After the flag is set *)

(** how many steps a worker has left, and all of them together *)
Definition rank (pc : worker_pc) : nat :=
  match pc with
  | WExited => 0 | WTest => 1 | WUncount => 2 | WRelock => 3 | WCheck => 3 | WCount => 4 | WLock => 5 | WDispatch => 6 | WWaiting => 4
  end.
Definition total_rank (ws : list worker_pc) : nat := sum_list_with rank ws.

Lemma rank_insert ws i pc pc' : ws !! i = Some pc →
  (total_rank (<[i := pc']> ws) + rank pc = total_rank ws + rank pc')%nat.
Proof.
  unfold total_rank. revert i. induction ws as [|w ws IH]; intros [|i]; [done|done| |].
  - intros [= ->]. simpl. lia.
  - intros Hi. specialize (IH i Hi). simpl. lia.
Qed.

Lemma worker_step_rank s i q_null s' : is_work_thread_quit (td s) = true → worker_step s i q_null = Some s' →
  (total_rank (workers s') < total_rank (workers s))%nat ∧ tpc s' = tpc s ∧ length (workers s') = length (workers s).
Proof.
  intros Hq. unfold worker_step. destruct (workers s !! i) as [pc|] eqn:Hi; [|done].
  assert (Hset : ∀ pc', (rank pc' < rank pc)%nat → (total_rank (<[i := pc']> (workers s)) < total_rank (workers s))%nat)
    by (intros pc' Hlt; pose proof (rank_insert _ _ pc pc' Hi); lia).
  destruct pc; try done; rewrite ?Hq; try (intros (s1 & (_ & ->)%lock_inv & [= <-])%bind_Some); try (intros [= <-]);
    simpl; rewrite ?length_insert; (split; [apply Hset; simpl; try destruct q_null; simpl; lia|done]).
Qed.

(** the other threads leave the workers alone once nobody waits *)
Lemma other_step_workers s a s' : threads_inv s → tpc s = TExited → step s a = Some s' →
  match a with AWorker _ _ => True | _ => workers s' = workers s end ∧ tpc s' = TExited.
Proof.
  intros Hinv Ht. assert (Hw : ∀ i, workers s !! i ≠ Some WWaiting) by (intros i; apply (t_calm s Hinv); by rewrite Ht).
  destruct a as [i q_null|i|no_service wake|ret no_service wake|no_service]; cbn [step].
  - intros Hs. split; [done|]. rewrite <- Ht. eapply worker_step_rank; [|done]. by rewrite (t_quit s Hinv), Ht.
  - unfold spurious_step. specialize (Hw i). by destruct (workers s !! i) as [[]|].
  - unfold timer_step. by rewrite Ht.
  - unfold socket_step. destruct (spc s); [by intros [= <-]..| |done]. intros (s1 & Hs1 & [= <-])%bind_Some.
    assert (s1 = s) as ->; [|done]. case_match; [|congruence]. unfold notify_one in Hs1. specialize (Hw wake).
    destruct (workers s !! wake) as [[]|]; try done; by destruct (existsb _ _); [|injection Hs1 as <-].
  - unfold monitor_step. by destruct (mpc s); [intros [= <-]..|].
Qed.

Definition is_worker_step (a : action) : bool := match a with AWorker _ _ => true | _ => false end.
Definition worker_steps (acts : list action) : nat := length (filter (λ a, is_worker_step a = true) acts).

Lemma stop_run s acts s' : threads_inv s → tpc s = TExited → run_threads s acts = Some s' →
  (worker_steps acts + total_rank (workers s') <= total_rank (workers s))%nat ∧ tpc s' = TExited.
Proof.
  revert s. induction acts as [|a acts IH]; intros s Hinv Ht; [intros [= <-]; by split|]. cbn [run_threads].
  intros (s1 & Hs1 & Hrun)%bind_Some. destruct (other_step_workers s a s1 Hinv Ht Hs1) as [Hws Ht1].
  destruct (IH s1 (step_inv _ _ _ Hinv Hs1) Ht1 Hrun) as [Hrank Ht']. split; [|done]. unfold worker_steps in *. rewrite filter_cons.
  destruct a as [i q_null|i|no_service wake|ret no_service wake|no_service]; try (rewrite decide_False by done; by rewrite <- Hws).
  rewrite decide_True by done. simpl. destruct (worker_step_rank s i q_null s1) as [Hlt _]; [by rewrite (t_quit s Hinv), Ht|done|lia].
Qed.

Lemma total_rank_bound ws : (total_rank ws <= 6 * length ws)%nat.
Proof. unfold total_rank. induction ws as [|w ws IH]; [done|]. cbn [sum_list_with length]. assert (rank w <= 6)%nat by (destruct w; simpl; lia). lia. Qed.

Lemma step_length s a s' : step s a = Some s' → length (workers s') = length (workers s).
Proof.
  assert (Hn : ∀ s wake s', notify_one s wake = Some s' → length (workers s') = length (workers s)).
  { intros s0 wake s1. unfold notify_one. destruct (workers s0 !! wake) as [[]|]; try (case_match; [done|by intros [= <-]]).
    intros [= <-]. unfold set_worker. simpl. apply length_insert. }
  destruct a as [i q_null|i|no_service wake|ret no_service wake|no_service]; cbn [step].
  - unfold worker_step. destruct (workers s !! i) as [[]|]; try done;
      try (intros (s1 & (_ & ->)%lock_inv & [= <-])%bind_Some); try (case_match; intros [= <-]); try (intros [= <-]); simpl; by rewrite length_insert.
  - unfold spurious_step. destruct (workers s !! i) as [[]|]; try done. intros [= <-]. simpl. by rewrite length_insert.
  - unfold timer_step. destruct (tpc s); try (by intros [= <-]).
    + intros (s1 & Hs1 & [= <-])%bind_Some. change (length (workers s1) = length (workers s)).
      case_match; [exact (Hn _ _ _ Hs1)|by injection Hs1 as <-].
    + by intros (s1 & (_ & ->)%lock_inv & [= <-])%bind_Some.
    + intros [= <-]. simpl. by rewrite length_map.
  - unfold socket_step. destruct (spc s); try (by intros [= <-]).
    intros (s1 & Hs1 & [= <-])%bind_Some. change (length (workers s1) = length (workers s)).
      case_match; [exact (Hn _ _ _ Hs1)|by injection Hs1 as <-].
  - unfold monitor_step. by destruct (mpc s); [intros [= <-]..|].
Qed.

Lemma run_length s acts s' : run_threads s acts = Some s' → length (workers s') = length (workers s).
Proof.
  revert s. induction acts as [|a acts IH]; intros s; [by intros [= <-]|]. cbn [run_threads].
  intros (s1 & Hs1%step_length & Hrun%IH)%bind_Some. congruence.
Qed.

(** a worker that cannot go on has ended *)
Lemma stuck_exited s i pc : threads_inv s → tpc s = TExited → (∀ j q_null, worker_step s j q_null = None) →
  workers s !! i = Some pc → pc = WExited.
Proof.
  intros Hinv Ht Hstuck Hi. pose proof (Hstuck i true) as Hs. unfold worker_step in Hs. rewrite Hi in Hs.
  assert (Hfree : md_mutex (td s) = None).
  { pose proof (t_owner s Hinv) as Ho. destruct (md_mutex (td s)) as [[j|]|]; [|by rewrite Ht in Ho|done]. destruct Ho as (pcj & Hj & Hh).
    specialize (Hstuck j true). unfold worker_step in Hstuck. rewrite Hj in Hstuck. destruct pcj; try done. by destruct (is_work_thread_quit _). }
  unfold lock in Hs. rewrite Hfree in Hs. destruct pc; try done; [by destruct (is_work_thread_quit _)|].
  exfalso. eapply (t_calm s Hinv); [|done]. by rewrite Ht.
Qed.

(** ** Claims *)

(** C9: In every state the threads of a node can reach, however they interleave: no two of
    them hold the mutex of the monitor data, the number of sleeping workers is exactly the
    number of workers that counted themselves and did not take it back, and once the timer
    thread has ended no worker is left waiting on the condition variable, so that the end of
    the node cannot be missed. *)
Theorem no_worker_stranded n acts s : run_threads (threads_start n) acts = Some s →
  (∀ i j pci pcj, workers s !! i = Some pci → workers s !! j = Some pcj → holds pci = true → holds pcj = true → i = j) ∧
  work_thread_sleep_count (td s) = sleepers (workers s) ∧
  (tpc s = TExited → ∀ i, workers s !! i ≠ Some WWaiting).
Proof.
  intros Hrun. pose proof (run_inv _ _ _ (threads_start_inv n) Hrun) as Hinv. split_and!.
  - intros i j pci pcj Hi Hj Hhi Hhj. pose proof (t_worker s Hinv i pci Hi Hhi) as H1.
    rewrite (t_worker s Hinv j pcj Hj Hhj) in H1. by injection H1.
  - apply (t_count s Hinv).
  - intros Ht i. apply (t_calm s Hinv). by rewrite Ht.
Qed.

(** two workers, one of them asleep when the last service ends *)
Definition stop_example : list action :=
  [AWorker 0 true; AWorker 0 true; AWorker 0 true; AWorker 0 true; AWorker 0 true; AWorker 1 true;
   ATimer true 0; ATimer true 0; ATimer true 0; ATimer true 0; ATimer true 0; ATimer true 0].

Lemma no_worker_stranded_witness : ∃ s, run_threads (threads_start 2) stop_example = Some s ∧
  workers s = [WRelock; WDispatch] ∧ (tpc s = TExited → ∀ i, workers s !! i ≠ Some WWaiting).
Proof.
  eexists. split; [vm_compute; reflexivity|]. split; [reflexivity|].
  apply (no_worker_stranded 2 stop_example). vm_compute. reflexivity.
Defined.

(** C10: Once the timer thread has ended, the workers end: whatever the threads do from then
    on, the workers take no more than six steps each together, and when none of them can
    take another step, all of them have left their loop. *)
Theorem workers_stop n acts s acts' s' : run_threads (threads_start n) acts = Some s → tpc s = TExited →
  run_threads s acts' = Some s' →
  (worker_steps acts' <= 6 * n)%nat ∧
  ((∀ i q_null, worker_step s' i q_null = None) → workers s' = replicate n WExited).
Proof.
  intros Hrun Ht Hrun'. pose proof (run_inv _ _ _ (threads_start_inv n) Hrun) as Hinv.
  destruct (stop_run s acts' s' Hinv Ht Hrun') as [Hrank Ht']. pose proof (run_inv _ _ _ Hinv Hrun') as Hinv'.
  assert (Hlen : length (workers s) = n) by (rewrite (run_length _ _ _ Hrun); apply length_replicate).
  split; [pose proof (total_rank_bound (workers s)); lia|]. intros Hstuck. symmetry. apply replicate_as_elem_of.
  split; [by rewrite (run_length _ _ _ Hrun')|]. intros pc [i Hi]%list_elem_of_lookup. by eapply stuck_exited.
Qed.

Lemma workers_stop_witness : ∃ s s', run_threads (threads_start 2) stop_example = Some s ∧
  run_threads s [AWorker 1 false; AWorker 0 true; AWorker 1 true; AWorker 0 true; AWorker 0 true] = Some s' ∧
  workers s' = replicate 2 WExited.
Proof.
  eexists _, _. split; [vm_compute; reflexivity|]. split; [vm_compute; reflexivity|].
  eapply (workers_stop 2 stop_example _ [AWorker 1 false; AWorker 0 true; AWorker 1 true; AWorker 0 true; AWorker 0 true]); [vm_compute; reflexivity|reflexivity|vm_compute; reflexivity|].
  intros [|[|i]] q; reflexivity.
Defined.
